(* ===== verification/_CoqProject ===== *)
-Q . S2P
Prelude.v
Str.v
Utf8.v
Decimal.v
Regex.v
TaskId.v
ToolNames.v
ToolArgs.v
Extractor.v
Agents.v
PlanParse.v
PlanParseFacts.v
Markers.v
MarkersFacts.v
Wire.v
Session.v
Budget.v
Context.v
ContextFacts.v
Normalize.v
NormalizeFacts.v
Thinking.v
ThinkingFacts.v
Steer.v
Retry.v
Pool.v
Mcp.v
PoolFacts.v
Notice.v
NoticeFacts.v
NoticeRouting.v
NoticeProps.v
Registry.v
RegistryView.v
RegistryFacts.v
RegistryProps.v
Preemption.v
PreemptionFacts.v
PreemptionProps.v
Json.v
Repetition.v
RepetitionFacts.v
CallArguments.v
XmlRescue.v
XmlFacts.v
Monitor.v
Client.v
ClientFacts.v
Stream.v
StreamFacts.v
Journal.v
JournalFacts.v
WorkerRestore.v
RestoreFacts.v
Disk.v
DiskFacts.v
Atomic.v
Documents.v
MemberName.v
Commit.v
CommitFacts.v
Load.v
CommitProps.v
LoadProps.v
Plan.v
PlanFacts.v
PlanProps.v
PathGate.v
PathGateFacts.v
FileTools.v
FileFacts.v
ReplaceLock.v
Verdict.v
FixLoop.v
FixLoopFacts.v
Dispatch.v
DispatchFacts.v
Reply.v
Specialist.v
SpecialistFacts.v
