(* ===== verification/Prelude.v ===== *)
(** * Marmel: verification development

    Marmel is a terminal agent: a manager model plans a task, delegates its
    lines to specialist workers, reads their deliverables and steers the running
    ones.  This library models the parts of the program that decide something,
    as executable definitions translated from the Rust sources under [src/src/],
    and proves what each part promises to the others.

    ** How the parts fit together

    A plan is a markdown file of task lines.  Its lines are read by the task-line
    grammar ([PlanParse]); its identifiers by the task-id rules ([TaskId]); the
    roles written on its lines by [Agents].  The manager delegates a task: the
    delegation registers a worker ([Registry]), waits for a model session
    ([Pool]), and runs over a message history ([Wire], [Context]) whose model
    replies are read by the client ([Client], retried by [Retry]), demultiplexed
    from the stream ([Thinking], [Stream]) and watched for loops ([Monitor]).  While it runs, its history is mirrored ([Journal]), the
    user's steering notices wait in its inbox ([Notice]) and the status surfaces
    read the registry ([RegistryView]).  When it ends, its deliverable is judged
    by the marker grammar ([Markers]), the judged task is checked off the plan
    file ([Plan] over [Disk]), and the guard of the worker is dropped.  An
    instruction of the user borrows the model slot of the running streams
    ([Preemption]) while the arbitrator decides ([Steer]).  The run of a worker is
    a loop of turns ([Specialist]): it streams a reply, runs its calls, has a
    concluding deliverable validated and hands it back.  A call of a tool is
    judged by the rules of its caller and run by a handler, or sent to a server
    through the gate ([Dispatch] over [FileTools] and [Mcp]); a validator audits a
    deliverable in rounds of such calls until it records a verdict ([FixLoop],
    [Verdict]).  A session is captured
    as a bundle of records ([Session]), committed ([Commit] over [Atomic]) and
    loaded by a later process ([Load]), which installs the workers found in it
    ([WorkerRestore]).

    ** The files and the code they model

    - [Prelude]: outcomes (a value or a Rust panic), lists, sorting, tactics.
    - [Str]: strings as lists of code points with UTF-8 byte offsets; the string
      functions of the Rust standard library the sources call.  The Unicode
      tables are the class [Unicode].
    - [Regex]: a backtracking matcher for the patterns of the sources, with
      captures; sound and complete for a language semantics.
    - [TaskId]: [task_id.rs].
    - [Agents]: the roles of [agents/mod.rs], the tools each may call and the
      registry's rules, of the files of the roles, [orchestrator/registry.rs] and
      [harness/common.rs].
    - [PlanParse], [PlanParseFacts]: [plan_parse.rs], the grammar of plan lines,
      fences, directives and roles, and the check-off of a line.
    - [Markers], [MarkersFacts]: [markers.rs], the verdict of a deliverable.
    - [Wire]: [types/wire.rs] and the part of [types/tools.rs] the engine uses.
    - [Session]: the message records of [session/format/].
    - [Budget], [Context], [ContextFacts]: [manager/context.rs], the message
      history of an agent, its token budgets, compaction, repair and rebirth.
      [Budget] holds the binary64 products of the thresholds.
    - [Thinking], [ThinkingFacts]: [llm/thinking.rs].
    - [Retry]: [net/retry.rs].
    - [Pool], [PoolFacts]: [orchestrator/pool.rs] with the caps of [config.rs].
    - [Notice], [NoticeFacts], [NoticeRouting], [NoticeProps]:
      [orchestrator/notice.rs].
    - [Registry], [RegistryView], [RegistryFacts], [RegistryProps]:
      [orchestrator/workers.rs] and [orchestrator/worker_pause.rs].
    - [Journal], [JournalFacts]: the mirror of [session/worker_journal.rs] and
      the clocks of [session/time.rs].
    - [WorkerRestore], [RestoreFacts]: the projection and installation of
      workers in [session/worker_journal.rs], with the harvest and the identity
      floors of [ui/session.rs].
    - [Disk]: the calls of [std::fs] the plan makes, any of which can fail.
    - [Plan], [PlanFacts], [PlanProps]: [manager/phase.rs].
    - [Utf8], [Decimal]: UTF-8 bytes, decimal printing and parsing, binary64
      comparisons and roundings; [text_util.rs] is in [Str].
    - [ToolNames], [ToolArgs]: [tool_names.rs] and [tool_args.rs].
    - [Extractor], [Steer]: the decision of the arbitrator, in
      [orchestrator/steer_extractor.rs] and [orchestrator/steer.rs], with the
      steering history of [orchestrator/bus.rs].
    - [Preemption], [PreemptionFacts], [PreemptionProps]:
      [orchestrator/preemption.rs] and the waits of
      [orchestrator/worker_pause.rs], as interleaved steps over channels.
    - [DiskFacts], [Atomic]: facts of the calls, and the staged atomic write of
      [harness/fs.rs].
    - [Documents], [MemberName]: the documents of a bundle in
      [session/format/] and the names of its member files.
    - [Normalize], [NormalizeFacts]: the healing of stored transcripts in
      [session/restore.rs].
    - [Commit], [CommitFacts], [CommitProps]: [session/commit.rs].
    - [Load], [LoadProps]: the loading of a bundle in
      [session/restore.rs], and concrete sessions that are committed and loaded.
    - [Json]: the values of JSON by serde_json's enum, the laws its
      reader and printer are used by, and a small codec that has them.
    - [CallArguments]: the sanitizer of call arguments in [types/wire.rs].
    - [Repetition], [RepetitionFacts], [XmlRescue], [XmlFacts],
      [Monitor]: [harness/monitor/], which watches the calls and the text of an
      agent and rescues calls written as text.
    - [Client], [ClientFacts]: [llm/client.rs] with the pump of [net/sse.rs]: the
      attempts of a call and the assembly of its reply, over scripts of what each
      wait ends with.
    - [Stream], [StreamFacts]: [llm/stream.rs]: the handler of a turn, the sink
      it writes to, pauses, continuations and nudges.
    - [PathGate], [PathGateFacts]: the path gate of [harness/fs.rs]
      with the workspace root of [harness/mod.rs], over what the system answers
      for a path, and a file system with links at which it is run.
    - [FileTools], [FileFacts]: the file
      tools of [harness/fs.rs], with the nested instructions of
      [agents/catalog.rs].
    - [ReplaceLock]: the locks of concurrent edits, as interleaved steps.
    - [Mcp]: the names of the servers' tools in [mcp/mod.rs], the registry and its
      boot in [mcp/client.rs], and the gate of [harness/mod.rs].
    - [Verdict]: the arguments of a verdict, the brief and the skip record of a
      task in [agents/validation.rs] and [agents/prompt_builder.rs].
    - [FixLoop], [FixLoopFacts]: [agents/runner/fix_loop.rs] with the watchdog of
      [manager/loop.rs] and the passes of [agents/validation.rs]: the rounds of a
      validator over the client's streams, the monitor, the history and its mirror.
    - [Dispatch], [DispatchFacts]: the dispatchers of [harness/mod.rs] with the
      plan and sleep handlers of [harness/plan.rs] and [harness/sleep.rs].
    - [Reply]: the handler of a worker's reply to the arbitrator in [harness/mod.rs],
      and the reading of the arbitrator's judgement in [orchestrator/notice.rs].
    - [Specialist], [SpecialistFacts]: the loop of a worker in
      [agents/runner/execution.rs], and the deliverables of
      [agents/runner/assembly.rs].
    A definition carries the name of the function it translates.  Methods that
    change an object take the object and answer the new one; statics and shared
    tables are fields of a state record that the operations pass on.  A function
    that slices a string or indexes a list answers an [outcome], so that never
    panicking is a theorem.

    ** What the theorems show

    - Grammar: a task-line parse yields offsets inside the line on character
      boundaries; rendering a line and parsing it gives the line back; checking
      off a document changes one box and nothing else; id validation accepts
      exactly the well-formed ids and each refusal names a fault that is there.
    - Verdicts: the parser of deliverables is total, agrees with the presence
      tests, and a line that opens with FAILED is never a completion.
    - Context: compaction terminates, keeps the pinned messages and reports what
      it did; the repair leaves every tool call answered once, in order; a
      capture and its restore give the history back.
    - Streams and calls: the demuxer answers the same however the stream is
      chunked; retries stop, and the delay of each is bounded.
    - Pool: no permit and no queue ticket leaks, in any interleaving.
    - Notices: the store invariant holds in every reachable store; posting and
      draining lose no notice they do not report; routing is by identity; a prune
      leaves at most 256 targets, and only a post to one more exceeds them.
    - Workers: the registry refines slots with one owner each; a registration
      never overwrites a live entry; dropping every guard completes every
      worker; a cancellation hits the workers of the named task only.
    - Sessions: the mirror refines the engine's history; a restart brings every
      worker back under its key, named after its role; an installation clobbers no live entry.
    - Plan: archiving, replacing and cleaning up never lose a plan or a file of
      the user, whichever call fails; a deliverable ticks its own task only.
    - Session store: a commit is all or nothing at its manifest; what was
      committed loads again; what loads is sound; a second commit rewrites every
      member.
    - Steering: a decision is streamed as it is encoded, its reading panics on
      one shape of text only, and a reply is filed under one exchange.
    - Preemption: no interleaving leaves a stream paused for good, and a decision
      reaches the streams it names and cancels no other.
    - Monitor: the verdict on a call and the break of a text are what their rules
      say of the history; the windows hold what they should of the stream; the
      rescue reads the pairs of tags outside fences, and the legacy calls no pair
      follows, and panics on one shape of block only; the arguments of a call are
      always an object.
    - Model calls: whatever the transport does, the caller of a call is shown one
      attempt once and in order; only a finished reply carries tool calls, which
      are those its deltas spell; what a stream answers is what its sink was
      sent; a stream that goes on is within its budgets, and a turn ends.
    - File tools: a path the gate answers lies below an allowed root, and is the
      canonical one unless [..] was folded; an edit replaces its one match or
      changes nothing; concurrent edits lose none and all finish; the pages of a
      file put its text together.
    - Validation: a run ends within its rounds; an approval comes from a verdict
      call of a validator, or from the record that a task needs none; no verdict
      is ever sent to the dispatcher; the mirror follows the history of a run.
    - Workers' runs: an answer completes its task only when the run needed no
      verdict, when a pass of validation approved that very content, or when the
      critique of a rejected one itself holds the marker.
    - Dispatch: a call does to the state what the handlers granted to its caller
      do and nothing else; a refusal leaves the history alone; a clipped result
      keeps both ends of its text.
    - Replies: a reply resolves its notice or has it pending again, files one
      exchange with the worker's words, and the next reply replaces that entry.
    - Servers: a server's tool never shadows a built-in one; composed names parse
      back; a boot ends with one verdict, whatever the order of the servers.
    ** Fuel and bounds

    A loop that is not structural takes fuel, and its result without fuel is
    excluded by a theorem or folded into a total definition: the re-trim loop of
    the context takes the number of messages, of which each pass removes one
    ([compact_total_truthful]); the search for a free worker key takes the size
    of the table plus one, since its candidates are distinct
    ([registration_exclusive]); a turn takes one more than its nudges and a
    stream one more than the pauses of its sink ([turn_ends]); a run of the fix loop
    takes one more than its cap of rounds, since the round after the cap is refused
    ([fix_loop_ends]); the loop of a worker has no bound of its own, and is
    followed for the turns it is given; the eviction of
    completed workers takes the size
    plus one, since each pass removes one; the search for a snapshot name takes
    the number of names taken plus one ([snapshot_search_ends]); the regular
    expressions take the length of the text; the lexer of the stream takes the
    length of its buffer.  Machine integers are [N] or [nat] with the source's
    saturating, wrapping or checked operation written out where it can matter;
    the thresholds of the context are exact roundings of binary64 products.

    ** Parameters

    What is not in the sources is an argument: the character tables ([Unicode]),
    the token counter ([Tokenizer]) and printer of JSON ([JsonPrinter]) the
    engine calls, the iteration order of the concurrent maps ([DashOrder]), the
    cancellation tokens and random ids of the runtime ([Tokens], [Uuids]), the
    calls of the file system that fail ([Faults]), every clock reading, the order
    in which waiting tasks are woken, the iteration order of the stream table
    ([StreamOrder]), the values and codecs of JSON ([JsonValue], [Json] with the
    round trip [JsonLaw] states; in the monitor, where the sources match on
    values, [Json.Numbers] and [Json.JsonText] with the laws of
    [Json.JsonTextLaw]), the digests and texts of the bundle ([Texts],
    [Outside]), the answers of the system for a path ([Os]) and the regex crate
    ([RegexCrate]) in the file tools, the handlers, servers and waits of the
    process as the dispatcher uses them ([Runtime]), and the scripts of what each
    round, turn and call of a fix loop or a worker awaits.  Each has a concrete instance that
    the witnesses use.

    ** What is left out

    Log lines, events sent to the interface and the text of errors are not
    modelled.  Seconds kept as floating point are kept as nanoseconds.
    [str::to_lowercase] maps each character on its own, without its rule for a
    final sigma.  In the interleaved models an edit's read and write succeed, a
    permit of the pool is taken together with the drop of its ticket, and a
    notice enters the table and its inbox at once.
    Instants count from the least one the clock can represent.  [Path::exists]
    and [is_file] answer truthfully.  The search, command and terminal tools, the assembly of prompts, the manager's own
    turn loop, the bytes of the HTTP and process transports, the terminal interface, the prompts and the
    search server are not modelled: they are I/O, rendering or text. *)

From stdpp Require Export base list numbers option gmap.
From Stdlib Require Export Lia ZifyBool ZifyN ZifyNat Sorting.Sorted.

(** Scope and notation shared by the whole development. *)
Declare Scope marmel_scope.
Delimit Scope marmel_scope with marmel.

(** ** Outcomes: values or a Rust panic

    [Panic] models an unwinding panic (a slice off a character boundary, an
    index out of range, a failed assertion).  Definitions that can panic in
    the source return [outcome], so that "it never panics" is a theorem. *)
Inductive outcome (A : Type) : Type :=
  | Ret (a : A)
  | Panic.
Arguments Ret {A} _.
Arguments Panic {A}.

#[export] Instance outcome_ret : MRet outcome := fun A a => Ret a.
#[export] Instance outcome_bind : MBind outcome :=
  fun A B f m => match m with Ret a => f a | Panic => Panic end.
#[export] Instance outcome_fmap : FMap outcome :=
  fun A B f m => match m with Ret a => Ret (f a) | Panic => Panic end.

(** A Rust [unwrap]/index: [None] is a panic. *)
Definition unwrap {A} (o : option A) : outcome A :=
  match o with Some a => Ret a | None => Panic end.

(** [or_else a b] is Rust's [Option::or_else]. *)
Definition or_else {A} (a b : option A) : option A :=
  match a with Some _ => a | None => b end.

(** [find_map f l] is Rust's [Iterator::find_map]. *)
Fixpoint find_map {A B} (f : A -> option B) (l : list A) : option B :=
  match l with
  | [] => None
  | x :: l' => match f x with Some y => Some y | None => find_map f l' end
  end.

(** [find p l] is Rust's [Iterator::find]. *)
Fixpoint find_first {A} (p : A -> bool) (l : list A) : option A :=
  match l with
  | [] => None
  | x :: l' => if p x then Some x else find_first p l'
  end.

Fixpoint take_while {A} (p : A -> bool) (l : list A) : list A :=
  match l with
  | [] => []
  | x :: l' => if p x then x :: take_while p l' else []
  end.

Fixpoint drop_while {A} (p : A -> bool) (l : list A) : list A :=
  match l with
  | [] => []
  | x :: l' => if p x then drop_while p l' else l
  end.

(** [sum_with f l] is Rust's [iter().map(f).sum()] on [usize]. *)
Fixpoint sum_with {A} (f : A -> nat) (l : list A) : nat :=
  match l with
  | [] => 0
  | x :: l' => f x + sum_with f l'
  end.

(** [sort_with le] is a stable sort, as Rust's [sort_by]: insertion sort that
    keeps equal elements in their order. *)
Fixpoint insert_with {A} (le : A -> A -> bool) (x : A) (l : list A) : list A :=
  match l with
  | [] => [x]
  | y :: l' => if le x y then x :: l else y :: insert_with le x l'
  end.
Definition sort_with {A} (le : A -> A -> bool) (l : list A) : list A :=
  foldr (insert_with le) [] l.

(** ** Automation *)

(** Split boolean connectives in hypotheses and goal. *)
Ltac bool_simpl :=
  repeat match goal with
  | H : _ && _ = true |- _ => apply andb_true_iff in H; destruct H
  | H : _ || _ = false |- _ => apply orb_false_iff in H; destruct H
  | H : negb _ = true |- _ => apply negb_true_iff in H
  | H : negb _ = false |- _ => apply negb_false_iff in H
  | H : (_ =? _)%N = true |- _ => apply N.eqb_eq in H
  | H : (_ =? _)%N = false |- _ => apply N.eqb_neq in H
  | H : (_ =? _)%nat = true |- _ => apply Nat.eqb_eq in H
  | H : (_ =? _)%nat = false |- _ => apply Nat.eqb_neq in H
  end.

Create HintDb marmel.

(** ** Lists *)

Section lists.
Context {A : Type}.
Implicit Types (p : A -> bool) (l : list A).

Lemma take_drop_while p l : take_while p l ++ drop_while p l = l.
Proof. induction l as [|x l IH]; simpl; [done|]. destruct (p x); simpl; congruence. Qed.

Lemma take_while_Forall p l : Forall (fun x => p x = true) (take_while p l).
Proof. induction l as [|x l IH]; simpl; [constructor|]. destruct (p x) eqn:E; auto. Qed.

Lemma drop_while_head p l x l' : drop_while p l = x :: l' -> p x = false.
Proof.
  induction l as [|y l IH]; simpl; [done|].
  destruct (p y) eqn:E; [done|]. by intros [= -> ->].
Qed.

Lemma drop_while_none p l :
  match l with [] => True | x :: _ => p x = false end -> drop_while p l = l.
Proof. destruct l as [|x l]; simpl; [done|]. by intros ->. Qed.

Lemma drop_while_idemp p l : drop_while p (drop_while p l) = drop_while p l.
Proof.
  apply drop_while_none. destruct (drop_while p l) eqn:E; [done|].
  by eapply drop_while_head.
Qed.

Lemma drop_while_app_all p l1 l2 :
  Forall (fun x => p x = true) l1 -> drop_while p (l1 ++ l2) = drop_while p l2.
Proof. induction 1 as [|x l Hx _ IH]; simpl; [done|]. by rewrite Hx. Qed.

Lemma take_while_app_all p l1 l2 :
  Forall (fun x => p x = true) l1 -> take_while p (l1 ++ l2) = l1 ++ take_while p l2.
Proof. induction 1 as [|x l Hx _ IH]; simpl; [done|]. by rewrite Hx, IH. Qed.

Lemma sum_with_app f l1 l2 : sum_with f (l1 ++ l2) = sum_with (A := A) f l1 + sum_with f l2.
Proof. induction l1; simpl; lia. Qed.

Lemma sum_with_insert {B} (f : B -> nat) (l : list B) i x y :
  l !! i = Some x -> sum_with f (<[i := y]> l) + f x = sum_with f l + f y.
Proof.
  revert i. induction l as [|z l IH]; intros [|i] Hi; simplify_eq/=; [lia|]. specialize (IH i Hi). lia.
Qed.

Lemma find_map_Some {B} (f : A -> option B) l y :
  find_map f l = Some y ->
  exists l1 x l2, l = l1 ++ x :: l2 /\ f x = Some y /\ Forall (fun z => f z = None) l1.
Proof.
  induction l as [|z l IH]; simpl; [done|]. destruct (f z) eqn:E.
  - intros [= ->]. exists [], z, l. auto.
  - intros (l1 & x & l2 & -> & Hx & Hl)%IH. exists (z :: l1), x, l2. auto.
Qed.

Lemma find_map_None {B} (f : A -> option B) l :
  find_map f l = None <-> Forall (fun x => f x = None) l.
Proof.
  induction l as [|z l IH]; simpl; [split; auto|]. rewrite Forall_cons, <-IH.
  destruct (f z); naive_solver.
Qed.

Lemma find_first_Some p l x :
  find_first p l = Some x ->
  exists l1 l2, l = l1 ++ x :: l2 /\ p x = true /\ Forall (fun z => p z = false) l1.
Proof.
  induction l as [|z l IH]; simpl; [done|]. destruct (p z) eqn:E.
  - intros [= ->]. exists [], l. auto.
  - intros (l1 & l2 & -> & Hx & Hl)%IH. exists (z :: l1), l2. auto.
Qed.

Lemma find_first_None p l : find_first p l = None <-> Forall (fun z => p z = false) l.
Proof.
  induction l as [|z l IH]; simpl; [split; auto|]. destruct (p z) eqn:E.
  - split; [done|]. intros H. inversion H; congruence.
  - rewrite IH. split; [auto|]. by inversion 1.
Qed.
End lists.

Lemma Forall2_elem_l {A B} (R : A -> B -> Prop) l k x :
  Forall2 R l k -> x ∈ l -> exists y, y ∈ k /\ R x y.
Proof.
  intros H [i Hi]%list_elem_of_lookup. apply (Forall2_lookup_l _ _ _ _ _ H) in Hi as (y & Hy & HR).
  exists y. split; [by eapply list_elem_of_lookup_2|done].
Qed.

Lemma Forall_sublist {A} (P : A -> Prop) (l k : list A) :
  l `sublist_of` k -> Forall P k -> Forall P l.
Proof. induction 1; [done|..]; inversion 1; auto. Qed.

Create Rewrite HintDb marmel.
(** *** Stable sorting *)

Lemma insert_with_perm {A} (le : A -> A -> bool) x l : insert_with le x l ≡ₚ x :: l.
Proof.
  induction l as [|y l IH]; simpl; [done|]. destruct (le x y); [done|].
  rewrite IH. apply Permutation_swap.
Qed.

Lemma sort_with_perm {A} (le : A -> A -> bool) l : sort_with le l ≡ₚ l.
Proof. induction l as [|x l IH]; simpl; [done|]. by rewrite insert_with_perm, IH. Qed.

Lemma sort_with_sorted {A} (le : A -> A -> bool) l :
  (forall x y, le x y = false -> le y x = true) ->
  Sorted (fun x y => le x y = true) (sort_with le l).
Proof.
  intros Htot. induction l as [|x l IH]; simpl; [constructor|].
  induction IH as [|y k Hk IHk Hy]; simpl; [by repeat constructor|].
  destruct (le x y) eqn:E; [constructor; by constructor|].
  constructor; [done|]. destruct k as [|z k]; simpl; [by constructor; apply Htot|].
  destruct (le x z); constructor; [by apply Htot|]. by inversion Hy.
Qed.

Lemma Sorted_weaken {A} (R R' : A -> A -> Prop) l :
  (forall x y, R x y -> R' x y) -> Sorted R l -> Sorted R' l.
Proof. intros HR. induction 1 as [|x l _ IH Hx]; constructor; [done|]. destruct Hx; constructor; auto. Qed.

Lemma sort_with_length {A} (le : A -> A -> bool) l : length (sort_with le l) = length l.
Proof. by rewrite sort_with_perm. Qed.

Lemma sort_with_map {A B} (f : A -> B) le le' (l : list A) :
  (forall x y, le' (f x) (f y) = le x y) -> sort_with le' (map f l) = map f (sort_with le l).
Proof.
  intros Hle. induction l as [|x l IH]; [done|]. unfold sort_with in *. simpl. rewrite IH.
  generalize (foldr (insert_with le) [] l). intros k. induction k as [|y k IHk]; [done|].
  simpl. rewrite Hle. case_match; [done|]. simpl. by rewrite IHk.
Qed.

(** *** Parts of a list *)

Lemma filter_sublist {A} (f : A -> bool) l : List.filter f l `sublist_of` l.
Proof. induction l as [|x l IH]; simpl; [done|]. destruct (f x); by constructor. Qed.

Lemma omap_keys_sublist {K A B} (f : A -> option B) (l : list (K * A)) :
  map fst (omap (fun e => (fun y => (fst e, y)) <$> f (snd e)) l) `sublist_of` map fst l.
Proof.
  induction l as [|[k x] l IH]; cbn; [done|]. destruct (f x); cbn; by constructor.
Qed.

#[export] Hint Rewrite @take_drop_while @drop_while_idemp : marmel.
