(* ===== verification/Str.v ===== *)
(** * Rust strings

    A [str] is the list of its Unicode scalar values.  Rust indexes strings by
    byte offset: [len_utf8] and [blen] give the UTF-8 byte lengths, and the
    slicing functions take byte offsets and fail off a character boundary,
    exactly where Rust's [get] answers [None] and its indexing panics. *)

From S2P Require Import Prelude.
From Stdlib Require Import Ascii.
From Stdlib Require String.
Export String.StringSyntax Ascii.AsciiSyntax.

Abbreviation char := N (only parsing).
Abbreviation str := (list N) (only parsing).

(** ** Literals *)

(** [lit "abc"] is the [str] of an ASCII literal. *)
Fixpoint lit (s : String.string) : str :=
  match s with
  | String.EmptyString => []
  | String.String a s' => N_of_ascii a :: lit s'
  end.

(** [ch "a"] is the [char] of an ASCII character literal. *)
Definition ch (a : Ascii.ascii) : char := N_of_ascii a.

Arguments lit _%_string_scope.
Arguments ch _%_char_scope.

Definition NL : char := 10%N.
Definition CR : char := 13%N.

(** [slice::join] *)
Fixpoint join_with (sep : str) (l : list str) : str :=
  match l with
  | [] => []
  | [x] => x
  | x :: l' => x ++ sep ++ join_with sep l'
  end.

(** ** Character classes of [core::char] *)

Definition in_range (lo hi c : char) : bool := ((lo <=? c) && (c <=? hi))%N.

Definition is_ascii (c : char) : bool := (c <? 128)%N.
Definition is_ascii_digit (c : char) : bool := in_range 48 57 c.
Definition is_ascii_upper (c : char) : bool := in_range 65 90 c.
Definition is_ascii_lower (c : char) : bool := in_range 97 122 c.
Definition is_ascii_alphabetic (c : char) : bool := is_ascii_upper c || is_ascii_lower c.
Definition is_ascii_alphanumeric (c : char) : bool :=
  is_ascii_alphabetic c || is_ascii_digit c.

(** [char::is_whitespace]: the Unicode property [White_Space]. *)
Definition is_whitespace (c : char) : bool :=
  (in_range 9 13 c || (c =? 32) || (c =? 133) || (c =? 160) || (c =? 5760)
   || in_range 8192 8202 c || (c =? 8232) || (c =? 8233) || (c =? 8239)
   || (c =? 8287) || (c =? 12288))%N.

(** [char::is_control]: the general category [Cc]. *)
Definition is_control (c : char) : bool := in_range 0 31 c || in_range 127 159 c.

Definition to_ascii_lower (c : char) : char := if is_ascii_upper c then (c + 32)%N else c.
Definition to_ascii_upper (c : char) : char := if is_ascii_lower c then (c - 32)%N else c.

Definition to_ascii_lowercase (s : str) : str := map to_ascii_lower s.
Definition to_ascii_uppercase (s : str) : str := map to_ascii_upper s.

(** Unicode tables beyond ASCII that the program reads through [core] and the
    regex crate.  They are data of the Unicode version the compiler ships, so
    the development is parametric in them; on ASCII the classes are fixed. *)
Class Unicode := {
  uni_alphanumeric : char -> bool; (* Alphabetic or N*, [char::is_alphanumeric] *)
  uni_decimal : char -> bool;      (* Nd, the regex class [\d] *)
  uni_word : char -> bool;         (* the regex word characters, [\b] *)
  uni_lowercase : char -> str      (* [char::to_lowercase] *)
}.

(** The tables of a text in which only ASCII characters have those properties. *)
Definition ascii_tables : Unicode := {|
  uni_alphanumeric _ := false;
  uni_decimal _ := false;
  uni_word _ := false;
  uni_lowercase c := [c]
|}.

Definition is_alphanumeric `{Unicode} (c : char) : bool :=
  if is_ascii c then is_ascii_alphanumeric c else uni_alphanumeric c.
Definition is_decimal `{Unicode} (c : char) : bool :=
  if is_ascii c then is_ascii_digit c else uni_decimal c.
Definition is_word `{Unicode} (c : char) : bool :=
  if is_ascii c then is_ascii_alphanumeric c || (c =? 95)%N else uni_word c.
(** [str::to_lowercase], but for its rule for a final sigma. *)
Definition to_lowercase `{Unicode} (s : str) : str :=
  flat_map (fun c => if is_ascii c then [to_ascii_lower c] else uni_lowercase c) s.

(** ** Equality and comparison *)

Fixpoint str_eqb (s t : str) : bool :=
  match s, t with
  | [], [] => true
  | c :: s', d :: t' => (c =? d)%N && str_eqb s' t'
  | _, _ => false
  end.

(** The em dash of the program's messages. *)
Definition EM_DASH : str := [8212%N].

(** Membership in a list of strings. *)
Definition str_mem (x : str) (l : list str) : bool := existsb (str_eqb x) l.
Definition eq_ignore_ascii_case (s t : str) : bool :=
  str_eqb (to_ascii_lowercase s) (to_ascii_lowercase t).

(** ** Trimming *)

Definition trim_start_matches (p : char -> bool) (s : str) : str := drop_while p s.
Definition trim_end_matches (p : char -> bool) (s : str) : str := rev (drop_while p (rev s)).
Definition trim_matches (p : char -> bool) (s : str) : str :=
  trim_end_matches p (trim_start_matches p s).
Definition trim_start : str -> str := trim_start_matches is_whitespace.
Definition trim_end : str -> str := trim_end_matches is_whitespace.
Definition trim (s : str) : str := trim_end (trim_start s).

(** Neither end of [s] is in the class [p]. *)
Definition trimmed (p : char -> bool) (s : str) : Prop :=
  match s with [] => True | c :: _ => p c = false end /\
  match rev s with [] => True | c :: _ => p c = false end.

(** [is_empty] *)
Definition is_empty {A} (s : list A) : bool := match s with [] => true | _ => false end.

(** ** Byte offsets *)

Definition len_utf8 (c : char) : nat :=
  if (c <? 128)%N then 1 else if (c <? 2048)%N then 2 else if (c <? 65536)%N then 3 else 4.

(** [str::len] *)
Definition blen (s : str) : nat := sum_with len_utf8 s.

(** [split_at s i]: the two halves at byte offset [i]; [None] when [i] is not
    a character boundary of [s] or lies past its end. *)
Fixpoint split_at (s : str) (i : nat) : option (str * str) :=
  match i with
  | 0 => Some ([], s)
  | _ => match s with
         | [] => None
         | c :: s' => if len_utf8 c <=? i
                      then match split_at s' (i - len_utf8 c) with
                           | Some (a, b) => Some (c :: a, b)
                           | None => None
                           end
                      else None
         end
  end.

Definition is_char_boundary (s : str) (i : nat) : bool :=
  match split_at s i with Some _ => true | None => false end.

(** [s.get(i..)], [s.get(..i)], [s.get(i..j)] *)
Definition get_from (s : str) (i : nat) : option str := snd <$> split_at s i.
Definition get_to (s : str) (i : nat) : option str := fst <$> split_at s i.
Definition get (s : str) (i j : nat) : option str :=
  if i <=? j then get_to s j ≫= fun t => get_from t i else None.

(** ** Prefixes, suffixes and search *)

Fixpoint strip_prefix (p s : str) : option str :=
  match p, s with
  | [], _ => Some s
  | c :: p', d :: s' => if (c =? d)%N then strip_prefix p' s' else None
  | _ :: _, [] => None
  end.
Definition strip_suffix (p s : str) : option str :=
  @rev char <$> strip_prefix (rev p) (rev s).
Definition starts_with (p s : str) : bool :=
  match strip_prefix p s with Some _ => true | None => false end.
Definition ends_with (p s : str) : bool :=
  match strip_suffix p s with Some _ => true | None => false end.

(** [str::find] with a string pattern: the byte offset of the first occurrence. *)
Fixpoint find_str (needle s : str) : option nat :=
  if starts_with needle s then Some 0
  else match s with
       | [] => None
       | c :: s' => match find_str needle s' with
                    | Some n => Some (len_utf8 c + n)
                    | None => None
                    end
       end.

Definition contains (needle s : str) : bool :=
  match find_str needle s with Some _ => true | None => false end.

(** The split of [s] at the first occurrence of [needle]: the text before it
    and the text after it. *)
Fixpoint find_split (needle s : str) : option (str * str) :=
  match strip_prefix needle s with
  | Some r => Some ([], r)
  | None => match s with
            | [] => None
            | c :: s' => match find_split needle s' with
                         | Some (a, b) => Some (c :: a, b)
                         | None => None
                         end
            end
  end.

(** [str::find] with a character pattern. *)
Definition find_char (c : char) : str -> option nat := find_str [c].

(** ** Lines *)

(** [str::split_inclusive('\n')] *)
Fixpoint split_inclusive (s : str) : list str :=
  match s with
  | [] => []
  | c :: s' =>
      if (c =? NL)%N then [c] :: split_inclusive s'
      else match split_inclusive s' with
           | [] => [[c]]
           | chunk :: rest => (c :: chunk) :: rest
           end
  end.

(** The terminator-stripping step of [str::lines]: the line body and its
    terminator. *)
Definition split_eol (chunk : str) : str * str :=
  match strip_suffix [NL] chunk with
  | Some rest => match strip_suffix [CR] rest with
                 | Some body => (body, [CR; NL])
                 | None => (rest, [NL])
                 end
  | None => (chunk, [])
  end.

(** [str::lines] *)
Definition lines (s : str) : list str := map (fun c => fst (split_eol c)) (split_inclusive s).

#[global] Arguments lit : simpl never.
#[global] Arguments ch : simpl never.
#[global] Arguments blen : simpl never.
#[global] Arguments len_utf8 : simpl never.

(** ** Automation for character classes *)

(** Evaluate the literals of a goal and its hypotheses to numerals. *)
Ltac eval_chars :=
  repeat match goal with
  | |- context [ch ?a] => let v := eval vm_compute in (ch a) in change (ch a) with v
  | |- context [lit ?a] => let v := eval vm_compute in (lit a) in change (lit a) with v
  | H : context [ch ?a] |- _ => let v := eval vm_compute in (ch a) in change (ch a) with v in H
  | H : context [lit ?a] |- _ => let v := eval vm_compute in (lit a) in change (lit a) with v in H
  end; cbn [existsb app] in *.

(** Decide a statement about the classes a character belongs to. *)
Ltac char_lia :=
  unfold is_ascii, is_ascii_alphanumeric, is_ascii_alphabetic, is_ascii_upper, is_ascii_lower,
    is_ascii_digit, is_whitespace, is_control, in_range, NL, CR in *;
  eval_chars; lia.

(** ** Lemmas *)

Lemma str_eqb_eq (s t : str) : str_eqb s t = true <-> s = t.
Proof.
  revert t. induction s as [|c s IH]; intros [|d t]; simpl; try done.
  rewrite andb_true_iff, N.eqb_eq, IH. split; [intros [-> ->]; done | by intros [= -> ->]].
Qed.

Lemma str_eqb_refl (s : str) : str_eqb s s = true.
Proof. by apply str_eqb_eq. Qed.

Lemma str_mem_true x l : str_mem x l = true <-> x ∈ l.
Proof.
  unfold str_mem. rewrite existsb_exists. split.
  - intros (y & Hy & ->%str_eqb_eq). by apply list_elem_of_In.
  - intros H. exists x. split; [by apply list_elem_of_In|by apply str_eqb_eq].
Qed.

#[global] Instance str_eqb_reflect (s t : str) : Decision (str_eqb s t = true) := _.

(** A boolean property of all ASCII characters is decided by evaluation. *)
Lemma ascii_forall (P : char -> bool) :
  forallb P (map N.of_nat (seq 0 128)) = true -> forall c, is_ascii c = true -> P c = true.
Proof.
  intros HP c Hc%N.ltb_lt. rewrite forallb_forall in HP. apply HP, in_map_iff.
  exists (N.to_nat c). split; [apply N2Nat.id|]. apply in_seq. lia.
Qed.

(** *** Byte lengths and slicing *)

Lemma len_utf8_pos c : 0 < len_utf8 c.
Proof. unfold len_utf8. repeat case_match; lia. Qed.

Lemma len_utf8_ascii c : is_ascii c = true -> len_utf8 c = 1.
Proof. unfold len_utf8, is_ascii. by intros ->. Qed.

Lemma blen_nil : blen [] = 0.
Proof. done. Qed.

Lemma blen_cons c s : blen (c :: s) = len_utf8 c + blen s.
Proof. done. Qed.

Lemma blen_app a b : blen (a ++ b) = blen a + blen b.
Proof. apply sum_with_app. Qed.

Lemma blen_rev a : blen (rev a) = blen a.
Proof.
  induction a as [|c a IH]; simpl; [done|]. rewrite blen_app, !blen_cons, IH, blen_nil. lia.
Qed.

Lemma blen_0 s : blen s = 0 -> s = [].
Proof. destruct s as [|c s]; [done|]. rewrite blen_cons. pose proof (len_utf8_pos c). lia. Qed.

Lemma length_le_blen s : length s <= blen s.
Proof.
  induction s as [|c s IH]; [done|]. rewrite blen_cons. simpl.
  pose proof (len_utf8_pos c). lia.
Qed.

Lemma lit_inj a b : lit a = lit b -> a = b.
Proof.
  revert b. induction a as [|x a IH]; intros [|y b]; try done.
  intros [= Hx%(f_equal Ascii.ascii_of_N) Hab%IH]. rewrite !Ascii.ascii_N_embedding in Hx. by subst.
Qed.

Lemma split_at_app a b : split_at (a ++ b) (blen a) = Some (a, b).
Proof.
  induction a as [|c a IH]; [by destruct b|].
  rewrite blen_cons. simpl. pose proof (len_utf8_pos c).
  destruct (len_utf8 c + blen a) as [|n] eqn:E; [lia|]. simpl.
  rewrite <-E. rewrite (proj2 (Nat.leb_le _ _)) by lia.
  by replace (len_utf8 c + blen a - len_utf8 c) with (blen a) by lia; rewrite IH.
Qed.

Lemma split_at_Some s i a b : split_at s i = Some (a, b) -> s = a ++ b /\ blen a = i.
Proof.
  revert i a b. induction s as [|c s IH]; intros [|i] a b; simpl; intros H; simplify_eq; try done.
  destruct (len_utf8 c <=? S i) eqn:E; [|done]. apply Nat.leb_le in E.
  destruct (split_at s (S i - len_utf8 c)) as [[a' b']|] eqn:E'; simplify_eq.
  apply IH in E' as [-> Hl]. rewrite blen_cons. split; [done|lia].
Qed.

Lemma split_at_iff s i a b : split_at s i = Some (a, b) <-> s = a ++ b /\ blen a = i.
Proof. split; [apply split_at_Some|]. intros [-> <-]. apply split_at_app. Qed.

Lemma get_from_app a b : get_from (a ++ b) (blen a) = Some b.
Proof. unfold get_from. by rewrite split_at_app. Qed.

Lemma get_to_app a b : get_to (a ++ b) (blen a) = Some a.
Proof. unfold get_to. by rewrite split_at_app. Qed.

Lemma get_app a m b : get (a ++ m ++ b) (blen a) (blen a + blen m) = Some m.
Proof.
  unfold get. rewrite (proj2 (Nat.leb_le _ _)) by lia.
  rewrite app_assoc, <-blen_app, get_to_app. simpl. apply get_from_app.
Qed.

Lemma get_Some s i j m :
  get s i j = Some m <-> exists a b, s = a ++ m ++ b /\ blen a = i /\ j = i + blen m.
Proof.
  split.
  - unfold get. destruct (i <=? j) eqn:E; [|done]. unfold get_to, get_from.
    destruct (split_at s j) as [[p b]|] eqn:E1; simpl; [|done].
    destruct (split_at p i) as [[a m']|] eqn:E2; simpl; [|done]. intros [= ->].
    apply split_at_Some in E1 as [-> Hj]. apply split_at_Some in E2 as [-> Hi].
    exists a, b. rewrite <-app_assoc. split; [done|]. rewrite blen_app in Hj. lia.
  - intros (a & b & -> & <- & ->). apply get_app.
Qed.

Lemma get_slice s a m b i j : s = a ++ m ++ b -> i = blen a -> j = i + blen m -> get s i j = Some m.
Proof. intros -> -> ->. apply get_app. Qed.

(** *** Prefixes, suffixes and search *)

Lemma strip_prefix_Some p s r : strip_prefix p s = Some r <-> s = p ++ r.
Proof.
  revert s. induction p as [|c p IH]; intros s; simpl.
  - split; congruence.
  - destruct s as [|d s]; [split; congruence|]. destruct (N.eqb_spec c d) as [->|Hne].
    + rewrite IH. split; [by intros -> | congruence].
    + split; congruence.
Qed.

Lemma starts_with_true p s : starts_with p s = true <-> exists r, s = p ++ r.
Proof.
  unfold starts_with. destruct (strip_prefix p s) as [r|] eqn:E.
  - apply strip_prefix_Some in E. naive_solver.
  - split; [done|]. intros [r Hr%strip_prefix_Some]. congruence.
Qed.

Lemma starts_with_app p r : starts_with p (p ++ r) = true.
Proof. apply starts_with_true. by exists r. Qed.

Lemma strip_suffix_Some p s r : strip_suffix p s = Some r <-> s = r ++ p.
Proof.
  unfold strip_suffix. destruct (strip_prefix (rev p) (rev s)) as [t|] eqn:E; simpl.
  - apply strip_prefix_Some in E. apply (f_equal (@rev N)) in E.
    rewrite rev_app_distr, !rev_involutive in E. subst s. split.
    + by intros [= <-].
    + intros H. by apply app_inv_tail in H as ->.
  - split; [done|]. intros ->. rewrite rev_app_distr in E.
    rewrite (proj2 (strip_prefix_Some _ _ (rev r))) in E; done.
Qed.

Lemma strip_suffix_None p s : strip_suffix p s = None <-> forall r, s <> r ++ p.
Proof.
  split.
  - intros E r Hr%strip_suffix_Some. congruence.
  - intros H. destruct (strip_suffix p s) as [r|] eqn:E; [|done].
    apply strip_suffix_Some in E. by destruct (H r).
Qed.

Lemma ends_with_true p s : ends_with p s = true <-> exists r, s = r ++ p.
Proof.
  unfold ends_with. destruct (strip_suffix p s) as [r|] eqn:E.
  - apply strip_suffix_Some in E. naive_solver.
  - split; [done|]. intros [r Hr%strip_suffix_Some]. congruence.
Qed.

(** [find_str] answers the byte offset of an occurrence, and the first one. *)
Lemma find_str_Some needle s n :
  find_str needle s = Some n ->
  exists a b, s = a ++ needle ++ b /\ blen a = n /\
    forall a' b', s = a' ++ needle ++ b' -> length a <= length a'.
Proof.
  revert n. induction s as [|c s IH]; intros n; simpl.
  - destruct (starts_with needle []) eqn:E; [|done]. intros [= <-].
    apply starts_with_true in E as [r Hr]. exists [], r. simpl. split_and!; [done|done|lia].
  - destruct (starts_with needle (c :: s)) eqn:E.
    + intros [= <-]. apply starts_with_true in E as [r Hr].
      exists [], r. simpl. split_and!; [done|done|lia].
    + destruct (find_str needle s) as [m|] eqn:E'; [|done]. intros [= <-].
      destruct (IH m eq_refl) as (a & b & -> & <- & Hmin).
      exists (c :: a), b. split_and!; [done|done|].
      intros [|d a'] b' Heq; simpl in Heq.
      * exfalso. assert (starts_with needle (c :: a ++ needle ++ b) = true); [|congruence].
        apply starts_with_true. by exists b'.
      * injection Heq as -> Heq. simpl. apply le_n_S. by eapply Hmin.
Qed.

Lemma find_str_None needle s :
  find_str needle s = None <-> forall a b, s <> a ++ needle ++ b.
Proof.
  induction s as [|c s IH]; simpl.
  - destruct (starts_with needle []) eqn:E.
    + split; [done|]. apply starts_with_true in E as [r Hr]. intros H. by destruct (H [] r).
    + split; [|done]. intros _ [|] b Heq; [|done].
      assert (starts_with needle [] = true); [|congruence]. apply starts_with_true. by exists b.
  - destruct (starts_with needle (c :: s)) eqn:E.
    + split; [done|]. apply starts_with_true in E as [r Hr]. intros H. by destruct (H [] r).
    + transitivity (find_str needle s = None); [destruct (find_str needle s); split; congruence|].
      rewrite IH. split.
      * intros H [|d a] b Heq.
        -- assert (starts_with needle (c :: s) = true); [|congruence].
           apply starts_with_true. by exists b.
        -- injection Heq as -> Heq. by eapply H.
      * intros H a b ->. by apply (H (c :: a) b).
Qed.

Lemma contains_true needle s : contains needle s = true <-> exists a b, s = a ++ needle ++ b.
Proof.
  unfold contains. destruct (find_str needle s) as [n|] eqn:E.
  - split; [|done]. intros _. apply find_str_Some in E as (a & b & ? & _). eauto.
  - split; [done|]. intros (a & b & Hs). by apply (proj1 (find_str_None _ _) E) in Hs.
Qed.

Lemma find_split_str needle s : find_str needle s = (fun ab => blen (fst ab)) <$> find_split needle s.
Proof.
  induction s as [|c s IH]; cbn [find_str find_split]; unfold starts_with.
  { destruct (strip_prefix needle []); reflexivity. }
  destruct (strip_prefix needle _) as [r|]; [reflexivity|].
  rewrite IH. destruct (find_split needle s) as [[a b]|]; reflexivity.
Qed.

Lemma find_split_Some needle s a b : find_split needle s = Some (a, b) -> s = a ++ needle ++ b.
Proof.
  revert a. induction s as [|c s IH]; intros a; cbn [find_split];
    destruct (strip_prefix needle _) as [r|] eqn:E; try done.
  - intros [= <- <-]. by apply strip_prefix_Some in E.
  - intros [= <- <-]. by apply strip_prefix_Some in E.
  - destruct (find_split needle s) as [[a' b']|]; [|done]. intros [= <- ->].
    simpl. by rewrite (IH a').
Qed.

Lemma find_split_app needle s t a b : find_split needle s = Some (a, b) -> find_split needle (s ++ t) = Some (a, b ++ t).
Proof.
  revert a b. induction s as [|c s IH]; intros a b.
  - cbn [find_split]. destruct (strip_prefix needle []) as [r|] eqn:E; [|done]. intros [= <- <-].
    apply strip_prefix_Some in E. symmetry in E. apply app_eq_nil in E as [-> ->]. by destruct t.
  - cbn [app find_split]. destruct (strip_prefix needle (c :: s)) as [r|] eqn:E.
    + intros [= <- <-]. apply strip_prefix_Some in E.
      assert (E' : strip_prefix needle (c :: s ++ t) = Some (r ++ t)) by (apply strip_prefix_Some; by rewrite app_assoc, <-E).
      by rewrite E'.
    + destruct (find_split needle s) as [[a' b']|] eqn:Ef; [|done]. intros [= <- <-].
      pose proof (find_split_Some _ _ _ _ Ef) as Es.
      destruct (strip_prefix needle (c :: s ++ t)) as [r|] eqn:E'; [|by rewrite (IH a' b')].
      exfalso. apply strip_prefix_Some in E'. change (c :: s ++ t) with ((c :: s) ++ t) in E'.
      assert (Hl : length needle <= length (c :: s)) by (rewrite Es; simpl; rewrite !length_app; lia).
      apply app_eq_app in E' as (l & [[E1 _]|[E1 _]]).
      * assert (Hs : strip_prefix needle (c :: s) = Some l) by (by apply strip_prefix_Some). by rewrite Hs in E.
      * assert (Hl0 : l = []) by (apply (f_equal length) in E1; rewrite length_app in E1; destruct l; [done|simpl in *; lia]).
        subst l. rewrite app_nil_r in E1. assert (Hs : strip_prefix needle (c :: s) = Some []) by (apply strip_prefix_Some; by rewrite app_nil_r).
        by rewrite Hs in E.
Qed.

(** *** Trimming *)

Lemma trim_start_idemp s : trim_start (trim_start s) = trim_start s.
Proof. apply drop_while_idemp. Qed.

(** The decomposition a trim computes. *)
Lemma trim_matches_spec p s :
  exists a b, s = a ++ trim_matches p s ++ b /\
    Forall (fun c => p c = true) a /\ Forall (fun c => p c = true) b.
Proof.
  unfold trim_matches, trim_end_matches, trim_start_matches.
  set (t := drop_while p s).
  exists (take_while p s), (rev (take_while p (rev t))). split_and!.
  - rewrite <-rev_app_distr, take_drop_while, rev_involutive. symmetry. apply take_drop_while.
  - apply take_while_Forall.
  - apply Forall_rev, take_while_Forall.
Qed.

Lemma trim_matches_id p s : trimmed p s -> trim_matches p s = s.
Proof.
  intros [H1 H2]. unfold trim_matches, trim_end_matches, trim_start_matches.
  rewrite (drop_while_none p s) by done. rewrite drop_while_none by done.
  apply rev_involutive.
Qed.

Lemma rev_drop_while_head p (s : str) c s' :
  rev (drop_while p (rev (c :: s))) = s' -> p c = false -> exists t, s' = c :: t.
Proof.
  intros <- Hc. simpl.
  assert (H : exists l, drop_while p (rev s ++ [c]) = l ++ [c]).
  { induction (rev s) as [|d l IH]; simpl.
    - rewrite Hc. by exists [].
    - destruct (p d); [done|]. by exists (d :: l). }
  destruct H as [l ->]. rewrite rev_app_distr. simpl. eauto.
Qed.

Lemma trim_matches_trimmed p s : trimmed p (trim_matches p s).
Proof.
  unfold trim_matches, trim_end_matches, trim_start_matches, trimmed. split.
  - destruct (drop_while p s) as [|c t] eqn:E; [done|].
    apply drop_while_head in E.
    by destruct (rev_drop_while_head p t c _ eq_refl E) as [u ->].
  - rewrite rev_involutive. destruct (drop_while p (rev _)) as [|c t] eqn:E; [done|].
    by apply drop_while_head in E.
Qed.

Lemma trim_matches_idemp p s : trim_matches p (trim_matches p s) = trim_matches p s.
Proof. apply trim_matches_id, trim_matches_trimmed. Qed.

Lemma trim_idemp s : trim (trim s) = trim s.
Proof. apply (trim_matches_idemp is_whitespace). Qed.

Lemma trim_id s : trimmed is_whitespace s -> trim s = s.
Proof. apply (trim_matches_id is_whitespace). Qed.

Lemma trim_trimmed s : trimmed is_whitespace (trim s).
Proof. apply (trim_matches_trimmed is_whitespace). Qed.

Lemma trim_spec s :
  exists a b, s = a ++ trim s ++ b /\
    Forall (fun c => is_whitespace c = true) a /\ Forall (fun c => is_whitespace c = true) b.
Proof. apply (trim_matches_spec is_whitespace). Qed.

(** *** Case folding *)

Lemma to_ascii_lower_idemp c : to_ascii_lower (to_ascii_lower c) = to_ascii_lower c.
Proof.
  unfold to_ascii_lower, is_ascii_upper, in_range.
  destruct (N.leb_spec 65 c), (N.leb_spec c 90); simpl; try done.
  - destruct (N.leb_spec 65 (c + 32)), (N.leb_spec (c + 32) 90); simpl; try done; lia.
  - destruct (N.leb_spec 65 c), (N.leb_spec c 90); simpl; try done; lia.
  - destruct (N.leb_spec 65 c), (N.leb_spec c 90); simpl; try done; lia.
  - destruct (N.leb_spec 65 c), (N.leb_spec c 90); simpl; try done; lia.
Qed.

Lemma to_ascii_lowercase_idemp s : to_ascii_lowercase (to_ascii_lowercase s) = to_ascii_lowercase s.
Proof.
  unfold to_ascii_lowercase. rewrite map_map. apply map_ext. apply to_ascii_lower_idemp.
Qed.

Lemma len_utf8_to_ascii_upper c : len_utf8 (to_ascii_upper c) = len_utf8 c.
Proof.
  unfold to_ascii_upper, is_ascii_lower, in_range.
  destruct (N.leb_spec 97 c), (N.leb_spec c 122); simpl; try done.
  rewrite !len_utf8_ascii; [done| |]; apply N.ltb_lt; lia.
Qed.

Lemma eq_ignore_ascii_case_true s t :
  eq_ignore_ascii_case s t = true <-> to_ascii_lowercase s = to_ascii_lowercase t.
Proof. apply str_eqb_eq. Qed.

#[global] Instance eq_ignore_ascii_case_equiv :
  Equivalence (fun s t => eq_ignore_ascii_case s t = true).
Proof.
  split.
  - intros s. by apply eq_ignore_ascii_case_true.
  - intros s t. rewrite !eq_ignore_ascii_case_true. done.
  - intros s t u. rewrite !eq_ignore_ascii_case_true. congruence.
Qed.

(** *** Lines *)

Lemma concat_split_inclusive s : concat (split_inclusive s) = s.
Proof.
  induction s as [|c s IH]; simpl; [done|]. destruct (c =? NL)%N; simpl; [congruence|].
  destruct (split_inclusive s) as [|chunk rest] eqn:E; simpl in *; congruence.
Qed.

Lemma split_eol_app chunk body eol : split_eol chunk = (body, eol) -> chunk = body ++ eol.
Proof.
  unfold split_eol. destruct (strip_suffix [NL] chunk) as [r|] eqn:E.
  - apply strip_suffix_Some in E as ->. destruct (strip_suffix [CR] r) as [b|] eqn:E'.
    + apply strip_suffix_Some in E' as ->. intros [= <- <-]. by rewrite <-app_assoc.
    + by intros [= <- <-].
  - intros [= <- <-]. by rewrite app_nil_r.
Qed.

(** The chunks [split_inclusive] produces: every chunk but the last is a
    newline-free body followed by its newline. *)
Fixpoint chunks_ok (chunks : list str) : Prop :=
  match chunks with
  | [] => True
  | [c] => c <> [] /\ (NL ∉ c \/ exists b, c = b ++ [NL] /\ NL ∉ b)
  | c :: rest => (exists b, c = b ++ [NL] /\ NL ∉ b) /\ chunks_ok rest
  end.

Lemma chunks_ok_cons_nl b rest : NL ∉ b -> chunks_ok rest -> chunks_ok ((b ++ [NL]) :: rest).
Proof.
  intros Hb Hr. destruct rest; simpl; [|eauto]. split; [by destruct b|eauto].
Qed.

Lemma split_inclusive_ok s : chunks_ok (split_inclusive s).
Proof.
  induction s as [|c s IH]; cbn [split_inclusive]; [done|].
  destruct (N.eqb_spec c NL) as [->|Hc].
  - apply (chunks_ok_cons_nl []); [set_solver|done].
  - destruct (split_inclusive s) as [|chunk rest].
    + simpl. split; [done|]. left. set_solver.
    + destruct rest as [|d rest]; simpl in *.
      * split; [done|]. destruct IH as [_ [Hn|(b & -> & Hb)]]; [left; set_solver|].
        right. exists (c :: b). split; [done|set_solver].
      * destruct IH as [(b & -> & Hb) Hr]. split; [|done]. exists (c :: b). split; [done|set_solver].
Qed.

Lemma split_inclusive_nl b s :
  NL ∉ b -> split_inclusive (b ++ NL :: s) = (b ++ [NL]) :: split_inclusive s.
Proof.
  induction b as [|c b IH]; intros Hb; cbn [app split_inclusive]; [done|].
  destruct (N.eqb_spec c NL) as [->|Hc]; [set_solver|]. rewrite IH by set_solver. done.
Qed.

Lemma split_inclusive_no_nl b : NL ∉ b -> b <> [] -> split_inclusive b = [b].
Proof.
  induction b as [|c b IH]; intros Hb Hne; [done|]. cbn [split_inclusive].
  destruct (N.eqb_spec c NL) as [->|Hc]; [set_solver|].
  destruct b as [|d b]; [done|]. rewrite IH by (done || set_solver). done.
Qed.

Lemma split_inclusive_concat chunks : chunks_ok chunks -> split_inclusive (concat chunks) = chunks.
Proof.
  induction chunks as [|c rest IH]; [done|]. intros Hok. cbn [concat].
  destruct rest as [|d rest].
  - simpl. rewrite app_nil_r. destruct Hok as [Hne [Hn|(b & -> & Hb)]].
    + by apply split_inclusive_no_nl.
    + by apply (split_inclusive_nl b []).
  - destruct Hok as [(b & -> & Hb) Hr]. rewrite <-app_assoc. cbn [app].
    rewrite split_inclusive_nl by done. f_equal. by apply IH.
Qed.

(** The terminator of a chunk: its body carries no newline. *)
Lemma chunks_ok_body chunks c body eol :
  chunks_ok chunks -> c ∈ chunks -> split_eol c = (body, eol) -> NL ∉ body.
Proof.
  assert (H1 : forall b, NL ∉ b -> split_eol (b ++ [NL]) = (body, eol) -> NL ∉ body).
  { intros b Hb. unfold split_eol. rewrite (proj2 (strip_suffix_Some [NL] _ b)) by done.
    destruct (strip_suffix [CR] b) as [b'|] eqn:E; intros [= <- <-]; [|done].
    apply strip_suffix_Some in E as ->. set_solver. }
  assert (H2 : forall b, NL ∉ b -> split_eol b = (body, eol) -> NL ∉ body).
  { intros b Hb. unfold split_eol. destruct (strip_suffix [NL] b) as [b'|] eqn:E.
    - apply strip_suffix_Some in E as ->. set_solver.
    - by intros [= <- <-]. }
  induction chunks as [|d rest IH]; intros Hok Hin Hs; [set_solver|].
  destruct rest as [|d' rest].
  - apply list_elem_of_singleton in Hin as ->.
    destruct Hok as [_ [Hn|(b & -> & Hb)]]; eauto.
  - destruct Hok as [(b & -> & Hb) Hr]. apply elem_of_cons in Hin as [->|Hin]; eauto.
Qed.

(** Replacing the body of a chunk keeps the chunk's shape and terminator, as
    long as the new body is newline-free and keeps a final CR a final CR. *)
Lemma chunks_ok_replace c1 chunk c2 body eol body' :
  chunks_ok (c1 ++ chunk :: c2) -> split_eol chunk = (body, eol) ->
  NL ∉ body' -> body' <> [] ->
  chunks_ok (c1 ++ (body' ++ eol) :: c2).
Proof.
  intros Hok Hs Hn Hne.
  assert (Heol : eol = [] \/ exists x, eol = x ++ [NL] /\ NL ∉ x).
  { unfold split_eol in Hs. repeat case_match; simplify_eq; [right; by exists [CR]; set_solver
      |right; by exists []; set_solver|by left]. }
  induction c1 as [|d c1 IH].
  - destruct c2 as [|e c2]; simpl in *.
    + split; [by destruct body'|]. destruct Heol as [->|(x & -> & Hx)].
      * left. by rewrite app_nil_r.
      * right. exists (body' ++ x). rewrite app_assoc. set_solver.
    + destruct Hok as [(b & -> & Hb) Hr]. split; [|done].
      destruct Heol as [->|(x & -> & Hx)].
      * exfalso. unfold split_eol in Hs.
        rewrite (proj2 (strip_suffix_Some [NL] _ b)) in Hs by done. by repeat case_match.
      * exists (body' ++ x). rewrite app_assoc. set_solver.
  - assert (Hcons : forall X, X <> [] -> chunks_ok (d :: X) <->
      ((exists b, d = b ++ [NL] /\ NL ∉ b) /\ chunks_ok X)) by (intros []; done).
    change (chunks_ok (d :: (c1 ++ chunk :: c2))) in Hok.
    change (chunks_ok (d :: (c1 ++ (body' ++ eol) :: c2))).
    rewrite Hcons in * by (by destruct c1). destruct Hok as [Hd Hr]. auto.
Qed.

Lemma split_eol_replace chunk body eol body' :
  split_eol chunk = (body, eol) -> NL ∉ body' ->
  (forall r, body' = r ++ [CR] -> exists r', body = r' ++ [CR]) ->
  split_eol (body' ++ eol) = (body', eol).
Proof.
  unfold split_eol. intros Hs Hn Hcr.
  destruct (strip_suffix [NL] chunk) as [r|] eqn:E1.
  - apply strip_suffix_Some in E1 as ->. destruct (strip_suffix [CR] r) as [b|] eqn:E2; simplify_eq.
    + rewrite (proj2 (strip_suffix_Some [NL] _ (body' ++ [CR]))) by (by rewrite <-app_assoc).
      by rewrite (proj2 (strip_suffix_Some [CR] _ body')).
    + rewrite (proj2 (strip_suffix_Some [NL] _ body')) by done.
      destruct (strip_suffix [CR] body') as [b|] eqn:E3; [|done].
      apply strip_suffix_Some in E3. destruct (Hcr b E3) as [r' ->].
      by rewrite (proj2 (strip_suffix_Some [CR] _ r')) in E2.
  - simplify_eq. rewrite app_nil_r. destruct (strip_suffix [NL] body') as [b|] eqn:E3; [|done].
    apply strip_suffix_Some in E3 as ->. set_solver.
Qed.

Local Open Scope nat_scope.

(** ** Clipping text ([src/text_util.rs]) *)

(** The character limit ends on a boundary: no slice can panic. *)
Definition truncate_chars (s : str) (max_chars : nat) : str := take max_chars s.
Definition ELLIPSIS : str := lit "...".
Definition truncate_with_ellipsis (s : str) (max_chars : nat) : str :=
  if blen (truncate_chars s max_chars) =? blen s then s
  else truncate_chars s (max_chars - length ELLIPSIS) ++ ELLIPSIS.

Lemma truncate_whole s n : blen (truncate_chars s n) = blen s <-> length s <= n.
Proof.
  unfold truncate_chars. rewrite <-(take_drop n s) at 2. rewrite blen_app. split.
  - intros E. assert (Hd : drop n s = []) by (apply blen_0; lia). apply (f_equal length) in Hd. rewrite length_drop in Hd. simpl in Hd. lia.
  - intros Hl. rewrite (drop_ge s n Hl), blen_nil. lia.
Qed.
Lemma truncate_with_ellipsis_spec s n :
  3 <= n -> length (truncate_with_ellipsis s n) <= n /\ (length s <= n -> truncate_with_ellipsis s n = s).
Proof.
  intros Hn. unfold truncate_with_ellipsis. destruct (Nat.eqb_spec (blen (truncate_chars s n)) (blen s)) as [E|E]; rewrite truncate_whole in E.
  - by split.
  - split; [|lia]. unfold truncate_chars. rewrite length_app, length_take. simpl. lia.
Qed.
