(* ===== verification/Utf8.v ===== *)
(** * UTF-8 bytes of a text

    The bytes a [String] holds, and [String::from_utf8]: the strict decoder,
    which refuses overlong forms, surrogates and truncated sequences. *)

From S2P Require Import Prelude Str.
Local Open Scope N_scope.

(** The Unicode scalar values. *)
Definition is_scalar (c : char) : bool := (c <? 0xD800) || (0xE000 <=? c) && (c <? 0x110000).

Definition cont (bits : N) : N := 0x80 + bits mod 64.
Definition utf8_char (c : char) : list N :=
  if c <? 0x80 then [c]
  else if c <? 0x800 then [0xC0 + c / 64; cont c]
  else if c <? 0x10000 then [0xE0 + c / 4096; cont (c / 64); cont c]
  else [0xF0 + c / 262144; cont (c / 4096); cont (c / 64); cont c].
Definition utf8 (s : str) : list N := concat (map utf8_char s).

Definition is_cont (b : N) : bool := (0x80 <=? b) && (b <? 0xC0).

(** The sequence that starts with [b0]: its character and the rest. *)
Definition decode_char (b0 : N) (rest : list N) : option (char * list N) :=
  if b0 <? 0x80 then Some (b0, rest)
  else if (0xC2 <=? b0) && (b0 <? 0xE0) then
    match rest with
    | b1 :: r => if is_cont b1 then Some ((b0 - 0xC0) * 64 + (b1 - 0x80), r) else None
    | _ => None
    end
  else if (0xE0 <=? b0) && (b0 <? 0xF0) then
    match rest with
    | b1 :: b2 :: r =>
        let c := (b0 - 0xE0) * 4096 + (b1 - 0x80) * 64 + (b2 - 0x80) in
        if is_cont b1 && is_cont b2 && (0x800 <=? c) && is_scalar c then Some (c, r) else None
    | _ => None
    end
  else if (0xF0 <=? b0) && (b0 <? 0xF5) then
    match rest with
    | b1 :: b2 :: b3 :: r =>
        let c := (b0 - 0xF0) * 262144 + (b1 - 0x80) * 4096 + (b2 - 0x80) * 64 + (b3 - 0x80) in
        if is_cont b1 && is_cont b2 && is_cont b3 && (0x10000 <=? c) && is_scalar c then Some (c, r) else None
    | _ => None
    end
  else None.

(** Each sequence takes at least one byte, so the length is fuel enough. *)
Fixpoint decode_loop (fuel : nat) (bytes : list N) : option str :=
  match bytes, fuel with
  | [], _ => Some []
  | b0 :: rest, S fuel' => '(c, r) ← decode_char b0 rest; s ← decode_loop fuel' r; Some (c :: s)
  | _ :: _, O => None
  end.
Definition from_utf8 (bytes : list N) : option str := decode_loop (length bytes) bytes.

(** [String::from_utf8_lossy]: a U+FFFD for every maximal prefix of a sequence
    that does not complete. *)
Definition second_ok (b0 b1 : N) : bool :=
  if b0 =? 0xE0 then (0xA0 <=? b1) && (b1 <? 0xC0)
  else if b0 =? 0xED then (0x80 <=? b1) && (b1 <? 0xA0)
  else if b0 =? 0xF0 then (0x90 <=? b1) && (b1 <? 0xC0)
  else if b0 =? 0xF4 then (0x80 <=? b1) && (b1 <? 0x90)
  else is_cont b1.
Definition skip_invalid (b0 : N) (rest : list N) : list N :=
  match rest with
  | b1 :: r1 =>
      if (0xE0 <=? b0) && (b0 <? 0xF5) && second_ok b0 b1 then
        match r1 with
        | b2 :: r2 => if (0xF0 <=? b0) && is_cont b2 then r2 else r1
        | [] => r1
        end
      else rest
  | [] => rest
  end.
Fixpoint lossy_loop (fuel : nat) (bytes : list N) : str :=
  match bytes, fuel with
  | b0 :: rest, S fuel' =>
      match decode_char b0 rest with
      | Some (c, r) => c :: lossy_loop fuel' r
      | None => 0xFFFD :: lossy_loop fuel' (skip_invalid b0 rest)
      end
  | _, _ => []
  end.
Definition from_utf8_lossy (bytes : list N) : str := lossy_loop (length bytes) bytes.

(** ** Round trip *)

Lemma utf8_char_length c : length (utf8_char c) = len_utf8 c.
Proof. unfold utf8_char, len_utf8. by repeat case_match. Qed.
Lemma utf8_length s : length (utf8 s) = blen s.
Proof.
  unfold utf8, blen. induction s as [|c s IH]; [done|]. cbn [map concat sum_with].
  by rewrite length_app, utf8_char_length, IH.
Qed.
Lemma utf8_app a b : utf8 (a ++ b) = utf8 a ++ utf8 b.
Proof. unfold utf8. by rewrite map_app, concat_app. Qed.

Lemma cont_is_cont n : is_cont (cont n) = true.
Proof. unfold is_cont, cont. pose proof (N.mod_lt n 64 ltac:(done)). lia. Qed.
Lemma cont_bits n : cont n - 0x80 = n mod 64.
Proof. unfold cont. lia. Qed.

Lemma decode_utf8_char c rest :
  is_scalar c = true ->
  exists b0 bs, utf8_char c = b0 :: bs /\ decode_char b0 (bs ++ rest) = Some (c, rest).
Proof.
  intros Hs. assert (Hlt : c < 0x110000) by (unfold is_scalar in Hs; lia). unfold utf8_char.
  pose proof (N.div_mod' c 64) as D1. pose proof (N.div_mod' (c / 64) 64) as D2.
  pose proof (N.div_mod' (c / 4096) 64) as D3.
  pose proof (N.mod_lt c 64 ltac:(done)) as M1. pose proof (N.mod_lt (c / 64) 64 ltac:(done)) as M2.
  pose proof (N.mod_lt (c / 4096) 64 ltac:(done)) as M3.
  assert (E2 : c / 64 / 64 = c / 4096) by by rewrite N.Div0.div_div.
  assert (E3 : c / 4096 / 64 = c / 262144) by by rewrite N.Div0.div_div.
  destruct (N.ltb_spec c 0x80); [|destruct (N.ltb_spec c 0x800); [|destruct (N.ltb_spec c 0x10000)]];
    (eexists _, _; split; [reflexivity|]); cbn [app]; unfold decode_char.
  - by rewrite (proj2 (N.ltb_lt c 0x80)) by done.
  - rewrite (proj2 (N.ltb_ge _ _)) by lia. replace (_ && _) with true by lia.
    rewrite cont_is_cont, cont_bits. do 2 f_equal. lia.
  - rewrite (proj2 (N.ltb_ge _ _)) by lia. replace (_ && _) with false by lia. replace (_ && _) with true by lia.
    rewrite !cont_is_cont, !cont_bits. cbn [andb].
    replace (_ + _ * 64 + _) with c by lia. rewrite Hs. by replace (0x800 <=? c) with true by lia.
  - rewrite (proj2 (N.ltb_ge _ _)) by lia. replace (_ && _) with false by lia. replace (_ && _) with false by lia.
    replace (_ && _) with true by lia. rewrite !cont_is_cont, !cont_bits. cbn [andb].
    replace (_ + _ * 4096 + _ + _) with c by lia. rewrite Hs. by replace (0x10000 <=? c) with true by lia.
Qed.

Lemma decode_loop_utf8 s fuel :
  Forall (fun c => is_scalar c = true) s -> (length (utf8 s) <= fuel)%nat -> decode_loop fuel (utf8 s) = Some s.
Proof.
  intros Hs. revert fuel. induction Hs as [|c s Hc _ IH]; intros fuel Hf; [by destruct fuel|].
  unfold utf8 in *. cbn [map concat] in *. destruct (decode_utf8_char c (concat (map utf8_char s)) Hc) as (b0 & bs & E & Hd).
  rewrite E in *. cbn [app length] in *. destruct fuel as [|fuel]; [lia|]. cbn [decode_loop]. rewrite Hd.
  cbn. rewrite IH; [done|]. rewrite length_app in Hf. lia.
Qed.
Lemma from_utf8_utf8 s : Forall (fun c => is_scalar c = true) s -> from_utf8 (utf8 s) = Some s.
Proof. intros Hs. by apply decode_loop_utf8. Qed.
