(* ===== verification/Decimal.v ===== *)
(** * Numerals

    The [f64] values the durable clocks hold, as the binary64 numbers of
    [SpecFloat] without the payload of a NaN, and the conversions of [core] and
    [std::time] the program uses on them; the decimal numbers [format!] writes
    and [parse] reads. *)

From Stdlib Require SpecFloat.
From stdpp Require Import pretty.
From S2P Require Import Prelude Str.

(** ** 64-bit floating point *)

Abbreviation f64 := SpecFloat.spec_float (only parsing).
Abbreviation NaN := SpecFloat.S754_nan (only parsing).
Abbreviation Infinity := (SpecFloat.S754_infinity false) (only parsing).
Abbreviation Zero := (SpecFloat.S754_zero false) (only parsing).

(** Equality of bits. *)
#[export] Instance f64_eq_dec : EqDecision f64.
Proof. solve_decision. Defined.

(** [n as f64] *)
Definition f64_of (n : N) : f64 := SpecFloat.binary_normalize 53 1024 (Z.of_N n) 0 false.
Definition f64_add : f64 -> f64 -> f64 := SpecFloat.SFadd 53 1024.
Definition f64_div : f64 -> f64 -> f64 := SpecFloat.SFdiv 53 1024.

(** [f64::is_finite], [x >= 0.0] and [x < 0.0] *)
Definition is_finite (x : f64) : bool :=
  match x with SpecFloat.S754_zero _ | SpecFloat.S754_finite _ _ _ => true | _ => false end.
Definition nonnegative (x : f64) : bool := SpecFloat.SFleb Zero x.
Definition f64_le (x y : f64) : bool := SpecFloat.SFleb x y.
Definition negative (x : f64) : bool := SpecFloat.SFltb x Zero.

(** [x as u64]: truncated, saturating, zero for a NaN. *)
Definition f64_as_u64 (x : f64) : N :=
  match x with
  | SpecFloat.S754_finite false m e => N.min (2 ^ 64 - 1) (Z.to_N (Z.shiftl (Zpos m) e))
  | SpecFloat.S754_infinity false => 2 ^ 64 - 1
  | _ => 0
  end.

(** [Duration::as_secs_f64] of a number of nanoseconds. *)
Definition as_secs_f64 (nanos : N) : f64 :=
  f64_add (f64_of (nanos / 1000000000)) (f64_div (f64_of (nanos mod 1000000000)) (f64_of 1000000000)).

Example twelve_and_a_half : as_secs_f64 12500000000 = f64_div (f64_of 25) (f64_of 2).
Proof. by vm_compute. Qed.
Example truncated_seconds : f64_as_u64 (as_secs_f64 12999999999) = 12%N.
Proof. by vm_compute. Qed.


Definition dec (n : nat) : str := lit (pretty n).
Definition decN (n : N) : str := lit (pretty n).

(** [parse] at an unsigned width: a sign [+] is accepted. *)
Fixpoint digits_below (bound acc : N) (s : str) : option N :=
  match s with
  | [] => Some acc
  | c :: s' =>
      if is_ascii_digit c then
        let v := (acc * 10 + (c - 48))%N in if (v <? bound)%N then digits_below bound v s' else None
      else None
  end.
Definition parse_unsigned (bound : N) (s : str) : option N :=
  let rest := match s with c :: (_ :: _) as r => if (c =? ch "+")%N then r else s | _ => s end in
  if is_empty rest then None else digits_below bound 0 rest.
Abbreviation decimal_digits := (digits_below (2 ^ 32)).
Definition parse_u32 : str -> option N := parse_unsigned (2 ^ 32).
Definition parse_u64 : str -> option N := parse_unsigned (2 ^ 64).

(** ** What is written *)

Lemma pretty_go_digits (s : String.string) x :
  Forall (fun c => is_ascii_digit c = true) (lit s) ->
  Forall (fun c => is_ascii_digit c = true) (lit (pretty.pretty_N_go x s)).
Proof.
  revert s. induction (N.lt_wf_0 x) as [x _ IH]; intros s Hs.
  destruct (decide (0 < x)%N) as [Hx|Hx].
  - rewrite pretty.pretty_N_go_step by done. apply IH; [by apply N.div_lt|].
    constructor; [|done]. unfold pretty.pretty_N_char. by repeat case_match.
  - assert (x = 0%N) as -> by lia. done.
Qed.

Lemma pretty_digits (n : N) : Forall (fun c => is_ascii_digit c = true) (lit (pretty.pretty n)).
Proof.
  unfold pretty.pretty, pretty.pretty_N. case_decide; [by repeat constructor|].
  apply pretty_go_digits. constructor.
Qed.

(** The digits, before the text [s]. *)
Lemma decimal_digits_go x s :
  (x < 2 ^ 32)%N -> (0 < x)%N -> decimal_digits 0 (lit (pretty_N_go x s)) = decimal_digits x (lit s).
Proof.
  revert s. induction (N.lt_wf_0 x) as [x _ IH]; intros s Hx Hp. rewrite pretty_N_go_step by done.
  pose proof (N.div_mod' x 10) as D. pose proof (N.mod_lt x 10 ltac:(done)) as M.
  set (c := pretty_N_char (x mod 10)).
  assert (Hc : decimal_digits (x / 10) (lit (String.String c s)) = decimal_digits x (lit s)).
  { unfold lit at 1; fold lit. cbn [decimal_digits].
    assert (Hd : Ascii.N_of_ascii c = (48 + x mod 10)%N).
    { unfold c. generalize dependent (x mod 10)%N. intros m _ Hm. clear -Hm.
      assert (H : (m = 0 \/ m = 1 \/ m = 2 \/ m = 3 \/ m = 4 \/ m = 5 \/ m = 6 \/ m = 7 \/ m = 8 \/ m = 9)%N) by lia.
      destruct_or? H; by subst m. }
    rewrite Hd. replace (is_ascii_digit _) with true by (unfold is_ascii_digit, in_range; lia).
    replace (_ * 10 + _)%N with x by lia. by rewrite (proj2 (N.ltb_lt _ _) Hx). }
  destruct (decide (x / 10 = 0)%N) as [E|E].
  - rewrite E in *. exact Hc.
  - rewrite IH; [done|by apply N.div_lt|lia|lia].
Qed.
Lemma decimal_digits_pretty n : (n < 2 ^ 32)%N -> decimal_digits 0 (lit (pretty n)) = Some n.
Proof.
  intros Hn. unfold pretty, pretty_N. case_decide as E; [by subst n|].
  rewrite decimal_digits_go; [done|done|lia].
Qed.

Lemma pretty_go_nonempty x s : lit s <> [] -> lit (pretty_N_go x s) <> [].
Proof.
  revert s. induction (N.lt_wf_0 x) as [x _ IH]; intros s Hs. destruct (decide (0 < x)%N) as [Hx|Hx].
  - rewrite pretty_N_go_step by done. by apply IH; [apply N.div_lt|].
  - assert (x = 0%N) as -> by lia. done.
Qed.
Lemma pretty_nonempty (n : N) : lit (pretty n) <> [].
Proof.
  unfold pretty, pretty_N. case_decide; [done|]. rewrite pretty_N_go_step by lia. by apply pretty_go_nonempty.
Qed.

(** A numeral has no sign, so it is read back. *)
Lemma digits_not_plus c : is_ascii_digit c = true -> (c =? ch "+")%N = false.
Proof. intros Hd. apply N.eqb_neq. intros ->. by vm_compute in Hd. Qed.
Lemma parse_u32_digits s v :
  Forall (fun c => is_ascii_digit c = true) s -> s <> [] -> decimal_digits 0 s = Some v -> parse_u32 s = Some v.
Proof.
  intros Hs Hn Hv. unfold parse_u32, parse_unsigned. destruct s as [|c [|c' s]]; try done.
  inversion_clear Hs as [|? ? Hc _]. by rewrite (digits_not_plus c Hc).
Qed.
Lemma parse_u32_pretty n : (n < 2 ^ 32)%N -> parse_u32 (lit (pretty n)) = Some n.
Proof.
  intros Hn. apply parse_u32_digits; [apply pretty_digits|apply pretty_nonempty|by apply decimal_digits_pretty].
Qed.

(** Leading zeros do not count. *)
Lemma decimal_digits_zeros k s : decimal_digits 0 (replicate k (ch "0") ++ s) = decimal_digits 0 s.
Proof. induction k as [|k IH]; [done|]. exact IH. Qed.

Lemma pretty_go_length x s k :
  (x < 10 ^ N.of_nat k)%N -> length (lit (pretty_N_go x s)) <= k + length (lit s).
Proof.
  revert x s. induction k as [|k IH]; intros x s Hx.
  - assert (x = 0%N) as -> by (simpl in Hx; lia). done.
  - destruct (decide (0 < x)%N) as [Hp|Hp].
    + rewrite pretty_N_go_step by done. etrans; [apply IH|unfold lit; simpl; lia].
      apply N.Div0.div_lt_upper_bound. by rewrite Nat2N.inj_succ, N.pow_succ_r' in Hx.
    + assert (x = 0%N) as -> by lia. rewrite pretty_N_go_0. lia.
Qed.
Lemma pretty_length n k : 0 < k -> (n < 10 ^ N.of_nat k)%N -> length (lit (pretty n)) <= k.
Proof.
  intros Hk Hn. unfold pretty, pretty_N. case_decide; [simpl; lia|].
  pose proof (pretty_go_length n String.EmptyString k Hn) as Hg. simpl in Hg. lia.
Qed.
