(* ===== verification/Regex.v ===== *)
(** * Regular expressions

    The program states several grammars as patterns of the regex crate.  This
    file gives those patterns a syntax ([re]), a leftmost-first backtracking
    matcher ([exec], [captures]) that evaluates them, and a relational meaning
    ([Match]) the matcher is sound and complete for.  Captured groups carry
    the text before, inside and after the group, so a byte offset is the
    [blen] of a prefix and always a character boundary. *)

From S2P Require Import Prelude Str.

(** ** Syntax *)

Inductive re : Type :=
  | REps
  | RSet (f : char -> bool)
  | RSeq (a b : re)
  | RAlt (a b : re)
  | RStar (a : re)
  | RGroup (g : nat) (a : re)
  | RBegin
  | REnd
  | RWordB.

(** A captured group: the text before it, its own text, the text after it. *)
Record span := Span { sp_before : str; sp_text : str; sp_after : str }.

Abbreviation caps := (list (nat * span)) (only parsing).

(** Derived forms. *)
Definition RChar (c : char) : re := RSet (fun d => (d =? c)%N).
Definition ROneOf (s : str) : re := RSet (fun d => existsb (N.eqb d) s).
Definition ROpt (r : re) : re := RAlt r REps.
Definition RPlus (r : re) : re := RSeq r (RStar r).
Fixpoint RSeqs (l : list re) : re :=
  match l with [] => REps | [r] => r | r :: l' => RSeq r (RSeqs l') end.
Fixpoint RAlts (l : list re) : re :=
  match l with [] => RSet (fun _ => false) | [r] => r | r :: l' => RAlt r (RAlts l') end.
(** [r{0,n}] *)
Fixpoint RUpTo (n : nat) (r : re) : re :=
  match n with 0 => REps | S n' => ROpt (RSeq r (RUpTo n' r)) end.

(** The characters equal to [c] under Unicode simple case folding, for an
    ASCII [c]: besides the two ASCII cases, KELVIN SIGN folds to [k] and
    LATIN SMALL LETTER LONG S to [s]. *)
Definition fold_eq (c d : char) : bool :=
  ((to_ascii_lower d =? to_ascii_lower c)
   || ((to_ascii_lower c =? 107) && (d =? 8490))
   || ((to_ascii_lower c =? 115) && (d =? 383)))%N.

(** A case-insensitive literal, [(?i)lit]. *)
Definition RLitI (s : str) : re := RSeqs (map (fun c => RSet (fold_eq c)) s).

(** Patterns without groups and assertions, and the characters they consume. *)
Fixpoint simple (r : re) : bool :=
  match r with
  | REps | RSet _ => true
  | RSeq a b | RAlt a b => simple a && simple b
  | RStar a => simple a
  | RGroup _ _ | RBegin | REnd | RWordB => false
  end.

Fixpoint re_chars (r : re) (c : char) : bool :=
  match r with
  | RSet f => f c
  | RSeq a b | RAlt a b => re_chars a c || re_chars b c
  | RStar a | RGroup _ a => re_chars a c
  | REps | RBegin | REnd | RWordB => false
  end.

(** The language of a simple pattern. *)
Inductive Lang : re -> str -> Prop :=
  | LEps : Lang REps []
  | LSet (f : char -> bool) c : f c = true -> Lang (RSet f) [c]
  | LSeq a b m1 m2 : Lang a m1 -> Lang b m2 -> Lang (RSeq a b) (m1 ++ m2)
  | LAltL a b m : Lang a m -> Lang (RAlt a b) m
  | LAltR a b m : Lang b m -> Lang (RAlt a b) m
  | LStarNil a : Lang (RStar a) []
  | LStarCons a m1 m2 : m1 <> [] -> Lang a m1 -> Lang (RStar a) m2 -> Lang (RStar a) (m1 ++ m2).

(** ** The matcher *)

Section matcher.
Context `{U : Unicode}.

(** Whether a word boundary separates the reversed prefix and the suffix. *)
Definition word_boundary (p s : str) : bool :=
  xorb (match p with c :: _ => is_word c | [] => false end)
       (match s with c :: _ => is_word c | [] => false end).

(** [exec r p s cs k]: match [r] at the cursor whose reversed prefix is [p]
    and whose suffix is [s], trying alternatives in priority order and
    calling the continuation [k] at each end position. *)
Fixpoint exec {X} (r : re) (p s : str) (cs : caps)
    (k : str -> str -> caps -> option X) {struct r} : option X :=
  match r with
  | REps => k p s cs
  | RSet f => match s with
              | c :: s' => if f c then k (c :: p) s' cs else None
              | [] => None
              end
  | RSeq a b => exec a p s cs (fun p' s' cs' => exec b p' s' cs' k)
  | RAlt a b => or_else (exec a p s cs k) (exec b p s cs k)
  | RStar a =>
      (fix go (n : nat) (p s : str) (cs : caps) : option X :=
         match n with
         | 0 => k p s cs
         | S n' =>
             or_else
               (exec a p s cs (fun p' s' cs' =>
                  if length s' <? length s then go n' p' s' cs' else None))
               (k p s cs)
         end) (length s) p s cs
  | RGroup g a =>
      exec a p s cs (fun p' s' cs' =>
        k p' s' ((g, Span (rev p) (take (length s - length s') s) s') :: cs'))
  | RBegin => match p with [] => k p s cs | _ => None end
  | REnd => match s with [] => k p s cs | _ => None end
  | RWordB => if word_boundary p s then k p s cs else None
  end.

(** Leftmost search from a cursor. *)
Fixpoint search_from (r : re) (p s : str) : option caps :=
  match exec r p s [] (fun _ _ cs => Some cs) with
  | Some cs => Some cs
  | None => match s with
            | [] => None
            | c :: s' => search_from r (c :: p) s'
            end
  end.

(** [Regex::captures] and [Regex::is_match] *)
Definition captures (r : re) (s : str) : option caps := search_from r [] s.
Definition is_match (r : re) (s : str) : bool :=
  match captures r s with Some _ => true | None => false end.

(** [caps.get(g)]: the last text the group matched. *)
Fixpoint group (g : nat) (cs : caps) : option span :=
  match cs with
  | [] => None
  | (h, sp) :: cs' => if g =? h then Some sp else group g cs'
  end.

(** ** Meaning *)

Inductive Match : re -> str -> str -> caps -> str -> str -> caps -> Prop :=
  | MEps p s cs : Match REps p s cs p s cs
  | MSet (f : char -> bool) c p s cs :
      f c = true -> Match (RSet f) p (c :: s) cs (c :: p) s cs
  | MSeq a b p s cs p1 s1 cs1 p2 s2 cs2 :
      Match a p s cs p1 s1 cs1 -> Match b p1 s1 cs1 p2 s2 cs2 ->
      Match (RSeq a b) p s cs p2 s2 cs2
  | MAltL a b p s cs p1 s1 cs1 :
      Match a p s cs p1 s1 cs1 -> Match (RAlt a b) p s cs p1 s1 cs1
  | MAltR a b p s cs p1 s1 cs1 :
      Match b p s cs p1 s1 cs1 -> Match (RAlt a b) p s cs p1 s1 cs1
  | MStarNil a p s cs : Match (RStar a) p s cs p s cs
  | MStarCons a p s cs p1 s1 cs1 p2 s2 cs2 :
      Match a p s cs p1 s1 cs1 -> length s1 < length s ->
      Match (RStar a) p1 s1 cs1 p2 s2 cs2 ->
      Match (RStar a) p s cs p2 s2 cs2
  | MGroup g a p s cs p1 s1 cs1 :
      Match a p s cs p1 s1 cs1 ->
      Match (RGroup g a) p s cs p1 s1
        ((g, Span (rev p) (take (length s - length s1) s) s1) :: cs1)
  | MBegin s cs : Match RBegin [] s cs [] s cs
  | MEnd p cs : Match REnd p [] cs p [] cs
  | MWordB p s cs : word_boundary p s = true -> Match RWordB p s cs p s cs.

(** ** Soundness and completeness *)

Lemma or_else_Some {X} (a b : option X) x :
  or_else a b = Some x -> a = Some x \/ b = Some x.
Proof. destruct a; simpl; auto. Qed.

Lemma or_else_None {X} (a b : option X) : or_else a b = None <-> a = None /\ b = None.
Proof. destruct a; simpl; intuition congruence. Qed.

Lemma exec_sound {X} r p s cs (k : str -> str -> caps -> option X) x :
  exec r p s cs k = Some x ->
  exists p' s' cs', Match r p s cs p' s' cs' /\ k p' s' cs' = Some x.
Proof.
  revert p s cs k x.
  induction r as [|f|a IHa b IHb|a IHa b IHb|a IHa|g a IHa| | |]; intros p s cs k x; simpl.
  - intros Hk. exists p, s, cs. split; [constructor | done].
  - destruct s as [|c s']; [done|]. destruct (f c) eqn:E; [|done].
    intros Hk. exists (c :: p), s', cs. split; [by constructor | done].
  - intros (p1 & s1 & cs1 & Ha & (p2 & s2 & cs2 & Hb & Hk)%IHb)%IHa.
    exists p2, s2, cs2. split; [by econstructor | done].
  - intros [(p1 & s1 & cs1 & Ha & Hk)%IHa | (p1 & s1 & cs1 & Hb & Hk)%IHb]%or_else_Some;
      exists p1, s1, cs1; (split; [by constructor | done]).
  - generalize (length s) at 1 as n. intros n. revert p s cs x.
    induction n as [|n IHn]; intros p s cs x; simpl.
    + intros Hk. exists p, s, cs. split; [constructor | done].
    + intros [(p1 & s1 & cs1 & Ha & Hk)%IHa | Hk]%or_else_Some.
      * destruct (length s1 <? length s) eqn:E; [|done]. apply Nat.ltb_lt in E.
        apply IHn in Hk as (p2 & s2 & cs2 & Hs & Hk).
        exists p2, s2, cs2. split; [by econstructor | done].
      * exists p, s, cs. split; [constructor | done].
  - intros (p1 & s1 & cs1 & Ha & Hk)%IHa.
    eexists p1, s1, _. split; [by constructor | done].
  - destruct p; [|done]. intros Hk. eexists _, _, _. split; [constructor | done].
  - destruct s; [|done]. intros Hk. eexists _, _, _. split; [constructor | done].
  - destruct (word_boundary p s) eqn:E; [|done].
    intros Hk. eexists _, _, _. split; [by constructor | done].
Qed.

Lemma exec_complete {X} r p s cs p' s' cs' (k : str -> str -> caps -> option X) :
  Match r p s cs p' s' cs' -> k p' s' cs' <> None -> exec r p s cs k <> None.
Proof.
  revert p s cs p' s' cs' k.
  induction r as [|f|a IHa b IHb|a IHa b IHb|a IHa|g a IHa| | |];
    intros p s cs p' s' cs' k Hm Hk; simpl.
  - by inversion Hm; subst.
  - inversion Hm as [|? ? ? ? ? Hf| | | | | | | | |]; subst. by rewrite Hf.
  - inversion Hm; subst. eapply IHa; [done|]. simpl. by eapply IHb.
  - intros [H1 H2]%or_else_None. inversion Hm; subst; [by eapply IHa | by eapply IHb].
  - assert (Hn : length s <= length s) by lia. revert Hn.
    generalize (length s) at 2 3 as n. intros n.
    remember (RStar a) as r eqn:Hr. revert n.
    induction Hm as [| | | | |a' p s cs|a' p s cs p1 s1 cs1 p2 s2 cs2 Ha _ Hlen Hs IHs| | | |];
      intros n Hn; try done; injection Hr as ->; destruct n as [|n].
    + done.
    + by intros [_ ?]%or_else_None.
    + lia.
    + intros [H1 _]%or_else_None. revert H1. eapply IHa; [done|]. simpl.
      rewrite (proj2 (Nat.ltb_lt _ _)) by done. apply IHs; [done|done|lia].
  - inversion Hm; subst. by eapply IHa.
  - by inversion Hm; subst.
  - by inversion Hm; subst.
  - inversion Hm as [| | | | | | | | | |? ? ? Hw]; subst. by rewrite Hw.
Qed.

(** A match consumes a prefix of the suffix. *)
Lemma Match_consumes r p s cs p' s' cs' :
  Match r p s cs p' s' cs' -> exists m, s = m ++ s' /\ p' = rev m ++ p.
Proof.
  induction 1 as
    [p s cs|f c p s cs Hf|a b p s cs p1 s1 cs1 p2 s2 cs2 Ha IHa Hb IHb
    |a b p s cs p1 s1 cs1 _ IH|a b p s cs p1 s1 cs1 _ IH|a p s cs
    |a p s cs p1 s1 cs1 p2 s2 cs2 Ha IHa Hl Hb IHb
    |g a p s cs p1 s1 cs1 _ IH|s cs|p cs|p s cs Hw]; try done; try by exists [].
  - by exists [c].
  - destruct IHa as (m1 & -> & ->), IHb as (m2 & -> & ->).
    exists (m1 ++ m2). by rewrite rev_app_distr, <-!app_assoc.
  - destruct IHa as (m1 & -> & ->), IHb as (m2 & -> & ->).
    exists (m1 ++ m2). by rewrite rev_app_distr, <-!app_assoc.
Qed.

(** On simple patterns, matching is language membership of what is consumed. *)
Lemma Match_Lang r p s cs p' s' cs' :
  simple r = true -> Match r p s cs p' s' cs' ->
  exists m, s = m ++ s' /\ p' = rev m ++ p /\ cs' = cs /\ Lang r m.
Proof.
  intros Hr. induction 1 as
    [p s cs|f c p s cs Hf|a b p s cs p1 s1 cs1 p2 s2 cs2 Ha IHa Hb IHb
    |a b p s cs p1 s1 cs1 _ IH|a b p s cs p1 s1 cs1 _ IH|a p s cs
    |a p s cs p1 s1 cs1 p2 s2 cs2 Ha IHa Hl Hb IHb
    |g a p s cs p1 s1 cs1 _ IH|s cs|p cs|p s cs Hw]; simpl in Hr; try done.
  - exists []. by eauto using Lang.
  - exists [c]. by eauto using Lang.
  - apply andb_true_iff in Hr as [Hra Hrb].
    destruct (IHa Hra) as (m1 & -> & -> & -> & L1), (IHb Hrb) as (m2 & -> & -> & -> & L2).
    exists (m1 ++ m2). rewrite rev_app_distr, <-!app_assoc. by eauto using Lang.
  - apply andb_true_iff in Hr as [Hra Hrb].
    destruct (IH Hra) as (m1 & -> & -> & -> & L1). exists m1. eauto using Lang.
  - apply andb_true_iff in Hr as [Hra Hrb].
    destruct (IH Hrb) as (m1 & -> & -> & -> & L1). exists m1. eauto using Lang.
  - exists []. by eauto using Lang.
  - destruct (IHa Hr) as (m1 & -> & -> & -> & L1), (IHb Hr) as (m2 & -> & -> & -> & L2).
    exists (m1 ++ m2). rewrite rev_app_distr, <-!app_assoc. split_and!; try done.
    constructor; [|done..]. intros ->. simpl in Hl. lia.
Qed.

Lemma Lang_Match r m p s cs :
  Lang r m -> Match r p (m ++ s) cs (rev m ++ p) s cs.
Proof.
  intros HL. revert p s.
  induction HL as [|f c Hf|a b m1 m2 _ IH1 _ IH2|a b m _ IH|a b m _ IH|a|a m1 m2 Hne _ IH1 _ IH2];
    intros p s; simpl; eauto using Match.
  - rewrite rev_app_distr, <-!app_assoc. by econstructor.
  - rewrite rev_app_distr, <-!app_assoc. econstructor; [by apply IH1| |by apply IH2].
    rewrite !length_app. destruct m1; [done|]. simpl. lia.
Qed.

Lemma Lang_chars r m : Lang r m -> Forall (fun c => re_chars r c = true) m.
Proof.
  induction 1 as [|f c Hf|a b m1 m2 _ IH1 _ IH2|a b m _ IH|a b m _ IH|a|a m1 m2 Hne _ IH1 _ IH2];
    simpl; repeat constructor; try done;
    try (apply Forall_app; split);
    try (eapply Forall_impl; [eassumption|]); intros c Hc; simpl in *;
    rewrite ?Hc, ?orb_true_r; done.
Qed.

(** Leftmost search finds a match when one exists at the search start. *)
Lemma captures_sound r s cs :
  captures r s = Some cs ->
  exists m s0 p' s', s = m ++ s0 /\ Match r (rev m) s0 [] p' s' cs.
Proof.
  unfold captures. intros H.
  cut (exists m s0 p' s', s = m ++ s0 /\ Match r (rev m ++ []) s0 [] p' s' cs).
  { intros (m & s0 & p' & s' & ? & ?). rewrite app_nil_r in *. eauto 10. }
  revert H. generalize (@nil N) as p.
  induction s as [|c s IH]; intros p; simpl; destruct (exec _ _ _ _ _) as [cs'|] eqn:E; try done.
  - intros [= ->]. apply exec_sound in E as (p' & s' & cs' & Hm & [= ->]).
    exists [], [], p', s'. done.
  - intros [= ->]. apply exec_sound in E as (p' & s' & cs' & Hm & [= ->]).
    exists [], (c :: s), p', s'. done.
  - intros (m & s0 & p' & s' & -> & Hm)%IH. exists (c :: m), s0, p', s'.
    split; [done|]. simpl. by rewrite <-app_assoc.
Qed.

Lemma captures_complete r m s0 p' s' cs :
  Match r (rev m) s0 [] p' s' cs -> captures r (m ++ s0) <> None.
Proof.
  unfold captures. intros Hm.
  cut (search_from r [] (m ++ s0) <> None); [done|].
  assert (Hm' : Match r (rev m ++ []) s0 [] p' s' cs) by (by rewrite app_nil_r).
  revert Hm'. clear Hm. generalize (@nil N) as p.
  induction m as [|c m IH]; intros p Hm; simpl in *.
  - destruct s0 as [|c s0]; simpl; destruct (exec _ _ _ _ _) eqn:E; try done;
      exfalso; revert E; by eapply exec_complete.
  - destruct (exec _ _ _ _ _) eqn:E; [done|]. apply IH. by rewrite <-app_assoc in Hm.
Qed.
End matcher.
