(* ===== verification/TaskId.v ===== *)
(** * Task identifiers ([src/task_id.rs])

    Normalization strips decoration and whitespace from an id; validation
    decides whether an id may become a file name.  The two stay separate in
    the source, and so they do here. *)

From S2P Require Import Prelude Str.

(** ** Definitions *)

Definition is_decoration (c : char) : bool :=
  existsb (N.eqb c) (lit "[]()'" ++ [34%N]).

Definition normalize_task_id_ref (raw : str) : str :=
  trim (trim_matches is_decoration (trim raw)).

Definition normalize_task_id (raw : str) : option str :=
  let cleaned := normalize_task_id_ref raw in
  if negb (is_empty cleaned) then Some cleaned else None.

Definition MAX_TASK_ID_LEN : nat := 64.

Inductive TaskIdError :=
  | Empty
  | TooLong (len max : nat)
  | PathSeparator (c : char)
  | DotDotSegment
  | LeadingDot
  | TrailingDot
  | Whitespace (c : char)
  | ControlCharacter (c : char)
  | NonAscii (c : char)
  | DisallowedCharacter (c : char).

(** One iteration of the validation loop: the error the character [c] at index
    [idx] of an id of [len] characters raises, if any. *)
Definition check_char (len idx : nat) (c : char) : option TaskIdError :=
  if (c =? ch "/")%N || (c =? ch "\")%N then Some (PathSeparator c)
  else if is_whitespace c then Some (Whitespace c)
  else if is_control c then Some (ControlCharacter c)
  else if (c =? ch ".")%N then
    if idx =? 0 then Some LeadingDot
    else if idx + 1 =? len then Some TrailingDot
    else None
  else if negb (is_ascii c) then Some (NonAscii c)
  else if negb (is_ascii_alphanumeric c || (c =? ch "-")%N || (c =? ch "_")%N)
  then Some (DisallowedCharacter c)
  else None.

(** [for (idx, &ch) in chars.iter().enumerate()] *)
Fixpoint check_chars (len idx : nat) (s : str) : option TaskIdError :=
  match s with
  | [] => None
  | c :: s' => match check_char len idx c with
               | Some e => Some e
               | None => check_chars len (S idx) s'
               end
  end.

Definition validate_task_id (id : str) : str + TaskIdError :=
  if is_empty (trim id) then inr Empty
  else if MAX_TASK_ID_LEN <? length id then inr (TooLong (length id) MAX_TASK_ID_LEN)
  else if contains (lit "..") id then inr DotDotSegment
  else match check_chars (length id) 0 id with
       | Some e => inr e
       | None => inl id
       end.

Definition validate_task_id_owned (id : str) : str + TaskIdError :=
  match validate_task_id id with inl s => inl s | inr e => inr e end.

(** The accepted alphabet. *)
Definition id_char (c : char) : bool :=
  is_ascii_alphanumeric c || (c =? ch "-")%N || (c =? ch "_")%N || (c =? ch ".")%N.

(** What the documentation of the validator promises of an accepted id. *)
Definition WellFormedId (id : str) : Prop :=
  id <> [] /\ length id <= 64 /\ Forall (fun c => id_char c = true) id /\
  (forall a b, id <> a ++ lit ".." ++ b) /\
  (forall b, id <> lit "." ++ b) /\ (forall a, id <> a ++ lit ".").

(** What each error reports about the id it rejects. *)
Definition error_describes (id : str) (e : TaskIdError) : Prop :=
  match e with
  | Empty => Forall (fun c => is_whitespace c = true) id
  | TooLong len max => len = length id /\ max = 64 /\ max < len
  | PathSeparator c => c ∈ id /\ (c = ch "/" \/ c = ch "\")
  | DotDotSegment => exists a b, id = a ++ lit ".." ++ b
  | LeadingDot => exists b, id = lit "." ++ b
  | TrailingDot => exists a, id = a ++ lit "."
  | Whitespace c => c ∈ id /\ is_whitespace c = true
  | ControlCharacter c => c ∈ id /\ is_control c = true
  | NonAscii c => c ∈ id /\ is_ascii c = false
  | DisallowedCharacter c => c ∈ id /\ id_char c = false
  end.

(** ** Lemmas *)

(** The characters of the accepted alphabet raise no per-character error. *)
Lemma id_char_ascii c : id_char c = true -> is_ascii c = true.
Proof.
  unfold id_char, is_ascii_alphanumeric, is_ascii_alphabetic, is_ascii_upper,
    is_ascii_lower, is_ascii_digit, in_range, is_ascii, ch. simpl.
  intros Hc. apply N.ltb_lt. repeat rewrite orb_true_iff in Hc.
  rewrite !andb_true_iff, !N.leb_le, !N.eqb_eq in Hc. 
  destruct Hc as [[[[[?|?]|?]|?]|?]|?]; simpl in *; lia.
Qed.

Lemma id_char_classes c :
  id_char c = true ->
  is_whitespace c = false /\ is_control c = false /\
  ((c =? ch "/")%N || (c =? ch "\")%N) = false.
Proof.
  intros Hc. pose proof (id_char_ascii c Hc) as Ha.
  pose proof (ascii_forall (fun c => negb (id_char c) ||
    (negb (is_whitespace c) && negb (is_control c) &&
     negb ((c =? ch "/")%N || (c =? ch "\")%N)))) as H.
  specialize (H eq_refl c Ha). cbv beta in H. rewrite Hc in H.
  apply andb_true_iff in H as [[H1 H2]%andb_true_iff H3]. rewrite negb_true_iff in *. auto.
Qed.

Lemma check_char_None len idx c :
  check_char len idx c = None <->
  id_char c = true /\ (c = ch "." -> idx <> 0 /\ idx + 1 <> len).
Proof.
  split.
  - unfold check_char. repeat case_match; try done; intros _; bool_simpl.
    + split; [|auto]. subst. done.
    + split; [|congruence]. unfold id_char. by rewrite H4.
  - intros [Hc Hdot]. pose proof (id_char_classes c Hc) as (Hw & Hctl & Hsep).
    pose proof (id_char_ascii c Hc) as Ha. unfold check_char. rewrite Hsep, Hw, Hctl, Ha.
    unfold id_char in Hc. destruct (N.eqb_spec c (ch ".")) as [Hd|Hne]; simpl.
    + destruct (Hdot Hd) as [H0 H1]. by rewrite (proj2 (Nat.eqb_neq _ _) H0),
        (proj2 (Nat.eqb_neq _ _) H1).
    + rewrite orb_false_r in Hc. by rewrite Hc.
Qed.

Lemma check_chars_None len idx s :
  check_chars len idx s = None <->
  forall i c, s !! i = Some c -> check_char len (idx + i) c = None.
Proof.
  revert idx. induction s as [|d s IH]; intros idx; simpl; [split; done|].
  destruct (check_char len idx d) as [e|] eqn:E.
  - split; [done|]. intros H. specialize (H 0 d eq_refl). rewrite Nat.add_0_r in H. congruence.
  - rewrite IH. split; intros H i c.
    + destruct i as [|i]; simpl; [intros [= <-]; by rewrite Nat.add_0_r|].
      intros Hi. rewrite Nat.add_succ_r. by apply H.
    + intros Hi. replace (S idx + i) with (idx + S i) by lia. by apply H.
Qed.

Lemma check_chars_Some len idx s e :
  check_chars len idx s = Some e ->
  exists i c, s !! i = Some c /\ check_char len (idx + i) c = Some e.
Proof.
  revert idx. induction s as [|d s IH]; intros idx; simpl; [done|].
  destruct (check_char len idx d) as [e'|] eqn:E.
  - intros [= ->]. exists 0, d. by rewrite Nat.add_0_r.
  - intros (i & c & Hi & He)%IH. exists (S i), c. split; [done|].
    by rewrite Nat.add_succ_r.
Qed.

(** [trim] empties exactly the whitespace-only strings. *)
Lemma trim_nil s : trim s = [] <-> Forall (fun c => is_whitespace c = true) s.
Proof.
  split.
  - intros E. destruct (trim_spec s) as (a & b & Hs & Ha & Hb). rewrite E in Hs.
    subst. simpl. by apply Forall_app.
  - intros Hs. pose proof (trim_trimmed s) as [Ht _].
    destruct (trim s) as [|c t] eqn:E; [done|].
    destruct (trim_spec s) as (a & b & Heq & _ & _). rewrite E in Heq.
    rewrite Heq, Forall_app in Hs. destruct Hs as [_ Hs]. inversion Hs; congruence.
Qed.

Lemma WellFormedId_chars id :
  WellFormedId id <->
  id <> [] /\ length id <= 64 /\ contains (lit "..") id = false /\
  check_chars (length id) 0 id = None.
Proof.
  unfold WellFormedId. rewrite check_chars_None.
  assert (Hdd : contains (lit "..") id = false <-> forall a b, id <> a ++ lit ".." ++ b).
  { rewrite <-not_true_iff_false, contains_true. clear. firstorder. }
  rewrite Hdd. cbn [Nat.add]. setoid_rewrite check_char_None. rewrite Forall_lookup. split.
  - intros (Hne & Hlen & Hall & Hdots & Hlead & Htrail). split_and!; [done..|].
    intros i c Hi. split; [eauto|]. intros ->. split.
    + intros ->. destruct id as [|d b]; [done|]. simpl in Hi. injection Hi as ->.
      by apply (Hlead b).
    + intros Hl. destruct (decide (i = length (take i id))) as [Ei|Ei].
      * apply (Htrail (take i id)). rewrite <-(take_drop i id) at 1. f_equal.
        rewrite (drop_S id (ch ".") i Hi), (drop_ge id (S i)) by lia. done.
      * rewrite length_take in Ei. apply lookup_lt_Some in Hi. lia.
  - intros (Hne & Hlen & Hdots & Hall). split_and!; try done.
    + intros i c Hi. by apply (Hall i c Hi).
    + intros b ->. by destruct (Hall 0 (ch ".") eq_refl) as [_ [[] _]].
    + intros a ->. destruct (Hall (length a) (ch ".")) as [_ Hd].
      * by rewrite lookup_app_r, Nat.sub_diag.
      * destruct (Hd eq_refl) as [_ H]. apply H. rewrite length_app. simpl. lia.
Qed.

Lemma check_char_Some len idx c e id :
  id !! idx = Some c -> length id = len ->
  check_char len idx c = Some e -> error_describes id e.
Proof.
  intros Hi Hlen. assert (Hin : c ∈ id) by (eapply list_elem_of_lookup_2; eauto).
  unfold check_char. repeat case_match; intros [= <-]; simpl.
  - split; [done|]. apply orb_true_iff in H. rewrite !N.eqb_eq in H. done.
  - done.
  - done.
  - apply Nat.eqb_eq in H3. apply N.eqb_eq in H2. subst.
    destruct id as [|d id]; [done|]. simpl in Hi. injection Hi as ->. by exists id.
  - apply Nat.eqb_eq in H4. apply N.eqb_eq in H2. subst c len.
    exists (take idx id). rewrite <-(take_drop idx id) at 1.
    by rewrite (drop_S id _ idx Hi), (drop_ge id (S idx)) by lia.
  - apply negb_true_iff in H3. done.
  - apply negb_true_iff in H4. split; [done|]. unfold id_char. by rewrite H4, H2.
Qed.

Lemma validate_WellFormed id : WellFormedId id -> validate_task_id id = inl id.
Proof.
  intros (Hne & Hlen & Hdd & Hcs)%WellFormedId_chars. unfold validate_task_id.
  destruct (trim id) as [|c t] eqn:Et.
  - exfalso. apply trim_nil in Et. destruct id as [|c id]; [done|].
    inversion Et as [|? ? Hw _]; subst.
    simpl in Hcs. destruct (check_char _ 0 c) eqn:E; [done|].
    apply check_char_None in E as [(Hw' & _ & _)%id_char_classes _]. congruence.
  - simpl. rewrite (proj2 (Nat.ltb_ge _ _)) by (unfold MAX_TASK_ID_LEN; lia).
    by rewrite Hdd, Hcs.
Qed.

(** ** Properties *)

(** The validator accepts exactly the documented grammar and answers the id
    unchanged: non-empty, at most 64 characters, ASCII alphanumerics, [-], [_]
    and inner single dots. *)
Theorem validate_accepts id r :
  validate_task_id id = inl r <-> r = id /\ WellFormedId id.
Proof.
  split; [|by intros [-> ?]; apply validate_WellFormed].
  unfold validate_task_id. destruct (is_empty (trim id)) eqn:Et; [done|].
  destruct (MAX_TASK_ID_LEN <? length id) eqn:El; [done|].
  destruct (contains (lit "..") id) eqn:Ed; [done|].
  destruct (check_chars (length id) 0 id) eqn:Ec; [done|]. intros [= <-].
  split; [done|]. apply WellFormedId_chars. split_and!; try done.
  - by intros ->.
  - by apply Nat.ltb_ge in El.
Qed.

(** Every rejection names a rule the id really breaks. *)
Theorem validate_error_describes id e :
  validate_task_id id = inr e -> error_describes id e.
Proof.
  unfold validate_task_id. destruct (is_empty (trim id)) eqn:Et.
  { intros [= <-]. apply trim_nil. by destruct (trim id). }
  destruct (MAX_TASK_ID_LEN <? length id) eqn:El.
  { intros [= <-]. apply Nat.ltb_lt in El. done. }
  destruct (contains (lit "..") id) eqn:Ed.
  { intros [= <-]. by apply contains_true in Ed. }
  destruct (check_chars (length id) 0 id) as [e'|] eqn:Ec; [|done]. intros [= <-].
  apply check_chars_Some in Ec as (i & c & Hi & He). by eapply check_char_Some.
Qed.

Lemma validate_error_describes_witness :
  error_describes (lit "../evil") DotDotSegment.
Proof. apply (validate_error_describes (lit "../evil")). vm_compute. reflexivity. Defined.

(** Normalizing a normalized id again changes it exactly when decoration
    still wraps it, so the documented idempotence holds on the other ids. *)
Theorem normalize_idempotent_iff raw :
  normalize_task_id_ref (normalize_task_id_ref raw) = normalize_task_id_ref raw <->
  trimmed is_decoration (normalize_task_id_ref raw).
Proof.
  set (n := normalize_task_id_ref raw).
  assert (Hn : trim n = n) by (apply trim_id, trim_trimmed).
  unfold normalize_task_id_ref at 1. rewrite Hn. split.
  - intros H.
    destruct (trim_matches_spec is_decoration n) as (a & b & Hs & Ha & Hb).
    destruct (trim_spec (trim_matches is_decoration n)) as (a' & b' & Hs' & _ & _).
    rewrite H in Hs'. rewrite Hs' in Hs.
    apply (f_equal length) in Hs as Hlen. rewrite !length_app in Hlen.
    destruct a, b, a', b'; simpl in Hlen; try lia.
    simpl in Hs'. rewrite app_nil_r in Hs'. rewrite <-Hs'. apply trim_matches_trimmed.
  - intros H. by rewrite trim_matches_id.
Qed.

(** the documented idempotence fails: decoration nested under whitespace
    survives one normalization and not a second one. *)
Theorem normalize_not_idempotent :
  normalize_task_id_ref (lit "( [t-001] )") = lit "[t-001]" /\
  normalize_task_id_ref (normalize_task_id_ref (lit "( [t-001] )")) = lit "t-001".
Proof. split; vm_compute; reflexivity. Qed.
