(* ===== verification/ToolNames.v ===== *)
(** * Tool names ([src/tool_names.rs])

    The names a tool is called by on the wire, the table that folds the accepted
    spellings onto one, and the predicates over it. *)

From S2P Require Import Prelude Str.
Local Open Scope nat_scope.

(** ** Constants *)

Definition TOOL_DELEGATE_TASK : str := lit "delegate_task".
Definition TOOL_READ_FILE : str := lit "read_file".
Definition TOOL_WRITE_FILE : str := lit "write_file".
Definition TOOL_REPLACE : str := lit "replace".
Definition TOOL_RUN_COMMAND : str := lit "run_command".
Definition TOOL_GREP_SEARCH : str := lit "grep_search".
Definition TOOL_GLOB : str := lit "glob".
Definition TOOL_CREATE_PLAN : str := lit "create_plan".
Definition TOOL_ARCHIVE_PLAN : str := lit "archive_current_plan".
Definition TOOL_REBIRTH : str := lit "rebirth".
Definition TOOL_PTY_SPAWN : str := lit "pty_spawn".
Definition TOOL_PTY_WRITE : str := lit "pty_write".
Definition TOOL_PTY_READ : str := lit "pty_read".
Definition TOOL_PTY_CLOSE : str := lit "pty_close".
Definition TOOL_PTY_LIST : str := lit "pty_list".
Definition TOOL_LEAVE_VERDICT : str := lit "leave_verdict".
Definition TOOL_SLEEP : str := lit "sleep".
Definition TOOL_REPLY_TO_ARBITRATOR : str := lit "reply_to_arbitrator".
Definition TOOL_PAUSE_EXECUTION : str := lit "pause_execution".
Definition TOOL_PAUSE_SUBAGENT : str := lit "pause_subagent".
Definition TOOL_RESUME_SUBAGENT : str := lit "resume_subagent".
Definition TERMINAL_READ_FILE : str := lit "terminal__read_file".
Definition TERMINAL_WRITE_FILE : str := lit "terminal__write_file".
Definition TERMINAL_REPLACE : str := lit "terminal__replace".
Definition TERMINAL_RUN_COMMAND : str := lit "terminal__run_command".
Definition TERMINAL_GREP_SEARCH : str := lit "terminal__grep_search".
Definition TERMINAL_GLOB : str := lit "terminal__glob".
Definition TERMINAL_LIST_DIRECTORY : str := lit "terminal__list_directory".
Definition TOOL_LIST_DIRECTORY : str := lit "list_directory".
Definition TERMINAL_SLEEP : str := lit "terminal__sleep".
Definition TERMINAL_LEAVE_VERDICT : str := lit "terminal__leave_verdict".
Definition TERMINAL_PREFIX : str := lit "terminal__".

Definition terminal_tool (bare : str) : str := TERMINAL_PREFIX ++ bare.

Definition CANONICAL_TOOL_NAMES : list str :=
  [TOOL_DELEGATE_TASK; TOOL_CREATE_PLAN; TOOL_ARCHIVE_PLAN; TOOL_PAUSE_EXECUTION;
   TOOL_PAUSE_SUBAGENT; TOOL_RESUME_SUBAGENT; TOOL_READ_FILE; TERMINAL_READ_FILE;
   TOOL_WRITE_FILE; TERMINAL_WRITE_FILE; TOOL_REPLACE; TERMINAL_REPLACE;
   TOOL_RUN_COMMAND; TERMINAL_RUN_COMMAND; TOOL_GREP_SEARCH; TERMINAL_GREP_SEARCH;
   TOOL_GLOB; TERMINAL_GLOB; TOOL_SLEEP; TERMINAL_SLEEP;
   TOOL_REBIRTH; TOOL_LEAVE_VERDICT; TERMINAL_LEAVE_VERDICT; TOOL_REPLY_TO_ARBITRATOR;
   TOOL_PTY_SPAWN; TOOL_PTY_WRITE; TOOL_PTY_READ; TOOL_PTY_CLOSE;
   TOOL_PTY_LIST].

(** The accepted spellings, and the spelling each is folded onto. *)
Definition TOOL_ALIAS_TABLE : list (str * str) :=
  [(TOOL_READ_FILE, TERMINAL_READ_FILE); (lit "view_file", TERMINAL_READ_FILE);
   (lit "get_file", TERMINAL_READ_FILE); (lit "read", TERMINAL_READ_FILE);
   (TOOL_WRITE_FILE, TERMINAL_WRITE_FILE); (lit "create_file", TERMINAL_WRITE_FILE);
   (lit "write_to_file", TERMINAL_WRITE_FILE); (lit "save_file", TERMINAL_WRITE_FILE);
   (lit "write", TERMINAL_WRITE_FILE); (TOOL_REPLACE, TERMINAL_REPLACE);
   (lit "replace_file_content", TERMINAL_REPLACE); (lit "edit_file", TERMINAL_REPLACE);
   (TOOL_RUN_COMMAND, TERMINAL_RUN_COMMAND); (lit "execute_command", TERMINAL_RUN_COMMAND);
   (lit "run", TERMINAL_RUN_COMMAND); (lit "exec", TERMINAL_RUN_COMMAND);
   (lit "bash", TERMINAL_RUN_COMMAND); (lit "sh", TERMINAL_RUN_COMMAND);
   (lit "cmd", TERMINAL_RUN_COMMAND); (TOOL_GREP_SEARCH, TERMINAL_GREP_SEARCH);
   (lit "grep", TERMINAL_GREP_SEARCH); (lit "search", TERMINAL_GREP_SEARCH);
   (TOOL_GLOB, TERMINAL_GLOB); (lit "find_files", TERMINAL_GLOB);
   (lit "glob_search", TERMINAL_GLOB); (TOOL_SLEEP, TERMINAL_SLEEP);
   (lit "wait", TERMINAL_SLEEP); (lit "sleeptask", TERMINAL_SLEEP);
   (lit "waitseconds", TERMINAL_SLEEP); (lit "pause", TERMINAL_SLEEP);
   (TOOL_LEAVE_VERDICT, TERMINAL_LEAVE_VERDICT); (lit "leaveVerdict", TERMINAL_LEAVE_VERDICT);
   (lit "leave_verdict_tool", TERMINAL_LEAVE_VERDICT); (lit "pty__spawn", TOOL_PTY_SPAWN);
   (lit "pty__write", TOOL_PTY_WRITE); (lit "pty__read", TOOL_PTY_READ);
   (lit "pty__close", TOOL_PTY_CLOSE); (lit "pty__list", TOOL_PTY_LIST);
   (lit "stop_execution", TOOL_PAUSE_EXECUTION); (lit "abort_execution", TOOL_PAUSE_EXECUTION);
   (lit "pause_plan", TOOL_PAUSE_EXECUTION)].

(** ** Resolution *)

Definition is_canonical_tool_name (name : str) : bool := str_mem name CANONICAL_TOOL_NAMES.
Definition normalize_tool_alias (name : str) : option str :=
  match find_first (fun row => str_eqb (fst row) name) TOOL_ALIAS_TABLE with
  | Some (_, canonical) => Some canonical
  | None => find_first (fun canonical => str_eqb canonical name) CANONICAL_TOOL_NAMES
  end.
Definition canonical_tool_spelling (name : str) : str := default name (normalize_tool_alias name).
(** The aliases of a tool, then its own spelling when the table knows it. *)
Definition tool_spellings_for (canonical : str) : list str :=
  let resolved := normalize_tool_alias canonical in
  let target := default canonical resolved in
  let out := map fst (List.filter (fun row => str_eqb (snd row) target) TOOL_ALIAS_TABLE) in
  match resolved with
  | Some r => if str_mem r out then out else out ++ [r]
  | None => out
  end.

Definition names_tool (name tool : str) : bool :=
  match normalize_tool_alias name with Some t => str_eqb t tool | None => false end.
Definition is_sleep_tool_name (name : str) : bool := names_tool name TERMINAL_SLEEP.

Definition is_separator (c : char) : bool :=
  (c =? ch "_")%N || (c =? ch "-")%N || (c =? ch " ")%N || (c =? 9)%N.
Definition fold_tool_spelling (name : str) : str :=
  to_ascii_lowercase (List.filter (fun c => negb (is_separator c)) name).
Definition is_sleep_tool_grammar_spelling (name : str) : bool :=
  let key := fold_tool_spelling name in
  str_eqb (fold_tool_spelling TERMINAL_SLEEP) key ||
  existsb (fun row => str_eqb (snd row) TERMINAL_SLEEP && str_eqb (fold_tool_spelling (fst row)) key) TOOL_ALIAS_TABLE.

Definition LEAVE_VERDICT_NAME_SUFFIXES : list str := [lit "__leave_verdict"; lit "_leave_verdict"].
Definition is_leave_verdict_tool_name (name : str) : bool :=
  if names_tool name TERMINAL_LEAVE_VERDICT then true
  else
    let lower := to_ascii_lowercase name in
    names_tool lower TERMINAL_LEAVE_VERDICT || existsb (fun suffix => ends_with suffix lower) LEAVE_VERDICT_NAME_SUFFIXES.

(** Every name the built-in dispatcher claims. *)
Definition BUILTIN_TABLE : list str :=
  CANONICAL_TOOL_NAMES ++ List.filter (fun alias => negb (is_canonical_tool_name alias)) (map fst TOOL_ALIAS_TABLE).

(** ** Facts *)

Lemma find_first_key (l : list (str * str)) name row :
  find_first (fun r => str_eqb (fst r) name) l = Some row -> row ∈ l /\ fst row = name.
Proof.
  intros E. apply find_first_Some in E as (l1 & l2 & -> & E & _). split; [set_solver|by apply str_eqb_eq].
Qed.
Lemma find_first_name (l : list str) name c : find_first (fun x => str_eqb x name) l = Some c -> c ∈ l /\ c = name.
Proof.
  intros E. apply find_first_Some in E as (l1 & l2 & -> & E & _). split; [set_solver|by apply str_eqb_eq].
Qed.

(** Decided on the table. *)
Definition target_closed (t : str) : bool :=
  bool_decide (normalize_tool_alias t = Some t) && is_canonical_tool_name t.
Lemma targets_closed : forallb (fun row => target_closed (snd row)) TOOL_ALIAS_TABLE = true.
Proof. by vm_compute. Qed.
Lemma canonicals_known : forallb (fun c => bool_decide (is_Some (normalize_tool_alias c))) CANONICAL_TOOL_NAMES = true.
Proof. by vm_compute. Qed.
Lemma builtin_nodup : NoDup BUILTIN_TABLE.
Proof. apply (bool_decide_unpack _). by vm_compute. Qed.
Lemma aliases_nodup : NoDup (map fst TOOL_ALIAS_TABLE).
Proof. apply (bool_decide_unpack _). by vm_compute. Qed.

Lemma normalize_tool_closed name t :
  normalize_tool_alias name = Some t -> normalize_tool_alias t = Some t /\ t ∈ CANONICAL_TOOL_NAMES.
Proof.
  unfold normalize_tool_alias at 1. destruct (find_first _ TOOL_ALIAS_TABLE) as [[a t']|] eqn:E.
  - intros [= ->]. apply find_first_key in E as [Hin _]. pose proof targets_closed as Hc. rewrite forallb_forall in Hc.
    specialize (Hc _ (proj1 (list_elem_of_In _ _) Hin)). apply andb_true_iff in Hc as [Hc Hm].
    split; [by apply bool_decide_eq_true in Hc|by apply str_mem_true].
  - intros Ht. pose proof Ht as Hc. apply find_first_name in Hc as [Hin ->]. split; [|done].
    unfold normalize_tool_alias. by rewrite E.
Qed.
Lemma tool_claimed name : is_Some (normalize_tool_alias name) <-> name ∈ BUILTIN_TABLE.
Proof.
  unfold BUILTIN_TABLE. rewrite elem_of_app. split.
  - intros [t Ht]. unfold normalize_tool_alias in Ht. destruct (find_first _ TOOL_ALIAS_TABLE) as [[a t']|] eqn:E.
    + apply find_first_key in E as [Hin Hf]. cbn [fst] in Hf. subst a.
      destruct (is_canonical_tool_name name) eqn:Ec; [left; by apply str_mem_true|right].
      apply list_elem_of_In, filter_In. rewrite Ec. split; [|done]. by apply list_elem_of_In, (list_elem_of_fmap_2 fst _ (name, t')).
    + apply find_first_name in Ht as [Hin ->]. by left.
  - intros [Hin|Hin].
    + pose proof canonicals_known as Hk. rewrite forallb_forall in Hk. apply list_elem_of_In in Hin.
      by specialize (Hk _ Hin); apply bool_decide_eq_true in Hk.
    + apply list_elem_of_In, filter_In in Hin as [Hin _]. apply list_elem_of_In, list_elem_of_fmap in Hin as ([a t] & -> & Hin).
      unfold normalize_tool_alias. destruct (find_first _ TOOL_ALIAS_TABLE) as [[a' t']|] eqn:E; [done|].
      apply find_first_None in E. rewrite Forall_forall in E. specialize (E _ Hin). cbn [fst] in E. by rewrite str_eqb_refl in E.
Qed.
Lemma rows_onto (l : list (str * str)) s t : s ∈ map fst (List.filter (fun row => str_eqb (snd row) t) l) <-> (s, t) ∈ l.
Proof.
  induction l as [|[a t'] l IH]; [by split; intros ?%not_elem_of_nil|]. cbn [List.filter snd].
  destruct (str_eqb t' t) eqn:E; cbn [map fst]; rewrite !elem_of_cons, IH.
  - apply str_eqb_eq in E as ->. naive_solver.
  - split; [by right|]. intros [[= -> ->]|?]; [by rewrite str_eqb_refl in E|done].
Qed.
Lemma push_new (l : list str) t s : s ∈ (if str_mem t l then l else l ++ [t]) <-> s ∈ l \/ s = t.
Proof.
  destruct (str_mem t l) eqn:E; [|by rewrite elem_of_app, list_elem_of_singleton].
  apply str_mem_true in E. split; [by left|]. by intros [?| ->].
Qed.
Lemma alias_row_resolves a t : (a, t) ∈ TOOL_ALIAS_TABLE -> normalize_tool_alias a = Some t.
Proof.
  intros Hin. unfold normalize_tool_alias. destruct (find_first _ TOOL_ALIAS_TABLE) as [[a' t']|] eqn:E.
  - apply find_first_key in E as [Hin' Hf]. cbn [fst] in Hf. subst a'. f_equal.
    apply list_elem_of_lookup in Hin as [i Hi], Hin' as [j Hj].
    assert (i = j) as ->.
    { eapply (NoDup_lookup (map fst TOOL_ALIAS_TABLE)); [apply aliases_nodup|rewrite list_lookup_fmap, Hi; done|by rewrite list_lookup_fmap, Hj]. }
    rewrite Hi in Hj. by injection Hj.
  - apply find_first_None in E. rewrite Forall_forall in E. specialize (E _ Hin). cbn [fst] in E. by rewrite str_eqb_refl in E.
Qed.

(** One table decides every tool name.  Resolving is idempotent and ends in
    a canonical name; the names that resolve are exactly the names reserved
    for the dispatcher, each once; and the spellings listed for a tool are
    exactly those that resolve to it. *)
Theorem tool_names_resolve :
  (forall name, canonical_tool_spelling (canonical_tool_spelling name) = canonical_tool_spelling name) /\
  (forall name t, normalize_tool_alias name = Some t -> t ∈ CANONICAL_TOOL_NAMES) /\
  (forall name, is_Some (normalize_tool_alias name) <-> name ∈ BUILTIN_TABLE) /\ NoDup BUILTIN_TABLE /\
  (forall tool t s, normalize_tool_alias tool = Some t -> (s ∈ tool_spellings_for tool <-> normalize_tool_alias s = Some t)).
Proof.
  split_and!; [|by intros name t [_ ?]%normalize_tool_closed|apply tool_claimed|apply builtin_nodup|].
  - intros name. unfold canonical_tool_spelling. destruct (normalize_tool_alias name) as [t|] eqn:E; simpl; [|by rewrite E].
    apply normalize_tool_closed in E as [E _]. by rewrite E.
  - intros tool t s Ht. unfold tool_spellings_for. rewrite Ht. cbv zeta. cbn [default from_option].
    etrans; [apply push_new|]. etrans; [apply or_iff_compat_r, (rows_onto TOOL_ALIAS_TABLE s t)|]. split.
    + intros [Hin| ->]; [by apply alias_row_resolves|]. by apply normalize_tool_closed in Ht as [? _].
    + unfold normalize_tool_alias. destruct (find_first _ TOOL_ALIAS_TABLE) as [[a t']|] eqn:E.
      * intros [= ->]. apply find_first_key in E as [Hin Hf]. cbn [fst] in Hf. subst a. by left.
      * intros [_ ->]%find_first_name. by right.
Qed.
