(* ===== verification/ToolArgs.v ===== *)
(** * Tool arguments ([src/tool_args.rs])

    The one-line previews of a tool call and the duration of a sleep.  A JSON
    value is a parameter, given by what serde_json's accessors answer. *)

From stdpp Require Import pretty.
From S2P Require Import Prelude Str Decimal ToolNames.
Local Open Scope nat_scope.

(** ** JSON values *)

Class JsonValue := {
  Value : Type;
  value_null : Value;                      (* [Value::default()] *)
  value_get : Value -> str -> option Value;  (* [get] at a key *)
  as_str_value : Value -> option str;
  as_u64 : Value -> option N;
  as_i64 : Value -> option Z;
  as_f64 : Value -> option f64;
  value_to_string : Value -> str
}.

Section args.
Context `{JsonValue}.
Implicit Types args value : Value.

(** ** Reading arguments *)

Definition get_str (args : Value) (key : str) : option str := value_get args key ≫= as_str_value.
Definition first_str (args : Value) (keys : list str) : str := default [] (find_map (get_str args) keys).
Definition byte_len (value : option Value) : nat :=
  match value with Some v => match as_str_value v with Some s => blen s | None => 0 end | None => 0 end.

Definition search_pattern (args : Value) : str := first_str args [lit "pattern"; lit "query"].
Definition glob_pattern (args : Value) : str := first_str args [lit "pattern"].
Definition path_arg (args : Value) : str := first_str args [lit "path"].
Definition command_arg (args : Value) : str := first_str args [lit "command"].
Definition plan_markdown_len (args : Value) : nat := byte_len (value_get args (lit "plan_markdown")).
Definition delegate_agent (args : Value) : str := default (lit "specialist") (get_str args (lit "agent_name")).
Definition delegate_task_id (args : Value) : str := first_str args [lit "task_id"].
Definition delegate_prompt (args : Value) : str := first_str args [lit "prompt"].

(** ** Sleep durations *)

Definition SLEEP_DEFAULT_SECS : N := 5.
Definition SLEEP_MIN_SECS : N := 1.
Definition SLEEP_MAX_SECS : N := 300.

Definition parse_secs_value (value : Value) : option N :=
  match as_u64 value with
  | Some secs => Some secs
  | None =>
      match as_i64 value with
      | Some secs => if (0 <? secs)%Z then Some (Z.to_N secs) else None
      | None =>
          match as_f64 value with
          | Some secs =>
              if is_finite secs && f64_le (f64_of SLEEP_MIN_SECS) secs && f64_le secs (f64_of SLEEP_MAX_SECS)
              then Some (f64_as_u64 secs) else None
          | None => as_str_value value ≫= parse_u64
          end
      end
  end.
Definition raw_sleep_secs (args : Value) : option N :=
  or_else (or_else (value_get args (lit "seconds")) (value_get args (lit "duration"))) (value_get args (lit "duration_seconds"))
    ≫= parse_secs_value.
Definition clamp (n lo hi : N) : N := if (n <? lo)%N then lo else if (hi <? n)%N then hi else n.
Definition sleep_duration_secs (args : Value) : N :=
  clamp (default SLEEP_DEFAULT_SECS (raw_sleep_secs args)) SLEEP_MIN_SECS SLEEP_MAX_SECS.

(** ** Previews *)

Definition CLIP_ELLIPSIS : str := [8230%N].
Definition CLIP_SLACK : nat := 3.
Definition COMMAND_PREVIEW_BUDGET : nat := 40.
Definition GENERIC_PREVIEW_BUDGET : nat := 30.
Definition DECORATED_BUDGET : nat := 60.

Definition clip (s : str) (budget : nat) : str :=
  if length s <=? budget then s else truncate_chars s (budget - CLIP_SLACK) ++ CLIP_ELLIPSIS.

Definition preview_tool_args (name : str) (args : Value) : str :=
  if str_mem name [TOOL_READ_FILE; TOOL_WRITE_FILE; TOOL_REPLACE] then path_arg args
  else if str_eqb name TOOL_RUN_COMMAND then clip (command_arg args) COMMAND_PREVIEW_BUDGET
  else if str_eqb name TOOL_GREP_SEARCH then search_pattern args
  else if str_eqb name TOOL_GLOB then glob_pattern args
  else if str_eqb name TOOL_SLEEP then decN (sleep_duration_secs args) ++ lit "s"
  else clip (value_to_string args) GENERIC_PREVIEW_BUDGET.

Definition decorated (name body : str) : str := name ++ lit "(" ++ body ++ lit ")".
Definition preview_tool_call (name : str) (args : Value) : str :=
  if str_eqb name TOOL_GREP_SEARCH then
    decorated name (match get_str args (lit "path") with
                    | Some path => search_pattern args ++ lit " in " ++ path
                    | None => search_pattern args end)
  else if str_eqb name TOOL_GLOB then decorated name (glob_pattern args)
  else if str_mem name [TOOL_READ_FILE; TOOL_WRITE_FILE; TOOL_REPLACE] then decorated name (path_arg args)
  else if str_eqb name TOOL_RUN_COMMAND then decorated name (clip (command_arg args) DECORATED_BUDGET)
  else if str_eqb name TOOL_CREATE_PLAN then
    decorated name (lit "plan_markdown: " ++ dec (plan_markdown_len args) ++ lit " chars")
  else if str_eqb name TOOL_DELEGATE_TASK then
    decorated name (if is_empty (delegate_task_id args) then lit "agent: " ++ delegate_agent args
                    else lit "agent: " ++ delegate_agent args ++ lit ", task_id: " ++ delegate_task_id args)
  else decorated name (clip (value_to_string args) DECORATED_BUDGET).

Definition QUOTE : str := [34%N].
Definition full_tool_args (name : str) (args : Value) : str :=
  let whole := value_to_string args in
  if str_eqb name TOOL_WRITE_FILE then
    match get_str args (lit "path") with
    | Some path => path ++ lit " (content: " ++ dec (byte_len (value_get args (lit "content"))) ++ lit " bytes)"
    | None => whole
    end
  else if str_eqb name TOOL_REPLACE then
    match get_str args (lit "path") with
    | Some path => path ++ lit " (replace: " ++ dec (byte_len (value_get args (lit "old_str"))) ++ lit "b -> " ++
                   dec (byte_len (value_get args (lit "new_str"))) ++ lit "b)"
    | None => whole
    end
  else if str_eqb name TOOL_READ_FILE then default whole (get_str args (lit "path"))
  else if str_eqb name TOOL_RUN_COMMAND then command_arg args
  else if str_eqb name TOOL_GREP_SEARCH then
    lit "query=" ++ QUOTE ++ search_pattern args ++ QUOTE ++
    (if is_empty (path_arg args) then [] else lit ", path=" ++ QUOTE ++ path_arg args ++ QUOTE)
  else if str_eqb name TOOL_GLOB then glob_pattern args
  else if str_eqb name TOOL_DELEGATE_TASK then
    lit "agent=" ++ delegate_agent args ++ lit ", task_id=" ++ delegate_task_id args ++
    lit ", prompt=" ++ QUOTE ++ delegate_prompt args ++ QUOTE
  else if is_leave_verdict_tool_name name then
    lit "verdict=" ++ first_str args [lit "verdict"; lit "status"; lit "decision"] ++
    lit ", comments=" ++ QUOTE ++ first_str args [lit "comments"; lit "comment"; lit "feedback"] ++ QUOTE
  else if str_eqb name TOOL_SLEEP then
    let secs := decN (sleep_duration_secs args) in
    let reason := first_str args [lit "reason"] in
    if is_empty reason then lit "seconds=" ++ secs
    else lit "seconds=" ++ secs ++ lit ", reason=" ++ QUOTE ++ reason ++ QUOTE
  else whole.

(** ** Facts *)

Lemma clip_bounded s budget : 3 <= budget -> length (clip s budget) <= budget.
Proof.
  intros Hb. unfold clip, truncate_chars, CLIP_SLACK. destruct (Nat.leb_spec (length s) budget) as [Hl|Hl]; [done|].
  rewrite length_app, length_take. simpl. lia.
Qed.

Lemma clamp_range n lo hi : (lo <= hi)%N -> (lo <= clamp n lo hi <= hi)%N.
Proof. intros Hl. unfold clamp. destruct (N.ltb_spec n lo); [lia|]. destruct (N.ltb_spec hi n); lia. Qed.

End args.

(** A sleep waits at least one second and at most five minutes. *)
Lemma sleep_duration_bounds `{JsonValue} (args : Value) :
  (SLEEP_MIN_SECS <= sleep_duration_secs args <= SLEEP_MAX_SECS)%N.
Proof. apply clamp_range. by vm_compute. Qed.
