(* ===== verification/Extractor.v ===== *)
(** * The streamed response of the steer arbitrator ([src/orchestrator/steer_extractor.rs])

    The decision arrives as JSON in chunks; the text of its [response] field is
    shown while it arrives.  [push_chunk] finds the field in what it has
    buffered, then unescapes the string character by character. *)

From S2P Require Import Prelude Str Utf8.
Local Open Scope nat_scope.

Definition QUOTE : char := 34%N.
Definition BACKSLASH : char := 92%N.
Definition RESPONSE_KEY : str := [QUOTE] ++ lit "response" ++ [QUOTE].

Record Extractor := {
  buffer : str;
  in_response_field : bool;
  finished : bool;
  escape_next : bool;
  unicode_buffer : option str
}.
Definition new : Extractor :=
  {| buffer := []; in_response_field := false; finished := false; escape_next := false; unicode_buffer := None |}.
Definition with_unicode (u : option str) (e : Extractor) : Extractor :=
  {| buffer := buffer e; in_response_field := in_response_field e; finished := finished e;
     escape_next := escape_next e; unicode_buffer := u |}.
Definition with_escape (b : bool) (e : Extractor) : Extractor :=
  {| buffer := buffer e; in_response_field := in_response_field e; finished := finished e;
     escape_next := b; unicode_buffer := unicode_buffer e |}.
Definition with_buffer (s : str) (e : Extractor) : Extractor :=
  {| buffer := s; in_response_field := in_response_field e; finished := finished e;
     escape_next := escape_next e; unicode_buffer := unicode_buffer e |}.

(** [u32::from_str_radix(_, 16)] of at most four bytes: a sign [+] is accepted. *)
Definition hex_value (c : char) : option N :=
  if is_ascii_digit c then Some (c - 48)%N
  else if in_range 97 102 c then Some (c - 87)%N
  else if in_range 65 70 c then Some (c - 55)%N
  else None.
Fixpoint hex_digits (acc : N) (s : str) : option N :=
  match s with
  | [] => Some acc
  | c :: s' => match hex_value c with Some d => hex_digits (acc * 16 + d)%N s' | None => None end
  end.
Definition from_hex (s : str) : option N :=
  let rest := match s with c :: (_ :: _) as r => if (c =? ch "+")%N then r else s | _ => s end in
  if is_empty rest then None else hex_digits 0 rest.
(** [char::from_u32] *)
Definition char_from_u32 (n : N) : option char := if is_scalar n then Some n else None.

(** The characters emitted, and whether the string ended. *)
Definition process_char (c : char) (e : Extractor) : str * bool * Extractor :=
  match unicode_buffer e with
  | Some ubuf =>
      let ubuf := ubuf ++ [c] in
      if blen ubuf =? 4 then
        (match from_hex ubuf ≫= char_from_u32 with Some u => [u] | None => [] end, false, with_unicode None e)
      else ([], false, with_unicode (Some ubuf) e)
  | None =>
      if escape_next e then
        let e := with_escape false e in
        if (c =? ch "n")%N then ([10%N], false, e)
        else if (c =? ch "r")%N then ([13%N], false, e)
        else if (c =? ch "t")%N then ([9%N], false, e)
        else if (c =? BACKSLASH)%N then ([BACKSLASH], false, e)
        else if (c =? QUOTE)%N then ([QUOTE], false, e)
        else if (c =? ch "/")%N then ([ch "/"], false, e)
        else if (c =? ch "u")%N then ([], false, with_unicode (Some []) e)
        else ([BACKSLASH; c], false, e)
      else if (c =? BACKSLASH)%N then ([], false, with_escape true e)
      else if (c =? QUOTE)%N then
        ([], true, {| buffer := buffer e; in_response_field := false; finished := true;
                      escape_next := escape_next e; unicode_buffer := unicode_buffer e |})
      else ([c], false, e)
  end.
Fixpoint process_chars (s : str) (e : Extractor) : str * bool * Extractor :=
  match s with
  | [] => ([], false, e)
  | c :: s' =>
      match process_char c e with
      | (out, true, e') => (out, true, e')
      | (out, false, e') => let '(out', ended, e'') := process_chars s' e' in (out ++ out', ended, e'')
      end
  end.

(** What the buffered text says of the field. *)
Inductive Scan := Wait | Enter (content : str) | NoText.
Definition no_text (trimmed : str) : bool :=
  starts_with (lit "null") trimmed ||
  negb (is_empty trimmed) && negb (starts_with [QUOTE] trimmed) && negb (starts_with (lit "n") trimmed).
Definition scan (buf : str) : Scan :=
  match find_split RESPONSE_KEY buf with
  | None => Wait
  | Some (_, rest) =>
      match find_split [ch ":"] rest with
      | None => Wait
      | Some (_, after_colon) =>
          let trimmed := trim_start after_colon in
          match find_split [QUOTE] after_colon with
          | Some (_, content) => if starts_with [QUOTE] trimmed then Enter content else if no_text trimmed then NoText else Wait
          | None => if no_text trimmed then NoText else Wait
          end
      end
  end.

Definition push_chunk (e : Extractor) (chunk : str) : str * bool * Extractor :=
  if finished e then ([], false, e)
  else if in_response_field e then process_chars chunk e
  else
    let e1 := with_buffer (buffer e ++ chunk) e in
    match scan (buffer e1) with
    | Wait => ([], false, e1)
    | Enter content =>
        process_chars content {| buffer := []; in_response_field := true; finished := finished e1;
                                 escape_next := escape_next e1; unicode_buffer := unicode_buffer e1 |}
    | NoText =>
        ([], false, {| buffer := []; in_response_field := in_response_field e1; finished := true;
                       escape_next := escape_next e1; unicode_buffer := unicode_buffer e1 |})
    end.
Definition push (e : Extractor) (chunk : str) : str * Extractor :=
  let '(out, _, e') := push_chunk e chunk in (out, e').
Fixpoint push_all (e : Extractor) (chunks : list str) : str * Extractor :=
  match chunks with
  | [] => ([], e)
  | c :: cs => let '(out, e1) := push e c in let '(outs, e2) := push_all e1 cs in (out ++ outs, e2)
  end.

(** ** Chunks do not matter *)

Lemma trim_start_app s t : trim_start s <> [] -> trim_start (s ++ t) = trim_start s ++ t.
Proof.
  unfold trim_start, trim_start_matches. induction s as [|c s IH]; [done|]. cbn [app drop_while]. destruct (is_whitespace c); [apply IH|done].
Qed.
Lemma starts_with_more p s t : starts_with p s = true -> starts_with p (s ++ t) = true.
Proof. intros (r & ->)%starts_with_true. apply starts_with_true. exists (r ++ t). by rewrite app_assoc. Qed.
Lemma starts_with_one c x s : starts_with [c] (x :: s) = (c =? x)%N.
Proof. unfold starts_with. cbn [strip_prefix]. by destruct (c =? x)%N. Qed.

Lemma scan_enter s t c : scan s = Enter c -> scan (s ++ t) = Enter (c ++ t).
Proof.
  unfold scan. destruct (find_split RESPONSE_KEY s) as [[k rest]|] eqn:E1; [|done]. rewrite (find_split_app _ _ t _ _ E1).
  destruct (find_split [ch ":"] rest) as [[j after]|] eqn:E2; [|done]. rewrite (find_split_app _ _ t _ _ E2). cbv zeta.
  destruct (find_split [QUOTE] after) as [[i content]|] eqn:E3.
  - rewrite (find_split_app _ _ t _ _ E3). destruct (starts_with [QUOTE] (trim_start after)) eqn:Es; [|by destruct (no_text _)].
    intros [= <-]. rewrite trim_start_app by (by destruct (trim_start after)). by rewrite starts_with_more.
  - by destruct (no_text _).
Qed.
Lemma no_text_more trimmed t :
  no_text trimmed = true ->
  trimmed <> [] /\ starts_with [QUOTE] (trimmed ++ t) = false /\ no_text (trimmed ++ t) = true.
Proof.
  unfold no_text. destruct trimmed as [|x l]; [done|]. cbn [app is_empty negb andb]. change (lit "n") with [ch "n"]. rewrite !starts_with_one.
  destruct (starts_with (lit "null") (x :: l)) eqn:En.
  - intros _. split; [done|]. pose proof (starts_with_more _ _ t En) as Em. cbn [app] in Em. rewrite Em. split; [|done].
    apply starts_with_true in En as (r & Er). by injection Er as -> _.
  - cbn [orb]. intros Hx. split; [done|]. rewrite Hx, orb_true_r. split; [|done].
    apply andb_true_iff in Hx as [Hx _]. by apply negb_true_iff in Hx.
Qed.
Lemma scan_no_text s t : scan s = NoText -> scan (s ++ t) = NoText.
Proof.
  unfold scan. destruct (find_split RESPONSE_KEY s) as [[k rest]|] eqn:E1; [|done]. rewrite (find_split_app _ _ t _ _ E1).
  destruct (find_split [ch ":"] rest) as [[j after]|] eqn:E2; [|done]. rewrite (find_split_app _ _ t _ _ E2). cbv zeta.
  intros Hn. assert (Hb : no_text (trim_start after) = true).
  { destruct (find_split [QUOTE] after) as [[i content]|]; [destruct (starts_with [QUOTE] _); [done|]|]; by destruct (no_text _). }
  destruct (no_text_more _ t Hb) as (Hne & Hq & Hb'). rewrite trim_start_app, Hq, Hb' by done.
  by destruct (find_split [QUOTE] (after ++ t)) as [[? ?]|].
Qed.

Lemma process_chars_app a b e :
  process_chars (a ++ b) e =
    match process_chars a e with
    | (o, true, e') => (o, true, e')
    | (o, false, e') => let '(o', ended, e'') := process_chars b e' in (o ++ o', ended, e'')
    end.
Proof.
  revert e. induction a as [|c a IH]; intros e; cbn [app process_chars].
  - by destruct (process_chars b e) as [[o ended] e''].
  - destruct (process_char c e) as [[o [|]] e1]; [done|]. rewrite IH. destruct (process_chars a e1) as [[o1 [|]] e2]; [done|].
    destruct (process_chars b e2) as [[o2 ended] e3]. by rewrite app_assoc.
Qed.
Lemma process_char_flags c e :
  let '(o, ended, e') := process_char c e in
  if ended : bool then finished e' = true else in_response_field e' = in_response_field e /\ finished e' = finished e.
Proof.
  unfold process_char. destruct (unicode_buffer e); [by destruct (_ =? 4)|]. destruct (escape_next e).
  - repeat (destruct (c =? _)%N; [done|]). done.
  - by repeat (destruct (c =? _)%N).
Qed.
Lemma process_chars_flags s e :
  let '(o, ended, e') := process_chars s e in
  if ended : bool then finished e' = true else in_response_field e' = in_response_field e /\ finished e' = finished e.
Proof.
  revert e. induction s as [|c s IH]; intros e; [done|]. cbn [process_chars]. pose proof (process_char_flags c e) as Hc.
  destruct (process_char c e) as [[o [|]] e1]; [done|]. specialize (IH e1). destruct (process_chars s e1) as [[o1 [|]] e2]; [done|].
  destruct IH as [-> ->]. exact Hc.
Qed.

Lemma push_finished e s : finished e = true -> push e s = ([], e).
Proof. intros Hf. unfold push, push_chunk. by rewrite Hf. Qed.
Lemma push_text e s :
  finished e = false -> in_response_field e = true -> push e s = let '(o, _, e') := process_chars s e in (o, e').
Proof. intros Hf Hi. unfold push, push_chunk. by rewrite Hf, Hi. Qed.
(** The state in which the text of the field begins. *)
Definition entered (e : Extractor) : Extractor :=
  {| buffer := []; in_response_field := true; finished := finished e; escape_next := escape_next e;
     unicode_buffer := unicode_buffer e |}.
Definition gave_up (e : Extractor) : Extractor :=
  {| buffer := []; in_response_field := in_response_field e; finished := true; escape_next := escape_next e;
     unicode_buffer := unicode_buffer e |}.
Lemma push_scan e s :
  finished e = false -> in_response_field e = false ->
  push e s = match scan (buffer e ++ s) with
             | Wait => ([], with_buffer (buffer e ++ s) e)
             | Enter content => push (entered e) content
             | NoText => ([], gave_up e)
             end.
Proof.
  intros Hf Hi. unfold push at 1, push_chunk. rewrite Hf, Hi. cbv zeta. cbn [buffer with_buffer].
  destruct (scan (buffer e ++ s)) as [|content|]; [done| |done]. by rewrite push_text.
Qed.

Lemma push_inside e a b :
  finished e = false -> in_response_field e = true ->
  push e (a ++ b) = let '(o1, e1) := push e a in let '(o2, e2) := push e1 b in (o1 ++ o2, e2).
Proof.
  intros Hf Hi. rewrite !push_text, process_chars_app by done.
  pose proof (process_chars_flags a e) as Ha. destruct (process_chars a e) as [[o [|]] e1].
  - by rewrite push_finished, app_nil_r.
  - destruct Ha as [Hi1 Hf1]. rewrite push_text by congruence. by destruct (process_chars b e1) as [[o2 ended] e2].
Qed.
Lemma push_app e a b : push e (a ++ b) = let '(o1, e1) := push e a in let '(o2, e2) := push e1 b in (o1 ++ o2, e2).
Proof.
  destruct (finished e) eqn:Hf; [by rewrite !push_finished|].
  destruct (in_response_field e) eqn:Hi; [by apply push_inside|].
  rewrite !push_scan, app_assoc by done. destruct (scan (buffer e ++ a)) as [|content|] eqn:Es.
  - rewrite push_scan by done. cbn [buffer with_buffer].
    destruct (scan ((buffer e ++ a) ++ b)) as [|c|]; [reflexivity| |reflexivity]. change (entered (with_buffer _ e)) with (entered e). by destruct (push (entered e) c).
  - rewrite (scan_enter _ b _ Es). by apply push_inside.
  - rewrite (scan_no_text _ b Es). by rewrite push_finished.
Qed.
Lemma push_all_concat cs e c : push_all e (c :: cs) = push e (c ++ concat cs).
Proof.
  revert e c. induction cs as [|c' cs IH]; intros e c; cbn [concat].
  - rewrite app_nil_r. cbn [push_all]. destruct (push e c) as [o e1]. by rewrite app_nil_r.
  - rewrite push_app. cbn [push_all] in *. destruct (push e c) as [o e1]. by rewrite <-IH.
Qed.

(** ** What is streamed *)

Definition SHORT_ESCAPES : list (char * char) :=
  [(ch "n", 10); (ch "r", 13); (ch "t", 9); (BACKSLASH, BACKSLASH); (QUOTE, QUOTE); (ch "/", ch "/")]%N.
(** The text of a JSON string, escape by escape: a character for itself, one of
    the short escapes, or the four digits of a character. *)
Inductive encodes : str -> str -> Prop :=
  | enc_nil : encodes [] []
  | enc_char c s t : c <> QUOTE -> c <> BACKSLASH -> encodes s t -> encodes (c :: s) (c :: t)
  | enc_short x c s t :
      (x, c) ∈ SHORT_ESCAPES -> encodes s t -> encodes (BACKSLASH :: x :: s) (c :: t)
  | enc_hex h c s t :
      length h = 4 -> Forall (fun x => is_Some (hex_value x)) h -> hex_digits 0 h = Some c -> is_scalar c = true ->
      encodes s t -> encodes (BACKSLASH :: ch "u" :: h ++ s) (c :: t).

Definition reading (e : Extractor) : Prop := escape_next e = false /\ unicode_buffer e = None.
Lemma process_hex h c e s :
  length h = 4 -> Forall (fun x => is_Some (hex_value x)) h -> hex_digits 0 h = Some c -> is_scalar c = true -> reading e ->
  process_chars (h ++ s) (with_unicode (Some []) e) = let '(o, b, e') := process_chars s e in (c :: o, b, e').
Proof.
  intros Hl Hh Hd Hc [Hx Hu]. destruct h as [|a [|b [|g [|d [|]]]]]; try done.
  assert (Hb : forall x, is_Some (hex_value x) -> len_utf8 x = 1 /\ (x =? ch "+")%N = false).
  { intros x [v Hv]. unfold hex_value, is_ascii_digit, in_range in Hv. unfold len_utf8. change (ch "+") with 43%N.
    repeat match type of Hv with context [(?u <=? ?w)%N] => destruct (N.leb_spec u w) end; cbn [andb] in Hv; try done;
    (split; [by destruct (N.ltb_spec x 128); [|lia]|apply N.eqb_neq; lia]). }
  rewrite !Forall_cons in Hh. destruct Hh as (Ha & Hb' & Hg & Hd' & _).
  destruct (Hb a Ha) as [La Pa], (Hb b Hb') as [Lb _], (Hb g Hg) as [Lg _], (Hb d Hd') as [Ld _].
  assert (Hf : from_hex [a; b; g; d] = Some c) by (unfold from_hex; rewrite Pa; exact Hd).
  cbn [app process_chars]. unfold process_char at 1. cbn [unicode_buffer with_unicode app]. unfold blen at 1. cbn [sum_with]. rewrite La. cbn [Nat.add Nat.eqb].
  unfold process_char at 1. cbn [unicode_buffer with_unicode app]. unfold blen at 1. cbn [sum_with]. rewrite La, Lb. cbn [Nat.add Nat.eqb].
  unfold process_char at 1. cbn [unicode_buffer with_unicode app]. unfold blen at 1. cbn [sum_with]. rewrite La, Lb, Lg. cbn [Nat.add Nat.eqb].
  unfold process_char at 1. cbn [unicode_buffer with_unicode app]. unfold blen at 1. cbn [sum_with]. rewrite La, Lb, Lg, Ld. cbn [Nat.add Nat.eqb].
  rewrite Hf. cbn [mbind option_bind]. unfold char_from_u32. rewrite Hc.
  assert (He : with_unicode None (with_unicode (Some [a; b; g]) (with_unicode (Some [a; b]) (with_unicode (Some [a]) (with_unicode (Some []) e)))) = e)
    by (destruct e; cbn in *; by subst).
  rewrite He. by destruct (process_chars s e) as [[o ended] e'].
Qed.
Lemma process_short x c e :
  (x, c) ∈ SHORT_ESCAPES -> unicode_buffer e = None -> escape_next e = true -> process_char x e = ([c], false, with_escape false e).
Proof.
  intros Hin Hu Hx. unfold process_char. rewrite Hu, Hx. unfold SHORT_ESCAPES in Hin. rewrite !elem_of_cons in Hin.
  destruct Hin as [[= -> ->]|[[= -> ->]|[[= -> ->]|[[= -> ->]|[[= -> ->]|[[= -> ->]|Hin%not_elem_of_nil]]]]]]; done.
Qed.
Lemma stream_text enc txt e s :
  encodes enc txt -> reading e -> exists e', process_chars (enc ++ QUOTE :: s) e = (txt, true, e') /\ finished e' = true.
Proof.
  intros Henc He. pose proof He as [Hx Hu].
  assert (Hk : forall x, process_char x e = (if (x =? BACKSLASH)%N then ([], false, with_escape true e)
      else if (x =? QUOTE)%N then ([], true, {| buffer := buffer e; in_response_field := false; finished := true;
        escape_next := escape_next e; unicode_buffer := unicode_buffer e |}) else ([x], false, e))).
  { intros x. unfold process_char. by rewrite Hu, Hx. }
  assert (Hr : with_escape false (with_escape true e) = e) by (destruct e; cbn in *; by subst).
  induction Henc as [|c enc t Hq Hb _ (e' & IH & Hf)|x c enc t Hin _ (e' & IH & Hf)|h c enc t Hl Hh Hd Hc _ (e' & IH & Hf)].
  - cbn [app process_chars]. rewrite Hk. change (QUOTE =? BACKSLASH)%N with false. rewrite N.eqb_refl. by eexists.
  - exists e'. split; [|done]. cbn [app process_chars]. rewrite Hk. apply N.eqb_neq in Hq, Hb. by rewrite Hb, Hq, IH.
  - exists e'. split; [|done]. cbn [app process_chars]. rewrite Hk, N.eqb_refl. cbn [app].
    by rewrite (process_short x c) by done; rewrite Hr, IH.
  - exists e'. split; [|done]. cbn [app process_chars]. rewrite Hk, N.eqb_refl. cbn [app].
    assert (Hu' : process_char (ch "u") (with_escape true e) = ([], false, with_unicode (Some []) e)).
    { unfold process_char. cbn [unicode_buffer escape_next with_escape]. rewrite Hu. fold (with_escape true e).
      change (with_escape false _) with (with_escape false (with_escape true e)). by rewrite Hr. }
    rewrite Hu', <-app_assoc, (process_hex h c) by done. by rewrite IH.
Qed.

Lemma drop_spaces ws s : Forall (fun c => is_whitespace c = true) ws -> trim_start (ws ++ s) = trim_start s.
Proof. induction 1 as [|c ws Hc _ IH]; [done|]. unfold trim_start, trim_start_matches in *. cbn [app drop_while]. by rewrite Hc. Qed.
Lemma find_past_spaces c ws s :
  is_whitespace c = false -> Forall (fun x => is_whitespace x = true) ws -> find_split [c] (ws ++ c :: s) = Some (ws, s).
Proof.
  intros Hc. induction 1 as [|x ws Hx _ IH]; cbn [app find_split strip_prefix].
  - by rewrite N.eqb_refl.
  - destruct (N.eqb_spec c x) as [->|_]; [congruence|]. by rewrite IH.
Qed.
(** The field, where its key first occurs. *)
Definition carries (text enc : str) : Prop :=
  exists pre ws1 ws2 rest, text = pre ++ RESPONSE_KEY ++ ws1 ++ ch ":" :: ws2 ++ QUOTE :: enc ++ QUOTE :: rest /\
    find_split RESPONSE_KEY (pre ++ RESPONSE_KEY) = Some (pre, []) /\
    Forall (fun c => is_whitespace c = true) ws1 /\ Forall (fun c => is_whitespace c = true) ws2.
Lemma scan_carries text enc : carries text enc -> exists rest, scan text = Enter (enc ++ QUOTE :: rest).
Proof.
  intros (pre & ws1 & ws2 & rest & -> & Hk & H1' & H2'). exists rest. unfold scan.
  rewrite app_assoc, (find_split_app _ _ _ _ _ Hk). cbn [app].
  rewrite (find_past_spaces (ch ":") ws1), (find_past_spaces QUOTE ws2), drop_spaces by done.
  change (trim_start (QUOTE :: enc ++ QUOTE :: rest)) with (QUOTE :: enc ++ QUOTE :: rest). by rewrite starts_with_one.
Qed.

(** The response is streamed as it was written, however the decision is cut
    into chunks: the chunks only matter joined together, and once the string of
    the field has arrived its text, unescaped, is exactly what was emitted. *)
Theorem response_streamed :
  (forall cs ds, concat cs = concat ds -> fst (push_all new cs) = fst (push_all new ds)) /\
  forall cs enc text, carries (concat cs) enc -> encodes enc text ->
    fst (push_all new cs) = text /\ finished (snd (push_all new cs)) = true.
Proof.
  assert (Hn : forall cs, fst (push_all new cs) = fst (push new (concat cs))).
  { intros [|c cs]; [done|]. by rewrite push_all_concat. }
  split; [intros cs ds E; by rewrite !Hn, E|]. intros cs enc text Hc He.
  destruct (scan_carries _ _ Hc) as [rest Hs]. destruct cs as [|c cs]; [by vm_compute in Hs|].
  rewrite push_all_concat. change (c ++ concat cs) with (concat (c :: cs)). rewrite push_scan by done. cbn [buffer new app]. rewrite Hs.
  destruct (stream_text enc text (entered new) rest He) as (e' & E & Hf); [done|]. by rewrite push_text, E.
Qed.

Lemma response_streamed_witness :
  let q := [QUOTE] in
  fst (push_all new [lit "{" ++ q ++ lit "decision" ++ q ++ lit ":" ++ q ++ lit "RespondDirectly" ++ q ++ lit ", " ++ q ++ lit "respo";
                     lit "nse" ++ q ++ lit " : " ++ q ++ lit "a\"; lit "nb\u00" ; lit "41" ++ q ++ lit "}"]) = lit "a" ++ [10%N] ++ lit "bA".
Proof.
  intros q. refine (proj1 (proj2 response_streamed _ (lit "a\nb\u0041") _ _ _)).
  - exists (lit "{" ++ q ++ lit "decision" ++ q ++ lit ":" ++ q ++ lit "RespondDirectly" ++ q ++ lit ", "), (lit " "), (lit " "), (lit "}").
    split_and!; [reflexivity|vm_compute; reflexivity|by repeat constructor..].
  - apply enc_char; [done..|]. apply (enc_short (ch "n")); [by left|]. apply enc_char; [done..|].
    apply (enc_hex (lit "0041") (ch "A") [] []); [done| |done|done|constructor].
    repeat constructor; by eexists.
Defined.

(** ** What is lost *)

Definition streamed (s : str) : str := fst (push new (lit "{" ++ RESPONSE_KEY ++ lit ":" ++ [QUOTE] ++ s)).
(** A character outside the basic plane, escaped as a pair of surrogates, is
    dropped; a backspace and a form feed come out as their escapes. *)
Lemma surrogates_dropped : streamed (lit "\ud83d\ude00!") = lit "!" /\ streamed (lit "\b\f") = lit "\b\f".
Proof. by vm_compute. Qed.
