(* ===== verification/Agents.v ===== *)
(** * Specialist roles ([src/agents/mod.rs], [src/orchestrator/registry.rs])

    The roles and their names; the names, or the prefixes of names, of the
    tools each may call, and what the registry answers for them. *)

From S2P Require Import Prelude Str ToolNames.

Inductive Agent := Coder | Researcher | Debugger | Validator | Generalist | Planner.

#[export] Instance Agent_eq_dec : EqDecision Agent.
Proof. solve_decision. Defined.

Definition as_str (a : Agent) : str :=
  match a with
  | Coder => lit "coder"
  | Researcher => lit "researcher"
  | Debugger => lit "debugger"
  | Validator => lit "validator"
  | Generalist => lit "generalist"
  | Planner => lit "planner"
  end.

Definition from_str (s : str) : option Agent :=
  let t := to_ascii_lowercase (trim s) in
  if str_eqb t (lit "coder") then Some Coder
  else if str_eqb t (lit "researcher") then Some Researcher
  else if str_eqb t (lit "debugger") then Some Debugger
  else if str_eqb t (lit "validator") then Some Validator
  else if str_eqb t (lit "generalist") || str_eqb t (lit "deepbrain") then Some Generalist
  else if str_eqb t (lit "planner") then Some Planner
  else None.

Lemma from_str_as_str a : from_str (as_str a) = Some a.
Proof. by destruct a; vm_compute. Qed.

(** ** The tools of the roles *)

Definition coder_namespaces : list str :=
  [TOOL_DELEGATE_TASK; TOOL_WRITE_FILE; TOOL_REPLACE; TOOL_READ_FILE; TOOL_RUN_COMMAND; TOOL_GREP_SEARCH; TOOL_GLOB;
   TOOL_REBIRTH; TOOL_SLEEP; TERMINAL_SLEEP; lit "kiwix__*"; TOOL_REPLY_TO_ARBITRATOR].
Definition researcher_namespaces : list str :=
  [TOOL_DELEGATE_TASK; TOOL_WRITE_FILE; TOOL_REPLACE; TOOL_READ_FILE; TOOL_RUN_COMMAND; TOOL_GREP_SEARCH; TOOL_GLOB;
   TOOL_REBIRTH; TOOL_SLEEP; TERMINAL_SLEEP; lit "kiwix__*"; TOOL_REPLY_TO_ARBITRATOR].
Definition debugger_namespaces : list str :=
  [TOOL_DELEGATE_TASK; TOOL_WRITE_FILE; TOOL_REPLACE; TOOL_READ_FILE; TOOL_RUN_COMMAND; TOOL_GREP_SEARCH; TOOL_GLOB;
   TOOL_PTY_SPAWN; TOOL_PTY_WRITE; TOOL_PTY_READ; TOOL_PTY_CLOSE; TOOL_PTY_LIST; lit "pty__*"; lit "pty_*"; lit "kiwix__*";
   TOOL_REBIRTH; TOOL_SLEEP; TERMINAL_SLEEP; TOOL_REPLY_TO_ARBITRATOR].
Definition validator_namespaces : list str :=
  [TOOL_DELEGATE_TASK; TOOL_READ_FILE; TOOL_GREP_SEARCH; TOOL_GLOB; TOOL_RUN_COMMAND; TOOL_PTY_SPAWN; TOOL_PTY_WRITE;
   TOOL_PTY_READ; TOOL_PTY_CLOSE; TOOL_PTY_LIST; lit "pty__*"; lit "pty_*"; lit "kiwix__*"; TOOL_LEAVE_VERDICT;
   TOOL_REBIRTH; TOOL_SLEEP; TERMINAL_SLEEP; TOOL_REPLY_TO_ARBITRATOR].
Definition generalist_namespaces : list str := [lit "*"].
Definition planner_namespaces : list str :=
  [TOOL_CREATE_PLAN; TOOL_READ_FILE; TOOL_GREP_SEARCH; TOOL_GLOB; TOOL_REBIRTH; TOOL_SLEEP; TERMINAL_SLEEP;
   TOOL_REPLY_TO_ARBITRATOR].
(** [Specialist::tool_namespaces], of the worker the registry makes for a role. *)
Definition tool_namespaces (agent : Agent) : list str :=
  match agent with
  | Coder => coder_namespaces
  | Researcher => researcher_namespaces
  | Debugger => debugger_namespaces
  | Validator => validator_namespaces
  | Generalist => generalist_namespaces
  | Planner => planner_namespaces
  end.

Definition bare (name : str) : str := default name (strip_prefix TERMINAL_PREFIX name).
Definition namespace_allows (tool ns : str) : bool :=
  let ns_bare := bare ns in
  if str_eqb ns (lit "*") || str_eqb ns_bare (lit "*") then true
  else if match strip_suffix (lit "*") ns with
          | Some p => starts_with p tool || starts_with (bare p) (bare tool)
          | None => false
          end then true
  else str_eqb ns tool || str_eqb ns_bare (bare tool) || str_eqb ns (bare tool) || str_eqb ns_bare tool.
(** [SpecialistEntry::allows] *)
Definition allows (namespaces : list str) (tool : str) : bool :=
  if str_eqb (bare tool) TOOL_REPLY_TO_ARBITRATOR then true else existsb (namespace_allows tool) namespaces.

(** The canonical registry holds every role with its own namespaces. *)
Record SpecialistEntry := { entry_agent : Agent; entry_namespaces : list str }.
Definition canonical_entries : list SpecialistEntry :=
  map (fun a => {| entry_agent := a; entry_namespaces := tool_namespaces a |})
    [Coder; Researcher; Debugger; Validator; Generalist; Planner].
Definition resolve (agent : Agent) (entries : list SpecialistEntry) : option SpecialistEntry :=
  find_first (fun e => bool_decide (entry_agent e = agent)) entries.
Definition caller_allows_tool (agent : Agent) (tool : str) (entries : list SpecialistEntry) : bool :=
  match resolve agent entries with Some entry => allows (entry_namespaces entry) tool | None => false end.

Definition may_record_verdict (agent : Agent) (entries : list SpecialistEntry) : bool :=
  bool_decide (agent = Validator) && caller_allows_tool agent TOOL_LEAVE_VERDICT entries.

(** Who calls a tool: the manager, a role with its registry entry, or a role
    whose tools its prompt names. *)
Inductive ToolCaller :=
  | Manager
  | Specialist (a : Agent)
  | SpecialistWithTools (agent : Agent) (allowed_tools : list str).
Definition role_name (c : ToolCaller) : str :=
  match c with Manager => lit "Manager" | Specialist a => as_str a | SpecialistWithTools a _ => as_str a end.
Definition caller_agent (c : ToolCaller) : option Agent :=
  match c with Manager => None | Specialist a => Some a | SpecialistWithTools a _ => Some a end.
Definition allowed_tools (c : ToolCaller) : option (list str) :=
  match c with SpecialistWithTools _ l => Some l | _ => None end.
Definition specialist_caller (agent : Agent) (allowed : option (list str)) : ToolCaller :=
  match allowed with Some l => SpecialistWithTools agent l | None => Specialist agent end.
(** The question of the fix loop and of the dispatcher. *)
Definition caller_may_record_verdict (c : ToolCaller) : bool :=
  match caller_agent c with Some agent => may_record_verdict agent canonical_entries | None => false end.

Lemma resolve_canonical agent :
  resolve agent canonical_entries = Some {| entry_agent := agent; entry_namespaces := tool_namespaces agent |}.
Proof. by destruct agent. Qed.
Lemma verdict_of_validator agent : may_record_verdict agent canonical_entries = bool_decide (agent = Validator).
Proof. by destruct agent. Qed.
Lemma verdict_caller c : caller_may_record_verdict c = bool_decide (caller_agent c = Some Validator).
Proof. unfold caller_may_record_verdict. destruct (caller_agent c) as [a|]; [rewrite verdict_of_validator; by destruct a|done]. Qed.
