(* ===== verification/PlanParse.v ===== *)
(** * The plan task-line grammar ([src/plan_parse.rs])

    One parser for plan task lines, one check-off rewriter, one task-id token
    recogniser.  A byte index the source computes by scanning is represented
    by the split of the text it denotes; the offsets stored in a [TaskLine]
    are the byte lengths of those splits. *)

From S2P Require Import Prelude Str Regex TaskId Agents.

(** ** Data *)

Inductive CheckboxState := Unchecked | Checked.

Inductive ValidationDirective := Auto | Validate | NoValidate.

#[export] Instance CheckboxState_eq_dec : EqDecision CheckboxState.
Proof. solve_decision. Defined.
#[export] Instance ValidationDirective_eq_dec : EqDecision ValidationDirective.
Proof. solve_decision. Defined.

Record TaskLine := {
  checkbox : CheckboxState;
  task_id : option str;
  checkbox_span : nat * nat;
  id_span : option (nat * nat);
  description : str;
  description_body : str;
  role_hint : option str;
  validation_directive : ValidationDirective;
  line_number : nat;
  raw : str
}.

Definition VALIDATION_DIRECTIVES : list str := [lit "validate"; lit "no-validate"].

(** [ValidationDirective::parse] *)
Definition directive_parse (token : str) : ValidationDirective :=
  let token := to_ascii_lowercase (trim token) in
  if str_eqb token (lit "validate") then Validate
  else if str_eqb token (lit "no-validate") then NoValidate
  else Auto.

Definition is_auto (d : ValidationDirective) : bool :=
  match d with Auto => true | _ => false end.

(** [impl FromStr for ValidationDirective] (its error type is uninhabited) *)
Definition directive_from_str (token : str) : ValidationDirective + Empty_set :=
  inl (directive_parse token).

Definition is_pending (t : TaskLine) : bool :=
  match checkbox t with Unchecked => true | Checked => false end.
Definition is_completed (t : TaskLine) : bool :=
  match checkbox t with Checked => true | Unchecked => false end.
Definition description_without_role_hint (t : TaskLine) : str := description_body t.

(** [TaskLine::checked_line]: splice the checkbox span of [raw]. *)
Definition checked_line (t : TaskLine) : option str :=
  if is_completed t then None
  else
    let '(start, stop) := checkbox_span t in
    box_text ← get (raw t) start stop;
    let replacement := if starts_with (lit "(") box_text then lit "(x)" else lit "[x]" in
    before ← get_to (raw t) start;
    after ← get_from (raw t) stop;
    Some (before ++ replacement ++ after).

(** ** Patterns *)

Definition SPT : re := ROneOf (lit " " ++ [9%N]).
Definition XX : re := ROneOf (lit "xX").

(** The characters of [[A-Za-z0-9_-]], and those the class matches under [(?i)]. *)
Definition id_byte (c : char) : bool :=
  is_ascii_alphanumeric c || (c =? ch "-")%N || (c =? ch "_")%N.
Definition id_char_i (c : char) : bool := id_byte c || (c =? 8490)%N || (c =? 383)%N.

Section grammar.
Context `{U : Unicode}.

Definition QUOTES : re := RStar (RSeq (RChar (ch ">")) (RStar SPT)).
Definition MARKER : re :=
  ROpt (RAlt (ROneOf (lit "-*+")) (RSeq (RPlus (RSet is_decimal)) (ROneOf (lit ".)")))).
Definition BOX_INNER : re := RSeqs [RStar SPT; ROpt XX; RStar SPT].
Definition BOX : re :=
  RAlt (RSeqs [RChar (ch "["); BOX_INNER; RChar (ch "]")])
       (RSeqs [RChar (ch "("); BOX_INNER; RChar (ch ")")]).

Definition TASK_LINE_HEAD_RE : re :=
  RSeqs [RBegin; RStar SPT; QUOTES; MARKER; RStar SPT; RGroup 1 BOX].

Definition TASK_ID_BODY : re := RSeq (RLitI (lit "t-")) (RPlus (RSet id_char_i)).

Definition TASK_ID_TOKEN_RE : re :=
  RSeq (RAlt RBegin (RSet (fun c => negb (id_char_i c)))) (RGroup 1 TASK_ID_BODY).

Definition TASK_ID_STRICT_RE : re := RSeqs [RBegin; TASK_ID_BODY; REnd].

Definition ID_DECORATION : str := lit " " ++ [9%N] ++ lit "[(*_`" ++ [34%N] ++ lit "'".

Definition is_task_id_token (raw : str) : bool := is_match TASK_ID_STRICT_RE raw.

Definition find_task_id_token (text : str) : option str :=
  cs ← captures TASK_ID_TOKEN_RE text;
  m ← group 1 cs;
  Some (sp_text m).

Definition task_id_eq (a b : str) : bool :=
  let left := normalize_task_id_ref a in
  let right := normalize_task_id_ref b in
  negb (is_empty left) && negb (is_empty right) && eq_ignore_ascii_case left right.

(** ** The id after a checkbox *)

(** The opener loop: the number of [[]/[(] seen, the skipped text, the rest. *)
Fixpoint skip_openers (s : str) : nat * str * str :=
  match s with
  | [] => (0, [], [])
  | c :: s' =>
      let '(openers, skipped, tail) := skip_openers s' in
      if (c =? ch "[")%N || (c =? ch "(")%N then (S openers, c :: skipped, tail)
      else if existsb (N.eqb c) ID_DECORATION then (openers, c :: skipped, tail)
      else (0, [], s)
  end.

(** The closer loop: the skipped text and the rest. *)
Fixpoint skip_closers (closers_left : nat) (s : str) : str * str :=
  match s with
  | [] => ([], [])
  | c :: s' =>
      if ((c =? ch "]")%N || (c =? ch ")")%N) && (0 <? closers_left) then
        let '(skipped, tail) := skip_closers (pred closers_left) s' in (c :: skipped, tail)
      else if existsb (N.eqb c) (lit "*_`" ++ [34%N] ++ lit "'") then
        let '(skipped, tail) := skip_closers closers_left s' in (c :: skipped, tail)
      else ([], s)
  end.

(** The byte offset of the token, the token, the byte offset past its closing
    decoration, and the text from there on. *)
Definition leading_task_id_token (text : str) : option (nat * str * nat * str) :=
  let '(openers, skipped, tail) := skip_openers text in
  let token := take_while id_byte tail in
  match token with
  | [] => None
  | _ =>
      let '(closing, rest) := skip_closers openers (drop_while id_byte tail) in
      Some (blen skipped, token, blen skipped + blen token + blen closing, rest)
  end.

(** ** Trailing groups *)

(** Scan [rtext] (a text in reverse) for the [(] that balances the trailing
    [)]; [acc] is the text right of the scan position. *)
Fixpoint matching_open_loop (depth : nat) (rtext acc : str) : option (str * str) :=
  match rtext with
  | [] => None
  | c :: r =>
      if (c =? ch ")")%N then matching_open_loop (S depth) r (c :: acc)
      else if (c =? ch "(")%N && (0 <? depth) then
        if pred depth =? 0 then Some (rev r, acc)
        else matching_open_loop (pred depth) r (c :: acc)
      else matching_open_loop depth r (c :: acc)
  end.

(** The text before the balancing [(] (its [blen] is the index the source
    returns) and the text after it. *)
Definition matching_open_paren (text : str) : option (str * str) :=
  matching_open_loop 0 (rev text) [].

Definition is_role_archetype (token : str) : bool :=
  match from_str token with Some _ => true | None => false end.

Definition split_role_hint (description : str) : str * option str :=
  let text := trim description in
  if negb (ends_with (lit ")") text) then (text, None)
  else match matching_open_paren text with
       | None => (text, None)
       | Some (before, after_open) =>
           let candidate := trim (removelast after_open) in
           if negb (is_role_archetype candidate) then (text, None)
           else (trim before, Some (to_ascii_lowercase candidate))
       end.

(** A trailing group of a text: the text before [(], between the parens, and
    after [)]. *)
Record paren_group := PGroup { g_before : str; g_inner : str; g_after : str }.

(** The right-to-left group scan: [cur] is [text[..end]], [suffix] the rest. *)
Fixpoint trailing_groups (fuel : nat) (cur suffix : str) : list paren_group :=
  match fuel with
  | 0 => []
  | S fuel' =>
      if negb (is_empty cur) && ends_with (lit ")") cur then
        match matching_open_paren cur with
        | None => []
        | Some (before, after_open) =>
            let cur' := trim_end before in
            PGroup before (removelast after_open) suffix
            :: trailing_groups fuel' cur' (drop (length cur') cur ++ suffix)
        end
      else []
  end.

Definition directive_candidates (groups : list paren_group) : list paren_group :=
  match groups with
  | [] => []
  | [g] => [g]
  | _ :: gs => gs
  end.

Definition split_validation_directive (description : str) : str * ValidationDirective :=
  let text := trim description in
  let groups := trailing_groups (length text) text [] in
  match find_map (fun g =>
          let directive := directive_parse (g_inner g) in
          if is_auto directive then None
          else
            let before := trim_end (g_before g) in
            let after := trim_start (g_after g) in
            let body := match is_empty before, is_empty after with
                        | true, true => []
                        | true, false => after
                        | false, true => before
                        | false, false => before ++ lit " " ++ after
                        end in
            Some (body, directive))
        (directive_candidates groups) with
  | Some r => r
  | None => (text, Auto)
  end.

(** ** Parsing a line *)

Definition parse_task_line_at (line : str) (line_number : nat) : option TaskLine :=
  cs ← captures TASK_LINE_HEAD_RE line;
  box_match ← group 1 cs;
  let box_start := blen (sp_before box_match) in
  let box_end := box_start + blen (sp_text box_match) in
  let box_text := sp_text box_match in
  let inner := default [] (get box_text 1 (blen box_text - 1)) in
  let checkbox := if eq_ignore_ascii_case (trim inner) (lit "x") then Checked else Unchecked in
  let rest := sp_after box_match in
  let '(task_id, id_span, description) :=
    match leading_task_id_token rest with
    | Some (rel_start, token, rel_end, tail) =>
        if is_task_id_token token then
          let abs_start := box_end + rel_start in
          (Some (normalize_task_id_ref token), Some (abs_start, abs_start + blen token), trim tail)
        else (None, None, trim rest)
    | None => (None, None, trim rest)
    end in
  let '(description_body, validation_directive) := split_validation_directive description in
  let '(description_body, role_hint) := split_role_hint description_body in
  Some {|
    checkbox := checkbox; task_id := task_id;
    checkbox_span := (box_start, box_end); id_span := id_span;
    description := description; description_body := description_body;
    role_hint := role_hint; validation_directive := validation_directive;
    line_number := line_number; raw := line
  |}.

Definition parse_task_line (line : str) : option TaskLine := parse_task_line_at line 0.

(** ** Documents *)

Inductive FenceState := Outside | Inside (c : char) (len : nat).

Definition fence_delimiter (line : str) : option (char * nat) :=
  let trimmed := trim_start line in
  match trimmed with
  | [] => None
  | first :: _ =>
      if negb (first =? ch "`")%N && negb (first =? ch "~")%N then None
      else
        let run := length (take_while (N.eqb first) trimmed) in
        if run <? 3 then None else Some (first, run)
  end.

(** One line of the fence automaton: whether the line is kept, and the next state. *)
Definition fence_step (state : FenceState) (line : str) : bool * FenceState :=
  match state with
  | Outside => match fence_delimiter line with
               | Some (c, len) => (false, Inside c len)
               | None => (true, Outside)
               end
  | Inside c0 len => match fence_delimiter line with
                     | Some (c, l) => if (c =? c0)%N && (len <=? l) then (false, Outside)
                                      else (false, state)
                     | None => (false, state)
                     end
  end.

Fixpoint scan_lines (state : FenceState) (idx : nat) (ls : list str) : list (nat * str) :=
  match ls with
  | [] => []
  | line :: ls' =>
      let '(keep, state') := fence_step state line in
      if keep then (idx, line) :: scan_lines state' (S idx) ls'
      else scan_lines state' (S idx) ls'
  end.

Definition scannable_lines (text : str) : list (nat * str) := scan_lines Outside 0 (lines text).

Definition parse_tasks (text : str) : list TaskLine :=
  omap (fun '(idx, line) => parse_task_line_at line idx) (scannable_lines text).

Definition unchecked_task_ids (text : str) : list str :=
  omap task_id (List.filter is_pending (parse_tasks text)).
Definition all_task_ids (text : str) : list str := omap task_id (parse_tasks text).
Definition pending_lines (text : str) : list TaskLine :=
  List.filter is_pending (parse_tasks text).
Definition completed_lines (text : str) : list TaskLine :=
  List.filter is_completed (parse_tasks text).

Definition find_task_line (text tid : str) : option TaskLine :=
  if is_empty (normalize_task_id_ref tid) then None
  else find_first (fun t => match task_id t with
                            | Some id => task_id_eq id tid
                            | None => false
                            end) (parse_tasks text).

Definition is_pending_task (text tid : str) : bool :=
  match find_task_line text tid with Some t => is_pending t | None => false end.
Definition is_checked_task (text tid : str) : bool :=
  match find_task_line text tid with Some t => is_completed t | None => false end.

Definition first_unchecked_line_index (text : str) : option nat :=
  find_map (fun '(idx, line) =>
    match parse_task_line_at line idx with
    | Some t => if is_pending t then Some idx else None
    | None => None
    end) (scannable_lines text).

Definition has_unchecked_box (text : str) : bool := existsb is_pending (parse_tasks text).
Definition has_checked_box (text : str) : bool := existsb is_completed (parse_tasks text).

(** ** Check-off *)

Definition check_off_line (line tid : str) : option str :=
  t ← parse_task_line line;
  if is_completed t then None
  else
    id ← task_id t;
    if negb (task_id_eq id tid) then None else checked_line t.

(** The rewrite loop over the [split_inclusive] chunks: the rewritten text
    and whether a line flipped.  [binary_search] on the sorted index list is
    membership. *)
Fixpoint check_off_chunks (scannable : list nat) (tid : str) (flipped : bool)
    (idx : nat) (chunks : list str) : str * bool :=
  match chunks with
  | [] => ([], flipped)
  | chunk :: chunks' =>
      let '(body, eol) := split_eol chunk in
      match (if negb flipped && existsb (Nat.eqb idx) scannable
             then check_off_line body tid else None) with
      | Some rewritten =>
          let '(rest, f) := check_off_chunks scannable tid true (S idx) chunks' in
          (rewritten ++ eol ++ rest, f)
      | None =>
          let '(rest, f) := check_off_chunks scannable tid flipped (S idx) chunks' in
          (body ++ eol ++ rest, f)
      end
  end.

Definition check_off_content (content tid : str) : str * bool :=
  let scannable := map fst (scannable_lines content) in
  let '(updated, flipped) := check_off_chunks scannable tid false 0 (split_inclusive content) in
  if flipped then (updated, true) else (content, false).

Fixpoint normalize_newlines_loop (s : str) : str :=
  match s with
  | [] => []
  | c :: s' =>
      if (c =? CR)%N then
        match s' with
        | d :: s'' => if (d =? NL)%N then NL :: normalize_newlines_loop s''
                      else NL :: normalize_newlines_loop s'
        | [] => [NL]
        end
      else c :: normalize_newlines_loop s'
  end.

Definition normalize_newlines (text : str) : str :=
  if negb (contains [CR] text) then text else normalize_newlines_loop text.

(** ** Display seams *)

Definition task_id_of_line (line : str) : option str :=
  t ← parse_task_line line;
  match task_id t with
  | Some id => Some (to_ascii_lowercase id)
  | None => (fun id => to_ascii_lowercase (normalize_task_id_ref id)) <$> find_task_id_token line
  end.

Definition boundary_ok (c : option char) : bool :=
  match c with
  | Some c => negb (is_alphanumeric c) && negb (c =? ch "-")%N && negb (c =? ch "_")%N
  | None => true
  end.

(** The search loop of [line_matches_task_id]: [last] is the character left
    of the search start and [s] the text from there on. *)
Fixpoint match_loop (fuel : nat) (target : str) (lastc : option char) (s : str) : bool :=
  match fuel with
  | 0 => false
  | S fuel' =>
      match find_split target s with
      | None => false
      | Some (a, rest) =>
          let before := or_else (last a) lastc in
          if boundary_ok before && boundary_ok (head rest) then true
          else if is_empty rest then false
          else match_loop fuel' target (last target) rest
      end
  end.

Definition line_matches_task_id (line tid : str) : bool :=
  let clean_target := normalize_task_id_ref tid in
  if is_empty clean_target then false
  else
    let target_lower := to_ascii_lowercase clean_target in
    match task_id_of_line line with
    | Some line_tid => str_eqb line_tid target_lower
    | None =>
        let line_lower := to_ascii_lowercase line in
        match_loop (S (length line_lower)) target_lower None line_lower
    end.

Definition list_marker_char (c : char) : bool :=
  existsb (N.eqb c) (lit "-*+>| .") || is_ascii_digit c.
Definition strip_list_marker (line : str) : str :=
  trim (trim_start_matches list_marker_char line).
End grammar.
