(* ===== verification/PlanParseFacts.v ===== *)
(** * Facts about the plan task-line grammar

    Lemmas and properties of the definitions of [PlanParse]: the patterns
    against their languages, the splits a parse computes, the effect of a
    check-off on a line and on a document, and the round trip of canonical
    lines. *)

From S2P Require Import Prelude Str Regex TaskId Agents PlanParse.
From Stdlib Require Import Sorting.Sorted.

Section facts.
Context `{U : Unicode}.

(** ** The head of a task line *)

(** What may precede the checkbox. *)
Definition HeadPrefix (pre : str) : Prop :=
  exists a b c d, pre = a ++ b ++ c ++ d /\
    Lang (RStar SPT) a /\ Lang QUOTES b /\ Lang MARKER c /\ Lang (RStar SPT) d.

Definition is_opener (c : char) : bool := (c =? ch "[")%N || (c =? ch "(")%N.
Definition is_closer (c : char) : bool := (c =? ch "]")%N || (c =? ch ")")%N.

Lemma is_decimal_not_opener c : is_decimal c = true -> is_opener c = false.
Proof.
  unfold is_decimal, is_opener. destruct (is_ascii c) eqn:Ha; [char_lia|].
  intros _. char_lia.
Qed.

Lemma HeadPrefix_no_opener pre :
  HeadPrefix pre -> Forall (fun c => is_opener c = false) pre.
Proof.
  intros (a & b & c & d & -> & Ha & Hb & Hc & Hd).
  apply Lang_chars in Ha, Hb, Hc, Hd. rewrite !Forall_app.
  split_and!; (eapply Forall_impl; [eassumption|]); clear; intros c; cbn [re_chars];
    unfold QUOTES, MARKER, SPT, ROneOf, RChar, ROpt, RPlus; cbn [re_chars].
  - unfold is_opener. char_lia.
  - unfold is_opener. char_lia.
  - destruct (is_decimal c) eqn:Hd; [intros _; by apply is_decimal_not_opener|].
    unfold is_opener. char_lia.
  - unfold is_opener. char_lia.
Qed.

(** The checkbox: an opener, an inner text of blanks around an optional tick,
    and the matching closer. *)
Definition box_shape (box : str) (o : char) (inner : str) (cl : char) : Prop :=
  box = [o] ++ inner ++ [cl] /\ Lang BOX_INNER inner /\
  ((o = ch "[" /\ cl = ch "]") \/ (o = ch "(" /\ cl = ch ")")).

Lemma Lang_RChar c m : Lang (RChar c) m -> m = [c].
Proof. inversion 1 as [|? d Hd| | | | |]; subst. by apply N.eqb_eq in Hd as ->. Qed.

Lemma Lang_RChar_refl c : Lang (RChar c) [c].
Proof. constructor. apply N.eqb_refl. Qed.

Lemma Lang_BOX box : Lang BOX box <-> exists o inner cl, box_shape box o inner cl.
Proof.
  split.
  - inversion 1 as [| | |? ? ? HL|? ? ? HL| |]; subst;
      inversion HL as [| |? ? m1 m2 H1 H2| | | |]; subst;
      inversion H2 as [| |? ? m3 m4 H3 H4| | | |]; subst;
      apply Lang_RChar in H1 as ->; apply Lang_RChar in H4 as ->;
      eexists _, m3, _; split_and!; eauto.
  - intros (o & inner & cl & -> & Hi & [[-> ->]|[-> ->]]).
    + apply LAltL. constructor; [apply Lang_RChar_refl|].
      constructor; [done|apply Lang_RChar_refl].
    + apply LAltR. constructor; [apply Lang_RChar_refl|].
      constructor; [done|apply Lang_RChar_refl].
Qed.

Lemma BOX_INNER_chars inner :
  Lang BOX_INNER inner ->
  Forall (fun c => (is_opener c || is_closer c) = false /\ is_ascii c = true) inner.
Proof.
  intros H%Lang_chars. eapply Forall_impl; [exact H|]. clear. intros c.
  unfold BOX_INNER, SPT, XX, ROneOf, ROpt. cbn [re_chars RSeqs]. unfold is_opener, is_closer.
  intros Hc. split; char_lia.
Qed.

(** Equal texts split at their first character of a class split equally. *)
Lemma split_unique (p : char -> bool) (a b : str) c d (s t : str) :
  Forall (fun c => p c = false) a -> Forall (fun c => p c = false) b ->
  p c = true -> p d = true ->
  a ++ c :: s = b ++ d :: t -> a = b /\ c = d /\ s = t.
Proof.
  intros Ha. revert b. induction Ha as [|x a Hx Ha IH]; intros b Hb Hc Hd Heq.
  - destruct Hb as [|y b Hy Hb]; simpl in *; [by simplify_eq|]. simplify_eq. congruence.
  - destruct Hb as [|y b Hy Hb]; simpl in *; [simplify_eq; congruence|].
    simplify_eq. destruct (IH b) as (-> & -> & ->); auto.
Qed.

Lemma box_opener o cl :
  ((o = ch "[" /\ cl = ch "]") \/ (o = ch "(" /\ cl = ch ")")) ->
  is_opener o = true /\ is_closer cl = true /\ is_ascii o = true /\ is_ascii cl = true.
Proof. by intros [[-> ->]|[-> ->]]. Qed.

(** The head and the checkbox of a line are determined by the line. *)
Lemma head_unique pre1 box1 rest1 pre2 box2 rest2 :
  HeadPrefix pre1 -> Lang BOX box1 -> HeadPrefix pre2 -> Lang BOX box2 ->
  pre1 ++ box1 ++ rest1 = pre2 ++ box2 ++ rest2 ->
  pre1 = pre2 /\ box1 = box2 /\ rest1 = rest2.
Proof.
  intros P1 (o1 & i1 & c1 & -> & L1 & O1)%Lang_BOX P2 (o2 & i2 & c2 & -> & L2 & O2)%Lang_BOX Heq.
  apply HeadPrefix_no_opener in P1, P2. apply BOX_INNER_chars in L1, L2.
  destruct (box_opener _ _ O1) as (Ho1 & Hc1 & _), (box_opener _ _ O2) as (Ho2 & Hc2 & _).
  simpl in Heq. rewrite <-!app_assoc in Heq.
  apply (split_unique is_opener) in Heq as (-> & -> & Heq); [|done..]. simpl in Heq.
  apply (split_unique is_closer) in Heq as (-> & -> & ->); [done| | |done|done].
  - eapply Forall_impl; [exact L1|]. intros c [H _]. by apply orb_false_iff in H as [_ ?].
  - eapply Forall_impl; [exact L2|]. intros c [H _]. by apply orb_false_iff in H as [_ ?].
Qed.

Lemma HEAD_Match line p' s' cs :
  Match TASK_LINE_HEAD_RE [] line [] p' s' cs <->
  exists pre box, line = pre ++ box ++ s' /\ HeadPrefix pre /\ Lang BOX box /\
    p' = rev (pre ++ box) /\ cs = [(1, Span pre box s')].
Proof.
  unfold TASK_LINE_HEAD_RE. cbn [RSeqs]. split.
  - intros H. repeat match goal with
    | H : Match (RSeq _ _) _ _ _ _ _ _ |- _ => inversion H; clear H; subst
    | H : Match RBegin _ _ _ _ _ _ |- _ => inversion H; clear H; subst
    | H : Match (RGroup _ _) _ _ _ _ _ _ |- _ => inversion H; clear H; subst
    | H : Match ?r _ _ _ _ _ _ |- _ =>
        apply Match_Lang in H as (? & ? & ? & ? & ?); [subst|reflexivity]
    end.
    match goal with
    | |- exists pre box, ?a ++ ?b ++ ?c ++ ?d ++ ?m ++ s' = _ /\ _ =>
        exists (a ++ b ++ c ++ d), m
    end.
    rewrite <-!app_assoc. rewrite app_nil_r. split_and!; try done.
    + unfold HeadPrefix. eauto 10.
    + by rewrite !rev_app_distr, <-!app_assoc.
    + repeat f_equal.
      * by rewrite !rev_app_distr, !rev_involutive, <-!app_assoc.
      * rewrite length_app. rewrite take_app_length'; [done|lia].
  - intros (pre & box & -> & (a & b & c & d & -> & Ha & Hb & Hc & Hd) & Hbox & -> & ->).
    rewrite <-!app_assoc.
    econstructor; [constructor|].
    econstructor; [by apply Lang_Match|].
    econstructor; [by apply Lang_Match|].
    econstructor; [by apply Lang_Match|].
    econstructor; [by apply Lang_Match|].
    assert (Hg := MGroup 1 BOX (rev d ++ rev c ++ rev b ++ rev a ++ []) (box ++ s') []
      _ _ _ (Lang_Match BOX box _ s' [] Hbox)).
    rewrite !rev_app_distr, <-!app_assoc in *. rewrite app_nil_r in *.
    rewrite !rev_involutive, length_app in Hg.
    replace (take (length box + length s' - length s') (box ++ s')) with box in Hg
      by (rewrite take_app_length'; [done|lia]).
    exact Hg.
Qed.

Lemma HEAD_captures line cs :
  captures TASK_LINE_HEAD_RE line = Some cs <->
  exists pre box rest, line = pre ++ box ++ rest /\ HeadPrefix pre /\ Lang BOX box /\
    cs = [(1, Span pre box rest)].
Proof.
  assert (Hsound : forall cs, captures TASK_LINE_HEAD_RE line = Some cs ->
    exists pre box rest, line = pre ++ box ++ rest /\ HeadPrefix pre /\ Lang BOX box /\
      cs = [(1, Span pre box rest)]).
  { clear cs. intros cs (m & s0 & p' & s' & -> & Hm)%captures_sound.
    assert (Hr : rev m = []).
    { unfold TASK_LINE_HEAD_RE in Hm. cbn [RSeqs] in Hm. inversion Hm; subst.
      match goal with H : Match RBegin _ _ _ _ _ _ |- _ => by inversion H end. }
    apply (f_equal (@rev N)) in Hr. rewrite rev_involutive in Hr. subst m. simpl in *.
    apply HEAD_Match in Hm as (pre & box & ? & ? & ? & ? & ?). eauto 10. }
  split; [apply Hsound|]. intros (pre & box & rest & Hl & Hp & Hb & ->).
  destruct (captures TASK_LINE_HEAD_RE line) as [cs|] eqn:E.
  - destruct (Hsound cs eq_refl) as (pre' & box' & rest' & Hl' & Hp' & Hb' & ->).
    rewrite Hl in Hl'. by destruct (head_unique _ _ _ _ _ _ Hp Hb Hp' Hb' Hl') as (-> & -> & ->).
  - exfalso. revert E. apply (captures_complete TASK_LINE_HEAD_RE [] line (rev (pre ++ box)) rest
      [(1, Span pre box rest)]).
    apply HEAD_Match. eauto 10.
Qed.

Lemma HEAD_captures_None line :
  captures TASK_LINE_HEAD_RE line = None <->
  forall pre box rest, HeadPrefix pre -> Lang BOX box -> line <> pre ++ box ++ rest.
Proof.
  split.
  - intros E pre box rest Hp Hb Hl.
    rewrite (proj2 (HEAD_captures line [(1, Span pre box rest)])) in E; [done|]. eauto 10.
  - intros H. destruct (captures TASK_LINE_HEAD_RE line) as [cs|] eqn:E; [|done].
    apply HEAD_captures in E as (pre & box & rest & Hl & Hp & Hb & ->).
    by destruct (H pre box rest).
Qed.

(** ** What a line parses to *)

(** The checkbox state a box states. *)
Definition box_state (box : str) : CheckboxState :=
  if eq_ignore_ascii_case (trim (default [] (get box 1 (blen box - 1)))) (lit "x")
  then Checked else Unchecked.

(** The id, its span relative to the text after the box, and the description. *)
Definition id_part (rest : str) : option (nat * str) * str :=
  match leading_task_id_token rest with
  | Some (rel_start, token, _, tail) =>
      if is_task_id_token token then (Some (rel_start, token), trim tail)
      else (None, trim rest)
  | None => (None, trim rest)
  end.

Definition tail_part (description : str) : str * option str * ValidationDirective :=
  let '(b, d) := split_validation_directive description in
  let '(b', r) := split_role_hint b in (b', r, d).

Definition build (pre box rest : str) (n : nat) : TaskLine :=
  let '(idp, descr) := id_part rest in
  let '(b, r, d) := tail_part descr in
  let box_end := blen pre + blen box in
  {| checkbox := box_state box;
     task_id := (fun it => normalize_task_id_ref (snd it)) <$> idp;
     checkbox_span := (blen pre, box_end);
     id_span := (fun it => (box_end + fst it, box_end + fst it + blen (snd it))) <$> idp;
     description := descr; description_body := b; role_hint := r;
     validation_directive := d; line_number := n; raw := pre ++ box ++ rest |}.

Lemma parse_build pre box rest n :
  HeadPrefix pre -> Lang BOX box ->
  parse_task_line_at (pre ++ box ++ rest) n = Some (build pre box rest n).
Proof.
  intros Hp Hb. unfold parse_task_line_at.
  rewrite (proj2 (HEAD_captures _ [(1, Span pre box rest)])) by eauto 10.
  simpl. unfold build, id_part, tail_part, box_state.
  destruct (leading_task_id_token rest) as [[[[? ?] ?] ?]|]; [destruct (is_task_id_token _)|];
    destruct (split_validation_directive _) as [? ?]; destruct (split_role_hint _) as [? ?];
    reflexivity.
Qed.

Lemma parse_Some line n t :
  parse_task_line_at line n = Some t <->
  exists pre box rest, line = pre ++ box ++ rest /\ HeadPrefix pre /\ Lang BOX box /\
    t = build pre box rest n.
Proof.
  split.
  - intros H. destruct (captures TASK_LINE_HEAD_RE line) as [cs|] eqn:E;
      [|unfold parse_task_line_at in H; by rewrite E in H].
    apply HEAD_captures in E as (pre & box & rest & -> & Hp & Hb & ->).
    rewrite parse_build in H by done. simplify_eq. eauto 10.
  - intros (pre & box & rest & -> & Hp & Hb & ->). by apply parse_build.
Qed.

Lemma build_line_number pre box rest n m :
  build pre box rest n = build pre box rest m <-> n = m.
Proof.
  unfold build. destruct (id_part rest) as [? ?]; destruct (tail_part _) as [[? ?] ?].
  split; [by intros [=]|by intros ->].
Qed.

Lemma skip_openers_app s o sk tl : skip_openers s = (o, sk, tl) -> s = sk ++ tl.
Proof.
  revert o sk tl. induction s as [|c s IH]; intros o sk tl; simpl; [by intros [= <- <- <-]|].
  destruct (skip_openers s) as [[o' sk'] tl'] eqn:E. specialize (IH _ _ _ eq_refl).
  repeat case_match; intros [= <- <- <-]; simpl; congruence.
Qed.

Lemma skip_closers_app n s sk tl : skip_closers n s = (sk, tl) -> s = sk ++ tl.
Proof.
  revert n sk tl. induction s as [|c s IH]; intros n sk tl; cbn [skip_closers]; [by intros [= <- <-]|].
  destruct (_ && (0 <? n)).
  - destruct (skip_closers (pred n) s) as [sk' tl'] eqn:E. apply IH in E. intros [= <- <-].
    simpl. congruence.
  - match goal with |- context [if ?b then _ else _] => destruct b end; [|by intros [= <- <-]].
    destruct (skip_closers n s) as [sk' tl'] eqn:E. apply IH in E. intros [= <- <-].
    simpl. congruence.
Qed.

Lemma leading_token_spec text off token stop tail :
  leading_task_id_token text = Some (off, token, stop, tail) ->
  exists sk closing, text = sk ++ token ++ closing ++ tail /\ off = blen sk /\
    stop = blen (sk ++ token ++ closing) /\ token <> [] /\
    Forall (fun c => id_byte c = true) token.
Proof.
  unfold leading_task_id_token. destruct (skip_openers text) as [[o sk] tl] eqn:Eo.
  apply skip_openers_app in Eo as ->.
  pose proof (take_while_Forall id_byte tl) as Hall.
  pose proof (take_drop_while id_byte tl) as Htl.
  destruct (take_while id_byte tl) as [|c tok] eqn:Et; [done|].
  destruct (skip_closers o (drop_while id_byte tl)) as [closing rest] eqn:Ec.
  apply skip_closers_app in Ec. rewrite Ec in Htl. intros [= <- <- <- <-].
  exists sk, closing. rewrite <-Htl. split_and!; try done.
  rewrite !blen_app. simpl. rewrite !blen_cons. simpl. rewrite ?blen_cons. lia.
Qed.

(** A token of id characters is its own normal form. *)
Lemma trimmed_class (p q : char -> bool) (s : str) :
  (forall c, p c = true -> q c = false) -> Forall (fun c => p c = true) s -> trimmed q s.
Proof.
  intros Hpq Hs. split.
  - destruct Hs; auto.
  - apply Forall_rev in Hs. destruct Hs; auto.
Qed.

Lemma id_byte_plain c : id_byte c = true -> is_whitespace c = false /\ is_decoration c = false.
Proof. unfold id_byte, is_decoration. intros H. split; char_lia. Qed.

Lemma normalize_token token :
  Forall (fun c => id_byte c = true) token -> normalize_task_id_ref token = token.
Proof.
  intros H. unfold normalize_task_id_ref.
  assert (Hw : trimmed is_whitespace token)
    by (eapply trimmed_class; [|exact H]; intros c Hc; by apply id_byte_plain).
  assert (Hd : trimmed is_decoration token)
    by (eapply trimmed_class; [|exact H]; intros c Hc; by apply id_byte_plain).
  rewrite (trim_id token Hw), (trim_matches_id _ _ Hd). by apply trim_id.
Qed.

(** ** Check-off of one line *)

(** The ticked form of a box. *)
Definition tick (box : str) : str :=
  if starts_with (lit "(") box then lit "(x)" else lit "[x]".

Lemma tick_BOX box : Lang BOX (tick box).
Proof.
  apply Lang_BOX. unfold tick.
  assert (Hx : Lang BOX_INNER (lit "x")).
  { change (lit "x") with ([] ++ lit "x" ++ []). repeat constructor. }
  destruct (starts_with _ _); eexists _, (lit "x"), _; (split; [reflexivity|]; split; [done|eauto]).
Qed.

Lemma tick_Checked box : box_state (tick box) = Checked.
Proof. unfold tick. destruct (starts_with _ _); reflexivity. Qed.

Lemma checked_line_build pre box rest n :
  checked_line (build pre box rest n) =
  if decide (box_state box = Checked) then None else Some (pre ++ tick box ++ rest).
Proof.
  unfold checked_line, is_completed, build.
  destruct (id_part rest) as [? ?]; destruct (tail_part _) as [[? ?] ?]. simpl.
  destruct (box_state box); simpl; [|done].
  rewrite get_app. simpl. rewrite get_to_app. simpl.
  rewrite app_assoc, <-blen_app, get_from_app. reflexivity.
Qed.

(** Two lines that agree on everything but the box parse to the same fields. *)
Definition same_task (t t' : TaskLine) : Prop :=
  task_id t' = task_id t /\ description t' = description t /\
  description_body t' = description_body t /\ role_hint t' = role_hint t /\
  validation_directive t' = validation_directive t /\ line_number t' = line_number t.

Lemma same_task_build pre box box' rest n :
  same_task (build pre box rest n) (build pre box' rest n).
Proof.
  unfold same_task, build. by destruct (id_part rest) as [? ?]; destruct (tail_part _) as [[? ?] ?].
Qed.

Lemma build_checkbox pre box rest n : checkbox (build pre box rest n) = box_state box.
Proof. unfold build. by destruct (id_part rest) as [? ?]; destruct (tail_part _) as [[? ?] ?]. Qed.

Lemma build_raw pre box rest n : raw (build pre box rest n) = pre ++ box ++ rest.
Proof. unfold build. by destruct (id_part rest) as [? ?]; destruct (tail_part _) as [[? ?] ?]. Qed.

Lemma pending_build pre box rest n :
  is_pending (build pre box rest n) = true <-> box_state box = Unchecked.
Proof. unfold is_pending. rewrite build_checkbox. by destruct (box_state box). Qed.

Lemma check_off_line_Some line tid r n :
  check_off_line line tid = Some r <->
  exists pre box rest id, line = pre ++ box ++ rest /\ HeadPrefix pre /\ Lang BOX box /\
    box_state box = Unchecked /\ task_id (build pre box rest n) = Some id /\
    task_id_eq id tid = true /\ r = pre ++ tick box ++ rest.
Proof.
  unfold check_off_line, parse_task_line.
  assert (Htid : forall pre box rest,
    task_id (build pre box rest n) = task_id (build pre box rest 0)).
  { intros. unfold build. by destruct (id_part rest) as [? ?]; destruct (tail_part _) as [[? ?] ?]. }
  split.
  - destruct (parse_task_line_at line 0) as [t|] eqn:E; simpl; [|done].
    apply parse_Some in E as (pre & box & rest & -> & Hp & Hb & ->).
    unfold is_completed. rewrite build_checkbox, checked_line_build.
    destruct (box_state box) eqn:Es; [|done]. rewrite decide_False by done.
    destruct (task_id _) as [id|] eqn:Eid; simpl; [|done].
    destruct (task_id_eq id tid) eqn:Et; simpl; [|done].
    intros [= <-]. exists pre, box, rest, id. by rewrite Htid.
  - intros (pre & box & rest & id & -> & Hp & Hb & Hs & Hid & Ht & ->).
    rewrite parse_build by done. simpl. unfold is_completed.
    rewrite build_checkbox, checked_line_build, Hs, <-Htid, Hid. simpl.
    rewrite Ht. reflexivity.
Qed.

(** ** Fences and scanning *)

Lemma HeadPrefix_plain pre :
  HeadPrefix pre -> Forall (fun c => (c =? ch "`")%N || (c =? ch "~")%N || (c =? NL)%N = false) pre.
Proof.
  intros (a & b & c & d & -> & Ha & Hb & Hc & Hd).
  apply Lang_chars in Ha, Hb, Hc, Hd. rewrite !Forall_app.
  split_and!; (eapply Forall_impl; [eassumption|]); clear; intros c; cbn [re_chars];
    unfold QUOTES, MARKER, SPT, ROneOf, RChar, ROpt, RPlus; cbn [re_chars];
    unfold is_decimal; destruct (is_ascii c) eqn:Ha; char_lia.
Qed.

(** A task line is never a fence delimiter. *)
Lemma fence_delimiter_task pre box rest :
  HeadPrefix pre -> Lang BOX box -> fence_delimiter (pre ++ box ++ rest) = None.
Proof.
  intros Hp%HeadPrefix_plain (o & inner & cl & -> & _ & Ho)%Lang_BOX.
  assert (Hop : (o =? ch "`")%N || (o =? ch "~")%N = false /\ is_whitespace o = false)
    by (by destruct Ho as [[-> _]|[-> _]]).
  destruct Hop as [Hop How]. unfold fence_delimiter, trim_start, trim_start_matches.
  induction Hp as [|c pre Hc _ IH].
  - cbn [app drop_while]. rewrite How. apply orb_false_iff in Hop as [-> ->]. done.
  - cbn [app drop_while]. destruct (is_whitespace c); [exact IH|].
    apply orb_false_iff in Hc as [[-> ->]%orb_false_iff _]. done.
Qed.

Definition run_fence (state : FenceState) (ls : list str) : FenceState :=
  fold_left (fun st l => snd (fence_step st l)) ls state.

Lemma scan_lines_app st idx l1 l2 :
  scan_lines st idx (l1 ++ l2) =
  scan_lines st idx l1 ++ scan_lines (run_fence st l1) (idx + length l1) l2.
Proof.
  revert st idx. induction l1 as [|x l1 IH]; intros st idx; simpl.
  - by rewrite Nat.add_0_r.
  - destruct (fence_step st x) as [keep st'] eqn:E. simpl. rewrite IH.
    replace (S idx + length l1) with (idx + S (length l1)) by lia.
    destruct keep; simpl; reflexivity.
Qed.

Lemma scan_lines_bounds st idx ls i l :
  (i, l) ∈ scan_lines st idx ls -> idx <= i /\ ls !! (i - idx) = Some l.
Proof.
  revert st idx. induction ls as [|x ls IH]; intros st idx; simpl; [set_solver|].
  destruct (fence_step st x) as [keep st']. intros Hin.
  assert (Hcase : (i, l) = (idx, x) \/ (i, l) ∈ scan_lines st' (S idx) ls).
  { destruct keep; [by apply elem_of_cons in Hin|auto]. }
  destruct Hcase as [[= -> ->]|H].
  - split; [done|]. by rewrite Nat.sub_diag.
  - apply IH in H as [Hle Hl]. split; [lia|].
    replace (i - idx) with (S (i - S idx)) by lia. done.
Qed.

Lemma scan_lines_sorted st idx ls : StronglySorted lt (map fst (scan_lines st idx ls)).
Proof.
  revert st idx. induction ls as [|x ls IH]; intros st idx; simpl; [constructor|].
  destruct (fence_step st x) as [keep st']. destruct keep; [|apply IH].
  simpl. constructor; [apply IH|]. apply Forall_forall. intros i Hi.
  apply list_elem_of_In, in_map_iff in Hi as ([j l] & <- & Hj).
  apply list_elem_of_In, scan_lines_bounds in Hj as [? _]. simpl. lia.
Qed.

(** The line at a scannable index was seen outside every fence. *)
Lemma scan_lines_mid l1 x l2 :
  existsb (Nat.eqb (length l1)) (map fst (scan_lines Outside 0 (l1 ++ x :: l2))) = true ->
  run_fence Outside l1 = Outside /\ fence_delimiter x = None.
Proof.
  rewrite existsb_exists. intros (i & Hi & <-%Nat.eqb_eq).
  rewrite in_map_iff in Hi. destruct Hi as ([j l] & Hj & Hin). simpl in Hj. subst j.
  rewrite <-list_elem_of_In in Hin. rewrite scan_lines_app in Hin. simpl in Hin.
  apply elem_of_app in Hin as [Hin|Hin].
  - apply scan_lines_bounds in Hin as [_ Hl]. apply lookup_lt_Some in Hl. lia.
  - destruct (fence_step _ x) as [keep st'] eqn:E.
    unfold fence_step in E. destruct (run_fence Outside l1) as [|fc fl];
      destruct (fence_delimiter x) as [[dc dl]|];
      repeat case_match; simplify_eq; try done;
      apply scan_lines_bounds in Hin as [? _]; lia.
Qed.

(** Scanning with the line [x] of a document replaced by a plain line [y]. *)
Lemma scan_lines_replace l1 x y l2 :
  run_fence Outside l1 = Outside -> fence_delimiter x = None -> fence_delimiter y = None ->
  exists s1 s2, scan_lines Outside 0 (l1 ++ x :: l2) = s1 ++ (length l1, x) :: s2 /\
    scan_lines Outside 0 (l1 ++ y :: l2) = s1 ++ (length l1, y) :: s2 /\
    s1 = scan_lines Outside 0 l1.
Proof.
  intros H1 Hx Hy. exists (scan_lines Outside 0 l1), (scan_lines Outside (S (length l1)) l2).
  rewrite !scan_lines_app, H1. simpl. by rewrite Hx, Hy.
Qed.

(** ** Check-off of a document *)

Lemma check_off_chunks_true sc tid idx chunks :
  check_off_chunks sc tid true idx chunks = (concat chunks, true).
Proof.
  revert idx. induction chunks as [|c chunks IH]; intros idx; simpl; [done|].
  destruct (split_eol c) as [body eol] eqn:E. rewrite IH.
  apply split_eol_app in E as ->. by rewrite <-app_assoc.
Qed.

(** What the loop leaves alone: a chunk outside [sc], or one whose line does
    not check off. *)
Definition untouched (sc : list nat) (tid : str) (i : nat) (chunk : str) : Prop :=
  existsb (Nat.eqb i) sc = true -> check_off_line (fst (split_eol chunk)) tid = None.

Fixpoint all_untouched (sc : list nat) (tid : str) (i : nat) (chunks : list str) : Prop :=
  match chunks with
  | [] => True
  | c :: chunks' => untouched sc tid i c /\ all_untouched sc tid (S i) chunks'
  end.

Lemma check_off_chunks_spec sc tid idx chunks u f :
  check_off_chunks sc tid false idx chunks = (u, f) ->
  match f with
  | false => u = concat chunks /\ all_untouched sc tid idx chunks
  | true => exists c1 chunk c2 body eol line', chunks = c1 ++ chunk :: c2 /\
      split_eol chunk = (body, eol) /\ existsb (Nat.eqb (idx + length c1)) sc = true /\
      check_off_line body tid = Some line' /\ u = concat c1 ++ line' ++ eol ++ concat c2 /\
      all_untouched sc tid idx c1
  end.
Proof.
  revert idx u f. induction chunks as [|c chunks IH]; intros idx u f; simpl; [by intros [= <- <-]|].
  destruct (split_eol c) as [body eol] eqn:Ec. simpl.
  destruct (if existsb _ sc then _ else None) as [line'|] eqn:E.
  - rewrite check_off_chunks_true. intros [= <- <-].
    destruct (existsb _ sc) eqn:Es; [|done].
    exists [], c, chunks, body, eol, line'. simpl. by rewrite Nat.add_0_r.
  - assert (Hun : untouched sc tid idx c).
    { unfold untouched. rewrite Ec. intros H. by rewrite H in E. }
    destruct (check_off_chunks sc tid false (S idx) chunks) as [rest f'] eqn:E'.
    specialize (IH _ _ _ E'). apply split_eol_app in Ec as ->. intros [= <- <-].
    destruct f'.
    + destruct IH as (c1 & chunk & c2 & b & e & l' & -> & Hs & Hin & Hc & -> & Hall).
      exists ((body ++ eol) :: c1), chunk, c2, b, e, l'. simpl.
      rewrite <-!app_assoc. split_and!; try done. by rewrite Nat.add_succ_r.
    + destruct IH as [-> Hall]. simpl. by rewrite <-app_assoc.
Qed.

(** A pending task line whose own id is [tid]. *)
Definition owns (tid : str) (t : TaskLine) : bool :=
  is_pending t && match task_id t with Some id => task_id_eq id tid | None => false end.

Lemma check_off_line_owns line tid n :
  check_off_line line tid = None <->
  forall t, parse_task_line_at line n = Some t -> owns tid t = false.
Proof.
  split.
  - intros E t (pre & box & rest & -> & Hp & Hb & ->)%parse_Some.
    destruct (owns tid _) eqn:Ho; [|done]. unfold owns in Ho.
    apply andb_true_iff in Ho as [Hs%pending_build Hid].
    destruct (task_id _) as [id|] eqn:Eid; [|done].
    rewrite (proj2 (check_off_line_Some _ tid (pre ++ tick box ++ rest) n)) in E; [done|].
    exists pre, box, rest, id. done.
  - intros H. destruct (check_off_line line tid) as [r|] eqn:E; [|done].
    apply (check_off_line_Some _ _ _ n) in E as (pre & box & rest & id & -> & Hp & Hb & Hs & Hid & Ht & _).
    specialize (H _ (parse_build pre box rest n Hp Hb)). unfold owns in H.
    rewrite (proj2 (pending_build pre box rest n) Hs), Hid, Ht in H. done.
Qed.

Lemma lines_split content c1 chunk c2 body eol :
  split_inclusive content = c1 ++ chunk :: c2 -> split_eol chunk = (body, eol) ->
  lines content = map (fun c => fst (split_eol c)) c1 ++ body :: map (fun c => fst (split_eol c)) c2.
Proof. intros H E. unfold lines. rewrite H, map_app. simpl. by rewrite E. Qed.

Lemma check_off_body_ok line tid line' :
  check_off_line line tid = Some line' -> NL ∉ line ->
  NL ∉ line' /\ line' <> [] /\ (forall r, line' = r ++ [CR] -> exists r', line = r' ++ [CR]).
Proof.
  intros (pre & box & rest & id & -> & Hp & Hb & _ & _ & _ & ->)%(check_off_line_Some _ _ _ 0) Hn.
  assert (Ht : NL ∉ tick box) by (unfold tick; destruct (starts_with _ _); intros [|[|[|?]%elem_of_cons]%elem_of_cons]%elem_of_cons; set_solver).
  assert (Hne : exists t c, tick box = t ++ [c] /\ c <> CR).
  { unfold tick. destruct (starts_with _ _); [exists (lit "(x"), (ch ")")|exists (lit "[x"), (ch "]")]; done. }
  destruct Hne as (t & c & Htick & Hc). split_and!.
  - set_solver.
  - rewrite Htick. by destruct pre, t.
  - intros r Hr. destruct rest as [|d rest] using rev_ind.
    + exfalso. rewrite app_nil_r, Htick, app_assoc in Hr. by apply app_inj_tail in Hr as [_ ->].
    + rewrite !app_assoc in Hr. apply app_inj_tail in Hr as [_ ->].
      exists (pre ++ box ++ rest). by rewrite <-!app_assoc.
Qed.

Lemma all_untouched_lookup sc tid j cs k c :
  all_untouched sc tid j cs -> cs !! k = Some c -> untouched sc tid (j + k) c.
Proof.
  revert j k. induction cs as [|x cs IH]; intros j k; [done|]. intros [Hx Hcs].
  destruct k as [|k]; simpl; [intros [= <-]; by rewrite Nat.add_0_r|].
  rewrite Nat.add_succ_r. apply (IH (S j) k Hcs).
Qed.

(** Untouched chunks, seen as scanned lines. *)
Lemma untouched_scan tid c1 rest :
  let body := fun c : str => fst (split_eol c) in
  all_untouched (map fst (scan_lines Outside 0 (map body c1 ++ rest))) tid 0 c1 ->
  Forall (fun '(i, l) => check_off_line l tid = None) (scan_lines Outside 0 (map body c1)).
Proof.
  intros body Hall. apply Forall_forall. intros [i l] Hil. pose proof Hil as Hlk.
  apply scan_lines_bounds in Hlk as [_ Hlk]. rewrite Nat.sub_0_r, list_lookup_fmap in Hlk.
  destruct (c1 !! i) as [c|] eqn:Ec; [|done]. injection Hlk as <-.
  apply (all_untouched_lookup _ _ _ _ _ _ Hall Ec). apply existsb_exists.
  exists i. split; [|apply Nat.eqb_refl].
  rewrite scan_lines_app, map_app. apply in_app_iff. left.
  apply in_map_iff. exists (i, body c). split; [done|]. by apply list_elem_of_In.
Qed.

(** The whole effect of a successful check-off, at the level of bytes and of
    the lines the scanner sees. *)
Lemma check_off_content_true content tid u :
  check_off_content content tid = (u, true) ->
  exists a b l1 l2 line line',
    content = a ++ line ++ b /\ u = a ++ line' ++ b /\
    check_off_line line tid = Some line' /\
    lines content = l1 ++ line :: l2 /\ lines u = l1 ++ line' :: l2 /\
    run_fence Outside l1 = Outside /\ fence_delimiter line = None /\ fence_delimiter line' = None /\
    Forall (fun '(i, l) => check_off_line l tid = None) (scan_lines Outside 0 l1).
Proof.
  unfold check_off_content.
  destruct (check_off_chunks _ _ _ _ _) as [u' f] eqn:E. destruct f; [|done]. intros [= ->].
  apply check_off_chunks_spec in E as (c1 & chunk & c2 & body & eol & line' & Hc & He & Hin & Hl & Hu & Hall).
  pose proof (split_inclusive_ok content) as Hok. rewrite Hc in Hok.
  pose proof (chunks_ok_body _ chunk _ _ Hok ltac:(set_solver) He) as Hn.
  destruct (check_off_body_ok _ _ _ Hl Hn) as (Hn' & Hne' & Hcr).
  pose proof (chunks_ok_replace _ _ _ _ _ line' Hok He Hn' Hne') as Hok'.
  pose proof (split_eol_replace _ _ _ line' He Hn' Hcr) as He'.
  pose proof (lines_split _ _ _ _ _ _ Hc He) as Hlines.
  assert (Hu' : split_inclusive u = c1 ++ (line' ++ eol) :: c2).
  { rewrite <-(split_inclusive_concat _ Hok'). f_equal. subst u. rewrite concat_app. simpl.
    by rewrite <-!app_assoc. }
  pose proof (lines_split _ _ _ _ _ _ Hu' He') as Hlines'.
  unfold scannable_lines in *. rewrite Hlines in Hin, Hall. simpl in Hin.
  set (f := fun c : str => fst (split_eol c)) in *.
  rewrite <-(length_map f) in Hin. destruct (scan_lines_mid _ _ _ Hin) as [Hf Hd].
  exists (concat c1), (eol ++ concat c2), (map f c1), (map f c2), body, line'.
  split_and!; try done.
  - rewrite <-(concat_split_inclusive content), Hc, concat_app. simpl.
    apply split_eol_app in He as ->. by rewrite <-app_assoc.
  - apply (check_off_line_Some _ _ _ 0) in Hl as (pre & box & rest & id & -> & Hp & Hb & _ & _ & _ & ->).
    apply fence_delimiter_task; [done|apply tick_BOX].
  - by eapply untouched_scan.
Qed.

(** Lines that do not check off own no pending task. *)
Lemma owns_scan tid st i ls :
  Forall (fun '(i, l) => check_off_line l tid = None) (scan_lines st i ls) ->
  Forall (fun t => owns tid t = false)
    (omap (fun '(idx, line) => parse_task_line_at line idx) (scan_lines st i ls)).
Proof.
  induction 1 as [|[j l] s Hl _ IH]; [constructor|]. cbn [omap list_omap].
  destruct (parse_task_line_at l j) as [t|] eqn:E; [|done]. constructor; [|done].
  by eapply (proj1 (check_off_line_owns l tid j)).
Qed.

(** ** Token recognition *)

(** The direct reading of [t-] followed by id characters. *)
Definition task_id_shape (s : str) : bool :=
  match s with
  | t :: dash :: c :: rest =>
      fold_eq (ch "t") t && fold_eq (ch "-") dash && forallb id_char_i (c :: rest)
  | _ => false
  end.

Lemma Lang_plus_set f m : Lang (RPlus (RSet f)) m <-> m <> [] /\ Forall (fun c => f c = true) m.
Proof.
  assert (Hstar : forall m, Forall (fun c => f c = true) m -> Lang (RStar (RSet f)) m).
  { clear. induction 1 as [|c m Hc _ IH]; [constructor|].
    change (c :: m) with ([c] ++ m). constructor; [done|by constructor|done]. }
  split.
  - intros H. split; [|exact (Lang_chars _ _ H) || (eapply Forall_impl; [exact (Lang_chars _ _ H)|]; simpl; intros c; by destruct (f c))].
    inversion H as [| |a b m1 m2 H1 H2| | | |]; subst. inversion H1; subst. done.
  - intros [Hne Hall]. destruct Hall as [|c m Hc Hm]; [done|].
    change (c :: m) with ([c] ++ m). constructor; [by constructor|auto].
Qed.

Lemma Lang_RSet f m : Lang (RSet f) m <-> exists c, m = [c] /\ f c = true.
Proof.
  split; [inversion 1; subst; eauto|]. intros (c & -> & Hc). by constructor.
Qed.

Lemma Lang_TASK_ID_BODY m : Lang TASK_ID_BODY m <-> task_id_shape m = true.
Proof.
  unfold TASK_ID_BODY, RLitI. change (map _ (lit "t-")) with
    [RSet (fold_eq (ch "t")); RSet (fold_eq (ch "-"))]. cbn [RSeqs]. split.
  - intros H. inversion H as [| |a b m1 m2 H1 H2| | | |]; subst.
    inversion H1 as [| |a b m3 m4 H3 H4| | | |]; subst.
    apply Lang_RSet in H3 as (c1 & -> & Hc1), H4 as (c2 & -> & Hc2).
    apply Lang_plus_set in H2 as [Hne Hall]. destruct m2 as [|c3 m2]; [done|].
    cbn [app task_id_shape]. rewrite Hc1, Hc2, !andb_true_l.
    apply forallb_forall. rewrite Forall_forall in Hall. intros x Hx. apply Hall.
    by apply list_elem_of_In.
  - destruct m as [|c1 [|c2 [|c3 m]]]; try done. cbn [task_id_shape].
    intros [[H1 H2]%andb_true_iff H3]%andb_true_iff.
    change (c1 :: c2 :: c3 :: m) with (([c1] ++ [c2]) ++ (c3 :: m)).
    constructor; [constructor; by constructor|]. apply Lang_plus_set. split; [done|].
    apply Forall_forall. intros x Hx. rewrite forallb_forall in H3. apply H3.
    by apply list_elem_of_In.
Qed.

Lemma captures_begin r s cs :
  captures (RSeq RBegin r) s = Some cs ->
  exists p' s', Match r [] s [] p' s' cs.
Proof.
  intros (m & s0 & p' & s' & -> & Hm)%captures_sound. inversion Hm; subst.
  match goal with H : Match RBegin _ _ _ _ _ _ |- _ => inversion H; subst end.
  match goal with H : _ = rev m |- _ => apply (f_equal (@rev N)) in H; rewrite rev_involutive in H end.
  subst. simpl. eauto.
Qed.

(** The strict pattern is the direct recogniser. *)
Lemma is_task_id_token_shape s : is_task_id_token s = task_id_shape s.
Proof.
  apply eq_true_iff_eq. unfold is_task_id_token, is_match, TASK_ID_STRICT_RE.
  cbn [RSeqs]. rewrite <-Lang_TASK_ID_BODY. split.
  - destruct (captures _ s) as [cs|] eqn:E; [|done]. intros _.
    apply captures_begin in E as (p' & s' & Hm). inversion Hm; subst.
    match goal with H : Match REnd _ _ _ _ _ _ |- _ => inversion H; subst end.
    match goal with H : Match TASK_ID_BODY _ _ _ _ _ _ |- _ =>
      apply Match_Lang in H as (m & -> & _ & _ & HL); [|reflexivity] end.
    by rewrite app_nil_r.
  - intros HL. destruct (captures _ s) eqn:E; [done|]. exfalso. revert E.
    apply (captures_complete _ [] s (rev s ++ []) [] []).
    econstructor; [constructor|]. econstructor; [|constructor].
    rewrite <-(app_nil_r s) at 1. by apply Lang_Match.
Qed.

(** ** Trailing groups *)

Definition no_paren (s : str) : Prop :=
  Forall (fun c => (c =? ch "(")%N || (c =? ch ")")%N = false) s.

Lemma matching_loop_plain depth r rest acc :
  no_paren r -> matching_open_loop depth (r ++ rest) acc =
                matching_open_loop depth rest (rev r ++ acc).
Proof.
  intros Hr. revert acc. induction Hr as [|c r Hc _ IH]; intros acc; [done|].
  apply orb_false_iff in Hc as [Ho Hcl]. cbn [app matching_open_loop].
  rewrite Hcl, Ho. simpl. rewrite IH. by rewrite <-app_assoc.
Qed.

Lemma matching_open_group x inner :
  no_paren inner ->
  matching_open_paren (x ++ lit "(" ++ inner ++ lit ")") = Some (x, inner ++ lit ")").
Proof.
  intros Hi. unfold matching_open_paren. rewrite !rev_app_distr.
  change (rev (lit ")")) with (lit ")"). change (rev (lit "(")) with (lit "(").
  rewrite <-!app_assoc. cbn [app matching_open_loop lit].
  change (matching_open_loop 0 (lit ")" ++ rev inner ++ lit "(" ++ rev x) [])
    with (matching_open_loop 1 (rev inner ++ lit "(" ++ rev x) (lit ")")).
  rewrite matching_loop_plain by (by apply Forall_rev). rewrite rev_involutive.
  change (matching_open_loop 1 (lit "(" ++ rev x) (inner ++ lit ")"))
    with (Some (rev (rev x), inner ++ lit ")")).
  by rewrite rev_involutive.
Qed.

Definition ends_ok (x : str) : Prop :=
  match rev x with [] => False | c :: _ => is_whitespace c = false end.

Lemma ends_ok_app x y : ends_ok y -> ends_ok (x ++ y).
Proof. unfold ends_ok. rewrite rev_app_distr. by destruct (rev y). Qed.

Lemma trim_end_ok x : ends_ok x -> trim_end x = x.
Proof.
  unfold ends_ok, trim_end, trim_end_matches. intros H.
  rewrite drop_while_none; [apply rev_involutive|]. by destruct (rev x).
Qed.

Lemma trim_end_space x : ends_ok x -> trim_end (x ++ lit " ") = x.
Proof.
  intros H. unfold trim_end, trim_end_matches. rewrite rev_app_distr.
  change (rev (lit " ") ++ rev x) with (32%N :: rev x). cbn [drop_while].
  change (is_whitespace 32%N) with true. by apply trim_end_ok in H.
Qed.

(** [" (inner)"] *)
Definition group_text (inner : str) : str := lit " " ++ lit "(" ++ inner ++ lit ")".

Arguments group_text : simpl never.

Lemma ends_with_group x inner : ends_with (lit ")") (x ++ group_text inner) = true.
Proof.
  apply ends_with_true. exists (x ++ lit " " ++ lit "(" ++ inner). unfold group_text.
  by rewrite <-!app_assoc.
Qed.

Lemma removelast_snoc (inner : str) c : removelast (inner ++ [c]) = inner.
Proof. by rewrite removelast_last. Qed.

Lemma trailing_groups_group fuel x inner suffix :
  no_paren inner -> ends_ok x ->
  trailing_groups (S fuel) (x ++ group_text inner) suffix =
  PGroup (x ++ lit " ") inner suffix :: trailing_groups fuel x (group_text inner ++ suffix).
Proof.
  intros Hi Hx. cbn [trailing_groups]. rewrite ends_with_group.
  assert (is_empty (x ++ group_text inner) = false) as -> by (by destruct x).
  cbn [negb andb].
  assert (Heq : x ++ group_text inner = (x ++ lit " ") ++ lit "(" ++ inner ++ lit ")")
    by (unfold group_text; by rewrite <-app_assoc).
  rewrite Heq at 1. rewrite matching_open_group by done.
  rewrite trim_end_space by done. rewrite drop_app_length.
  change (inner ++ lit ")") with (inner ++ [41%N]). by rewrite removelast_snoc.
Qed.

Lemma trailing_groups_stop fuel x suffix :
  ends_with (lit ")") x = false -> trailing_groups fuel x suffix = [].
Proof. intros H. destruct fuel; [done|]. cbn [trailing_groups]. rewrite H. by rewrite andb_false_r. Qed.

(** ** Canonical lines *)

Definition directive_text (d : ValidationDirective) : str :=
  match d with
  | Auto => []
  | Validate => group_text (lit "validate")
  | NoValidate => group_text (lit "no-validate")
  end.
Definition role_text (r : option Agent) : str :=
  match r with Some a => group_text (as_str a) | None => [] end.
Definition box_text (c : CheckboxState) : str :=
  match c with Unchecked => lit "[ ]" | Checked => lit "[x]" end.

(** The canonical spelling of a plan line:
    [- [ ] [t-001] body (no-validate) (role)]. *)
Definition render_line (c : CheckboxState) (id body : str) (d : ValidationDirective)
    (r : option Agent) : str :=
  lit "- " ++ box_text c ++ lit " [" ++ id ++ lit "] " ++ body ++ directive_text d ++ role_text r.

(** A task body that does not itself end in a group. *)
Definition plain_body (body : str) : Prop :=
  trimmed is_whitespace body /\ body <> [] /\ ends_with (lit ")") body = false.

Lemma plain_body_ends body : plain_body body -> ends_ok body.
Proof.
  intros ([_ Ht] & Hne & _). unfold ends_ok. destruct (rev body) eqn:E; [|done].
  apply (f_equal (@rev N)) in E. rewrite rev_involutive in E. done.
Qed.

Lemma ends_ok_group x inner : ends_ok (x ++ group_text inner).
Proof. unfold group_text. rewrite !app_assoc. by apply ends_ok_app. Qed.

Lemma trim_plain_app body y :
  plain_body body -> (y = [] \/ ends_ok y) -> trim (body ++ y) = body ++ y.
Proof.
  intros Hb Hy. apply trim_id. destruct Hb as ([Hs He] & Hne & _). split.
  - by destruct body.
  - destruct Hy as [->|Hy]; [by rewrite app_nil_r|].
    apply (ends_ok_app body) in Hy. unfold ends_ok in Hy. by destruct (rev (body ++ y)).
Qed.

Lemma no_paren_directive d : no_paren (match d with Auto => [] | Validate => lit "validate" | NoValidate => lit "no-validate" end).
Proof. destruct d; repeat constructor. Qed.

Lemma no_paren_role a : no_paren (as_str a).
Proof. destruct a; repeat constructor. Qed.

Lemma directive_of_role a : directive_parse (as_str a) = Auto.
Proof. by destruct a. Qed.

Lemma canonical_tail d r :
  directive_text d ++ role_text r = [] \/ ends_ok (directive_text d ++ role_text r).
Proof.
  destruct r as [a|]; cbn [role_text].
  - right. apply ends_ok_app, (ends_ok_group []).
  - rewrite app_nil_r. destruct d; cbn [directive_text]; auto; right; apply (ends_ok_group []).
Qed.

(** The directive group sits where [split_validation_directive] looks for it. *)
Lemma split_directive_group body inner d r :
  plain_body body -> no_paren inner -> directive_parse inner = d -> d <> Auto ->
  split_validation_directive (body ++ group_text inner ++ role_text r) = (body ++ role_text r, d).
Proof.
  intros Hb Hi Hd Hne. pose proof (plain_body_ends _ Hb) as He. pose proof Hb as (_ & _ & Hstop).
  unfold split_validation_directive. rewrite trim_plain_app; [|done|].
  2: { right. destruct r as [a|]; cbn [role_text];
       [apply ends_ok_app, (ends_ok_group [])|rewrite app_nil_r; apply (ends_ok_group [])]. }
  assert (Hbody : is_empty body = false) by (by destruct body).
  assert (Hauto : is_auto d = false) by (by destruct d).
  destruct r as [a|]; cbn [role_text].
  - rewrite app_assoc.
    assert (exists n, length ((body ++ group_text inner) ++ group_text (as_str a)) = S (S n)) as [n ->].
    { exists (length ((body ++ group_text inner) ++ group_text (as_str a)) - 2).
      unfold group_text. rewrite !length_app. simpl. lia. }
    rewrite trailing_groups_group by (apply no_paren_role || apply ends_ok_group).
    rewrite trailing_groups_group, trailing_groups_stop by done.
    cbn [directive_candidates find_map g_inner g_before g_after]. rewrite Hd, Hauto.
    rewrite trim_end_space, Hbody by done. rewrite app_nil_r. reflexivity.
  - rewrite app_nil_r.
    assert (exists n, length (body ++ group_text inner) = S n) as [n ->].
    { exists (length (body ++ group_text inner) - 1). unfold group_text. rewrite !length_app. simpl. lia. }
    rewrite trailing_groups_group, trailing_groups_stop by done.
    cbn [directive_candidates find_map g_inner g_before g_after]. rewrite Hd, Hauto.
    rewrite trim_end_space, Hbody by done. rewrite !app_nil_r. reflexivity.
Qed.

Lemma split_directive_canonical body d r :
  plain_body body ->
  split_validation_directive (body ++ directive_text d ++ role_text r) = (body ++ role_text r, d).
Proof.
  intros Hb. destruct d; cbn [directive_text].
  - pose proof (plain_body_ends _ Hb) as He. pose proof Hb as (_ & _ & Hstop).
    unfold split_validation_directive.
    rewrite trim_plain_app by (done || apply (canonical_tail Auto)). rewrite app_nil_l.
    destruct r as [a|]; cbn [role_text]; [|by rewrite app_nil_r, trailing_groups_stop].
    destruct (length (body ++ group_text (as_str a))) as [|n] eqn:El; [by destruct body|].
    rewrite trailing_groups_group, trailing_groups_stop by (done || apply no_paren_role).
    cbn [directive_candidates find_map g_inner]. rewrite directive_of_role. reflexivity.
  - apply split_directive_group; [done| |done|done]. apply (no_paren_directive Validate).
  - apply split_directive_group; [done| |done|done]. apply (no_paren_directive NoValidate).
Qed.

Lemma split_role_canonical body r :
  plain_body body -> split_role_hint (body ++ role_text r) = (body, as_str <$> r).
Proof.
  intros Hb. pose proof Hb as (Ht & _ & Hstop). unfold split_role_hint.
  destruct r as [a|]; cbn [role_text].
  - rewrite (trim_plain_app body) by (done || (right; apply (ends_ok_group []))).
    rewrite ends_with_group. cbn [negb].
    assert (Heq : body ++ group_text (as_str a) = (body ++ lit " ") ++ lit "(" ++ as_str a ++ lit ")")
      by (unfold group_text; by rewrite <-app_assoc).
    rewrite Heq, matching_open_group by apply no_paren_role.
    change (as_str a ++ lit ")") with (as_str a ++ [41%N]). rewrite removelast_snoc.
    assert (Hc : trim (as_str a) = as_str a /\ is_role_archetype (as_str a) = true /\
      to_ascii_lowercase (as_str a) = as_str a) by (by destruct a).
    destruct Hc as (-> & -> & ->). cbn [negb]. f_equal.
    unfold trim. replace (trim_start (body ++ lit " ")) with (body ++ lit " ").
    + apply trim_end_space. by apply plain_body_ends.
    + unfold trim_start, trim_start_matches. rewrite drop_while_none; [done|].
      destruct Hb as ([Hs _] & Hne & _). by destruct body.
  - rewrite app_nil_r, (trim_id body Ht), Hstop. done.
Qed.

Lemma fold_eq_t c : fold_eq (ch "t") c = true -> c = 116%N \/ c = 84%N.
Proof.
  unfold fold_eq, to_ascii_lower. change (is_ascii_upper (ch "t")) with false. cbn match.
  destruct (is_ascii_upper c) eqn:E; char_lia.
Qed.

(** The id token after a canonical box. *)
Lemma id_part_canonical id tail :
  task_id_shape id = true -> Forall (fun c => id_byte c = true) id ->
  id_part (lit " [" ++ id ++ lit "] " ++ tail) = (Some (2, id), trim (lit " " ++ tail)).
Proof.
  intros Hs Hid. unfold id_part, leading_task_id_token.
  assert (Hso : skip_openers (lit " [" ++ id ++ lit "] " ++ tail)
                = (1, lit " [", id ++ lit "] " ++ tail)).
  { destruct id as [|c id]; [done|].
    assert (Hc : c = 116%N \/ c = 84%N).
    { destruct id as [|? [|? ?]]; try done. cbn [task_id_shape] in Hs.
      apply andb_true_iff in Hs as [[Hs _]%andb_true_iff _]. by apply fold_eq_t. }
    change (lit " [" ++ (c :: id) ++ lit "] " ++ tail)
      with (32%N :: 91%N :: c :: (id ++ lit "] " ++ tail)).
    cbn [skip_openers]. destruct (skip_openers (id ++ lit "] " ++ tail)) as [[? ?] ?].
    destruct ((c =? ch "[")%N || (c =? ch "(")%N) eqn:E1; [char_lia|].
    destruct (existsb (N.eqb c) ID_DECORATION) eqn:E2;
      [unfold ID_DECORATION in *; char_lia|]. reflexivity. }
  rewrite Hso.
  rewrite take_while_app_all by done. rewrite drop_while_app_all by done.
  change (take_while id_byte (lit "] " ++ tail)) with (@nil N). rewrite app_nil_r.
  change (drop_while id_byte (lit "] " ++ tail)) with (lit "] " ++ tail).
  change (skip_closers 1 (lit "] " ++ tail)) with (lit "]", lit " " ++ tail).
  destruct id as [|c id]; [done|].
  rewrite is_task_id_token_shape, Hs. reflexivity.
Qed.
End facts.

(** * Properties *)

Section properties.
Context `{U : Unicode}.

(** The spans of a parsed line are byte offsets of [raw] on character
    boundaries: they delimit a checkbox and exactly the task id. *)
Theorem parse_spans_valid line n t :
  parse_task_line_at line n = Some t ->
  raw t = line /\ line_number t = n /\
  (exists box, get line (fst (checkbox_span t)) (snd (checkbox_span t)) = Some box /\
     Lang BOX box) /\
  match id_span t with
  | Some (i, j) => get line i j = task_id t /\ i < j
  | None => task_id t = None
  end.
Proof.
  intros (pre & box & rest & -> & Hp & Hb & ->)%parse_Some.
  unfold build, id_part.
  destruct (leading_task_id_token rest) as [[[[off token] stop] tail]|] eqn:El;
    [destruct (is_task_id_token token)|]; destruct (tail_part _) as [[? ?] ?]; simpl;
    (split; [done|]; split; [done|]; split; [exists box; split; [apply get_app|done]|]; try done).
  apply leading_token_spec in El as (sk & closing & -> & -> & _ & Hne & Hall).
  rewrite normalize_token by done. split.
  - apply (get_slice _ (pre ++ box ++ sk) _ (closing ++ tail)).
    + by rewrite <-!app_assoc.
    + rewrite !blen_app. lia.
    + done.
  - destruct token as [|c token]; [done|]. rewrite blen_cons. pose proof (len_utf8_pos c). lia.
Qed.

(** Ticking a parsed pending line succeeds, changes nothing but the checkbox,
    and the ticked line parses back to the same task, now completed. *)
Theorem checked_line_roundtrip line n t :
  parse_task_line_at line n = Some t -> is_pending t = true ->
  exists a box b line' t', line = a ++ box ++ b /\ Lang BOX box /\
    checked_line t = Some line' /\ line' = a ++ tick box ++ b /\
    parse_task_line_at line' n = Some t' /\ is_completed t' = true /\ same_task t t'.
Proof.
  intros (pre & box & rest & -> & Hp & Hb & ->)%parse_Some Hs%pending_build.
  exists pre, box, rest, (pre ++ tick box ++ rest), (build pre (tick box) rest n).
  rewrite checked_line_build, decide_False by (by rewrite Hs).
  split_and!; try done.
  - apply parse_build; [done|apply tick_BOX].
  - unfold is_completed. by rewrite build_checkbox, tick_Checked.
  - apply same_task_build.
Qed.

(** A canonical plan line reads back as what was written: state, id, body,
    validation directive and role. *)
Theorem render_line_roundtrip c id body d r n :
  task_id_shape id = true -> Forall (fun x => id_byte x = true) id -> plain_body body ->
  exists t, parse_task_line_at (render_line c id body d r) n = Some t /\
    checkbox t = c /\ task_id t = Some id /\ description_body t = body /\
    validation_directive t = d /\ role_hint t = as_str <$> r /\ line_number t = n.
Proof.
  intros Hs Hid Hb. unfold render_line.
  exists (build (lit "- ") (box_text c) (lit " [" ++ id ++ lit "] " ++ body ++ directive_text d ++ role_text r) n).
  split.
  { apply parse_build.
    - exists [], [], (lit "-"), (lit " "). split; [done|].
      split_and!; [constructor|constructor| |].
      + apply LAltL, LAltL. by constructor.
      + change (lit " ") with (lit " " ++ []). constructor; [done|by constructor|constructor].
    - apply Lang_BOX. exists (ch "["), (match c with Unchecked => lit " " | Checked => lit "x" end), (ch "]").
      split_and!; [by destruct c| |auto].
      destruct c.
      + change (lit " ") with ((lit " " ++ []) ++ [] ++ []). constructor.
        * constructor; [done|by constructor|constructor].
        * constructor; [apply LAltR; constructor|constructor].
      + change (lit "x") with ([] ++ lit "x" ++ []). repeat constructor. }
  unfold build. rewrite id_part_canonical by done.
  assert (Hbox : box_state (box_text c) = c) by (by destruct c).
  rewrite Hbox. assert (Htrim : trim (lit " " ++ body ++ directive_text d ++ role_text r)
    = body ++ directive_text d ++ role_text r).
  { change (trim (lit " " ++ body ++ directive_text d ++ role_text r))
      with (trim (body ++ directive_text d ++ role_text r)).
    apply trim_plain_app; [done|apply canonical_tail]. }
  rewrite Htrim. unfold tail_part. rewrite split_directive_canonical by done.
  rewrite split_role_canonical by done. simpl. by rewrite normalize_token.
Qed.

Lemma check_off_content_cases content tid :
  match check_off_content content tid with
  | (u, true) => exists a b l1 t t' l2,
      content = a ++ raw t ++ b /\ u = a ++ raw t' ++ b /\
      checked_line t = Some (raw t') /\
      parse_tasks content = l1 ++ t :: l2 /\ parse_tasks u = l1 ++ t' :: l2 /\
      owns tid t = true /\ is_completed t' = true /\ same_task t t' /\
      Forall (fun t => owns tid t = false) l1
  | (u, false) => u = content /\ Forall (fun t => owns tid t = false) (parse_tasks content)
  end.
Proof.
  destruct (check_off_content content tid) as [u [|]] eqn:E.
  - apply check_off_content_true in E as
      (a & b & l1 & l2 & line & line' & -> & -> & Hl & Hc & Hu & Hf & Hd & Hd' & Hun).
    unfold parse_tasks, scannable_lines. rewrite Hc, Hu.
    destruct (scan_lines_replace l1 line line' l2 Hf Hd Hd') as (s1 & s2 & -> & -> & ->).
    rewrite !omap_app. cbn [omap list_omap].
    apply (check_off_line_Some _ _ _ (length l1)) in Hl
      as (pre & box & rest & id & -> & Hp & Hb & Hs & Hid & Ht & ->).
    rewrite !parse_build by (done || apply tick_BOX).
    eexists a, b, _, (build pre box rest (length l1)), (build pre (tick box) rest (length l1)), _.
    rewrite !build_raw, checked_line_build, decide_False by (by rewrite Hs).
    split_and!; try reflexivity.
    + unfold owns. by rewrite (proj2 (pending_build _ _ _ _) Hs), Hid, Ht.
    + unfold is_completed. by rewrite build_checkbox, tick_Checked.
    + apply same_task_build.
    + by eapply owns_scan.
  - unfold check_off_content in E.
    destruct (check_off_chunks _ _ _ _ _) as [u' f] eqn:E'. destruct f; [done|]. injection E as <-.
    split; [done|]. apply check_off_chunks_spec in E' as [_ Hall].
    unfold parse_tasks. eapply (owns_scan _ Outside 0 (lines content)).
    pose proof (untouched_scan tid (split_inclusive content) []) as H.
    cbv zeta in H. rewrite app_nil_r in H. exact (H Hall).
Qed.

(** Checking off a document either changes the checkbox of exactly one line,
    the first pending task owning the id, and every other byte and every
    other task stay; or no pending task owns the id and nothing changes. *)
Theorem check_off_content_spec content tid :
  match check_off_content content tid with
  | (u, true) => exists a b l1 t t' l2,
      content = a ++ raw t ++ b /\ u = a ++ raw t' ++ b /\
      checked_line t = Some (raw t') /\
      parse_tasks content = l1 ++ t :: l2 /\ parse_tasks u = l1 ++ t' :: l2 /\
      owns tid t = true /\ is_completed t' = true /\ same_task t t' /\
      Forall (fun t => owns tid t = false) l1
  | (u, false) => u = content /\ Forall (fun t => owns tid t = false) (parse_tasks content)
  end.
Proof. apply check_off_content_cases. Qed.

(** ** Newlines *)

(** The two-pass reference: delete each CR directly before an LF, then turn
    the remaining CRs into LFs. *)
Fixpoint drop_cr_before_nl (s : str) : str :=
  match s with
  | [] => []
  | c :: s' =>
      if (c =? CR)%N && match s' with d :: _ => (d =? NL)%N | [] => false end
      then drop_cr_before_nl s' else c :: drop_cr_before_nl s'
  end.
Definition newline_reference (s : str) : str :=
  map (fun c => if (c =? CR)%N then NL else c) (drop_cr_before_nl s).

Lemma normalize_loop_reference s : normalize_newlines_loop s = newline_reference s.
Proof.
  unfold newline_reference.
  induction s as [s IH] using (induction_ltof1 _ (@length N)). unfold ltof in IH.
  destruct s as [|c s]; [done|]. cbn [normalize_newlines_loop drop_cr_before_nl].
  destruct (N.eqb_spec c CR) as [->|Hc]; cbn [andb].
  - destruct s as [|d s]; [done|]. destruct (N.eqb_spec d NL) as [->|Hd].
    + rewrite IH by (simpl; lia). reflexivity.
    + rewrite IH by (simpl; lia). reflexivity.
  - cbn [map]. rewrite (proj2 (N.eqb_neq _ _) Hc), IH by (simpl; lia). reflexivity.
Qed.

Lemma reference_no_cr s : CR ∉ s -> newline_reference s = s.
Proof.
  unfold newline_reference. induction s as [|c s IH]; intros Hn; [done|].
  cbn [drop_cr_before_nl]. destruct (N.eqb_spec c CR) as [->|Hc]; [set_solver|].
  cbn [andb map]. rewrite (proj2 (N.eqb_neq _ _) Hc), IH; [done|set_solver].
Qed.

Lemma contains_char c s : contains [c] s = true <-> c ∈ s.
Proof.
  rewrite contains_true. split.
  - intros (a & b & ->). set_solver.
  - intros (a & b & ->)%list_elem_of_split. by exists a, b.
Qed.

(** The newline normalizer is the two-pass reference, leaves no CR, and is
    idempotent. *)
Theorem normalize_newlines_spec text :
  normalize_newlines text = newline_reference text /\
  CR ∉ normalize_newlines text /\
  normalize_newlines (normalize_newlines text) = normalize_newlines text.
Proof.
  assert (Href : forall s, normalize_newlines s = newline_reference s).
  { intros s. unfold normalize_newlines. destruct (contains [CR] s) eqn:E; simpl.
    - apply normalize_loop_reference.
    - symmetry. apply reference_no_cr. rewrite <-contains_char, E. done. }
  assert (Hno : forall s, CR ∉ newline_reference s).
  { intros s. unfold newline_reference. intros H%list_elem_of_In%in_map_iff.
    destruct H as (c & Hc & _). destruct (N.eqb_spec c CR); [done|congruence]. }
  rewrite !Href. split_and!; [done|apply Hno|]. apply reference_no_cr, Hno.
Qed.

(** The highlighted line is the line of the first pending task. *)
Theorem first_unchecked_line_index_spec text :
  first_unchecked_line_index text = line_number <$> head (pending_lines text).
Proof.
  unfold first_unchecked_line_index, pending_lines, parse_tasks, scannable_lines.
  induction (scan_lines Outside 0 (lines text)) as [|[i l] s IH]; [done|].
  cbn [find_map omap list_omap].
  destruct (parse_task_line_at l i) as [t|] eqn:E; [|exact IH].
  cbn [List.filter]. destruct (is_pending t); [|exact IH]. simpl.
  apply parse_Some in E as (pre & box & rest & _ & _ & _ & ->).
  unfold build. by destruct (id_part rest) as [? ?]; destruct (tail_part _) as [[? ?] ?].
Qed.

(** ** Id lookup in a line *)

Lemma match_loop_sound fuel target lastc s pre :
  target <> [] -> lastc = last pre -> match_loop fuel target lastc s = true ->
  exists a b, pre ++ s = a ++ target ++ b /\
    boundary_ok (last a) = true /\ boundary_ok (head b) = true.
Proof.
  intros Hne. revert lastc s pre. induction fuel as [|fuel IH]; intros lastc s pre Hl; simpl; [done|].
  destruct (find_split target s) as [[a rest]|] eqn:E; [|done].
  apply find_split_Some in E as ->.
  destruct (_ && boundary_ok (head rest)) eqn:Eb.
  - intros _. apply andb_true_iff in Eb as [H1 H2]. exists (pre ++ a), rest.
    rewrite <-app_assoc. split_and!; [done| |done].
    subst lastc. rewrite last_app. by destruct (last a).
  - destruct (is_empty rest); [done|]. intros H.
    destruct (IH (last target) rest (pre ++ a ++ target)) as (a' & b' & Heq & ?); [|done|].
    + rewrite !last_app. destruct (last target) eqn:El; [done|]. by apply last_None in El.
    + exists a', b'. by rewrite <-Heq, <-!app_assoc.
Qed.

(** The loop's fuel is enough: more fuel never changes its answer. *)
Lemma match_loop_fuel target lastc s n m :
  target <> [] -> length s < n -> length s < m ->
  match_loop n target lastc s = match_loop m target lastc s.
Proof.
  intros Hne. revert lastc s m. induction n as [|n IH]; intros lastc s m Hn Hm; [lia|].
  destruct m as [|m]; [lia|]. simpl.
  destruct (find_split target s) as [[a rest]|] eqn:E; [|done].
  apply find_split_Some in E. subst s. rewrite !length_app in *.
  destruct target as [|c target]; [done|]. simpl in *.
  destruct (_ && _); [done|]. destruct (is_empty rest); [done|]. apply IH; lia.
Qed.

(** A line that matches an id either owns it or spells it between word
    boundaries, so [t-100] never matches inside [t-100a1]. *)
Theorem line_matches_task_id_sound line tid :
  line_matches_task_id line tid = true ->
  let target := to_ascii_lowercase (normalize_task_id_ref tid) in
  task_id_of_line line = Some target \/
  task_id_of_line line = None /\
  exists a b, to_ascii_lowercase line = a ++ target ++ b /\
    boundary_ok (last a) = true /\ boundary_ok (head b) = true.
Proof.
  unfold line_matches_task_id. destruct (normalize_task_id_ref tid) as [|c t] eqn:En; [done|].
  cbn [is_empty]. intros H. cbv zeta. destruct (task_id_of_line line) as [id|].
  - left. f_equal. by apply str_eqb_eq.
  - right. split; [done|]. by apply (match_loop_sound _ _ _ _ []) in H.
Qed.
End properties.

(** * Witnesses *)

Section witnesses.
#[local] Existing Instance ascii_tables.

Lemma parse_spans_valid_witness :
  exists t, parse_task_line_at (lit "- [ ] **[t-010]** Bold id (coder)") 4 = Some t /\ raw t = lit "- [ ] **[t-010]** Bold id (coder)".
Proof.
  eexists. split; [vm_compute; reflexivity|].
  apply (parse_spans_valid (lit "- [ ] **[t-010]** Bold id (coder)") 4). vm_compute. reflexivity.
Defined.

Lemma checked_line_roundtrip_witness :
  exists a box b, lit "- ( ) (t-018) Paren" = a ++ box ++ b.
Proof.
  destruct (checked_line_roundtrip (lit "- ( ) (t-018) Paren") 0
    (default (build [] [] [] 0) (parse_task_line (lit "- ( ) (t-018) Paren"))))
    as (a & box & b & _ & _ & H & _); [vm_compute; reflexivity|vm_compute; reflexivity|].
  exists a, box, b. exact H.
Defined.

Lemma render_line_roundtrip_witness :
  exists t, parse_task_line_at
    (render_line Unchecked (lit "t-001") (lit "Investigate library X") NoValidate (Some Researcher)) 7
    = Some t /\ validation_directive t = NoValidate.
Proof.
  destruct (render_line_roundtrip Unchecked (lit "t-001") (lit "Investigate library X") NoValidate
    (Some Researcher) 7) as (t & Ht & _ & _ & _ & Hd & _).
  - reflexivity.
  - repeat constructor.
  - split; [by split|]. by split.
  - exists t. split; [exact Ht|exact Hd].
Defined.

Lemma line_matches_task_id_sound_witness :
  task_id_of_line (lit "see t-100a and t-100 here") = None.
Proof.
  destruct (line_matches_task_id_sound (lit "see t-100a and t-100 here") (lit "[T-100]"))
    as [H|[H _]].
  - vm_compute. reflexivity.
  - exfalso. revert H. vm_compute. discriminate.
  - exact H.
Defined.
End witnesses.
