(* ===== verification/Markers.v ===== *)
(** * The mission-marker grammar ([src/markers.rs])

    The verdict parser of a deliverable and the vocabulary to test, build and
    rewrite markers.  The parser finds occurrences in a folded, blanked copy of
    the text and slices the original at their byte offsets: the definitions
    that slice return an [outcome], whose [Panic] is Rust's. *)

From S2P Require Import Prelude Str Regex TaskId Agents PlanParse.

(** ** Vocabulary *)

Definition MARKER_COMPLETE : str := lit "MISSION COMPLETE".
Definition MARKER_FAILED : str := lit "FAILED".
Definition MARKER_REPLAN : str := lit "REPLAN REQUIRED".
Definition COMPLETE_UPPER : str := lit "MISSION COMPLETE".
Definition FAILED_UPPER : str := lit "FAILED".
Definition REPLAN_UPPER : str := lit "REPLAN REQUIRED".
Definition BENIGN_FAILURE_COUNTERS : list str :=
  [lit "0 TESTS FAILED"; lit "0 TEST FAILED"; lit "0 FAILED"].
Definition REVOCATION_TOKEN : str := lit "REVOKED".
Definition ABORT_REASON : str := lit "aborted".
Definition FAILED_PAREN_PREFIX : str := lit "FAILED (".
Definition FAILED_COLON_PREFIX : str := lit "FAILED:".
Definition FAILURE_VERDICT_WORDS : list str :=
  [lit "REJECTED"; lit "REJECT"; lit "FAIL"; lit "FAILED"; lit "DECLINED"; lit "DECLINE";
   lit "DISAPPROVED"].
Definition FAILURE_PROSE_CUES : list str := [lit "REJECT"; lit "FAILED"; lit "FAILURE"].
Definition FAILURE_WORD_STEMS : list str := [lit "fail"].

(** ** Data *)

Inductive MissionMarker :=
  | Complete (task_id : option str)
  | Failed (reason : str)
  | Replan (reason : str).

Inductive MarkerKind := KReplan | KFailed | KComplete.
Inductive Placement := LineStart | TerminalLine | Embedded.

#[export] Instance MarkerKind_eq_dec : EqDecision MarkerKind.
Proof. solve_decision. Defined.
#[export] Instance Placement_eq_dec : EqDecision Placement.
Proof. solve_decision. Defined.

Record Occurrence := {
  kind : MarkerKind;
  start : nat;
  stop : nat;
  placement : Placement;
  negated : bool;
  shaped : bool
}.

Record LineMap := { starts : list nat; terminal_line : nat }.

Inductive ReasonShape := Parenthesis | ColonLine | OptionalParenThenColonLine.
Record FailureVerdict := { prefix : str; shape : ReasonShape }.
Definition FAILURE_VERDICTS : list FailureVerdict :=
  [ {| prefix := MARKER_REPLAN; shape := OptionalParenThenColonLine |};
    {| prefix := FAILED_PAREN_PREFIX; shape := Parenthesis |};
    {| prefix := FAILED_COLON_PREFIX; shape := ColonLine |} ].
Definition failure_verdicts : list FailureVerdict := FAILURE_VERDICTS.

Definition is_complete (m : MissionMarker) : bool :=
  match m with Complete _ => true | _ => false end.
Definition is_failure (m : MissionMarker) : bool :=
  match m with Failed _ | Replan _ => true | Complete _ => false end.

(** ** Search helpers *)

(** [find_all]: the non-overlapping occurrences of [needle], as byte ranges;
    [from] is the offset of [s] in the haystack. *)
Fixpoint find_all_from (fuel : nat) (from : nat) (s needle : str) : list (nat * nat) :=
  match fuel with
  | 0 => []
  | S fuel' =>
      match find_split needle s with
      | None => []
      | Some (a, rest) =>
          let start := from + blen a in
          let stop := start + blen needle in
          (start, stop) :: find_all_from fuel' stop rest needle
      end
  end.
Definition find_all (hay needle : str) : list (nat * nat) :=
  find_all_from (S (length hay)) 0 hay needle.

(** Blanking one benign phrase: [while let Some(pos) = out.find(phrase)]. *)
Fixpoint blank_phrase (fuel : nat) (phrase out : str) : str :=
  match fuel with
  | 0 => out
  | S fuel' =>
      match find_split phrase out with
      | None => out
      | Some (a, rest) => blank_phrase fuel' phrase (a ++ replicate (blen phrase) 32%N ++ rest)
      end
  end.
Definition sanitize_failure_counters (upper : str) : str :=
  fold_left (fun out phrase => blank_phrase (S (length out)) phrase out)
    BENIGN_FAILURE_COUNTERS upper.

Definition contains_failed_marker (upper : str) : bool :=
  contains FAILED_UPPER (sanitize_failure_counters upper).

(** The byte offsets just past each newline; [off] is the offset of [s]. *)
Fixpoint line_starts (off : nat) (s : str) : list nat :=
  match s with
  | [] => []
  | c :: s' => if (c =? NL)%N then (off + len_utf8 c) :: line_starts (off + len_utf8 c) s'
               else line_starts (off + len_utf8 c) s'
  end.

(** A panicking slice [s[i..j]], [s[i..]]. *)
Definition slice (s : str) (i j : nat) : outcome str := unwrap (get s i j).
Definition slice_from (s : str) (i : nat) : outcome str := unwrap (get_from s i).

(** The loop of [line_map] that finds the last non-empty line. *)
Fixpoint terminal_loop (text : str) (starts rest : list nat) (idx acc : nat) : outcome nat :=
  match rest with
  | [] => Ret acc
  | line_start :: rest' =>
      let line_end := default (blen text) (starts !! (idx + 1)) in
      l ← slice text line_start line_end;
      terminal_loop text starts rest' (S idx) (if is_empty (trim l) then acc else idx)
  end.

Definition line_map (text : str) : outcome LineMap :=
  let starts := 0 :: line_starts 0 text in
  t ← terminal_loop text starts starts 0 0;
  Ret {| starts := starts; terminal_line := t |}.

(** [slice::binary_search] on a strictly sorted slice: the index of [x], or the
    number of smaller elements. *)
Definition binary_search (l : list nat) (x : nat) : nat + nat :=
  let i := length (List.filter (fun y => y <? x) l) in
  match l !! i with
  | Some y => if y =? x then inl i else inr i
  | None => inr i
  end.

Definition placement_of (pos : nat) (map : LineMap) (sanitized : str) : outcome Placement :=
  let idx := match binary_search (starts map) pos with inl i => i | inr i => i - 1 end in
  line_start ← unwrap (starts map !! idx);
  l ← slice sanitized line_start pos;
  Ret (if is_empty (trim l) then LineStart
       else if idx =? terminal_line map then TerminalLine else Embedded).

Definition placement_rank (p : Placement) : nat :=
  match p with LineStart => 0 | TerminalLine => 1 | Embedded => 2 end.

(** The window start: the first character boundary at or after [win]. *)
Fixpoint boundary_up (fuel : nat) (s : str) (win stop : nat) : nat :=
  match fuel with
  | 0 => win
  | S fuel' => if (win <? stop) && negb (is_char_boundary s win)
               then boundary_up fuel' s (win + 1) stop else win
  end.

(** The window end: the last character boundary at or before [win]. *)
Fixpoint boundary_down (fuel : nat) (s : str) (win start : nat) : nat :=
  match fuel with
  | 0 => win
  | S fuel' => if (start <? win) && negb (is_char_boundary s win)
               then boundary_down fuel' s (win - 1) start else win
  end.

Definition first_non_empty_line (text : str) : str :=
  default [] (find_first (fun line => negb (is_empty (trim line))) (lines text)).

Section markers.
Context `{U : Unicode}.

Definition WS : re := RSet is_whitespace.
Definition APOS : re := ROpt (RChar (ch "'")).

(** The negation cues, in the order of the pattern. *)
Definition NEGATION_CUES : re :=
  RAlts [
    RLitI (lit "not"); RLitI (lit "no"); RLitI (lit "never"); RLitI (lit "without");
    RLitI (lit "cannot");
    RSeqs [RLitI (lit "can"); RStar WS; RLitI (lit "not")];
    RSeqs [RLitI (lit "don"); APOS; RLitI (lit "t")];
    RSeqs [RLitI (lit "didn"); APOS; RLitI (lit "t")];
    RSeqs [RLitI (lit "doesn"); APOS; RLitI (lit "t")];
    RSeqs [RLitI (lit "won"); APOS; RLitI (lit "t")];
    RSeqs [RLitI (lit "woul"); APOS; RLitI (lit "d"); RStar WS; RLitI (lit "not")];
    RSeq (RLitI (lit "omit"))
      (ROpt (RAlts [RLitI (lit "s"); RLitI (lit "ted"); RLitI (lit "ting")]));
    RLitI (lit "missing");
    RSeq (RLitI (lit "lack")) (ROpt (RLitI (lit "s")));
    RLitI (lit "lacking"); RLitI (lit "absent")
  ].

Definition NEGATED_BEFORE_RE : re :=
  RSeqs [RWordB; NEGATION_CUES; RWordB;
         RUpTo 30 (RSet (fun c => negb (existsb (N.eqb c) (lit ".!?" ++ [NL])))); REnd].

Definition negated_before (sanitized : str) (start : nat) : outcome bool :=
  let win := boundary_up (S start) sanitized (start - 64) start in
  w ← slice sanitized win start;
  Ret (is_match NEGATED_BEFORE_RE w).

Definition verdict_shaped (sanitized : str) (stop : nat) : outcome bool :=
  rest ← slice_from sanitized stop;
  Ret (match trim_start rest with
       | c :: _ => (c =? ch ":")%N || (c =? ch "(")%N
       | [] => false
       end).

(** ** Occurrences *)

Fixpoint mapM_outcome {A B} (f : A -> outcome B) (l : list A) : outcome (list B) :=
  match l with
  | [] => Ret []
  | x :: l' => y ← f x; ys ← mapM_outcome f l'; Ret (y :: ys)
  end.

Definition classify (hay : str) (map : LineMap) (k : MarkerKind) (range : nat * nat)
    : outcome Occurrence :=
  let '(s, e) := range in
  p ← placement_of s map hay;
  n ← negated_before hay s;
  v ← (if bool_decide (k = KFailed) then verdict_shaped hay e else Ret false);
  Ret {| kind := k; start := s; stop := e; placement := p; negated := n; shaped := v |}.

Definition occurrences (text : str) : outcome (list Occurrence) :=
  let upper := to_ascii_uppercase text in
  let hay := sanitize_failure_counters upper in
  map ← line_map text;
  rs ← mapM_outcome (classify hay map KReplan) (find_all hay REPLAN_UPPER);
  fs ← mapM_outcome (classify hay map KFailed) (find_all hay FAILED_UPPER);
  cs ← mapM_outcome (classify hay map KComplete) (find_all hay COMPLETE_UPPER);
  Ret (rs ++ fs ++ cs).

Definition of_kind (k : MarkerKind) (o : Occurrence) : bool := bool_decide (kind o = k).
Definition find (os : list Occurrence) (k : MarkerKind) : option Occurrence :=
  find_first (of_kind k) os.

(** ** Task ids of a marker line *)

Definition bound_task_id (text : str) (o : Occurrence) : outcome (option str) :=
  rest ← slice_from text (stop o);
  let line_end := match find_char NL rest with
                  | Some rel => stop o + rel
                  | None => blen text
                  end in
  let window_end := max (min line_end (stop o + 120)) (stop o) in
  let window_end := boundary_down (S window_end) text window_end (start o) in
  w ← slice text (start o) window_end;
  Ret (find_task_id_token w).

Fixpoint first_bound_task_id (text : str) (candidates : list Occurrence) : outcome (option str) :=
  match candidates with
  | [] => Ret None
  | o :: os => r ← bound_task_id text o;
               match r with
               | Some id => Ret (Some id)
               | None => first_bound_task_id text os
               end
  end.

(** [bound_task_id(text, o).or_else(|| first_bound_task_id(text, candidates))] *)
Definition complete_with_id (text : str) (o : Occurrence) (candidates : list Occurrence)
    : outcome (option MissionMarker) :=
  id ← bound_task_id text o;
  id' ← (match id with Some _ => Ret id | None => first_bound_task_id text candidates end);
  Ret (Some (Complete id')).

(** [Iterator::min_by_key] with the placement rank: the first minimum. *)
Fixpoint min_by_rank (os : list Occurrence) : option Occurrence :=
  match os with
  | [] => None
  | o :: os' => match min_by_rank os' with
                | None => Some o
                | Some m => if placement_rank (placement m) <? placement_rank (placement o)
                            then Some m else Some o
                end
  end.

Definition authoritative_failure (o : Occurrence) : bool :=
  of_kind KFailed o && (bool_decide (placement o = LineStart) || shaped o).
Definition authoritative_complete (o : Occurrence) : bool :=
  of_kind KComplete o && negb (negated o) &&
  (bool_decide (placement o = LineStart) || bool_decide (placement o = TerminalLine)).
Definition complete_mention (o : Occurrence) : bool := of_kind KComplete o && negb (negated o).

(** [MissionMarker::parse] *)
Definition parse (text : str) : outcome (option MissionMarker) :=
  os ← occurrences text;
  if is_empty os then Ret None
  else if match find os KReplan with Some _ => true | None => false end
  then Ret (Some (Replan text))
  else if existsb authoritative_failure os then Ret (Some (Failed text))
  else
    let authoritative := List.filter authoritative_complete os in
    match min_by_rank authoritative with
    | Some o => complete_with_id text o authoritative
    | None =>
        if match find os KFailed with Some _ => true | None => false end
        then Ret (Some (Failed text))
        else
          let mentions := List.filter complete_mention os in
          match mentions with
          | o :: _ => complete_with_id text o mentions
          | [] => Ret None
          end
    end.

(** [MissionMarker::resolve] *)
Definition resolve (explicit : option MissionMarker) (body : str)
    : outcome (option MissionMarker) :=
  match explicit with
  | Some m => Ret (Some m)
  | None => parse body
  end.

(** ** Testing *)

Definition has_complete_marker (text : str) : bool :=
  contains COMPLETE_UPPER (to_ascii_uppercase text).
Definition has_replan_marker (text : str) : bool :=
  contains REPLAN_UPPER (to_ascii_uppercase text).
Definition has_failure_marker (text : str) : bool :=
  contains_failed_marker (to_ascii_uppercase text).
Definition has_terminal_marker (text : str) : bool :=
  let upper := to_ascii_uppercase text in
  contains COMPLETE_UPPER upper || contains REPLAN_UPPER upper || contains_failed_marker upper.

Definition starts_with_complete (text : str) : bool :=
  match get_to text (blen COMPLETE_UPPER) with
  | Some head => eq_ignore_ascii_case head COMPLETE_UPPER
  | None => false
  end.

Definition whole_marker_token (sanitized : str) (stop : nat) : outcome bool :=
  rest ← slice_from sanitized stop;
  Ret (match rest with
       | next :: _ => negb (is_alphanumeric next || (next =? ch "_")%N)
       | [] => true
       end).

(** The [any] over the occurrences of the revocation token; the second test
    runs only when the first holds. *)
Fixpoint any_revoked (upper : str) (map : LineMap) (ranges : list (nat * nat)) : outcome bool :=
  match ranges with
  | [] => Ret false
  | (s, e) :: ranges' =>
      p ← placement_of s map upper;
      whole ← (if bool_decide (p = LineStart) then whole_marker_token upper e else Ret false);
      if (whole : bool) then Ret true else any_revoked upper map ranges'
  end.

Definition has_revocation_marker (text : str) : outcome bool :=
  let upper := to_ascii_uppercase text in
  if contains COMPLETE_UPPER upper then Ret false
  else
    map ← line_map upper;
    any_revoked upper map (find_all upper REVOCATION_TOKEN).

(** ** Building *)

Definition decorated (marker tid : str) : str := marker ++ lit " (" ++ tid ++ lit ")".
Definition failed_trailer (context : str) : str := MARKER_FAILED ++ lit " (" ++ context ++ lit ")".
Definition aborted_deliverable (context : str) : str :=
  lit "Task " ++ context ++ lit "." ++ [NL; NL] ++ failed_trailer ABORT_REASON.

(** ** Failure reasons *)

Definition reason_candidate (shape : ReasonShape) (after : str) : option str :=
  match shape with
  | Parenthesis => fst <$> find_split (lit ")") after
  | ColonLine => Some (first_non_empty_line after)
  | OptionalParenThenColonLine =>
      let after := trim_start after in
      let after := if starts_with (lit "(") after then
                     match find_split (lit ")") after with
                     | Some (_, rest) => rest
                     | None => after
                     end
                   else after in
      Some (first_non_empty_line (default after (strip_prefix (lit ":") after)))
  end.

Definition failure_reason (text : str) : option str :=
  find_map (fun verdict =>
    match find_split (prefix verdict) text with
    | None => None
    | Some (_, after) =>
        match reason_candidate (shape verdict) after with
        | Some c => let reason := trim c in if is_empty reason then None else Some reason
        | None => None
        end
    end) FAILURE_VERDICTS.

Definition is_failure_verdict_word (value : str) : bool :=
  existsb (fun word => eq_ignore_ascii_case value word) FAILURE_VERDICT_WORDS.
Definition has_failure_verdict_cue (upper : str) : bool :=
  existsb (fun cue => contains cue upper) FAILURE_PROSE_CUES.
(** [str::to_lowercase] up to its final-sigma rule, which only affects a Greek
    letter and never a stem. *)
Definition has_failure_word (text : str) : bool :=
  let lower := to_lowercase text in
  existsb (fun stem => contains stem lower) FAILURE_WORD_STEMS.

(** ** Rewriting *)

(** [String::replace_range] *)
Definition replace_range (s : str) (i j : nat) (by_ : str) : outcome str :=
  if i <=? j then
    a ← unwrap (get_to s i);
    b ← unwrap (get_from s j);
    Ret (a ++ by_ ++ b)
  else Panic.

Fixpoint replace_ranges (out : str) (ranges : list (nat * nat)) : outcome str :=
  match ranges with
  | [] => Ret out
  | (s, e) :: ranges' => out' ← replace_range out s e REVOCATION_TOKEN;
                         replace_ranges out' ranges'
  end.

Definition revoke_completion (text : str) : outcome str :=
  let upper := to_ascii_uppercase text in
  replace_ranges text (rev (find_all upper COMPLETE_UPPER)).
End markers.
