(* ===== verification/MarkersFacts.v ===== *)
(** * Facts about the mission-marker grammar

    The verdict parser never panics, its verdicts agree with the presence
    tests, a failure on its own line always wins, and a revoked text carries
    no completion marker any more. *)

From S2P Require Import Prelude Str Regex TaskId Agents PlanParse PlanParseFacts Markers.
From Stdlib Require Import Sorting.Sorted.

(** ** Texts of the same shape *)

(** Two characters that take the same bytes and break lines alike. *)
Definition alike (c d : char) : Prop := len_utf8 c = len_utf8 d /\ (c = NL <-> d = NL).

Lemma alike_refl c : alike c c.
Proof. done. Qed.

Lemma alike_blen s t : Forall2 alike s t -> blen s = blen t.
Proof. induction 1 as [|c d s t [Hl _] _ IH]; [done|]. rewrite !blen_cons. lia. Qed.

Lemma Forall2_alike_refl s : Forall2 alike s s.
Proof. induction s; constructor; auto using alike_refl. Qed.

Lemma alike_upper s : Forall2 alike s (to_ascii_uppercase s).
Proof.
  induction s as [|c s IH]; simpl; constructor; [|done]. split.
  - by rewrite len_utf8_to_ascii_upper.
  - unfold to_ascii_upper, is_ascii_lower. destruct (in_range 97 122 c) eqn:E; [char_lia|done].
Qed.

Lemma alike_trans s t u : Forall2 alike s t -> Forall2 alike t u -> Forall2 alike s u.
Proof.
  intros H. revert u. induction H as [|c d s t [Hl Hn] _ IH]; intros u Hu; inversion Hu as [|? e ? u' [? ?] ?]; subst; constructor.
  - split; [congruence|tauto].
  - auto.
Qed.

(** Splits transfer between texts of the same shape. *)
Lemma alike_split s t a b :
  Forall2 alike s t -> s = a ++ b ->
  exists a' b', t = a' ++ b' /\ Forall2 alike a a' /\ Forall2 alike b b'.
Proof. intros H ->. apply Forall2_app_inv_l in H as (a' & b' & ? & ? & ->). eauto. Qed.

(** A byte offset is a boundary when it splits the text. *)
Definition boundary (s : str) (i : nat) : Prop := exists a b, s = a ++ b /\ blen a = i.

Lemma boundary_alike s t i : Forall2 alike s t -> boundary s i -> boundary t i.
Proof.
  intros H (a & b & Hs & <-). destruct (alike_split _ _ _ _ H Hs) as (a' & b' & -> & Ha & _).
  exists a', b'. split; [done|]. symmetry. by apply alike_blen.
Qed.

Lemma boundary_iff s i : is_char_boundary s i = true <-> boundary s i.
Proof.
  unfold is_char_boundary, boundary. destruct (split_at s i) as [[a b]|] eqn:E.
  - apply split_at_Some in E as [-> <-]. split; eauto.
  - split; [done|]. intros (a & b & -> & <-). by rewrite split_at_app in E.
Qed.

Lemma boundary_0 s : boundary s 0.
Proof. by exists [], s. Qed.

Lemma boundary_end s : boundary s (blen s).
Proof. exists s, []. by rewrite app_nil_r. Qed.

(** Slicing between two boundaries is defined. *)
Lemma slice_ok s i j :
  boundary s i -> boundary s j -> i <= j -> exists m, slice s i j = Ret m.
Proof.
  intros (a & b & Hs & <-) (c & d & Hs' & <-) Hle. subst s.
  unfold slice. apply List.app_eq_app in Hs' as [k [[-> ->]|[-> ->]]].
  - rewrite blen_app in Hle. assert (Hk : blen k = 0) by lia. apply blen_0 in Hk as ->.
    exists []. rewrite (get_slice _ c [] b); rewrite ?app_nil_r, ?blen_nil; done || lia.
  - exists k. by rewrite (get_slice _ a k d); rewrite ?blen_app.
Qed.

Lemma slice_from_ok s i : boundary s i -> exists m, slice_from s i = Ret m.
Proof. intros (a & b & -> & <-). exists b. unfold slice_from. by rewrite get_from_app. Qed.

(** ** Blanking *)

(** Two occurrences whose heads are foreign to each other do not overlap. *)
Lemma no_overlap (x ph y p m b : str) h hm :
  x ++ ph ++ y = p ++ m ++ b -> head ph = Some h -> head m = Some hm -> h ∉ m -> hm ∉ ph ->
  (exists z, p = x ++ ph ++ z /\ y = z ++ m ++ b) \/
  (exists z, b = z ++ ph ++ y /\ x = p ++ m ++ z).
Proof.
  intros Heq Hh Hm Hnh Hnm.
  apply List.app_eq_app in Heq as [k [[-> Heq]|[-> Heq]]].
  - right. apply List.app_eq_app in Heq as [l [[-> Heq]|[-> ->]]].
    + destruct l as [|c l]; [|destruct ph; simplify_eq/=; set_solver].
      rewrite app_nil_r in *. exists []. by rewrite app_nil_r.
    + by exists l.
  - left. apply List.app_eq_app in Heq as [l [[-> Heq]|[-> ->]]].
    + destruct l as [|c l]; [|destruct m; simplify_eq/=; set_solver].
      rewrite app_nil_r in *. exists []. by rewrite app_nil_r.
    + by exists l.
Qed.

(** A needle whose ends are not blank and without two adjacent blanks does not
    overlap a run of two or more blanks. *)
Lemma no_overlap_blank (x y p m b : str) n :
  x ++ replicate (S (S n)) 32%N ++ y = p ++ m ++ b ->
  head m <> Some 32%N -> last m <> Some 32%N -> m <> [] ->
  (forall u w, m <> u ++ [32%N; 32%N] ++ w) ->
  (exists z, p = x ++ replicate (S (S n)) 32%N ++ z /\ y = z ++ m ++ b) \/
  (exists z, b = z ++ replicate (S (S n)) 32%N ++ y /\ x = p ++ m ++ z).
Proof.
  intros Heq Hh Hl Hne Hdd.
  apply List.app_eq_app in Heq as [k [[-> Heq]|[-> Heq]]].
  - right. apply List.app_eq_app in Heq as [l [[-> Heq]|[-> ->]]]; [|by exists l].
    destruct l as [|c l]; [rewrite app_nil_r in *; exists []; by rewrite app_nil_r|].
    exfalso. cbn [replicate app] in Heq. injection Heq as <- Heq.
    destruct l as [|d l]; [by rewrite last_snoc in Hl|].
    injection Heq as <- _. by apply (Hdd k l).
  - left. apply List.app_eq_app in Heq as [l [[Hr Heq]|[-> ->]]]; [|by exists l].
    destruct l as [|c l]; [rewrite app_nil_r in *; subst k; exists []; by rewrite app_nil_r|].
    exfalso. assert (Hc : c ∈ replicate (S (S n)) 32%N) by (rewrite Hr; set_solver).
    apply elem_of_replicate in Hc as [-> _]. destruct m; simplify_eq/=.
Qed.

(** One benign phrase, and what blanking it may touch. *)
Definition benign (ph : str) : Prop :=
  head ph = Some (ch "0") /\ Forall (fun c => is_ascii c = true /\ c <> NL) ph /\
  2 <= length ph /\ ch "M" ∉ ph /\ ch "R" ∉ ph.

Lemma benign_counters : Forall benign BENIGN_FAILURE_COUNTERS.
Proof.
  assert (Hb : forall ph, head ph = Some (ch "0") ->
    forallb (fun c => is_ascii c && negb (c =? NL)%N && negb (c =? ch "M")%N && negb (c =? ch "P")%N && negb (c =? ch "R")%N) ph = true ->
    2 <= length ph -> benign ph).
  { intros ph Hh Hall Hlen. rewrite forallb_forall in Hall.
    assert (Hf : forall c, c ∈ ph -> is_ascii c = true /\ c <> NL /\ c <> ch "M" /\ c <> ch "P" /\ c <> ch "R").
    { intros c Hc%list_elem_of_In%Hall. bool_simpl. done. }
    split_and!; try done; try (intros Hin; by apply Hf in Hin; naive_solver).
    apply Forall_forall. intros c Hc. split; apply (Hf c Hc). }
  unfold BENIGN_FAILURE_COUNTERS.
  repeat first [apply Forall_nil_2 | apply Forall_cons_2];
    (apply Hb; [reflexivity|reflexivity|cbv; lia]).
Qed.

Lemma benign_alike ph : benign ph -> Forall2 alike ph (replicate (blen ph) 32%N).
Proof.
  intros (_ & H & _). induction H as [|c ph [Ha Hn] _ IH]; [constructor|].
  rewrite blen_cons, (len_utf8_ascii c Ha). simpl. constructor; [|done].
  split; [by rewrite (len_utf8_ascii c Ha)|]. split; [congruence|]. by intros [=].
Qed.

Lemma benign_blen ph : benign ph -> exists n, blen ph = S (S n).
Proof.
  intros (_ & _ & Hl & _). exists (blen ph - 2). pose proof (length_le_blen ph). lia.
Qed.

(** An invariant of blanking one benign occurrence is an invariant of the
    sanitizer. *)
Lemma sanitize_ind (P : str -> Prop) upper :
  (forall ph a b, benign ph -> P (a ++ ph ++ b) -> P (a ++ replicate (blen ph) 32%N ++ b)) ->
  P upper -> P (sanitize_failure_counters upper).
Proof.
  intros Hstep. unfold sanitize_failure_counters. revert upper.
  induction benign_counters as [|ph phs Hph _ IH]; intros upper HP; [done|].
  cbn [fold_left]. apply IH. generalize (S (length upper)) as n. intros n. revert upper HP.
  induction n as [|n IHn]; intros upper HP; [done|]. cbn [blank_phrase].
  destruct (find_split ph upper) as [[a b]|] eqn:E; [|done].
  apply IHn. apply find_split_Some in E as ->. by apply Hstep.
Qed.

Lemma sanitize_alike upper : Forall2 alike upper (sanitize_failure_counters upper).
Proof.
  apply (sanitize_ind (Forall2 alike upper)); [|apply Forall2_alike_refl].
  intros ph a b Hph H. eapply alike_trans; [exact H|].
  apply Forall2_app; [apply Forall2_alike_refl|].
  apply Forall2_app; [by apply benign_alike|apply Forall2_alike_refl].
Qed.

Lemma hay_alike text : Forall2 alike text (sanitize_failure_counters (to_ascii_uppercase text)).
Proof. eapply alike_trans; [apply alike_upper|apply sanitize_alike]. Qed.

(** A needle foreign to the benign phrases is kept by blanking, and blanking
    creates no occurrence of it. *)
Definition foreign (m : str) : Prop :=
  m <> [] /\ (exists h, head m = Some h /\ h <> 32%N /\ forall ph, benign ph -> h ∉ ph) /\
  ch "0" ∉ m /\ last m <> Some 32%N /\ (forall u w, m <> u ++ [32%N; 32%N] ++ w).

Lemma foreign_step m ph a b :
  foreign m -> benign ph ->
  contains m (a ++ replicate (blen ph) 32%N ++ b) = contains m (a ++ ph ++ b).
Proof.
  intros (Hne & (h & Hh & Hsp & Hfor) & H0 & Hl & Hdd) Hph. apply eq_true_iff_eq.
  rewrite !contains_true. pose proof Hph as (Hh0 & _). destruct (benign_blen ph Hph) as [n Hn].
  split; intros (p & q & Heq).
  - rewrite Hn in Heq. apply no_overlap_blank in Heq; [|congruence|done..].
    destruct Heq as [(z & -> & ->)|(z & -> & ->)].
    + exists (a ++ ph ++ z), q. by rewrite <-!app_assoc.
    + exists p, (z ++ ph ++ b). by rewrite <-!app_assoc.
  - apply (no_overlap _ _ _ _ _ _ (ch "0") h) in Heq; [|done|done|done|by apply Hfor].
    destruct Heq as [(z & -> & ->)|(z & -> & ->)].
    + exists (a ++ replicate (blen ph) 32%N ++ z), q. by rewrite <-!app_assoc.
    + exists p, (z ++ replicate (blen ph) 32%N ++ b). by rewrite <-!app_assoc.
Qed.

Lemma foreign_sanitize m upper :
  foreign m -> contains m (sanitize_failure_counters upper) = contains m upper.
Proof.
  intros Hm. apply (sanitize_ind (fun s => contains m s = contains m upper)); [|done].
  intros ph a b Hph H. by rewrite foreign_step.
Qed.

Lemma foreign_replan : foreign REPLAN_UPPER.
Proof.
  split; [done|]. split; [exists (ch "R"); split_and!; [done|done|by intros ph (_ & _ & _ & _ & ?)]|].
  split_and!; [by apply (bool_decide_unpack _)|done|].
  intros u w H. assert (contains (lit "  ") REPLAN_UPPER = true); [|done].
  apply contains_true. by exists u, w.
Qed.

Lemma foreign_complete : foreign COMPLETE_UPPER.
Proof.
  split; [done|]. split; [exists (ch "M"); split_and!; [done|done|by intros ph (_ & _ & _ & ? & _)]|].
  split_and!; [by apply (bool_decide_unpack _)|done|].
  intros u w H. assert (contains (lit "  ") COMPLETE_UPPER = true); [|done].
  apply contains_true. by exists u, w.
Qed.

(** ** Occurrence search *)

Lemma find_all_from_spec fuel pre s needle i j :
  (i, j) ∈ find_all_from fuel (blen pre) s needle ->
  exists a b, pre ++ s = a ++ needle ++ b /\ blen a = i /\ j = i + blen needle.
Proof.
  revert pre s. induction fuel as [|fuel IH]; intros pre s; cbn [find_all_from]; [set_solver|].
  destruct (find_split needle s) as [[a rest]|] eqn:E; [|set_solver].
  apply find_split_Some in E as ->. intros [H|H]%elem_of_cons.
  - simplify_eq. exists (pre ++ a), rest. by rewrite blen_app, <-app_assoc.
  - rewrite <-!blen_app in H. apply IH in H as (a' & b' & Heq & ? & ?).
    exists a', b'. rewrite <-Heq, <-!app_assoc. done.
Qed.

Lemma find_all_spec hay needle i j :
  (i, j) ∈ find_all hay needle ->
  exists a b, hay = a ++ needle ++ b /\ blen a = i /\ j = i + blen needle.
Proof. apply (find_all_from_spec _ []). Qed.

Lemma find_all_boundaries hay needle i j :
  (i, j) ∈ find_all hay needle -> boundary hay i /\ boundary hay j /\ i <= j.
Proof.
  intros (a & b & -> & <- & ->)%find_all_spec. split_and!; [| |lia].
  - by exists a, (needle ++ b).
  - exists (a ++ needle), b. by rewrite <-app_assoc, blen_app.
Qed.

Lemma find_split_None needle s : find_split needle s = None <-> contains needle s = false.
Proof. unfold contains. rewrite find_split_str. by destruct (find_split needle s). Qed.

Lemma find_all_nil hay needle : find_all hay needle = [] <-> contains needle hay = false.
Proof.
  unfold find_all. cbn [find_all_from]. rewrite <-find_split_None.
  by destruct (find_split needle hay) as [[a b]|].
Qed.

(** ** The line map *)

Lemma line_starts_spec pre s i :
  i ∈ line_starts (blen pre) s <-> exists a b, s = a ++ NL :: b /\ i = blen (pre ++ a ++ [NL]).
Proof.
  revert pre. induction s as [|c s IH]; intros pre; cbn [line_starts].
  - split; [set_solver|]. intros ([|? ?] & ? & ? & _); done.
  - assert (Hpre : blen pre + len_utf8 c = blen (pre ++ [c])) by (rewrite blen_app, blen_cons, blen_nil; lia).
    destruct (N.eqb_spec c NL) as [->|Hc]; rewrite Hpre.
    + rewrite elem_of_cons, IH. split.
      * intros [->|(a & b & -> & ->)]; [by exists [], s|].
        exists (NL :: a), b. by rewrite <-app_assoc.
      * intros ([|c a] & b & Heq & ->); simplify_eq/=; [by left|right].
        exists a, b. by rewrite <-app_assoc.
    + rewrite IH. split.
      * intros (a & b & -> & ->). exists (c :: a), b. by rewrite <-app_assoc.
      * intros ([|d a] & b & Heq & ->); simplify_eq/=. exists a, b. by rewrite <-app_assoc.
Qed.

Lemma line_starts_gt off s i : i ∈ line_starts off s -> off < i.
Proof.
  revert off. induction s as [|c s IH]; intros off; cbn [line_starts]; [set_solver|].
  pose proof (len_utf8_pos c). destruct (c =? NL)%N.
  - intros [->|H']%elem_of_cons; [lia|]. apply IH in H'. lia.
  - intros H'%IH. lia.
Qed.

Lemma line_starts_sorted off s : StronglySorted lt (off :: line_starts off s).
Proof.
  constructor.
  - revert off. induction s as [|c s IH]; intros off; cbn [line_starts]; [constructor|].
    destruct (c =? NL)%N; [|apply IH]. constructor; [apply IH|].
    apply Forall_forall. intros i. apply line_starts_gt.
  - apply Forall_forall. intros i. apply line_starts_gt.
Qed.

Definition starts_of (text : str) : list nat := 0 :: line_starts 0 text.

Lemma starts_boundary text i : i ∈ starts_of text -> boundary text i.
Proof.
  unfold starts_of. intros [->|H]%elem_of_cons; [apply boundary_0|].
  apply (line_starts_spec []) in H as (a & b & -> & ->). exists (a ++ [NL]), b.
  by rewrite <-app_assoc.
Qed.

(** In a strictly sorted list, the search index separates the smaller elements. *)
Lemma sorted_filter_lt l x k y :
  StronglySorted lt l -> l !! k = Some y ->
  (y < x <-> k < length (List.filter (fun y => y <? x) l)).
Proof.
  intros Hs. revert k. induction Hs as [|z l Hs IH Hz]; intros k Hk; [done|].
  cbn [List.filter]. destruct (Nat.ltb_spec z x) as [Hzx|Hzx].
  - destruct k as [|k]; simpl in *; [simplify_eq; lia|]. rewrite (IH k Hk). lia.
  - assert (Hnil : List.filter (fun y => y <? x) l = []).
    { clear -Hz Hzx. induction Hz as [|w l Hw _ IH]; [done|]. cbn [List.filter].
      destruct (Nat.ltb_spec w x); [lia|]. done. }
    rewrite Hnil. simpl. destruct k as [|k]; simpl in Hk; [simplify_eq; lia|].
    rewrite Forall_forall in Hz. apply list_elem_of_lookup_2, Hz in Hk. lia.
Qed.

Lemma sorted_lookup_lt l i j x y :
  StronglySorted lt l -> l !! i = Some x -> l !! j = Some y -> i < j -> x < y.
Proof.
  intros Hs. revert i j. induction Hs as [|z l Hs IH Hz]; intros i j Hi Hj Hij; [done|].
  destruct j as [|j]; [lia|]. simpl in Hj. destruct i as [|i]; simpl in Hi.
  - simplify_eq. rewrite Forall_forall in Hz. by eapply Hz, list_elem_of_lookup_2.
  - eapply (IH i j); auto; lia.
Qed.

(** The index the placement uses is that of the last line start at or before
    the position. *)
Lemma binary_search_start text pos :
  exists idx ls,
    match binary_search (starts_of text) pos with inl i => i | inr i => i - 1 end = idx /\
    starts_of text !! idx = Some ls /\ ls <= pos /\
    (forall k y, starts_of text !! k = Some y -> y <= pos -> k <= idx).
Proof.
  pose proof (line_starts_sorted 0 text) as Hs. fold (starts_of text) in Hs.
  unfold binary_search. set (n := length (List.filter _ (starts_of text))).
  assert (Hlt : forall k y, starts_of text !! k = Some y -> (y < pos <-> k < n))
    by (intros k y Hk; by apply sorted_filter_lt).
  assert (Hlen : n <= length (starts_of text)) by apply List.filter_length_le.
  assert (Hprev : 0 < n -> exists z, starts_of text !! (n - 1) = Some z /\ z < pos).
  { intros Hn. destruct (lookup_lt_is_Some_2 (starts_of text) (n - 1)) as [z Hz]; [lia|].
    exists z. split; [done|]. apply (Hlt _ _ Hz). lia. }
  pose proof (Hlt 0 0 eq_refl) as H0.
  destruct (starts_of text !! n) as [y|] eqn:En.
  - pose proof (Hlt n y En) as Hy. destruct (Nat.eqb_spec y pos) as [->|Hne].
    + exists n, pos. split_and!; try done. intros k y Hk Hle.
      destruct (decide (k <= n)) as [|Hkn]; [done|].
      pose proof (sorted_lookup_lt _ n k pos y Hs En Hk). lia.
    + assert (Hn : 0 < n).
      { destruct (decide (0 < n)); [done|]. replace n with 0 in En by lia.
        injection En as <-. lia. }
      destruct (Hprev Hn) as (z & Hz & Hzp). exists (n - 1), z. split_and!; [done|done|lia|].
      intros k y' Hk Hle. destruct (decide (y' < pos)) as [Hlt'|Hge].
      * apply (Hlt k y' Hk) in Hlt'. lia.
      * destruct (decide (k = n)) as [->|Hkn]; [simplify_eq; lia|].
        destruct (decide (n < k)) as [Hnk|]; [|lia].
        pose proof (sorted_lookup_lt _ n k y y' Hs En Hk). lia.
  - apply lookup_ge_None in En.
    assert (Hn : 0 < n) by (unfold starts_of in En; simpl in *; lia).
    destruct (Hprev Hn) as (z & Hz & Hzp). exists (n - 1), z. split_and!; [done|done|lia|].
    intros k y' Hk _. apply lookup_lt_Some in Hk. lia.
Qed.

(** ** No slice is out of range *)

Lemma terminal_loop_total text rest idx acc :
  drop idx (starts_of text) = rest ->
  exists t, terminal_loop text (starts_of text) rest idx acc = Ret t.
Proof.
  revert idx acc. induction rest as [|ls rest IH]; intros idx acc Hd; [by exists acc|].
  cbn [terminal_loop].
  assert (Hls : starts_of text !! idx = Some ls).
  { rewrite <-(Nat.add_0_r idx), <-lookup_drop, Hd. done. }
  assert (Hnext : boundary text (default (blen text) (starts_of text !! (idx + 1))) /\
                  ls <= default (blen text) (starts_of text !! (idx + 1))).
  { destruct (starts_of text !! (idx + 1)) as [n|] eqn:En; simpl.
    - split; [by eapply starts_boundary, list_elem_of_lookup_2|].
      pose proof (sorted_lookup_lt _ idx (idx + 1) ls n (line_starts_sorted 0 text) Hls En). lia.
    - split; [apply boundary_end|].
      destruct (starts_boundary text ls) as (a & b & -> & <-); [by eapply list_elem_of_lookup_2|].
      rewrite blen_app. lia. }
  destruct (slice_ok text ls (default (blen text) (starts_of text !! (idx + 1)))) as [m Hm];
    [by eapply starts_boundary, list_elem_of_lookup_2|apply Hnext|apply Hnext|].
  rewrite Hm. cbn [mbind outcome_bind]. apply IH.
  apply drop_S in Hls. rewrite Hd in Hls. by injection Hls.
Qed.

Lemma line_map_total text : exists t,
  line_map text = Ret {| starts := starts_of text; terminal_line := t |}.
Proof.
  unfold line_map. fold (starts_of text).
  destruct (terminal_loop_total text (starts_of text) 0 0 eq_refl) as [t Ht].
  exists t. by rewrite Ht.
Qed.

Lemma slice_to_ok s t i j :
  Forall2 alike s t -> i <= j -> boundary s i -> boundary t j -> exists m, slice t i j = Ret m.
Proof. intros H Hle Hi Hj. apply slice_ok; [by eapply boundary_alike|done|done]. Qed.

Lemma placement_of_total text hay t pos :
  Forall2 alike text hay -> boundary hay pos ->
  exists p, placement_of pos {| starts := starts_of text; terminal_line := t |} hay = Ret p.
Proof.
  intros Ha Hpos. unfold placement_of. cbn [starts terminal_line].
  destruct (binary_search_start text pos) as (idx & ls & -> & Hls & Hle & _).
  rewrite Hls. cbn [unwrap mbind outcome_bind].
  destruct (slice_to_ok text hay ls pos) as [m ->]; eauto.
  by eapply starts_boundary, list_elem_of_lookup_2.
Qed.

Lemma boundary_up_ok fuel s win stop :
  boundary s stop -> win <= stop -> stop - win < fuel ->
  boundary s (boundary_up fuel s win stop) /\ boundary_up fuel s win stop <= stop.
Proof.
  intros Hb. revert win. induction fuel as [|fuel IH]; intros win Hw Hf; [lia|].
  cbn [boundary_up]. destruct (is_char_boundary s win) eqn:E.
  - rewrite andb_false_r. split; [by apply boundary_iff|done].
  - destruct (Nat.ltb_spec win stop); simpl; [apply IH; lia|].
    by replace win with stop by lia.
Qed.

Lemma boundary_down_ok fuel s win start :
  boundary s start -> start <= win -> win - start < fuel ->
  boundary s (boundary_down fuel s win start) /\ start <= boundary_down fuel s win start <= win.
Proof.
  intros Hb. revert win. induction fuel as [|fuel IH]; intros win Hw Hf; [lia|].
  cbn [boundary_down]. destruct (is_char_boundary s win) eqn:E.
  - rewrite andb_false_r. split; [by apply boundary_iff|lia].
  - destruct (Nat.ltb_spec start win); simpl.
    + destruct (IH (win - 1)) as (? & ?); [lia..|]. split; [done|lia].
    + by replace win with start by lia.
Qed.

Section markers.
Context `{U : Unicode}.

Lemma negated_before_total hay pos : boundary hay pos -> exists b, negated_before hay pos = Ret b.
Proof.
  intros Hb. unfold negated_before.
  destruct (boundary_up_ok (S pos) hay (pos - 64) pos Hb) as (Hw & Hle); [lia..|].
  destruct (slice_ok _ _ _ Hw Hb Hle) as [m ->]. eauto.
Qed.

Lemma verdict_shaped_total hay pos : boundary hay pos -> exists b, verdict_shaped hay pos = Ret b.
Proof. intros Hb. unfold verdict_shaped. destruct (slice_from_ok _ _ Hb) as [m ->]. eauto. Qed.

Lemma classify_total text hay t k i j :
  Forall2 alike text hay -> boundary hay i -> boundary hay j ->
  exists o, classify hay {| starts := starts_of text; terminal_line := t |} k (i, j) = Ret o /\
    kind o = k /\ start o = i /\ stop o = j /\
    placement_of i {| starts := starts_of text; terminal_line := t |} hay = Ret (placement o) /\
    negated_before hay i = Ret (negated o) /\
    (k = KFailed -> verdict_shaped hay j = Ret (shaped o)).
Proof.
  intros Ha Hi Hj. unfold classify.
  destruct (placement_of_total text hay t i Ha Hi) as [p Hp]. rewrite Hp.
  destruct (negated_before_total hay i Hi) as [n Hn]. cbn [mbind outcome_bind]. rewrite Hn.
  cbn [mbind outcome_bind].
  destruct (verdict_shaped_total hay j Hj) as [v Hv].
  case_bool_decide.
  - rewrite Hv. cbn [mbind outcome_bind]. eexists. split; [done|]. by split_and!.
  - cbn [mbind outcome_bind]. eexists. split; [done|]. by split_and!.
Qed.

Lemma mapM_outcome_ok {A B} (f : A -> outcome B) (R : A -> B -> Prop) l :
  (forall x, x ∈ l -> exists y, f x = Ret y /\ R x y) ->
  exists ys, mapM_outcome f l = Ret ys /\ Forall2 R l ys.
Proof.
  induction l as [|x l IH]; intros H; [by exists []|]. cbn [mapM_outcome].
  destruct (H x) as (y & -> & Hy); [by left|].
  destruct IH as (ys & Hys & HR); [intros z Hz; apply H; by right|].
  cbn [mbind outcome_bind]. rewrite Hys. cbn [mbind outcome_bind]. eauto.
Qed.

(** What the classification of one byte range records. *)
Definition classified (text hay : str) (t : nat) (k : MarkerKind) (r : nat * nat) (o : Occurrence)
    : Prop :=
  kind o = k /\ start o = r.1 /\ stop o = r.2 /\
  boundary hay r.1 /\ boundary hay r.2 /\ r.1 <= r.2 /\
  placement_of r.1 {| starts := starts_of text; terminal_line := t |} hay = Ret (placement o) /\
  (k = KFailed -> verdict_shaped hay r.2 = Ret (shaped o)).

Lemma classify_all text hay t k needle :
  Forall2 alike text hay ->
  exists os, mapM_outcome (classify hay {| starts := starts_of text; terminal_line := t |} k)
               (find_all hay needle) = Ret os /\
    Forall2 (classified text hay t k) (find_all hay needle) os.
Proof.
  intros Ha. apply mapM_outcome_ok. intros [i j] H.
  apply find_all_boundaries in H as (Hi & Hj & Hle).
  destruct (classify_total text hay t k i j Ha Hi Hj) as (o & -> & ? & ? & ? & ? & ? & ?).
  exists o. split; [done|]. by split_and!.
Qed.

(** The haystack of the parser. *)
Definition hay_of (text : str) : str := sanitize_failure_counters (to_ascii_uppercase text).

Lemma occurrences_total text :
  exists t rs fs cs, occurrences text = Ret (rs ++ fs ++ cs) /\
    line_map text = Ret {| starts := starts_of text; terminal_line := t |} /\
    Forall2 (classified text (hay_of text) t KReplan) (find_all (hay_of text) REPLAN_UPPER) rs /\
    Forall2 (classified text (hay_of text) t KFailed) (find_all (hay_of text) FAILED_UPPER) fs /\
    Forall2 (classified text (hay_of text) t KComplete) (find_all (hay_of text) COMPLETE_UPPER) cs.
Proof.
  pose proof (hay_alike text) as Ha. fold (hay_of text) in Ha.
  destruct (line_map_total text) as [t Ht].
  destruct (classify_all text (hay_of text) t KReplan REPLAN_UPPER Ha) as (rs & Hr & Hrs).
  destruct (classify_all text (hay_of text) t KFailed FAILED_UPPER Ha) as (fs & Hf & Hfs).
  destruct (classify_all text (hay_of text) t KComplete COMPLETE_UPPER Ha) as (cs & Hc & Hcs).
  exists t, rs, fs, cs. split; [|done].
  unfold occurrences. fold (hay_of text). rewrite Ht. cbn [mbind outcome_bind].
  rewrite Hr. cbn [mbind outcome_bind]. rewrite Hf. cbn [mbind outcome_bind]. by rewrite Hc.
Qed.

(** *** Consequences of the occurrence list *)

Lemma find_kind_app k os1 os2 :
  find (os1 ++ os2) k = match find os1 k with Some o => Some o | None => find os2 k end.
Proof. unfold find. induction os1 as [|o os1 IH]; simpl; [done|]. by destruct (of_kind k o). Qed.

Lemma find_kind_other text hay t k k' rs os :
  Forall2 (classified text hay t k) rs os -> k <> k' -> find os k' = None.
Proof.
  intros H Hne. unfold find. induction H as [|r o rs os [Hk _] _ IH]; [done|].
  cbn [find_first]. unfold of_kind. by rewrite bool_decide_eq_false_2 by congruence.
Qed.

Lemma find_kind_same text hay t k rs os :
  Forall2 (classified text hay t k) rs os -> (find os k = None <-> rs = []).
Proof.
  intros H. unfold find. destruct H as [|r o rs os [Hk _] _]; [done|].
  cbn [find_first]. unfold of_kind. by rewrite bool_decide_eq_true_2.
Qed.

Lemma hay_replan text : contains REPLAN_UPPER (hay_of text) = has_replan_marker text.
Proof. apply foreign_sanitize, foreign_replan. Qed.
Lemma hay_complete text : contains COMPLETE_UPPER (hay_of text) = has_complete_marker text.
Proof. apply foreign_sanitize, foreign_complete. Qed.

Lemma bound_task_id_total text hay t k r o :
  Forall2 alike text hay -> classified text hay t k r o ->
  exists id, bound_task_id text o = Ret id.
Proof.
  intros Ha (_ & Hs & He & Hbs & Hbe & Hle & _). rewrite <-Hs in *. rewrite <-He in *.
  assert (Hr : forall i, boundary hay i -> boundary text i).
  { intros i (a & b & -> & <-). apply Forall2_app_inv_r in Ha as (a' & b' & Ha & _ & ->).
    exists a', b'. split; [done|]. by apply alike_blen. }
  apply Hr in Hbs, Hbe. unfold bound_task_id.
  destruct (slice_from_ok _ _ Hbe) as [rest Hrest]. rewrite Hrest. cbn [mbind outcome_bind].
  set (le := match find_char NL rest with Some rel => stop o + rel | None => blen text end).
  set (w := max (min le (stop o + 120)) (stop o)).
  destruct (boundary_down_ok (S w) text w (start o) Hbs) as (Hw & Hlo & _); [lia..|].
  destruct (slice_ok _ _ _ Hbs Hw Hlo) as [m ->]. by eexists.
Qed.

Lemma first_bound_total text os :
  Forall (fun o => exists id, bound_task_id text o = Ret id) os ->
  exists id, first_bound_task_id text os = Ret id.
Proof.
  induction 1 as [|o os [id Hid] _ [id' IH]]; cbn [first_bound_task_id]; [by eexists|].
  rewrite Hid. cbn [mbind outcome_bind]. destruct id; eauto.
Qed.

Lemma complete_with_id_total text o os :
  (exists id, bound_task_id text o = Ret id) ->
  Forall (fun o => exists id, bound_task_id text o = Ret id) os ->
  exists id, complete_with_id text o os = Ret (Some (Complete id)).
Proof.
  intros [id Hid] Hos. unfold complete_with_id. rewrite Hid. cbn [mbind outcome_bind].
  destruct id as [id|]; cbn [mbind outcome_bind]; [by eexists|].
  destruct (first_bound_total text os Hos) as [id' ->]. by eexists.
Qed.

Lemma min_by_rank_in os o : min_by_rank os = Some o -> o ∈ os.
Proof.
  revert o. induction os as [|x os IH]; intros o; cbn [min_by_rank]; [done|].
  destruct (min_by_rank os) as [m|].
  - case_match; intros [= <-]; [right; by apply IH|by left].
  - intros [= <-]. by left.
Qed.

Lemma filter_bool_elem {A} (p : A -> bool) l x : x ∈ List.filter p l -> x ∈ l /\ p x = true.
Proof. intros H%list_elem_of_In%List.filter_In. by rewrite list_elem_of_In. Qed.

(** What the verdict needs of one occurrence. *)
Definition sound_occ (text : str) (o : Occurrence) : Prop :=
  (exists id, bound_task_id text o = Ret id) /\
  match kind o with
  | KReplan => has_replan_marker text = true
  | KFailed => has_failure_marker text = true
  | KComplete => has_complete_marker text = true
  end.

Lemma classified_sound text hay t k rs os :
  Forall2 alike text hay -> Forall2 (classified text hay t k) rs os ->
  match k with
  | KReplan => rs <> [] -> has_replan_marker text = true
  | KFailed => rs <> [] -> has_failure_marker text = true
  | KComplete => rs <> [] -> has_complete_marker text = true
  end -> Forall (sound_occ text) os.
Proof.
  intros Ha H Hk. destruct (decide (rs = [])) as [->|Hne]; [inversion H; constructor|].
  assert (Hk' : match k with
    | KReplan => has_replan_marker text = true | KFailed => has_failure_marker text = true
    | KComplete => has_complete_marker text = true end) by (destruct k; auto).
  clear Hk Hne. induction H as [|r o rs os Hc _ IH]; constructor; [|done]. split.
  - by eapply bound_task_id_total.
  - by destruct Hc as [-> _].
Qed.

Lemma occurrences_sound text : exists os, occurrences text = Ret os /\ Forall (sound_occ text) os /\
  (find os KReplan = None <-> has_replan_marker text = false) /\
  (find os KFailed = None <-> has_failure_marker text = false).
Proof.
  destruct (occurrences_total text) as (t & rs & fs & cs & Hos & _ & Hrs & Hfs & Hcs).
  exists (rs ++ fs ++ cs). split; [done|].
  assert (Hr : find_all (hay_of text) REPLAN_UPPER = [] <-> has_replan_marker text = false)
    by (rewrite <-hay_replan; apply find_all_nil).
  assert (Hf : find_all (hay_of text) FAILED_UPPER = [] <-> has_failure_marker text = false)
    by apply find_all_nil.
  assert (Hc : find_all (hay_of text) COMPLETE_UPPER = [] <-> has_complete_marker text = false)
    by (rewrite <-hay_complete; apply find_all_nil).
  assert (Hb : forall (P : Prop) b, (P <-> b = false) -> ~ P -> b = true)
    by (intros P []; naive_solver).
  pose proof (hay_alike text) as Ha. fold (hay_of text) in Ha.
  split_and!.
  - rewrite !Forall_app. split_and!; (eapply classified_sound; [exact Ha|eassumption|]); simpl; eauto.
  - rewrite !find_kind_app, (find_kind_other _ _ _ _ KReplan _ _ Hfs) by done.
    rewrite (find_kind_other _ _ _ _ KReplan _ _ Hcs) by done.
    rewrite <-Hr, <-(find_kind_same _ _ _ _ _ _ Hrs). by destruct (find rs KReplan).
  - rewrite !find_kind_app, (find_kind_other _ _ _ _ KFailed _ _ Hrs) by done.
    rewrite (find_kind_other _ _ _ _ KFailed _ _ Hcs) by done.
    rewrite <-Hf, <-(find_kind_same _ _ _ _ _ _ Hfs). by destruct (find fs KFailed).
Qed.

Lemma sound_complete text o os p :
  Forall (sound_occ text) os -> o ∈ List.filter p os -> (p o = true -> kind o = KComplete) ->
  has_complete_marker text = true /\
  exists id, complete_with_id text o (List.filter p os) = Ret (Some (Complete id)).
Proof.
  rewrite Forall_forall. intros H Ho Hk. pose proof (filter_bool_elem _ _ _ Ho) as [Hin Hp].
  destruct (H o Hin) as [Hid Hkind]. rewrite (Hk Hp) in Hkind. split; [done|].
  apply complete_with_id_total; [done|]. apply Forall_forall. intros x Hx.
  by apply (H x), (filter_bool_elem p).
Qed.

(** The verdict of every text: which tests it implies. *)
Lemma parse_cases text :
  exists m, parse text = Ret m /\
    match m with
    | Some (Replan r) => r = text /\ has_replan_marker text = true
    | Some (Failed r) =>
        r = text /\ has_replan_marker text = false /\ has_failure_marker text = true
    | Some (Complete _) => has_replan_marker text = false /\ has_complete_marker text = true
    | None => has_replan_marker text = false /\ has_failure_marker text = false
    end.
Proof.
  destruct (occurrences_sound text) as (os & Hos & Hs & Hr & Hf).
  unfold parse. rewrite Hos. cbn [mbind outcome_bind].
  destruct os as [|o0 os0] eqn:Eos; cbn [is_empty]; [exists None; by rewrite <-Hr, <-Hf|].
  rewrite <-Eos in *. clear Eos Hos.
  destruct (find os KReplan) as [ro|] eqn:Er.
  { exists (Some (Replan text)). split; [done|]. split; [done|].
    destruct (has_replan_marker text); [done|]. naive_solver. }
  assert (Hr' : has_replan_marker text = false) by by apply Hr.
  assert (Hff : forall o, o ∈ os -> kind o = KFailed -> has_failure_marker text = true).
  { intros o Ho Hk. rewrite Forall_forall in Hs. destruct (Hs o Ho) as [_ Hm]. by rewrite Hk in Hm. }
  destruct (existsb authoritative_failure os) eqn:Ea.
  { exists (Some (Failed text)). split_and!; try done.
    apply existsb_exists in Ea as (o & Ho%list_elem_of_In & Hao).
    unfold authoritative_failure, of_kind in Hao. bool_simpl.
    apply (Hff o Ho). by eapply bool_decide_eq_true_1. }
  destruct (min_by_rank (List.filter authoritative_complete os)) as [o|] eqn:Em.
  { apply min_by_rank_in in Em. 
    edestruct (sound_complete text o os _ Hs Em) as (Hc & id & Hid); [|by exists (Some (Complete id))].
    unfold authoritative_complete, of_kind. intros. bool_simpl. by eapply bool_decide_eq_true_1. }
  destruct (find os KFailed) as [fo|] eqn:Ef.
  { exists (Some (Failed text)). split_and!; try done.
    destruct (has_failure_marker text); [done|]. naive_solver. }
  destruct (List.filter complete_mention os) as [|o ms] eqn:Ec.
  { exists None. split_and!; [done|done|by apply Hf]. }
  assert (Ho : o ∈ List.filter complete_mention os) by (rewrite Ec; by left).
  edestruct (sound_complete text o os _ Hs Ho) as (Hc & id & Hid);
    [|rewrite Ec in Hid; by exists (Some (Complete id))].
  unfold complete_mention, of_kind. intros. bool_simpl. by eapply bool_decide_eq_true_1.
Qed.

(** *** A failure on its own line *)

(** [FAILED] is found wherever it stands: its head occurs nowhere else in it. *)
Lemma find_split_min needle s a b a' b' :
  find_split needle s = Some (a, b) -> s = a' ++ needle ++ b' -> length a <= length a'.
Proof.
  revert a a'. induction s as [|c s IH]; intros a a'; cbn [find_split];
    destruct (strip_prefix needle _) as [r|] eqn:E; try done; try (intros [= <- _]; simpl; lia).
  destruct (find_split needle s) as [[x y]|] eqn:E'; [|done]. intros [= <- ->] Heq.
  destruct a' as [|d a']; simpl in Heq.
  - apply strip_prefix_Some in Heq. congruence.
  - injection Heq as _ Heq. simpl. specialize (IH x a' eq_refl Heq). lia.
Qed.

Lemma next_occurrence (h : char) (t r k q : str) :
  (h :: t) ++ r = k ++ (h :: t) ++ q -> k <> [] -> h ∉ t ->
  exists l, k = (h :: t) ++ l /\ r = l ++ (h :: t) ++ q.
Proof.
  intros Heq Hk Hh. apply List.app_eq_app in Heq as [l [[Hht Heq]|[-> ->]]]; [|by exists l].
  destruct l as [|d l].
  - rewrite app_nil_r in Hht. subst k. exists []. by rewrite app_nil_r.
  - exfalso. destruct k as [|c k]; [done|]. simpl in *. simplify_eq. set_solver.
Qed.

Lemma find_all_from_complete fuel pre p q h t :
  length (p ++ (h :: t) ++ q) < fuel -> h ∉ t ->
  (blen (pre ++ p), blen (pre ++ p ++ h :: t)) ∈
    find_all_from fuel (blen pre) (p ++ (h :: t) ++ q) (h :: t).
Proof.
  intros Hf Hh. revert pre p Hf. induction fuel as [|fuel IH]; intros pre p Hf; [lia|].
  cbn [find_all_from]. destruct (find_split (h :: t) (p ++ (h :: t) ++ q)) as [[a r]|] eqn:E.
  - pose proof (find_split_min _ _ _ _ p q E eq_refl) as Hmin.
    pose proof (find_split_Some _ _ _ _ E) as Heq. apply elem_of_cons.
    destruct (decide (a = p)) as [->|Hne]; [left; rewrite !blen_app; f_equal; lia|right].
    apply List.app_eq_app in Heq as [k [[-> Heq]|[-> Heq]]].
    + apply next_occurrence in Heq as (l & -> & ->); [|by intros ->; rewrite app_nil_r in Hne|done].
      replace (blen pre + blen a + _) with (blen (pre ++ a ++ h :: t)) by (rewrite !blen_app; lia).
      rewrite <-!app_assoc in Hf. rewrite !length_app in Hf.
      specialize (IH (pre ++ a ++ h :: t) l). rewrite <-!app_assoc in *. apply IH.
      rewrite !length_app. simpl in *. lia.
    + rewrite length_app in Hmin. destruct k; [by rewrite app_nil_r in Hne|simpl in *; lia].
  - apply find_split_None in E. assert (contains (h :: t) (p ++ (h :: t) ++ q) = true); [|congruence].
    apply contains_true. eauto.
Qed.

Lemma find_all_complete p q h t :
  h ∉ t -> exists j, (blen p, j) ∈ find_all (p ++ (h :: t) ++ q) (h :: t).
Proof. intros Hh. eexists. apply (find_all_from_complete _ [] p q h t); [lia|done]. Qed.

(** Blanking keeps a line that starts with a foreign word. *)
Definition opens_line (ws w s : str) (n : nat) : Prop :=
  exists p b, NL :: s = p ++ (NL :: ws ++ w) ++ b /\ blen p = n.

Lemma opens_line_step ws w ph a b n :
  benign ph -> ch "0" ∉ ws ++ w ->
  opens_line ws w (a ++ ph ++ b) n -> opens_line ws w (a ++ replicate (blen ph) 32%N ++ b) n.
Proof.
  intros Hph H0 (p & r & Heq & <-). pose proof Hph as (Hh & Hall & _).
  destruct (no_overlap (NL :: a) ph b p (NL :: ws ++ w) r (ch "0") NL)
    as [(z & -> & ->)|(z & -> & Ha)]; try done.
  - intros [|H]%elem_of_cons; done.
  - intros Hin. rewrite Forall_forall in Hall. by apply Hall in Hin as [_ ?].
  - exists (NL :: a ++ replicate (blen ph) 32%N ++ z), r. split.
    + simpl. by rewrite <-!app_assoc.
    + rewrite blen_cons, !blen_app, blen_cons.
      rewrite <-(alike_blen _ _ (benign_alike ph Hph)). lia.
  - exists p, (z ++ replicate (blen ph) 32%N ++ b). split; [|done].
    change (NL :: a ++ ?x) with ((NL :: a) ++ x). rewrite Ha. by rewrite <-!app_assoc.
Qed.

Lemma opens_line_sanitize ws w upper n :
  ch "0" ∉ ws ++ w -> opens_line ws w upper n ->
  opens_line ws w (sanitize_failure_counters upper) n.
Proof.
  intros H0. apply (sanitize_ind (fun s => opens_line ws w s n)).
  intros ph a b Hph. by apply opens_line_step.
Qed.

Lemma to_ascii_upper_NL : to_ascii_upper NL = NL.
Proof. reflexivity. Qed.

Lemma opens_line_upper ws w text n :
  opens_line ws w text n ->
  opens_line (to_ascii_uppercase ws) (to_ascii_uppercase w) (to_ascii_uppercase text) n.
Proof.
  intros (p & b & Heq & <-). apply (f_equal to_ascii_uppercase) in Heq.
  unfold to_ascii_uppercase in *. exists (map to_ascii_upper p), (map to_ascii_upper b).
  rewrite !map_app in Heq. cbn [map] in Heq. rewrite to_ascii_upper_NL, map_app in Heq.
  split; [done|]. symmetry. apply alike_blen, alike_upper.
Qed.

Lemma whitespace_upper ws :
  Forall (fun c => is_whitespace c = true) ws ->
  Forall (fun c => is_whitespace c = true) (to_ascii_uppercase ws) /\
  Forall (fun c => c <> ch "0") (to_ascii_uppercase ws).
Proof.
  intros H. assert (Hid : to_ascii_uppercase ws = ws).
  { induction H as [|c ws Hc _ IH]; simpl; [done|]. f_equal; [|done].
    unfold to_ascii_upper, is_ascii_lower. destruct (in_range 97 122 c) eqn:E; [|done].
    revert Hc. char_lia. }
  rewrite Hid. split; [done|]. eapply Forall_impl; [exact H|]. intros c Hc ->. done.
Qed.

Lemma line_starts_alike off s t : Forall2 alike s t -> line_starts off s = line_starts off t.
Proof.
  intros H. revert off. induction H as [|c d s t [Hl Hn] _ IH]; intros off; [done|].
  cbn [line_starts]. rewrite Hl. destruct (N.eqb_spec c NL), (N.eqb_spec d NL); try tauto.
  - by rewrite IH.
  - by rewrite IH.
Qed.

Lemma blen_prefix_inj (a b c d : str) : a ++ b = c ++ d -> blen a = blen c -> a = c.
Proof.
  intros Heq Hl. pose proof (split_at_app a b) as H1. rewrite Heq, Hl, split_at_app in H1.
  by injection H1.
Qed.

Lemma trim_blank ws : Forall (fun c => is_whitespace c = true) ws -> trim ws = [].
Proof.
  intros H. assert (Hd : drop_while is_whitespace ws = []).
  { by rewrite <-(app_nil_r ws), drop_while_app_all. }
  cbv [trim trim_start trim_end trim_matches trim_start_matches trim_end_matches]. by rewrite Hd.
Qed.

Lemma lower_eq_upper_eq s t :
  to_ascii_lowercase s = to_ascii_lowercase t -> to_ascii_uppercase s = to_ascii_uppercase t.
Proof.
  assert (Hc : forall c, to_ascii_upper (to_ascii_lower c) = to_ascii_upper c).
  { intros c. unfold to_ascii_upper, to_ascii_lower, is_ascii_lower, is_ascii_upper, in_range.
    repeat case_match; lia. }
  intros H%(f_equal (map to_ascii_upper)). unfold to_ascii_lowercase in H.
  rewrite !map_map in H. unfold to_ascii_uppercase. etrans; [|etrans; [exact H|]];
    apply map_ext; intros; by rewrite Hc.
Qed.

(** The position right after an opened line's blanks is at a line start. *)
Lemma opens_line_start ws w hay n :
  opens_line ws w hay n -> exists a b, hay = a ++ ws ++ w ++ b /\ blen a = n /\ n ∈ starts_of hay.
Proof.
  unfold starts_of. intros ([|c p] & b & Heq & <-); injection Heq as.
  - exists [], b. subst hay. rewrite <-app_assoc. split_and!; [done|done|by left].
  - subst. exists (p ++ [NL]), b. split_and!.
    + by rewrite <-!app_assoc.
    + rewrite blen_app, !blen_cons, blen_nil. lia.
    + right. apply (line_starts_spec []). exists p, ((ws ++ w) ++ b). split; [done|].
      rewrite app_nil_l, blen_app, !blen_cons, blen_nil. lia.
Qed.

Lemma opens_line_placement text hay t ws w n :
  Forall2 alike text hay -> opens_line ws w hay n -> Forall (fun c => is_whitespace c = true) ws ->
  placement_of (n + blen ws) {| starts := starts_of text; terminal_line := t |} hay
  = Ret LineStart.
Proof.
  intros Ha Ho Hws. unfold placement_of. cbn [starts terminal_line].
  assert (Hst : starts_of text = starts_of hay)
    by (unfold starts_of; by rewrite (line_starts_alike 0 text hay)).
  rewrite Hst. destruct (opens_line_start _ _ _ _ Ho) as (a & b & Hhay & <- & Hin).
  destruct (binary_search_start hay (blen a + blen ws)) as (idx & ls & -> & Hls & Hle & Hmax).
  rewrite Hls. cbn [unwrap mbind outcome_bind].
  assert (Hals : blen a <= ls).
  { apply list_elem_of_lookup in Hin as [k Hk]. specialize (Hmax k _ Hk ltac:(lia)).
    destruct (decide (k = idx)) as [->|Hne]; [simplify_eq; lia|].
    pose proof (sorted_lookup_lt _ k idx _ _ (line_starts_sorted 0 hay) Hk Hls). lia. }
  destruct (starts_boundary hay ls) as (c & d & Hcd & <-); [by eapply list_elem_of_lookup_2|].
  assert (Hsplit := Hhay). rewrite Hcd in Hsplit.
  assert (Hk : exists k m, c = a ++ k /\ ws = k ++ m).
  { apply List.app_eq_app in Hsplit as [k [[-> Heq]|[-> Heq]]].
    - rewrite blen_app in Hle. apply List.app_eq_app in Heq as [m [[-> _]|[-> _]]]; [by eauto|].
      rewrite blen_app in Hle. assert (blen m = 0) as ->%blen_0 by lia.
      exists ws, []. by rewrite !app_nil_r.
    - rewrite blen_app in Hals. assert (blen k = 0) as ->%blen_0 by lia.
      exists [], ws. by rewrite !app_nil_r. }
  destruct Hk as (k & m & -> & ->). rewrite Hhay.
  unfold slice. rewrite <-!app_assoc, (app_assoc a k), (get_slice _ (a ++ k) m (w ++ b));
    rewrite ?blen_app; [|done..|lia].
  cbn [unwrap mbind outcome_bind]. apply Forall_app in Hws as [_ Hm]. by rewrite (trim_blank m Hm).
Qed.

Lemma failed_line_verdict text ws f n :
  Forall (fun c => is_whitespace c = true) ws ->
  to_ascii_uppercase f = MARKER_FAILED -> opens_line ws f text n ->
  parse text = Ret (Some (if has_replan_marker text then Replan text else Failed text)).
Proof.
  intros Hws Hf Ho. destruct (whitespace_upper ws Hws) as [Hws' Hz].
  apply opens_line_upper in Ho. rewrite Hf in Ho.
  apply opens_line_sanitize in Ho.
  2: { intros [Hin|Hin]%elem_of_app; [rewrite Forall_forall in Hz; by apply Hz in Hin|].
       revert Hin. by apply (bool_decide_unpack _). }
  destruct (occurrences_total text) as (t & rs & fs & cs & Hos & _ & Hrs & Hfs & Hcs).
  pose proof (hay_alike text) as Ha. fold (hay_of text) in Ha, Ho.
  pose proof (opens_line_placement text (hay_of text) t _ _ _ Ha Ho Hws') as Hpl.
  destruct (opens_line_start _ _ _ _ Ho) as (a & b & Hhay & <- & _).
  destruct (find_all_complete (a ++ to_ascii_uppercase ws) b (ch "F") (lit "AILED")) as [j Hj];
    [by apply (bool_decide_unpack _)|].
  change (ch "F" :: lit "AILED") with MARKER_FAILED in Hj.
  rewrite <-app_assoc, <-Hhay, blen_app in Hj.
  destruct (Forall2_elem_l _ _ _ _ Hfs Hj) as (o & Ho' & Hk & _ & _ & _ & _ & _ & Hp & _).
  cbn [fst] in Hp. rewrite Hpl in Hp. injection Hp as Hp.
  destruct (parse_cases text) as (m & Hm & Hcase). revert Hm. unfold parse. rewrite Hos.
  cbn [mbind outcome_bind]. set (os := rs ++ fs ++ cs).
  assert (Hin : o ∈ os) by (unfold os; rewrite !elem_of_app; tauto).
  assert (Hex : existsb authoritative_failure os = true).
  { apply existsb_exists. exists o. split; [by apply list_elem_of_In|].
    unfold authoritative_failure, of_kind. by rewrite Hk, <-Hp. }
  destruct os as [|o' os'] eqn:Eos; [by apply not_elem_of_nil in Hin|]. cbn [is_empty].
  rewrite <-Eos in *. rewrite Hex. destruct (find os KReplan); intros [= <-].
  - by destruct Hcase as [_ ->].
  - by destruct Hcase as (_ & -> & _).
Qed.

End markers.

(** ** Revoking completions *)

(** The reference: replace the first completion marker, go on behind it. *)
Fixpoint revoke_ref (fuel : nat) (text : str) : str :=
  match fuel with
  | 0 => text
  | S fuel' =>
      match find_split COMPLETE_UPPER (to_ascii_uppercase text) with
      | None => text
      | Some (a, _) =>
          take (length a) text ++ REVOCATION_TOKEN ++
          revoke_ref fuel' (drop (length a + length COMPLETE_UPPER) text)
      end
  end.

Lemma replace_ranges_snoc out l s e :
  replace_ranges out (l ++ [(s, e)]) = (o ← replace_ranges out l; replace_range o s e REVOCATION_TOKEN).
Proof.
  revert out. induction l as [|[i j] l IH]; intros out; cbn [replace_ranges app].
  - cbn [mbind outcome_bind]. by destruct (replace_range out s e REVOCATION_TOKEN).
  - destruct (replace_range out i j REVOCATION_TOKEN) as [o|]; [apply IH|done].
Qed.

(** A text whose head has no marker and ends before the token stays clean. *)
Lemma no_marker_token a b :
  contains COMPLETE_UPPER a = false -> contains COMPLETE_UPPER b = false ->
  contains COMPLETE_UPPER (a ++ REVOCATION_TOKEN ++ b) = false.
Proof.
  intros Ha Hb. apply not_true_iff_false. intros (p & q & Heq)%contains_true.
  apply (no_overlap _ _ _ _ _ _ (ch "R") (ch "M")) in Heq; [|done|done|by apply (bool_decide_unpack _)..].
  destruct Heq as [(z & -> & ->)|(z & -> & ->)].
  - apply not_true_iff_false in Hb. apply Hb, contains_true. eauto.
  - apply not_true_iff_false in Ha. apply Ha, contains_true. eauto.
Qed.

Lemma find_split_clean needle s a b :
  needle <> [] -> find_split needle s = Some (a, b) -> contains needle a = false.
Proof.
  intros Hne H. apply not_true_iff_false. intros (p & q & ->)%contains_true.
  pose proof (find_split_Some _ _ _ _ H) as Hs. rewrite <-!app_assoc in Hs.
  pose proof (find_split_min _ _ _ _ p _ H Hs) as Hmin. rewrite !length_app in Hmin.
  destruct needle; simpl in *; [done|lia].
Qed.

(** Splitting a text along a split of its uppercase form. *)
Lemma upper_split text a m b :
  to_ascii_uppercase text = a ++ m ++ b ->
  exists a' m' b', text = a' ++ m' ++ b' /\
    to_ascii_uppercase a' = a /\ to_ascii_uppercase m' = m /\ to_ascii_uppercase b' = b.
Proof.
  intros H. unfold to_ascii_uppercase in *. apply map_eq_app in H as (a' & r & -> & <- & H).
  apply map_eq_app in H as (m' & b' & -> & <- & <-). by exists a', m', b'.
Qed.

Lemma upper_blen s : blen (to_ascii_uppercase s) = blen s.
Proof. symmetry. apply alike_blen, alike_upper. Qed.

Lemma upper_length s : length (to_ascii_uppercase s) = length s.
Proof. apply length_map. Qed.

Lemma revoke_from fuel pre text :
  length text < fuel ->
  replace_ranges (pre ++ text)
    (rev (find_all_from fuel (blen pre) (to_ascii_uppercase text) COMPLETE_UPPER)) =
    Ret (pre ++ revoke_ref fuel text) /\
  has_complete_marker (revoke_ref fuel text) = false.
Proof.
  revert pre text. induction fuel as [|fuel IH]; intros pre text Hf; [lia|].
  cbn [find_all_from revoke_ref].
  destruct (find_split COMPLETE_UPPER (to_ascii_uppercase text)) as [[a b]|] eqn:E.
  2: { split; [done|]. by apply find_split_None in E. }
  pose proof (find_split_clean COMPLETE_UPPER _ _ _ ltac:(done) E) as Hclean.
  apply find_split_Some, upper_split in E as (a' & m' & b' & -> & <- & Hm & <-).
  assert (Hlm : length m' = length COMPLETE_UPPER) by (by rewrite <-Hm, upper_length).
  assert (Hbm : blen COMPLETE_UPPER = blen m') by (by rewrite <-Hm, upper_blen).
  rewrite Hbm, upper_blen, upper_length, <-Hlm.
  rewrite take_app_length, (app_assoc a' m' b'), <-length_app, drop_app_length, <-app_assoc.
  cbn [rev]. rewrite replace_ranges_snoc.
  destruct (IH (pre ++ a' ++ m') b') as [Hr Hc].
  { rewrite !length_app in Hf. rewrite Hlm in Hf. simpl in Hf. lia. }
  replace (blen pre + blen a' + blen m') with (blen (pre ++ a' ++ m')) by (rewrite !blen_app; lia).
  rewrite <-!app_assoc in Hr. rewrite Hr. cbn [mbind outcome_bind]. split.
  - unfold replace_range. destruct (Nat.leb_spec (blen pre + blen a') (blen (pre ++ a' ++ m'))) as [_|H];
      [|rewrite !blen_app in H; lia].
    rewrite (app_assoc pre a'), <-blen_app, get_to_app. cbn [unwrap mbind outcome_bind].
    rewrite !app_assoc, get_from_app. cbn [unwrap mbind outcome_bind]. by rewrite <-!app_assoc.
  - unfold has_complete_marker, to_ascii_uppercase. rewrite !map_app.
    by apply no_marker_token.
Qed.

(** ** Properties *)

Section properties.
Context `{U : Unicode}.

(** C31: parsing a deliverable never panics, and its verdict agrees with the
    presence tests: a Replan verdict exactly when the text holds the replan
    marker, a Failed or Complete verdict only when its marker is present, and
    no verdict only when neither a replan nor a failure marker is. *)
Theorem parse_verdict_sound text :
  exists m, parse text = Ret m /\
    match m with
    | Some (Replan r) => r = text /\ has_replan_marker text = true
    | Some (Failed r) =>
        r = text /\ has_replan_marker text = false /\ has_failure_marker text = true
    | Some (Complete _) => has_replan_marker text = false /\ has_complete_marker text = true
    | None => has_replan_marker text = false /\ has_failure_marker text = false
    end.
Proof. apply parse_cases. Qed.

(** A line that opens with the word FAILED, in any case and behind any
    blanks, decides the verdict whatever else the text says: the parse is a
    replan when the replan marker is present and a failure otherwise, never a
    completion. *)
Theorem failure_line_wins (p ws f b : str) :
  (p = [] \/ last p = Some NL) -> Forall (fun c => is_whitespace c = true) ws ->
  eq_ignore_ascii_case f MARKER_FAILED = true ->
  let text := p ++ ws ++ f ++ b in
  parse text = Ret (Some (if has_replan_marker text then Replan text else Failed text)).
Proof.
  intros Hp Hws Hf text. apply failed_line_verdict with ws f (blen p); [done| |].
  - apply eq_ignore_ascii_case_true, lower_eq_upper_eq in Hf. exact Hf.
  - destruct Hp as [->|Hl].
    + exists [], b. unfold text. simpl. by rewrite <-!app_assoc.
    + apply last_Some in Hl as [p' ->]. exists (NL :: p'), b. unfold text.
      simpl. rewrite <-!app_assoc. split; [done|]. rewrite blen_cons, blen_app, blen_cons, blen_nil. lia.
Qed.

(** the deliverable written for an aborted task always parses as a failure
    (a replan if its context says so), never as a completion. *)
Theorem aborted_deliverable_failed (context : str) :
  let text := aborted_deliverable context in
  parse text = Ret (Some (if has_replan_marker text then Replan text else Failed text)).
Proof.
  intros text.
  apply failed_line_verdict with [] MARKER_FAILED (blen (lit "Task " ++ context ++ lit "." ++ [NL; NL]));
    [constructor|done|].
  exists (NL :: lit "Task " ++ context ++ lit "." ++ [NL]), (lit " (" ++ ABORT_REASON ++ lit ")").
  unfold text, aborted_deliverable, failed_trailer. split.
  - cbn [app]. by rewrite <-!app_assoc.
  - by rewrite blen_cons, !blen_app, !blen_cons, !blen_nil; lia.
Qed.

(** Revoking a text never panics, replaces each completion marker (in any
    case) by the revocation token and touches nothing else; the result carries
    no completion marker and no longer parses as a completion. *)
Theorem revoke_completion_spec text :
  exists r, revoke_completion text = Ret r /\ r = revoke_ref (S (length text)) text /\
    has_complete_marker r = false /\
    (has_complete_marker text = false -> r = text) /\
    (forall id, parse r <> Ret (Some (Complete id))).
Proof.
  destruct (revoke_from (S (length text)) [] text) as [Hr Hc]; [lia|].
  exists (revoke_ref (S (length text)) text). split_and!; [|done|done| |].
  - unfold revoke_completion, find_all. by rewrite upper_length.
  - intros Hn. unfold has_complete_marker in Hn. apply find_split_None in Hn.
    cbn [revoke_ref]. by rewrite Hn.
  - intros id Hp. destruct (parse_cases (revoke_ref (S (length text)) text)) as (m & Hm & Hk).
    rewrite Hp in Hm. injection Hm as <-. destruct Hk as [_ Hk]. congruence.
Qed.
End properties.

Section witnesses.
#[local] Existing Instance ascii_tables.

Lemma failure_line_wins_witness :
  let text := lit "MISSION COMPLETE" ++ [NL] ++ lit "  " ++ lit "Failed" ++ lit ": tests" in
  parse text = Ret (Some (Failed text)).
Proof.
  apply (failure_line_wins (lit "MISSION COMPLETE" ++ [NL]) (lit "  ") (lit "Failed") (lit ": tests")).
  - right. reflexivity.
  - repeat constructor.
  - reflexivity.
Defined.

Lemma revoke_completion_spec_witness :
  let text := lit "done: mission complete (a)" in
  exists r, revoke_completion text = Ret r /\ r = lit "done: REVOKED (a)" /\
    has_complete_marker r = false.
Proof.
  destruct (revoke_completion_spec (lit "done: mission complete (a)")) as (r & Hr & -> & Hc & _).
  eexists. split; [exact Hr|]. split; [vm_compute; reflexivity|exact Hc].
Defined.
(** the zero counters are matched as substrings, so a count that merely ends
    in 0 is blanked like a zero: ten failed tests raise no failure marker and no
    verdict, where eleven do. *)
Theorem ten_failures_are_blanked :
  has_failure_marker (lit "10 tests FAILED") = false /\ parse (lit "10 tests FAILED") = Ret None /\
  has_failure_marker (lit "11 tests FAILED") = true.
Proof. split_and!; vm_compute; reflexivity. Qed.
End witnesses.
