(* ===== verification/Wire.v ===== *)
(** * Wire types ([src/types/wire.rs], [src/types/tools.rs])

    The chat messages and tool calls the context engine, the session bundle and
    the request builder share. *)

From S2P Require Import Prelude Str.

(** ** Tool calls *)

Record ToolFunction := { fn_name : str; fn_arguments : str }.
Record ToolCall := { tc_id : str; tc_kind : str; tc_function : ToolFunction }.

#[export] Instance ToolFunction_eq_dec : EqDecision ToolFunction.
Proof. solve_decision. Defined.
#[export] Instance ToolCall_eq_dec : EqDecision ToolCall.
Proof. solve_decision. Defined.

(** ** Messages *)

Inductive Message :=
  | System (content : str)
  | User (content : str)
  | Assistant (content : option str) (reasoning_content : option str) (tool_calls : list ToolCall)
  | Tool (tool_call_id : str) (content : str).

#[export] Instance Message_eq_dec : EqDecision Message.
Proof. solve_decision. Defined.

Definition role (m : Message) : str :=
  match m with
  | System _ => lit "system"
  | User _ => lit "user"
  | Assistant _ _ _ => lit "assistant"
  | Tool _ _ => lit "tool"
  end.

Definition content (m : Message) : option str :=
  match m with
  | System c => Some c
  | User c => Some c
  | Assistant c _ _ => c
  | Tool _ c => Some c
  end.

Definition reasoning_content (m : Message) : option str :=
  match m with
  | Assistant _ r _ => r
  | _ => None
  end.

(** The content string of an assistant message on the wire: [None] is written
    as the empty string ([serialize_assistant_content]). *)
Definition serialize_assistant_content (c : option str) : str :=
  match c with Some s => s | None => [] end.

(** The calls a message carries, and whether it is a tool result. *)
Definition tool_calls_of (m : Message) : list ToolCall :=
  match m with Assistant _ _ tcs => tcs | _ => [] end.
Definition is_tool (m : Message) : bool :=
  match m with Tool _ _ => true | _ => false end.

(** ** Tool definitions; the parameter schema is a [serde_json::Value], opaque
    to the code that prices it. *)
Record ToolFunctionDef (Value : Type) := {
  def_name : str; def_description : str; def_parameters : Value
}.
Arguments def_name {Value} _.
Arguments def_description {Value} _.
Arguments def_parameters {Value} _.
Record ToolDef (Value : Type) := { def_kind : str; def_function : ToolFunctionDef Value }.
Arguments def_kind {Value} _.
Arguments def_function {Value} _.
