(* ===== verification/Session.v ===== *)
(** * The durable session records ([src/session/format])

    The transcript record, the pairing state a capture observes, the pin
    witnesses, the member fingerprint and the identity floors. *)

From S2P Require Import Prelude Str Wire.
Local Open Scope N_scope.

Definition ABORTED_TOOL_RESULT : str := lit "(aborted)".
Definition SESSION_RESTORE_NOTICE_PREFIX : str := lit "(SYSTEM: SESSION RESTORED".

(** ** Transcript records ([messages.rs]) *)

Record ToolFunctionRecord := { rfn_name : str; rfn_arguments : str }.
Record ToolCallRecord := { rtc_id : str; rtc_kind : str; rtc_function : ToolFunctionRecord }.
Inductive MessageRecord :=
  | RSystem (content : str)
  | RUser (content : str)
  | RAssistant (content : option str) (reasoning_content : option str)
      (tool_calls : list ToolCallRecord)
  | RTool (tool_call_id : str) (content : str).

Definition call_from_wire (tc : ToolCall) : ToolCallRecord :=
  {| rtc_id := tc_id tc; rtc_kind := tc_kind tc;
     rtc_function := {| rfn_name := fn_name (tc_function tc);
                        rfn_arguments := fn_arguments (tc_function tc) |} |}.
Definition call_into_wire (tc : ToolCallRecord) : ToolCall :=
  {| tc_id := rtc_id tc; tc_kind := rtc_kind tc;
     tc_function := {| fn_name := rfn_name (rtc_function tc);
                       fn_arguments := rfn_arguments (rtc_function tc) |} |}.

Definition from_wire (m : Message) : MessageRecord :=
  match m with
  | System c => RSystem c
  | User c => RUser c
  | Assistant c r tcs => RAssistant c r (map call_from_wire tcs)
  | Tool id c => RTool id c
  end.
Definition into_wire (m : MessageRecord) : Message :=
  match m with
  | RSystem c => System c
  | RUser c => User c
  | RAssistant c r tcs => Assistant c r (map call_into_wire tcs)
  | RTool id c => Tool id c
  end.

Definition record_role (m : MessageRecord) : str :=
  match m with
  | RSystem _ => lit "system"
  | RUser _ => lit "user"
  | RAssistant _ _ _ => lit "assistant"
  | RTool _ _ => lit "tool"
  end.
Definition record_content (m : MessageRecord) : option str :=
  match m with
  | RSystem c => Some c
  | RUser c => Some c
  | RAssistant c _ _ => c
  | RTool _ c => Some c
  end.

(** ** Pairing state ([worker.rs]) *)

Record DanglingCall := {
  dc_tool_call_id : str; dc_function_name : str; dc_arguments : str; dc_dispatched : bool
}.
Inductive DanglingToolCallState :=
  | Balanced
  | Dangling (calls : list DanglingCall)
  | OrphanedResults (tool_call_ids : list str)
  | Healed (aborted_tool_call_ids : list str).


(** The first loop of [observe]: the calls and the results, in order. *)
Definition observe_parents (messages : list MessageRecord) : list ToolCallRecord :=
  concat (map (fun m => match m with RAssistant _ _ tcs => tcs | _ => [] end) messages).
Definition observe_results (messages : list MessageRecord) : list str :=
  concat (map (fun m => match m with RTool id _ => [id] | _ => [] end) messages).

Definition observe (messages : list MessageRecord) : DanglingToolCallState :=
  let parents := observe_parents messages in
  let results := observe_results messages in
  let parent_ids := map rtc_id parents in
  let orphans := List.filter (fun id => negb (str_mem id parent_ids)) results in
  if negb (is_empty orphans) then OrphanedResults orphans
  else
    let dangling :=
      map (fun tc => {| dc_tool_call_id := rtc_id tc;
                        dc_function_name := rfn_name (rtc_function tc);
                        dc_arguments := rfn_arguments (rtc_function tc);
                        dc_dispatched := false |})
        (List.filter (fun tc => negb (str_mem (rtc_id tc) results)) parents) in
    if negb (is_empty dangling) then Dangling dangling
    else
      let aborted :=
        concat (map (fun m => match m with
          | RTool id c => if str_eqb c ABORTED_TOOL_RESULT then [id] else []
          | _ => []
          end) messages) in
      if negb (is_empty aborted) then Healed aborted else Balanced.

(** ** Pin witnesses ([envelope.rs], [restore.rs]) *)

(** [as u32]: a truncating cast. *)
Definition as_u32 (n : nat) : N := N.of_nat n mod 2 ^ 32.

Record PinWitness := { system_prompt_len : N; goal_len : N }.
#[export] Instance PinWitness_eq_dec : EqDecision PinWitness.
Proof. solve_decision. Defined.

Definition witness_of (messages : list MessageRecord) : option PinWitness :=
  match messages with
  | RSystem a :: RUser b :: _ =>
      Some {| system_prompt_len := as_u32 (blen a); goal_len := as_u32 (blen b) |}
  | _ => None
  end.

Record ManagerSection := {
  sec_messages : list MessageRecord;
  sec_pinned_prefix_end : N;
  sec_pin_witness : PinWitness;
  sec_max_context_tokens : nat;
  sec_rebirth_advisory_emitted : bool;
  sec_consecutive_rebirths : N;
  sec_dangling : DanglingToolCallState
}.

(** ** The member fingerprint ([mod.rs]): FNV-1a on 64-bit words *)

Definition fnv_step (hash byte : N) : N :=
  (N.lxor hash byte * 0x00000100000001b3) mod 2 ^ 64.
Definition fingerprint (bytes : list N) : N := fold_left fnv_step bytes 0xcbf29ce484222325.
