(* ===== verification/Budget.v ===== *)
(** * The budget thresholds ([src/manager/context.rs])

    [(max as f64 * RATIO).round() as usize], computed exactly: a non-negative
    [f64] of this computation is an integer with at most 53 significant bits,
    scaled by [2^-53]; rounding is to nearest, ties to even. *)

From S2P Require Import Prelude.
Local Open Scope N_scope.

(** ** Binary64 on the naturals *)

(** Nearest quotient, ties to even. *)
Definition rne_div (n d : N) : N :=
  let q := n / d in let r := n mod d in
  match N.compare (2 * r) d with
  | Lt => q
  | Gt => q + 1
  | Eq => if N.even q then q else q + 1
  end.

(** Rounding an integer to 53 significant bits. *)
Definition rne53 (n : N) : N :=
  let s := N.log2 n - 52 in rne_div n (2 ^ s) * 2 ^ s.

(** A decimal literal [num/den] in [[1/2, 1)], scaled by [2^53]. *)
Definition f64_literal (num den : N) : N := rne_div (num * 2 ^ 53) den.

Definition usize_max : N := 2 ^ 64 - 1.

(** [(max as f64 * ratio).round() as usize]; [round] is half away from zero and
    the cast saturates. *)
Definition scaled_round (max ratio : N) : N :=
  let product := rne53 (rne53 max * ratio) in
  N.min ((product + 2 ^ 52) / 2 ^ 53) usize_max.

Definition REBIRTH_ADVISORY_TRIGGER_RATIO : N := f64_literal 80 100.
Definition COMPACTION_TRIGGER_RATIO : N := f64_literal 90 100.
Definition COMPACTION_TARGET_RATIO : N := f64_literal 70 100.

Definition rebirth_advisory_threshold (max_context_tokens : nat) : nat :=
  N.to_nat (scaled_round (N.of_nat max_context_tokens) REBIRTH_ADVISORY_TRIGGER_RATIO).
Definition compaction_threshold (max_context_tokens : nat) : nat :=
  N.to_nat (scaled_round (N.of_nat max_context_tokens) COMPACTION_TRIGGER_RATIO).
Definition compaction_target (max_context_tokens : nat) : nat :=
  N.to_nat (scaled_round (N.of_nat max_context_tokens) COMPACTION_TARGET_RATIO).

(** ** Facts *)

Lemma rne_div_bounds n d : 0 < d -> n / d <= rne_div n d <= n / d + 1.
Proof. intros Hd. unfold rne_div. destruct (_ ?= _); [destruct (N.even _)|..]; lia. Qed.

Lemma rne_div_mono n m d : 0 < d -> n <= m -> rne_div n d <= rne_div m d.
Proof.
  intros Hd Hle. pose proof (rne_div_bounds n d Hd). pose proof (rne_div_bounds m d Hd).
  pose proof (N.Div0.div_le_mono n m d Hle).
  destruct (N.eq_dec (n / d) (m / d)) as [Heq|]; [|lia].
  assert (Hr : n mod d <= m mod d).
  { pose proof (N.div_mod n d ltac:(lia)). pose proof (N.div_mod m d ltac:(lia)).
    rewrite Heq in *. lia. }
  unfold rne_div. rewrite Heq.
  destruct (N.compare_spec (2 * (n mod d)) d), (N.compare_spec (2 * (m mod d)) d);
    destruct (N.even (m / d)); lia.
Qed.

Lemma pow2_pos s : 0 < 2 ^ s.
Proof. pose proof (N.pow_nonzero 2 s). lia. Qed.

(** A rounded number stays in the closed binade of its argument. *)
Lemma rne53_binade n : 0 < n -> 2 ^ N.log2 n <= rne53 n <= 2 ^ (N.log2 n + 1).
Proof.
  intros Hn. unfold rne53. destruct (N.log2_spec n Hn) as [Hlo Hhi].
  set (l := N.log2 n) in *. set (s := l - 52).
  pose proof (rne_div_bounds n (2 ^ s) (pow2_pos s)) as Hb.
  assert (Hl : l = s + (l - s)) by lia.
  assert (Hp : 2 ^ l = 2 ^ s * 2 ^ (l - s)) by (rewrite Hl at 1; by rewrite N.pow_add_r).
  assert (Hp1 : 2 ^ (l + 1) = 2 ^ s * 2 ^ (l - s + 1)) by (rewrite <-N.pow_add_r; f_equal; lia).
  rewrite <-N.add_1_r in Hhi. pose proof (pow2_pos s).
  assert (Hq : 2 ^ (l - s) <= n / 2 ^ s) by (apply N.div_le_lower_bound; lia).
  assert (Hq' : n / 2 ^ s < 2 ^ (l - s + 1)) by (apply N.Div0.div_lt_upper_bound; lia).
  rewrite Hp, Hp1, !(N.mul_comm _ (2 ^ s)). split; apply N.mul_le_mono_l; lia.
Qed.

Lemma rne53_0 : rne53 0 = 0.
Proof. reflexivity. Qed.

Lemma rne53_mono n m : n <= m -> rne53 n <= rne53 m.
Proof.
  intros Hle. destruct (N.eq_dec n 0) as [->|Hn]; [rewrite rne53_0; lia|].
  destruct (N.eq_dec (N.log2 n) (N.log2 m)) as [Hl|Hl].
  - unfold rne53. rewrite Hl. apply N.mul_le_mono_r, rne_div_mono; [apply pow2_pos|done].
  - pose proof (N.log2_le_mono n m Hle).
    pose proof (rne53_binade n ltac:(lia)). pose proof (rne53_binade m ltac:(lia)).
    assert (2 ^ (N.log2 n + 1) <= 2 ^ N.log2 m) by (apply N.pow_le_mono_r; lia). lia.
Qed.

(** Rounding up adds at most one part in [2^52]. *)
Lemma rne53_upper n : rne53 n * 2 ^ 52 <= n * (2 ^ 52 + 1).
Proof.
  destruct (N.eq_dec n 0) as [->|Hn]; [rewrite rne53_0; lia|].
  unfold rne53. set (s := N.log2 n - 52).
  destruct (N.eq_dec s 0) as [->|Hs].
  - rewrite N.pow_0_r. assert (Hr : rne_div n 1 = n); [|rewrite Hr; lia].
    unfold rne_div. by rewrite N.mod_1_r, N.div_1_r.
  - pose proof (rne_div_bounds n (2 ^ s) (pow2_pos s)) as [_ Hb].
    pose proof (N.Div0.mul_div_le n (2 ^ s)) as Hq.
    destruct (N.log2_spec n ltac:(lia)) as [Hlo _].
    replace (N.log2 n) with (s + 52) in Hlo by lia. rewrite N.pow_add_r in Hlo.
    assert (rne_div n (2 ^ s) * 2 ^ s <= (n / 2 ^ s + 1) * 2 ^ s) by (by apply N.mul_le_mono_r).
    lia.
Qed.

Lemma scaled_round_mono max r1 r2 : r1 <= r2 -> scaled_round max r1 <= scaled_round max r2.
Proof.
  intros Hr. unfold scaled_round.
  assert (Hp : rne53 (rne53 max * r1) <= rne53 (rne53 max * r2))
    by (apply rne53_mono, N.mul_le_mono_l, Hr).
  apply N.min_le_compat_r, N.Div0.div_le_mono. lia.
Qed.

Lemma compaction_trigger_le_max max : scaled_round max COMPACTION_TRIGGER_RATIO <= max.
Proof.
  unfold scaled_round. etrans; [apply N.le_min_l|].
  change COMPACTION_TRIGGER_RATIO with 8106479329266893.
  pose proof (rne53_upper max) as H1.
  pose proof (rne53_upper (rne53 max * 8106479329266893)) as H2.
  apply N.lt_succ_r, N.Div0.div_lt_upper_bound.
  generalize dependent (rne53 (rne53 max * 8106479329266893)).
  generalize dependent (rne53 max). intros x Hx y Hy. lia.
Qed.

(** ** Properties *)

(** for every budget the 70% compaction target is at most the 80% advisory
    trigger, which is at most the 90% compaction trigger, which never exceeds the
    budget itself, floating-point rounding included. *)
Theorem thresholds_ordered (max_context_tokens : nat) :
  (compaction_target max_context_tokens <= rebirth_advisory_threshold max_context_tokens /\
   rebirth_advisory_threshold max_context_tokens <= compaction_threshold max_context_tokens /\
   compaction_threshold max_context_tokens <= max_context_tokens)%nat.
Proof.
  unfold compaction_target, rebirth_advisory_threshold, compaction_threshold.
  pose proof (scaled_round_mono (N.of_nat max_context_tokens) COMPACTION_TARGET_RATIO
    REBIRTH_ADVISORY_TRIGGER_RATIO ltac:(by vm_compute)).
  pose proof (scaled_round_mono (N.of_nat max_context_tokens) REBIRTH_ADVISORY_TRIGGER_RATIO
    COMPACTION_TRIGGER_RATIO ltac:(by vm_compute)).
  pose proof (compaction_trigger_le_max (N.of_nat max_context_tokens)). lia.
Qed.

Lemma target_le_trigger n : (compaction_target n <= compaction_threshold n)%nat.
Proof.
  unfold compaction_target, compaction_threshold.
  pose proof (scaled_round_mono (N.of_nat n) COMPACTION_TARGET_RATIO
    COMPACTION_TRIGGER_RATIO ltac:(by vm_compute)). lia.
Qed.
