(* ===== verification/Context.v ===== *)
(** * The context engine ([src/manager/context.rs])

    Token accounting, the pairing repair, compaction, rebirth and the session
    seams.  The tokenizer and the JSON printer are third-party code: parameters
    of the model. *)

From S2P Require Import Prelude Str Wire Session Budget.

(** The cl100k tokenizer: the length of [encode_ordinary]. *)
Class Tokenizer := { encode_ordinary_len : str -> nat }.
(** [serde_json::Value] with [serde_json::to_string]. *)
Class JsonPrinter := { Value : Type; json_to_string : Value -> option str }.

Definition REBIRTH_CHECKPOINT_PREFIX : str := lit "(SYSTEM: REBIRTH CHECKPOINT. The previous turn-by-turn history has been compacted. Summarized progress: ".
Definition REBIRTH_ADVISORY_MESSAGE : str := lit "(SYSTEM: CONTEXT BUDGET ADVISORY. You have reached 80% of your context budget. You should summarize your progress, key findings, and immediate next steps, then invoke the 'rebirth' tool with your summary before forced context compaction occurs. IMPORTANT: To prevent repeating work, your summary MUST preserve all vital operational state" ++ [8212%N] ++ lit "such as active file paths, exact line numbers or byte offsets reached (e.g. in read_file), intermediate discoveries, and precise next steps so you resume seamlessly without starting over from the beginning.)".
Definition TOOL_DEF_FRAMING_TOKENS : nat := 8.
Definition ABORTED_TOOL_RESULT : str := lit "(aborted)".
Definition INJECTED_ADVISORY_PREFIXES : list str :=
  [ lit "(SYSTEM: CONTEXT BUDGET ADVISORY"; lit "(SYSTEM: CONTEXT LIMIT EXCEEDED";
    lit "(SYSTEM: Rebirth checkpoint accepted"; REBIRTH_CHECKPOINT_PREFIX;
    SESSION_RESTORE_NOTICE_PREFIX ].

Definition is_injected_advisory (content : str) : bool :=
  existsb (fun prefix => starts_with prefix content) INJECTED_ADVISORY_PREFIXES.

(** ** The pinned window *)

Definition is_checkpoint (m : Message) : bool :=
  match m with
  | System c | User c => starts_with REBIRTH_CHECKPOINT_PREFIX c
  | Assistant _ _ _ | Tool _ _ => false
  end.

(** [rposition] of a checkpoint at index 2 or later; [i] is the offset. *)
Fixpoint last_checkpoint (i : nat) (messages : list Message) : option nat :=
  match messages with
  | [] => None
  | m :: ms => match last_checkpoint (S i) ms with
               | Some j => Some j
               | None => if (2 <=? i) && is_checkpoint m then Some i else None
               end
  end.
Definition pinned_prefix_end (messages : list Message) : nat :=
  match last_checkpoint 0 messages with Some idx => idx + 1 | None => 2 end.

Definition pin_witness_of (messages : list Message) : PinWitness :=
  {| system_prompt_len := as_u32 (match head messages with Some (System c) => blen c | _ => 0 end);
     goal_len := as_u32 (match messages !! 1 with Some (User c) => blen c | _ => 0 end) |}.

(** ** The pairing repair *)

Definition prune_orphan_tool_messages (messages : list Message) : list Message :=
  let valid_ids := map tc_id (concat (map tool_calls_of messages)) in
  List.filter (fun m => match m with Tool id _ => str_mem id valid_ids | _ => true end) messages.

(** [results.entry(id).or_insert(content)] for every tool result, in order. *)
Fixpoint collect_results (results : gmap str str) (messages : list Message) : gmap str str :=
  match messages with
  | [] => results
  | Tool id c :: ms =>
      collect_results (match results !! id with Some _ => results | None => <[id := c]> results end) ms
  | _ :: ms => collect_results results ms
  end.

Definition synthesize (results : gmap str str) (tc : ToolCall) : Message :=
  Tool (tc_id tc) (default ABORTED_TOOL_RESULT (results !! tc_id tc)).

Definition re_emit (results : gmap str str) (m : Message) : list Message :=
  match m with
  | Tool _ _ => []
  | Assistant c r tcs => Assistant c r tcs :: map (synthesize results) tcs
  | other => [other]
  end.

Definition repair_tool_call_pairs (messages : list Message) : list Message :=
  let messages := prune_orphan_tool_messages messages in
  let results := collect_results ∅ messages in
  concat (map (re_emit results) messages).

Definition pairing_shape (messages : list Message) : list (str * list str) :=
  map (fun m => match m with
    | System _ => (lit "system", [])
    | User _ => (lit "user", [])
    | Assistant _ _ tcs => (lit "assistant", map tc_id tcs)
    | Tool id _ => (lit "tool", [id])
    end) messages.

(** ** Outcomes and state *)

Inductive CompactionOutcome :=
  | Compacted (initial_tokens final_tokens tokens_reclaimed messages_removed target : nat)
  | TargetUnreachable (pinned_tokens pinned_messages target initial_tokens final_tokens
      tokens_reclaimed messages_removed : nat).

Definition succeeded (o : CompactionOutcome) : bool :=
  match o with Compacted _ _ _ _ _ => true | _ => false end.
Definition messages_removed (o : CompactionOutcome) : nat :=
  match o with Compacted _ _ _ n _ => n | TargetUnreachable _ _ _ _ _ _ n => n end.
Definition tokens_reclaimed (o : CompactionOutcome) : nat :=
  match o with Compacted _ _ n _ _ => n | TargetUnreachable _ _ _ _ _ n _ => n end.
Definition outcome_target (o : CompactionOutcome) : nat :=
  match o with Compacted _ _ _ _ n => n | TargetUnreachable _ _ n _ _ _ _ => n end.
Definition final_tokens (o : CompactionOutcome) : nat :=
  match o with Compacted _ n _ _ _ => n | TargetUnreachable _ _ _ _ n _ _ => n end.

(** The two counters of [HarnessStats] the engine bumps (wrapping atomics). *)
Record HarnessStats := { context_compactions : N; session_rebirths : N }.
Definition record_compaction (s : HarnessStats) : HarnessStats :=
  {| context_compactions := (context_compactions s + 1) mod 2 ^ 64;
     session_rebirths := session_rebirths s |}.
Definition record_rebirth (s : HarnessStats) : HarnessStats :=
  {| context_compactions := context_compactions s;
     session_rebirths := (session_rebirths s + 1) mod 2 ^ 64 |}.

Record ContextEngine := {
  messages : list Message;
  max_context_tokens : nat;
  stats : option HarnessStats;
  rebirth_advisory_emitted : bool;
  consecutive_rebirths : N;
  tool_schema_tokens : nat
}.

Definition new (max : nat) : ContextEngine :=
  {| messages := []; max_context_tokens := max; stats := None;
     rebirth_advisory_emitted := false; consecutive_rebirths := 0; tool_schema_tokens := 0 |}.

(** Field updates. *)
Definition with_messages (e : ContextEngine) (ms : list Message) : ContextEngine :=
  {| messages := ms; max_context_tokens := max_context_tokens e; stats := stats e;
     rebirth_advisory_emitted := rebirth_advisory_emitted e;
     consecutive_rebirths := consecutive_rebirths e; tool_schema_tokens := tool_schema_tokens e |}.
Definition with_stats (e : ContextEngine) (s : option HarnessStats) : ContextEngine :=
  {| messages := messages e; max_context_tokens := max_context_tokens e; stats := s;
     rebirth_advisory_emitted := rebirth_advisory_emitted e;
     consecutive_rebirths := consecutive_rebirths e; tool_schema_tokens := tool_schema_tokens e |}.
Definition with_flags (e : ContextEngine) (emitted : bool) (rebirths : N) : ContextEngine :=
  {| messages := messages e; max_context_tokens := max_context_tokens e; stats := stats e;
     rebirth_advisory_emitted := emitted; consecutive_rebirths := rebirths;
     tool_schema_tokens := tool_schema_tokens e |}.

Definition set_stats (e : ContextEngine) (s : HarnessStats) : ContextEngine := with_stats e (Some s).

Definition set_system_prompt (e : ContextEngine) (prompt : str) : ContextEngine :=
  with_messages e
    (if is_empty (messages e) then messages e ++ [System prompt]
     else <[0 := System prompt]> (messages e)).

Definition set_goal (e : ContextEngine) (goal : str) : ContextEngine :=
  let ms := if is_empty (messages e) then messages e ++ [System []] else messages e in
  with_messages e
    (if length ms =? 1 then ms ++ [User goal] else <[1 := User goal]> ms).

Definition append (e : ContextEngine) (m : Message) : ContextEngine :=
  with_messages e (messages e ++ [m]).
Definition pop_last (e : ContextEngine) : option Message * ContextEngine :=
  (last (messages e), with_messages e (take (pred (length (messages e))) (messages e))).
Definition replace_last (e : ContextEngine) (m : Message) : ContextEngine :=
  with_messages e
    (match messages e with
     | [] => [m]
     | ms => <[pred (length ms) := m]> ms
     end).

Definition reset_consecutive_rebirths (e : ContextEngine) : ContextEngine :=
  with_flags e (rebirth_advisory_emitted e) 0.
Definition reset_rebirth_advisory (e : ContextEngine) : ContextEngine :=
  with_flags e false (consecutive_rebirths e).
Definition restore_engine_flags (e : ContextEngine) (emitted : bool) (rebirths : N) : ContextEngine :=
  with_flags e emitted rebirths.
Definition inject_rebirth_advisory (e : ContextEngine) : ContextEngine :=
  append (with_flags e true (consecutive_rebirths e)) (User REBIRTH_ADVISORY_MESSAGE).

Definition ensure_tool_call_pairs (e : ContextEngine) : bool * ContextEngine :=
  let before := pairing_shape (messages e) in
  let repaired := repair_tool_call_pairs (messages e) in
  (negb (bool_decide (pairing_shape repaired = before)), with_messages e repaired).

(** ** Session seams *)

Definition capture_manager_section (e : ContextEngine) : ManagerSection :=
  let records := map from_wire (messages e) in
  {| sec_messages := records;
     sec_pinned_prefix_end := as_u32 (pinned_prefix_end (messages e));
     sec_pin_witness := pin_witness_of (messages e);
     sec_max_context_tokens := max_context_tokens e;
     sec_rebirth_advisory_emitted := rebirth_advisory_emitted e;
     sec_consecutive_rebirths := consecutive_rebirths e;
     sec_dangling := observe records |}.

Definition install_restored_messages (e : ContextEngine) (records : list MessageRecord)
    : outcome ContextEngine :=
  if 2 <=? length records then Ret (with_messages e (map into_wire records)) else Panic.

Definition dangling_state (e : ContextEngine) : DanglingToolCallState :=
  observe (map from_wire (messages e)).

Definition append_restore_notice (e : ContextEngine) (notice : str) : ContextEngine :=
  if length (messages e) <? 2 then e else append e (User notice).

(** ** Token accounting *)

Section tokens.
Context `{T : Tokenizer}.

Definition count_text_tokens (text : str) : nat := encode_ordinary_len text.

Definition count_assistant_tokens (content reasoning : option str) (tool_calls : list ToolCall) : nat :=
  from_option count_text_tokens 0 content
  + from_option count_text_tokens 0 reasoning
  + sum_with (fun tc => 1 + count_text_tokens (fn_name (tc_function tc))
                        + count_text_tokens (fn_arguments (tc_function tc))) tool_calls.

Definition message_tokens (m : Message) : nat :=
  3 + match m with
      | System c | User c => count_text_tokens c
      | Assistant c r tcs => count_assistant_tokens c r tcs
      | Tool _ c => count_text_tokens c
      end.

Definition count_tokens (messages : list Message) : nat := sum_with message_tokens messages.

Definition token_count (e : ContextEngine) : nat := count_tokens (messages e).
Definition request_token_count (e : ContextEngine) : nat := token_count e + tool_schema_tokens e.
Definition should_compact (e : ContextEngine) : bool :=
  compaction_threshold (max_context_tokens e) <? request_token_count e.
Definition should_advise_rebirth (e : ContextEngine) : bool :=
  negb (rebirth_advisory_emitted e) && (consecutive_rebirths e =? 0)%N
  && (rebirth_advisory_threshold (max_context_tokens e) <? request_token_count e).

(** *** Compaction *)

(** The newest-first retention loop; [kept] is in transcript order. *)
Fixpoint retain_tail (target total : nat) (rev_tail kept : list Message) : list Message :=
  match rev_tail with
  | [] => kept
  | m :: rest =>
      let cost := count_tokens [m] in
      if (target <? total + cost) && negb (is_empty kept) then kept
      else retain_tail target (total + cost) rest (m :: kept)
  end.

(** The re-trim loop: the final vector and the [unreachable] flag. *)
Fixpoint retrim (fuel target : nat) (repaired : list Message) : option (list Message * bool) :=
  match fuel with
  | 0 => None
  | S fuel' =>
      if target <? count_tokens repaired then
        let pinned := min (pinned_prefix_end repaired) (length repaired) in
        if length repaired <=? pinned then Some (repaired, true)
        else
          let before := count_tokens repaired in
          let repaired := repair_tool_call_pairs (delete pinned repaired) in
          if before <=? count_tokens repaired then Some (repaired, true)
          else retrim fuel' target repaired
      else Some (repaired, false)
  end.

Definition bump_compaction (e : ContextEngine) : ContextEngine :=
  with_stats e (record_compaction <$> stats e).

(** [if request_token_count() <= threshold { emitted = false }] *)
Definition relax_advisory (e : ContextEngine) : ContextEngine :=
  if request_token_count e <=? rebirth_advisory_threshold (max_context_tokens e)
  then with_flags e false (consecutive_rebirths e) else e.

Definition compact (e : ContextEngine) : option (CompactionOutcome * ContextEngine) :=
  let initial_tokens := token_count e in
  let initial_msgs := length (messages e) in
  let target := compaction_target (max_context_tokens e) in
  let prefix_end := min (pinned_prefix_end (messages e)) (length (messages e)) in
  let pinned_tokens := count_tokens (take prefix_end (messages e)) in
  if target <? pinned_tokens then
    let e' := with_messages e (repair_tool_call_pairs (take prefix_end (messages e))) in
    Some (TargetUnreachable pinned_tokens prefix_end target initial_tokens (token_count e')
            (initial_tokens - token_count e') (initial_msgs - length (messages e')),
          bump_compaction e')
  else
    let kept_tail := retain_tail target pinned_tokens (rev (drop prefix_end (messages e))) [] in
    let repaired := repair_tool_call_pairs (take prefix_end (messages e) ++ kept_tail) in
    match retrim (S (count_tokens repaired)) target repaired with
    | None => None
    | Some (final, unreachable) =>
        let e' := with_messages e final in
        let removed := initial_msgs - length (messages e') in
        let reclaimed := initial_tokens - token_count e' in
        if unreachable : bool then
          let pinned_end := min (pinned_prefix_end final) (length final) in
          Some (TargetUnreachable (count_tokens (take pinned_end final)) pinned_end target
                  initial_tokens (token_count e') reclaimed removed,
                bump_compaction e')
        else
          Some (Compacted initial_tokens (token_count e') reclaimed removed target,
                bump_compaction (relax_advisory e'))
    end.

(** *** Rebirth *)

Definition genuine_instruction (goal : str) (m : Message) : option str :=
  match m with
  | User c => if negb (str_eqb c goal) && negb (is_injected_advisory c) then Some c else None
  | _ => None
  end.

Definition perform_rebirth (e : ContextEngine) (summary : str) : ContextEngine :=
  let system := match head (messages e) with Some (System c) => c | _ => [] end in
  let goal := match messages e !! 1 with Some (User c) => c | _ => [] end in
  let last_user_instruction :=
    find_map (genuine_instruction goal) (rev (drop 2 (messages e))) in
  let checkpoint := REBIRTH_CHECKPOINT_PREFIX ++ summary ++ lit ")" in
  let collapsed :=
    [System system; User goal]
    ++ (match last_user_instruction with Some i => [User i] | None => [] end)
    ++ [User checkpoint] in
  let e1 := with_messages e collapsed in
  let e2 := with_flags e1 (rebirth_advisory_emitted e1)
              (N.min (consecutive_rebirths e1 + 1) usize_max) in
  let e3 := relax_advisory e2 in
  with_stats e3 (record_rebirth <$> stats e3).

(** *** Tool schemas *)

Context `{J : JsonPrinter}.

Definition tools_tokens (tools : list (ToolDef Value)) : nat :=
  sum_with (fun tool =>
    TOOL_DEF_FRAMING_TOKENS
    + count_text_tokens (def_kind tool)
    + count_text_tokens (def_name (def_function tool))
    + count_text_tokens (def_description (def_function tool))
    + count_text_tokens (default [] (json_to_string (def_parameters (def_function tool))))) tools.
Definition request_tokens (messages : list Message) (tools : list (ToolDef Value)) : nat :=
  count_tokens messages + tools_tokens tools.

Definition set_tools (e : ContextEngine) (tools : list (ToolDef Value)) : ContextEngine :=
  {| messages := messages e; max_context_tokens := max_context_tokens e; stats := stats e;
     rebirth_advisory_emitted := rebirth_advisory_emitted e;
     consecutive_rebirths := consecutive_rebirths e; tool_schema_tokens := tools_tokens tools |}.
Definition should_compact_with_tools (e : ContextEngine) (tools : list (ToolDef Value)) : bool :=
  compaction_threshold (max_context_tokens e) <? request_tokens (messages e) tools.

(** *** The factory; [manager_tools] is the literal schema list of
    [ToolDef::manager_tools()]. *)
Record ContextEngineFactory := { factory_max_context_tokens : nat }.

Definition manager_context (f : ContextEngineFactory) (manager_tools : list (ToolDef Value))
    (system_prompt goal : str) : ContextEngine :=
  set_tools (set_goal (set_system_prompt (new (factory_max_context_tokens f)) system_prompt) goal)
    manager_tools.
Definition specialist_context (f : ContextEngineFactory) (role_prompt brief : str) : ContextEngine :=
  set_goal (set_system_prompt (new (factory_max_context_tokens f)) role_prompt) brief.
End tokens.
