(* ===== verification/ContextFacts.v ===== *)
(** * Facts about the context engine

    The repair yields a paired transcript and is idempotent; compaction
    terminates, keeps the pins and reports truthfully; rebirth and the session
    seams keep what they promise. *)

From S2P Require Import Prelude Str Wire Session Budget Context.

(** ** Transcripts as turns with their results *)

(** A transcript is paired when each of its turns is followed by exactly the
    results of its calls, in order. *)
Definition answers (tc : ToolCall) (m : Message) : Prop := exists c, m = Tool (tc_id tc) c.

Inductive paired : list Message -> Prop :=
  | paired_nil : paired []
  | paired_block m rs ms :
      is_tool m = false -> Forall2 answers (tool_calls_of m) rs -> paired ms ->
      paired (m :: rs ++ ms).

(** The turns: everything but the tool results. *)
Definition turns (ms : list Message) : list Message := List.filter (fun m => negb (is_tool m)) ms.

(** All call ids of a transcript. *)
Definition call_ids (ms : list Message) : list str := map tc_id (concat (map tool_calls_of ms)).

(** The first result of an id, and the content the repair emits for it. *)
Definition result_of (id : str) (m : Message) : option str :=
  match m with Tool id' c => if str_eqb id' id then Some c else None | _ => None end.
Definition first_result (id : str) (ms : list Message) : option str := find_map (result_of id) ms.
Definition result_content (ms : list Message) (id : str) : str :=
  default ABORTED_TOOL_RESULT (first_result id ms).

Definition emit (h : str -> str) (m : Message) : list Message :=
  m :: map (fun tc => Tool (tc_id tc) (h (tc_id tc))) (tool_calls_of m).
Definition flat (h : str -> str) (ts : list Message) : list Message := concat (map (emit h) ts).

Lemma turns_app a b : turns (a ++ b) = turns a ++ turns b.
Proof. apply List.filter_app. Qed.

Lemma turns_tools ms : Forall (fun m => is_tool m = true) ms -> turns ms = [].
Proof. induction 1 as [|m ms Hm _ IH]; [done|]. cbn. by rewrite Hm. Qed.

Lemma turns_not_tool ms : Forall (fun m => is_tool m = false) (turns ms).
Proof.
  apply Forall_forall. intros m [_ Hm]%list_elem_of_In%List.filter_In. by apply negb_true_iff.
Qed.

Lemma turns_id ms : Forall (fun m => is_tool m = false) ms -> turns ms = ms.
Proof. induction 1 as [|m ms Hm _ IH]; [done|]. cbn. rewrite Hm. cbn. by f_equal. Qed.

Lemma results_tools {A} (f g : A -> str) (tcs : list A) :
  Forall (fun m => is_tool m = true) (map (fun tc => Tool (f tc) (g tc)) tcs).
Proof. by induction tcs; constructor. Qed.
#[export] Hint Resolve results_tools turns_not_tool : marmel.

Lemma flat_app h a b : flat h (a ++ b) = flat h a ++ flat h b.
Proof. unfold flat. by rewrite map_app, concat_app. Qed.

Lemma flat_cons h t ts : flat h (t :: ts) = emit h t ++ flat h ts.
Proof. done. Qed.

Lemma turns_flat h ts : Forall (fun m => is_tool m = false) ts -> turns (flat h ts) = ts.
Proof.
  induction 1 as [|t ts Ht _ IH]; [done|]. rewrite flat_cons, turns_app, IH. cbn.
  rewrite Ht. cbn. by rewrite turns_tools by auto with marmel.
Qed.

Lemma flat_ext h h' ts :
  (forall id, id ∈ call_ids ts -> h id = h' id) -> flat h ts = flat h' ts.
Proof.
  induction ts as [|t ts IH]; intros H; [done|]. rewrite !flat_cons.
  unfold call_ids in H. cbn in H. rewrite map_app in H.
  rewrite IH by (intros id Hid; apply H, elem_of_app; by right).
  unfold emit. f_equal. f_equal. apply map_ext_in. intros tc Htc. f_equal. apply H.
  apply elem_of_app. left. apply list_elem_of_In, in_map, Htc.
Qed.

Lemma paired_flat h ts : Forall (fun m => is_tool m = false) ts -> paired (flat h ts).
Proof.
  induction 1 as [|t ts Ht _ IH]; [constructor|]. rewrite flat_cons. unfold emit.
  cbn [app]. constructor; [done| |done].
  induction (tool_calls_of t); constructor; [by eexists|done].
Qed.

(** A turn of a flat transcript splits it between two turns. *)
Lemma flat_split h ts a u b :
  Forall (fun m => is_tool m = false) ts -> is_tool u = false -> flat h ts = a ++ u :: b ->
  exists ts1 ts2, ts = ts1 ++ u :: ts2 /\ a = flat h ts1 /\
    b = map (fun tc => Tool (tc_id tc) (h (tc_id tc))) (tool_calls_of u) ++ flat h ts2.
Proof.
  intros Hts Hu. revert a. induction Hts as [|t ts Ht _ IH]; intros a Heq; [by destruct a|].
  rewrite flat_cons in Heq. unfold emit in Heq. set (rs := map _ (tool_calls_of t)) in Heq.
  destruct a as [|m a]; cbn [app] in Heq; injection Heq as -> Heq.
  - exists [], ts. split_and!; done.
  - apply List.app_eq_app in Heq as [k [[Hrs Heq]|[-> Heq]]].
    + destruct k as [|x k].
      * rewrite app_nil_r in Hrs. cbn in Heq. destruct (IH [] (eq_sym Heq)) as (t1 & t2 & -> & Hn & ->).
        exists (m :: t1), t2. split_and!; [done| |done]. rewrite flat_cons, <-Hn, app_nil_r.
        unfold emit. fold rs. by rewrite Hrs.
      * exfalso. injection Heq as <- _. pose proof (results_tools tc_id (fun tc => h (tc_id tc)) (tool_calls_of m)) as HF.
        cbv beta in HF. fold rs in HF. rewrite Hrs in HF. apply Forall_app in HF as [_ HF]. inversion HF. congruence.
    + destruct (IH k Heq) as (t1 & t2 & -> & -> & ->).
      exists (m :: t1), t2. split_and!; done.
Qed.

(** ** The repair *)

Lemma re_emit_eq results m :
  re_emit results m =
  if is_tool m then [] else emit (fun id => default ABORTED_TOOL_RESULT (results !! id)) m.
Proof. by destruct m. Qed.

Lemma collect_results_lookup results ms id :
  collect_results results ms !! id =
  match results !! id with Some c => Some c | None => first_result id ms end.
Proof.
  revert results. induction ms as [|m ms IH]; intros results; cbn [collect_results].
  { by destruct (results !! id). }
  unfold first_result. destruct m as [c|c|c r tcs|i c]; cbn [find_map result_of]; try apply IH.
  rewrite IH. destruct (results !! i) as [c'|] eqn:Ei.
  - destruct (results !! id) eqn:E; [done|]. destruct (str_eqb i id) eqn:Eb; [|done].
    apply str_eqb_eq in Eb. congruence.
  - destruct (str_eqb i id) eqn:Eb.
    + apply str_eqb_eq in Eb as ->. by rewrite lookup_insert_eq, Ei.
    + rewrite lookup_insert_ne; [done|]. intros ->. by rewrite str_eqb_refl in Eb.
Qed.

Lemma prune_turns ms : turns (prune_orphan_tool_messages ms) = turns ms.
Proof.
  unfold prune_orphan_tool_messages. set (ids := map tc_id _). clearbody ids.
  unfold turns. induction ms as [|m ms IH]; [done|]. cbn [List.filter].
  destruct m as [c|c|c r tcs|i c]; cbn; try (f_equal; apply IH).
  destruct (str_mem i ids); apply IH.
Qed.

Lemma prune_result ms id :
  id ∈ call_ids ms -> first_result id (prune_orphan_tool_messages ms) = first_result id ms.
Proof.
  intros Hid. unfold prune_orphan_tool_messages. fold (call_ids ms).
  revert Hid. generalize (call_ids ms) as ids. intros ids Hid.
  unfold first_result. induction ms as [|m ms IH]; [done|]. cbn [List.filter].
  destruct m as [c|c|c r tcs|i c]; cbn [find_map result_of]; try done.
  destruct (str_mem i ids) eqn:Em; cbn [find_map result_of]; [by rewrite IH|].
  rewrite IH. destruct (str_eqb i id) eqn:Eb; [|done].
  apply str_eqb_eq in Eb as ->. apply str_mem_true in Hid. congruence.
Qed.

Lemma concat_re_emit results ms :
  concat (map (re_emit results) ms) =
  flat (fun id => default ABORTED_TOOL_RESULT (results !! id)) (turns ms).
Proof.
  induction ms as [|m ms IH]; [done|]. cbn [map concat]. rewrite re_emit_eq, IH.
  cbn. by destruct (is_tool m).
Qed.

Lemma call_ids_turns ms : call_ids (turns ms) = call_ids ms.
Proof.
  unfold call_ids, turns. f_equal. induction ms as [|m ms IH]; [done|].
  destruct m; cbn in *; congruence.
Qed.

Lemma call_ids_app a b : call_ids (a ++ b) = call_ids a ++ call_ids b.
Proof. unfold call_ids. by rewrite map_app, concat_app, map_app. Qed.

(** The repair in one equation: every turn, followed by the first result of
    each of its calls. *)
Lemma repair_flat ms : repair_tool_call_pairs ms = flat (result_content ms) (turns ms).
Proof.
  unfold repair_tool_call_pairs. rewrite concat_re_emit, prune_turns.
  apply flat_ext. intros id Hid. rewrite collect_results_lookup, lookup_empty.
  unfold result_content. rewrite prune_result; [done|]. by rewrite <-call_ids_turns.
Qed.

Lemma flat_results h ts id c :
  Forall (fun m => is_tool m = false) ts -> Tool id c ∈ flat h ts -> c = h id /\ id ∈ call_ids ts.
Proof.
  induction 1 as [|t ts Ht _ IH]; [set_solver|]. rewrite flat_cons. unfold call_ids. cbn [map concat].
  rewrite map_app, !elem_of_app. intros [H|H].
  - unfold emit in H. apply elem_of_cons in H as [<-|H]; [done|].
    apply list_elem_of_In, in_map_iff in H as (tc & [= <- <-] & Htc). split; [done|].
    left. by apply list_elem_of_In, in_map.
  - apply IH in H as [-> H]. split; [done|by right].
Qed.

Lemma flat_has_result h ts id : id ∈ call_ids ts -> Tool id (h id) ∈ flat h ts.
Proof.
  unfold call_ids. induction ts as [|t ts IH]; [set_solver|].
  rewrite flat_cons, elem_of_app. cbn [map concat]. rewrite map_app, elem_of_app.
  intros [H|H]; [left|right; by apply IH].
  apply list_elem_of_In, in_map_iff in H as (tc & <- & Htc).
  unfold emit. right. by apply list_elem_of_In, (in_map (fun tc => Tool (tc_id tc) (h (tc_id tc)))).
Qed.

(** When every result of an id has the content [h id] and there is one, the
    emitted content is [h id]. *)
Lemma result_content_const h ms id :
  (forall c, Tool id c ∈ ms -> c = h id) -> Tool id (h id) ∈ ms -> result_content ms id = h id.
Proof.
  unfold result_content, first_result. intros Hall Hin.
  destruct (find_map (result_of id) ms) as [c|] eqn:E.
  - apply find_map_Some in E as (l1 & m & l2 & -> & Hm & _). cbn. apply Hall.
    destruct m as [?|?|? ? ?|i c']; try done. cbn in Hm. destruct (str_eqb i id) eqn:Eb; [|done].
    apply str_eqb_eq in Eb as ->. injection Hm as ->. set_solver.
  - exfalso. clear Hall. induction ms as [|m ms IH]; [set_solver|]. cbn in E.
    destruct (result_of id m) eqn:Er; [done|]. apply elem_of_cons in Hin as [<-|Hin]; [|auto].
    cbn in Er. by rewrite str_eqb_refl in Er.
Qed.

(** A sub-transcript that keeps whole turns is repaired to the same results. *)
Lemma repair_sub h ms :
  (forall id c, Tool id c ∈ ms -> c = h id) ->
  (forall id, id ∈ call_ids ms -> Tool id (h id) ∈ ms) ->
  repair_tool_call_pairs ms = flat h (turns ms).
Proof.
  intros Hall Hin. rewrite repair_flat. apply flat_ext. intros id Hid.
  rewrite call_ids_turns in Hid. apply result_content_const; auto.
Qed.

Lemma repair_flat_fix h ts :
  Forall (fun m => is_tool m = false) ts -> repair_tool_call_pairs (flat h ts) = flat h ts.
Proof.
  intros Hts. rewrite (repair_sub h); rewrite ?turns_flat by done; [done| |].
  - intros id c Hc. by apply (flat_results h ts).
  - intros id Hid. rewrite <-call_ids_turns, turns_flat in Hid by done. by apply flat_has_result.
Qed.

(** ** Valid transcripts are fixed points *)

Definition tool_ids (ms : list Message) : list str :=
  concat (map (fun m => match m with Tool id _ => [id] | _ => [] end) ms).

Lemma tool_ids_app a b : tool_ids (a ++ b) = tool_ids a ++ tool_ids b.
Proof. unfold tool_ids. by rewrite map_app, concat_app. Qed.

Lemma call_ids_tools ms : Forall (fun m => is_tool m = true) ms -> call_ids ms = [].
Proof. induction 1 as [|m ms Hm _ IH]; [done|]. by destruct m. Qed.

Lemma answers_tools tcs rs :
  Forall2 answers tcs rs -> Forall (fun m => is_tool m = true) rs /\ tool_ids rs = map tc_id tcs.
Proof.
  induction 1 as [|tc r tcs rs [c ->] _ [IH1 IH2]]; [done|]. split; [by constructor|].
  cbn. f_equal. exact IH2.
Qed.

Lemma paired_ids ms : paired ms -> tool_ids ms = call_ids ms.
Proof.
  induction 1 as [|m rs ms Hm Hrs _ IH]; [done|]. destruct (answers_tools _ _ Hrs) as [Hf Hi].
  change (m :: rs ++ ms) with ([m] ++ rs ++ ms).
  rewrite !tool_ids_app, !call_ids_app, IH, Hi, (call_ids_tools rs Hf).
  destruct m as [c|c|c r tcs|i c]; try done; try (by destruct rs; inversion Hrs).
  unfold call_ids at 2. cbn. by rewrite app_nil_r.
Qed.

Lemma paired_turns_flat h ms :
  paired ms -> (forall id c, Tool id c ∈ ms -> c = h id) -> flat h (turns ms) = ms.
Proof.
  induction 1 as [|m rs ms Hm Hrs _ IH]; intros Hall; [done|].
  destruct (answers_tools _ _ Hrs) as [Hf _].
  change (m :: rs ++ ms) with ([m] ++ rs ++ ms) in *. rewrite !turns_app, (turns_tools rs Hf).
  cbn [turns List.filter]. rewrite Hm. cbn [negb app]. rewrite flat_cons, IH by set_solver.
  unfold emit. cbn [app]. f_equal. f_equal.
  assert (Hr : forall id c, Tool id c ∈ rs -> c = h id) by set_solver. clear -Hrs Hr.
  induction Hrs as [|tc r tcs rs [c ->] _ IH]; [done|]. cbn. f_equal.
  - f_equal. symmetry. apply Hr. by left.
  - apply IH. set_solver.
Qed.

Lemma tool_ids_unique ms id c c' :
  NoDup (tool_ids ms) -> Tool id c ∈ ms -> Tool id c' ∈ ms -> c = c'.
Proof.
  assert (Hin : forall ms d, Tool id d ∈ ms -> id ∈ tool_ids ms).
  { clear. intros ms d H. apply list_elem_of_split in H as (a & b & ->).
    rewrite tool_ids_app. set_solver. }
  induction ms as [|m ms IH]; intros Hnd H H'; [set_solver|].
  change (m :: ms) with ([m] ++ ms) in *. rewrite tool_ids_app in Hnd.
  apply NoDup_app in Hnd as (_ & Hd & Hnd).
  apply elem_of_app in H as [H%list_elem_of_singleton|H];
    apply elem_of_app in H' as [H'%list_elem_of_singleton|H']; subst; try (by auto); try congruence.
  - exfalso. apply (Hd id); [by left|by eapply Hin].
  - exfalso. apply (Hd id); [by left|by eapply Hin].
Qed.

Lemma repair_valid ms :
  paired ms -> NoDup (call_ids ms) -> repair_tool_call_pairs ms = ms.
Proof.
  intros Hp Hnd. rewrite repair_flat. apply paired_turns_flat; [done|].
  intros id c Hc. symmetry. apply (result_content_const (fun _ => c)); [|done].
  intros c' Hc'. eapply tool_ids_unique; [|exact Hc'|exact Hc]. by rewrite paired_ids.
Qed.

(** Pairing is a matter of shape. *)
Lemma pairing_shape_paired ms ms' :
  paired ms -> pairing_shape ms' = pairing_shape ms -> paired ms'.
Proof.
  intros Hp. revert ms'. induction Hp as [|m rs ms Hm Hrs _ IH]; intros ms' Hs.
  { by destruct ms'; [constructor|]. }
  destruct ms' as [|m' ms']; [done|]. unfold pairing_shape in Hs. cbn [map] in Hs.
  rewrite map_app in Hs. injection Hs as Hhd Hs.
  apply map_eq_app in Hs as (rs' & ms2 & -> & Hrs' & Hms2).
  assert (Hm' : is_tool m' = false /\ map tc_id (tool_calls_of m') = map tc_id (tool_calls_of m)).
  { destruct m, m'; try discriminate; try done. by injection Hhd. }
  destruct Hm' as [Hm' Hids]. constructor; [done| |by apply IH].
  revert Hids. generalize (tool_calls_of m'). revert rs' Hrs'. clear -Hrs.
  induction Hrs as [|tc r tcs rs [c ->] _ IH]; intros rs' Hrs' tcs' Hids.
  - by destruct tcs', rs'.
  - destruct tcs' as [|tc' tcs'], rs' as [|r' rs']; try done.
    cbn in Hids, Hrs'. injection Hids as Htc Hids. injection Hrs' as Hr Hrs'.
    constructor; [|by apply IH]. destruct r' as [?|?|? ? ?|i c']; try discriminate.
    exists c'. congruence.
Qed.

(** ** The pinned window *)

Lemma last_checkpoint_None i ms a x b :
  last_checkpoint i ms = None -> ms = a ++ x :: b -> 2 <= i + length a -> is_checkpoint x = false.
Proof.
  revert i ms. induction a as [|y a IH]; intros i ms H -> Hle; cbn [last_checkpoint app] in H.
  - destruct (last_checkpoint (S i) b); [done|]. cbn in Hle.
    destruct (Nat.leb_spec 2 i); [|lia]. by destruct (is_checkpoint x).
  - destruct (last_checkpoint (S i) (a ++ x :: b)) eqn:E; [done|].
    eapply IH; [exact E|done|cbn in Hle; lia].
Qed.

Lemma last_checkpoint_Some i ms j :
  last_checkpoint i ms = Some j ->
  exists a m b, ms = a ++ m :: b /\ j = i + length a /\ 2 <= j /\ is_checkpoint m = true /\
    Forall (fun m => is_checkpoint m = false) b.
Proof.
  revert i. induction ms as [|m ms IH]; intros i; [done|]. cbn [last_checkpoint].
  destruct (last_checkpoint (S i) ms) as [k|] eqn:E.
  - intros [= ->]. destruct (IH _ E) as (a & m' & b & -> & -> & ?).
    exists (m :: a), m', b. cbn. split_and!; [done|lia|tauto..].
  - destruct (Nat.leb_spec 2 i) as [Hi|Hi], (is_checkpoint m) eqn:Em; try done. intros [= <-].
    exists [], m, ms. cbn. split_and!; [done|lia|done|done|].
    apply Forall_forall. intros x Hx. apply list_elem_of_split in Hx as (a & b & Hms).
    eapply last_checkpoint_None; [exact E|exact Hms|lia].
Qed.

Lemma checkpoint_turn m : is_checkpoint m = true -> is_tool m = false /\ tool_calls_of m = [].
Proof. by destruct m. Qed.

(** The turns compaction must keep: the pinned pair, then either nothing or a
    run that ends in the newest checkpoint. *)
Definition pinned_turns (P : list Message) : Prop :=
  exists s g P', P = System s :: User g :: P' /\
    Forall (fun m => is_tool m = false) P' /\
    (P' = [] \/ exists Q c, P' = Q ++ [c] /\ is_checkpoint c = true).

Lemma pinned_turns_prefix s g rest :
  let ms := System s :: User g :: rest in
  pinned_turns (turns (take (pinned_prefix_end ms) ms)).
Proof.
  intros ms. unfold pinned_prefix_end. destruct (last_checkpoint 0 ms) as [j|] eqn:E.
  - apply last_checkpoint_Some in E as (a & c & b & Hms & -> & Hle & Hc & _).
    destruct (checkpoint_turn c Hc) as [Ht _]. destruct a as [|m1 [|m2 a]]; [cbn in Hle; lia..|].
    unfold ms in *. clear ms. injection Hms as <- <- ->. cbn [length]. rewrite Nat.add_1_r.
    cbn [take Nat.add]. replace (S (length a)) with (length (a ++ [c])) by (rewrite length_app; cbn; lia).
    change (a ++ c :: b) with (a ++ [c] ++ b). rewrite app_assoc, take_app_length.
    exists s, g, (turns (a ++ [c])). split_and!; [done|apply turns_not_tool|right].
    rewrite turns_app. exists (turns a), c. cbn. by rewrite Ht.
  - exists s, g, []. split_and!; [done|constructor|by left].
Qed.

Lemma pinned_turns_not_tool P : pinned_turns P -> Forall (fun m => is_tool m = false) P.
Proof. intros (s & g & P' & -> & H & _). by repeat constructor. Qed.

Lemma flat_in h ts t : t ∈ ts -> t ∈ flat h ts.
Proof.
  induction ts as [|u ts IH]; [set_solver|]. rewrite flat_cons.
  intros [->|Hin]%elem_of_cons; apply elem_of_app; [left; by left|right; auto].
Qed.

(** The pinned window of a repaired transcript is a run of whole turns that
    contains the turns to keep. *)
Lemma pinned_split h P ts :
  pinned_turns P -> Forall (fun m => is_tool m = false) ts ->
  exists ts1 ts2, ts = ts1 ++ ts2 /\
    pinned_prefix_end (flat h (P ++ ts)) = length (flat h (P ++ ts1)).
Proof.
  intros HP Hts. pose proof (pinned_turns_not_tool P HP) as HPt.
  destruct HP as (s & g & P' & HPeq & HP' & Hend).
  assert (HPts : Forall (fun m => is_tool m = false) (P ++ ts)) by (by apply Forall_app).
  unfold pinned_prefix_end. destruct (last_checkpoint 0 (flat h (P ++ ts))) as [j|] eqn:E.
  - apply last_checkpoint_Some in E as (a & c & b & Heq & -> & Hle & Hc & Hb).
    destruct (checkpoint_turn c Hc) as [Hct Hcc].
    destruct (flat_split _ _ _ _ _ HPts Hct Heq) as (us1 & us2 & Hus & -> & Hbeq).
    rewrite Hcc in Hbeq. cbn [map app] in Hbeq. subst b.
    assert (Hlen : length (flat h us1) + 1 = length (flat h (us1 ++ [c]))).
    { rewrite flat_app, length_app. cbn. rewrite Hcc. cbn. lia. }
    cbn [Nat.add]. rewrite Hlen. rewrite (cons_middle c us1 us2) in Hus. rewrite app_assoc in Hus.
    apply List.app_eq_app in Hus as [k [[HPk Hus]|[HPk Hus]]].
    + destruct k as [|x k].
      { exists [], ts. split; [done|]. rewrite app_nil_r in *. by rewrite HPk. }
      exfalso. subst us2.
      destruct Hend as [->|(Q & c' & -> & Hc')].
      * rewrite HPeq in HPk. destruct us1 as [|u1 [|u2 us1]]; try (apply (f_equal length) in HPk;
          rewrite !length_app in HPk; cbn in HPk; lia); cbn in HPk; injection HPk as; simplify_eq.
        -- cbn in Hle. lia.
      * assert (Hin : c' ∈ x :: k).
        { rewrite HPeq in HPk. apply (f_equal last) in HPk. rewrite (last_app _ (x :: k)) in HPk.
          destruct (last (x :: k)) as [y|] eqn:El; [|by apply last_None in El].
          change (System s :: User g :: Q ++ [c']) with ((System s :: User g :: Q) ++ [c']) in HPk.
          rewrite last_snoc in HPk. injection HPk as ->. by apply last_Some_elem_of in El. }
        rewrite Forall_forall in Hb. rewrite (Hb c') in Hc'; [done|].
        rewrite flat_app. apply elem_of_app. left. by apply flat_in.
    + exists k, us2. split; [done|]. by rewrite <-HPk.
  - exists [], ts. split; [done|]. rewrite app_nil_r.
    destruct Hend as [->|(Q & c' & -> & Hc')]; [by rewrite HPeq|]. exfalso.
    assert (Hf : flat h (P ++ ts) = (System s :: User g :: flat h Q) ++ c' ::
      (map (fun tc => Tool (tc_id tc) (h (tc_id tc))) (tool_calls_of c') ++ flat h ts)).
    { rewrite HPeq, flat_app, !flat_cons, flat_app, <-!app_assoc. cbn. rewrite app_nil_r. done. }
    pose proof (last_checkpoint_None _ _ _ _ _ E Hf) as Hn. rewrite Hn in Hc'; [done|]. cbn; lia.
Qed.

(** ** Compaction *)

Section compaction.
Context `{T : Tokenizer}.

Lemma count_tokens_app a b : count_tokens (a ++ b) = count_tokens a + count_tokens b.
Proof. apply sum_with_app. Qed.

Lemma message_tokens_pos m : 3 <= message_tokens m.
Proof. unfold message_tokens. lia. Qed.

Lemma length_le_tokens ms : length ms <= count_tokens ms.
Proof.
  induction ms as [|m ms IH]; [done|]. unfold count_tokens in *. cbn.
  pose proof (message_tokens_pos m). lia.
Qed.

Lemma flat_length h ts : length ts <= length (flat h ts).
Proof.
  induction ts as [|t ts IH]; [done|]. rewrite flat_cons, length_app. cbn. lia.
Qed.

Lemma retain_tail_suffix target total rt kept :
  exists pre, rev rt ++ kept = pre ++ retain_tail target total rt kept.
Proof.
  revert total kept. induction rt as [|m rt IH]; intros total kept; cbn [retain_tail].
  - by exists [].
  - case_match; [by exists (rev (m :: rt))|]. cbn [rev]. rewrite <-app_assoc. apply IH.
Qed.

(** The loop always ends: each pass shrinks the token count. *)
Lemma retrim_terminates fuel target ms :
  count_tokens ms < fuel -> exists r, retrim fuel target ms = Some r.
Proof.
  revert ms. induction fuel as [|fuel IH]; intros ms Hf; [lia|]. cbn [retrim].
  destruct (target <? count_tokens ms); [|by eexists].
  destruct (length ms <=? _); [by eexists|].
  set (ms' := repair_tool_call_pairs _).
  destruct (Nat.leb_spec (count_tokens ms) (count_tokens ms')); [by eexists|]. apply IH. lia.
Qed.

Lemma retrim_paired fuel target ms ms' b :
  paired ms -> retrim fuel target ms = Some (ms', b) -> paired ms'.
Proof.
  revert ms. induction fuel as [|fuel IH]; intros ms Hp; [done|]. cbn [retrim].
  assert (Hr : forall l, paired (repair_tool_call_pairs l)).
  { intros l. rewrite repair_flat. apply paired_flat, turns_not_tool. }
  repeat case_match; try (intros [= <- <-]; by auto). apply IH, Hr.
Qed.

(** Removing one turn of a repaired transcript and repairing again drops that
    turn and its results, nothing else. *)
Lemma repair_remove h us1 t us2 :
  Forall (fun m => is_tool m = false) (us1 ++ t :: us2) ->
  repair_tool_call_pairs
    (flat h us1 ++ map (fun tc => Tool (tc_id tc) (h (tc_id tc))) (tool_calls_of t) ++ flat h us2)
  = flat h (us1 ++ us2).
Proof.
  intros Ht. set (rs := map _ _). assert (Hrs : Forall (fun m => is_tool m = true) rs) by apply results_tools.
  assert (Hall : Forall (fun m => is_tool m = false) (us1 ++ us2)).
  { rewrite !Forall_app in *. destruct Ht as [? [_ ?]%Forall_cons]. done. }
  apply Forall_app in Hall as [H1 H2].
  rewrite (repair_sub h).
  - by rewrite !turns_app, !turns_flat, (turns_tools rs).
  - intros id c Hin. assert (Hin' : Tool id c ∈ flat h (us1 ++ t :: us2)).
    { rewrite flat_app, flat_cons. unfold emit. fold rs. set_solver. }
    by apply (flat_results h _ _ _ Ht) in Hin' as [-> _].
  - intros id. rewrite !call_ids_app, (call_ids_tools rs Hrs), app_nil_l.
    rewrite <-!(call_ids_turns (flat _ _)), !turns_flat by done.
    rewrite !elem_of_app. intros [H|H]; [left|right; right]; by apply flat_has_result.
Qed.

Lemma retrim_pinned h P ts target fuel :
  pinned_turns P -> Forall (fun m => is_tool m = false) ts -> length ts < fuel ->
  exists ts' b, retrim fuel target (flat h (P ++ ts)) = Some (flat h (P ++ ts'), b) /\
    ts' `sublist_of` ts /\
    let final := flat h (P ++ ts') in
    if b : bool then target < count_tokens (take (min (pinned_prefix_end final) (length final)) final)
    else count_tokens final <= target.
Proof.
  intros HP. revert ts. induction fuel as [|fuel IH]; intros ts Hts Hf; [lia|]. cbn [retrim].
  destruct (Nat.ltb_spec target (count_tokens (flat h (P ++ ts)))) as [Hover|Hfit].
  2: { exists ts, false. done. }
  destruct (pinned_split h P ts HP Hts) as (ts1 & ts2 & -> & Hpin). rewrite Hpin.
  rewrite app_assoc, (flat_app h (P ++ ts1) ts2), length_app.
  destruct ts2 as [|t ts2].
  { cbn [flat map concat length]. rewrite Nat.add_0_r, Nat.min_id, Nat.leb_refl.
    exists ts1, true. rewrite !app_nil_r in *. split_and!; [done|done|]. cbv zeta.
    rewrite Hpin, Nat.min_id, firstn_all. done. }
  rewrite (Nat.min_l (length (flat h (P ++ ts1)))) by lia.
  pose proof (flat_length h (t :: ts2)) as Hlen. cbn in Hlen.
  rewrite (proj2 (Nat.leb_gt _ _)) by (cbn in Hlen |- *; lia).
  assert (Hdel : delete (length (flat h (P ++ ts1))) (flat h (P ++ ts1) ++ flat h (t :: ts2)) =
    flat h (P ++ ts1) ++ map (fun tc => Tool (tc_id tc) (h (tc_id tc))) (tool_calls_of t) ++ flat h ts2).
  { rewrite flat_cons. unfold emit. cbn [app]. by rewrite delete_middle. }
  rewrite Hdel, repair_remove.
  2: { pose proof (pinned_turns_not_tool P HP). rewrite <-app_assoc. by apply Forall_app. }
  assert (Hdec : count_tokens (flat h ((P ++ ts1) ++ ts2)) <
    count_tokens (flat h (P ++ ts1) ++ flat h (t :: ts2))).
  { rewrite flat_app, flat_cons, !count_tokens_app. unfold emit.
    change (t :: ?l) with ([t] ++ l). rewrite count_tokens_app. pose proof (length_le_tokens [t]). cbn in *. lia. }
  rewrite (proj2 (Nat.leb_gt _ _) Hdec), <-app_assoc.
  destruct (IH (ts1 ++ ts2)) as (ts' & b & Heq & Hsub & Hres).
  - rewrite !Forall_app, Forall_cons in *. tauto.
  - rewrite !length_app in *. cbn in Hf. lia.
  - exists ts', b. split_and!; [done| |done]. etrans; [exact Hsub|].
    apply sublist_app; [done|]. by apply sublist_cons.
Qed.
Lemma retrim_fits fuel target ms ms' :
  retrim fuel target ms = Some (ms', false) -> count_tokens ms' <= target.
Proof.
  revert ms. induction fuel as [|fuel IH]; intros ms; [done|]. cbn [retrim].
  destruct (Nat.ltb_spec target (count_tokens ms)); [|by intros [= <-]].
  repeat case_match; try done. apply IH.
Qed.

(** The reported pinned cost of a failed compaction. *)
Definition reported_pinned (o : CompactionOutcome) : nat :=
  match o with TargetUnreachable p _ _ _ _ _ _ => p | _ => 0 end.

Lemma relax_advisory_messages e : messages (relax_advisory e) = messages e.
Proof. unfold relax_advisory. by case_match. Qed.
Lemma relax_advisory_fields e :
  max_context_tokens (relax_advisory e) = max_context_tokens e /\
  tool_schema_tokens (relax_advisory e) = tool_schema_tokens e /\
  consecutive_rebirths (relax_advisory e) = consecutive_rebirths e.
Proof. unfold relax_advisory. by case_match. Qed.

(** The two ends of [compact], from the result of the re-trim. *)
Lemma compact_cases e :
  let target := compaction_target (max_context_tokens e) in
  let prefix_end := min (pinned_prefix_end (messages e)) (length (messages e)) in
  let pins := take prefix_end (messages e) in
  exists o e', compact e = Some (o, e') /\
    max_context_tokens e' = max_context_tokens e /\ tool_schema_tokens e' = tool_schema_tokens e /\
    final_tokens o = token_count e' /\ outcome_target o = target /\
    tokens_reclaimed o = token_count e - token_count e' /\
    messages_removed o = length (messages e) - length (messages e') /\
    ((target < count_tokens pins /\ messages e' = repair_tool_call_pairs pins /\
      succeeded o = false /\ reported_pinned o = count_tokens pins) \/
     (exists kept b fuel, count_tokens pins <= target /\
       (exists pre, drop prefix_end (messages e) = pre ++ kept) /\
       let repaired := repair_tool_call_pairs (pins ++ kept) in
       fuel = S (count_tokens repaired) /\
       retrim fuel target repaired = Some (messages e', b) /\ succeeded o = negb b /\
       (b = true -> reported_pinned o =
          count_tokens (take (min (pinned_prefix_end (messages e')) (length (messages e'))) (messages e'))))).
Proof.
  intros target prefix_end pins. unfold compact. fold target prefix_end pins.
  destruct (Nat.ltb_spec target (count_tokens pins)) as [Hover|Hfit].
  { eexists _, _. split; [done|]. split_and!; try done. by left. }
  destruct (retain_tail_suffix target (count_tokens pins) (rev (drop prefix_end (messages e))) []) as [pre Hpre].
  rewrite rev_involutive, app_nil_r in Hpre.
  set (kept := retain_tail _ _ _ _) in *.
  destruct (retrim_terminates (S (count_tokens (repair_tool_call_pairs (pins ++ kept)))) target
    (repair_tool_call_pairs (pins ++ kept))) as [[final b] Hr]; [lia|].
  rewrite Hr. destruct b; eexists _, _; (split; [done|]).
  - split_and!; try done. right. exists kept, true. eexists. split_and!; eauto.
  - unfold bump_compaction, token_count, with_stats. cbn [messages max_context_tokens tool_schema_tokens].
    rewrite !relax_advisory_messages. destruct (relax_advisory_fields (with_messages e final)) as (-> & -> & _).
    split_and!; try done. right. exists kept, false. eexists. split_and!; eauto. done.
Qed.

End compaction.

(** ** Properties: the pairing repair *)

(** C25: repairing any transcript keeps every turn, in order, drops every tool
    result that stood elsewhere and emits under each turn exactly one result per
    call, in call order: the first result recorded for the id, or the aborted
    placeholder. The result is a valid paired transcript, and repairing again
    changes nothing. *)
Theorem repair_spec ms :
  repair_tool_call_pairs ms = flat (result_content ms) (turns ms) /\
  paired (repair_tool_call_pairs ms) /\
  turns (repair_tool_call_pairs ms) = turns ms /\
  repair_tool_call_pairs (repair_tool_call_pairs ms) = repair_tool_call_pairs ms.
Proof.
  rewrite repair_flat. split_and!; [done| | |].
  - apply paired_flat, turns_not_tool.
  - apply turns_flat, turns_not_tool.
  - apply repair_flat_fix, turns_not_tool.
Qed.

(** On a transcript whose call ids are distinct, the guard's answer is
    exact: it reports no change exactly when it left the transcript as it was,
    which is exactly when the transcript was paired; afterwards the transcript
    is paired, with the same turns. *)
Theorem ensure_tool_call_pairs_spec e :
  NoDup (call_ids (messages e)) ->
  let (changed, e') := ensure_tool_call_pairs e in
  paired (messages e') /\ turns (messages e') = turns (messages e) /\
  (changed = false <-> messages e' = messages e) /\
  (changed = false <-> paired (messages e)).
Proof.
  intros Hnd. unfold ensure_tool_call_pairs. cbn [with_messages messages].
  assert (Hp : paired (repair_tool_call_pairs (messages e)))
    by (rewrite repair_flat; apply paired_flat, turns_not_tool).
  assert (Hshape : bool_decide (pairing_shape (repair_tool_call_pairs (messages e)) =
                     pairing_shape (messages e)) = true <-> paired (messages e)).
  { rewrite bool_decide_eq_true. split.
    - intros H. by eapply pairing_shape_paired.
    - intros H. by rewrite repair_valid. }
  rewrite !negb_false_iff. split_and!; [done| |split|done].
  - rewrite repair_flat. apply turns_flat, turns_not_tool.
  - intros H%Hshape. by apply repair_valid.
  - intros Heq. apply Hshape. by rewrite <-Heq.
Qed.

(** with a reused call id the guard is not exact: on this two-round
    transcript it replaces the second result by the first and reports that
    nothing changed. *)
Theorem ensure_overwrites_reused_id :
  let call := {| tc_id := lit "call_0"; tc_kind := lit "function";
                 tc_function := {| fn_name := lit "glob"; fn_arguments := lit "{}" |} |} in
  let round (c : str) := [Assistant None None [call]; Tool (lit "call_0") c] in
  let e := with_messages (new 1000)
    ([System (lit "s"); User (lit "g")] ++ round (lit "first") ++ round (lit "second")) in
  ensure_tool_call_pairs e =
    (false, with_messages e
      ([System (lit "s"); User (lit "g")] ++ round (lit "first") ++ round (lit "first"))).
Proof. vm_compute. reflexivity. Qed.

(** a capture taken after the repair never records a dangling call or an
    orphaned result. *)
Theorem observe_after_repair ms :
  match observe (map from_wire (repair_tool_call_pairs ms)) with
  | Balanced | Healed _ => True
  | Dangling _ | OrphanedResults _ => False
  end.
Proof.
  assert (Hp : paired (repair_tool_call_pairs ms))
    by (rewrite repair_flat; apply paired_flat, turns_not_tool).
  apply paired_ids in Hp. revert Hp. generalize (repair_tool_call_pairs ms) as l. intros l Hids.
  assert (Hr : observe_results (map from_wire l) = tool_ids l).
  { unfold observe_results, tool_ids. f_equal. rewrite map_map. apply map_ext. by intros []. }
  assert (Hpar : map rtc_id (observe_parents (map from_wire l)) = call_ids l).
  { unfold observe_parents, call_ids. rewrite map_map, !concat_map, !map_map. f_equal.
    apply map_ext. intros []; try done. cbn. rewrite map_map. by apply map_ext. }
  assert (Hnil : forall {A} (p : A -> bool) k, (forall x, x ∈ k -> p x = false) -> List.filter p k = []).
  { intros A p k Hk. induction k as [|x k IH]; [done|]. cbn. rewrite Hk by (by left).
    apply IH. intros y Hy. apply Hk. by right. }
  unfold observe. rewrite Hr, Hpar, Hids.
  rewrite (Hnil str). 2: { intros id Hid. by apply negb_false_iff, str_mem_true. }
  rewrite (Hnil ToolCallRecord). 2: { intros tc Htc. apply negb_false_iff, str_mem_true.
    rewrite <-Hpar. by apply list_elem_of_In, in_map, list_elem_of_In. }
  cbv zeta. cbn [is_empty negb map]. by destruct (is_empty _).
Qed.

(** ** Properties: compaction *)

Section compaction_properties.
Context `{T : Tokenizer}.

(** C2: compaction always returns, whatever the transcript; its result is a
    paired transcript and its report is truthful: the final count, the reclaimed
    tokens and the removed messages are those of the final transcript, and it
    claims success only when the transcript fits the target, after which (no
    tool schemas charged) it does not trigger again. *)
Theorem compact_total_truthful e :
  exists o e', compact e = Some (o, e') /\ paired (messages e') /\
    outcome_target o = compaction_target (max_context_tokens e) /\
    final_tokens o = token_count e' /\
    tokens_reclaimed o = token_count e - token_count e' /\
    messages_removed o = length (messages e) - length (messages e') /\
    (succeeded o = true -> token_count e' <= compaction_target (max_context_tokens e) /\
       (tool_schema_tokens e = 0 -> should_compact e' = false)).
Proof.
  destruct (compact_cases e) as (o & e' & Hc & Hm & Hs & Hf & Ht & Hr & Hn & Hcase).
  exists o, e'. split; [done|].
  assert (Hp : forall l, paired (repair_tool_call_pairs l))
    by (intros l; rewrite repair_flat; apply paired_flat, turns_not_tool).
  split_and!; try done.
  - destruct Hcase as [(_ & -> & _)|(kept & b & fuel & _ & _ & _ & Hret & _)]; [done|].
    eapply retrim_paired; [|exact Hret]. done.
  - intros Hok. destruct Hcase as [(_ & _ & Hno & _)|(kept & b & fuel & _ & _ & _ & Hret & Hb & _)];
      [congruence|]. rewrite Hok in Hb. destruct b; [done|]. apply retrim_fits in Hret.
    split; [done|]. intros Hz. unfold should_compact, request_token_count.
    rewrite Hs, Hz, Hm. apply Nat.ltb_ge. unfold token_count.
    pose proof (target_le_trigger (max_context_tokens e)). lia.
Qed.

Lemma pinned_prefix_end_ge ms : 2 <= pinned_prefix_end ms.
Proof.
  unfold pinned_prefix_end. destruct (last_checkpoint 0 ms) eqn:E; [|lia].
  apply last_checkpoint_Some in E as (? & ? & ? & _ & _ & ? & _). lia.
Qed.

Lemma take_drop_min {A} n (l : list A) :
  take (min n (length l)) l = take n l /\ drop (min n (length l)) l = drop n l.
Proof.
  destruct (Nat.min_spec n (length l)) as [[_ ->]|[Hle ->]]; [done|].
  by rewrite firstn_all, take_ge, drop_all, drop_ge.
Qed.

(** The result of compacting a transcript with its pinned pair in place. *)
Lemma compact_flat e s g rest :
  messages e = System s :: User g :: rest ->
  let pe := pinned_prefix_end (messages e) in
  exists o e' h kept, compact e = Some (o, e') /\
    messages e' = flat h (turns (take pe (messages e)) ++ kept) /\
    kept `sublist_of` turns (drop pe (messages e)) /\
    (succeeded o = false -> compaction_target (max_context_tokens e) < reported_pinned o).
Proof.
  intros Hms pe. destruct (compact_cases e) as (o & e' & Hc & _ & _ & _ & _ & _ & _ & Hcase).
  fold pe in Hcase. destruct (take_drop_min pe (messages e)) as [Htake Hdrop].
  rewrite Htake, Hdrop in Hcase. set (P := turns (take pe (messages e))).
  assert (HP : pinned_turns P) by (unfold P, pe; rewrite Hms; apply pinned_turns_prefix).
  exists o, e'. destruct Hcase as [(Hover & -> & _ & ->)|(kept & b & fuel & _ & [pre Hpre] & -> & Hret & Hb & Hrep)].
  - eexists _, []. rewrite repair_flat, app_nil_r. split_and!; [done|done| |done].
    apply sublist_nil_l.
  - rewrite repair_flat, turns_app in Hret. fold P in Hret.
    set (h := result_content _) in Hret.
    destruct (retrim_pinned h P (turns kept) (compaction_target (max_context_tokens e))
      (S (count_tokens (flat h (P ++ turns kept)))) HP (turns_not_tool _)) as (ts' & b' & Hret' & Hsub & Hcost).
    { pose proof (length_le_tokens (flat h (P ++ turns kept))).
      pose proof (flat_length h (P ++ turns kept)). rewrite length_app in *. lia. }
    rewrite Hret' in Hret. injection Hret as Hfin ->. exists h, ts'. split_and!; [done|done| |].
    + etrans; [exact Hsub|]. rewrite Hpre, turns_app. by apply sublist_inserts_l.
    + intros Hno. rewrite Hno in Hb. destruct b; [|done]. rewrite (Hrep eq_refl), <-Hfin. exact Hcost.
Qed.

(** C1: compaction of a transcript with its pinned pair in place keeps the pair
    at [0] and [1] and every turn of the pinned window, in order; of the later
    turns it keeps a subsequence; and it gives up only when the pinned window of
    the result alone costs more than the target. *)
Theorem compact_keeps_pins e s g rest :
  messages e = System s :: User g :: rest ->
  let pe := pinned_prefix_end (messages e) in
  exists o e' kept rest', compact e = Some (o, e') /\
    messages e' = System s :: User g :: rest' /\
    turns (messages e') = turns (take pe (messages e)) ++ kept /\
    kept `sublist_of` turns (drop pe (messages e)) /\
    (succeeded o = false -> compaction_target (max_context_tokens e) < reported_pinned o).
Proof.
  intros Hms pe. destruct (compact_flat e s g rest Hms) as (o & e' & h & kept & Hc & Hfin & Hsub & Hno).
  fold pe in Hfin, Hsub.
  assert (HP : pinned_turns (turns (take pe (messages e)))) by (unfold pe; rewrite Hms; apply pinned_turns_prefix).
  destruct HP as (s' & g' & P' & HPeq & HP' & Hend).
  assert (Hhd : s' = s /\ g' = g).
  { pose proof (pinned_prefix_end_ge (messages e)) as Hpe. fold pe in Hpe.
    rewrite Hms in HPeq. destruct pe as [|[|pe']]; [lia..|]. cbn in HPeq. by injection HPeq as -> -> _. }
  destruct Hhd as [-> ->].
  exists o, e', kept, (flat h (P' ++ kept)). split_and!; try done.
  - by rewrite Hfin, HPeq.
  - rewrite Hfin. apply turns_flat. apply Forall_app. split; [apply turns_not_tool|].
    eapply Forall_sublist; [exact Hsub|]. apply turns_not_tool.
Qed.
End compaction_properties.

(** ** Properties: rebirth and the session seams *)

Section rebirth.
Context `{T : Tokenizer}.


Definition checkpoint_message (summary : str) : Message :=
  User (REBIRTH_CHECKPOINT_PREFIX ++ summary ++ lit ")").

Lemma checkpoint_is_checkpoint summary : is_checkpoint (checkpoint_message summary) = true.
Proof. apply starts_with_app. Qed.

Lemma checkpoint_advisory summary :
  is_injected_advisory (REBIRTH_CHECKPOINT_PREFIX ++ summary ++ lit ")") = true.
Proof.
  unfold is_injected_advisory. apply existsb_exists. exists REBIRTH_CHECKPOINT_PREFIX.
  split; [|apply starts_with_app]. unfold INJECTED_ADVISORY_PREFIXES. do 3 right. by left.
Qed.

(** The transcript a rebirth leaves. *)
Definition reborn (ms : list Message) (summary : str) : list Message :=
  let sys := match head ms with Some (System c) => c | _ => [] end in
  let goal := match ms !! 1 with Some (User c) => c | _ => [] end in
  [System sys; User goal]
  ++ (match find_map (genuine_instruction goal) (rev (drop 2 ms)) with
      | Some i => [User i] | None => [] end)
  ++ [checkpoint_message summary].

Lemma perform_rebirth_messages e summary :
  messages (perform_rebirth e summary) = reborn (messages e) summary.
Proof. unfold perform_rebirth. cbn [with_stats messages]. by rewrite relax_advisory_messages. Qed.

Lemma genuine_Some goal m i :
  genuine_instruction goal m = Some i <->
  m = User i /\ i <> goal /\ is_injected_advisory i = false.
Proof.
  destruct m as [c|c|? ? ?|? ?]; cbn [genuine_instruction]; try (split; [done|by intros [? _]]).
  pose proof (str_eqb_eq c goal) as Hg. destruct (str_eqb c goal), (is_injected_advisory c) eqn:Ea;
    cbn [negb andb]; naive_solver.
Qed.

Lemma reborn_pins s g rest summary :
  reborn (System s :: User g :: rest) summary =
  System s :: User g :: (match find_map (genuine_instruction g) (rev rest) with
      | Some i => [User i] | None => [] end) ++ [checkpoint_message summary].
Proof. done. Qed.

Lemma genuine_checkpoint goal summary : genuine_instruction goal (checkpoint_message summary) = None.
Proof. unfold checkpoint_message. cbn [genuine_instruction]. by rewrite checkpoint_advisory, andb_false_r. Qed.

Lemma reborn_reborn ms s1 s2 : reborn (reborn ms s1) s2 = reborn ms s2.
Proof.
  assert (Hshape : exists sys goal, forall s, reborn ms s = System sys :: User goal ::
    (match find_map (genuine_instruction goal) (rev (drop 2 ms)) with
     | Some i => [User i] | None => [] end) ++ [checkpoint_message s]) by (eexists _, _; done).
  destruct Hshape as (sys & goal & Hs). rewrite (Hs s1), (Hs s2), reborn_pins.
  rewrite rev_app_distr. cbn [rev app find_map]. rewrite genuine_checkpoint.
  destruct (find_map (genuine_instruction goal) (rev (drop 2 ms))) as [i|] eqn:E; [|done].
  apply find_map_Some in E as (l1 & m & l2 & _ & Hm & _). apply genuine_Some in Hm as Hm'.
  destruct Hm' as (-> & _). cbn [rev app find_map]. by rewrite Hm.
Qed.

Lemma last_checkpoint_snoc i ms m :
  2 <= i + length ms -> is_checkpoint m = true ->
  last_checkpoint i (ms ++ [m]) = Some (i + length ms).
Proof.
  intros Hle Hm. revert i Hle. induction ms as [|x ms IH]; intros i Hle; cbn [last_checkpoint app].
  - cbn in Hle. rewrite Hm. destruct (Nat.leb_spec 2 i); [|lia]. cbn. by rewrite Nat.add_0_r.
  - cbn [length] in *. rewrite IH by lia. f_equal. lia.
Qed.

(** A rebirth keeps the system prompt and the goal, at most one instruction
    (the last user turn that is neither the goal nor an injected notice) and the
    checkpoint; the result is a paired transcript of three or four messages that
    compaction pins entirely, and a second rebirth keeps all of it but replaces
    the checkpoint. *)
Theorem rebirth_spec e s g rest s1 s2 :
  messages e = System s :: User g :: rest ->
  let ms := messages (perform_rebirth e s1) in
  paired ms /\ pinned_prefix_end ms = length ms /\
  (exists mid, ms = System s :: User g :: mid ++ [checkpoint_message s1] /\
     match mid with
     | [] => forall c, User c ∈ rest -> c = g \/ is_injected_advisory c = true
     | [User i] => i <> g /\ is_injected_advisory i = false /\
         exists before after, rest = before ++ User i :: after /\
           forall c, User c ∈ after -> c = g \/ is_injected_advisory c = true
     | _ => False
     end) /\
  messages (perform_rebirth (perform_rebirth e s1) s2) = messages (perform_rebirth e s2).
Proof.
  intros Hms ms. unfold ms. rewrite !perform_rebirth_messages, reborn_reborn.
  set (mid := match find_map (genuine_instruction g) (rev rest) with
     | Some i => [User i] | None => [] end).
  assert (Hshape : reborn (messages e) s1 = (System s :: User g :: mid) ++ [checkpoint_message s1])
    by (by rewrite Hms).
  rewrite Hshape. split_and!; [| |exists mid; split; [done|]|done].
  - assert (Hf : flat (fun _ => []) ((System s :: User g :: mid) ++ [checkpoint_message s1]) =
      (System s :: User g :: mid) ++ [checkpoint_message s1]) by (unfold mid; by case_match).
    rewrite <-Hf. apply paired_flat. unfold mid. case_match; by repeat constructor.
  - unfold pinned_prefix_end. rewrite last_checkpoint_snoc; [|cbn; lia|apply checkpoint_is_checkpoint].
    rewrite length_app. cbn. lia.
  - assert (Hno : forall l, Forall (fun m => genuine_instruction g m = None) l ->
      forall c, User c ∈ l -> c = g \/ is_injected_advisory c = true).
    { intros l Hl c Hc. rewrite Forall_forall in Hl. specialize (Hl _ Hc). cbn [genuine_instruction] in Hl.
      destruct (str_eqb c g) eqn:Eg; [left; by apply str_eqb_eq|right].
      by destruct (is_injected_advisory c). }
    unfold mid. destruct (find_map (genuine_instruction g) (rev rest)) as [i|] eqn:E.
    + apply find_map_Some in E as (l1 & m & l2 & Hrev & Hm & Hl1).
      apply genuine_Some in Hm as (-> & Hne & Hadv). split_and!; [done|done|].
      exists (rev l2), (rev l1). split.
      * apply (f_equal (@rev _)) in Hrev. rewrite rev_involutive, rev_app_distr in Hrev.
        cbn [rev] in Hrev. by rewrite <-app_assoc in Hrev.
      * apply Hno. apply Forall_rev, Hl1.
    + apply Hno. rewrite <-(rev_involutive rest). apply Forall_rev.
      by apply find_map_None.
Qed.
End rebirth.

Lemma into_from_wire m : into_wire (from_wire m) = m.
Proof.
  destruct m as [?|?|c r tcs|? ?]; try done. cbn. f_equal. rewrite map_map.
  rewrite <-(map_id tcs) at 2. apply map_ext. by intros [? ? []].
Qed.

(** Installing a captured section into a fresh engine, with its flags,
    reproduces the transcript, the budget flags, the pinned window and the
    pairing state of the captured engine; the captured witnesses are those the
    loader recomputes from the records. Capture fails to install only when the
    pinned pair is missing. *)
Theorem capture_restore_roundtrip e max s g rest :
  messages e = System s :: User g :: rest ->
  let sec := capture_manager_section e in
  exists e1, install_restored_messages (new max) (sec_messages sec) = Ret e1 /\
    let e2 := restore_engine_flags e1 (sec_rebirth_advisory_emitted sec) (sec_consecutive_rebirths sec) in
    messages e2 = messages e /\
    rebirth_advisory_emitted e2 = rebirth_advisory_emitted e /\
    consecutive_rebirths e2 = consecutive_rebirths e /\
    pinned_prefix_end (messages e2) = pinned_prefix_end (messages e) /\
    dangling_state e2 = sec_dangling sec /\
    witness_of (sec_messages sec) = Some (sec_pin_witness sec).
Proof.
  intros Hms sec. unfold install_restored_messages. cbn [sec capture_manager_section sec_messages].
  rewrite length_map, Hms. cbn [length Nat.leb]. eexists. split; [done|]. cbn zeta.
  assert (Hid : map into_wire (map from_wire (messages e)) = messages e).
  { rewrite map_map. rewrite <-(map_id (messages e)) at 2. apply map_ext, into_from_wire. }
  rewrite <-Hms. unfold restore_engine_flags, with_flags, with_messages, dangling_state.
  cbn [messages rebirth_advisory_emitted consecutive_rebirths]. rewrite !Hid.
  split_and!; try done. unfold sec, capture_manager_section, pin_witness_of.
  cbn [sec_pin_witness sec_messages]. by rewrite Hms.
Qed.

(** ** Witnesses *)

Section witnesses.
#[local] Instance byte_tokenizer : Tokenizer := {| encode_ordinary_len := length |}.

Definition wcall (id : str) : ToolCall :=
  {| tc_id := id; tc_kind := lit "function";
     tc_function := {| fn_name := lit "glob"; fn_arguments := lit "{}" |} |}.
Definition transcript : list Message :=
  [System (lit "s"); User (lit "g"); Assistant None None [wcall (lit "a"); wcall (lit "b")];
   Tool (lit "b") (lit "found it"); User (lit "go on")].
Definition engine (max : nat) : ContextEngine := with_messages (new max) transcript.

Lemma ensure_tool_call_pairs_witness :
  (ensure_tool_call_pairs (engine 50)).1 = true /\
  let (changed, e') := ensure_tool_call_pairs (engine 50) in
  paired (messages e') /\ turns (messages e') = turns transcript /\
  (changed = false <-> messages e' = transcript) /\ (changed = false <-> paired transcript).
Proof.
  split; [vm_compute; reflexivity|].
  apply (ensure_tool_call_pairs_spec (engine 50)). by apply (bool_decide_unpack _).
Defined.

Lemma compact_keeps_pins_witness :
  exists o e' kept rest', compact (engine 50) = Some (o, e') /\
    messages e' = System (lit "s") :: User (lit "g") :: rest' /\
    turns (messages e') = turns (take 2 transcript) ++ kept /\
    kept `sublist_of` turns (drop 2 transcript) /\
    (succeeded o = false -> compaction_target 50 < reported_pinned o).
Proof.
  apply (compact_keeps_pins (engine 50) (lit "s") (lit "g") (drop 2 transcript)). reflexivity.
Defined.

Lemma rebirth_witness :
  exists mid, messages (perform_rebirth (engine 50) (lit "done")) =
      System (lit "s") :: User (lit "g") :: mid ++ [checkpoint_message (lit "done")] /\
    mid = [User (lit "go on")].
Proof.
  destruct (rebirth_spec (engine 50) (lit "s") (lit "g") (drop 2 transcript) (lit "done") (lit "x")
    eq_refl) as (_ & _ & (mid & Hmid & _) & _).
  exists mid. split; [exact Hmid|].
  change (messages (perform_rebirth (engine 50) (lit "done"))) with
    (System (lit "s") :: User (lit "g") :: [User (lit "go on")] ++ [checkpoint_message (lit "done")]) in Hmid.
  injection Hmid as Hmid. symmetry. exact (app_inv_tail _ [User (lit "go on")] mid Hmid).
Defined.

Lemma capture_restore_witness :
  exists e1, install_restored_messages (new 9) (sec_messages (capture_manager_section (engine 50))) = Ret e1 /\
    messages e1 = transcript.
Proof.
  destruct (capture_restore_roundtrip (engine 50) 9 (lit "s") (lit "g") (drop 2 transcript) eq_refl)
    as (e1 & Hi & Hm & _). exists e1. split; [exact Hi|exact Hm].
Defined.
End witnesses.
