(* ===== verification/Normalize.v ===== *)
(** * The normalization passes of a restore ([src/session/restore.rs])

    The passes N0 to N6 that make a stored transcript sendable: decode, prune
    the orphan tool results, repair the call pairs through the context engine,
    verify the pins, run the passes a second time, and report what was done. *)

From stdpp Require Import pretty.
From S2P Require Import Prelude Str Decimal Wire Session Context.
Local Open Scope nat_scope.

#[export] Instance ToolFunctionRecord_eq_dec : EqDecision ToolFunctionRecord.
Proof. solve_decision. Defined.
#[export] Instance ToolCallRecord_eq_dec : EqDecision ToolCallRecord.
Proof. solve_decision. Defined.
#[export] Instance MessageRecord_eq_dec : EqDecision MessageRecord.
Proof. solve_decision. Defined.

Definition MANAGER_FILE : str := lit "manager.json".

(** ** Refusals and reports ([session/format/restore.rs]) *)

Inductive RefusalCode :=
  | FormatVersion | SchemaVersion | UnknownField | JsonCode | MissingMember | ByteLen
  | FingerprintCode | PinViolation | NormalizationUnstable | HeaderManifestDisagreement | IoCode.
#[export] Instance RefusalCode_eq_dec : EqDecision RefusalCode.
Proof. solve_decision. Defined.

Record Refusal := { code : RefusalCode; refusal_message : str; refusal_member : option str }.
Definition refuse (c : RefusalCode) (message : str) : Refusal :=
  {| code := c; refusal_message := message; refusal_member := None |}.
Definition with_member (member : str) (r : Refusal) : Refusal :=
  {| code := code r; refusal_message := refusal_message r; refusal_member := Some member |}.

(** [RefusalCode::label] *)
Definition code_label (c : RefusalCode) : str :=
  match c with
  | FormatVersion => lit "formatVersion" | SchemaVersion => lit "schemaVersion"
  | UnknownField => lit "unknownField" | JsonCode => lit "json" | MissingMember => lit "missingMember"
  | ByteLen => lit "byteLen" | FingerprintCode => lit "fingerprint" | PinViolation => lit "pinViolation"
  | NormalizationUnstable => lit "normalizationUnstable"
  | HeaderManifestDisagreement => lit "headerManifestDisagreement" | IoCode => lit "io"
  end.

Definition N1_PRUNE : str := lit "N1 prune orphan result".
Definition N2_SYNTHESIZE : str := lit "N2 synthesize aborted result".
Definition N2_REGROUP : str := lit "N2 regroup result".
Definition N2_DEDUPLICATE : str := lit "N2 drop duplicate result".
Record AppliedRule := {
  rule : str; rule_tool_call_id : str; index_before : option nat; index_after : option nat
}.
Record NormalizeReport := {
  pruned_orphan_ids : list str;
  synthesized_aborted_ids : list str;
  regrouped_ids : list str;
  dropped_duplicate_ids : list str;
  applied : list AppliedRule;
  n6_disagreements : list str;
  passes : N;
  stable : bool;
  pinned_prefix_end_before : nat;
  pinned_prefix_end_after : nat;
  messages_before : nat;
  messages_after : nat
}.

(** ** The pinned window over records *)

Fixpoint last_checkpoint_record (i : nat) (messages : list MessageRecord) : option nat :=
  match messages with
  | [] => None
  | m :: ms =>
      match last_checkpoint_record (S i) ms with
      | Some j => Some j
      | None => if (2 <=? i) && match m with
                                | RSystem c | RUser c => starts_with REBIRTH_CHECKPOINT_PREFIX c
                                | RAssistant _ _ _ | RTool _ _ => false
                                end then Some i else None
      end
  end.
Definition pinned_prefix_end_records (messages : list MessageRecord) : nat :=
  match last_checkpoint_record 0 messages with Some idx => idx + 1 | None => 2 end.

(** ** What changed between two transcripts *)

Definition result_positions (wire : list Message) : list (str * nat) :=
  concat (imap (fun i m => match m with Tool id _ => [(id, i)] | _ => [] end) wire).
Definition tool_result_positions (messages : list MessageRecord) : list (str * nat) :=
  concat (imap (fun i m => match m with RTool id _ => [(id, i)] | _ => [] end) messages).

(** [position] of an id and [remove] of the entry found. *)
Fixpoint take_entry (id : str) (l : list (str * nat)) : option (nat * list (str * nat)) :=
  match l with
  | [] => None
  | e :: l' =>
      if str_eqb (fst e) id then Some (snd e, l')
      else '(at', rest) ← take_entry id l'; Some (at', e :: rest)
  end.
Fixpoint dropped_results (before after : list (str * nat)) : list (str * nat) :=
  match before with
  | [] => []
  | e :: before' =>
      match take_entry (fst e) after with
      | Some (_, rest) => dropped_results before' rest
      | None => e :: dropped_results before' after
      end
  end.
Definition added_results (before after : list (str * nat)) : list (str * nat) :=
  dropped_results after before.
Fixpoint moved_results (before after : list (str * nat)) : list (str * nat * nat) :=
  match before with
  | [] => []
  | e :: before' =>
      match take_entry (fst e) after with
      | Some (landed, rest) =>
          (if landed =? snd e then [] else [(fst e, snd e, landed)]) ++ moved_results before' rest
      | None => moved_results before' after
      end
  end.

(** The first index at which two lists differ, their lengths included. *)
Fixpoint first_difference {A B} (same : A -> B -> bool) (i : nat) (l : list A) (k : list B) : option nat :=
  match l, k with
  | x :: l', y :: k' => if same x y then first_difference same (S i) l' k' else Some i
  | [], [] => None
  | _, _ => Some i
  end.
Definition decode_drift (stored : list MessageRecord) (wire : list Message) : option nat :=
  first_difference (fun r m => bool_decide (from_wire m = r)) 0 stored wire.
Definition first_record_drift (before after : list MessageRecord) : option nat :=
  first_difference (fun a b => bool_decide (a = b)) 0 before after.

Definition non_tool_turns (messages : list MessageRecord) : list MessageRecord :=
  List.filter (fun m => match m with RTool _ _ => false | _ => true end) messages.
Definition pinned_non_tool_turns (messages : list MessageRecord) (window : nat) : list MessageRecord :=
  non_tool_turns (take window messages).

(** Whether a non-tool turn was lost, rewritten or moved. *)
Definition unpaired_message_drift (before after : list MessageRecord) : option str :=
  let before_kept := non_tool_turns before in
  let after_kept := non_tool_turns after in
  if negb (length before_kept =? length after_kept) then
    Some (lit "the pass set changed the number of non-tool messages " ++ dec (length before_kept) ++
          lit " -> " ++ dec (length after_kept) ++ lit " (vector " ++ dec (length before) ++ lit " -> " ++
          dec (length after) ++
          lit "); the reused grammar prunes, moves and synthesizes tool results and touches nothing else (manager/context.rs:441-443)")
  else
    index ← first_record_drift before_kept after_kept;
    was ← before_kept !! index;
    now ← after_kept !! index;
    Some (lit "the pass set rewrote or re-ordered non-tool message #" ++ dec index ++ lit " (`" ++
          record_role was ++ lit "` -> `" ++ record_role now ++
          lit "`); advisory and checkpoint text is opaque and turns are never re-roled or re-ordered (A " ++
          [167%N] ++ lit "4 R-PIN-3/R-PIN-4)").

Definition pinned_shape (messages : list MessageRecord) : bool :=
  match messages with RSystem _ :: RUser _ :: _ => true | _ => false end.

(** One of the first two messages is no longer the same. *)
Definition pinned_pair_drift (before after : list MessageRecord) (index : nat) : option str :=
  if bool_decide (before !! index = after !! index) then None
  else
    Some (lit "messages[" ++ dec index ++ lit "] is no longer byte-identical after normalization (`" ++
          default (lit "nothing") (record_role <$> before !! index) ++ lit "` -> `" ++
          default [] (record_role <$> after !! index) ++ lit "`): the pinned " ++
          (if index =? 0 then lit "system prompt" else lit "goal") ++
          lit " was rewritten by a pass (REQ-CORE-00" ++ dec (index + 1) ++ lit ")").
Definition pinned_identity_drift (before after : list MessageRecord) (window : nat) : option str :=
  if length before <? 2 then None
  else if length after <? 2 then
    Some (lit "the pinned region needs at least the two pinned messages; the pass set left " ++
          dec (length after) ++ lit " message(s) out of " ++ dec (length before))
  else
    match or_else (pinned_pair_drift before after 0) (pinned_pair_drift before after 1) with
    | Some detail => Some detail
    | None =>
        if pinned_shape before && negb (pinned_shape after) then
          Some (lit "messages[0]/messages[1] of the installed transcript are `" ++
                default [] (record_role <$> after !! 0) ++ lit "`/`" ++ default [] (record_role <$> after !! 1) ++
                lit "` but must be system/user (REQ-CORE-001/002)")
        else if bool_decide (pinned_non_tool_turns before window = pinned_non_tool_turns after window) then None
        else Some (lit "the pinned window [0, " ++ dec window ++ lit ") lost or rewrote a turn across the pass set")
    end.

(** ** The passes *)

(** Popping until nothing is left: each pop that answers removes one. *)
Definition drain (e : ContextEngine) : ContextEngine :=
  Nat.iter (length (messages e)) (fun e => snd (pop_last e)) e.
Definition append_all (e : ContextEngine) (ms : list Message) : ContextEngine := fold_left append ms e.
Definition to_records (wire : list Message) : list MessageRecord := map from_wire wire.

Definition unstable (at_rule detail : str) (r : NormalizeReport) : Refusal :=
  with_member MANAGER_FILE (refuse NormalizationUnstable
    (at_rule ++ lit ": " ++ detail ++ lit " " ++ EM_DASH ++ lit " pass 1 applied " ++ dec (length (applied r)) ++
     lit " rule(s) over " ++ dec (messages_before r) ++ lit " message(s) (" ++
     dec (length (pruned_orphan_ids r)) ++ lit " pruned, " ++ dec (length (synthesized_aborted_ids r)) ++
     lit " synthesized, " ++ dec (length (regrouped_ids r)) ++ lit " regrouped, " ++
     dec (length (dropped_duplicate_ids r)) ++
     lit " duplicate(s) dropped) and pass 2 did not leave them alone, so the input admitted two incompatible readings; the loader refuses: it does not loop to a fixed point, does not choose a reading, and never persists a normalized copy (A " ++
     [167%N] ++ lit "8.4)")).

(** What the second run left. *)
Record SecondPassEvidence := {
  extra_pruned_ids : list str; changed : bool; installed_drift : option nat
}.
Definition second_pass_verdict (e : SecondPassEvidence) (r : NormalizeReport) : option Refusal :=
  let findings :=
    (if is_empty (extra_pruned_ids e) then []
     else [lit "the second N1 pass pruned " ++ dec (length (extra_pruned_ids e)) ++
           lit " more tool result(s): " ++ join_with (lit ",") (extra_pruned_ids e)]) ++
    (if changed e
     then [lit "the second `ensure_tool_call_pairs` pass changed the transcript, breaking the idempotence that pass is documented with (manager/context.rs:887-890)"]
     else []) ++
    match installed_drift e with
    | Some index => [lit "the installed vector and the re-passed vector differ at message " ++ dec index]
    | None => []
    end in
  if is_empty findings then None else Some (unstable (lit "N5") (join_with (lit "; ") findings) r).

Definition rules_of (name : str) (l : list (str * nat)) : list AppliedRule :=
  map (fun e => {| rule := name; rule_tool_call_id := fst e; index_before := Some (snd e); index_after := None |}) l.

Definition PASS_SET_RUNS : N := 2.

Definition no_witness : PinWitness := {| system_prompt_len := 0; goal_len := 0 |}.

(** N1 and N2 over a wire transcript: the healed transcript and what the two
    passes did to the results, as stored and as pruned. *)
Definition first_pass (stored : list MessageRecord) (pinned_end : nat) (engine : ContextEngine)
    : list Message * NormalizeReport * ContextEngine :=
  let wire := map into_wire stored in
  let stored_positions := tool_result_positions stored in
  let pruned := prune_orphan_tool_messages wire in
  let pruned_away := dropped_results stored_positions (result_positions pruned) in
  let '(repaired, engine') := ensure_tool_call_pairs (append_all (drain engine) pruned) in
  let healed_wire := messages engine' in
  let pre_repair := result_positions pruned in
  let healed := result_positions healed_wire in
  let duplicates := if repaired : bool then dropped_results pre_repair healed else [] in
  let synthesized := if repaired : bool then added_results pre_repair healed else [] in
  let moved := moved_results stored_positions healed in
  (healed_wire,
   {| pruned_orphan_ids := map fst pruned_away;
      synthesized_aborted_ids := map fst synthesized;
      regrouped_ids := map (fun e => fst (fst e)) moved;
      dropped_duplicate_ids := map fst duplicates;
      applied :=
        rules_of N1_PRUNE pruned_away ++ rules_of N2_DEDUPLICATE duplicates ++
        map (fun e => {| rule := N2_SYNTHESIZE; rule_tool_call_id := fst e;
                         index_before := None; index_after := Some (snd e) |}) synthesized ++
        map (fun e => {| rule := N2_REGROUP; rule_tool_call_id := fst (fst e);
                         index_before := Some (snd (fst e)); index_after := Some (snd e) |}) moved;
      n6_disagreements := [];
      passes := 1; stable := false;
      pinned_prefix_end_before := pinned_end; pinned_prefix_end_after := pinned_end;
      messages_before := length stored; messages_after := length healed_wire |},
   engine').

(** N5: the passes over the healed transcript. *)
Definition second_pass (records : list MessageRecord) (engine : ContextEngine) : SecondPassEvidence * ContextEngine :=
  let wire := map into_wire records in
  let pruned := prune_orphan_tool_messages wire in
  let extra := dropped_results (result_positions wire) (result_positions pruned) in
  let '(again, engine') := ensure_tool_call_pairs (append_all (drain engine) pruned) in
  ({| extra_pruned_ids := map fst extra; changed := again;
      installed_drift := first_record_drift records (to_records (messages engine')) |}, engine').

Definition n6_of (recorded : DanglingToolCallState) (r : NormalizeReport) : list str :=
  match recorded with
  | Healed aborted_tool_call_ids =>
      map (fun id => lit "N6: the recorded witness claims tool_call_id " ++ id ++
             lit " was already healed with " ++ Session.ABORTED_TOOL_RESULT ++
             lit ", yet N2 found no result for it and synthesized one again " ++ EM_DASH ++
             lit " witness and transcript disagree; reported, not reconciled")
        (List.filter (fun id => str_mem id aborted_tool_call_ids) (synthesized_aborted_ids r))
  | _ => []
  end.

Definition finished (recorded : DanglingToolCallState) (window : nat) (r : NormalizeReport) : NormalizeReport :=
  {| pruned_orphan_ids := pruned_orphan_ids r; synthesized_aborted_ids := synthesized_aborted_ids r;
     regrouped_ids := regrouped_ids r; dropped_duplicate_ids := dropped_duplicate_ids r;
     applied := applied r; n6_disagreements := n6_of recorded r;
     passes := PASS_SET_RUNS; stable := true;
     pinned_prefix_end_before := pinned_prefix_end_before r; pinned_prefix_end_after := window;
     messages_before := messages_before r; messages_after := messages_after r |}.

Definition blank_report (stored : list MessageRecord) (pinned_end : nat) : NormalizeReport :=
  {| pruned_orphan_ids := []; synthesized_aborted_ids := []; regrouped_ids := []; dropped_duplicate_ids := [];
     applied := []; n6_disagreements := []; passes := 0; stable := false;
     pinned_prefix_end_before := pinned_end; pinned_prefix_end_after := pinned_end;
     messages_before := length stored; messages_after := length stored |}.

Definition pin_refusal (detail : str) : Refusal := with_member MANAGER_FILE (refuse PinViolation detail).

(** [normalize]: the records and the report, or the refusal. *)
Definition normalize (stored : list MessageRecord) (recorded : DanglingToolCallState) (pins : PinWitness)
    (pinned_prefix_end : nat) (engine : ContextEngine)
    : (list MessageRecord * NormalizeReport + Refusal) * ContextEngine :=
  match decode_drift stored (map into_wire stored) with
  | Some index =>
      (inr (unstable (lit "N0/N4") (lit "decoding message " ++ dec index ++
         lit " and re-encoding it is not the identity: the pass set would have rewritten a persisted record (`None` vs `Some(" ++
         [34%N; 34%N] ++
         lit ")`, `reasoning_content` or verbatim `arguments`), so the transcript does not have one stable reading")
         (blank_report stored pinned_prefix_end)), engine)
  | None =>
      let '(wire, report, engine1) := first_pass stored pinned_prefix_end engine in
      let records := to_records wire in
      let pins_after := default no_witness (witness_of records) in
      let window_after := pinned_prefix_end_records records in
      if negb (bool_decide (pins_after = pins)) then
        (inr (pin_refusal (lit "N3: normalization changed a pinned message " ++ EM_DASH ++
           lit " witness is now system " ++ decN (system_prompt_len pins_after) ++ lit " bytes / goal " ++
           decN (goal_len pins_after) ++ lit " bytes, recorded system " ++ decN (system_prompt_len pins) ++
           lit " / goal " ++ decN (goal_len pins))), engine1)
      else if negb (window_after =? pinned_prefix_end) then
        (inr (pin_refusal (lit "N3: a normalization pass moved the pinned window: " ++ dec pinned_prefix_end ++
           lit " -> " ++ dec window_after ++ lit " (pinned_prefix_end_expected " ++ dec pinned_prefix_end ++
           lit ", pinned_prefix_end_actual " ++ dec window_after ++ lit "; A " ++ [167%N] ++
           lit "8.2: there is no 'the repair moved the window, accept it' branch)")), engine1)
      else
        match pinned_identity_drift stored records pinned_prefix_end with
        | Some detail => (inr (pin_refusal (lit "N3: " ++ detail)), engine1)
        | None =>
            match unpaired_message_drift stored records with
            | Some detail => (inr (unstable (lit "N4") detail report), engine1)
            | None =>
                let '(evidence, engine2) := second_pass records engine1 in
                match second_pass_verdict evidence report with
                | Some refusal => (inr refusal, engine2)
                | None => (inl (records, finished recorded window_after report), engine2)
                end
            end
        end
  end.
