(* ===== verification/NormalizeFacts.v ===== *)
(** * Facts of the normalization passes

    The passes are the pairing repair and nothing else: they never find a
    transcript unstable, their report accounts for every message, and their
    result is a fixed point. *)

From S2P Require Import Prelude Str Wire Session Context ContextFacts Normalize.

(** ** Records and messages *)

Lemma from_into_wire r : from_wire (into_wire r) = r.
Proof.
  destruct r as [?|?|c rc tcs|? ?]; try done. cbn. f_equal. rewrite map_map.
  rewrite <-(map_id tcs) at 2. apply map_ext. by intros [? ? []].
Qed.
Lemma map_from_into rs : map from_wire (map into_wire rs) = rs.
Proof. rewrite map_map. rewrite <-(map_id rs) at 2. apply map_ext, from_into_wire. Qed.
Lemma map_into_from ms : map into_wire (map from_wire ms) = ms.
Proof. rewrite map_map. rewrite <-(map_id ms) at 2. apply map_ext, into_from_wire. Qed.

Lemma non_tool_turns_from ms : non_tool_turns (map from_wire ms) = map from_wire (turns ms).
Proof.
  induction ms as [|m ms IH]; [done|]. destruct m; cbn; try f_equal; apply IH.
Qed.
Lemma non_tool_turns_into rs : non_tool_turns rs = map from_wire (turns (map into_wire rs)).
Proof. by rewrite <-(map_from_into rs), non_tool_turns_from, map_from_into. Qed.

Lemma result_positions_records rs : tool_result_positions rs = result_positions (map into_wire rs).
Proof.
  unfold tool_result_positions, result_positions. f_equal.
  change (map into_wire rs) with (into_wire <$> rs). rewrite imap_fmap.
  apply imap_ext. intros i r _. by destruct r.
Qed.

Lemma first_difference_same {A B} (same : A -> B -> bool) i l k :
  Forall2 (fun x y => same x y = true) l k -> first_difference same i l k = None.
Proof. intros H. revert i. induction H as [|x y l k Hxy _ IH]; intros i; [done|]. cbn. by rewrite Hxy. Qed.
Lemma first_record_drift_refl rs : first_record_drift rs rs = None.
Proof. apply first_difference_same. induction rs; constructor; [by apply bool_decide_eq_true|done]. Qed.
Lemma decode_drift_none rs : decode_drift rs (map into_wire rs) = None.
Proof.
  apply first_difference_same. induction rs as [|r rs IH]; constructor; [|done].
  apply bool_decide_eq_true, from_into_wire.
Qed.

Lemma unpaired_drift_none before after :
  non_tool_turns before = non_tool_turns after -> unpaired_message_drift before after = None.
Proof.
  intros E. unfold unpaired_message_drift. by rewrite E, Nat.eqb_refl, first_record_drift_refl.
Qed.

(** ** The engine as a carrier *)

Lemma drain_empty e : messages (drain e) = [].
Proof.
  unfold drain. remember (length (messages e)) as n eqn:En. revert e En.
  induction n as [|n IH]; intros e En; [by apply nil_length_inv|].
  rewrite Nat.iter_succ_r. apply IH. unfold pop_last. cbn [snd messages with_messages].
  rewrite length_take. lia.
Qed.
Lemma append_all_messages e ms : messages (append_all e ms) = messages e ++ ms.
Proof.
  revert e. induction ms as [|m ms IH]; intros e; cbn; [by rewrite app_nil_r|].
  unfold append_all in IH. rewrite IH. cbn. by rewrite <-app_assoc.
Qed.

(** ** The passes over a wire transcript *)

Lemma prune_calls ms : call_ids (prune_orphan_tool_messages ms) = call_ids ms.
Proof. by rewrite <-(call_ids_turns (prune_orphan_tool_messages ms)), prune_turns, call_ids_turns. Qed.
Lemma prune_idemp ms : prune_orphan_tool_messages (prune_orphan_tool_messages ms) = prune_orphan_tool_messages ms.
Proof.
  unfold prune_orphan_tool_messages at 1. fold (call_ids (prune_orphan_tool_messages ms)). rewrite prune_calls.
  unfold prune_orphan_tool_messages. fold (call_ids ms). generalize (call_ids ms) as ids. intros ids.
  induction ms as [|m ms IH]; [done|]. cbn [List.filter].
  destruct m as [c|c|c r tcs|i c]; cbn [List.filter]; try (f_equal; apply IH).
  destruct (str_mem i ids) eqn:E; cbn [List.filter]; [rewrite E; by f_equal|apply IH].
Qed.
Lemma repair_prune ms : repair_tool_call_pairs (prune_orphan_tool_messages ms) = repair_tool_call_pairs ms.
Proof. unfold repair_tool_call_pairs. by rewrite prune_idemp. Qed.
Lemma repair_idemp ms : repair_tool_call_pairs (repair_tool_call_pairs ms) = repair_tool_call_pairs ms.
Proof. rewrite (repair_flat ms). apply repair_flat_fix, turns_not_tool. Qed.
Lemma repair_turns ms : turns (repair_tool_call_pairs ms) = turns ms.
Proof. rewrite repair_flat. apply turns_flat, turns_not_tool. Qed.
Lemma repair_paired ms : paired (repair_tool_call_pairs ms).
Proof. rewrite repair_flat. apply paired_flat, turns_not_tool. Qed.

(** A repaired transcript has no orphan. *)
Lemma prune_repaired ms : prune_orphan_tool_messages (repair_tool_call_pairs ms) = repair_tool_call_pairs ms.
Proof.
  set (rs := repair_tool_call_pairs ms).
  assert (Hall : Forall (fun m => match m with Tool id _ => str_mem id (call_ids rs) | _ => true end = true) rs).
  { apply Forall_forall. intros [c|c|c r tcs|i c] Hin; try done. apply str_mem_true.
    unfold rs in *. rewrite repair_flat in *.
    apply flat_results in Hin as [_ Hin]; [|apply turns_not_tool].
    by rewrite <-(call_ids_turns (flat _ _)), turns_flat, call_ids_turns by apply turns_not_tool; rewrite <-call_ids_turns. }
  unfold prune_orphan_tool_messages. fold (call_ids rs). clearbody rs. revert Hall. generalize (call_ids rs) as ids.
  intros ids. induction 1 as [|m rs' Hm _ IH]; [done|]. cbn [List.filter]. by rewrite Hm, IH.
Qed.

Lemma shape_positions ms ms' : pairing_shape ms = pairing_shape ms' -> result_positions ms = result_positions ms'.
Proof.
  unfold result_positions. intros E. f_equal.
  assert (H : forall i, imap (fun j m => match m with Tool id _ => [(id, i + j)] | _ => [] end) ms =
                        imap (fun j m => match m with Tool id _ => [(id, i + j)] | _ => [] end) ms').
  { revert ms' E. induction ms as [|m ms IH]; intros [|m' ms'] E i; try done.
    unfold pairing_shape in E. cbn [map] in E. injection E as Hm E. cbn [imap]. f_equal.
    - destruct m, m'; try done; by injection Hm as ->.
    - unfold compose. specialize (IH ms' E (S i)).
      etransitivity; [|etransitivity; [apply IH|]]; apply imap_ext; intros j x _; by rewrite Nat.add_succ_r. }
  apply (H 0).
Qed.

(** ** Counting the changes *)

Lemma take_entry_length id l at' rest : take_entry id l = Some (at', rest) -> length l = S (length rest).
Proof.
  revert rest. induction l as [|e l IH]; intros rest; [done|]. cbn.
  destruct (str_eqb (fst e) id); [by intros [= _ <-]|].
  destruct (take_entry id l) as [[k r]|] eqn:E; [|done]. intros [= -> <-]. cbn. by rewrite (IH r).
Qed.

Definition count_id (id : str) (l : list (str * nat)) : nat := length (List.filter (fun e => str_eqb (fst e) id) l).

Lemma count_id_cons id e l : count_id id (e :: l) = (if str_eqb (fst e) id then 1 else 0) + count_id id l.
Proof. unfold count_id. cbn. by destruct (str_eqb (fst e) id). Qed.

Lemma take_entry_count id l at' rest :
  take_entry id l = Some (at', rest) ->
  forall i, count_id i l = (if str_eqb id i then 1 else 0) + count_id i rest.
Proof.
  revert at' rest. induction l as [|e l IH]; intros at' rest; [done|]. cbn [take_entry].
  destruct (str_eqb (fst e) id) eqn:Ee.
  - intros [= _ <-] i. rewrite count_id_cons. by rewrite (proj1 (str_eqb_eq _ _) Ee).
  - destruct (take_entry id l) as [[k r]|] eqn:E; [|done]. intros [= -> <-] i.
    rewrite !count_id_cons, (IH _ _ eq_refl i). lia.
Qed.
Lemma take_entry_none id l : take_entry id l = None -> count_id id l = 0.
Proof.
  induction l as [|e l IH]; [done|]. cbn [take_entry]. destruct (str_eqb (fst e) id) eqn:Ee; [done|].
  destruct (take_entry id l) as [[k r]|]; [done|]. intros _. rewrite count_id_cons, Ee. by apply IH.
Qed.

(** What is dropped of an id is what [before] has more of it. *)
Lemma dropped_count before after id :
  count_id id (dropped_results before after) = count_id id before - count_id id after.
Proof.
  revert after. induction before as [|e before IH]; intros after; [done|]. cbn [dropped_results].
  rewrite count_id_cons. destruct (take_entry (fst e) after) as [[k r]|] eqn:E.
  - rewrite IH, (take_entry_count _ _ _ _ E). destruct (str_eqb (fst e) id); lia.
  - rewrite count_id_cons, IH. apply take_entry_none in E.
    destruct (str_eqb (fst e) id) eqn:Ee; [|lia]. apply str_eqb_eq in Ee. rewrite <-Ee, E. lia.
Qed.

Lemma str_eqb_sym a b : str_eqb a b = str_eqb b a.
Proof.
  destruct (str_eqb a b) eqn:E; [apply str_eqb_eq in E as ->; by rewrite str_eqb_refl|].
  symmetry. apply not_true_iff_false. intros H%str_eqb_eq. by rewrite H, str_eqb_refl in E.
Qed.

(** One more entry to match takes one more entry away. *)
Lemma dropped_more after before e :
  length (dropped_results after (e :: before)) =
  match take_entry (fst e) after with
  | Some (_, rest) => length (dropped_results rest before)
  | None => length (dropped_results after before)
  end.
Proof.
  revert before. induction after as [|a after IH]; intros before; [done|].
  cbn [dropped_results take_entry]. rewrite (str_eqb_sym (fst a) (fst e)).
  destruct (str_eqb (fst e) (fst a)) eqn:Ea; [done|].
  destruct (take_entry (fst a) before) as [[j b']|] eqn:Eb; simpl; rewrite IH;
    destruct (take_entry (fst e) after) as [[k r]|]; simpl; by rewrite ?Eb.
Qed.
Lemma dropped_length before after :
  length (dropped_results before after) + length after = length before + length (added_results before after).
Proof.
  unfold added_results. revert after. induction before as [|e before IH]; intros after.
  - induction after as [|a after IH]; [done|]. cbn in *. lia.
  - rewrite dropped_more. cbn [dropped_results].
    destruct (take_entry (fst e) after) as [[k r]|] eqn:E.
    + specialize (IH r). rewrite (take_entry_length _ _ _ _ E). cbn [length]. lia.
    + specialize (IH after). cbn [length]. lia.
Qed.
Lemma dropped_self l : dropped_results l l = [].
Proof.
  assert (H : forall id, count_id id (dropped_results l l) = 0) by (intros id; rewrite dropped_count; lia).
  destruct (dropped_results l l) as [|e d]; [done|]. specialize (H (fst e)).
  by rewrite count_id_cons, str_eqb_refl in H.
Qed.

(** ** Lengths *)

Lemma positions_ids ms : map fst (result_positions ms) = tool_ids ms.
Proof.
  unfold result_positions, tool_ids.
  assert (H : forall f : nat -> nat, map fst (concat (imap (fun i m => match m with Tool id _ => [(id, f i)] | _ => [] end) ms)) =
    concat (map (fun m => match m with Tool id _ => [id] | _ => [] end) ms)).
  { induction ms as [|m ms IH]; intros f; [done|]. cbn [imap map concat]. rewrite map_app.
    change (imap _ ms) with (imap (fun i m => match m with Tool id _ => [(id, f (S i))] | _ => [] end) ms).
    rewrite (IH (fun i => f (S i))). f_equal. by destruct m. }
  apply (H (fun i => i)).
Qed.
Lemma positions_length ms : length (result_positions ms) = length (tool_ids ms).
Proof. by rewrite <-positions_ids, length_map. Qed.

Lemma length_turns_tools ms : length ms = length (turns ms) + length (tool_ids ms).
Proof.
  induction ms as [|m ms IH]; [done|]. change (m :: ms) with ([m] ++ ms).
  rewrite turns_app, tool_ids_app, !length_app, IH. destruct m; cbn; lia.
Qed.

Lemma count_positions id ms : count_id id (result_positions ms) = length (List.filter (fun i => str_eqb i id) (tool_ids ms)).
Proof.
  rewrite <-positions_ids. unfold count_id. generalize (result_positions ms) as l.
  induction l as [|e l IH]; [done|]. cbn. destruct (str_eqb (fst e) id); cbn; by rewrite IH.
Qed.

Lemma prune_counts ms id :
  count_id id (result_positions (prune_orphan_tool_messages ms)) <= count_id id (result_positions ms).
Proof.
  rewrite !count_positions. unfold prune_orphan_tool_messages. generalize (map tc_id (concat (map tool_calls_of ms))) as ids.
  intros ids. induction ms as [|m ms IH]; [done|].
  change (m :: ms) with ([m] ++ ms). rewrite List.filter_app, !tool_ids_app, !List.filter_app, !length_app.
  enough (length (List.filter (fun i => str_eqb i id) (tool_ids (List.filter (fun m => match m with Tool i _ => str_mem i ids | _ => true end) [m]))) <=
          length (List.filter (fun i => str_eqb i id) (tool_ids [m]))) by lia.
  destruct m as [?|?|? ? ?|i c]; cbn; try lia. destruct (str_mem i ids); cbn; lia.
Qed.

Lemma dropped_nil before after :
  (forall id, count_id id before <= count_id id after) -> dropped_results before after = [].
Proof.
  intros Hle. destruct (dropped_results before after) as [|e d] eqn:E; [done|]. exfalso.
  pose proof (dropped_count before after (fst e)) as Hc. rewrite E, count_id_cons, str_eqb_refl in Hc.
  specialize (Hle (fst e)). lia.
Qed.

(** ** The first pass *)

Lemma first_pass_spec stored pe engine :
  let wire := repair_tool_call_pairs (map into_wire stored) in
  exists r e, first_pass stored pe engine = (wire, r, e) /\
    messages_before r = length stored /\ messages_after r = length wire /\
    length wire + length (pruned_orphan_ids r) + length (dropped_duplicate_ids r) =
      length stored + length (synthesized_aborted_ids r).
Proof.
  intros wire. unfold first_pass. set (w0 := map into_wire stored). set (pr := prune_orphan_tool_messages w0).
  unfold ensure_tool_call_pairs. rewrite append_all_messages, drain_empty, app_nil_l. cbn [messages with_messages].
  assert (Hw : repair_tool_call_pairs pr = wire) by apply repair_prune. rewrite Hw.
  eexists _, _. split; [reflexivity|]. cbn [messages_before messages_after pruned_orphan_ids dropped_duplicate_ids synthesized_aborted_ids].
  split_and!; [done|done|]. rewrite !length_map, result_positions_records. fold w0.
  pose proof (dropped_length (result_positions w0) (result_positions pr)) as H1.
  unfold added_results in H1 at 1. rewrite (dropped_nil (result_positions pr)) in H1 by apply prune_counts.
  pose proof (dropped_length (result_positions pr) (result_positions wire)) as H2.
  rewrite !positions_length in H1, H2. cbn [length] in H1.
  assert (Hs : length stored = length w0) by (unfold w0; by rewrite length_map). rewrite Hs.
  rewrite (length_turns_tools w0), (length_turns_tools wire).
  assert (Ht : turns wire = turns w0) by apply repair_turns. rewrite Ht.
  case_bool_decide as Hshape; cbn [negb].
  - apply shape_positions in Hshape. rewrite Hshape, dropped_self in H2. unfold added_results in H2.
    rewrite dropped_self in H2. cbn [length] in *. rewrite <-(positions_length wire), Hshape, positions_length. lia.
  - rewrite ?length_map. lia.
Qed.

(** ** The second pass *)

Lemma second_pass_quiet ms engine r :
  second_pass_verdict (fst (second_pass (map from_wire (repair_tool_call_pairs ms)) engine)) r = None.
Proof.
  unfold second_pass. rewrite map_into_from, prune_repaired.
  unfold ensure_tool_call_pairs. rewrite append_all_messages, drain_empty, app_nil_l. cbn [messages with_messages].
  rewrite repair_idemp, dropped_self, bool_decide_eq_true_2 by done.
  unfold second_pass_verdict. cbn [fst extra_pruned_ids changed installed_drift map negb].
  by rewrite first_record_drift_refl.
Qed.

(** What a transcript becomes, and when that is accepted. *)
Definition healed (stored : list MessageRecord) : list MessageRecord :=
  map from_wire (repair_tool_call_pairs (map into_wire stored)).
Definition pins_kept (stored : list MessageRecord) (pins : PinWitness) (pe : nat) : Prop :=
  default no_witness (witness_of (healed stored)) = pins /\
  pinned_prefix_end_records (healed stored) = pe /\
  pinned_identity_drift stored (healed stored) pe = None.

Lemma healed_turns stored : non_tool_turns (healed stored) = non_tool_turns stored.
Proof. unfold healed. by rewrite non_tool_turns_from, repair_turns, <-non_tool_turns_into. Qed.

(** The passes against their reference: the repair, refused only when it would
    cost a pin. *)
Lemma normalize_cases stored recorded pins pe engine :
  match fst (normalize stored recorded pins pe engine) with
  | inl (rs, r) => pins_kept stored pins pe /\ rs = healed stored /\
      passes r = PASS_SET_RUNS /\ stable r = true /\ pinned_prefix_end_after r = pe /\
      messages_before r = length stored /\ messages_after r = length rs /\
      length rs + length (pruned_orphan_ids r) + length (dropped_duplicate_ids r) =
        length stored + length (synthesized_aborted_ids r) /\
      exists e, first_pass stored pe engine = (map into_wire rs, {|
        pruned_orphan_ids := pruned_orphan_ids r; synthesized_aborted_ids := synthesized_aborted_ids r;
        regrouped_ids := regrouped_ids r; dropped_duplicate_ids := dropped_duplicate_ids r;
        applied := applied r; n6_disagreements := []; passes := 1; stable := false;
        pinned_prefix_end_before := pe; pinned_prefix_end_after := pe;
        messages_before := messages_before r; messages_after := messages_after r |}, e)
  | inr r => ~ pins_kept stored pins pe /\ code r = PinViolation
  end.
Proof.
  unfold normalize, pins_kept. rewrite decode_drift_none.
  destruct (first_pass_spec stored pe engine) as (r & e & Hp & Hb & Ha & Hl). rewrite Hp. cbv zeta.
  change (to_records (repair_tool_call_pairs (map into_wire stored))) with (healed stored).
  case_bool_decide as Hw; cbn [negb]; [|split; [tauto|done]].
  destruct (Nat.eqb_spec (pinned_prefix_end_records (healed stored)) pe) as [Hpe|Hpe]; cbn [negb]; [|split; [tauto|done]].
  destruct (pinned_identity_drift stored (healed stored) pe) eqn:Hd; [split; [by intros (_ & _ & [=])|done]|].
  rewrite unpaired_drift_none by by rewrite healed_turns.
  destruct (second_pass (healed stored) e) as [ev e2] eqn:E2.
  pose proof (second_pass_quiet (map into_wire stored) e r) as Hq. fold (healed stored) in Hq. rewrite E2 in Hq.
  cbn [fst] in Hq. rewrite Hq. cbn [fst].
  assert (Hlen : length (healed stored) = length (repair_tool_call_pairs (map into_wire stored))) by apply length_map.
  cbn [finished passes stable pinned_prefix_end_after messages_before messages_after pruned_orphan_ids
    dropped_duplicate_ids synthesized_aborted_ids regrouped_ids applied].
  rewrite Hlen. split_and!; try done. exists e. unfold healed. rewrite map_into_from. f_equal. f_equal.
  unfold first_pass in Hp. destruct (ensure_tool_call_pairs _) as [b e'] in Hp. by injection Hp as _ <- _.
Qed.

(** ** A healed transcript *)

Lemma healed_idemp stored : healed (healed stored) = healed stored.
Proof. unfold healed. by rewrite map_into_from, repair_idemp. Qed.

Lemma identity_drift_refl rs w : pinned_identity_drift rs rs w = None.
Proof.
  unfold pinned_identity_drift, pinned_pair_drift. destruct (length rs <? 2); [done|].
  rewrite !bool_decide_eq_true_2 by done. cbn [or_else]. by destruct (pinned_shape rs).
Qed.
Lemma moved_self l : moved_results l l = [].
Proof.
  induction l as [|e l IH]; [done|]. cbn [moved_results take_entry]. rewrite str_eqb_refl, Nat.eqb_refl. apply IH.
Qed.

Lemma first_pass_healed stored pe engine :
  exists r e, first_pass (healed stored) pe engine = (map into_wire (healed stored), r, e) /\
    applied r = [] /\ pruned_orphan_ids r = [] /\ synthesized_aborted_ids r = [] /\
    regrouped_ids r = [] /\ dropped_duplicate_ids r = [].
Proof.
  unfold first_pass. rewrite result_positions_records. unfold healed. rewrite map_into_from, prune_repaired.
  unfold ensure_tool_call_pairs. rewrite append_all_messages, drain_empty, app_nil_l. cbn [messages with_messages].
  rewrite repair_idemp, bool_decide_eq_true_2, !dropped_self, moved_self by done. cbn [negb map app rules_of].
  eexists _, _. split; [reflexivity|]. done.
Qed.

(** ** The window of a manager transcript *)

Definition is_checkpoint_record (m : MessageRecord) : bool :=
  match m with RSystem c | RUser c => starts_with REBIRTH_CHECKPOINT_PREFIX c | _ => false end.

Lemma last_checkpoint_record_app i l k :
  Forall (fun m => is_checkpoint_record m = false) k ->
  last_checkpoint_record i (l ++ k) = last_checkpoint_record i l.
Proof.
  intros Hk. assert (H0 : forall i, last_checkpoint_record i k = None).
  { induction Hk as [|m k Hm _ IH]; intros j; [done|]. cbn [last_checkpoint_record]. rewrite IH.
    change (match m with RSystem c | RUser c => _ | _ => false end) with (is_checkpoint_record m).
    by rewrite Hm, andb_false_r. }
  revert i. induction l as [|m l IH]; intros i; [apply H0|]. cbn [app last_checkpoint_record]. by rewrite IH.
Qed.

Lemma last_checkpoint_record_after i l :
  match last_checkpoint_record i l with
  | Some j => i <= j /\ 2 <= j /\ Forall (fun m => is_checkpoint_record m = false) (drop (S j - i) l)
  | None => Forall (fun m => is_checkpoint_record m = false) (drop (2 - i) l)
  end.
Proof.
  revert i. induction l as [|m l IH]; intros i; cbn [last_checkpoint_record]; [by rewrite drop_nil|].
  specialize (IH (S i)). destruct (last_checkpoint_record (S i) l) as [j|].
  - destruct IH as (Hi & H2 & Hf). split_and!; [lia|done|]. replace (S j - i) with (S (S j - S i)) by lia. done.
  - change (match m with RSystem c | RUser c => _ | _ => false end) with (is_checkpoint_record m).
    destruct (Nat.leb_spec 2 i) as [Hi|Hi]; cbn [andb].
    + replace (2 - S i) with 0 in IH by lia. replace (2 - i) with 0 by lia.
      destruct (is_checkpoint_record m) eqn:Em; [|by constructor]. split_and!; [done|done|].
      replace (S i - i) with 1 by lia. done.
    + by replace (2 - i) with (S (2 - S i)) by lia.
Qed.

(** A window of system and user turns only. *)
Definition plain_window (stored : list MessageRecord) : Prop :=
  pinned_shape stored = true /\
  Forall (fun m => match m with RSystem _ | RUser _ => True | _ => False end)
    (take (pinned_prefix_end_records stored) stored).

Lemma repair_plain_prefix ws ms :
  Forall (fun m => match m with System _ | User _ => True | _ => False end) ws ->
  exists t, repair_tool_call_pairs (ws ++ ms) = ws ++ t /\ turns t = turns ms.
Proof.
  intros Hw. exists (flat (result_content (ws ++ ms)) (turns ms)).
  split; [|apply turns_flat, turns_not_tool].
  rewrite repair_flat, turns_app, flat_app. f_equal. clear -Hw. generalize (result_content (ws ++ ms)) as h.
  intros h. induction Hw as [|w ws Hw _ IH]; [done|]. by destruct w; try done; cbn; f_equal.
Qed.

Lemma no_checkpoint_turns l k :
  non_tool_turns l = non_tool_turns k -> Forall (fun m => is_checkpoint_record m = false) l ->
  Forall (fun m => is_checkpoint_record m = false) k.
Proof.
  intros E Hl. apply Forall_forall. intros m Hm. destruct (is_checkpoint_record m) eqn:Ec; [|done]. exfalso.
  assert (Hin : m ∈ non_tool_turns k).
  { unfold non_tool_turns. apply list_elem_of_In, List.filter_In. split; [by apply list_elem_of_In|by destruct m]. }
  rewrite <-E in Hin. unfold non_tool_turns in Hin. apply list_elem_of_In, List.filter_In in Hin as [Hin%list_elem_of_In _].
  rewrite Forall_forall in Hl. by rewrite (Hl m Hin) in Ec.
Qed.

Lemma pinned_end_bounds stored :
  pinned_shape stored = true -> 2 <= pinned_prefix_end_records stored <= length stored.
Proof.
  intros Hs. assert (Hlen : 2 <= length stored) by (destruct stored as [|[] [|[] ?]]; cbn in *; try done; lia).
  unfold pinned_prefix_end_records. destruct (last_checkpoint_record 0 stored) as [j|] eqn:E; [|lia].
  pose proof (last_checkpoint_record_after 0 stored) as Ha. rewrite E in Ha. split; [lia|].
  enough (H : forall i l j, last_checkpoint_record i l = Some j -> j < i + length l)
    by (specialize (H 0 stored j E); lia).
  clear. intros i l. revert i. induction l as [|m l IH]; intros i j; [done|]. cbn [last_checkpoint_record length].
  destruct (last_checkpoint_record (S i) l) eqn:E; [intros [= ->]; apply IH in E; lia|].
  destruct (_ && _); [|done]. intros [= <-]. lia.
Qed.

(** The window and the rest, in which there is no checkpoint. *)
Lemma window_split stored :
  pinned_shape stored = true ->
  exists W T, stored = W ++ T /\ length W = pinned_prefix_end_records stored /\
    W = take (pinned_prefix_end_records stored) stored /\
    Forall (fun m => is_checkpoint_record m = false) T.
Proof.
  intros Hs. pose proof (pinned_end_bounds stored Hs) as Hb.
  exists (take (pinned_prefix_end_records stored) stored), (drop (pinned_prefix_end_records stored) stored).
  split_and!; [by rewrite take_drop|rewrite length_take; lia|done|].
  unfold pinned_prefix_end_records. pose proof (last_checkpoint_record_after 0 stored) as Ha.
  destruct (last_checkpoint_record 0 stored) as [j|]; [|exact Ha]. destruct Ha as (_ & _ & Ha).
  rewrite Nat.sub_0_r in Ha. by rewrite Nat.add_1_r.
Qed.

(** The window of a healed transcript is the stored one. *)
Lemma healed_window stored :
  plain_window stored ->
  exists W T T', stored = W ++ T /\ healed stored = W ++ T' /\
    length W = pinned_prefix_end_records stored /\
    pinned_prefix_end_records (W ++ T') = pinned_prefix_end_records stored.
Proof.
  intros [Hs Hw]. destruct (window_split stored Hs) as (W & T & Hst & Hl & HW & HT). rewrite <-HW in Hw.
  destruct (repair_plain_prefix (map into_wire W) (map into_wire T)) as (t & Ht & Htt).
  { apply Forall_map. eapply Forall_impl; [exact Hw|]. by intros []. }
  exists W, T, (map from_wire t).
  assert (Hh : healed stored = W ++ map from_wire t).
  { unfold healed. rewrite Hst. by rewrite map_app, Ht, map_app, map_from_into. }
  assert (Ht' : Forall (fun m => is_checkpoint_record m = false) (map from_wire t)).
  { eapply no_checkpoint_turns; [|exact HT]. by rewrite non_tool_turns_from, Htt, <-non_tool_turns_into. }
  split_and!; try done. rewrite Hst. unfold pinned_prefix_end_records. by rewrite !last_checkpoint_record_app.
Qed.

Lemma plain_window_kept stored :
  plain_window stored ->
  pins_kept stored (default no_witness (witness_of stored)) (pinned_prefix_end_records stored) /\
  take (pinned_prefix_end_records stored) (healed stored) = take (pinned_prefix_end_records stored) stored.
Proof.
  intros Hp. pose proof Hp as [Hs _]. pose proof (pinned_end_bounds stored Hs) as Hb.
  destruct (healed_window stored Hp) as (W & T & T' & Hst & Hh & Hl & Hpe). unfold pins_kept.
  rewrite <-Hl in *. rewrite Hh. clear Hh Hl Hp. subst stored. split; [|by rewrite !take_app_length].
  destruct W as [|w0 [|w1 W]]; [cbn in Hb; lia..|]. destruct w0 as [a| | |], w1 as [|b| |]; try done.
  split; [done|]. split; [done|].
  unfold pinned_identity_drift, pinned_pair_drift, pinned_non_tool_turns. rewrite !take_app_length.
  cbn [app length Nat.ltb Nat.leb lookup list_lookup pinned_shape negb andb].
  by rewrite !bool_decide_eq_true_2.
Qed.

(** ** Properties *)

(** Normalization is the pairing repair and nothing else.  It never finds a
    transcript unstable: it refuses exactly when the repair would cost a pin,
    as a pin violation, and otherwise answers the repaired transcript, in which
    every call is answered in place and every other turn stands as stored; its
    report has run both passes and accounts for every message. *)
Theorem normalize_is_repair stored recorded pins pe engine :
  match fst (normalize stored recorded pins pe engine) with
  | inl (rs, r) =>
      pins_kept stored pins pe /\ rs = healed stored /\
      paired (map into_wire rs) /\ non_tool_turns rs = non_tool_turns stored /\
      passes r = 2%N /\ stable r = true /\
      messages_before r = length stored /\ messages_after r = length rs /\
      length rs + length (pruned_orphan_ids r) + length (dropped_duplicate_ids r) =
        length stored + length (synthesized_aborted_ids r)
  | inr r => ~ pins_kept stored pins pe /\ code r = PinViolation
  end.
Proof.
  pose proof (normalize_cases stored recorded pins pe engine) as Hc.
  destruct (fst (normalize stored recorded pins pe engine)) as [[rs r]|r]; [|done].
  destruct Hc as (Hk & -> & Hp & Hs & _ & Hb & Ha & Hl & _). split_and!; try done.
  - unfold healed. rewrite map_into_from. apply repair_paired.
  - apply healed_turns.
Qed.

(** A normalized transcript is a fixed point: normalizing it again accepts
    it as it is and reports nothing applied. *)
Theorem normalize_fixed_point stored recorded pins pe engine rs r :
  fst (normalize stored recorded pins pe engine) = inl (rs, r) ->
  forall recorded' engine', exists r',
    fst (normalize rs recorded' pins pe engine') = inl (rs, r') /\
    applied r' = [] /\ pruned_orphan_ids r' = [] /\ synthesized_aborted_ids r' = [] /\
    regrouped_ids r' = [] /\ dropped_duplicate_ids r' = [] /\ n6_disagreements r' = [].
Proof.
  intros E recorded' engine'. pose proof (normalize_cases stored recorded pins pe engine) as Hc.
  rewrite E in Hc. destruct Hc as ((Hw & Hpe & Hd) & -> & _).
  destruct (first_pass_healed stored pe engine') as (r0 & e0 & H0 & Ha & Hpr & Hs & Hg & Hdd).
  unfold normalize. rewrite decode_drift_none, H0. cbv zeta. unfold to_records. rewrite map_from_into.
  rewrite Hw, bool_decide_eq_true_2, Hpe, Nat.eqb_refl, identity_drift_refl, unpaired_drift_none by done.
  cbn [negb]. destruct (second_pass (healed stored) e0) as [ev e2] eqn:E2.
  pose proof (second_pass_quiet (map into_wire stored) e0 r0) as Hq. fold (healed stored) in Hq. rewrite E2 in Hq.
  cbn [fst] in Hq. rewrite Hq. eexists. split; [reflexivity|].
  cbn [finished applied pruned_orphan_ids synthesized_aborted_ids regrouped_ids dropped_duplicate_ids n6_disagreements].
  split_and!; try done. unfold n6_of. rewrite Hs. by destruct recorded'.
Qed.

(** A manager transcript whose pinned window holds system and user turns
    only is always accepted under its own witness and window, and its window
    comes back as it was stored. *)
Theorem plain_window_normalizes stored recorded engine :
  plain_window stored ->
  exists rs r, fst (normalize stored recorded (default no_witness (witness_of stored))
                      (pinned_prefix_end_records stored) engine) = inl (rs, r) /\
    take (pinned_prefix_end_records stored) rs = take (pinned_prefix_end_records stored) stored.
Proof.
  intros Hp. destruct (plain_window_kept stored Hp) as [Hk Ht].
  pose proof (normalize_cases stored recorded (default no_witness (witness_of stored))
    (pinned_prefix_end_records stored) engine) as Hc.
  destruct (fst (normalize _ _ _ _ _)) as [[rs r]|r]; [|by destruct Hc].
  exists rs, r. destruct Hc as (_ & -> & _). done.
Qed.

(** ** Concrete transcripts *)

Definition demo_call (id : str) : ToolCallRecord :=
  {| rtc_id := id; rtc_kind := lit "function";
     rtc_function := {| rfn_name := lit "glob"; rfn_arguments := lit "{}" |} |}.
Definition demo_stored : list MessageRecord :=
  [RSystem (lit "s"); RUser (lit "g"); RTool (lit "lost") (lit "orphan");
   RAssistant None None [demo_call (lit "a"); demo_call (lit "b")]; RUser (lit "next");
   RTool (lit "b") (lit "late")].

Lemma plain_window_normalizes_witness :
  exists rs r, fst (normalize demo_stored Balanced (default no_witness (witness_of demo_stored)) 2 (new 1)) = inl (rs, r) /\
    take 2 rs = [RSystem (lit "s"); RUser (lit "g")].
Proof.
  apply (plain_window_normalizes demo_stored Balanced (new 1)).
  split; [reflexivity|]. repeat constructor.
Defined.

Lemma normalize_fixed_point_witness :
  exists rs r', fst (normalize rs Balanced {| system_prompt_len := 1; goal_len := 1 |} 2 (new 7)) = inl (rs, r') /\
    applied r' = [] /\ length rs = 6.
Proof.
  destruct (fst (normalize demo_stored Balanced {| system_prompt_len := 1; goal_len := 1 |} 2 (new 1)))
    as [[rs r]|r] eqn:E; [|exfalso; vm_compute in E; discriminate E].
  destruct (normalize_fixed_point _ _ _ _ _ rs r E Balanced (new 7)) as (r' & Hr & Ha & _).
  exists rs, r'. split; [exact Hr|]. split; [exact Ha|].
  vm_compute in E. injection E as <- _. reflexivity.
Defined.

(** A call id used twice: the second result is rewritten with the first, and
    the report says that nothing was done. *)
Lemma reused_id_rewritten_silently :
  let round c := [RAssistant None None [demo_call (lit "x")]; RTool (lit "x") c] in
  let stored := [RSystem (lit "s"); RUser (lit "g")] ++ round (lit "first") ++ round (lit "second") in
  match fst (normalize stored Balanced {| system_prompt_len := 1; goal_len := 1 |} 2 (new 1)) with
  | inl (rs, r) => rs = [RSystem (lit "s"); RUser (lit "g")] ++ round (lit "first") ++ round (lit "first") /\ applied r = []
  | inr _ => False
  end.
Proof. vm_compute. split; reflexivity. Qed.
