(* ===== verification/Thinking.v ===== *)
(** * The thinking demuxer and the recovery policy ([src/llm/thinking.rs])

    The streaming tag demuxer as a state machine over deltas, with the byte
    slices of the source; the recovery request in binary32; the nudge policy. *)

From Stdlib Require Import Floats.SpecFloat.
From S2P Require Import Prelude Str Wire.

(** ** The demuxer *)

Inductive DeltaKind := DContent | DThinking.
#[export] Instance DeltaKind_eq_dec : EqDecision DeltaKind.
Proof. solve_decision. Defined.

Record ThinkingDemuxer := {
  d_content : str;
  d_thinking : str;
  in_thinking : bool;
  pending : str;
  preserve_thinking : bool
}.

Definition TAG_PAIRS : list (str * str) :=
  [ (lit "<think>", lit "</think>");
    (lit "[thinking]", lit "[/thinking]");
    (lit "<thought>", lit "</thought>") ].

(** The tags of the current mode: closing tags inside a block, opening tags
    outside. *)
Definition mode_tags (thinking : bool) : list str :=
  map (fun p => if thinking then snd p else fst p) TAG_PAIRS.

Definition with_preserve (preserve : bool) : ThinkingDemuxer :=
  {| d_content := []; d_thinking := []; in_thinking := false; pending := [];
     preserve_thinking := preserve |}.
Definition new : ThinkingDemuxer := with_preserve false.

Definition current_kind (d : ThinkingDemuxer) : DeltaKind :=
  if in_thinking d then DThinking else DContent.

Definition set_pending (d : ThinkingDemuxer) (p : str) : ThinkingDemuxer :=
  {| d_content := d_content d; d_thinking := d_thinking d; in_thinking := in_thinking d;
     pending := p; preserve_thinking := preserve_thinking d |}.

(** [append] *)
Definition append (d : ThinkingDemuxer) (s : str) (thinking : bool) : ThinkingDemuxer :=
  if is_empty s then d
  else if thinking then
    {| d_content := if preserve_thinking d then d_content d ++ s else d_content d;
       d_thinking := d_thinking d ++ s; in_thinking := in_thinking d; pending := pending d;
       preserve_thinking := preserve_thinking d |}
  else
    {| d_content := d_content d ++ s; d_thinking := d_thinking d; in_thinking := in_thinking d;
       pending := pending d; preserve_thinking := preserve_thinking d |}.

(** The tag itself: kept in the payload when configured, and the mode flips. *)
Definition consume_tag (d : ThinkingDemuxer) (tag : str) : ThinkingDemuxer :=
  {| d_content := if preserve_thinking d then d_content d ++ tag else d_content d;
     d_thinking := d_thinking d; in_thinking := negb (in_thinking d); pending := pending d;
     preserve_thinking := preserve_thinking d |}.

(** [iter().min_by_key(idx)]: the first minimum. *)
Fixpoint min_by_idx (l : list (nat * str)) : option (nat * str) :=
  match l with
  | [] => None
  | x :: l' => match min_by_idx l' with
               | None => Some x
               | Some y => if fst y <? fst x then Some y else Some x
               end
  end.

Definition found_tags (d : ThinkingDemuxer) : list (nat * str) :=
  omap (fun tag => (fun idx => (idx, tag)) <$> find_str tag (pending d)) (mode_tags (in_thinking d)).

(** [partial_prefix_split] *)
Definition partial_prefix_split (buf tag : str) : option nat :=
  let bl := blen buf in
  let start := bl - (blen tag - 1) in
  find_first (fun i =>
    is_char_boundary buf i &&
    match get_from buf i with
    | Some suffix => negb (is_empty suffix) && starts_with suffix tag
    | None => false
    end) (rev (seq start (bl - start))).

Fixpoint min_nat (l : list nat) : option nat :=
  match l with
  | [] => None
  | x :: l' => match min_nat l' with None => Some x | Some y => Some (min x y) end
  end.

Definition events : Type := list (DeltaKind * str).

(** Commit a piece into the current channel and emit it. *)
Definition commit (d : ThinkingDemuxer) (s : str) : ThinkingDemuxer * events :=
  if is_empty s then (d, []) else (append d s (in_thinking d), [(current_kind d, s)]).

(** The loop of [push_delta]; [None] is a slice off a boundary or no fuel left. *)
Fixpoint push_loop (fuel : nat) (d : ThinkingDemuxer) (kind : DeltaKind) (out : events)
    : option (ThinkingDemuxer * DeltaKind * events) :=
  match fuel with
  | 0 => None
  | S fuel' =>
      match min_by_idx (found_tags d) with
      | Some (idx, tag) =>
          match get_to (pending d) idx, get_from (pending d) (idx + blen tag) with
          | Some pre, Some rest =>
              let '(d1, ev) := commit d pre in
              let d2 := consume_tag d1 tag in
              push_loop fuel' (set_pending d2 rest) (current_kind d2) (out ++ ev)
          | _, _ => None
          end
      | None =>
          match min_nat (omap (partial_prefix_split (pending d)) (mode_tags (in_thinking d))) with
          | Some split =>
              match get_to (pending d) split, get_from (pending d) split with
              | Some committed, Some rest =>
                  let '(d1, ev) := commit d committed in
                  Some (set_pending d1 rest, kind, out ++ ev)
              | _, _ => None
              end
          | None =>
              let '(d1, ev) := commit d (pending d) in
              Some (set_pending d1 [], kind, out ++ ev)
          end
      end
  end.

Definition push_delta (d : ThinkingDemuxer) (delta : str)
    : option (ThinkingDemuxer * DeltaKind * events) :=
  if is_empty delta then Some (d, current_kind d, [])
  else
    let d' := set_pending d (pending d ++ delta) in
    push_loop (S (length (pending d'))) d' (current_kind d') [].

Definition finish_delta (d : ThinkingDemuxer) : ThinkingDemuxer * events :=
  if is_empty (pending d) then (d, [])
  else
    let committed := pending d in
    let d' := append (set_pending d []) committed (in_thinking d) in
    (d', [(current_kind d', committed)]).

Definition into_message (d : ThinkingDemuxer) : Message :=
  Assistant (if is_empty (d_content d) then None else Some (d_content d))
    (if is_empty (d_thinking d) then None else Some (d_thinking d)) [].

Definition push (d : ThinkingDemuxer) (delta : str) : option (ThinkingDemuxer * DeltaKind) :=
  fst <$> push_delta d delta.
Definition demux_all (d : ThinkingDemuxer) (raw : str) : option ThinkingDemuxer :=
  (fun r => fst (finish_delta (fst r))) <$> push d raw.
Definition demux_stream (raw : str) : option ThinkingDemuxer := demux_all new raw.

(** ** Recovery in binary32 *)

Notation f32 := spec_float (only parsing).
Definition f32_add : f32 -> f32 -> f32 := SFadd 24 128.
Definition is_finite (x : f32) : bool :=
  match x with S754_zero _ | S754_finite _ _ _ => true | _ => false end.

Definition MIN_TEMPERATURE : f32 := S754_zero false.
Definition MAX_TEMPERATURE : f32 := S754_finite false 8388608 (-22).
Definition MIN_PENALTY : f32 := S754_finite true 8388608 (-22).
Definition MAX_PENALTY : f32 := S754_finite false 8388608 (-22).
Definition MIN_TOP_P : f32 := S754_zero false.
Definition MAX_TOP_P : f32 := S754_finite false 8388608 (-23).
Definition DEFAULT_TEMPERATURE : f32 := S754_finite false 11744051 (-24).
Definition DEFAULT_FREQUENCY_PENALTY : f32 := S754_zero false.

Record RecoveryAdjustment := { frequency_penalty_delta : f32; temperature_delta : f32 }.
Definition default_adjustment : RecoveryAdjustment :=
  {| frequency_penalty_delta := S754_finite false 8388608 (-24);
     temperature_delta := S754_finite false 13421773 (-27) |}.

Inductive ClampReason := BelowRange | AboveRange | NotFinite.
Record RecoveryClamp := {
  param : str; requested : f32; applied : f32; valid_range : f32 * f32; reason : ClampReason
}.

(** The request body; [tools] is passed through untouched. *)
Record ChatRequest (Tools : Type) := {
  model : str;
  req_messages : list Message;
  temperature : option f32;
  top_p : option f32;
  frequency_penalty : option f32;
  presence_penalty : option f32;
  stream : option bool;
  enable_thinking : option bool;
  reasoning_effort : option str;
  tools : Tools
}.
Arguments model {Tools} _.
Arguments req_messages {Tools} _.
Arguments temperature {Tools} _.
Arguments top_p {Tools} _.
Arguments frequency_penalty {Tools} _.
Arguments presence_penalty {Tools} _.
Arguments stream {Tools} _.
Arguments enable_thinking {Tools} _.
Arguments reasoning_effort {Tools} _.
Arguments tools {Tools} _.

(** [clamp_param]: the clamped value and the clamps pushed. *)
Definition clamp_param (name : str) (value : option f32) (range : f32 * f32)
    (clamps : list RecoveryClamp) : option f32 * list RecoveryClamp :=
  match value with
  | None => (None, clamps)
  | Some req =>
      let '(mn, mx) := range in
      let rewrite_to (app : f32) (why : ClampReason) :=
        (Some app, clamps ++ [{| param := name; requested := req; applied := app;
                                 valid_range := range; reason := why |}]) in
      if negb (is_finite req) then rewrite_to mn NotFinite
      else if SFltb req mn then rewrite_to mn BelowRange
      else if SFltb mx req then rewrite_to mx AboveRange
      else (Some req, clamps)
  end.

Definition apply_recovery_report {Tools} (req : ChatRequest Tools) (adj : RecoveryAdjustment)
    : ChatRequest Tools * list RecoveryClamp :=
  let '(fp, c1) := clamp_param (lit "frequency_penalty")
    (Some (f32_add (default DEFAULT_FREQUENCY_PENALTY (frequency_penalty req))
             (frequency_penalty_delta adj))) (MIN_PENALTY, MAX_PENALTY) [] in
  let '(t, c2) := clamp_param (lit "temperature")
    (Some (f32_add (default DEFAULT_TEMPERATURE (temperature req)) (temperature_delta adj)))
    (MIN_TEMPERATURE, MAX_TEMPERATURE) c1 in
  let '(tp, c3) := clamp_param (lit "top_p") (top_p req) (MIN_TOP_P, MAX_TOP_P) c2 in
  let '(pp, c4) := clamp_param (lit "presence_penalty") (presence_penalty req)
    (MIN_PENALTY, MAX_PENALTY) c3 in
  ({| model := model req; req_messages := req_messages req; temperature := t; top_p := tp;
      frequency_penalty := fp; presence_penalty := pp; stream := stream req;
      enable_thinking := Some false; reasoning_effort := reasoning_effort req;
      tools := tools req |}, c4).
Definition apply_recovery {Tools} (req : ChatRequest Tools) (adj : RecoveryAdjustment)
    : ChatRequest Tools := fst (apply_recovery_report req adj).

(** ** Nudges *)

Record NudgePolicy := { max_attempts : N; nudge_text : str }.
Definition default_nudge : NudgePolicy := {| max_attempts := 3; nudge_text := lit "?" |}.
Definition should_nudge (p : NudgePolicy) (attempts_used : N) : bool :=
  (attempts_used <? max_attempts p)%N.
Definition nudge (p : NudgePolicy) (messages : list Message) : list Message :=
  messages ++ [User (nudge_text p)].
