(* ===== verification/ThinkingFacts.v ===== *)
(** * Facts about the thinking demuxer

    Whatever the delta boundaries, the demuxer computes what a one-pass lexer
    computes on the whole text; recovery requests stay in the documented
    ranges. *)

From Stdlib Require Import Floats.SpecFloat.
From S2P Require Import Prelude Str Wire Thinking.

(** ** The reference lexer *)

Inductive atom := AText (thinking : bool) (c : char) | ATag (tag : str).

Fixpoint lex (fuel : nat) (thinking : bool) (s : str) : list atom :=
  match fuel, s with
  | S fuel', c :: s' =>
      match find_first (fun tag => starts_with tag s) (mode_tags thinking) with
      | Some tag => ATag tag :: lex fuel' (negb thinking) (drop (length tag) s)
      | None => AText thinking c :: lex fuel' thinking s'
      end
  | _, _ => []
  end.
Definition lexer (thinking : bool) (s : str) : list atom := lex (length s) thinking s.

Definition content_of (preserve : bool) (l : list atom) : str :=
  concat (map (fun a => match a with
    | AText false c => [c]
    | AText true c => if preserve then [c] else []
    | ATag t => if preserve then t else []
    end) l).
Definition thinking_of (l : list atom) : str :=
  concat (map (fun a => match a with AText true c => [c] | _ => [] end) l).

(** ** Tags *)

Definition opener (c : char) : bool := (c =? ch "<")%N || (c =? ch "[")%N.

(** A tag opens with a character that occurs nowhere else in any tag. *)
Definition tag_shape (tag : str) : Prop :=
  exists h t, tag = h :: t /\ opener h = true /\ Forall (fun c => opener c = false) t.

Lemma mode_tags_shape th tag : tag ∈ mode_tags th -> tag_shape tag.
Proof.
  intros Hin. assert (H : forallb (fun tag => match tag with
    | h :: t => opener h && forallb (fun c => negb (opener c)) t | [] => false end)
    (mode_tags th) = true) by (by destruct th).
  rewrite forallb_forall in H. specialize (H tag (proj1 (list_elem_of_In _ _) Hin)).
  destruct tag as [|h t]; [done|]. apply andb_true_iff in H as [Hh Ht]. exists h, t.
  split_and!; [done|done|]. rewrite forallb_forall in Ht. apply Forall_forall.
  intros c Hc. apply negb_true_iff, Ht. by apply list_elem_of_In.
Qed.

Lemma mode_tags_prefix_free th t1 t2 a b :
  t1 ∈ mode_tags th -> t2 ∈ mode_tags th -> t1 ++ a = t2 ++ b -> t1 = t2.
Proof.
  intros H1 H2 Heq.
  assert (Hpre : starts_with t1 t2 = true \/ starts_with t2 t1 = true).
  { apply List.app_eq_app in Heq as [l [[-> _]|[-> _]]]; [right|left]; apply starts_with_app. }
  assert (Hall : forallb (fun t1 => forallb (fun t2 =>
    str_eqb t1 t2 || negb (starts_with t1 t2 || starts_with t2 t1)) (mode_tags th)) (mode_tags th) = true)
    by (by destruct th).
  rewrite forallb_forall in Hall. specialize (Hall t1 (proj1 (list_elem_of_In _ _) H1)).
  rewrite forallb_forall in Hall. specialize (Hall t2 (proj1 (list_elem_of_In _ _) H2)).
  apply orb_true_iff in Hall as [H|H]; [by apply str_eqb_eq|].
  apply negb_true_iff, orb_false_iff in H as [? ?]. destruct Hpre; congruence.
Qed.

(** ** The lexer, by cases *)

Lemma lex_fuel f th s : length s <= f -> lex f th s = lexer th s.
Proof.
  unfold lexer. remember (length s) as n eqn:Hn. assert (Hle : length s <= n) by lia. clear Hn.
  revert f th s Hle. induction n as [|n IH]; intros f th s Hle Hf.
  { destruct s; [by destruct f|cbn in Hle; lia]. }
  destruct f as [|f]; [lia|]. destruct s as [|c s]; [done|]. cbn in Hle. cbn [lex].
  destruct (find_first _ (mode_tags th)) as [tag|] eqn:E.
  - f_equal. apply find_first_Some in E as (l1 & l2 & Hm & _ & _).
    destruct (mode_tags_shape th tag) as (h & t & -> & _); [rewrite Hm; set_solver|].
    assert (length (drop (length (h :: t)) (c :: s)) <= n) by (rewrite length_drop; cbn; lia).
    apply IH; cbn in *; lia.
  - f_equal. apply IH; cbn in *; lia.
Qed.

Lemma lexer_tag th tag s :
  tag ∈ mode_tags th -> lexer th (tag ++ s) = ATag tag :: lexer (negb th) s.
Proof.
  intros Ht. destruct (mode_tags_shape th tag Ht) as (h & t & Heq & _).
  unfold lexer. rewrite Heq. cbn [app length lex].
  change (h :: t ++ s) with ((h :: t) ++ s). rewrite <-Heq.
  destruct (find_first _ (mode_tags th)) as [tag'|] eqn:E.
  - apply find_first_Some in E as (l1 & l2 & Hm & Hs & _). apply starts_with_true in Hs as [r Hr].
    assert (tag = tag') as <-
      by (eapply (mode_tags_prefix_free th tag tag'); [done|rewrite Hm; set_solver|exact Hr]).
    f_equal. rewrite drop_app_length. apply lex_fuel. rewrite length_app. lia.
  - apply find_first_None in E. rewrite Forall_forall in E. specialize (E tag Ht). cbn in E.
    by rewrite starts_with_app in E.
Qed.

Definition no_tag_here (th : bool) (s : str) : Prop :=
  forall tag r, tag ∈ mode_tags th -> s <> tag ++ r.

Lemma lexer_char th c s :
  no_tag_here th (c :: s) -> lexer th (c :: s) = AText th c :: lexer th s.
Proof.
  intros H. unfold lexer. cbn [length lex].
  destruct (find_first _ (mode_tags th)) as [tag|] eqn:E; [|done].
  apply find_first_Some in E as (l1 & l2 & Hm & Hs & _). apply starts_with_true in Hs as [r Hr].
  exfalso. eapply H; [|exact Hr]. rewrite Hm. set_solver.
Qed.

(** A stretch in which no tag starts is lexed as plain text. *)
Lemma lexer_text th p s :
  (forall a b, p = a ++ b -> b <> [] -> no_tag_here th (b ++ s)) ->
  lexer th (p ++ s) = map (AText th) p ++ lexer th s.
Proof.
  induction p as [|c p IH]; intros H; [done|]. cbn [app map].
  rewrite lexer_char; [f_equal; apply IH|].
  - intros a b -> Hb. by apply (H (c :: a)).
  - by apply (H [] (c :: p)).
Qed.

Lemma content_of_app pr a b : content_of pr (a ++ b) = content_of pr a ++ content_of pr b.
Proof. unfold content_of. by rewrite map_app, concat_app. Qed.
Lemma thinking_of_app a b : thinking_of (a ++ b) = thinking_of a ++ thinking_of b.
Proof. unfold thinking_of. by rewrite map_app, concat_app. Qed.
Lemma content_of_text pr th p :
  content_of pr (map (AText th) p) = if th && negb pr then [] else p.
Proof.
  unfold content_of. induction p as [|c p IH]; [by destruct (th && negb pr)|].
  cbn [map concat]. rewrite IH. by destruct th, pr.
Qed.
Lemma thinking_of_text th p : thinking_of (map (AText th) p) = if th then p else [].
Proof.
  unfold thinking_of. induction p as [|c p IH]; [by destruct th|].
  cbn [map concat]. rewrite IH. by destruct th.
Qed.

(** With the tags preserved the lexed content is the text itself. *)
Lemma content_preserved th s : content_of true (lexer th s) = s.
Proof.
  remember (length s) as n eqn:Hn. assert (Hle : length s <= n) by lia. clear Hn.
  revert th s Hle. induction n as [|n IH]; intros th s Hle.
  { by destruct s; [|cbn in Hle; lia]. }
  destruct s as [|c s]; [done|]. cbn in Hle. unfold lexer. cbn [length lex].
  destruct (find_first _ (mode_tags th)) as [tag|] eqn:E.
  - apply find_first_Some in E as (l1 & l2 & Hm & Hs & _). apply starts_with_true in Hs as [r Hr].
    destruct (mode_tags_shape th tag) as (h & t & -> & _); [rewrite Hm; set_solver|].
    rewrite Hr, drop_app_length. injection Hr as -> ->.
    rewrite lex_fuel by (rewrite length_app in *; lia).
    change (content_of true (ATag (h :: t) :: ?l)) with ((h :: t) ++ content_of true l).
    rewrite IH; [done|]. rewrite length_app in Hle. lia.
  - fold (lexer th s). change (content_of true (AText th c :: ?l))
      with ((if th then [c] else [c]) ++ content_of true l).
    rewrite IH by lia. by destruct th.
Qed.

(** ** The searches of the push loop *)

Lemma opener_split (u v k1 k2 a b tag : str) :
  tag_shape tag -> tag = u ++ k1 -> tag = v ++ k2 -> u <> [] -> v <> [] ->
  a ++ u = b ++ v -> a = b /\ u = v.
Proof.
  intros (h & t & -> & Hh & Ht) Hu Hv Hune Hvne Heq.
  destruct u as [|hu u]; [done|]. destruct v as [|hv v]; [done|].
  injection Hu as <- Htu. injection Hv as <- Htv.
  rewrite Forall_forall in Ht.
  assert (Hno : forall l x k, t = x ++ k -> x <> l ++ h :: v /\ x <> l ++ h :: u).
  { intros l x k Hx. split; intros ->; specialize (Ht h); rewrite Ht in Hh; try done;
      rewrite Hx; set_solver. }
  apply List.app_eq_app in Heq as [l [[-> Hl]|[-> Hl]]]; destruct l as [|c l]; cbn in Hl.
  - injection Hl as ->. by rewrite app_nil_r.
  - injection Hl as <- Hl. exfalso. by destruct (Hno l v k2 Htv) as [H1 H2]; first [apply H1|apply H2].
  - injection Hl as ->. by rewrite app_nil_r.
  - injection Hl as <- Hl. exfalso. by destruct (Hno l u k1 Htu) as [H1 H2]; first [apply H1|apply H2].
Qed.

Lemma partial_prefix_split_Some buf tag i :
  partial_prefix_split buf tag = Some i ->
  exists a u k, buf = a ++ u /\ blen a = i /\ u <> [] /\ tag = u ++ k.
Proof.
  intros H. apply find_first_Some in H as (l1 & l2 & _ & Hp & _).
  apply andb_true_iff in Hp as [_ Hp]. destruct (get_from buf i) as [u|] eqn:E; [|done].
  unfold get_from in E. destruct (split_at buf i) as [[a b]|] eqn:Es; [|done].
  apply split_at_Some in Es as [-> <-]. injection E as ->.
  apply andb_true_iff in Hp as [Hne Hs]. apply starts_with_true in Hs as [k ->].
  exists a, u, k. split_and!; [done|done|by intros ->|done].
Qed.

Lemma partial_prefix_split_exists buf tag a u k :
  buf = a ++ u -> u <> [] -> k <> [] -> tag = u ++ k -> partial_prefix_split buf tag <> None.
Proof.
  intros -> Hu Hk -> Hnone. unfold partial_prefix_split in Hnone.
  apply find_first_None in Hnone. rewrite Forall_forall in Hnone.
  assert (Hbu : 0 < blen u /\ 0 < blen k).
  { split; [destruct u|destruct k]; try done; rewrite blen_cons; pose proof len_utf8_pos as Hp;
      match goal with |- 0 < len_utf8 ?c + _ => specialize (Hp c) end; lia. }
  specialize (Hnone (blen a)). rewrite get_from_app in Hnone.
  unfold is_char_boundary in Hnone. rewrite split_at_app, starts_with_app in Hnone.
  assert (He : is_empty u = false) by (by destruct u). rewrite He in Hnone.
  enough (true = false) by done. apply Hnone.
  apply list_elem_of_In, in_rev. rewrite rev_involutive. apply list_elem_of_In. rewrite !blen_app in *. apply elem_of_seq. lia.
Qed.

Lemma min_by_idx_Some l x :
  min_by_idx l = Some x -> x ∈ l /\ Forall (fun y => fst x <= fst y) l.
Proof.
  revert x. induction l as [|y l IH]; intros x; cbn [min_by_idx]; [done|].
  destruct (min_by_idx l) as [z|] eqn:E.
  - destruct (IH z eq_refl) as [Hin Hall]. destruct (Nat.ltb_spec (fst z) (fst y)); intros [= <-].
    + split; [by right|]. constructor; [lia|done].
    + split; [by left|]. constructor; [lia|]. eapply Forall_impl; [exact Hall|]. cbn. lia.
  - destruct l as [|w l]; [|cbn in E; destruct (min_by_idx l); [case_match|]; done].
    intros [= <-]. split; [by left|]. repeat constructor.
Qed.

Lemma min_by_idx_None l : min_by_idx l = None -> l = [].
Proof. destruct l; [done|]. cbn. destruct (min_by_idx l); [case_match|]; done. Qed.

Lemma min_nat_Some l n : min_nat l = Some n -> n ∈ l /\ Forall (fun m => n <= m) l.
Proof.
  revert n. induction l as [|y l IH]; intros n; cbn [min_nat]; [done|].
  destruct (min_nat l) as [z|] eqn:E.
  - destruct (IH z eq_refl) as [Hin Hall]. intros [= <-]. split.
    + destruct (Nat.min_spec y z) as [[_ ->]|[_ ->]]; [by left|by right].
    + constructor; [lia|]. eapply Forall_impl; [exact Hall|]. cbn. lia.
  - destruct l as [|w l]; [|cbn in E; destruct (min_nat l); done].
    intros [= <-]. split; [by left|]. repeat constructor.
Qed.

Lemma min_nat_None l : min_nat l = None -> l = [].
Proof. destruct l; [done|]. cbn. by destruct (min_nat l). Qed.

(** No tag of the mode occurs before the index found. *)
Lemma found_min d idx tag t a r :
  min_by_idx (found_tags d) = Some (idx, tag) ->
  t ∈ mode_tags (in_thinking d) -> pending d = a ++ t ++ r -> idx <= blen a.
Proof.
  intros H Ht Hocc. apply min_by_idx_Some in H as [_ Hall]. rewrite Forall_forall in Hall.
  destruct (find_str t (pending d)) as [j|] eqn:Ej.
  - apply find_str_Some in Ej as Ej'. destruct Ej' as (a' & b' & Hp' & <- & Hmin).
    specialize (Hmin a _ Hocc).
    assert (Hle : idx <= blen a').
    { apply (Hall (blen a', t)). apply list_elem_of_omap. exists t. split; [done|]. by rewrite Ej. }
    rewrite Hp' in Hocc. apply List.app_eq_app in Hocc as [k [[-> _]|[-> _]]].
    + rewrite length_app in Hmin. destruct k; [by rewrite app_nil_r in Hle|cbn in Hmin; lia].
    + rewrite blen_app. lia.
  - by apply (proj1 (find_str_None t _) Ej) in Hocc.
Qed.

(** The tag a pass of the loop consumes is the first one of its text. *)
Lemma found_first d idx tag :
  min_by_idx (found_tags d) = Some (idx, tag) ->
  exists pre rest, pending d = pre ++ tag ++ rest /\ blen pre = idx /\
    tag ∈ mode_tags (in_thinking d) /\
    (forall s a b, pre = a ++ b -> b <> [] -> no_tag_here (in_thinking d) (b ++ tag ++ rest ++ s)).
Proof.
  intros H. apply min_by_idx_Some in H as H'. destruct H' as [Hin _]. unfold found_tags in Hin.
  apply list_elem_of_omap in Hin as (tag' & Htag & Hf).
  destruct (find_str tag' (pending d)) as [i|] eqn:E; [|done]. injection Hf as <- <-.
  apply find_str_Some in E as (pre & rest & Hp & <- & _).
  exists pre, rest. split_and!; [done|done|done|]. intros s a b -> Hb t z Ht Heq.
  assert (Hbpos : 0 < blen b).
  { destruct b as [|c b]; [done|]. rewrite blen_cons. pose proof (len_utf8_pos c). lia. }
  assert (Hno : forall l, b <> t ++ l).
  { intros l ->. rewrite <-!app_assoc in Hp. pose proof (found_min _ _ _ t a _ H Ht Hp) as Hle.
    rewrite blen_app in Hle. lia. }
  apply List.app_eq_app in Heq as [l [[-> _]|[Htl Heq]]]; [by apply (Hno l)|].
  destruct (mode_tags_shape _ _ Htag) as (h & t' & -> & Hh & _).
  destruct (mode_tags_shape _ _ Ht) as (h2 & t2 & Ht2 & _ & Hop).
  destruct b as [|c b]; [done|]. destruct l as [|c' l].
  { apply (Hno []). by rewrite app_nil_r in *. }
  injection Heq as <- _. rewrite Ht2 in Htl. injection Htl as _ Htl.
  rewrite Forall_forall in Hop. rewrite (Hop h) in Hh; [done|]. rewrite Htl. set_solver.
Qed.

(** Without a complete tag, what a pass commits starts no tag in any future. *)
Lemma held_back d committed held :
  min_by_idx (found_tags d) = None -> pending d = committed ++ held ->
  (forall tag i, tag ∈ mode_tags (in_thinking d) -> partial_prefix_split (pending d) tag = Some i ->
     blen committed <= i) ->
  forall s a b, committed = a ++ b -> b <> [] -> no_tag_here (in_thinking d) (b ++ held ++ s).
Proof.
  intros Hnone Hp Hsplit s a b -> Hb t z Ht Heq.
  assert (Hno : forall a' r, pending d <> a' ++ t ++ r).
  { apply (proj1 (find_str_None t _)). destruct (find_str t (pending d)) as [i|] eqn:E; [|done].
    apply min_by_idx_None in Hnone. assert (Hin : (i, t) ∈ found_tags d); [|rewrite Hnone in Hin; by apply not_elem_of_nil in Hin].
    apply list_elem_of_omap. exists t. split; [done|]. by rewrite E. }
  rewrite app_assoc in Heq. rewrite <-app_assoc in Hp.
  apply List.app_eq_app in Heq as [l [[Hl _]|[Hl _]]].
  { apply (Hno a l). by rewrite Hp, Hl. }
  destruct l as [|c l].
  { apply (Hno a []). rewrite Hp, app_nil_r. rewrite app_nil_r in Hl. by rewrite Hl. }
  destruct (partial_prefix_split (pending d) t) as [i|] eqn:E.
  - pose proof (Hsplit t i Ht E) as Hle.
    apply partial_prefix_split_Some in E as (a' & u & k & Hpu & <- & Hu & Htu).
    rewrite Hp in Hpu. symmetry in Hpu.
    destruct (opener_split u (b ++ held) k (c :: l) a' a t) as [-> _]; try done.
    + by apply mode_tags_shape in Ht.
    + by destruct b.
    + rewrite blen_app in Hle. destruct b as [|c' b]; [done|]. rewrite blen_cons in Hle.
      pose proof (len_utf8_pos c'). lia.
  - eapply (partial_prefix_split_exists _ t a (b ++ held) (c :: l)); try done. by destruct b.
Qed.

Lemma found_none_iff d :
  min_by_idx (found_tags d) = None <->
  forall t a r, t ∈ mode_tags (in_thinking d) -> pending d <> a ++ t ++ r.
Proof.
  split.
  - intros H%min_by_idx_None t a r Ht Hp.
    assert (E : find_str t (pending d) = None).
    { destruct (find_str t (pending d)) as [i|] eqn:E; [|done].
      assert (Hin : (i, t) ∈ found_tags d); [|rewrite H in Hin; by apply not_elem_of_nil in Hin].
      apply list_elem_of_omap. exists t. split; [done|]. by rewrite E. }
    by apply (proj1 (find_str_None t _) E) in Hp.
  - intros H. destruct (min_by_idx (found_tags d)) as [[i t]|] eqn:E; [|done].
    apply found_first in E as (pre & rest & Hp & _ & Ht & _). by apply H in Hp.
Qed.

(** ** One push *)

Definition ev_text (k : DeltaKind) (ev : events) : str :=
  concat (map (fun e => if decide (fst e = k) then snd e else []) ev).

Lemma ev_text_app k a b : ev_text k (a ++ b) = ev_text k a ++ ev_text k b.
Proof. unfold ev_text. by rewrite map_app, concat_app. Qed.

(** [d'] is [d] after consuming the atoms [l], with [ev] emitted on the way. *)
Definition advances (d d' : ThinkingDemuxer) (l : list atom) (ev : events) : Prop :=
  preserve_thinking d' = preserve_thinking d /\
  (forall s, lexer (in_thinking d) (pending d ++ s) = l ++ lexer (in_thinking d') (pending d' ++ s)) /\
  d_content d' = d_content d ++ content_of (preserve_thinking d) l /\
  d_thinking d' = d_thinking d ++ thinking_of l /\
  ev_text DThinking ev = thinking_of l /\ ev_text DContent ev = content_of false l.

Lemma advances_trans d1 d2 d3 l1 l2 e1 e2 :
  advances d1 d2 l1 e1 -> advances d2 d3 l2 e2 -> advances d1 d3 (l1 ++ l2) (e1 ++ e2).
Proof.
  intros (Hp1 & Hl1 & Hc1 & Ht1 & Het1 & Hec1) (Hp2 & Hl2 & Hc2 & Ht2 & Het2 & Hec2).
  unfold advances. rewrite !content_of_app, !thinking_of_app, !ev_text_app.
  split_and!; try congruence.
  - intros s. by rewrite Hl1, Hl2, app_assoc.
  - by rewrite Hc2, Hc1, Hp1, app_assoc.
  - by rewrite Ht2, Ht1, app_assoc.
Qed.

(** Committing a stretch of plain text and moving on. *)
Lemma commit_advances d p rest d1 ev :
  pending d = p ++ rest ->
  (forall s a b, p = a ++ b -> b <> [] -> no_tag_here (in_thinking d) (b ++ rest ++ s)) ->
  commit d p = (d1, ev) ->
  advances d (set_pending d1 rest) (map (AText (in_thinking d)) p) ev /\
  in_thinking d1 = in_thinking d /\ preserve_thinking d1 = preserve_thinking d.
Proof.
  intros Hp Hno Hc.
  assert (Hlex : forall s, lexer (in_thinking d) (pending d ++ s) =
    map (AText (in_thinking d)) p ++ lexer (in_thinking d) (rest ++ s)).
  { intros s. rewrite Hp, <-app_assoc. apply lexer_text. intros a b. apply Hno. }
  unfold commit in Hc. destruct p as [|c p].
  - injection Hc as <- <-. unfold advances. cbn. rewrite !app_nil_r. split_and!; try done.
  - cbn [is_empty] in Hc. injection Hc as <- <-. unfold append. cbn [is_empty].
    unfold advances. rewrite !content_of_text, thinking_of_text.
    unfold ev_text, current_kind. destruct (in_thinking d) eqn:Em;
      cbn; rewrite ?Em, ?app_nil_r; split_and!; try done; by destruct (preserve_thinking d); rewrite ?app_nil_r.
Qed.

Lemma tag_advances d tag rest :
  pending d = tag ++ rest -> tag ∈ mode_tags (in_thinking d) ->
  advances d (set_pending (consume_tag d tag) rest) [ATag tag] [].
Proof.
  intros Hp Ht. unfold advances. cbn. split_and!; try done.
  - intros s. rewrite Hp, <-app_assoc. by apply lexer_tag.
  - destruct (preserve_thinking d); by rewrite ?app_nil_r.
  - by rewrite app_nil_r.
Qed.

Lemma consume_set_pending d p tag : consume_tag (set_pending d p) tag = set_pending (consume_tag d tag) p.
Proof. done. Qed.

Lemma set_set_pending d p q : set_pending (set_pending d p) q = set_pending d q.
Proof. done. Qed.

(** The last pass: commit up to the held suffix. *)
Lemma final_pass d kind out fuel :
  min_by_idx (found_tags d) = None ->
  exists d' ev l, push_loop (S fuel) d kind out = Some (d', kind, out ++ ev) /\
    advances d d' l ev /\ min_by_idx (found_tags d') = None.
Proof.
  intros Hnone. cbn [push_loop]. rewrite Hnone.
  assert (Hfin : forall p rest, pending d = p ++ rest ->
    (forall tag i, tag ∈ mode_tags (in_thinking d) -> partial_prefix_split (pending d) tag = Some i ->
     blen p <= i) -> forall d1 ev, commit d p = (d1, ev) ->
    advances d (set_pending d1 rest) (map (AText (in_thinking d)) p) ev /\
    min_by_idx (found_tags (set_pending d1 rest)) = None).
  { intros p rest Hp Hs d1 ev Hc.
    destruct (commit_advances d p rest d1 ev Hp (held_back d p rest Hnone Hp Hs) Hc) as (Ha & Hi & _).
    split; [done|]. apply found_none_iff. cbn. rewrite Hi. intros t a r Ht ->.
    apply (proj1 (found_none_iff d) Hnone t (p ++ a) r Ht). by rewrite Hp, <-app_assoc. }
  destruct (min_nat (omap (partial_prefix_split (pending d)) (mode_tags (in_thinking d)))) as [split|] eqn:E.
  - apply min_nat_Some in E as [Hin Hall]. rewrite Forall_forall in Hall.
    apply list_elem_of_omap in Hin as (t & Ht & Hs).
    apply partial_prefix_split_Some in Hs as (a & u & k & Hp & <- & _).
    rewrite Hp, get_to_app, get_from_app. destruct (commit d a) as [d1 ev] eqn:Ec.
    destruct (Hfin a u Hp) with (d1 := d1) (ev := ev) as [Ha Hn]; [|done|by eexists _, _, _].
    intros tag i Htag Hi. apply Hall, list_elem_of_omap. by exists tag.
  - apply min_nat_None in E. destruct (commit d (pending d)) as [d1 ev] eqn:Ec.
    destruct (Hfin (pending d) [] ltac:(by rewrite app_nil_r)) with (d1 := d1) (ev := ev) as [Ha Hn];
      [|done|by eexists _, _, _].
    intros tag i Htag Hi. assert (Hin : i ∈ omap (partial_prefix_split (pending d)) (mode_tags (in_thinking d)))
      by (apply list_elem_of_omap; by exists tag).
    rewrite E in Hin. by apply not_elem_of_nil in Hin.
Qed.

Lemma push_loop_spec fuel d kind out :
  length (pending d) < fuel ->
  exists d' kind' ev l, push_loop fuel d kind out = Some (d', kind', out ++ ev) /\
    advances d d' l ev /\ min_by_idx (found_tags d') = None.
Proof.
  revert d kind out. induction fuel as [|fuel IH]; intros d kind out Hf; [lia|].
  destruct (min_by_idx (found_tags d)) as [[idx tag]|] eqn:E.
  2: { destruct (final_pass d kind out fuel E) as (d' & ev & l & ? & ? & ?). by eexists d', kind, ev, l. }
  cbn [push_loop]. rewrite E. apply found_first in E as (pre & rest & Hp & <- & Ht & Hno).
  rewrite Hp, get_to_app, app_assoc, <-blen_app, get_from_app.
  destruct (commit d pre) as [d1 ev1] eqn:Ec.
  destruct (commit_advances d pre (tag ++ rest) d1 ev1 Hp) as (Ha & Hi & Hpr); [|done|].
  { intros s a b Hab Hb. rewrite <-app_assoc. by apply Hno with a. }
  pose proof (tag_advances (set_pending d1 (tag ++ rest)) tag rest eq_refl) as Htag.
  cbn [in_thinking set_pending] in Htag. rewrite Hi in Htag. specialize (Htag Ht).
  rewrite consume_set_pending, set_set_pending in Htag.
  destruct (IH (set_pending (consume_tag d1 tag) rest) (current_kind (consume_tag d1 tag)) (out ++ ev1))
    as (d' & kind' & ev & l & Hl & Hadv & Hn).
  { cbn. rewrite Hp, !length_app in Hf. destruct (mode_tags_shape _ _ Ht) as (h & t & -> & _).
    cbn in Hf. lia. }
  exists d', kind', (ev1 ++ [] ++ ev), (map (AText (in_thinking d)) pre ++ [ATag tag] ++ l).
  split_and!; [by rewrite Hl, <-app_assoc| |done].
  eapply advances_trans; [exact Ha|]. by eapply advances_trans.
Qed.

(** ** A whole stream *)

Fixpoint push_all (d : ThinkingDemuxer) (deltas : list str) : option (ThinkingDemuxer * events) :=
  match deltas with
  | [] => Some (d, [])
  | delta :: deltas' =>
      match push_delta d delta with
      | Some (d', _, ev) =>
          match push_all d' deltas' with
          | Some (d'', ev') => Some (d'', ev ++ ev')
          | None => None
          end
      | None => None
      end
  end.

Lemma push_delta_spec d delta :
  min_by_idx (found_tags d) = None ->
  exists d' kind ev l, push_delta d delta = Some (d', kind, ev) /\
    advances (set_pending d (pending d ++ delta)) d' l ev /\ min_by_idx (found_tags d') = None.
Proof.
  intros Hn. unfold push_delta. destruct delta as [|c delta].
  - exists d, (current_kind d), [], []. rewrite app_nil_r. split_and!; [done| |done].
    unfold advances. cbn. by rewrite !app_nil_r.
  - cbn [is_empty]. set (d0 := set_pending d (pending d ++ c :: delta)).
    destruct (push_loop_spec (S (length (pending d0))) d0 (current_kind d0) []) as (d' & k & ev & l & ? & ? & ?);
      [lia|]. by exists d', k, ev, l.
Qed.

Lemma push_all_spec d deltas :
  min_by_idx (found_tags d) = None ->
  exists d' ev l, push_all d deltas = Some (d', ev) /\
    advances (set_pending d (pending d ++ concat deltas)) d' l ev /\ min_by_idx (found_tags d') = None.
Proof.
  revert d. induction deltas as [|delta ds IH]; intros d Hn; cbn [push_all concat].
  - exists d, [], []. rewrite app_nil_r. split_and!; [done| |done].
    unfold advances. cbn. by rewrite !app_nil_r.
  - destruct (push_delta_spec d delta Hn) as (d1 & k & ev1 & l1 & -> & Ha1 & Hn1).
    destruct (IH d1 Hn1) as (d2 & ev2 & l2 & -> & Ha2 & Hn2).
    exists d2, (ev1 ++ ev2), (l1 ++ l2). split_and!; [done| |done].
    eapply advances_trans; [|exact Ha2].
    destruct Ha1 as (Hp & Hl & Hc & Ht & He1 & He2). unfold advances. cbn. split_and!; try done.
    intros s. rewrite <-!app_assoc, !app_assoc. rewrite <-(app_assoc (pending d)).
    rewrite <-(app_assoc (pending d)), <-(app_assoc delta). specialize (Hl (concat ds ++ s)).
    cbn in Hl. rewrite <-app_assoc in Hl. rewrite <-!app_assoc. exact Hl.
Qed.

(** Committing what is held back at the end of the stream. *)
Lemma finish_spec d :
  min_by_idx (found_tags d) = None ->
  exists d' ev l, finish_delta d = (d', ev) /\ lexer (in_thinking d) (pending d) = l /\
    d_content d' = d_content d ++ content_of (preserve_thinking d) l /\
    d_thinking d' = d_thinking d ++ thinking_of l /\
    ev_text DThinking ev = thinking_of l /\ ev_text DContent ev = content_of false l.
Proof.
  intros Hn.
  assert (Hno : forall a b, pending d = a ++ b -> b <> [] -> no_tag_here (in_thinking d) (b ++ [])).
  { intros a b Hp Hb t r Ht Hr. rewrite app_nil_r in Hr.
    apply (proj1 (found_none_iff d) Hn t a r Ht). by rewrite Hp, Hr. }
  assert (Hlex : lexer (in_thinking d) (pending d) = map (AText (in_thinking d)) (pending d)).
  { pose proof (lexer_text (in_thinking d) (pending d) [] Hno) as Hl.
    by rewrite !app_nil_r in Hl. }
  unfold finish_delta. destruct (pending d) as [|c p] eqn:Ep; cbn [is_empty].
  - eexists _, _, _. split_and!; [done|exact Hlex|..]; cbn; by rewrite ?app_nil_r.
  - eexists _, _, _. split_and!; [done|exact Hlex|..]; rewrite ?content_of_text, ?thinking_of_text;
      unfold append, ev_text, current_kind; destruct (in_thinking d) eqn:Em, (preserve_thinking d) eqn:Epr;
      cbn; rewrite ?Em, ?Epr; cbn; by rewrite ?app_nil_r.
Qed.

(** ** Properties *)

(** C39: however the raw text is cut into deltas, pushing them and finishing
    gives exactly what a one-pass lexer of the whole text gives: the thinking
    channel, the visible content, and the emitted chunks of each channel, in
    order; no delta is lost, no slice is off a boundary, and with the tags
    preserved the payload is the raw text verbatim. *)
Theorem demux_chunk_invariant preserve deltas :
  let raw := concat deltas in
  exists d ev d' ev', push_all (with_preserve preserve) deltas = Some (d, ev) /\
    finish_delta d = (d', ev') /\
    d_content d' = content_of preserve (lexer false raw) /\
    d_thinking d' = thinking_of (lexer false raw) /\
    ev_text DThinking (ev ++ ev') = thinking_of (lexer false raw) /\
    ev_text DContent (ev ++ ev') = content_of false (lexer false raw) /\
    (preserve = true -> d_content d' = raw).
Proof.
  intros raw. destruct (push_all_spec (with_preserve preserve) deltas eq_refl) as (d & ev & l & Hpush & Ha & Hn).
  destruct (finish_spec d Hn) as (d' & ev' & l' & Hfin & Hl' & Hc' & Ht' & Het' & Hec').
  destruct Ha as (Hp & Hl & Hc & Ht & Het & Hec).
  cbn [set_pending with_preserve pending in_thinking preserve_thinking d_content d_thinking app] in *.
  specialize (Hl []). rewrite !app_nil_r, Hl' in Hl. fold raw in Hl.
  exists d, ev, d', ev'. rewrite !ev_text_app, Hl, !content_of_app, !thinking_of_app.
  split_and!; try done; try congruence.
  intros ->. rewrite Hc', Hc, Hp, <-content_of_app, <-Hl. apply content_preserved.
Qed.

(** On finite values the comparison is total. *)
Lemma f32_leb_ltb x y :
  is_finite x = true -> is_finite y = true -> SFleb y x = negb (SFltb x y).
Proof.
  intros Hx Hy. unfold SFltb, SFleb.
  destruct x as [sx|sx| |sx mx ex], y as [sy|sy| |sy my ey]; try done; cbn;
    destruct sx; try destruct sy; try done; cbn;
    rewrite (Z.compare_antisym ex ey); destruct (ex ?= ey)%Z; cbn; try done;
    change (PosDef.Pos.compare_cont Eq) with Pos.compare;
    rewrite (Pos.compare_antisym mx my); by destruct (mx ?= my)%positive.
Qed.

Definition in_range (r : f32) (range : f32 * f32) : Prop :=
  is_finite r = true /\ SFleb (fst range) r = true /\ SFleb r (snd range) = true.
Definition opt_in_range (v : option f32) (range : f32 * f32) : Prop :=
  match v with Some r => in_range r range | None => True end.

Lemma clamp_param_spec name v mn mx cl :
  in_range mn (mn, mx) -> in_range mx (mn, mx) ->
  let '(v', cl') := clamp_param name v (mn, mx) cl in
  opt_in_range v' (mn, mx) /\ (v' = None <-> v = None) /\
  exists moved, cl' = cl ++ moved /\ (opt_in_range v (mn, mx) -> v' = v /\ moved = []) /\
    (moved = [] -> v' = v).
Proof.
  intros Hmn Hmx. unfold clamp_param. destruct v as [r|].
  2: { split_and!; [done|done|]. exists []. by rewrite app_nil_r. }
  assert (Hrw : forall app c, in_range app (mn, mx) -> ~ in_range r (mn, mx) ->
    opt_in_range (Some app) (mn, mx) /\ (Some app = None <-> Some r = None) /\
    exists moved, cl ++ [c : RecoveryClamp] = cl ++ moved /\
      (opt_in_range (Some r) (mn, mx) -> Some app = Some r /\ moved = []) /\ (moved = [] -> Some app = Some r)).
  { intros app c Happ Hno. split_and!; [done|done|]. by exists [c]. }
  pose proof (proj1 Hmn) as Hfn. pose proof (proj1 Hmx) as Hfx.
  destruct (is_finite r) eqn:Ef; cbn [negb]; [|apply Hrw; [done|intros [? _]; congruence]].
  pose proof (f32_leb_ltb r mn Ef Hfn) as H1. pose proof (f32_leb_ltb mx r Hfx Ef) as H2.
  destruct (SFltb r mn) eqn:E1.
  { apply Hrw; [done|]. intros (_ & Hle & _). cbn [fst snd] in Hle. by rewrite H1 in Hle. }
  destruct (SFltb mx r) eqn:E2.
  { apply Hrw; [done|]. intros (_ & _ & Hle). cbn [fst snd] in Hle. by rewrite H2 in Hle. }
  split_and!; [done|done|]. exists []. by rewrite app_nil_r.
Qed.

(** A recovery request always disables thinking, and whatever the configured
    values and deltas (infinities and NaN included) every sampling parameter it
    carries is a finite number inside the documented range; a parameter that was
    unset stays unset unless the policy sets it; with no clamp reported nothing
    was rewritten, and the rest of the request is untouched. *)
Theorem recovery_in_range {Tools} (req : ChatRequest Tools) adj :
  let '(out, clamps) := apply_recovery_report req adj in
  let fp := f32_add (default DEFAULT_FREQUENCY_PENALTY (frequency_penalty req)) (frequency_penalty_delta adj) in
  let t := f32_add (default DEFAULT_TEMPERATURE (temperature req)) (temperature_delta adj) in
  enable_thinking out = Some false /\
  (exists r, frequency_penalty out = Some r /\ in_range r (MIN_PENALTY, MAX_PENALTY)) /\
  (exists r, temperature out = Some r /\ in_range r (MIN_TEMPERATURE, MAX_TEMPERATURE)) /\
  opt_in_range (top_p out) (MIN_TOP_P, MAX_TOP_P) /\ (top_p out = None <-> top_p req = None) /\
  opt_in_range (presence_penalty out) (MIN_PENALTY, MAX_PENALTY) /\
  (presence_penalty out = None <-> presence_penalty req = None) /\
  (clamps = [] -> frequency_penalty out = Some fp /\ temperature out = Some t /\
     top_p out = top_p req /\ presence_penalty out = presence_penalty req) /\
  model out = model req /\ req_messages out = req_messages req /\ tools out = tools req /\
  stream out = stream req /\ reasoning_effort out = reasoning_effort req.
Proof.
  unfold apply_recovery_report. cbv zeta.
  set (fp := f32_add _ (frequency_penalty_delta adj)). set (t := f32_add _ (temperature_delta adj)).
  pose proof (clamp_param_spec (lit "frequency_penalty") (Some fp) MIN_PENALTY MAX_PENALTY []
    ltac:(by vm_compute) ltac:(by vm_compute)) as H1.
  destruct (clamp_param _ (Some fp) _ _) as [fp' c1]. destruct H1 as (Hf & Hfn & m1 & -> & _ & Hm1).
  pose proof (clamp_param_spec (lit "temperature") (Some t) MIN_TEMPERATURE MAX_TEMPERATURE m1
    ltac:(by vm_compute) ltac:(by vm_compute)) as H2.
  destruct (clamp_param _ (Some t) _ _) as [t' c2]. destruct H2 as (Ht & Htn & m2 & -> & _ & Hm2).
  pose proof (clamp_param_spec (lit "top_p") (top_p req) MIN_TOP_P MAX_TOP_P (m1 ++ m2)
    ltac:(by vm_compute) ltac:(by vm_compute)) as H3.
  destruct (clamp_param _ (top_p req) _ _) as [tp' c3]. destruct H3 as (Htp & Htpn & m3 & -> & _ & Hm3).
  pose proof (clamp_param_spec (lit "presence_penalty") (presence_penalty req) MIN_PENALTY MAX_PENALTY
    ((m1 ++ m2) ++ m3) ltac:(by vm_compute) ltac:(by vm_compute)) as H4.
  destruct (clamp_param _ (presence_penalty req) _ _) as [pp' c4].
  destruct H4 as (Hpp & Hppn & m4 & -> & _ & Hm4).
  cbn [enable_thinking frequency_penalty temperature top_p presence_penalty model req_messages tools
       stream reasoning_effort].
  split_and!; try done.
  - destruct fp' as [r|]; [by exists r|]. by apply proj1 in Hfn; specialize (Hfn eq_refl).
  - destruct t' as [r|]; [by exists r|]. by apply proj1 in Htn; specialize (Htn eq_refl).
  - intros Hnil. apply app_nil in Hnil as [Hnil ->]. apply app_nil in Hnil as [Hnil ->].
    apply app_nil in Hnil as [-> ->]. auto.
Qed.
