(* ===== verification/Steer.v ===== *)
(** * Steering arbitration ([src/orchestrator/steer.rs], [src/orchestrator/bus.rs])

    The vocabulary of the arbitrator's decisions, the reading of its reply, the
    subtasks a decision delegates, and the history of the exchanges.  Parsing a
    decision out of JSON is a parameter; the prompts, the calls to the model
    and the logs are left out.  An exchange is filed under the entry it names and
    no other; reading a reply fails on one shape of text only. *)

From stdpp Require Import pretty.
From S2P Require Import Prelude Str Decimal TaskId ToolNames ToolArgs Agents Wire Thinking ThinkingFacts.
Local Open Scope nat_scope.

Record SteerSubtaskDecision := {
  tool_call_id : str;
  action : str;
  st_message : option str;
  st_agent_name : option str;
  st_prompt : option str;
  st_sleep_seconds : option N;
  st_share_with_orchestrator : option bool
}.
Record SteerDecision := {
  decision : str;
  response : option str;
  tier : option str;
  model : option str;
  subtasks : list SteerSubtaskDecision;
  sleep_seconds : option N;
  share_with_orchestrator : option bool;
  orchestrator_note : option str
}.
Inductive SteerOutcome := Decided (d : SteerDecision) | QueueInstruction | SteerImmediately.

(** ** The vocabulary *)

Definition is_fold_char (c : char) : bool := (c =? ch "_")%N || (c =? ch "-")%N || (c =? ch " ")%N.
Definition steer_action_key (action : str) : str :=
  List.filter (fun c => negb (is_fold_char c)) (to_ascii_lowercase (trim action)).

Definition normalize_steer_decision (decision : option str) : str :=
  match decision with
  | None => lit "None"
  | Some s =>
      let norm := steer_action_key s in
      if str_mem norm [lit "responddirectly"; lit "respond"; lit "directresponse"; lit "direct"] then lit "RespondDirectly"
      else if str_mem norm [lit "abortimmediately"; lit "abort"] then lit "AbortImmediately"
      else if str_mem norm [lit "forwardtoworker"; lit "forward"; lit "forwardnotice"] then lit "ForwardToWorker"
      else if str_mem norm [lit "approveplan"; lit "approve"] then lit "ApprovePlan"
      else if str_mem norm [lit "rejectplan"; lit "reject"] then lit "RejectPlan"
      else if str_eqb norm TOOL_SLEEP then lit "Sleep"
      else if str_mem norm [lit "delegatetask"; lit "delegate"] then lit "DelegateTask"
      else if str_mem norm [lit "queueandcontinue"; lit "queue"] then lit "QueueAndContinue"
      else lit "Unknown"
  end.

Inductive SteerSubtaskAction := ForwardNotice | Cancel | DelegateTask | Sleep | Unknown.
#[export] Instance SteerSubtaskAction_eq_dec : EqDecision SteerSubtaskAction.
Proof. solve_decision. Defined.
Definition canonical (a : SteerSubtaskAction) : str :=
  match a with
  | ForwardNotice => lit "ForwardNotice" | Cancel => lit "Cancel" | DelegateTask => lit "DelegateTask"
  | Sleep => lit "Sleep" | Unknown => lit "Unknown"
  end.
Definition is_known (a : SteerSubtaskAction) : bool := negb (bool_decide (a = Unknown)).

Definition CANCEL_SPELLINGS : list str :=
  [lit "cancel"; lit "canceltask"; lit "cancelsubtask"; lit "cancelworker"; lit "cancelstream"; lit "abort";
   lit "aborttask"; lit "abortimmediately"; lit "abortstream"; lit "stop"; lit "stoptask"; lit "terminate";
   lit "terminatetask"].
Definition FORWARD_SPELLINGS : list str :=
  [lit "forwardnotice"; lit "forward"; lit "forwardtoworker"; lit "forwardmessage"; lit "sendnotice";
   lit "postnotice"; lit "notice"; lit "notifyworker"; lit "replytoarbitrator"; lit "answerarbitrator"].
Definition DELEGATE_SPELLINGS : list str :=
  [lit "delegatetask"; lit "delegate"; lit "delegatenewtask"; lit "newtask"; lit "newsubtask"; lit "createtask";
   lit "starttask"; lit "spawntask"].
(** [None]: a rejected spelling. *)
Definition action_from_str (action : str) : option SteerSubtaskAction :=
  let key := steer_action_key action in
  if str_mem key CANCEL_SPELLINGS then Some Cancel
  else if str_mem key FORWARD_SPELLINGS then Some ForwardNotice
  else if str_mem key DELEGATE_SPELLINGS then Some DelegateTask
  else if is_sleep_tool_grammar_spelling key then Some Sleep
  else None.
Definition normalize_steer_subtask_action (action : str) : SteerSubtaskAction := default Unknown (action_from_str action).
Definition action_of (s : SteerSubtaskDecision) : SteerSubtaskAction := normalize_steer_subtask_action (action s).

(** ** The history of the exchanges *)

Definition PENDING_ENTRY_MARKERS : list str := [lit "awaiting specialist reply"; lit "ForwardToWorker"; lit "follow-up"].
Definition steering_entry_is_pending (entry_response : str) : bool :=
  starts_with (lit "Decision:") entry_response ||
  existsb (fun marker => contains marker entry_response) PENDING_ENTRY_MARKERS.

Definition is_identifier_char (c : char) : bool :=
  is_ascii_alphanumeric c || (c =? ch "-")%N || (c =? ch "_")%N || (c =? ch ".")%N.

(** [match_indices]: the text before and after each match, left to right and
    disjoint; a match of a needle that is not empty shortens the text. *)
Fixpoint matches_from (fuel : nat) (passed needle s : str) : list (str * str) :=
  match fuel with
  | 0 => []
  | S k =>
      match find_split needle s with
      | Some (a, b) => (passed ++ a, b) :: matches_from k (passed ++ a ++ needle) needle b
      | None => []
      end
  end.
Definition match_indices (needle s : str) : list (str * str) := matches_from (S (length s)) [] needle s.

Definition bounded (e : str * str) : bool :=
  negb (match last (fst e) with Some c => is_identifier_char c | None => false end) &&
  negb (match head (snd e) with Some c => is_identifier_char c | None => false end).
Definition entry_names_notice_id (entry_response notice_id : str) : bool :=
  let notice_id := trim notice_id in
  if is_empty notice_id then false else existsb bounded (match_indices notice_id entry_response).

Definition same_steering_inquiry (incoming recorded : str) : bool :=
  let incoming := to_ascii_lowercase (trim incoming) in
  let recorded := to_ascii_lowercase (trim recorded) in
  negb (is_empty incoming) && negb (is_empty recorded) && str_eqb incoming recorded.

Definition format_steering_history (history : list (str * str)) : str :=
  if is_empty history then lit "None"
  else join_with [NL; NL] (map (fun e =>
    lit "User: " ++ QUOTE ++ trim (fst e) ++ QUOTE ++ [NL] ++ lit "Arbitrator: " ++ QUOTE ++ trim (snd e) ++ QUOTE) history).

(** The most recent entry [p] holds of is given the new response. *)
Fixpoint update_first (p : str * str -> bool) (resp : str) (l : list (str * str)) : option (list (str * str)) :=
  match l with
  | [] => None
  | e :: l' => if p e then Some ((fst e, resp) :: l')
               else match update_first p resp l' with Some l'' => Some (e :: l'') | None => None end
  end.
Definition update_latest (p : str * str -> bool) (resp : str) (hist : list (str * str)) : option (list (str * str)) :=
  (fun l => rev l) <$> update_first p resp (rev hist).

Definition names_entry (nid : str) (e : str * str) : bool :=
  entry_names_notice_id (snd e) nid && steering_entry_is_pending (snd e).
Definition inquiry_entry (user_inquiry : str) (e : str * str) : bool :=
  same_steering_inquiry user_inquiry (fst e) && steering_entry_is_pending (snd e).
(** [None]: no history is registered. *)
Definition record_steering_exchange (notice_id : option str) (user_inquiry arbitrator_response : str)
    (hist : option (list (str * str))) : option (list (str * str)) :=
  match hist with
  | None => None
  | Some hist =>
      let by_id := match notice_id with
                   | Some nid => let nid := trim nid in
                                 if is_empty nid then None else update_latest (names_entry nid) arbitrator_response hist
                   | None => None
                   end in
      Some (match or_else by_id (update_latest (inquiry_entry user_inquiry) arbitrator_response hist) with
            | Some hist' => hist'
            | None => hist ++ [(user_inquiry, arbitrator_response)]
            end)
  end.

(** ** Decisions *)

Definition resolve_steer_outcome (decision : option SteerDecision) (has_active_subtasks : bool) : SteerOutcome :=
  match decision with
  | Some d => Decided d
  | None => if has_active_subtasks then QueueInstruction else SteerImmediately
  end.

Definition prompt_or (user_msg : str) (prompt : option str) : str :=
  match prompt with Some p => if is_empty (trim p) then user_msg else p | None => user_msg end.
Definition agent_of (s : SteerSubtaskDecision) : option Agent := st_agent_name s ≫= from_str.
(** The explicit delegations, numbered from [idx]. *)
Fixpoint explicit_delegations (user_msg : str) (idx : nat) (l : list SteerSubtaskDecision) : list (Agent * str * str) :=
  match l with
  | [] => []
  | s :: l' =>
      if bool_decide (action_of s = DelegateTask) then
        let cleaned := normalize_task_id_ref (tool_call_id s) in
        (default Coder (agent_of s), if is_empty cleaned then lit "steer-task-" ++ dec idx else cleaned,
         prompt_or user_msg (st_prompt s)) :: explicit_delegations user_msg (S idx) l'
      else explicit_delegations user_msg idx l'
  end.
Definition extract_tasks_to_delegate (d : SteerDecision) (user_msg : str) : list (Agent * str * str) :=
  if existsb (fun s => bool_decide (action_of s = DelegateTask)) (subtasks d) then
    explicit_delegations user_msg 1 (subtasks d)
  else if str_eqb (normalize_steer_decision (Some (decision d))) (lit "DelegateTask") then
    if existsb (fun s => negb (is_known (action_of s))) (subtasks d) then []
    else [(default Coder (find_map agent_of (subtasks d)),
           default (lit "steer-task-1") (head (subtasks d) ≫= fun s => normalize_task_id (tool_call_id s)),
           prompt_or user_msg (head (subtasks d) ≫= st_prompt))]
  else [].

(** ** Reading a reply *)

Record SteerReply := { reply_content : str; reply_raw : str; reply_tool_calls : list ToolCall }.

Section reading.
Context `{JsonValue}.
(** serde_json: a decision, and any value. *)
Context (parse_decision : str -> option SteerDecision) (parse_value : str -> option Value).

Definition sleep_steer_decision (arguments : str) : SteerDecision :=
  let args := default value_null (parse_value arguments) in
  let secs := sleep_duration_secs args in
  let reason := default [] (get_str args (lit "reason")) in
  {| decision := lit "Sleep";
     response := Some (lit "Sleeping for " ++ decN secs ++ lit " seconds" ++
                       (if is_empty reason then [] else lit " (" ++ reason ++ lit ")") ++ lit "...");
     tier := None; model := None; subtasks := []; sleep_seconds := Some secs;
     share_with_orchestrator := None; orchestrator_note := None |}.

(** The text the decision is read from. *)
Definition reply_text (reply : SteerReply) (streamed_raw : str) : option str :=
  let raw := trim (reply_content reply) in
  let raw := if is_empty raw then trim (reply_raw reply) else raw in
  let raw := if is_empty raw then trim streamed_raw else raw in
  match demux_stream raw with
  | None => None
  | Some d =>
      Some (if negb (is_empty (trim (d_content d))) then trim (d_content d)
            else if negb (is_empty (trim (d_thinking d))) then trim (d_thinking d)
            else raw)
  end.
Definition FENCE : str := lit "```".
(** [trim_end_matches] of a string. *)
Fixpoint strip_fences (fuel : nat) (s : str) : str :=
  match fuel with
  | 0 => s
  | S k => match strip_suffix FENCE s with Some s' => strip_fences k s' | None => s end
  end.
(** The text up to the last closing brace, with it. *)
Definition upto_last_brace (s : str) : option str :=
  match drop_while (fun c => negb (c =? ch "}")%N) (rev s) with [] => None | r => Some (rev r) end.
(** The suffixes that begin with an opening brace, longest first. *)
Fixpoint from_braces (s : str) : list str :=
  match s with
  | [] => []
  | c :: s' => if (c =? ch "{")%N then s :: from_braces s' else from_braces s'
  end.
(** [None]: the slice from the first opening brace through the last closing one
    panics when it would end before it begins. *)
Definition json_text (raw : str) : option str :=
  match strip_prefix (FENCE ++ lit "json") raw with
  | Some stripped => Some (trim (strip_fences (length stripped) stripped))
  | None =>
      match strip_prefix FENCE raw with
      | Some stripped => Some (trim (strip_fences (length stripped) stripped))
      | None =>
          match from_braces raw, upto_last_brace raw with
          | _ :: _, Some upto =>
              match from_braces upto with
              | s :: _ => Some s
              | [] => if starts_with (lit "{") (drop (length upto) raw) then Some [] else None
              end
          | _, _ => Some raw
          end
      end
  end.
Definition parse_candidate (text raw : str) : option SteerDecision :=
  match parse_decision text with
  | Some d => Some d
  | None => match upto_last_brace raw with
            | Some upto => find_map parse_decision (from_braces upto)
            | None => None
            end
  end.
Definition with_default_sleep (d : SteerDecision) : SteerDecision :=
  match eq_ignore_ascii_case (decision d) (lit "Sleep"), sleep_seconds d with
  | true, None =>
      {| decision := decision d; response := response d; tier := tier d; model := model d; subtasks := subtasks d;
         sleep_seconds := Some SLEEP_DEFAULT_SECS; share_with_orchestrator := share_with_orchestrator d;
         orchestrator_note := orchestrator_note d |}
  | _, _ => d
  end.
Definition direct_answer (text : str) : SteerDecision :=
  {| decision := lit "RespondDirectly"; response := Some text; tier := None; model := None; subtasks := [];
     sleep_seconds := None; share_with_orchestrator := None; orchestrator_note := None |}.

(** The decision of a reply; the outer [None] is a panic. *)
Definition read_decision (reply : SteerReply) (streamed_raw : str) (did_stream_response : bool)
    : option (option SteerDecision) :=
  raw ← reply_text reply streamed_raw;
  text ← json_text raw;
  Some match parse_candidate text raw with
       | Some d => Some (with_default_sleep d)
       | None =>
           match find_first (fun tc => is_sleep_tool_name (fn_name (tc_function tc))) (reply_tool_calls reply) with
           | Some tc => Some (sleep_steer_decision (fn_arguments (tc_function tc)))
           | None =>
               if did_stream_response || negb (is_empty raw)
               then Some (direct_answer (if is_empty raw then streamed_raw else raw))
               else None
           end
       end.

End reading.

(** ** Whole tokens *)

Lemma matches_from_sound fuel passed needle s e :
  e ∈ matches_from fuel passed needle s -> passed ++ s = fst e ++ needle ++ snd e.
Proof.
  revert passed s. induction fuel as [|k IH]; intros passed s; [by intros ?%not_elem_of_nil|]. cbn [matches_from].
  destruct (find_split needle s) as [[a b]|] eqn:E; [|by intros ?%not_elem_of_nil].
  apply find_split_Some in E as ->. intros [->|Hin]%elem_of_cons; cbn [fst snd]; [by rewrite <-app_assoc|].
  apply IH in Hin. by rewrite <-Hin, <-!app_assoc.
Qed.

(** The first occurrence is found. *)
Lemma find_split_first needle s a b :
  s = a ++ needle ++ b -> exists a' b', find_split needle s = Some (a', b') /\ length a' <= length a.
Proof.
  intros ->. induction a as [|c a IH].
  - exists [], b. split; [|done]. cbn [app]. destruct (needle ++ b) as [|x l] eqn:El.
    + apply app_eq_nil in El as [-> ->]. done.
    + cbn [find_split]. rewrite <-El. assert (Es : strip_prefix needle (needle ++ b) = Some b) by (by apply strip_prefix_Some).
      by rewrite Es.
  - cbn [app find_split]. destruct (strip_prefix needle (c :: a ++ needle ++ b)) as [r|] eqn:Es.
    + exists [], r. split; [done|simpl; lia].
    + destruct IH as (a' & b' & E & Hl). rewrite E. exists (c :: a'), b'. split; [done|simpl; lia].
Qed.

(** A match at a token boundary is found by the disjoint search, when the
    needle is one token. *)
Lemma matches_from_complete fuel passed needle s a b :
  needle <> [] -> Forall (fun c => is_identifier_char c = true) needle -> length s < fuel ->
  s = a ++ needle ++ b -> match last (passed ++ a) with Some c => is_identifier_char c = false | None => True end ->
  (passed ++ a, b) ∈ matches_from fuel passed needle s.
Proof.
  intros Hne Hid. revert passed s a. induction fuel as [|k IH]; intros passed s a Hf Hs Hl; [lia|]. cbn [matches_from].
  destruct (find_split_first needle s a b Hs) as (a' & b' & E & Hle). rewrite E.
  pose proof (find_split_Some _ _ _ _ E) as Es. rewrite Hs in Es.
  apply app_eq_app in Es as (l & [[Ea El]|[Ea El]]).
  2:{ assert (l = []) as -> by (apply (f_equal length) in Ea; rewrite length_app in Ea; destruct l; [done|simpl in Ea; lia]).
      rewrite app_nil_r in Ea. subst a'. cbn [app] in El. apply app_inv_head in El as ->. by left. }
  destruct l as [|x l]; [cbn [app] in El; rewrite app_nil_r in Ea; subst a'; apply app_inv_head in El as ->; by left|].
  right. apply app_eq_app in El as (m & [[Em Eb]|[Em Eb]]).
  - (* the boundary falls inside the match *)
    exfalso. rewrite Ea in Hl. assert (Hlast : exists z, last (x :: l) = Some z /\ z ∈ x :: l).
    { destruct (last (x :: l)) as [z|] eqn:Ez; [exists z; split; [done|by apply last_Some_elem_of]|by apply last_None in Ez]. }
    destruct Hlast as (z & Ez & Hz). rewrite app_assoc, last_app, Ez in Hl.
    rewrite Em in Hid. rewrite Forall_app, Forall_forall in Hid. destruct Hid as [Hid _]. by rewrite (Hid z Hz) in Hl.
  - replace (passed ++ a) with ((passed ++ a' ++ needle) ++ m) in * by (by rewrite Ea, Em, <-!app_assoc).
    apply IH; [|done|done]. rewrite Hs, Ea, Em, !length_app in Hf. rewrite Eb, !length_app.
    destruct needle; [done|]. simpl in *. lia.
Qed.

Lemma bounded_true a b :
  bounded (a, b) = true <->
  match last a with Some c => is_identifier_char c = false | None => True end /\
  match head b with Some c => is_identifier_char c = false | None => True end.
Proof.
  unfold bounded. cbn [fst snd]. rewrite andb_true_iff, !negb_true_iff. destruct (last a), (head b); naive_solver.
Qed.
Lemma names_whole_token resp id :
  trim id <> [] -> Forall (fun c => is_identifier_char c = true) (trim id) ->
  entry_names_notice_id resp id = true <-> exists a b, resp = a ++ trim id ++ b /\ bounded (a, b) = true.
Proof.
  intros Hne Hid. unfold entry_names_notice_id. destruct (trim id) as [|c t] eqn:Et; [done|]. cbn [is_empty]. rewrite <-Et in *. split.
  - intros (e & Hin & Hb)%existsb_exists. apply list_elem_of_In, matches_from_sound in Hin. destruct e as [a b]. by exists a, b.
  - intros (a & b & Hr & Hb). apply existsb_exists. exists (a, b). split; [|done]. apply list_elem_of_In.
    apply (matches_from_complete (S (length resp)) [] (trim id) resp a b); [done|done|lia|done|]. by apply bounded_true in Hb as [? _].
Qed.

(** ** Filing an exchange *)

Lemma update_first_spec p resp l :
  match update_first p resp l with
  | Some l' => exists l1 e l2, l = l1 ++ e :: l2 /\ p e = true /\ Forall (fun x => p x = false) l1 /\ l' = l1 ++ (fst e, resp) :: l2
  | None => Forall (fun x => p x = false) l
  end.
Proof.
  induction l as [|e l IH]; [constructor|]. cbn [update_first]. destruct (p e) eqn:Ep; [by exists [], e, l|].
  destruct (update_first p resp l) as [l'|]; [|by constructor].
  destruct IH as (l1 & e' & l2 & -> & Hp & Hall & ->). exists (e :: l1), e', l2. split_and!; [done|done|by constructor|done].
Qed.
Lemma update_latest_spec p resp l :
  match update_latest p resp l with
  | Some l' => exists l1 e l2, l = l1 ++ e :: l2 /\ p e = true /\ Forall (fun x => p x = false) l2 /\ l' = l1 ++ (fst e, resp) :: l2
  | None => Forall (fun x => p x = false) l
  end.
Proof.
  unfold update_latest. pose proof (update_first_spec p resp (rev l)) as Hu. destruct (update_first p resp (rev l)) as [r|]; cbn [fmap option_fmap option_map].
  - destruct Hu as (l1 & e & l2 & Hr & Hp & Hall & ->). apply (f_equal (@rev _)) in Hr. rewrite rev_involutive, rev_app_distr in Hr.
    exists (rev l2), e, (rev l1). cbn [rev] in Hr. rewrite <-app_assoc in Hr. split_and!; [exact Hr|done|by apply Forall_rev|].
    rewrite rev_app_distr. cbn [rev]. by rewrite <-app_assoc.
  - apply Forall_rev in Hu. by rewrite rev_involutive in Hu.
Qed.

(** A reply is filed under one entry at most, and under the right one: the
    latest pending entry that names the notice as a whole token, or failing
    that the latest pending entry of the same inquiry; every other entry stays
    as it is, and without such an entry the exchange is appended. *)
Theorem exchange_filed_once nid inquiry resp hist :
  let named := match nid with Some n => negb (is_empty (trim n)) | None => false end in
  let by_id e := named && names_entry (trim (default [] nid)) e in
  exists hist', record_steering_exchange nid inquiry resp (Some hist) = Some hist' /\
  ((exists h1 e h2, hist = h1 ++ e :: h2 /\ hist' = h1 ++ (fst e, resp) :: h2 /\ steering_entry_is_pending (snd e) = true /\
      (by_id e = true /\ Forall (fun x => by_id x = false) h2 \/
       Forall (fun x => by_id x = false) hist /\ same_steering_inquiry inquiry (fst e) = true /\
       Forall (fun x => inquiry_entry inquiry x = false) h2)) \/
   Forall (fun x => by_id x = false /\ inquiry_entry inquiry x = false) hist /\ hist' = hist ++ [(inquiry, resp)]).
Proof.
  intros named by_id. unfold record_steering_exchange. cbv zeta.
  assert (Hid : (match nid with Some n => if is_empty (trim n) then None else update_latest (names_entry (trim n)) resp hist | None => None end)
      = if named then update_latest by_id resp hist else None).
  { unfold named, by_id. destruct nid as [n|]; [|done]. cbn [default from_option]. by destruct (is_empty (trim n)). }
  rewrite Hid. clear Hid. eexists. split; [reflexivity|].
  assert (Hoff : forall e, named = false -> by_id e = false) by (unfold by_id; by intros e ->).
  assert (Hpend : forall e, by_id e = true -> steering_entry_is_pending (snd e) = true).
  { intros e He. unfold by_id, names_entry in He. apply andb_true_iff in He as [_ He]. by apply andb_true_iff in He as [_ He]. }
  clearbody by_id named.
  assert (Hn : match (if named then update_latest by_id resp hist else None) with
    | Some l' => exists l1 e l2, hist = l1 ++ e :: l2 /\ by_id e = true /\ Forall (fun x => by_id x = false) l2 /\ l' = l1 ++ (fst e, resp) :: l2
    | None => Forall (fun x => by_id x = false) hist end).
  { destruct named eqn:En; [apply update_latest_spec|]. apply Forall_forall. intros e _. by apply Hoff. }
  destruct (if named then _ else None) as [h|]; cbn [or_else].
  - destruct Hn as (h1 & e & h2 & -> & He & Hl & ->). left. exists h1, e, h2. split_and!; [done|done|by apply Hpend|by left].
  - pose proof (update_latest_spec (inquiry_entry inquiry) resp hist) as Hu. destruct (update_latest (inquiry_entry inquiry) resp hist) as [h|].
    + destruct Hu as (h1 & e & h2 & -> & He & Hl & ->). left. exists h1, e, h2. apply andb_true_iff in He as [Hs Hp]. split_and!; [done..|by right].
    + right. split; [|done]. apply Forall_and. by split.
Qed.

(** ** Delegation *)

Lemma explicit_delegations_spec user_msg idx l :
  length (explicit_delegations user_msg idx l) = length (List.filter (fun s => bool_decide (action_of s = DelegateTask)) l) /\
  Forall (fun t => exists s, s ∈ l /\ action_of s = DelegateTask /\ fst (fst t) = default Coder (agent_of s) /\
                             snd t = prompt_or user_msg (st_prompt s)) (explicit_delegations user_msg idx l).
Proof.
  revert idx. induction l as [|s l IH]; intros idx; [by split|]. cbn [explicit_delegations List.filter].
  assert (Hw : forall k, Forall (fun t => exists s0, s0 ∈ s :: l /\ action_of s0 = DelegateTask /\ fst (fst t) = default Coder (agent_of s0) /\
      snd t = prompt_or user_msg (st_prompt s0)) (explicit_delegations user_msg k l)).
  { intros k. eapply Forall_impl; [apply (IH k)|]. intros t (s0 & Hin & ?). exists s0. split; [by right|done]. }
  case_bool_decide as E; [|by split; [apply IH|]]. destruct (IH (S idx)) as [Hl _]. split; [simpl; by rewrite Hl|].
  constructor; [|done]. exists s. split; [by left|done].
Qed.

(** ** Reading a reply *)

Lemma demux_total raw : is_Some (demux_stream raw).
Proof.
  destruct (push_delta_spec new raw) as (d & k & ev & l & E & _); [by vm_compute|].
  unfold demux_stream, demux_all, push. rewrite E. by eexists.
Qed.

Notation OPEN := (ch "{").
Notation CLOSE := (ch "}").
Lemma upto_last_none s : CLOSE ∉ s -> upto_last_brace s = None.
Proof.
  intros Hn. unfold upto_last_brace. rewrite <-(app_nil_r (rev s)), drop_while_app_all; [done|]. apply Forall_forall. intros c Hc.
  apply negb_true_iff, N.eqb_neq. intros ->. apply Hn. by rewrite list_elem_of_In, in_rev, <-list_elem_of_In.
Qed.
Lemma upto_last_some a r : CLOSE ∉ r -> upto_last_brace (a ++ CLOSE :: r) = Some (a ++ [CLOSE]).
Proof.
  intros Hn. unfold upto_last_brace. rewrite rev_app_distr. cbn [rev]. rewrite <-app_assoc, drop_while_app_all.
  - cbn [app drop_while]. rewrite N.eqb_refl. cbn [negb rev]. by rewrite rev_involutive.
  - apply Forall_forall. intros c Hc. apply negb_true_iff, N.eqb_neq. intros ->. apply Hn.
    by rewrite list_elem_of_In, in_rev, <-list_elem_of_In.
Qed.
Lemma last_close s : CLOSE ∈ s -> exists a r, s = a ++ CLOSE :: r /\ CLOSE ∉ r.
Proof.
  induction s as [|c s IH]; [by intros ?%not_elem_of_nil|]. intros Hin. destruct (decide (CLOSE ∈ s)) as [Hs|Hs].
  - destruct (IH Hs) as (a & r & -> & Hr). by exists (c :: a), r.
  - apply elem_of_cons in Hin as [<-|?]; [|done]. by exists [], s.
Qed.
Lemma last_close_unique a r a' r' : a ++ CLOSE :: r = a' ++ CLOSE :: r' -> CLOSE ∉ r -> CLOSE ∉ r' -> a = a' /\ r = r'.
Proof.
  intros E Hr Hr'. apply app_eq_app in E as (z & [[-> Ez]|[-> Ez]]); destruct z as [|z0 z].
  - rewrite app_nil_r. by injection Ez.
  - injection Ez as <- ->. exfalso. apply Hr'. set_solver.
  - rewrite app_nil_r. by injection Ez.
  - injection Ez as <- ->. exfalso. apply Hr. set_solver.
Qed.
Lemma from_braces_nil s : from_braces s = [] <-> OPEN ∉ s.
Proof.
  induction s as [|c s IH]; [by split; [intros _ ?%not_elem_of_nil|]|]. cbn [from_braces]. rewrite not_elem_of_cons.
  destruct (N.eqb_spec c OPEN) as [->|Hc]; [by split; [|intros []]|]. rewrite IH. split; [by split|by intros []].
Qed.

(** The last closing brace comes before the first opening one, and not right
    before it. *)
Definition braces_crossed (s : str) : Prop :=
  exists a m b, s = a ++ CLOSE :: m ++ OPEN :: b /\ m <> [] /\ OPEN ∉ a /\ OPEN ∉ m /\ CLOSE ∉ m ++ OPEN :: b.
Definition unfenced (s : str) : Prop := starts_with FENCE s = false.

Lemma json_text_none raw : json_text raw = None <-> unfenced raw /\ braces_crossed raw.
Proof.
  unfold json_text, unfenced. assert (Hj : starts_with FENCE raw = false -> strip_prefix (FENCE ++ lit "json") raw = None).
  { intros Hs. destruct (strip_prefix (FENCE ++ lit "json") raw) as [r|] eqn:E; [|done]. apply strip_prefix_Some in E as ->.
    by rewrite <-app_assoc, starts_with_app in Hs. }
  destruct (starts_with FENCE raw) eqn:Hs.
  { split; [|by intros []]. destruct (strip_prefix (FENCE ++ _) raw); [done|]. unfold starts_with in Hs. by destruct (strip_prefix FENCE raw). }
  rewrite Hj by done. unfold starts_with in Hs. destruct (strip_prefix FENCE raw); [done|]. clear Hj Hs.
  destruct (decide (CLOSE ∈ raw)) as [Hc|Hc].
  2:{ rewrite (upto_last_none raw Hc). split; [by destruct (from_braces raw)|]. intros (_ & a & m & b & -> & _). exfalso. apply Hc. set_solver. }
  destruct (last_close raw Hc) as (a & r & -> & Hr). rewrite (upto_last_some a r Hr).
  assert (Hd : drop (length (a ++ [CLOSE])) (a ++ CLOSE :: r) = r).
  { change (CLOSE :: r) with ([CLOSE] ++ r). by rewrite app_assoc, drop_app_length. }
  rewrite Hd. destruct (from_braces (a ++ CLOSE :: r)) as [|x l] eqn:Ef.
  { apply from_braces_nil in Ef. split; [done|]. intros (_ & a' & m & b & E & _). exfalso. apply Ef. rewrite E. set_solver. }
  destruct (from_braces (a ++ [CLOSE])) as [|y k] eqn:Eu.
  2:{ split; [done|]. intros (_ & a' & m & b & E & _ & Ha & Hm & Hb). exfalso.
      apply last_close_unique in E as [<- _]; [|done..].
      assert (Hn : OPEN ∉ a ++ [CLOSE]) by (intros [?|[= ?]%list_elem_of_singleton]%elem_of_app; done).
      apply from_braces_nil in Hn. by rewrite Eu in Hn. }
  apply from_braces_nil in Eu. assert (Ha : OPEN ∉ a) by set_solver.
  assert (Ho : OPEN ∈ r).
  { destruct (decide (OPEN ∈ r)); [done|]. assert (Hn : OPEN ∉ a ++ CLOSE :: r) by set_solver. apply from_braces_nil in Hn. by rewrite Ef in Hn. }
  apply list_elem_of_split_l in Ho as (m & b & -> & Hm). destruct m as [|m0 m].
  - split; [done|]. intros (_ & a' & m' & b' & E & Hne & Ha' & Hm' & Hb'). exfalso.
    apply last_close_unique in E as [_ E]; [|done..].
    destruct m'; [done|]. injection E as <- _. set_solver.
  - split; [|]. 2:{ intros _. cbn [app]. unfold starts_with. change (lit "{") with [OPEN]. cbn [strip_prefix]. destruct (N.eqb_spec OPEN m0) as [<-|]; [set_solver|done]. }
    intros _. split; [done|]. exists a, (m0 :: m), b. split_and!; try done.
Qed.

Section reading.
Context `{JsonValue}.
Context (parse_decision : str -> option SteerDecision) (parse_value : str -> option Value).

(** C37: Reading the arbitrator's reply panics on one shape of text and on no
    other: unfenced text in which the last closing brace comes before the first
    opening one, with something in between.  Any other reply that is not empty
    yields a decision. *)
Theorem reply_read_unless_crossed reply streamed_raw did_stream :
  exists raw, reply_text reply streamed_raw = Some raw /\
    match read_decision parse_decision parse_value reply streamed_raw did_stream with
    | None => unfenced raw /\ braces_crossed raw
    | Some None => ~ (unfenced raw /\ braces_crossed raw) /\ raw = [] /\ did_stream = false
    | Some (Some d) => ~ (unfenced raw /\ braces_crossed raw)
    end.
Proof.
  assert (Ht : is_Some (reply_text reply streamed_raw)).
  { unfold reply_text. cbv zeta.
    match goal with |- context [demux_stream ?raw] => destruct (demux_total raw) as [d ->] end. by eexists. }
  destruct Ht as [raw Hraw]. exists raw. split; [done|]. unfold read_decision. rewrite Hraw. cbn [mbind option_bind].
  pose proof (json_text_none raw) as Hj. destruct (json_text raw) as [text|]; cbn [mbind option_bind]; [|by apply Hj].
  assert (Hn : ~ (unfenced raw /\ braces_crossed raw)) by (by intros ?%Hj).
  destruct (parse_candidate _ _ _); [done|]. destruct (find_first _ _); [done|].
  destruct did_stream, raw; cbn [orb negb is_empty]; first [done|by split_and!].
Qed.
End reading.

(** The panic: an answer whose braces are crossed. *)
Lemma crossed_reply_panics `{JsonValue} parse_decision parse_value :
  read_decision parse_decision parse_value
    {| reply_content := lit "close } then open { it"; reply_raw := []; reply_tool_calls := [] |} [] true = None.
Proof. reflexivity. Qed.
