(* ===== verification/Retry.v ===== *)
(** * The retry policy ([src/net/retry.rs])

    One operation, run against a threaded state, up to a number of attempts
    with a linear backoff; the sleeps are recorded in milliseconds. *)

From S2P Require Import Prelude.
Local Open Scope N_scope.

Definition MAX_ATTEMPTS : N := 3.
Definition BACKOFF_BASE_MS : N := 1000.

(** The [Retryable] trait. *)
Class Retryable (E : Type) := { is_retryable : E -> bool }.

(** The result of one attempt. *)
Inductive result (A E : Type) := Ok (a : A) | Err (e : E).
Arguments Ok {A E} _.
Arguments Err {A E} _.

Section retry.
Context {A E St : Type} `{Retryable E}.
Variable op : St -> result A E * St.

(** The loop: [attempt] is the counter before the increment. [None]: no fuel. *)
Fixpoint retry_loop (fuel : nat) (max_attempts base_ms attempt : N) (state : St) (sleeps : list N)
    : option (result A E * St * list N) :=
  match fuel with
  | 0%nat => None
  | S fuel' =>
      let attempt := attempt + 1 in
      let '(r, state) := op state in
      match r with
      | Ok v => Some (Ok v, state, sleeps)
      | Err e =>
          if is_retryable e && (attempt <? max_attempts) then
            let ms := base_ms * attempt in
            retry_loop fuel' max_attempts base_ms attempt state (sleeps ++ [ms])
          else Some (Err e, state, sleeps)
      end
  end.

Definition retry_with_backoff (max_attempts base_ms : N) (state : St)
    : option (result A E * St * list N) :=
  retry_loop (S (N.to_nat max_attempts)) max_attempts base_ms 0 state [].

(** ** Facts *)

(** The outcome and state of the [n]-th attempt, counted from 0, when each
    attempt runs on the state the previous one left. *)
Fixpoint attempt_at (n : nat) (state : St) : result A E * St :=
  match n with
  | 0%nat => op state
  | S n' => attempt_at n' (snd (op state))
  end.

Definition sleeps_of (base_ms first : N) (k : nat) : list N :=
  map (fun i => base_ms * (first + 1 + N.of_nat i)) (seq 0 k).

Lemma sleeps_of_S base first k :
  sleeps_of base first (S k) = base * (first + 1) :: sleeps_of base (first + 1) k.
Proof.
  unfold sleeps_of. cbn [seq map]. rewrite <-seq_shift, map_map. f_equal.
  - f_equal. lia.
  - apply map_ext. intros i. f_equal. lia.
Qed.

Lemma retry_loop_spec fuel mx base a state sleeps :
  (N.to_nat (mx - a) < fuel)%nat ->
  exists k, retry_loop fuel mx base a state sleeps =
      Some (fst (attempt_at k state), snd (attempt_at k state), sleeps ++ sleeps_of base a k) /\
    (forall j, (j < k)%nat -> a + N.of_nat j + 1 < mx /\
       exists e, fst (attempt_at j state) = Err e /\ is_retryable e = true) /\
    (forall e, fst (attempt_at k state) = Err e -> is_retryable e = true -> mx <= a + N.of_nat k + 1).
Proof.
  revert a state sleeps. induction fuel as [|fuel IH]; intros a state sleeps Hf; [lia|].
  cbn [retry_loop]. destruct (op state) as [r st] eqn:Eop.
  assert (Hstop : (forall e, r = Err e -> is_retryable e = true -> mx <= a + 1) ->
    exists k, Some (r, st, sleeps) =
      Some (fst (attempt_at k state), snd (attempt_at k state), sleeps ++ sleeps_of base a k) /\
    (forall j, (j < k)%nat -> a + N.of_nat j + 1 < mx /\
       exists e, fst (attempt_at j state) = Err e /\ is_retryable e = true) /\
    (forall e, fst (attempt_at k state) = Err e -> is_retryable e = true -> mx <= a + N.of_nat k + 1)).
  { intros Hs. exists 0%nat. cbn [attempt_at]. rewrite Eop. cbn. rewrite app_nil_r.
    split_and!; [done|lia|]. intros e He Hr. specialize (Hs e He Hr). lia. }
  destruct r as [v|e]; [by apply Hstop|].
  destruct (is_retryable e) eqn:Er; cbn [andb]; [|apply Hstop; intros e' [= <-]; congruence].
  destruct (N.ltb_spec (a + 1) mx) as [Hlt|Hge]; [|apply Hstop; intros e' _ _; lia].
  destruct (IH (a + 1) st (sleeps ++ [base * (a + 1)])) as (k & Hk & Hbefore & Hend); [lia|].
  exists (S k). cbn [attempt_at]. rewrite Eop. cbn [snd]. rewrite Hk, sleeps_of_S, <-app_assoc.
  split_and!; [done| |].
  - intros [|j] Hj.
    + split; [lia|]. exists e. cbn [attempt_at]. by rewrite Eop.
    + cbn [attempt_at]. rewrite Eop. cbn [snd]. destruct (Hbefore j) as [? ?]; [lia|]. split; [lia|done].
  - intros e' He Hr. specialize (Hend e' He Hr). lia.
Qed.

(** The retry loop always ends; it returns the outcome and state of some
    attempt such that every earlier attempt failed retryably within the cap, and
    a retryable failure is returned only once the cap is reached; it slept
    exactly once before each later attempt, base, 2*base, 3*base, ... So it makes
    at most max(1, cap) attempts and never retries a final error. *)
Theorem retry_with_backoff_spec max_attempts base_ms state :
  exists k, retry_with_backoff max_attempts base_ms state =
      Some (fst (attempt_at k state), snd (attempt_at k state), sleeps_of base_ms 0 k) /\
    N.of_nat k + 1 <= N.max 1 max_attempts /\
    (forall j, (j < k)%nat -> exists e, fst (attempt_at j state) = Err e /\ is_retryable e = true) /\
    (forall e, fst (attempt_at k state) = Err e -> is_retryable e = true ->
       max_attempts <= N.of_nat k + 1).
Proof.
  unfold retry_with_backoff.
  destruct (retry_loop_spec (S (N.to_nat max_attempts)) max_attempts base_ms 0 state [])
    as (k & Hk & Hbefore & Hend); [lia|].
  exists k. rewrite Hk. split_and!; [done| | |].
  - destruct k as [|k]; [lia|]. destruct (Hbefore k) as [? _]; lia.
  - intros j Hj. by apply (Hbefore j).
  - intros e He Hr. specialize (Hend e He Hr). lia.
Qed.
End retry.

(** The standard policy on an operation that fails twice: three attempts, after
    sleeps of one and two seconds. *)
Section example.
#[local] Instance bool_retryable : Retryable bool := {| is_retryable := id |}.
Definition twice_busy (n : nat) : result nat bool * nat :=
  (if (n <? 2)%nat then Err true else Ok n, S n).

Lemma twice_busy_retried :
  retry_with_backoff twice_busy MAX_ATTEMPTS BACKOFF_BASE_MS 0%nat = Some (Ok 2%nat, 3%nat, [1000; 2000]).
Proof. vm_compute. reflexivity. Qed.
End example.
