(* ===== verification/Pool.v ===== *)
(** * The session pool ([src/orchestrator/pool.rs], [src/config.rs])

    The concurrency configuration, one pool entry with its queue ledger, the
    table of entries, and the callers of one entry as a transition system whose
    steps are the points between which tasks interleave. *)

From S2P Require Import Prelude Str.

(** ** The configured cap ([config.rs]) *)

Definition MIN_MAX_SESSIONS : nat := 1.

Record ConcurrencyConfig := { by_backend : gmap str nat; max_sessions : option nat }.

Definition backend_key (url : str) : str := trim_end_matches (N.eqb (ch "/")) (trim url).

(** Byte-wise string order, which on UTF-8 is the order of the code points. *)
Fixpoint str_leb (s t : str) : bool :=
  match s, t with
  | [], _ => true
  | _, [] => false
  | c :: s', d :: t' => if (c <? d)%N then true else if (c =? d)%N then str_leb s' t' else false
  end.

(** [sort]: insertion sort on the keys, which are distinct. *)
Fixpoint insert_sorted (x : str * nat) (l : list (str * nat)) : list (str * nat) :=
  match l with
  | [] => [x]
  | y :: l' => if str_leb (fst x) (fst y) then x :: l else y :: insert_sorted x l'
  end.
Definition sort_entries (l : list (str * nat)) : list (str * nat) := foldr insert_sorted [] l.

(** [normalized.entry(backend_key(key)).or_insert(value)], in order. *)
Definition or_insert (m : gmap str nat) (e : str * nat) : gmap str nat :=
  match m !! backend_key (fst e) with
  | Some _ => m
  | None => <[backend_key (fst e) := snd e]> m
  end.
Definition normalized_backends (c : ConcurrencyConfig) : gmap str nat :=
  fold_left or_insert (sort_entries (map_to_list (by_backend c))) ∅.

Definition is_unlimited (c : ConcurrencyConfig) : bool :=
  match max_sessions c with Some _ => false | None => bool_decide (by_backend c = ∅) end.

(** The key a cap came from; the source renders it as text. *)
Inductive CapSource := FromBackend (key : str) | FromMaxSessions.
Record SessionCap := { cap_limit : option nat; cap_source : option CapSource; cap_rejected : option nat }.

Definition resolve_session_cap (c : ConcurrencyConfig) (backend_url : str) : SessionCap :=
  let key := backend_key backend_url in
  let '(raw, source) :=
    match normalized_backends c !! key with
    | Some value => (Some value, Some (FromBackend key))
    | None => match max_sessions c with
              | Some value => (Some value, Some FromMaxSessions)
              | None => (None, None)
              end
    end in
  match raw with
  | Some value =>
      if value <? MIN_MAX_SESSIONS
      then {| cap_limit := None; cap_source := source; cap_rejected := Some value |}
      else {| cap_limit := Some value; cap_source := source; cap_rejected := None |}
  | None => {| cap_limit := None; cap_source := source; cap_rejected := None |}
  end.

Definition resolve_max_sessions (c : ConcurrencyConfig) (backend_url : str) : option nat :=
  cap_limit (resolve_session_cap c backend_url).
Definition effective_max_sessions (active : option ConcurrencyConfig) (backend_url : str) : option nat :=
  match active with Some c => resolve_max_sessions c backend_url | None => None end.

(** ** One entry and its ledger *)

Definition INTERNAL_RESERVE_CAPACITY : nat := 1.
Definition PoolKey : Type := str * str.
Definition pool_key (backend_url model : str) : PoolKey := (backend_key backend_url, trim model).
Definition key_label (k : PoolKey) : str := fst k ++ lit " + " ++ snd k.

Record QueuePosition := { position : nat; of_total : nat }.
Record QueueLedger := { next_ticket : N; waiting_set : gset N }.

(** The semaphores are tokio's: their free permits. *)
Record PoolEntry := {
  entry_key : PoolKey;
  limit : nat;
  available : nat;
  reserve_available : nat;
  ledger : QueueLedger
}.

Definition new (k : PoolKey) (lim : nat) : PoolEntry :=
  let lim := max lim MIN_MAX_SESSIONS in
  {| entry_key := k; limit := lim; available := lim;
     reserve_available := INTERNAL_RESERVE_CAPACITY;
     ledger := {| next_ticket := 0; waiting_set := ∅ |} |}.

Definition waiting (e : PoolEntry) : nat := size (waiting_set (ledger e)).

Definition with_ledger (e : PoolEntry) (l : QueueLedger) : PoolEntry :=
  {| entry_key := entry_key e; limit := limit e; available := available e;
     reserve_available := reserve_available e; ledger := l |}.
Definition with_available (e : PoolEntry) (n : nat) : PoolEntry :=
  {| entry_key := entry_key e; limit := limit e; available := n;
     reserve_available := reserve_available e; ledger := ledger e |}.
Definition with_reserve (e : PoolEntry) (n : nat) : PoolEntry :=
  {| entry_key := entry_key e; limit := limit e; available := available e;
     reserve_available := n; ledger := ledger e |}.

Definition join (e : PoolEntry) : N * PoolEntry :=
  let ticket := next_ticket (ledger e) in
  (ticket, with_ledger e {| next_ticket := (ticket + 1) mod 2 ^ 64;
                            waiting_set := {[ticket]} ∪ waiting_set (ledger e) |}).
Definition leave (e : PoolEntry) (ticket : N) : PoolEntry :=
  with_ledger e {| next_ticket := next_ticket (ledger e);
                   waiting_set := waiting_set (ledger e) ∖ {[ticket]} |}.
(** The set iterates in ascending order, so its [take_while(< ticket)] is the
    set of smaller tickets. *)
Definition rank (e : PoolEntry) (ticket : N) : option QueuePosition :=
  let w := waiting_set (ledger e) in
  if decide (ticket ∈ w) then
    let ahead := size (filter (fun t => (t < ticket)%N) w) in
    Some {| position := ahead + 1; of_total := size w |}
  else None.

Record PoolSnapshot := {
  snap_limit : nat; snap_available : nat; snap_waiting : nat; snap_reserve_available : nat
}.
Definition snapshot (e : PoolEntry) : PoolSnapshot :=
  {| snap_limit := limit e; snap_available := available e; snap_waiting := waiting e;
     snap_reserve_available := reserve_available e |}.

(** ** The table of entries *)

Definition Pools : Type := gmap PoolKey PoolEntry.

Definition entry_with_limit (pools : Pools) (backend_url model : str) (lim : nat)
    : PoolEntry * Pools :=
  let k := pool_key backend_url model in
  match pools !! k with
  | Some existing => (existing, pools)
  | None => (new k lim, <[k := new k lim]> pools)
  end.

Definition entry_for (active : option ConcurrencyConfig) (pools : Pools) (backend_url model : str)
    : option PoolEntry * Pools :=
  match effective_max_sessions active backend_url with
  | None => (None, pools)
  | Some lim =>
      if lim <? MIN_MAX_SESSIONS then (None, pools)
      else let '(e, pools') := entry_with_limit pools backend_url model lim in (Some e, pools')
  end.

Definition has_spare_session_capacity (active : option ConcurrencyConfig) (pools : Pools)
    (backend_url model : str) : bool :=
  match effective_max_sessions active backend_url with
  | None => false
  | Some lim =>
      if lim <? MIN_MAX_SESSIONS then false
      else match pools !! pool_key backend_url model with
           | None => true
           | Some e => (waiting e =? 0) && (0 <? available e)
           end
  end.

(** ** The callers of one entry *)

Inductive PoolError :=
  | Cancelled (key : str)
  | QueueTimeout (backend model : str) (cap waiting waited_secs : nat)
  | PoolClosed (key : str).

(** Where a caller of [wait_for_slot] or [acquire_reserve_for] stands. *)
Inductive Pc :=
  | Idle
  | SawEmpty                                   (* waiting() == 0, about to try_acquire *)
  | Joining                                    (* fast path missed *)
  | Queued (ticket : N) (reported : QueuePosition)
  | Holding (position : option QueuePosition)  (* a SessionPermit is held *)
  | Failed (err : PoolError)
  | ReserveWait                                (* the reserve slot was busy *)
  | ReserveHeld                                (* a ReservePermit is held *)
  | FailedOpen (waited_secs : nat)             (* running un-metered *)
  | ReserveCancelled
  | Done.

(** One atomic step of a caller. *)
Inductive Action :=
  | ACheck       (* [entry.waiting() == 0] *)
  | ATry         (* [semaphore.try_acquire_owned()] *)
  | AJoin        (* [queue_ticket(entry)] *)
  | AAcquire     (* the [acquire_owned] arm completes *)
  | ARefresh     (* the position refresh arm *)
  | ACancel      (* either cancellation token *)
  | ATimeout (waited_secs : nat)  (* the deadline arm *)
  | ARelease     (* the permit guard is dropped *)
  | RTry         (* [reserve.try_acquire_owned()] *)
  | RAcquire
  | RTimeout (waited_secs : nat)
  | RCancel
  | RRelease     (* the reserve guard, or the un-metered call, ends *).

Definition first_position : QueuePosition := {| position := 1; of_total := 1 |}.

(** The step of one caller at [pc]: the new entry and program counter. The ticket
    guard leaves the ledger on every way out of the queue. *)
Definition caller_step (a : Action) (pc : Pc) (e : PoolEntry) : option (Pc * PoolEntry) :=
  match a, pc with
  | ACheck, Idle => Some (if waiting e =? 0 then SawEmpty else Joining, e)
  | ATry, SawEmpty =>
      if 0 <? available e then Some (Holding None, with_available e (available e - 1))
      else Some (Joining, e)
  | AJoin, Joining =>
      let '(ticket, e') := join e in
      Some (Queued ticket (default first_position (rank e' ticket)), e')
  | AAcquire, Queued ticket pos =>
      if 0 <? available e
      then Some (Holding (Some pos), leave (with_available e (available e - 1)) ticket)
      else None
  | ARefresh, Queued ticket pos => Some (Queued ticket (default pos (rank e ticket)), e)
  | ACancel, Queued ticket _ => Some (Failed (Cancelled (key_label (entry_key e))), leave e ticket)
  | ATimeout secs, Queued ticket _ =>
      Some (Failed (QueueTimeout (fst (entry_key e)) (snd (entry_key e)) (limit e) (waiting e) secs),
            leave e ticket)
  | ARelease, Holding _ => Some (Done, with_available e (available e + 1))
  | RTry, Idle =>
      if 0 <? reserve_available e
      then Some (ReserveHeld, with_reserve e (reserve_available e - 1))
      else Some (ReserveWait, e)
  | RAcquire, ReserveWait =>
      if 0 <? reserve_available e
      then Some (ReserveHeld, with_reserve e (reserve_available e - 1))
      else None
  | RTimeout secs, ReserveWait => Some (FailedOpen secs, e)
  | RCancel, ReserveWait => Some (ReserveCancelled, e)
  | RRelease, ReserveHeld => Some (Done, with_reserve e (reserve_available e + 1))
  | RRelease, FailedOpen _ => Some (Done, e)
  | _, _ => None
  end.

(** The whole system: the entry and its callers. *)
Record System := { entry : PoolEntry; callers : list Pc }.

Definition sys_step (c : nat) (a : Action) (s : System) : option System :=
  match callers s !! c with
  | Some pc =>
      match caller_step a pc (entry s) with
      | Some (pc', e') => Some {| entry := e'; callers := <[c := pc']> (callers s) |}
      | None => None
      end
  | None => None
  end.

Fixpoint run (trace : list (nat * Action)) (s : System) : option System :=
  match trace with
  | [] => Some s
  | (c, a) :: trace' => match sys_step c a s with Some s' => run trace' s' | None => None end
  end.

Definition init (k : PoolKey) (lim n : nat) : System :=
  {| entry := new k lim; callers := replicate n Idle |}.

(** Reachability in a number of steps. *)
Inductive reachable (k : PoolKey) (lim n : nat) : nat -> System -> Prop :=
  | reach_init : reachable k lim n 0 (init k lim n)
  | reach_step steps s c a s' :
      reachable k lim n steps s -> sys_step c a s = Some s' -> reachable k lim n (S steps) s'.

(** ** Call classes *)

Inductive CallClass :=
  | ManagerTurn | Specialist | Validator | PromptArchitect | SteerArbitrator | NoticeEval.
Definition is_capped (c : CallClass) : bool :=
  match c with ManagerTurn | Specialist | Validator | PromptArchitect => true | _ => false end.
Definition uses_reserve (c : CallClass) : bool :=
  match c with SteerArbitrator | NoticeEval => true | _ => false end.
Definition class_label (c : CallClass) : str :=
  match c with
  | ManagerTurn => lit "manager_turn"
  | Specialist => lit "specialist"
  | Validator => lit "validator"
  | PromptArchitect => lit "prompt_architect"
  | SteerArbitrator => lit "steer_arbitrator"
  | NoticeEval => lit "notice_eval"
  end.

Record CallContext := {
  ctx_class : CallClass; ctx_agent : option str; ctx_task : option str; ctx_depth : nat
}.
Definition context_new (c : CallClass) : CallContext :=
  {| ctx_class := c; ctx_agent := None; ctx_task := None; ctx_depth := 0 |}.
Definition for_agent (c : CallClass) (agent : str) (task : option str) : CallContext :=
  {| ctx_class := c; ctx_agent := Some agent; ctx_task := task; ctx_depth := 0 |}.
Definition for_agent_with_depth (c : CallClass) (agent : str) (task : option str) (depth : nat)
    : CallContext :=
  {| ctx_class := c; ctx_agent := Some agent; ctx_task := task; ctx_depth := depth |}.
Definition with_class (x : CallContext) (c : CallClass) : CallContext :=
  {| ctx_class := c; ctx_agent := ctx_agent x; ctx_task := ctx_task x; ctx_depth := ctx_depth x |}.
Definition describe (x : CallContext) : str :=
  let who := match ctx_agent x, ctx_task x with
             | Some agent, Some task => lit " " ++ agent ++ lit " [" ++ task ++ lit "]"
             | Some agent, None => lit " " ++ agent
             | None, Some task => lit " [" ++ task ++ lit "]"
             | None, None => []
             end in
  class_label (ctx_class x) ++ who.
