(* ===== verification/Mcp.v ===== *)
(** * Tools served by MCP servers ([src/mcp/mod.rs], [src/mcp/client.rs], [src/harness/mod.rs])

    The wire name of such a tool composes its server's name and its own; the
    policy says which names may be registered.  The registry holds what the
    servers that came up report; the gate decides which of its names a dispatch
    may reach. *)

From S2P Require Import Prelude Str Decimal ToolNames Pool.
Local Open Scope nat_scope.

Definition NAME_SEPARATOR : str := lit "__".
Definition MAX_SERVER_NAME_LEN : nat := 64.
Definition MAX_MCP_TOOL_NAME_LEN : nat := 128.

Inductive NameError := Empty | TooLong (limit len : nat) | ContainsSeparator | IllegalCharacter (c : char).
Inductive McpNameError :=
  | Server (e : NameError)
  | Tool (e : NameError)
  | BuiltInCollision (qualified builtin : str).

Definition server_char (c : char) : bool := is_ascii_alphanumeric c || (c =? ch "-")%N || (c =? ch "_")%N.
Definition tool_char (c : char) : bool := is_ascii_alphanumeric c || (c =? ch "-")%N || (c =? ch "_")%N || (c =? ch ".")%N.

(** [None] when the name is accepted. *)
Definition validate_server_name (name : str) : option NameError :=
  if is_empty name then Some Empty
  else if MAX_SERVER_NAME_LEN <? length name then Some (TooLong MAX_SERVER_NAME_LEN (length name))
  else if contains NAME_SEPARATOR name then Some ContainsSeparator
  else IllegalCharacter <$> find_first (fun c => negb (server_char c)) name.
Definition validate_mcp_tool_name (name : str) : option NameError :=
  if is_empty name then Some Empty
  else if MAX_MCP_TOOL_NAME_LEN <? length name then Some (TooLong MAX_MCP_TOOL_NAME_LEN (length name))
  else if contains NAME_SEPARATOR name then Some ContainsSeparator
  else IllegalCharacter <$> find_first (fun c => negb (tool_char c)) name.

Definition composed_name (server_name raw_tool_name : str) : str := server_name ++ NAME_SEPARATOR ++ raw_tool_name.
Definition accepted (e : option NameError) : bool := match e with None => true | Some _ => false end.
Definition split_composed_name (name : str) : option (str * str) :=
  match find_split NAME_SEPARATOR name with
  | Some (server, tool) =>
      if accepted (validate_server_name server) && accepted (validate_mcp_tool_name tool) then Some (server, tool) else None
  | None => None
  end.
Definition is_composed_name_shape (name : str) : bool :=
  match split_composed_name name with Some _ => true | None => false end.

Definition builtin_shadow_target (qualified_name server_name : str) (builtin_tool_names : list str) : option str :=
  match find_first (fun name => str_eqb name qualified_name) builtin_tool_names with
  | Some exact => Some exact
  | None => find_first (fun name => starts_with (composed_name server_name []) name) builtin_tool_names
  end.
Definition validate_composed_registration (server_name raw_tool_name : str) (builtin_tool_names : list str) : str + McpNameError :=
  match validate_server_name server_name with
  | Some e => inr (Server e)
  | None =>
      match validate_mcp_tool_name raw_tool_name with
      | Some e => inr (Tool e)
      | None =>
          let qualified := composed_name server_name raw_tool_name in
          match builtin_shadow_target qualified server_name builtin_tool_names with
          | Some builtin => inr (BuiltInCollision qualified builtin)
          | None => inl qualified
          end
      end
  end.

(** ** The registry *)

Record McpTool := { mcp_name : str; server_name : str }.
#[export] Instance McpTool_eq_dec : EqDecision McpTool.
Proof. solve_decision. Defined.
Definition qualified_name (t : McpTool) : str := server_name t ++ lit "__" ++ mcp_name t.

Inductive McpBootStatus := Booting | Ready | Failed (reason : str).
#[export] Instance McpBootStatus_eq_dec : EqDecision McpBootStatus.
Proof. solve_decision. Defined.
Definition BOOT_ABORT_REASON : str := lit "MCP boot task aborted".
Definition is_boot_abort_reason (reason : str) : bool := str_eqb reason BOOT_ABORT_REASON.
Definition is_terminal (s : McpBootStatus) : bool := match s with Booting => false | _ => true end.

(** The servers that came up, the tools by their wire names in the order of the
    names, and the verdict on the boot; whether a task boots the servers. *)
Record McpManager := { clients : list str; registered : list (str * McpTool); status : McpBootStatus; boot_task : bool }.
Definition new_manager : McpManager := {| clients := []; registered := []; status := Ready; boot_task := false |}.
Definition spawn_boot : McpManager := {| clients := []; registered := []; status := Booting; boot_task := true |}.

Fixpoint btree_insert (l : list (str * McpTool)) (key : str) (t : McpTool) : list (str * McpTool) :=
  match l with
  | [] => [(key, t)]
  | (k, u) :: l' =>
      if str_eqb k key then (key, t) :: l'
      else if str_leb key k then (key, t) :: (k, u) :: l'
      else (k, u) :: btree_insert l' key t
  end.
Definition tool_at (m : McpManager) (name : str) : option McpTool :=
  snd <$> find_first (fun e => str_eqb (fst e) name) (registered m).
Definition has_tool (m : McpManager) (name : str) : bool := match tool_at m name with Some _ => true | None => false end.
Definition manager_tools (m : McpManager) : list McpTool := map snd (registered m).
Definition tools_for_servers (m : McpManager) (servers : list str) : list McpTool :=
  if is_empty servers then [] else List.filter (fun t => str_mem (server_name t) servers) (manager_tools m).

(** What the boot of a server ends with: no connection, nothing to connect to,
    or a client with the tools it reports. *)
Inductive ServerBoot := BootError (reason : str) | Unconfigured | Booted (tools : list McpTool).
Definition boot_one (name : str) (b : ServerBoot) (m : McpManager) : (bool + str) * McpManager :=
  match b with
  | BootError reason => (inr reason, m)
  | Unconfigured => (inl false, m)
  | Booted tools =>
      (inl true, {| clients := clients m ++ [name];
                    registered := fold_left (fun l t => btree_insert l (qualified_name t) t) tools (registered m);
                    status := status m; boot_task := boot_task m |})
  end.
(** The boots run together: [finished] is the order in which they end, each with
    its result. *)
Fixpoint boot_each (finished : list (str * ServerBoot)) (m : McpManager) : list (str * (bool + str)) * McpManager :=
  match finished with
  | [] => ([], m)
  | (name, b) :: rest =>
      let '(x, m) := boot_one name b m in
      let '(results, m) := boot_each rest m in ((name, x) :: results, m)
  end.
(** The results in the order of the configuration: how many servers came up, and
    the reasons of those that failed. *)
Fixpoint tally (names : list str) (results : list (str * (bool + str))) : nat * list str :=
  match names with
  | [] => (0, [])
  | name :: rest =>
      let '(connected, failures) := tally rest results in
      match snd <$> find_first (fun r => str_eqb (fst r) name) results with
      | Some (inl true) => (S connected, failures)
      | Some (inr reason) => (connected, reason :: failures)
      | _ => (connected, failures)
      end
  end.
Definition publish (s : McpBootStatus) (m : McpManager) : McpManager :=
  {| clients := clients m; registered := registered m; status := s; boot_task := boot_task m |}.
Definition verdict_on (connected : nat) (failures : list str) : McpBootStatus :=
  if (connected =? 0) && negb (is_empty failures) then Failed (join_with (lit "; ") failures) else Ready.
(** [servers] are the names of the configuration. *)
Definition boot_all (servers : list str) (finished : list (str * ServerBoot)) (m : McpManager) : McpManager :=
  let '(results, m) := boot_each finished m in
  let '(connected, failures) := tally servers results in publish (verdict_on connected failures) m.
Definition shutdown_boot_task (m : McpManager) : McpManager :=
  if boot_task m && bool_decide (status m = Booting) then publish (Failed BOOT_ABORT_REASON) m else m.

(** ** The gate *)

Definition is_builtin_tool_name (name : str) : bool := str_mem name BUILTIN_TABLE.
Definition resolves_to_builtin_handler (name : str) : bool :=
  is_builtin_tool_name name || is_builtin_tool_name (default name (normalize_tool_alias name)).
Definition mcp_registration_verdict (server_name raw_tool_name : str) : str + McpNameError :=
  match validate_composed_registration server_name raw_tool_name BUILTIN_TABLE with
  | inr e => inr e
  | inl qualified =>
      if resolves_to_builtin_handler qualified then inr (BuiltInCollision qualified (default qualified (normalize_tool_alias qualified)))
      else inl qualified
  end.

Record McpToolRejection := { rejected_name : str; rejection : McpNameError }.
(** The names allowed when the gate was built, and the refusals. *)
Record McpDispatchGate := { allowed_names : list str; rejected : list McpToolRejection }.
Definition build_gate (m : McpManager) : McpDispatchGate :=
  let verdicts := map (fun t => (t, mcp_registration_verdict (server_name t) (mcp_name t))) (manager_tools m) in
  {| allowed_names := omap (fun v => match snd v with inl q => Some q | inr _ => None end) verdicts;
     rejected := omap (fun v => match snd v with
                                | inl _ => None
                                | inr e => Some {| rejected_name := qualified_name (fst v); rejection := e |}
                                end) verdicts |}.
Definition composed_name_is_policy_valid (name : str) : bool :=
  match split_composed_name name with
  | Some (server, raw) =>
      match mcp_registration_verdict server raw with
      | inl qualified => str_eqb qualified name
      | inr _ => false
      end
  | None => false
  end.
Definition live_registry_serves (m : McpManager) (name : str) : bool := composed_name_is_policy_valid name && has_tool m name.
(** Whether a dispatch of the name goes to the manager, whose state is [m]. *)
Definition route (g : McpDispatchGate) (m : McpManager) (name : str) : bool :=
  if resolves_to_builtin_handler name then false
  else if str_mem name (allowed_names g) || live_registry_serves m name then true
  else negb (bool_decide (status m = Ready)) && composed_name_is_policy_valid name.
Definition allowed_mcp_tools (g : McpDispatchGate) (m : McpManager) (servers : list str) : list McpTool :=
  List.filter (fun t => str_mem (qualified_name t) (allowed_names g)) (tools_for_servers m servers).

Definition MCP_READY_TIMEOUT_SECS : nat := 10.
Definition mcp_still_starting_error (name : str) : str :=
  lit "MCP server '" ++ match split_composed_name name with Some (server, _) => server | None => name end
  ++ lit "' is still starting after " ++ dec MCP_READY_TIMEOUT_SECS ++ lit "s".
Definition mcp_boot_failed_error (reason : str) : str := lit "MCP boot failed: " ++ reason.
(** The verdict a bounded wait ended with, if one came. *)
Definition verdict_within_budget (awaited : option McpBootStatus) : option McpBootStatus :=
  match awaited with Some s => if is_terminal s then Some s else None | None => None end.
(** [None] when the call may go out. *)
Definition gate_is_ready (m : McpManager) (awaited : option McpBootStatus) (name : str) : option str :=
  match status m with
  | Ready => None
  | Failed reason => Some (mcp_boot_failed_error reason)
  | Booting =>
      if live_registry_serves m name then None
      else match verdict_within_budget awaited with
           | Some Ready => None
           | Some (Failed reason) => Some (mcp_boot_failed_error reason)
           | Some Booting | None => Some (mcp_still_starting_error name)
           end
  end.

(** ** What the names say *)

Implicit Types server tool name : str.

Lemma split_composed_sound name server tool : split_composed_name name = Some (server, tool) ->
  name = composed_name server tool /\ validate_server_name server = None /\ validate_mcp_tool_name tool = None.
Proof.
  unfold split_composed_name. destruct (find_split NAME_SEPARATOR name) as [[a b]|] eqn:E; [|done].
  destruct (validate_server_name a) eqn:Es, (validate_mcp_tool_name b) eqn:Et; cbn; try done.
  intros [= <- <-]. by apply find_split_Some in E.
Qed.

Lemma separator_text : NAME_SEPARATOR = [ch "_"; ch "_"].
Proof. done. Qed.
(** The first separator of a composed name is the one that was put there,
    unless the server's name ends in half of one. *)
Lemma find_split_separator server s :
  contains NAME_SEPARATOR server = false -> last server <> Some (ch "_") ->
  find_split NAME_SEPARATOR (server ++ NAME_SEPARATOR ++ s) = Some (server, s).
Proof.
  induction server as [|c server IH]; intros Hc Hl; [done|].
  assert (Hn : find_split NAME_SEPARATOR (c :: server) = None).
  { unfold contains in Hc. rewrite find_split_str in Hc. by destruct (find_split NAME_SEPARATOR (c :: server)). }
  cbn [find_split] in Hn. cbn [app find_split].
  assert (Hp : strip_prefix NAME_SEPARATOR (c :: server ++ NAME_SEPARATOR ++ s) = None).
  { rewrite separator_text in *. cbn [strip_prefix] in *. destruct (ch "_" =? c)%N eqn:E; [|done].
    apply N.eqb_eq in E. subst c. destruct server as [|d server]; [done|]. cbn [app].
    by destruct (ch "_" =? d)%N. }
  rewrite Hp. destruct (strip_prefix NAME_SEPARATOR (c :: server)); [done|].
  destruct (find_split NAME_SEPARATOR server) as [[a b]|] eqn:Ef; [done|]. rewrite IH; [done| |].
  - unfold contains. by rewrite find_split_str, Ef.
  - destruct server; [done|]. exact Hl.
Qed.

(** A name that parses is the composition of its parts, both accepted; and
    the composition of two accepted names parses back into them where the
    server's name does not end in an underscore. *)
Theorem composed_names_parse server tool :
  (forall name, split_composed_name name = Some (server, tool) ->
     name = composed_name server tool /\ validate_server_name server = None /\ validate_mcp_tool_name tool = None) /\
  (validate_server_name server = None -> validate_mcp_tool_name tool = None -> last server <> Some (ch "_") ->
     split_composed_name (composed_name server tool) = Some (server, tool)).
Proof.
  split; [intros name; apply split_composed_sound|]. intros Hs Ht Hl. unfold split_composed_name, composed_name.
  rewrite find_split_separator; [by rewrite Hs, Ht| |done]. unfold validate_server_name in Hs. by repeat case_match.
Qed.
Lemma composed_names_parse_witness :
  split_composed_name (composed_name (lit "kiwix") (lit "search.v2")) = Some (lit "kiwix", lit "search.v2").
Proof. apply (proj2 (composed_names_parse (lit "kiwix") (lit "search.v2"))); by vm_compute. Defined.

(** Two accepted registrations with one wire name: parsing gives the other. *)
Example two_servers_one_name :
  validate_server_name (lit "a_") = None /\ validate_mcp_tool_name (lit "b") = None /\
  composed_name (lit "a_") (lit "b") = composed_name (lit "a") (lit "_b") /\
  split_composed_name (composed_name (lit "a_") (lit "b")) = Some (lit "a", lit "_b").
Proof. by vm_compute. Qed.

(** ** What the gate lets through *)

Lemma verdict_allows server raw q : mcp_registration_verdict server raw = inl q ->
  q = composed_name server raw /\ validate_server_name server = None /\ validate_mcp_tool_name raw = None /\ resolves_to_builtin_handler q = false /\
  forall b, b ∈ BUILTIN_TABLE -> starts_with (composed_name server []) b = false.
Proof.
  unfold mcp_registration_verdict, validate_composed_registration. destruct (validate_server_name server); [done|].
  destruct (validate_mcp_tool_name raw); [done|]. destruct (builtin_shadow_target _ _ _) eqn:Es; [done|].
  destruct (resolves_to_builtin_handler _) eqn:Er; [done|]. intros [= <-]. split_and!; [done..|].
  unfold builtin_shadow_target in Es. destruct (find_first _ BUILTIN_TABLE); [done|]. apply find_first_None in Es.
  rewrite Forall_forall in Es. done.
Qed.
Lemma policy_valid_spec name : composed_name_is_policy_valid name = true <->
  exists server raw, mcp_registration_verdict server raw = inl name /\ split_composed_name name = Some (server, raw).
Proof.
  unfold composed_name_is_policy_valid. split.
  - destruct (split_composed_name name) as [[server raw]|]; [|done]. destruct (mcp_registration_verdict server raw) as [q|] eqn:E; [|done].
    intros ->%str_eqb_eq. by exists server, raw.
  - intros (server & raw & E & ->). rewrite E. apply str_eqb_refl.
Qed.
Lemma allowed_spec m name : name ∈ allowed_names (build_gate m) <->
  exists t, t ∈ manager_tools m /\ mcp_registration_verdict (server_name t) (mcp_name t) = inl name.
Proof.
  unfold build_gate. cbn [allowed_names]. rewrite list_elem_of_omap. split.
  - intros ((t & v) & Hin & E). apply list_elem_of_In, in_map_iff in Hin as (t' & [= <- <-] & Hin). cbn [snd] in E.
    exists t'. split; [by apply list_elem_of_In|]. destruct (mcp_registration_verdict _ _) as [q|]; [by injection E as ->|done].
  - intros (t & Hin & E). exists (t, mcp_registration_verdict (server_name t) (mcp_name t)). split; [|by rewrite E].
    apply list_elem_of_In, in_map_iff. exists t. split; [done|by apply list_elem_of_In].
Qed.

(** C9: the gate never shadows a built-in tool.  Whatever the servers report and
    whenever the gate was built, a name is routed to them only when no built-in
    handler claims it, verbatim or as an alias, and it is composed of an accepted
    server name, under whose prefix there is no built-in tool, and an accepted
    tool name. *)
Theorem gate_never_shadows built m name : route (build_gate built) m name = true ->
  name ∉ BUILTIN_TABLE /\ normalize_tool_alias name = None /\
  exists server raw, name = composed_name server raw /\ validate_server_name server = None /\ validate_mcp_tool_name raw = None /\
    forall b, b ∈ BUILTIN_TABLE -> starts_with (composed_name server []) b = false.
Proof.
  unfold route. destruct (resolves_to_builtin_handler name) eqn:Er; [done|]. intros Hr.
  assert (Hv : exists server raw, mcp_registration_verdict server raw = inl name).
  { destruct (str_mem name (allowed_names (build_gate built))) eqn:Em.
    - apply str_mem_true, allowed_spec in Em as (t & _ & E). by eexists _, _.
    - cbn [orb] in Hr. unfold live_registry_serves in Hr. destruct (composed_name_is_policy_valid name) eqn:Ep.
      + apply policy_valid_spec in Ep as (server & raw & E & _). by exists server, raw.
      + by rewrite andb_false_r in Hr. }
  destruct Hv as (server & raw & Hv). apply verdict_allows in Hv as (-> & Hs & Ht & _ & Hb).
  unfold resolves_to_builtin_handler, is_builtin_tool_name in Er. apply orb_false_iff in Er as [Er _].
  assert (Hn : composed_name server raw ∉ BUILTIN_TABLE) by (rewrite <-str_mem_true, Er; done). split; [done|]. split.
  - destruct (normalize_tool_alias _) as [t|] eqn:En; [|done]. exfalso. apply Hn. apply tool_claimed. by eexists.
  - by exists server, raw.
Qed.

(** A manager that has booted one server with one tool. *)
Definition kiwix_tool : McpTool := {| mcp_name := lit "search"; server_name := lit "kiwix" |}.
Definition booted : McpManager := boot_all [lit "kiwix"; lit "terminal"] [(lit "kiwix", Booted [kiwix_tool]); (lit "terminal", Booted [{| mcp_name := lit "run_command"; server_name := lit "terminal" |}])] spawn_boot.
Lemma gate_never_shadows_witness :
  route (build_gate booted) booted (lit "kiwix__search") = true /\ lit "kiwix__search" ∉ BUILTIN_TABLE.
Proof.
  assert (E : route (build_gate booted) booted (lit "kiwix__search") = true) by by vm_compute.
  split; [exact E|]. exact (proj1 (gate_never_shadows booted booted (lit "kiwix__search") E)).
Defined.
Example terminal_is_refused :
  route (build_gate booted) booted (lit "terminal__run_command") = false /\ has_tool booted (lit "terminal__run_command") = true /\
  length (rejected (build_gate booted)) = 1.
Proof. by vm_compute. Qed.

(** ** The boot *)

Definition came_up (x : str * ServerBoot) : option str := match snd x with Booted _ => Some (fst x) | _ => None end.
Definition failed_with (x : str * ServerBoot) : option str := match snd x with BootError r => Some r | _ => None end.
Lemma boot_each_spec finished m : let '(results, m') := boot_each finished m in
  results = map (fun x => (fst x, fst (boot_one (fst x) (snd x) m))) finished /\
  clients m' = clients m ++ omap came_up finished /\ status m' = status m /\ boot_task m' = boot_task m.
Proof.
  revert m. induction finished as [|[name b] finished IH]; intros m; cbn [boot_each]; [by rewrite app_nil_r|].
  assert (Hf : fst (boot_one name b m) = fst (boot_one name b new_manager)) by by destruct b.
  assert (Hm : forall m m', map (fun x => (fst x, fst (boot_one (fst x) (snd x) m))) finished = map (fun x => (fst x, fst (boot_one (fst x) (snd x) m'))) finished)
    by (intros m1 m2; apply map_ext; intros [n c]; by destruct c).
  destruct (boot_one name b m) as [x m1] eqn:E. specialize (IH m1). destruct (boot_each finished m1) as [results m']. destruct IH as (-> & -> & -> & ->).
  cbn [map fst snd]. rewrite E, (Hm m1 m). split; [done|]. destruct b; injection E as <- <-; cbn [omap list_omap came_up snd fst clients status boot_task]; [done..|by rewrite <-app_assoc].
Qed.
Definition ends_of (x : str * ServerBoot) (m : McpManager) : str * (bool + str) := (fst x, fst (boot_one (fst x) (snd x) m)).
Lemma result_found x finished m : NoDup (map fst finished) -> x ∈ finished ->
  find_first (fun r => str_eqb (fst r) (fst x)) (map (fun x => ends_of x m) finished) = Some (ends_of x m).
Proof.
  induction finished as [|y finished IH]; intros Hd Hx; [by apply not_elem_of_nil in Hx|]. cbn [map] in *. apply NoDup_cons in Hd as [Hy Hd].
  cbn [find_first find fst ends_of]. apply elem_of_cons in Hx as [->|Hx]; [by rewrite str_eqb_refl|].
  destruct (str_eqb (fst y) (fst x)) eqn:E; [|by apply IH]. apply str_eqb_eq in E. exfalso. apply Hy. rewrite E. apply list_elem_of_In, in_map, list_elem_of_In, Hx.
Qed.
Lemma tally_spec ended results m : (forall x, x ∈ ended -> find_first (fun r => str_eqb (fst r) (fst x)) results = Some (ends_of x m)) ->
  tally (map fst ended) results = (length (omap came_up ended), omap failed_with ended).
Proof.
  induction ended as [|[name b] ended IH]; intros Hf; [done|]. cbn [map tally fst].
  rewrite IH by (intros x Hx; apply Hf; by right). pose proof (Hf (name, b) (list_elem_of_here _ _)) as E. cbn [fst] in E. rewrite E. by destruct b.
Qed.

(** A boot settles.  When every server has ended its boot, in whatever order,
    the verdict is final: failed, with each server's reason in the order of the
    configuration, exactly when none came up and one failed; the servers that
    came up are the clients; stopping the boot afterwards changes nothing, and
    before it leaves no one waiting. *)
Theorem boot_settles ended finished m : NoDup (map fst ended) -> finished ≡ₚ ended ->
  let m' := boot_all (map fst ended) finished m in
  let up := omap came_up ended in let reasons := omap failed_with ended in
  clients m' ≡ₚ clients m ++ up /\ is_terminal (status m') = true /\
  (status m' = Ready <-> up <> [] \/ reasons = []) /\
  (status m' <> Ready -> status m' = Failed (join_with (lit "; ") reasons)) /\
  shutdown_boot_task m' = m' /\ (boot_task m = true -> is_terminal (status (shutdown_boot_task m)) = true).
Proof.
  intros Hd Hp. cbn zeta. unfold boot_all. pose proof (boot_each_spec finished m) as Hb. destruct (boot_each finished m) as [results m1].
  destruct Hb as (-> & Ec & Es & Et). change (map _ finished) with (map (fun x => ends_of x m) finished).
  assert (Hd' : NoDup (map fst finished)) by (by rewrite (Permutation_map fst Hp)).
  rewrite (tally_spec ended _ m) by (intros x Hx; apply result_found; [done|by rewrite Hp]).
  assert (Hc : clients m1 ≡ₚ clients m ++ omap came_up ended) by (by rewrite Ec, Hp). clear Ec.
  unfold publish, verdict_on. cbn [clients status boot_task]. unfold shutdown_boot_task. cbn [status boot_task].
  assert (Hsd : boot_task m = true -> is_terminal (status (if boot_task m && bool_decide (status m = Booting) then publish (Failed BOOT_ABORT_REASON) m else m)) = true).
  { intros ->. cbn [andb]. destruct (bool_decide _) eqn:E; [done|]. apply bool_decide_eq_false in E. by destruct (status m). }
  split; [done|]. set (up := omap came_up ended). set (reasons := omap failed_with ended).
  destruct up as [|u up], reasons as [|r reasons]; cbn [length Nat.eqb is_empty negb andb is_terminal]; rewrite ?andb_false_r; split_and!; try done; try tauto.
  all: split; [first [done|intros _; by left]|first [done|by intros [?|?]]].
Qed.
Definition boots : list (str * ServerBoot) := [(lit "kiwix", BootError (lit "no binary")); (lit "maps", Unconfigured); (lit "web", BootError (lit "refused"))].
Lemma boot_settles_witness : NoDup (map fst boots) /\ reverse boots ≡ₚ boots /\
  status (boot_all (map fst boots) (reverse boots) spawn_boot) = Failed (lit "no binary; refused").
Proof.
  assert (Hd : NoDup (map fst boots)) by (apply (bool_decide_unpack _); by vm_compute). pose proof (reverse_Permutation boots) as Hp.
  split; [exact Hd|]. split; [exact Hp|]. destruct (boot_settles boots (reverse boots) spawn_boot Hd Hp) as (_ & _ & _ & Hf & _).
  apply Hf. by vm_compute.
Defined.
