(* ===== verification/PoolFacts.v ===== *)
(** * Facts about the session pool

    The cap is never exceeded and no permit leaks, whatever the interleaving;
    queue positions are a permutation of the queue; what the source's comments
    promise beyond that fails on concrete interleavings. *)

From S2P Require Import Prelude Str Pool.

(** ** The configured cap *)

Lemma str_leb_total s t : str_leb s t = true \/ str_leb t s = true.
Proof.
  revert t. induction s as [|c s IH]; intros [|d t]; cbn; auto.
  destruct (N.ltb_spec c d), (N.ltb_spec d c), (N.eqb_spec c d), (N.eqb_spec d c); auto; lia.
Qed.

Lemma sort_entries_perm l : sort_entries l ≡ₚ l.
Proof.
  assert (Hi : forall x l, insert_sorted x l ≡ₚ x :: l).
  { intros x k. induction k as [|y k IH]; cbn; [done|]. destruct (str_leb _ _); [done|].
    rewrite IH. apply Permutation_swap. }
  unfold sort_entries. induction l as [|x l IH]; cbn; [done|]. by rewrite Hi, IH.
Qed.

Lemma or_insert_fold l m k :
  fold_left or_insert l m !! k =
  match m !! k with
  | Some v => Some v
  | None => snd <$> find_first (fun e => str_eqb (backend_key (fst e)) k) l
  end.
Proof.
  revert m. induction l as [|e l IH]; intros m; cbn [fold_left find_first]; [by destruct (m !! k)|].
  rewrite IH. unfold or_insert. destruct (m !! backend_key (fst e)) as [v|] eqn:Ek.
  - destruct (m !! k) eqn:Em; [done|]. destruct (str_eqb (backend_key (fst e)) k) eqn:Es; [|done].
    apply str_eqb_eq in Es. congruence.
  - destruct (str_eqb (backend_key (fst e)) k) eqn:Es.
    + apply str_eqb_eq in Es as <-. by rewrite lookup_insert_eq, Ek.
    + rewrite lookup_insert_ne; [done|]. intros <-. by rewrite str_eqb_refl in Es.
Qed.

Lemma normalized_Some c k v :
  normalized_backends c !! k = Some v ->
  exists raw, by_backend c !! raw = Some v /\ backend_key raw = k.
Proof.
  unfold normalized_backends. rewrite or_insert_fold, lookup_empty.
  destruct (find_first _ _) as [[raw v']|] eqn:E; [|done]. intros [= <-].
  apply find_first_Some in E as (l1 & l2 & Hl & Hk & _). apply str_eqb_eq in Hk.
  exists raw. split; [|done]. apply elem_of_map_to_list.
  rewrite <-(sort_entries_perm (map_to_list (by_backend c))), Hl. set_solver.
Qed.

Lemma normalized_None c k :
  normalized_backends c !! k = None -> forall raw, backend_key raw = k -> by_backend c !! raw = None.
Proof.
  unfold normalized_backends. rewrite or_insert_fold, lookup_empty. intros H raw Hk.
  destruct (by_backend c !! raw) as [v|] eqn:Ev; [|done]. exfalso.
  apply fmap_None, find_first_None in H. rewrite Forall_forall in H.
  specialize (H (raw, v)). cbn [fst] in H. rewrite Hk, str_eqb_refl in H.
  enough (true = false) by done. apply H. rewrite sort_entries_perm. by apply elem_of_map_to_list.
Qed.

(** ** Counting callers *)

Definition holds_slot (p : Pc) : nat := match p with Holding _ => 1 | _ => 0 end.
Definition holds_reserve (p : Pc) : nat := match p with ReserveHeld => 1 | _ => 0 end.
Definition is_queued (p : Pc) : nat := match p with Queued _ _ => 1 | _ => 0 end.
Definition unmetered (p : Pc) : nat := match p with FailedOpen _ => 1 | _ => 0 end.
Definition ticket_of (p : Pc) : option N := match p with Queued t _ => Some t | _ => None end.
Definition ticket_at (cs : list Pc) (c : nat) : option N := cs !! c ≫= ticket_of.

Lemma ticket_at_insert cs c pc pc' c' :
  cs !! c = Some pc ->
  ticket_at (<[c := pc']> cs) c' = if decide (c' = c) then ticket_of pc' else ticket_at cs c'.
Proof.
  intros H. unfold ticket_at. case_decide as Hd.
  - subst. by rewrite list_lookup_insert_eq by (by eapply lookup_lt_Some).
  - by rewrite list_lookup_insert_ne.
Qed.

(** The ledger holds exactly the tickets of the queued callers, one each. *)
Definition ledger_ok (w : gset N) (cs : list Pc) : Prop :=
  (forall t, t ∈ w <-> exists c, ticket_at cs c = Some t) /\
  (forall c c' t, ticket_at cs c = Some t -> ticket_at cs c' = Some t -> c = c').

Lemma ledger_same w cs c pc pc' :
  ledger_ok w cs -> cs !! c = Some pc -> ticket_of pc' = ticket_of pc ->
  ledger_ok w (<[c := pc']> cs).
Proof.
  intros [H1 H2] Hc Ht.
  assert (He : forall c', ticket_at (<[c := pc']> cs) c' = ticket_at cs c').
  { intros c'. rewrite (ticket_at_insert _ _ pc) by done. case_decide; [|done]. subst.
    unfold ticket_at. by rewrite Hc, Ht. }
  split; [intros t; rewrite H1|intros c1 c2 t]; setoid_rewrite He; [done|apply H2].
Qed.

Lemma ledger_join w cs c pc t p :
  ledger_ok w cs -> cs !! c = Some pc -> ticket_of pc = None -> t ∉ w ->
  ledger_ok ({[t]} ∪ w) (<[c := Queued t p]> cs).
Proof.
  intros [H1 H2] Hc Hpc Ht.
  assert (He : forall c', ticket_at (<[c := Queued t p]> cs) c' = if decide (c' = c) then Some t else ticket_at cs c')
    by (intros c'; by rewrite (ticket_at_insert _ _ pc)).
  assert (Hno : forall c', ticket_at cs c' <> Some t) by (intros c' Hc'; apply Ht, H1; eauto).
  assert (Hcn : ticket_at cs c = None) by (unfold ticket_at; by rewrite Hc).
  split.
  - intros t'. rewrite elem_of_union, elem_of_singleton, H1. setoid_rewrite He. split.
    + intros [->|[c' Hc']]; [exists c; by rewrite decide_True|].
      exists c'. rewrite decide_False; [done|]. intros ->. congruence.
    + intros [c' Hc']. case_decide; [left; congruence|right; eauto].
  - intros c1 c2 t'. rewrite !He. repeat case_decide; subst; try done; [..|apply H2].
    + intros [= <-] Hx. by apply Hno in Hx.
    + intros Hx [= <-]. by apply Hno in Hx.
Qed.

Lemma ledger_leave w cs c t p pc' :
  ledger_ok w cs -> cs !! c = Some (Queued t p) -> ticket_of pc' = None ->
  ledger_ok (w ∖ {[t]}) (<[c := pc']> cs).
Proof.
  intros [H1 H2] Hc Hpc.
  assert (He : forall c', ticket_at (<[c := pc']> cs) c' = if decide (c' = c) then None else ticket_at cs c')
    by (intros c'; by rewrite (ticket_at_insert _ _ (Queued t p)), Hpc).
  assert (Hct : ticket_at cs c = Some t) by (unfold ticket_at; by rewrite Hc).
  split.
  - intros t'. rewrite elem_of_difference, elem_of_singleton, H1. setoid_rewrite He. split.
    + intros [[c' Hc'] Hne]. exists c'. rewrite decide_False; [done|]. intros ->. congruence.
    + intros [c' Hc']. case_decide as Hd; [done|]. split; [eauto|]. intros ->.
      apply Hd. by eapply H2.
  - intros c1 c2 t'. rewrite !He. repeat case_decide; try done. apply H2.
Qed.

(** ** The invariant *)

Record pool_inv (k : PoolKey) (lim n steps : nat) (s : System) : Prop := {
  inv_key : entry_key (entry s) = k;
  inv_limit : limit (entry s) = max lim 1;
  inv_slots : available (entry s) + sum_with holds_slot (callers s) = limit (entry s);
  inv_reserve : reserve_available (entry s) + sum_with holds_reserve (callers s) = 1;
  inv_ledger : ledger_ok (waiting_set (ledger (entry s))) (callers s);
  inv_count : size (waiting_set (ledger (entry s))) = sum_with is_queued (callers s);
  inv_next : (next_ticket (ledger (entry s)) <= N.of_nat steps)%N;
  inv_fresh : forall t, t ∈ waiting_set (ledger (entry s)) -> (t < next_ticket (ledger (entry s)))%N;
  inv_callers : length (callers s) = n
}.

Lemma pool_inv_init k lim n : pool_inv k lim n 0 (init k lim n).
Proof.
  assert (H0 : forall f : Pc -> nat, f Idle = 0 -> sum_with f (replicate n Idle) = 0).
  { intros f Hf. induction n as [|m IH]; cbn; [done|]. rewrite Hf. exact IH. }
  constructor; cbn; try done.
  - rewrite (H0 holds_slot eq_refl). lia.
  - by rewrite (H0 holds_reserve eq_refl).
  - assert (Hn : forall c, ticket_at (replicate n Idle) c = None).
    { intros c. unfold ticket_at. destruct (replicate n Idle !! c) as [p|] eqn:E; [|done].
      by apply lookup_replicate in E as [-> _]. }
    split; [|intros c c' t; by rewrite Hn]. intros t. split; [set_solver|].
    intros [c Hc]. by rewrite Hn in Hc.
  - by rewrite (H0 is_queued eq_refl).
  - apply length_replicate.
Qed.

Lemma size_fresh (w : gset N) t : t ∉ w -> size ({[t]} ∪ w) = S (size w).
Proof. intros H. rewrite size_union by set_solver. by rewrite size_singleton. Qed.

Lemma size_minus (w : gset N) t : t ∈ w -> size (w ∖ {[t]}) = size w - 1.
Proof. intros H. rewrite size_difference by set_solver. by rewrite size_singleton. Qed.

Lemma queued_in w cs c t p : ledger_ok w cs -> cs !! c = Some (Queued t p) -> t ∈ w.
Proof. intros [H _] Hc. apply H. exists c. unfold ticket_at. by rewrite Hc. Qed.

(** A ticket of the new ledger is one of the old ones or the ticket just drawn. *)
Ltac fresh_ticket Hf t :=
  first
    [ by apply Hf
    | apply Hf; set_solver
    | match goal with H : t ∈ {[?x]} ∪ _ |- _ =>
        apply elem_of_union in H as [H|H];
        [apply elem_of_singleton in H; lia | specialize (Hf t H); lia]
      end ].

Lemma pool_inv_step k lim n steps s c a s' :
  (N.of_nat steps < 2 ^ 64 - 1)%N ->
  pool_inv k lim n steps s -> sys_step c a s = Some s' -> pool_inv k lim n (S steps) s'.
Proof.
  intros Hb [Hkey Hlim Hs Hr Hl Hcnt Hn Hf Hlen] Hstep. unfold sys_step in Hstep.
  destruct (callers s !! c) as [pc|] eqn:Ec; [|done].
  destruct (caller_step a pc (entry s)) as [[pc' e']|] eqn:Ea; [|done]. injection Hstep as <-.
  pose proof (sum_with_insert holds_slot _ _ _ pc' Ec) as Hsum.
  pose proof (sum_with_insert holds_reserve _ _ _ pc' Ec) as Hsumr.
  pose proof (sum_with_insert is_queued _ _ _ pc' Ec) as Hsumq.
  assert (Hlen' : length (<[c:=pc']> (callers s)) = n) by (by rewrite length_insert).
  assert (Hmod : ((next_ticket (ledger (entry s)) + 1) mod 2 ^ 64 = next_ticket (ledger (entry s)) + 1)%N)
    by (apply N.mod_small; lia).
  assert (Hfresh : next_ticket (ledger (entry s)) ∉ waiting_set (ledger (entry s)))
    by (intros Hin%Hf; lia).
  destruct a, pc; cbn -[Nat.ltb] in Ea; try discriminate Ea;
    repeat match type of Ea with
    | context [if ?b then _ else _] => let E := fresh "E" in destruct b eqn:E; try discriminate Ea;
        try apply Nat.ltb_lt in E
    end; injection Ea as <- <-; cbn [holds_slot holds_reserve is_queued] in Hsum, Hsumr, Hsumq;
    (constructor; cbn; [done|done|try lia|try lia| |try lia|try lia| |done]);
    first
      [ eapply ledger_same; [done|exact Ec|done]
      | eapply ledger_leave; [done|exact Ec|done]
      | eapply ledger_join; [done|exact Ec|done|done]
      | rewrite size_fresh by done; lia
      | rewrite size_minus by (eapply queued_in; [exact Hl|exact Ec]); lia
      | intros t Ht; rewrite ?Hmod; fresh_ticket Hf t ].
Qed.

Lemma reachable_inv k lim n steps s :
  reachable k lim n steps s -> (N.of_nat steps < 2 ^ 64)%N -> pool_inv k lim n steps s.
Proof.
  induction 1 as [|steps s c a s' _ IH Hstep]; intros Hb; [apply pool_inv_init|].
  eapply pool_inv_step; [|apply IH|exact Hstep]; lia.
Qed.

Lemma queued_position e t cs :
  ledger_ok (waiting_set (ledger e)) cs -> t ∈ waiting_set (ledger e) ->
  exists p, rank e t = Some p /\ position p = S (size (filter (fun x => (x < t)%N) (waiting_set (ledger e)))) /\
    of_total p = size (waiting_set (ledger e)) /\ 1 <= position p <= of_total p.
Proof.
  intros _ Ht. unfold rank. rewrite decide_True by done. eexists. split; [done|]. cbn.
  split_and!; try lia.
  assert (Hs : filter (fun x => (x < t)%N) (waiting_set (ledger e)) ⊂ waiting_set (ledger e)).
  { split; [set_solver|]. intros Hall. specialize (Hall t Ht).
    apply elem_of_filter in Hall as [? _]. lia. }
  apply subset_size in Hs. lia.
Qed.

Lemma rank_mono (w : gset N) (t t' : N) :
  t ∈ w -> (t < t')%N -> size (filter (fun x => (x < t)%N) w) < size (filter (fun x => (x < t')%N) w).
Proof.
  intros Ht Hlt. apply subset_size. split.
  - intros x [Hx Hw]%elem_of_filter. apply elem_of_filter. split; [lia|done].
  - intros Hall. specialize (Hall t). rewrite !elem_of_filter in Hall. destruct Hall; [done|lia].
Qed.

(** ** Properties *)

(** A backend's cap depends on its normalized key alone, is never zero, and
    follows the documented precedence: an override under some spelling of the
    backend wins over the default cap, and a value below the minimum means
    unlimited. *)
Theorem resolve_max_sessions_spec c url :
  (forall url', backend_key url' = backend_key url ->
     resolve_max_sessions c url' = resolve_max_sessions c url) /\
  resolve_max_sessions c url <> Some 0 /\
  match resolve_max_sessions c url with
  | Some v => (exists raw, backend_key raw = backend_key url /\ by_backend c !! raw = Some v) \/
      ((forall raw, backend_key raw = backend_key url -> by_backend c !! raw = None) /\
       max_sessions c = Some v)
  | None => (exists raw, backend_key raw = backend_key url /\ by_backend c !! raw = Some 0) \/
      ((forall raw, backend_key raw = backend_key url -> by_backend c !! raw = None) /\
       (max_sessions c = None \/ max_sessions c = Some 0))
  end.
Proof.
  unfold resolve_max_sessions, resolve_session_cap. split.
  { intros url' ->. done. }
  destruct (normalized_backends c !! backend_key url) as [v|] eqn:E.
  - apply normalized_Some in E as (raw & Hraw & Hk). destruct v as [|v]; cbn.
    + split; [done|]. left. eauto.
    + split; [done|]. left. eauto.
  - pose proof (normalized_None c _ E) as Hno.
    destruct (max_sessions c) as [[|v]|]; cbn; (split; [done|]); right; auto.
Qed.

(** C38: in every interleaving of fewer than 2^64 steps the callers holding a slot
    and the free permits add up to the cap, at most one caller holds the
    reserve slot, and the queue depth is the number of queued callers; so the
    cap is never exceeded and every permit is back when nobody holds one,
    however callers were cancelled or timed out. *)
Theorem pool_no_leak k lim n steps s :
  reachable k lim n steps s -> (N.of_nat steps < 2 ^ 64)%N ->
  sum_with holds_slot (callers s) <= max lim 1 /\
  sum_with holds_reserve (callers s) <= 1 /\
  available (entry s) = max lim 1 - sum_with holds_slot (callers s) /\
  waiting (entry s) = sum_with is_queued (callers s) /\
  (sum_with holds_slot (callers s) = 0 -> available (entry s) = max lim 1).
Proof.
  intros Hr Hb. destruct (reachable_inv _ _ _ _ _ Hr Hb) as [_ Hlim Hs Hres _ Hcnt _ _ _].
  unfold waiting. rewrite Hlim in Hs. split_and!; [lia|lia|lia|done|lia].
Qed.

(** The reported positions rank the queue: every queued caller has a
    position between 1 and the queue depth, an earlier ticket has a strictly
    smaller position, and a caller that left the queue has none. *)
Theorem queue_positions_rank k lim n steps s :
  reachable k lim n steps s -> (N.of_nat steps < 2 ^ 64)%N ->
  (forall c t r, callers s !! c = Some (Queued t r) ->
     exists p, rank (entry s) t = Some p /\ 1 <= position p <= of_total p /\
       of_total p = sum_with is_queued (callers s) /\
       forall c' t' r', callers s !! c' = Some (Queued t' r') -> (t < t')%N ->
         exists p', rank (entry s) t' = Some p' /\ position p < position p') /\
  (forall t, (forall c r, callers s !! c <> Some (Queued t r)) -> rank (entry s) t = None).
Proof.
  intros Hr Hb. destruct (reachable_inv _ _ _ _ _ Hr Hb) as [_ _ _ _ Hl Hcnt _ _ _]. split.
  - intros c t r Hc. pose proof (queued_in _ _ _ _ _ Hl Hc) as Ht.
    destruct (queued_position (entry s) t _ Hl Ht) as (p & Hp & Hpos & Hof & Hle).
    exists p. split_and!; [done|lia|lia|congruence|]. intros c' t' r' Hc' Hlt.
    pose proof (queued_in _ _ _ _ _ Hl Hc') as Ht'.
    destruct (queued_position (entry s) t' _ Hl Ht') as (p' & Hp' & Hpos' & _).
    exists p'. split; [done|]. rewrite Hpos, Hpos'. pose proof (rank_mono _ _ _ Ht Hlt). lia.
  - intros t Hno. unfold rank. rewrite decide_False; [done|]. intros Ht.
    apply (proj1 (proj1 Hl t)) in Ht as [c Hc]. unfold ticket_at in Hc.
    destruct (callers s !! c) as [[]|] eqn:E; try done. injection Hc as ->. by apply Hno in E.
Qed.

(** the empty-ledger gate does not stop a late caller from barging: the
    check and the try are two steps, and between them another caller can join
    the queue and a permit come free. Here caller 1 takes the slot while
    caller 2 stands first in the queue. *)
Theorem fast_path_can_barge (k : PoolKey) :
  exists s, run [(0, ACheck); (0, ATry); (1, ACheck); (2, ACheck); (2, ATry); (2, AJoin);
                 (0, ARelease); (1, ATry)] (init k 1 3) = Some s /\
    callers s = [Done; Holding None; Queued 0 first_position].
Proof. eexists. split; reflexivity. Qed.

(** the in-flight streams of a pair are not bounded by the cap plus one:
    reserve calls that time out run un-metered, and any number of them can.
    Here a cap of 1 has four streams in flight: the slot, the reserve slot and
    two failed-open calls. *)
Theorem in_flight_exceeds_cap_plus_one (k : PoolKey) :
  exists s, run [(0, ACheck); (0, ATry); (1, RTry); (2, RTry); (2, RTimeout 20);
                 (3, RTry); (3, RTimeout 20)] (init k 1 4) = Some s /\
    limit (entry s) = 1 /\
    sum_with (fun p => holds_slot p + holds_reserve p + unmetered p) (callers s) = 4.
Proof. eexists. split; [reflexivity|]. split; reflexivity. Qed.

(** opening a pool fixes its cap: a later request for the same backend and
    model, under any spelling of the URL, gets the same entry and opens nothing,
    and the spare-capacity question never changes the table; a fresh pool has all
    its permits free. *)
Theorem entry_with_limit_sticky pools url model lim lim' url' :
  backend_key url' = backend_key url ->
  let '(e, pools') := entry_with_limit pools url model lim in
  entry_with_limit pools' url' model lim' = (e, pools') /\
  (pools !! pool_key url model = None -> limit e = max lim 1 /\ available e = max lim 1 /\
     waiting e = 0 /\ size pools' = S (size pools)).
Proof.
  intros Hk. unfold entry_with_limit.
  assert (Hpk : pool_key url' model = pool_key url model) by (unfold pool_key; by rewrite Hk).
  destruct (pools !! pool_key url model) as [e|] eqn:E.
  - rewrite Hpk, E. done.
  - rewrite Hpk. set (k := pool_key url model) in *.
    assert (Hl : (<[k := new k lim]> pools : Pools) !! k = Some (new k lim)) by apply lookup_insert_eq.
    rewrite Hl. split; [done|]. intros _. split_and!; [done|done|done|].
    by apply (map_size_insert_None (M := gmap PoolKey)).
Qed.

(** ** Witnesses *)

Section witnesses.

Definition demo_key : PoolKey := (lit "http://h/v1", lit "m").
Definition demo_trace : list (nat * Action) :=
  [(0, ACheck); (0, ATry); (1, ACheck); (1, ATry); (1, AJoin); (2, ACheck); (2, AJoin)].

Lemma run_reachable k lim n steps s trace s' :
  reachable k lim n steps s -> run trace s = Some s' -> reachable k lim n (length trace + steps) s'.
Proof.
  revert steps s. induction trace as [|[c a] trace IH]; intros steps s Hr; cbn; [by intros [= <-]|].
  destruct (sys_step c a s) as [s1|] eqn:E; [|done]. intros H.
  rewrite <-Nat.add_succ_r. eapply IH; [|exact H]. by eapply reach_step.
Qed.

Lemma pool_no_leak_witness :
  exists s, run demo_trace (init demo_key 1 3) = Some s /\
    sum_with holds_slot (callers s) <= 1 /\ waiting (entry s) = 2.
Proof.
  destruct (run demo_trace (init demo_key 1 3)) as [s|] eqn:E; [|discriminate E].
  exists s. split; [reflexivity|].
  pose proof (run_reachable demo_key 1 3 0 _ _ s (reach_init _ _ _) E) as Hr.
  destruct (pool_no_leak demo_key 1 3 _ s Hr ltac:(vm_compute; reflexivity)) as (H1 & _ & _ & H4 & _).
  split; [exact H1|]. rewrite H4. injection E as <-. reflexivity.
Defined.

Lemma queue_positions_rank_witness :
  exists s, run demo_trace (init demo_key 1 3) = Some s /\
    exists p, rank (entry s) 1 = Some p /\ 1 <= position p <= of_total p /\ of_total p = 2.
Proof.
  destruct (run demo_trace (init demo_key 1 3)) as [s|] eqn:E; [|discriminate E].
  exists s. split; [reflexivity|].
  pose proof (run_reachable demo_key 1 3 0 _ _ s (reach_init _ _ _) E) as Hr.
  destruct (queue_positions_rank demo_key 1 3 _ s Hr ltac:(vm_compute; reflexivity)) as (H & _).
  injection E as <-.
  destruct (H 2 1%N {| position := 2; of_total := 2 |} eq_refl) as (p & Hp & Hle & Hof & _).
  exists p. split; [exact Hp|]. split; [exact Hle|exact Hof].
Defined.

Lemma entry_with_limit_sticky_witness :
  let '(e, pools') := entry_with_limit ∅ (lit "http://h/v1") (lit "m") 2 in
  entry_with_limit pools' (lit " http://h/v1/ ") (lit "m") 5 = (e, pools') /\ limit e = 2.
Proof.
  pose proof (entry_with_limit_sticky ∅ (lit "http://h/v1") (lit "m") 2 5 (lit " http://h/v1/ ") eq_refl) as H.
  destruct (entry_with_limit ∅ (lit "http://h/v1") (lit "m") 2) as [e pools'].
  split; [exact (proj1 H)|]. exact (proj1 (proj2 H eq_refl)).
Defined.
End witnesses.
