(* ===== verification/Notice.v ===== *)
(** * Steering notices ([src/orchestrator/notice.rs])

    The process-wide store of steering notices: the notices awaiting a reply,
    the per-target inboxes they are queued in, the recorded replies, and the
    operations that post, prune, drain, reclaim and resolve them.

    Every operation takes the clock readings it makes (epoch milliseconds) as
    arguments, in the order it makes them.  The order in which DashMap iterates
    over a table is the parameter [DashOrder]: some enumeration of the entries.
    Each function is one atomic step; the point between the lookup and the
    removal of a reply, where another task can run, is kept ([check_reply],
    [commit_reply]). *)

From stdpp Require Import pretty.
From S2P Require Import Prelude Str Regex TaskId Agents PlanParse.

(** ** Data *)

Record SteerNotice := {
  notice_id : str;
  user_inquiry : str;
  target_worker : str;
  created_at_ms : N
}.

#[export] Instance SteerNotice_eq_dec : EqDecision SteerNotice.
Proof. solve_decision. Defined.

Record SteerNoticeReply := {
  reply_notice_id : str;
  worker_tag : str;
  reply_message : str;
  replied_at_ms : N
}.

Record Inbox := { notices : list SteerNotice; last_touched_ms : N }.
Record StoredReply := { reply : SteerNoticeReply; reply_seq : N }.

Definition NOTICE_TTL_MS : N := 10 * 60 * 1000.
Definition INBOX_IDLE_TTL_MS : N := NOTICE_TTL_MS.
Definition INBOX_CAPACITY : nat := 64.
Definition MAX_INBOX_KEYS : nat := 256.
Definition REPLIED_NOTICES_CAP : nat := 64.
Definition LIFECYCLE_LOG_ID_SAMPLE : nat := 5.
Definition WARN_VERBOSITY : N := 5.
Definition WARN_EVERY : N := 10.

(** The lifecycle counters. *)
Record Counters := {
  expired_total : N; evicted_total : N; reclaimed_total : N;
  expiry_warn : N; overflow_warn : N; eviction_warn : N; reply_warn : N
}.

(** The statics of the module. *)
Record Store := {
  next_id : N;                     (* NEXT_NOTICE_ID *)
  pending : gmap str SteerNotice;  (* PENDING_NOTICES *)
  inboxes : gmap str Inbox;        (* WORKER_INBOXES *)
  replied : gmap str StoredReply;  (* REPLIED_NOTICES *)
  replied_seq : N;                 (* REPLIED_SEQ *)
  counters : Counters
}.

Definition zero_counters : Counters :=
  {| expired_total := 0; evicted_total := 0; reclaimed_total := 0;
     expiry_warn := 0; overflow_warn := 0; eviction_warn := 0; reply_warn := 0 |}.
Definition initial_store : Store :=
  {| next_id := 1; pending := ∅; inboxes := ∅; replied := ∅; replied_seq := 0;
     counters := zero_counters |}.

(** [fetch_add] on an [AtomicU64] wraps around. *)
Definition fetch_add (x n : N) : N := ((x + n) mod 2 ^ 64)%N.

(** Field updates. *)
Definition on_pending (f : gmap str SteerNotice -> gmap str SteerNotice) (s : Store) : Store :=
  {| next_id := next_id s; pending := f (pending s); inboxes := inboxes s;
     replied := replied s; replied_seq := replied_seq s; counters := counters s |}.
Definition on_inboxes (f : gmap str Inbox -> gmap str Inbox) (s : Store) : Store :=
  {| next_id := next_id s; pending := pending s; inboxes := f (inboxes s);
     replied := replied s; replied_seq := replied_seq s; counters := counters s |}.
Definition on_replied (f : gmap str StoredReply -> gmap str StoredReply) (s : Store) : Store :=
  {| next_id := next_id s; pending := pending s; inboxes := inboxes s;
     replied := f (replied s); replied_seq := replied_seq s; counters := counters s |}.
Definition on_counters (f : Counters -> Counters) (s : Store) : Store :=
  {| next_id := next_id s; pending := pending s; inboxes := inboxes s;
     replied := replied s; replied_seq := replied_seq s; counters := f (counters s) |}.
Definition set_next_id (n : N) (s : Store) : Store :=
  {| next_id := n; pending := pending s; inboxes := inboxes s;
     replied := replied s; replied_seq := replied_seq s; counters := counters s |}.
Definition bump_replied_seq (s : Store) : Store :=
  {| next_id := next_id s; pending := pending s; inboxes := inboxes s;
     replied := replied s; replied_seq := fetch_add (replied_seq s) 1; counters := counters s |}.

(** The counters each lifecycle class bumps: its total and, where it warns,
    its warning sequence ([warn_lifecycle]). *)
Definition count_expired (n : nat) (c : Counters) : Counters :=
  {| expired_total := fetch_add (expired_total c) (N.of_nat n); evicted_total := evicted_total c;
     reclaimed_total := reclaimed_total c; expiry_warn := fetch_add (expiry_warn c) 1;
     overflow_warn := overflow_warn c; eviction_warn := eviction_warn c; reply_warn := reply_warn c |}.
Definition count_overflow (n : nat) (c : Counters) : Counters :=
  {| expired_total := expired_total c; evicted_total := fetch_add (evicted_total c) (N.of_nat n);
     reclaimed_total := reclaimed_total c; expiry_warn := expiry_warn c;
     overflow_warn := fetch_add (overflow_warn c) 1; eviction_warn := eviction_warn c;
     reply_warn := reply_warn c |}.
Definition count_eviction (n : nat) (c : Counters) : Counters :=
  {| expired_total := expired_total c; evicted_total := fetch_add (evicted_total c) (N.of_nat n);
     reclaimed_total := reclaimed_total c; expiry_warn := expiry_warn c;
     overflow_warn := overflow_warn c; eviction_warn := fetch_add (eviction_warn c) 1;
     reply_warn := reply_warn c |}.
Definition count_reclaimed (c : Counters) : Counters :=
  {| expired_total := expired_total c; evicted_total := evicted_total c;
     reclaimed_total := fetch_add (reclaimed_total c) 1; expiry_warn := expiry_warn c;
     overflow_warn := overflow_warn c; eviction_warn := eviction_warn c; reply_warn := reply_warn c |}.
Definition count_reply_drop (c : Counters) : Counters :=
  {| expired_total := expired_total c; evicted_total := evicted_total c;
     reclaimed_total := reclaimed_total c; expiry_warn := expiry_warn c;
     overflow_warn := overflow_warn c; eviction_warn := eviction_warn c;
     reply_warn := fetch_add (reply_warn c) 1 |}.

(** [warn_lifecycle]: whether the occurrence is logged. *)
Definition warns (occurrence : N) : bool :=
  ((occurrence <? WARN_VERBOSITY) || (occurrence mod WARN_EVERY =? 0))%N.

(** ** The iteration order of a DashMap *)

Class DashOrder := {
  dash_iter : forall {A : Type}, gmap str A -> list (str * A);
  dash_iter_perm : forall {A : Type} (m : gmap str A), dash_iter m ≡ₚ map_to_list m
}.

(** One such order: the enumeration of the model's own tables. *)
Definition gmap_order : DashOrder := {|
  dash_iter A m := map_to_list m;
  dash_iter_perm A m := reflexivity (map_to_list m)
|}.

(** ** Ids and the clock *)

Definition seed_notice_id_floor (floor : N) (s : Store) : N * Store :=
  (next_id s, set_next_id (N.max (next_id s) (N.max floor 1)) s).
Definition notice_id_floor (s : Store) : N := next_id s.

(** [format!("notice-{id}")] *)
Definition spell_notice_id (id : N) : str := lit "notice-" ++ lit (pretty id).
Definition next_notice_id (s : Store) : str * Store :=
  (spell_notice_id (next_id s), set_next_id (fetch_add (next_id s) 1) s).

Definition i64_saturating_add (a b : Z) : Z := (Z.max (- 2 ^ 63) (Z.min (2 ^ 63 - 1) (a + b)))%Z.
(** [notice_now_ms] on a wall clock reading. *)
Definition notice_now_ms (wall_ms offset : Z) : N := Z.to_N (Z.max (i64_saturating_add wall_ms offset) 0).

(** [u64::saturating_sub] is the truncated subtraction of [N]. *)
Definition notice_age_ms (now : N) (n : SteerNotice) : N := (now - created_at_ms n)%N.
Definition is_notice_expired (now : N) (n : SteerNotice) : bool :=
  (NOTICE_TTL_MS <=? notice_age_ms now n)%N.

(** [notices.trim().to_ascii_lowercase()] *)
Definition inbox_key (worker_key : str) : str := to_ascii_lowercase (trim worker_key).

Definition worker_inbox_len (s : Store) (worker_key : str) : nat :=
  match inboxes s !! inbox_key worker_key with Some ib => length (notices ib) | None => 0 end.
Definition has_worker_inbox (s : Store) (worker_key : str) : bool :=
  match inboxes s !! inbox_key worker_key with Some _ => true | None => false end.
Definition peek_worker_inbox (s : Store) (worker_key : str) : list SteerNotice :=
  match inboxes s !! inbox_key worker_key with Some ib => notices ib | None => [] end.

(** [id_sample] *)
Definition id_sample (ids : list str) : str :=
  let join := fix join (l : list str) : str :=
    match l with [] => [] | [x] => x | x :: l' => x ++ lit ", " ++ join l' end in
  let head := join (take LIFECYCLE_LOG_ID_SAMPLE ids) in
  if LIFECYCLE_LOG_ID_SAMPLE <? length ids
  then head ++ lit " (+" ++ lit (pretty (N.of_nat (length ids - LIFECYCLE_LOG_ID_SAMPLE))) ++ lit " more)"
  else head.

(** ** Sorting *)

(** Byte-wise string order, which on UTF-8 is the order of the code points. *)
Fixpoint id_leb (a b : str) : bool :=
  match a, b with
  | [], _ => true
  | _, [] => false
  | c :: a', d :: b' => if (c <? d)%N then true else if (c =? d)%N then id_leb a' b' else false
  end.
(** [(stamp, key)] in lexicographic order. *)
Definition stamp_leb (a b : N * str) : bool :=
  if (fst a <? fst b)%N then true
  else if (fst a =? fst b)%N then id_leb (snd a) (snd b) else false.

(** [Vec::dedup] *)
Fixpoint dedup (l : list str) : list str :=
  match l with
  | x :: ((y :: _) as l') => if str_eqb x y then dedup l' else x :: dedup l'
  | _ => l
  end.

(** ** Pruning *)

Record NoticePruneReport := {
  expired_dropped : nat;
  expired_ids : list str;
  reclaimed_inboxes : nat;
  evicted_inbox_keys : nat;
  notices_dropped_by_key_eviction : nat
}.

Definition alive (now : N) (n : SteerNotice) : bool :=
  (now - created_at_ms n <? NOTICE_TTL_MS)%N.

(** [WORKER_INBOXES.remove_if(key, |_, inbox| inbox.notices.is_empty())], with
    the reclaim counter its callers bump on success. *)
Definition reclaim_if_empty (key : str) (s : Store) : bool * Store :=
  match inboxes s !! key with
  | Some ib =>
      if is_empty (notices ib)
      then (true, on_counters count_reclaimed (on_inboxes (delete key) s))
      else (false, s)
  | None => (false, s)
  end.

(** Step 1, for one key: the store, the expired ids and the reclaimed inboxes. *)
Definition prune_inbox (now : N) (acc : Store * list str * nat) (key : str)
    : Store * list str * nat :=
  let '(s, expired, reclaimed) := acc in
  match inboxes s !! key with
  | None => (s, expired, reclaimed)
  | Some ib =>
      let expired_here := map notice_id (List.filter (fun n => negb (alive now n)) (notices ib)) in
      let kept := List.filter (alive now) (notices ib) in
      let s1 := on_inboxes <[key := {| notices := kept; last_touched_ms := last_touched_ms ib |}]> s in
      let now_empty := is_empty kept in
      let idle := (INBOX_IDLE_TTL_MS <=? now - last_touched_ms ib)%N in
      if now_empty && (negb (is_empty expired_here) || idle)
      then let '(removed, s2) := reclaim_if_empty key s1 in
           (s2, expired ++ expired_here, if removed then S reclaimed else reclaimed)
      else (s1, expired ++ expired_here, reclaimed)
  end.

Section iteration.
Context `{DashOrder}.

Definition prune_inboxes (now : N) (s : Store) : Store * list str * nat :=
  fold_left (prune_inbox now) (map fst (dash_iter (inboxes s))) (s, [], 0).

(** Step 2: the pending notices past their lifetime. *)
Definition expired_pending (now : N) (s : Store) : list str :=
  map fst (List.filter (fun e => is_notice_expired now (snd e)) (dash_iter (pending s))).
Definition remove_pending (ids : list str) (s : Store) : Store :=
  fold_left (fun s id => on_pending (delete id) s) ids s.

Definition report_expired (ids : list str) (s : Store) : Store :=
  if is_empty ids then s else on_counters (count_expired (length ids)) s.

(** Step 3: the table bound.  [evict_inbox] removes one target and the pending
    entries of the notices queued for it. *)
Definition evict_inbox (acc : Store * nat * list str) (key : str) : Store * nat * list str :=
  let '(s, keys, ids) := acc in
  match inboxes s !! key with
  | Some ib =>
      let here := map notice_id (notices ib) in
      (remove_pending here (on_inboxes (delete key) s), S keys, ids ++ here)
  | None => acc
  end.
Definition stalest_first (s : Store) : list str :=
  map snd (sort_with stamp_leb
    (map (fun e => (last_touched_ms (snd e), fst e)) (dash_iter (inboxes s)))).
Definition bound_inboxes (s : Store) : Store * nat * list str :=
  if MAX_INBOX_KEYS <? size (inboxes s) then
    let over := size (inboxes s) - MAX_INBOX_KEYS in
    let '(s', keys, ids) := fold_left evict_inbox (take over (stalest_first s)) (s, 0, []) in
    (if is_empty ids then s' else on_counters (count_eviction (length ids)) s', keys, ids)
  else (s, 0, []).

Definition prune_notice_storage (now : N) (s : Store) : NoticePruneReport * Store :=
  let '(s1, expired_queued, reclaimed) := prune_inboxes now s in
  let expired_pend := expired_pending now s1 in
  let s2 := remove_pending expired_pend s1 in
  let ids := dedup (sort_with id_leb (expired_queued ++ expired_pend)) in
  let s3 := report_expired ids s2 in
  let '(s4, keys, evicted) := bound_inboxes s3 in
  ({| expired_dropped := length ids; expired_ids := ids; reclaimed_inboxes := reclaimed;
      evicted_inbox_keys := keys; notices_dropped_by_key_eviction := length evicted |}, s4).

Definition prune_expired_notices (now : N) (s : Store) : NoticePruneReport * Store :=
  prune_notice_storage now s.

(** ** Posting *)

Record NoticePostOutcome := {
  post_notice : SteerNotice;
  evicted_older : list SteerNotice;
  post_prune : NoticePruneReport
}.

(** [while inbox.notices.len() > INBOX_CAPACITY { evicted.push(inbox.notices.remove(0)) }] *)
Definition drop_oldest (l : list SteerNotice) : list SteerNotice * list SteerNotice :=
  (take (length l - INBOX_CAPACITY) l, drop (length l - INBOX_CAPACITY) l).

(** The queueing of a built notice. *)
Definition enqueue (now : N) (n : SteerNotice) (s : Store) : list SteerNotice * Store :=
  let key := target_worker n in
  let queue := match inboxes s !! key with Some ib => notices ib | None => [] end in
  let '(evicted, kept) := drop_oldest (queue ++ [n]) in
  let s1 := on_inboxes <[key := {| notices := kept; last_touched_ms := now |}]> s in
  (evicted,
   if is_empty evicted then s1
   else on_counters (count_overflow (length evicted)) (remove_pending (map notice_id evicted) s1)).

Definition post_notice_to_worker_tracked (now_prune now : N) (target inquiry : str)
    (notice_id_override : option str) (s : Store) : NoticePostOutcome * Store :=
  let '(prune, s1) := prune_notice_storage now_prune s in
  let '(id, s2) := match notice_id_override with
                   | Some id => (id, s1)
                   | None => next_notice_id s1
                   end in
  let n := {| notice_id := id; user_inquiry := inquiry;
              target_worker := inbox_key target; created_at_ms := now |} in
  let '(evicted, s3) := enqueue now n (on_pending <[id := n]> s2) in
  ({| post_notice := n; evicted_older := evicted; post_prune := prune |}, s3).

Definition post_notice_to_worker (now_prune now : N) (target inquiry : str)
    (notice_id_override : option str) (s : Store) : SteerNotice * Store :=
  let '(o, s') := post_notice_to_worker_tracked now_prune now target inquiry notice_id_override s in
  (post_notice o, s').

End iteration.

(** ** Routing *)

Definition WORKER_KEY_DISAMBIGUATOR : char := ch "#".
Definition WORKER_KEY_SEGMENT : char := ch "-".
Definition BROADCAST_TARGETS : list str := [lit "*"; lit "worker"].

Record WorkerRoutingIdentity := {
  effective_key : str;
  natural_key : str;
  agent_name : str;
  identity_task : option str
}.

(** [rfind(c)]: the text before and after the last [c]. *)
Fixpoint rfind_split (c : char) (s : str) : option (str * str) :=
  match s with
  | [] => None
  | d :: s' => match rfind_split c s' with
               | Some (a, b) => Some (d :: a, b)
               | None => if (d =? c)%N then Some ([], s') else None
               end
  end.

Section routing.
Context `{Unicode}.

(** The scan over [char_indices]: [before] is the text up to the cursor. *)
Fixpoint split_task (before rest : str) : option (str * str) :=
  match rest with
  | [] => None
  | c :: tail =>
      if (c =? WORKER_KEY_SEGMENT)%N && negb (is_empty before) && is_task_id_token tail
      then Some (before, tail)
      else split_task (before ++ [c]) tail
  end.

Definition is_synthetic_worker_id (tail : str) : bool :=
  match strip_prefix (lit "w") tail with
  | Some digits => negb (is_empty digits) && forallb is_ascii_digit digits
  | None => false
  end.

Definition split_natural_key (key : str) : str * option str :=
  match split_task [] key with
  | Some (agent, task) => (agent, Some task)
  | None =>
      match rfind_split WORKER_KEY_SEGMENT key with
      | Some (agent, tail) =>
          if negb (is_empty agent) && is_synthetic_worker_id tail then (agent, None) else (key, None)
      | None => (key, None)
      end
  end.

Definition worker_routing_identity (worker_key : str) : WorkerRoutingIdentity :=
  let effective := inbox_key worker_key in
  let natural := match find_split [WORKER_KEY_DISAMBIGUATOR] effective with
                 | Some (a, _) => a
                 | None => effective
                 end in
  let '(agent, task) := split_natural_key natural in
  {| effective_key := effective; natural_key := natural; agent_name := agent; identity_task := task |}.

Definition routes (w : WorkerRoutingIdentity) (target : str) : bool :=
  let target := to_ascii_lowercase (normalize_task_id_ref target) in
  if is_empty target then false
  else if existsb (str_eqb target) BROADCAST_TARGETS then true
  else if str_eqb target (effective_key w) || str_eqb target (natural_key w) then true
  else if str_eqb target (agent_name w)
          || starts_with (target ++ [WORKER_KEY_SEGMENT]) (agent_name w) then true
  else match identity_task w with Some tid => task_id_eq tid target | None => false end.

Definition notice_addresses_worker (n : SteerNotice) (worker_key : str) : bool :=
  if routes (worker_routing_identity worker_key) (target_worker n) then true
  else routes (worker_routing_identity (target_worker n)) worker_key.

(** ** Draining and reclaiming *)

Record NoticeDrainOutcome := {
  delivered : list SteerNotice;
  drain_expired_dropped : nat;
  drain_expired_ids : list str;
  drain_reclaimed : nat
}.

(** Taking one matched inbox. *)
Definition take_inbox (acc : Store * list SteerNotice * nat) (key : str)
    : Store * list SteerNotice * nat :=
  let '(s, out, reclaimed) := acc in
  match inboxes s !! key with
  | Some ib =>
      let s1 := on_inboxes (delete key) s in
      if is_empty (notices ib)
      then (on_counters count_reclaimed s1, out, S reclaimed)
      else (s1, out ++ notices ib, reclaimed)
  | None => acc
  end.

Definition created_leb (a b : SteerNotice) : bool := (created_at_ms a <=? created_at_ms b)%N.

Record InboxReclaimReport := { entries_removed : nat; retained_queued_notices : nat }.

Definition reclaim_entry (acc : Store * InboxReclaimReport) (e : str * nat)
    : Store * InboxReclaimReport :=
  let '(s, r) := acc in
  let '(key, queued) := e in
  if 0 <? queued
  then (s, {| entries_removed := entries_removed r;
              retained_queued_notices := retained_queued_notices r + queued |})
  else let '(removed, s') := reclaim_if_empty key s in
       (s', if removed then {| entries_removed := S (entries_removed r);
                               retained_queued_notices := retained_queued_notices r |} else r).

(** ** Replies *)

Inductive NoticeReplyRejection :=
  | MissingNoticeId
  | UnknownNoticeId (id tag : str)
  | AlreadyReplied (id tag : str)
  | WorkerMismatch (id tag addressed_to : str).

Definition kind (r : NoticeReplyRejection) : str :=
  match r with
  | MissingNoticeId => lit "missing-notice-id"
  | UnknownNoticeId _ _ => lit "unknown-notice-id"
  | AlreadyReplied _ _ => lit "already-replied"
  | WorkerMismatch _ _ _ => lit "worker-mismatch"
  end.

Definition get_pending_notice (s : Store) (id : str) : option SteerNotice := pending s !! id.
Definition get_pending_notice_for_worker (s : Store) (id worker_key : str) : option SteerNotice :=
  match pending s !! id with
  | Some n => if notice_addresses_worker n worker_key then Some n else None
  | None => None
  end.
Definition get_worker_reply (s : Store) (id : str) : option SteerNoticeReply := reply <$> replied s !! id.

(** The guards of a reply, on trimmed arguments. *)
Definition check_reply (s : Store) (tag id : str) : SteerNotice + NoticeReplyRejection :=
  if is_empty id then inr MissingNoticeId
  else match pending s !! id with
       | None => match replied s !! id with
                 | Some _ => inr (AlreadyReplied id tag)
                 | None => inr (UnknownNoticeId id tag)
                 end
       | Some n => if notice_addresses_worker n tag then inl n
                   else inr (WorkerMismatch id tag (target_worker n))
       end.

Section iteration.
Context `{DashOrder}.

Definition matched_keys (w : WorkerRoutingIdentity) (s : Store) : list str :=
  List.filter (routes w) (map fst (dash_iter (inboxes s))).

Definition drain_worker_notices_report (now : N) (worker_key : str) (s : Store)
    : NoticeDrainOutcome * Store :=
  let '(prune, s1) := prune_notice_storage now s in
  let w := worker_routing_identity worker_key in
  let '(s2, out, reclaimed) :=
    fold_left take_inbox (matched_keys w s1) (s1, [], reclaimed_inboxes prune) in
  ({| delivered := sort_with created_leb out; drain_expired_dropped := expired_dropped prune;
      drain_expired_ids := expired_ids prune; drain_reclaimed := reclaimed |}, s2).

Definition drain_worker_notices (now : N) (worker_key : str) (s : Store)
    : list SteerNotice * Store :=
  let '(o, s') := drain_worker_notices_report now worker_key s in (delivered o, s').
Definition drain_worker_notices_mid_turn (now : N) (worker_key : str) (s : Store)
    : list SteerNotice * Store :=
  let '(o, s') := drain_worker_notices_report now worker_key s in (delivered o, s').

Definition reclaim_worker_inbox (worker_key : str) (s : Store) : InboxReclaimReport * Store :=
  let w := worker_routing_identity worker_key in
  let keys := map (fun e => (fst e, length (notices (snd e))))
                (List.filter (fun e => routes w (fst e)) (dash_iter (inboxes s))) in
  let '(s', r) := fold_left reclaim_entry keys
                    (s, {| entries_removed := 0; retained_queued_notices := 0 |}) in
  (r, s').

(** [clock key] is the clock reading made while [key]'s inbox is rewritten. *)
Definition drop_copies_in (clock : str -> N) (id : str) (s : Store) (key : str) : Store :=
  match inboxes s !! key with
  | Some ib =>
      let kept := List.filter (fun n => negb (str_eqb (notice_id n) id)) (notices ib) in
      let touched := if length (notices ib) =? length kept then last_touched_ms ib else clock key in
      on_inboxes <[key := {| notices := kept; last_touched_ms := touched |}]> s
  | None => s
  end.
Definition drop_queued_notice_copies (clock : str -> N) (id : str) (s : Store) : Store :=
  let keys := map fst (List.filter
                (fun e => existsb (fun n => str_eqb (notice_id n) id) (notices (snd e)))
                (dash_iter (inboxes s))) in
  fold_left (drop_copies_in clock id) keys s.

Definition oldest_replies (s : Store) : list str :=
  map snd (sort_with stamp_leb
    (map (fun e => (reply_seq (snd e), fst e)) (dash_iter (replied s)))).
Definition bound_replies (s : Store) : Store :=
  if REPLIED_NOTICES_CAP <? size (replied s) then
    let over := size (replied s) - REPLIED_NOTICES_CAP in
    on_counters count_reply_drop
      (fold_left (fun s id => on_replied (delete id) s) (take over (oldest_replies s)) s)
  else s.

(** The atomic removal of the named notice and the recording of the reply. *)
Definition commit_reply (clock : str -> N) (now : N) (tag id message : str) (s : Store)
    : (SteerNotice + NoticeReplyRejection) * Store :=
  match pending s !! id with
  | Some n =>
      if str_eqb (notice_id n) id then
        let s1 := on_pending (delete id) s in
        let s2 := drop_queued_notice_copies clock (notice_id n) s1 in
        let stored := {| reply := {| reply_notice_id := notice_id n; worker_tag := tag;
                                     reply_message := message; replied_at_ms := now |};
                         reply_seq := replied_seq s2 |} in
        let s3 := on_replied <[notice_id n := stored]> (bump_replied_seq s2) in
        (inl n, bound_replies s3)
      else (inr (UnknownNoticeId id tag), s)
  | None => (inr (UnknownNoticeId id tag), s)
  end.

Definition record_worker_reply_for_notice (clock : str -> N) (now : N) (tag id message : str)
    (s : Store) : (SteerNotice + NoticeReplyRejection) * Store :=
  let tag := trim tag in
  let id := trim id in
  match check_reply s tag id with
  | inr r => (inr r, s)
  | inl _ => commit_reply clock now tag id message s
  end.

End iteration.
End routing.

Definition clear_all_notices (s : Store) : Store :=
  {| next_id := next_id s; pending := ∅; inboxes := ∅; replied := ∅;
     replied_seq := replied_seq s; counters := zero_counters |}.

Record NoticeLifecycleStats := {
  pending_notices : nat; inbox_keys : nat; queued_notices : nat; recorded_replies : nat;
  expired_dropped_total : N; capacity_evicted_total : N; inboxes_reclaimed_total : N
}.
Definition notice_lifecycle_stats (s : Store) : NoticeLifecycleStats :=
  {| pending_notices := size (pending s); inbox_keys := size (inboxes s);
     queued_notices := sum_with (fun e => length (notices (snd e))) (map_to_list (inboxes s));
     recorded_replies := size (replied s);
     expired_dropped_total := expired_total (counters s);
     capacity_evicted_total := evicted_total (counters s);
     inboxes_reclaimed_total := reclaimed_total (counters s) |}.

(** [render_notice_for_worker]; 8212 is the em dash. *)
Definition render_notice_for_worker (n : SteerNotice) : str :=
  lit "[Steering Notice from Arbitrator " ++ [8212%N] ++ lit " ID: " ++ notice_id n ++ lit "]:" ++
  [NL; 34%N] ++ user_inquiry n ++ [34%N; NL; NL] ++
  lit "To reply to the Arbitrator regarding this notice, invoke the `reply_to_arbitrator` tool with `notice_id: " ++
  [34%N] ++ notice_id n ++ [34%N] ++ lit "` and your `message`." ++ [NL] ++
  lit "Reply to this notice id only " ++ [8212%N] ++ lit " a reply naming another id, or no id, is rejected.".
