(* ===== verification/NoticeFacts.v ===== *)
(** * Steering notices: what the store promises

    Conservation (no notice disappears unreported), the bounds of the tables,
    the agreement of the pending table with the queues, exact routing, and the
    resolution of replies. *)

From S2P Require Import Prelude Str Regex TaskId Agents PlanParse Notice.

(** ** Specification vocabulary *)

(** All the queued notices. *)
Definition queued (m : gmap str Inbox) : list SteerNotice :=
  map_to_list m ≫= (fun e => notices (snd e)).

(** The queues of [m'] are parts of the queues of [m]. *)
Definition shrinks (m m' : gmap str Inbox) : Prop :=
  forall k ib', m' !! k = Some ib' ->
  exists ib, m !! k = Some ib /\ notices ib' `sublist_of` notices ib.

(** The pending table and the queues agree: entries are filed under their id
    and their target, a queue is within its capacity and names no id twice, and
    every queued notice is pending. *)
Record coherent (p : gmap str SteerNotice) (m : gmap str Inbox) : Prop := {
  coherent_id : forall id n, p !! id = Some n -> notice_id n = id;
  coherent_inbox : forall k ib, m !! k = Some ib ->
    length (notices ib) <= INBOX_CAPACITY /\
    Forall (fun n => target_worker n = k) (notices ib) /\
    NoDup (map notice_id (notices ib));
  coherent_live : forall k ib n, m !! k = Some ib -> n ∈ notices ib -> p !! notice_id n = Some n
}.

(** The recorded replies and their sequence. *)
Definition ring (s : Store) : gmap str StoredReply * N := (replied s, replied_seq s).

(** ** Queues *)

Lemma queued_delete m k ib :
  m !! k = Some ib -> queued m ≡ₚ notices ib ++ queued (delete k m).
Proof. intros Hk. unfold queued. by rewrite <-(map_to_list_delete m k ib Hk). Qed.

Lemma queued_insert m k ib : queued (<[k := ib]> m) ≡ₚ notices ib ++ queued (delete k m).
Proof.
  unfold queued. rewrite <-insert_delete_eq, map_to_list_insert by apply lookup_delete_eq. done.
Qed.

Lemma elem_of_queued m n : n ∈ queued m <-> exists k ib, m !! k = Some ib /\ n ∈ notices ib.
Proof.
  unfold queued. rewrite list_elem_of_bind. split.
  - intros ([k ib] & Hn & Hk%elem_of_map_to_list). eauto.
  - intros (k & ib & Hk & Hn). exists (k, ib). by rewrite elem_of_map_to_list.
Qed.

Lemma shrinks_refl m : shrinks m m.
Proof. intros k ib Hk. by exists ib. Qed.

Lemma shrinks_trans m1 m2 m3 : shrinks m1 m2 -> shrinks m2 m3 -> shrinks m1 m3.
Proof.
  intros H12 H23 k ib3 (ib2 & (ib1 & ? & Hs1)%H12 & Hs2)%H23. exists ib1.
  split; [done|]. by transitivity (notices ib2).
Qed.

Lemma shrinks_delete m k : shrinks m (delete k m).
Proof. intros k' ib [_ Hk']%lookup_delete_Some. by exists ib. Qed.

Lemma shrinks_insert m k ib ib' :
  m !! k = Some ib -> notices ib' `sublist_of` notices ib -> shrinks m (<[k := ib']> m).
Proof.
  intros Hk Hs k' ib2 [[<- <-]|[_ Hk']]%lookup_insert_Some; [by exists ib|by exists ib2].
Qed.

Lemma shrinks_size m m' : shrinks m m' -> size m' <= size m.
Proof.
  intros Hs. rewrite <-!size_dom. apply subseteq_size. intros k [ib' Hk]%elem_of_dom.
  destruct (Hs _ _ Hk) as (ib & Hk' & _). apply elem_of_dom. by exists ib.
Qed.

Lemma filter_split_perm (f : SteerNotice -> bool) l :
  l ≡ₚ List.filter (fun x => negb (f x)) l ++ List.filter f l.
Proof.
  induction l as [|x l IH]; simpl; [done|]. destruct (f x); simpl.
  - rewrite <-Permutation_middle. by f_equiv.
  - by f_equiv.
Qed.

Lemma map_sublist {A B} (f : A -> B) (l k : list A) : l `sublist_of` k -> map f l `sublist_of` map f k.
Proof. induction 1; simpl; by constructor. Qed.

(** Removing notices keeps the tables coherent as long as what stays queued
    stays pending. *)
Lemma coherent_shrink p m p' m' :
  coherent p m -> shrinks m m' -> p' ⊆ p ->
  (forall n, n ∈ queued m' -> is_Some (p' !! notice_id n)) -> coherent p' m'.
Proof.
  intros [Hid Hib Hlive] Hs Hp Hq. split.
  - intros id n Hn. apply Hid. by eapply lookup_weaken.
  - intros k ib' (ib & Hk & Hsub)%Hs. destruct (Hib k ib Hk) as (Hlen & Ht & Hnd).
    split_and!.
    + apply sublist_length in Hsub. lia.
    + eapply Forall_sublist; eauto.
    + eapply sublist_NoDup; [|by apply map_sublist]; done.
  - intros k ib' n Hk' Hn. destruct (Hs _ _ Hk') as (ib & Hk & Hsub).
    pose proof (sublist_subseteq _ _ Hsub _ Hn) as Hn0. specialize (Hlive _ _ _ Hk Hn0).
    destruct (Hq n) as [n' Hn']; [apply elem_of_queued; eauto|].
    pose proof (lookup_weaken _ _ _ _ Hn' Hp) as Hn''. congruence.
Qed.

(** ** Pruning *)

Lemma alive_expired now n : alive now n = negb (is_notice_expired now n).
Proof. unfold alive, is_notice_expired, notice_age_ms. lia. Qed.

Lemma remove_pending_spec ids s :
  remove_pending ids s = on_pending (fun p => foldr delete p (rev ids)) s.
Proof.
  unfold remove_pending. revert s. induction ids as [|id ids IH]; intros s; simpl; [by destruct s|].
  rewrite IH. unfold on_pending; simpl. f_equal. by rewrite foldr_app.
Qed.

Lemma lookup_foldr_delete {A} (p : gmap str A) ids id :
  foldr delete p ids !! id = if decide (id ∈ ids) then None else p !! id.
Proof.
  induction ids as [|x ids IH]; cbn [foldr].
  { case_decide as H; [by apply not_elem_of_nil in H|done]. }
  destruct (decide (id = x)) as [->|Hne].
  - rewrite lookup_delete_eq. clear IH. case_decide as H; [done|]. destruct H. apply elem_of_cons. by left.
  - rewrite lookup_delete_ne, IH by done. apply decide_ext. rewrite elem_of_cons. naive_solver.
Qed.

Lemma pending_remove ids s id :
  pending (remove_pending ids s) !! id = if decide (id ∈ ids) then None else pending s !! id.
Proof.
  rewrite remove_pending_spec. simpl. rewrite lookup_foldr_delete.
  apply decide_ext. rewrite !list_elem_of_In. symmetry. apply in_rev.
Qed.

Lemma pending_remove_subseteq ids s : pending (remove_pending ids s) ⊆ pending s.
Proof.
  apply map_subseteq_spec. intros id n. rewrite pending_remove. by case_decide.
Qed.

Lemma inboxes_remove ids s : inboxes (remove_pending ids s) = inboxes s.
Proof. by rewrite remove_pending_spec. Qed.

(** What one key's pass over its inbox does: [gone] are the notices dropped. *)
Definition prune_rel (now : N) (keys : list str) (a b : Store * list str * nat) : Prop :=
  let '(s, ids, _) := a in
  let '(s', ids', _) := b in
  pending s' = pending s /\ ring s' = ring s /\ next_id s' = next_id s /\
  shrinks (inboxes s) (inboxes s') /\
  (forall k ib, k ∈ keys -> inboxes s' !! k = Some ib -> Forall (fun n => alive now n = true) (notices ib)) /\
  exists gone, queued (inboxes s) ≡ₚ gone ++ queued (inboxes s') /\
    Forall (fun n => is_notice_expired now n = true) gone /\ ids' = ids ++ map notice_id gone.

Lemma filter_Forall (f : SteerNotice -> bool) l : Forall (fun n => f n = true) (List.filter f l).
Proof. induction l as [|x l IH]; simpl; [constructor|]. destruct (f x) eqn:E; auto. Qed.

Lemma prune_inbox_rel now key a : prune_rel now [key] a (prune_inbox now a key).
Proof.
  destruct a as [[s ids] rec]. unfold prune_inbox. destruct (inboxes s !! key) as [ib|] eqn:Hk.
  2:{ split_and!; try done; [apply shrinks_refl| |exists []].
      - intros k ib ->%list_elem_of_singleton ?. congruence.
      - by rewrite app_nil_r. }
  set (gone := List.filter (fun n => negb (alive now n)) (notices ib)).
  set (kept := List.filter (alive now) (notices ib)).
  assert (Hgone : Forall (fun n => is_notice_expired now n = true) gone).
  { eapply Forall_impl; [apply filter_Forall|]. intros n. simpl. rewrite alive_expired.
    by rewrite negb_involutive. }
  assert (Hq : queued (inboxes s) ≡ₚ gone ++ kept ++ queued (delete key (inboxes s))).
  { rewrite (queued_delete _ _ _ Hk), app_assoc. f_equiv. apply filter_split_perm. }
  destruct (is_empty kept && _) eqn:E; simpl.
  - apply andb_true_iff in E as [Hempty _]. unfold reclaim_if_empty. simpl.
    rewrite lookup_insert_eq. simpl. rewrite Hempty. simpl.
    rewrite delete_insert_eq. split_and!; try done; [apply shrinks_delete| |].
    + intros k ib' ->%list_elem_of_singleton. by rewrite lookup_delete_eq.
    + exists gone. split_and!; [|done|done]. by destruct kept.
  - split_and!; try done; [by apply (shrinks_insert _ _ ib); [|apply filter_sublist]| |].
    + intros k ib' ->%list_elem_of_singleton. rewrite lookup_insert_eq. intros [= <-].
      apply filter_Forall.
    + exists gone. split_and!; [|done|done]. by rewrite queued_insert.
Qed.

Lemma prune_rel_trans now keys key a b c :
  prune_rel now keys a b -> prune_rel now [key] b c -> prune_rel now (keys ++ [key]) a c.
Proof.
  destruct a as [[s1 i1] r1], b as [[s2 i2] r2], c as [[s3 i3] r3].
  intros (Hp & Hr & Hn & Hs & Hal & gone & Hq & Hg & ->) (Hp' & Hr' & Hn' & Hs' & Hal' & gone' & Hq' & Hg' & ->).
  split_and!; try congruence; [by eapply shrinks_trans| |].
  - intros k ib [Hk|Hk]%elem_of_app Hib; [|by eapply Hal'].
    destruct (Hs' _ _ Hib) as (ib2 & Hib2 & Hsub). eapply Forall_sublist; [done|]. by eapply Hal.
  - exists (gone ++ gone'). rewrite map_app, Forall_app, <-!app_assoc. split_and!; try done.
    by rewrite Hq, Hq'.
Qed.

Lemma prune_rel_refl now a : prune_rel now [] a a.
Proof.
  destruct a as [[s ids] rec]. split_and!; try done; [apply shrinks_refl| |].
  - intros k ib Hk. by apply not_elem_of_nil in Hk.
  - exists []. by rewrite app_nil_r.
Qed.

Lemma prune_fold_rel now keys a : prune_rel now keys a (fold_left (prune_inbox now) keys a).
Proof.
  induction keys as [|key keys IH] using rev_ind; [apply prune_rel_refl|].
  rewrite fold_left_app. simpl. eapply prune_rel_trans; [done|apply prune_inbox_rel].
Qed.

Section order.
Context `{DashOrder}.

Lemma dash_keys {A} (m : gmap str A) k : k ∈ map fst (dash_iter m) <-> is_Some (m !! k).
Proof.
  rewrite dash_iter_perm, list_elem_of_fmap. split.
  - intros ([k' x] & -> & Hx%elem_of_map_to_list). by exists x.
  - intros [x Hx]. exists (k, x). by rewrite elem_of_map_to_list.
Qed.

(** Sorting a table's keys by any stamp enumerates the keys. *)
Lemma stamped_keys_perm {A} (stamp : A -> N) (m : gmap str A) :
  map snd (sort_with stamp_leb (map (fun e => (stamp (snd e), fst e)) (dash_iter m)))
  ≡ₚ map fst (map_to_list m).
Proof. rewrite sort_with_perm, map_map. simpl. by rewrite dash_iter_perm. Qed.

Lemma stamped_keys_NoDup {A} (stamp : A -> N) (m : gmap str A) n :
  NoDup (take n (map snd (sort_with stamp_leb (map (fun e => (stamp (snd e), fst e)) (dash_iter m))))).
Proof.
  eapply sublist_NoDup; [|apply sublist_take]. rewrite stamped_keys_perm. apply NoDup_fst_map_to_list.
Qed.

Lemma stamped_keys_length {A} (stamp : A -> N) (m : gmap str A) :
  length (map snd (sort_with stamp_leb (map (fun e => (stamp (snd e), fst e)) (dash_iter m)))) = size m.
Proof. by rewrite stamped_keys_perm, length_map, length_map_to_list. Qed.

Lemma stamped_keys_dom {A} (stamp : A -> N) (m : gmap str A) n k :
  k ∈ take n (map snd (sort_with stamp_leb (map (fun e => (stamp (snd e), fst e)) (dash_iter m)))) ->
  is_Some (m !! k).
Proof.
  intros Hk%(sublist_subseteq _ _ (sublist_take _ _)). rewrite stamped_keys_perm in Hk.
  rewrite <-dash_iter_perm in Hk. by apply dash_keys.
Qed.

(** Removing distinct present keys shrinks a table by their number. *)
Lemma size_foldr_delete {A} (m : gmap str A) ks :
  NoDup ks -> (forall k, k ∈ ks -> is_Some (m !! k)) -> size (foldr delete m ks) + length ks = size m.
Proof.
  induction 1 as [|k ks Hk Hnd IH]; intros Hin; simpl; [lia|].
  destruct (Hin k) as [x Hx]; [by left|].
  assert (is_Some (foldr delete m ks !! k)) as [y Hy].
  { rewrite lookup_foldr_delete. case_decide; [done|]. by exists x. }
  assert (Hd : size (delete k (foldr delete m ks)) = pred (size (foldr delete m ks))).
  { rewrite map_size_delete, Hy. simpl. lia. }
  assert (size (foldr delete m ks) <> 0).
  { intros H0%map_size_empty_iff. by rewrite H0 in Hy. }
  rewrite <-IH by (intros; apply Hin; by right). rewrite Hd. lia.
Qed.

(** What evicting [keys] does: [gone] are the notices dropped with them. *)
Definition evict_rel (keys : list str) (a b : Store * nat * list str) : Prop :=
  let '(s, _, ids) := a in
  let '(s', _, ids') := b in
  ring s' = ring s /\ next_id s' = next_id s /\
  inboxes s' = foldr delete (inboxes s) (rev keys) /\
  exists gone, queued (inboxes s) ≡ₚ gone ++ queued (inboxes s') /\
    ids' = ids ++ map notice_id gone /\
    (forall id, pending s' !! id = if decide (id ∈ map notice_id gone) then None else pending s !! id) /\
    (forall n, n ∈ gone -> exists k ib, k ∈ keys /\ inboxes s !! k = Some ib /\ n ∈ notices ib).

Lemma evict_inbox_rel key a : evict_rel [key] a (evict_inbox a key).
Proof.
  destruct a as [[s ks] ids]. unfold evict_inbox. destruct (inboxes s !! key) as [ib|] eqn:Hk.
  - rewrite remove_pending_spec. simpl. split_and!; try done. exists (notices ib).
    split_and!; [by apply queued_delete|done| |].
    + intros id. rewrite <-pending_remove, remove_pending_spec. done.
    + intros n Hn. exists key, ib. by rewrite list_elem_of_singleton.
  - split_and!; try done; [by simpl; rewrite delete_id|]. exists [].
    split_and!; [done|by rewrite app_nil_r| |by intros n ?%not_elem_of_nil].
    intros id. case_decide as Hid; [by apply not_elem_of_nil in Hid|done].
Qed.

Lemma evict_rel_trans keys key a b c :
  evict_rel keys a b -> evict_rel [key] b c -> evict_rel (keys ++ [key]) a c.
Proof.
  destruct a as [[s1 k1] i1], b as [[s2 k2] i2], c as [[s3 k3] i3].
  intros (Hr & Hn & Hi & gone & Hq & -> & Hp & Hg) (Hr' & Hn' & Hi' & gone' & Hq' & -> & Hp' & Hg').
  split_and!; try congruence; [by rewrite rev_app_distr, Hi', Hi|].
  exists (gone ++ gone'). split_and!.
  - by rewrite Hq, Hq', app_assoc.
  - by rewrite map_app, app_assoc.
  - intros id. rewrite Hp', Hp, map_app.
    pose proof (elem_of_app (map notice_id gone) (map notice_id gone') id).
    repeat case_decide; naive_solver.
  - intros n [(k & ib & Hk & Hib & Hin)%Hg|(k & ib & Hk & Hib & Hin)%Hg']%elem_of_app.
    + exists k, ib. rewrite elem_of_app. auto.
    + rewrite Hi, lookup_foldr_delete in Hib. case_decide; [done|].
      exists k, ib. rewrite elem_of_app. auto.
Qed.

Lemma evict_fold_rel keys a : evict_rel keys a (fold_left evict_inbox keys a).
Proof.
  induction keys as [|key keys IH] using rev_ind.
  - destruct a as [[s ks] ids]. split_and!; try done. exists [].
    split_and!; [done|by rewrite app_nil_r| |by intros n ?%not_elem_of_nil].
    intros id. case_decide as Hid; [by apply not_elem_of_nil in Hid|done].
  - rewrite fold_left_app. simpl. eapply evict_rel_trans; [done|apply evict_inbox_rel].
Qed.

(** A pending notice that is past its lifetime is no longer pending. *)
Definition still_alive (now : N) (o : option SteerNotice) : option SteerNotice :=
  match o with Some n => if is_notice_expired now n then None else Some n | None => None end.

(** What a prune does: the notices it drops, why, and what is left. *)
Record prune_effect (now : N) (s : Store) (r : NoticePruneReport) (s' : Store)
    (expired evicted : list SteerNotice) : Prop := {
  pe_replied : ring s' = ring s;
  pe_next_id : next_id s' = next_id s;
  pe_shrinks : shrinks (inboxes s) (inboxes s');
  pe_size : size (inboxes s') <= MAX_INBOX_KEYS;
  pe_queued : queued (inboxes s) ≡ₚ expired ++ evicted ++ queued (inboxes s');
  pe_expired : Forall (fun n => is_notice_expired now n = true) expired;
  pe_alive : Forall (fun n => alive now n = true) (evicted ++ queued (inboxes s'));
  pe_ids : forall n, n ∈ expired -> notice_id n ∈ expired_ids r;
  pe_count : length evicted = notices_dropped_by_key_eviction r;
  pe_pending : forall id, pending s' !! id =
    if decide (id ∈ map notice_id evicted) then None
    else still_alive now (pending s !! id);
  pe_bounded : size (inboxes s) <= MAX_INBOX_KEYS -> evicted = [];
  pe_gone : forall n, n ∈ evicted ->
    exists k ib, inboxes s !! k = Some ib /\ n ∈ notices ib /\ inboxes s' !! k = None
}.

Lemma dedup_elem l x : x ∈ l -> x ∈ dedup l.
Proof.
  induction l as [|y [|z l] IH]; [done|done|]. intros [->|Hx]%elem_of_cons; cbn [dedup].
  - destruct (str_eqb y z) eqn:E; [apply str_eqb_eq in E as ->; apply IH|]; by left.
  - destruct (str_eqb y z); [auto|right; auto].
Qed.

(** Removing the expired ids leaves the pending notices still alive. *)
Lemma expired_pending_spec now s id :
  pending (remove_pending (expired_pending now s) s) !! id =
  still_alive now (pending s !! id).
Proof.
  rewrite pending_remove.
  assert (Hid : id ∈ expired_pending now s <->
    exists n, pending s !! id = Some n /\ is_notice_expired now n = true).
  { unfold expired_pending. rewrite list_elem_of_In, in_map_iff. split.
    - intros ([k n] & <- & [Hin%list_elem_of_In Hn]%filter_In).
      rewrite dash_iter_perm, elem_of_map_to_list in Hin. by exists n.
    - intros (n & Hn & He). exists (id, n). split; [done|]. apply filter_In.
      rewrite <-list_elem_of_In, dash_iter_perm, elem_of_map_to_list. done. }
  destruct (pending s !! id) as [n|] eqn:Hn; simpl.
  - case_decide as Hd; destruct (is_notice_expired now n) eqn:He; try done.
    + apply Hid in Hd as (n' & [= <-] & He'). congruence.
    + destruct Hd. apply Hid. eauto.
  - by case_decide.
Qed.

Lemma bound_inboxes_spec s s' keys ids :
  bound_inboxes s = (s', keys, ids) ->
  size (inboxes s') <= MAX_INBOX_KEYS /\ (size (inboxes s) <= MAX_INBOX_KEYS -> ids = []) /\
  exists ks, evict_rel ks (s, 0, []) (s', keys, ids).
Proof.
  unfold bound_inboxes. destruct (MAX_INBOX_KEYS <? size (inboxes s)) eqn:E.
  2:{ intros [= <- <- <-]. apply Nat.ltb_ge in E. split_and!; [done|done|]. exists [].
      apply (evict_fold_rel [] (s, 0, [])). }
  apply Nat.ltb_lt in E. set (ks := take _ _).
  pose proof (evict_fold_rel ks (s, 0, [])) as Hrel.
  destruct (fold_left evict_inbox ks (s, 0, [])) as [[s0 k0] i0] eqn:Ef.
  intros [= <- <- <-]. assert (Hs0 : size (inboxes s0) <= MAX_INBOX_KEYS).
  { destruct Hrel as (_ & _ & -> & _).
    pose proof (size_foldr_delete (inboxes s) (rev ks)) as Hsz. rewrite length_rev in Hsz.
    assert (Hlen : length ks = size (inboxes s) - MAX_INBOX_KEYS).
    { unfold ks. rewrite length_take. unfold stalest_first. rewrite stamped_keys_length. lia. }
    rewrite Hlen in Hsz. enough (size (foldr delete (inboxes s) (rev ks)) +
      (size (inboxes s) - MAX_INBOX_KEYS) = size (inboxes s)) by lia. apply Hsz.
    - rewrite <-Permutation_rev. apply stamped_keys_NoDup.
    - intros k Hk. rewrite <-Permutation_rev in Hk. by eapply stamped_keys_dom. }
  split_and!; [by destruct (is_empty i0)|lia|]. exists ks. by destruct (is_empty i0).
Qed.

Lemma prune_spec now s r s' :
  prune_notice_storage now s = (r, s') -> exists expired evicted, prune_effect now s r s' expired evicted.
Proof.
  unfold prune_notice_storage, prune_inboxes.
  pose proof (prune_fold_rel now (map fst (dash_iter (inboxes s))) (s, [], 0)) as H1.
  destruct (fold_left _ _ _) as [[s1 exp1] rec1].
  destruct H1 as (Hp1 & Hr1 & Hn1 & Hs1 & Hal1 & expired & Hq1 & He1 & ->). simpl app.
  set (ids := dedup _). pose proof (expired_pending_spec now s1) as Hp2.
  set (s2 := remove_pending _ s1) in *.
  assert (Hrep : exists c, report_expired ids s2 = on_counters c s2).
  { unfold report_expired. destruct (is_empty ids); [exists id; by destruct s2|by eexists]. }
  destruct Hrep as [c Hrep]. rewrite Hrep.
  destruct (bound_inboxes (on_counters c s2)) as [[s4 keys] ev] eqn:Eb.
  destruct (bound_inboxes_spec _ _ _ _ Eb) as (Hsz & Hb & ks & Hr4 & Hn4 & Hi4 & evicted & Hq4 & Hev & Hp4 & Hg4).
  intros [= <- <-]. simpl in *. subst ev.
  assert (Hi2 : inboxes s2 = inboxes s1) by apply inboxes_remove.
  rewrite Hi2 in *. exists expired, evicted.
  assert (Halive : Forall (fun n => alive now n = true) (queued (inboxes s1))).
  { apply Forall_forall. intros n (k & ib & Hk & Hn)%elem_of_queued.
    destruct (Hs1 _ _ Hk) as (ib0 & Hk0 & _).
    assert (k ∈ map fst (dash_iter (inboxes s))) as Hin by (apply dash_keys; by exists ib0).
    by eapply Forall_forall in Hn; [|by apply (Hal1 k ib)]. }
  split; simpl.
  - rewrite Hr4. unfold s2. by rewrite remove_pending_spec.
  - rewrite Hn4. unfold s2. by rewrite remove_pending_spec.
  - eapply shrinks_trans; [exact Hs1|]. intros k ib Hk. rewrite Hi4, lookup_foldr_delete in Hk.
    case_decide; [done|]. by exists ib.
  - done.
  - by rewrite Hq1, Hq4.
  - done.
  - by rewrite <-Hq4.
  - intros n Hn. apply dedup_elem. rewrite sort_with_perm. apply elem_of_app. left.
    by apply list_elem_of_fmap_2.
  - by rewrite length_map.
  - intros id. rewrite Hp4. case_decide; [done|]. by rewrite Hp2, Hp1.
  - intros Hle. eapply map_eq_nil, Hb. etransitivity; [by apply shrinks_size|done].
  - intros n (k & ib & Hks & Hk & Hn)%Hg4. destruct (Hs1 _ _ Hk) as (ib0 & Hk0 & Hsub).
    exists k, ib0. split_and!; [done|by eapply sublist_subseteq|].
    rewrite Hi4, lookup_foldr_delete. case_decide as Hd; [done|].
    destruct Hd. by rewrite <-Permutation_rev.
Qed.

Lemma prune_pending_weaken now s r s' expired evicted :
  prune_effect now s r s' expired evicted -> pending s' ⊆ pending s.
Proof.
  intros He. apply map_subseteq_spec. intros id n. rewrite (pe_pending _ _ _ _ _ _ He).
  case_decide; [done|]. unfold still_alive. repeat case_match; naive_solver.
Qed.

(** Two queued notices with one id are the same entry of the same inbox. *)
Lemma coherent_unique p m k ib k' ib' n n' :
  coherent p m -> m !! k = Some ib -> n ∈ notices ib -> m !! k' = Some ib' -> n' ∈ notices ib' ->
  notice_id n = notice_id n' -> n = n' /\ k = k'.
Proof.
  intros Hc Hk Hn Hk' Hn' Hid.
  pose proof (coherent_live _ _ Hc _ _ _ Hk Hn) as H1.
  pose proof (coherent_live _ _ Hc _ _ _ Hk' Hn') as H2.
  assert (n = n') as <- by congruence. split; [done|].
  destruct (coherent_inbox _ _ Hc _ _ Hk) as (_ & Ht & _).
  destruct (coherent_inbox _ _ Hc _ _ Hk') as (_ & Ht' & _).
  rewrite Forall_forall in Ht, Ht'. by rewrite <-(Ht n), <-(Ht' n).
Qed.

Lemma prune_coherent now s r s' expired evicted :
  prune_effect now s r s' expired evicted -> coherent (pending s) (inboxes s) ->
  coherent (pending s') (inboxes s').
Proof.
  intros He Hc. eapply coherent_shrink; [done|by apply He|by eapply prune_pending_weaken|].
  intros n Hq. rewrite (pe_pending _ _ _ _ _ _ He).
  pose proof (pe_alive _ _ _ _ _ _ He) as [_ Hal]%Forall_app.
  pose proof (proj1 (Forall_forall _ _) Hal n Hq) as Han.
  apply elem_of_queued in Hq as (k & ib' & Hk' & Hn').
  destruct (pe_shrinks _ _ _ _ _ _ He _ _ Hk') as (ib & Hk & Hsub).
  pose proof (sublist_subseteq _ _ Hsub _ Hn') as Hn.
  rewrite decide_False.
  - rewrite (coherent_live _ _ Hc _ _ _ Hk Hn). simpl in *. rewrite alive_expired in Han.
    destruct (is_notice_expired now n); [done|by exists n].
  - intros (g & Hid & (kg & ibg & Hkg & Hg & Hgone)%(pe_gone _ _ _ _ _ _ He))%list_elem_of_fmap.
    destruct (coherent_unique _ _ _ _ _ _ _ _ Hc Hk Hn Hkg Hg Hid) as [-> ->]. congruence.
Qed.

(** ** Posting *)

Lemma drop_oldest_spec l evicted kept :
  drop_oldest l = (evicted, kept) ->
  l = evicted ++ kept /\ length kept = min (length l) INBOX_CAPACITY.
Proof.
  intros [= <- <-]. split; [by rewrite take_drop|]. rewrite length_drop. lia.
Qed.

(** [enqueue] of a notice that is already pending. *)
Lemma enqueue_spec now n s evicted s' :
  enqueue now n s = (evicted, s') ->
  let queue := match inboxes s !! target_worker n with Some ib => notices ib | None => [] end in
  exists kept, queue ++ [n] = evicted ++ kept /\ length kept = min (S (length queue)) INBOX_CAPACITY /\
    inboxes s' = <[target_worker n := {| notices := kept; last_touched_ms := now |}]> (inboxes s) /\
    (forall id, pending s' !! id =
      if decide (id ∈ map notice_id evicted) then None else pending s !! id) /\
    ring s' = ring s /\ next_id s' = next_id s.
Proof.
  unfold enqueue. destruct (drop_oldest _) as [ev kept] eqn:Ed.
  apply drop_oldest_spec in Ed as [Hl Hlen]. intros [= <- <-]. exists kept.
  rewrite length_app, Nat.add_1_r in Hlen.
  destruct (is_empty ev) eqn:Ee.
  - destruct ev; [by split_and!|done].
  - rewrite remove_pending_spec. split_and!; try done. intros id.
    pose proof (pending_remove (map notice_id ev) s id) as Hp.
    rewrite remove_pending_spec in Hp. exact Hp.
Qed.

Lemma queue_last_kept {A} (q : list A) n ev kept :
  q ++ [n] = ev ++ kept -> kept <> [] -> exists kept', kept = kept' ++ [n] /\ q = ev ++ kept'.
Proof.
  intros Heq Hne. destruct kept as [|x kept' _] using rev_ind; [done|].
  rewrite app_assoc in Heq. apply app_inj_tail in Heq as [-> ->]. by exists kept'.
Qed.

Lemma enqueue_queued now n s evicted s' :
  enqueue now n s = (evicted, s') -> n :: queued (inboxes s) ≡ₚ evicted ++ queued (inboxes s').
Proof.
  intros (kept & Hq & _ & -> & _)%enqueue_spec. rewrite queued_insert. simpl.
  rewrite app_assoc, <-Hq. destruct (inboxes s !! target_worker n) as [ib|] eqn:Hk.
  - rewrite (queued_delete _ _ _ Hk). rewrite <-app_assoc. simpl. apply Permutation_middle.
  - by rewrite delete_id.
Qed.

(** The queue a fresh notice joins: its notices are pending under other ids. *)
Lemma fresh_queue p m n q :
  p !! notice_id n = None -> coherent p m ->
  q = match m !! target_worker n with Some ib => notices ib | None => [] end ->
  NoDup (map notice_id (q ++ [n])) /\ Forall (fun x => target_worker x = target_worker n) q /\
  (forall x, x ∈ q -> exists ib, m !! target_worker n = Some ib /\ x ∈ notices ib).
Proof.
  intros Hfresh Hc ->. destruct (m !! target_worker n) as [ib|] eqn:Hk.
  2:{ split_and!; [apply NoDup_singleton|constructor|by intros x ?%not_elem_of_nil]. }
  destruct (coherent_inbox _ _ Hc _ _ Hk) as (_ & Ht & Hnd). split_and!; [|done|eauto].
  rewrite map_app. apply NoDup_app. split_and!; [done| |apply NoDup_singleton].
  intros x (y & -> & Hy)%list_elem_of_fmap Hx%list_elem_of_singleton.
  pose proof (coherent_live _ _ Hc _ _ _ Hk Hy). congruence.
Qed.

(** Queueing a fresh pending notice keeps the tables coherent. *)
Lemma enqueue_coherent now n s evicted s' p :
  pending s = <[notice_id n := n]> p -> p !! notice_id n = None ->
  coherent p (inboxes s) -> enqueue now n s = (evicted, s') ->
  coherent (pending s') (inboxes s').
Proof.
  intros Hp Hfresh Hc (kept & Hq & Hlen & Hi & Hp' & _)%enqueue_spec.
  destruct (queue_last_kept _ _ _ _ Hq) as (kept' & -> & Hold).
  { intros ->. unfold INBOX_CAPACITY in Hlen. simpl in Hlen. lia. }
  edestruct (fresh_queue p (inboxes s) n _ Hfresh Hc eq_refl) as (Hnd & Ht & Hin).
  rewrite Hq in Hnd. rewrite Hold in Hin, Ht. apply Forall_app in Ht as [_ Ht].
  rewrite map_app in Hnd. apply NoDup_app in Hnd as (_ & Hdis & Hnd). split.
  - intros id x. rewrite Hp', Hp. case_decide; [done|].
    intros [[<- <-]|[_ Hx]]%lookup_insert_Some; [done|by eapply coherent_id].
  - intros k ib. rewrite Hi. intros [[<- <-]|[_ Hk]]%lookup_insert_Some; simpl;
      [|by eapply coherent_inbox]. split_and!; [lia| |done].
    apply Forall_app. split; [done|by repeat constructor].
  - intros k ib x. rewrite Hi, Hp', Hp. intros [[<- <-]|[Hne Hk]]%lookup_insert_Some Hx; simpl in *.
    + rewrite decide_False.
      2:{ intros He. apply (Hdis _ He). by apply list_elem_of_fmap_2. }
      apply elem_of_app in Hx as [Hx|Hx]; [|apply list_elem_of_singleton in Hx as ->; apply lookup_insert_eq].
      destruct (Hin x) as (ib & Hk & Hib); [apply elem_of_app; by right|].
      pose proof (coherent_live _ _ Hc _ _ _ Hk Hib).
      rewrite lookup_insert_ne; [done|]. intros Heq. congruence.
    + pose proof (coherent_live _ _ Hc _ _ _ Hk Hx) as Hlive. rewrite decide_False.
      * rewrite lookup_insert_ne; [done|]. intros Heq. congruence.
      * intros (e & Hid & He)%list_elem_of_fmap.
        destruct (Hin e) as (ibe & Hke & Hibe); [apply elem_of_app; by left|].
        by destruct (coherent_unique _ _ _ _ _ _ _ _ Hc Hk Hx Hke Hibe Hid) as [_ ->].
Qed.

(** ** Draining *)

Context `{Unicode}.

(** What taking the inboxes [keys] does: [out] are the notices handed out. *)
Definition take_rel (keys : list str) (a b : Store * list SteerNotice * nat) : Prop :=
  let '(s, l, _) := a in
  let '(s', l', _) := b in
  ring s' = ring s /\ next_id s' = next_id s /\ pending s' = pending s /\
  inboxes s' = foldr delete (inboxes s) (rev keys) /\
  exists out, queued (inboxes s) ≡ₚ out ++ queued (inboxes s') /\ l' = l ++ out /\
    (forall n, n ∈ out -> exists k ib, k ∈ keys /\ inboxes s !! k = Some ib /\ n ∈ notices ib).

Lemma take_inbox_rel key a : take_rel [key] a (take_inbox a key).
Proof.
  destruct a as [[s l] r]. unfold take_inbox. destruct (inboxes s !! key) as [ib|] eqn:Hk.
  - assert (Hrel : take_rel [key] (s, l, r) (on_inboxes (delete key) s, l ++ notices ib, r)).
    { split_and!; try done. exists (notices ib). split_and!; [by apply queued_delete|done|].
      intros n Hn. exists key, ib. by rewrite list_elem_of_singleton. }
    destruct (is_empty (notices ib)) eqn:E; [|exact Hrel].
    destruct (notices ib); [|done]. by rewrite app_nil_r in Hrel.
  - split_and!; try done; [by simpl; rewrite delete_id|]. exists [].
    split_and!; [done|by rewrite app_nil_r|by intros n ?%not_elem_of_nil].
Qed.

Lemma take_fold_rel keys a : take_rel keys a (fold_left take_inbox keys a).
Proof.
  induction keys as [|key keys IH] using rev_ind.
  - destruct a as [[s l] r]. split_and!; try done. exists [].
    split_and!; [done|by rewrite app_nil_r|by intros n ?%not_elem_of_nil].
  - rewrite fold_left_app. simpl. destruct (fold_left take_inbox keys a) as [[s2 l2] r2] eqn:E.
    pose proof (take_inbox_rel key (s2, l2, r2)) as IH'.
    destruct a as [[s1 l1] r1], (take_inbox (s2, l2, r2) key) as [[s3 l3] r3].
    destruct IH as (Hr & Hn & Hp & Hi & out & Hq & -> & Ho).
    destruct IH' as (Hr' & Hn' & Hp' & Hi' & out' & Hq' & -> & Ho').
    split_and!; try congruence; [by rewrite rev_app_distr, Hi', Hi|].
    exists (out ++ out'). split_and!; [by rewrite Hq, Hq', app_assoc|by rewrite app_assoc|].
    intros n [Hin|Hin]%elem_of_app.
    + destruct (Ho _ Hin) as (k & ib & ? & ? & ?). exists k, ib. rewrite elem_of_app. auto.
    + destruct (Ho' _ Hin) as (k & ib & ? & Hib & ?). rewrite Hi, lookup_foldr_delete in Hib.
      case_decide; [done|]. exists k, ib. rewrite elem_of_app. auto.
Qed.

Lemma matched_keys_spec w s k :
  k ∈ matched_keys w s <-> is_Some (inboxes s !! k) /\ routes w k = true.
Proof.
  unfold matched_keys. rewrite list_elem_of_In, filter_In, <-list_elem_of_In, dash_keys. done.
Qed.

(** The prune of a drain, then the taking of the matched inboxes. *)
Lemma drain_inv now key s o s' :
  drain_worker_notices_report now key s = (o, s') ->
  exists r s1 expired evicted out,
    prune_effect now s r s1 expired evicted /\
    delivered o = sort_with created_leb out /\ drain_expired_ids o = expired_ids r /\
    ring s' = ring s1 /\ next_id s' = next_id s1 /\ pending s' = pending s1 /\
    inboxes s' = foldr delete (inboxes s1) (rev (matched_keys (worker_routing_identity key) s1)) /\
    queued (inboxes s1) ≡ₚ out ++ queued (inboxes s') /\
    (forall n, n ∈ out -> exists k ib, routes (worker_routing_identity key) k = true /\
       inboxes s1 !! k = Some ib /\ n ∈ notices ib).
Proof.
  unfold drain_worker_notices_report. destruct (prune_notice_storage now s) as [r s1] eqn:Ep.
  destruct (prune_spec _ _ _ _ Ep) as (expired & evicted & He).
  set (keys := matched_keys _ _).
  pose proof (take_fold_rel keys (s1, [], reclaimed_inboxes r)) as Ht.
  destruct (fold_left _ _ _) as [[s2 l2] r2]. intros [= <- <-].
  destruct Ht as (Hr & Hn & Hp & Hi & out & Hq & -> & Ho).
  exists r, s1, expired, evicted, out. split_and!; try done.
  intros n (k & ib & [_ Hk]%matched_keys_spec & Hib & Hin)%Ho. by exists k, ib.
Qed.

End order.
