(* ===== verification/NoticeRouting.v ===== *)
(** * Steering notices: who a notice reaches

    The registry spells a worker's key from its agent name and its task id
    ([src/orchestrator/workers.rs]); the notice store recovers the two from the
    key.  This file relates the spelling to the recovery. *)

From S2P Require Import Prelude Str Regex TaskId Agents PlanParse PlanParseFacts Notice.

(** ** The registry's keys *)

(** [format!("{agent_name}-{t}")], with the collision suffix [#{id}] of
    [claim_worker_slot] when the natural key is held by a live worker. *)
Definition registry_key (agent task : str) (handle : option str) : str :=
  agent ++ [WORKER_KEY_SEGMENT] ++ task ++
  match handle with Some id => [WORKER_KEY_DISAMBIGUATOR] ++ id | None => [] end.

(** No segment of the agent name opens a task id: none starts with [t-], and
    the last is not a bare [t]. *)
Definition no_task_start (s : str) : bool :=
  match s with
  | [] => true
  | [x] => negb (fold_eq (ch "t") x)
  | x :: y :: _ => negb (fold_eq (ch "t") x && (y =? WORKER_KEY_SEGMENT)%N)
  end.
Fixpoint no_task_tail (s : str) : bool :=
  match s with
  | [] => true
  | x :: s' => (negb (x =? WORKER_KEY_SEGMENT)%N || no_task_start s') && no_task_tail s'
  end.

(** The agent names of the program: ASCII id characters, no task segment. *)
Record agent_ok (a : str) : Prop := {
  agent_nonempty : a <> [];
  agent_bytes : Forall (fun c => id_byte c = true) a;
  agent_start : no_task_start a = true;
  agent_tail : no_task_tail a = true
}.

(** Collision handles: a counter's digits or [u] and a UUID. *)
Definition handle_ok (h : option str) : Prop :=
  match h with Some id => Forall (fun c => id_byte c = true) id | None => True end.

(** ** Characters *)

Lemma id_byte_char_i c : id_byte c = true -> id_char_i c = true.
Proof. unfold id_char_i. intros ->. done. Qed.

Lemma id_char_i_plain c :
  id_char_i c = true ->
  is_whitespace c = false /\ is_decoration c = false /\ c <> WORKER_KEY_DISAMBIGUATOR.
Proof.
  unfold id_char_i, id_byte, is_decoration, WORKER_KEY_DISAMBIGUATOR. char_lia.
Qed.

Lemma id_char_i_lower c : id_char_i (to_ascii_lower c) = id_char_i c.
Proof.
  unfold id_char_i, id_byte, to_ascii_lower. destruct (is_ascii_upper c) eqn:E; [|done]. char_lia.
Qed.

Lemma id_byte_lower c : id_byte (to_ascii_lower c) = id_byte c.
Proof. unfold id_byte, to_ascii_lower. destruct (is_ascii_upper c) eqn:E; [|done]. char_lia. Qed.

Lemma fold_t_lower c : fold_eq (ch "t") (to_ascii_lower c) = fold_eq (ch "t") c.
Proof.
  unfold fold_eq. change (to_ascii_lower (ch "t")) with 116%N. rewrite to_ascii_lower_idemp.
  by rewrite !andb_false_l.
Qed.

Lemma dash_lower c : (to_ascii_lower c =? WORKER_KEY_SEGMENT)%N = (c =? WORKER_KEY_SEGMENT)%N.
Proof. unfold to_ascii_lower, WORKER_KEY_SEGMENT. destruct (is_ascii_upper c) eqn:E; [|done]. char_lia. Qed.

Lemma hash_lower c : to_ascii_lower c = WORKER_KEY_DISAMBIGUATOR <-> c = WORKER_KEY_DISAMBIGUATOR.
Proof. unfold to_ascii_lower, WORKER_KEY_DISAMBIGUATOR. destruct (is_ascii_upper c) eqn:E; [|done]. char_lia. Qed.

Lemma fold_dash c : fold_eq (ch "-") c = (c =? WORKER_KEY_SEGMENT)%N.
Proof.
  unfold fold_eq. change (to_ascii_lower (ch "-")) with WORKER_KEY_SEGMENT. simpl.
  rewrite dash_lower. unfold WORKER_KEY_SEGMENT. char_lia.
Qed.

Lemma lower_app a b : to_ascii_lowercase (a ++ b) = to_ascii_lowercase a ++ to_ascii_lowercase b.
Proof. apply map_app. Qed.

Lemma Forall_lower (f : char -> bool) s :
  (forall c, f (to_ascii_lower c) = f c) ->
  Forall (fun c => f c = true) s -> Forall (fun c => f c = true) (to_ascii_lowercase s).
Proof. intros Hf. induction 1; simpl; constructor; [by rewrite Hf|done]. Qed.

(** Trimming leaves a text alone whose characters are all outside the class. *)
Lemma trim_matches_plain p (s : str) : Forall (fun c => p c = false) s -> trim_matches p s = s.
Proof.
  intros Hs. apply trim_matches_id. split; [by destruct Hs|].
  rewrite (Permutation_rev s) in Hs. by destruct Hs.
Qed.

Lemma trim_plain s : Forall (fun c => is_whitespace c = false) s -> trim s = s.
Proof. apply trim_matches_plain. Qed.

Lemma normalize_plain s : Forall (fun c => id_char_i c = true \/ c = WORKER_KEY_DISAMBIGUATOR) s ->
  normalize_task_id_ref s = s.
Proof.
  intros Hs. assert (Hw : Forall (fun c => is_whitespace c = false) s).
  { eapply Forall_impl; [exact Hs|]. by intros c [?%id_char_i_plain| ->]; [naive_solver|]. }
  assert (Hd : Forall (fun c => is_decoration c = false) s).
  { eapply Forall_impl; [exact Hs|]. by intros c [?%id_char_i_plain| ->]; [naive_solver|]. }
  unfold normalize_task_id_ref. by rewrite (trim_plain s Hw), (trim_matches_plain _ s Hd), (trim_plain s Hw).
Qed.

(** ** Task tokens *)

Section tokens.
Context `{Unicode}.

Lemma fold_t_char c : fold_eq (ch "t") c = true -> id_char_i c = true.
Proof.
  unfold fold_eq. change (to_ascii_lower (ch "t")) with 116%N. rewrite !andb_false_l, !orb_false_r.
  unfold to_ascii_lower, id_char_i, id_byte. destruct (is_ascii_upper c) eqn:E; char_lia.
Qed.

Lemma task_token_inv t :
  is_task_id_token t = true <->
  exists x z rest, t = x :: WORKER_KEY_SEGMENT :: z :: rest /\ fold_eq (ch "t") x = true /\
    Forall (fun c => id_char_i c = true) (z :: rest).
Proof.
  rewrite is_task_id_token_shape. split.
  - destruct t as [|x [|y [|z t]]]; try done. cbn [task_id_shape].
    rewrite fold_dash, !andb_true_iff. intros [[Hx Hy%N.eqb_eq] Hz]. subst y.
    exists x, z, t. split_and!; [done|done|]. apply Forall_forall. intros c Hc.
    rewrite forallb_forall in Hz. apply Hz. by apply list_elem_of_In.
  - intros (x & z & rest & -> & Hx & Hz). cbn [task_id_shape]. rewrite fold_dash, Hx, N.eqb_refl. simpl.
    rewrite Forall_cons in Hz. destruct Hz as [-> Hz]. apply forallb_forall. intros c Hc.
    rewrite Forall_forall in Hz. apply Hz. by apply list_elem_of_In.
Qed.

Lemma task_token_chars t : is_task_id_token t = true -> Forall (fun c => id_char_i c = true) t.
Proof.
  intros (x & z & rest & -> & Hx & Hz)%task_token_inv. constructor; [by apply fold_t_char|].
  by constructor.
Qed.

Lemma task_token_lower t : is_task_id_token t = true -> is_task_id_token (to_ascii_lowercase t) = true.
Proof.
  intros (x & z & rest & -> & Hx & Hz)%task_token_inv. apply task_token_inv.
  exists (to_ascii_lower x), (to_ascii_lower z), (to_ascii_lowercase rest).
  split_and!; [done|by rewrite fold_t_lower|].
  apply (Forall_lower id_char_i (z :: rest)); [apply id_char_i_lower|done].
Qed.

(** A text that starts like a task token opens a task. *)
Lemma task_token_start t r : is_task_id_token t = true -> no_task_start (t ++ r) = false.
Proof. intros (x & z & rest & -> & Hx & Hz)%task_token_inv. simpl. by rewrite Hx. Qed.

Lemma no_task_start_app c t : no_task_start c = true -> is_task_id_token (c ++ WORKER_KEY_SEGMENT :: t) = false.
Proof.
  intros Hc. destruct (is_task_id_token _) eqn:E; [|done].
  apply task_token_inv in E as (x & z & rest & Heq & Hx & _).
  destruct c as [|x' [|y c]]; simplify_eq/=; by rewrite Hx in Hc.
Qed.

Lemma no_task_tail_app a b : no_task_tail (a ++ WORKER_KEY_SEGMENT :: b) = true -> no_task_start b = true.
Proof.
  induction a as [|x a IH]; simpl; intros [H1 H2]%andb_true_iff; [done|by apply IH].
Qed.

(** ** Splitting a natural key *)

Lemma split_task_app before a t :
  is_task_id_token t = true -> before ++ a <> [] ->
  no_task_tail a = true ->
  split_task before (a ++ WORKER_KEY_SEGMENT :: t) = Some (before ++ a, t).
Proof.
  intros Ht Hne. revert before Hne. induction a as [|x a IH]; intros before Hne; cbn [app split_task].
  - rewrite app_nil_r in *. intros _. rewrite N.eqb_refl, Ht. by destruct before.
  - cbn [no_task_tail]. intros [Hx Ha]%andb_true_iff.
    destruct ((x =? WORKER_KEY_SEGMENT)%N && negb (is_empty before) && _) eqn:E.
    + exfalso. apply andb_true_iff in E as [[Hd _]%andb_true_iff Htok]. rewrite Hd in Hx. simpl in Hx.
      by rewrite no_task_start_app in Htok.
    + rewrite IH; [by rewrite <-app_assoc| |done]. by destruct before.
Qed.

Lemma find_hash_None s : WORKER_KEY_DISAMBIGUATOR ∉ s -> find_split [WORKER_KEY_DISAMBIGUATOR] s = None.
Proof.
  induction s as [|c s IH]; intros Hs; [done|]. rewrite elem_of_cons in Hs.
  cbn [find_split strip_prefix]. rewrite (proj2 (N.eqb_neq _ _)) by naive_solver.
  by rewrite IH by naive_solver.
Qed.

Lemma find_hash_app s r :
  WORKER_KEY_DISAMBIGUATOR ∉ s ->
  find_split [WORKER_KEY_DISAMBIGUATOR] (s ++ WORKER_KEY_DISAMBIGUATOR :: r) = Some (s, r).
Proof.
  induction s as [|c s IH]; intros Hs; cbn [app find_split strip_prefix]; [by rewrite N.eqb_refl|].
  rewrite elem_of_cons in Hs. rewrite (proj2 (N.eqb_neq _ _)) by naive_solver.
  by rewrite IH by naive_solver.
Qed.

(** ** Keys built by the registry *)

Lemma fold_t_start_lower s : no_task_start (to_ascii_lowercase s) = no_task_start s.
Proof. destruct s as [|x [|y s]]; cbn -[fold_eq]; by rewrite ?fold_t_lower, ?dash_lower. Qed.

Lemma tail_lower s : no_task_tail (to_ascii_lowercase s) = no_task_tail s.
Proof.
  induction s as [|x s IH]; [done|]. cbn [to_ascii_lowercase map no_task_tail].
  change (map to_ascii_lower s) with (to_ascii_lowercase s).
  by rewrite IH, dash_lower, fold_t_start_lower.
Qed.

Lemma agent_ok_lower a : agent_ok a -> agent_ok (to_ascii_lowercase a).
Proof.
  intros [Hne Hb Hs Ht]. split; [by destruct a| | |].
  - by apply Forall_lower; [apply id_byte_lower|].
  - by rewrite fold_t_start_lower.
  - by rewrite tail_lower.
Qed.

(** A natural key is made of id characters. *)
Lemma natural_chars a t :
  agent_ok a -> is_task_id_token t = true ->
  Forall (fun c => id_char_i c = true) (registry_key a t None).
Proof.
  intros Ha Ht. unfold registry_key. rewrite app_nil_r. apply Forall_app. split.
  - eapply Forall_impl; [by apply Ha|]. intros c. apply id_byte_char_i.
  - constructor; [done|]. by apply task_token_chars.
Qed.

Lemma registry_key_app a t h :
  registry_key a t h = registry_key a t None ++
    match h with Some id => WORKER_KEY_DISAMBIGUATOR :: id | None => [] end.
Proof. unfold registry_key. rewrite app_nil_r, <-!app_assoc. by destruct h. Qed.

Lemma key_chars a t h :
  agent_ok a -> is_task_id_token t = true -> handle_ok h ->
  Forall (fun c => id_char_i c = true \/ c = WORKER_KEY_DISAMBIGUATOR) (registry_key a t h).
Proof.
  intros Ha Ht Hh. rewrite registry_key_app. apply Forall_app. split.
  - eapply Forall_impl; [by apply natural_chars|]. by left.
  - destruct h as [id|]; [|constructor]. constructor; [by right|].
    eapply Forall_impl; [exact Hh|]. left. by apply id_byte_char_i.
Qed.

Lemma registry_key_lower a t h :
  to_ascii_lowercase (registry_key a t h) =
  registry_key (to_ascii_lowercase a) (to_ascii_lowercase t) (to_ascii_lowercase <$> h).
Proof. unfold registry_key. rewrite !lower_app. by destruct h. Qed.

Lemma inbox_key_registry a t h :
  agent_ok a -> is_task_id_token t = true -> handle_ok h ->
  inbox_key (registry_key a t h) =
  registry_key (to_ascii_lowercase a) (to_ascii_lowercase t) (to_ascii_lowercase <$> h).
Proof.
  intros Ha Ht Hh. unfold inbox_key. rewrite trim_plain; [apply registry_key_lower|].
  eapply Forall_impl; [by apply key_chars|]. by intros c [?%id_char_i_plain| ->]; [naive_solver|].
Qed.

Lemma handle_ok_lower h : handle_ok h -> handle_ok (to_ascii_lowercase <$> h).
Proof. destruct h; [|done]. simpl. apply Forall_lower, id_byte_lower. Qed.

Lemma natural_no_hash a t :
  agent_ok a -> is_task_id_token t = true -> WORKER_KEY_DISAMBIGUATOR ∉ registry_key a t None.
Proof.
  intros Ha Ht Hin. pose proof (natural_chars a t Ha Ht) as Hc. rewrite Forall_forall in Hc.
  apply Hc in Hin. by vm_compute in Hin.
Qed.

(** The agent and the task come back out of the key, in lower case. *)
Lemma registry_identity a t h :
  agent_ok a -> is_task_id_token t = true -> handle_ok h ->
  worker_routing_identity (registry_key a t h) =
  {| effective_key := to_ascii_lowercase (registry_key a t h);
     natural_key := to_ascii_lowercase (registry_key a t None);
     agent_name := to_ascii_lowercase a;
     identity_task := Some (to_ascii_lowercase t) |}.
Proof.
  intros Ha Ht Hh. unfold worker_routing_identity.
  rewrite inbox_key_registry, !registry_key_lower by done.
  apply agent_ok_lower in Ha. apply task_token_lower in Ht.
  set (la := to_ascii_lowercase a) in *. set (lt := to_ascii_lowercase t) in *. cbn [fmap option_fmap option_map].
  pose proof (natural_no_hash _ _ Ha Ht) as Hnh.
  assert (Hn : match find_split [WORKER_KEY_DISAMBIGUATOR]
                       (registry_key la lt (to_ascii_lowercase <$> h)) with
               | Some (x, _) => x
               | None => registry_key la lt (to_ascii_lowercase <$> h)
               end = registry_key la lt None).
  { destruct h as [id|]; cbn [fmap option_fmap option_map].
    - rewrite registry_key_app. by rewrite find_hash_app.
    - by rewrite find_hash_None. }
  rewrite Hn. unfold split_natural_key. unfold registry_key at 1. rewrite app_nil_r.
  cbn [app]. rewrite split_task_app; [done|done| |]; by apply Ha.
Qed.

(** A natural key determines its agent and its task. *)
Lemma natural_key_inj a t a' t' :
  agent_ok a -> is_task_id_token t = true -> agent_ok a' -> is_task_id_token t' = true ->
  registry_key a t None = registry_key a' t' None -> a = a' /\ t = t'.
Proof.
  intros Ha Ht Ha' Ht' Heq. apply (f_equal (split_task [])) in Heq. revert Heq.
  unfold registry_key. rewrite !app_nil_r. cbn [app].
  rewrite !split_task_app; [by intros [= -> ->]|done|by apply Ha'|by apply Ha'|done|by apply Ha|by apply Ha].
Qed.

Lemma not_broadcast target :
  WORKER_KEY_SEGMENT ∈ target -> existsb (str_eqb target) BROADCAST_TARGETS = false.
Proof.
  intros Hd. destruct (existsb _ _) eqn:E; [|done].
  apply existsb_exists in E as (b & Hb & ->%str_eqb_eq). exfalso.
  destruct Hb as [<-|[<-|[]]]; vm_compute in Hd;
    repeat (apply elem_of_cons in Hd as [?|Hd]; [done|]); by apply not_elem_of_nil in Hd.
Qed.

(** An address that is neither a wildcard, nor the agent, nor the task of a
    registered worker, routes by whole-key equality only. *)
Lemma routes_key_only a t h target :
  agent_ok a -> is_task_id_token t = true -> handle_ok h ->
  normalize_task_id_ref target = target -> to_ascii_lowercase target = target ->
  (exists a1 t1 r, agent_ok a1 /\ is_task_id_token t1 = true /\
     target = registry_key a1 t1 None ++ r) ->
  routes (worker_routing_identity (registry_key a t h)) target =
  str_eqb target (to_ascii_lowercase (registry_key a t h)) ||
  str_eqb target (to_ascii_lowercase (registry_key a t None)).
Proof.
  intros Ha Ht Hh Hn Hl (a1 & t1 & r & Ha1 & Ht1 & ->).
  rewrite registry_identity by done. unfold routes. rewrite Hn, Hl. cbn [effective_key natural_key agent_name identity_task].
  set (T := registry_key a1 t1 None ++ r) in *.
  apply agent_ok_lower in Ha. set (la := to_ascii_lowercase a) in *.
  assert (HT : T = a1 ++ WORKER_KEY_SEGMENT :: (t1 ++ r)).
  { unfold T, registry_key. rewrite app_nil_r, <-!app_assoc. done. }
  assert (He : is_empty T = false) by (rewrite HT; by destruct a1).
  assert (Hb : existsb (str_eqb T) BROADCAST_TARGETS = false).
  { apply not_broadcast. rewrite HT. apply elem_of_app. right. by left. }
  assert (Hag : str_eqb T la || starts_with (T ++ [WORKER_KEY_SEGMENT]) la = false).
  { destruct (str_eqb T la || _) eqn:E; [|done]. exfalso.
    assert (exists r', la = T ++ r') as [r' Hr'].
    { apply orb_true_iff in E as [<-%str_eqb_eq|(r' & ->)%starts_with_true];
        [exists []; by rewrite app_nil_r|]. exists ([WORKER_KEY_SEGMENT] ++ r'). by rewrite <-app_assoc. }
    pose proof (agent_tail _ Ha) as Hta. rewrite Hr', HT, <-app_assoc in Hta. cbn [app] in Hta.
    apply no_task_tail_app in Hta. rewrite <-app_assoc, task_token_start in Hta; done. }
  assert (Htk : task_id_eq (to_ascii_lowercase t) T = false).
  { destruct (task_id_eq _ _) eqn:E; [|done]. exfalso. unfold task_id_eq in E.
    apply andb_true_iff in E as [_ E%str_eqb_eq]. rewrite Hn, Hl in E.
    apply task_token_lower in Ht. rewrite normalize_plain in E.
    2:{ eapply Forall_impl; [by apply task_token_chars|]. by left. }
    rewrite to_ascii_lowercase_idemp in E. rewrite E, HT in Ht.
    pose proof (no_task_start_app a1 (t1 ++ r) (agent_start _ Ha1)). congruence. }
  rewrite He, Hb, Hag, Htk. by case_match.
Qed.

(** Routing between registered workers is exact.  For agent names and task
    ids as the program uses them, the identity recovered from a worker's key
    (with or without a collision suffix) is the lower-cased agent and task it
    was registered with, and a notice addressed to another registered worker's
    natural key reaches it only if both the agent and the task agree up to
    ASCII case: neither a prefix, nor a substring, nor the task or the agent
    alone. *)
Theorem routing_exact a t h a1 t1 :
  agent_ok a -> is_task_id_token t = true -> handle_ok h ->
  agent_ok a1 -> is_task_id_token t1 = true ->
  let w := worker_routing_identity (registry_key a t h) in
  agent_name w = to_ascii_lowercase a /\
  identity_task w = Some (to_ascii_lowercase t) /\
  natural_key w = to_ascii_lowercase (registry_key a t None) /\
  (routes w (inbox_key (registry_key a1 t1 None)) = true <->
   eq_ignore_ascii_case a1 a = true /\ eq_ignore_ascii_case t1 t = true).
Proof.
  intros Ha Ht Hh Ha1 Ht1 w. unfold w. split_and!; [by rewrite registry_identity..|].
  rewrite inbox_key_registry by done. apply agent_ok_lower in Ha1 as Hla1.
  apply task_token_lower in Ht1 as Hlt1. apply agent_ok_lower in Ha as Hla.
  apply task_token_lower in Ht as Hlt. cbn [fmap option_fmap option_map].
  rewrite routes_key_only; [|done|done|done| | |].
  - unfold eq_ignore_ascii_case. rewrite orb_true_iff, !str_eqb_eq, !registry_key_lower. split.
    + intros [Heq|Heq].
      * destruct h as [id|]; [|by apply (natural_key_inj _ _ _ _ Hla1 Hlt1 Hla Hlt)].
        exfalso. eapply (natural_no_hash (to_ascii_lowercase a1)); [done|exact Hlt1|].
        rewrite Heq, registry_key_app. apply elem_of_app. right. by left.
      * by apply (natural_key_inj _ _ _ _ Hla1 Hlt1 Hla Hlt).
    + intros [-> ->]. by right.
  - apply normalize_plain, key_chars; done.
  - by rewrite registry_key_lower, !to_ascii_lowercase_idemp.
  - eexists _, _, []. split_and!; [exact Hla1|exact Hlt1|by rewrite app_nil_r].
Qed.

(** Two live workers of one agent and task differ only in the collision
    suffix of their keys.  A notice posted to the suffixed key is not routed to
    the other worker, and yet a reply from that other worker passes the
    addressing guard, because the guard also reads the pair backwards. *)
Theorem sibling_reply_accepted a t id n :
  agent_ok a -> is_task_id_token t = true -> handle_ok (Some id) ->
  target_worker n = inbox_key (registry_key a t (Some id)) ->
  routes (worker_routing_identity (registry_key a t None)) (target_worker n) = false /\
  notice_addresses_worker n (registry_key a t None) = true.
Proof.
  intros Ha Ht Hh Hn. rewrite inbox_key_registry in Hn by done.
  pose proof (agent_ok_lower _ Ha) as Hla. pose proof (task_token_lower _ Ht) as Hlt.
  pose proof (handle_ok_lower _ Hh) as Hlh.
  assert (Hfalse : routes (worker_routing_identity (registry_key a t None)) (target_worker n) = false).
  { rewrite Hn, routes_key_only; [|done|done|done| | |].
    - apply orb_false_iff. split; (destruct (str_eqb _ _) eqn:E; [|done]); apply str_eqb_eq in E;
        exfalso; rewrite registry_key_lower in E; cbn [fmap option_fmap option_map] in E; eapply (natural_no_hash _ _ Hla Hlt);
        rewrite <-E, registry_key_app; apply elem_of_app; right; by left.
    - apply normalize_plain, key_chars; done.
    - rewrite <-registry_key_lower. apply to_ascii_lowercase_idemp.
    - eexists _, _, _. split_and!; [exact Hla|exact Hlt|]. by rewrite registry_key_app. }
  split; [done|]. unfold notice_addresses_worker. rewrite Hfalse, Hn, registry_identity by done.
  unfold routes. cbn [effective_key natural_key].
  rewrite normalize_plain by (apply key_chars; done).
  rewrite registry_key_lower. cbn [fmap option_fmap option_map].
  rewrite (registry_key_lower _ _ None). cbn [fmap option_fmap option_map].
  rewrite (to_ascii_lowercase_idemp a), (to_ascii_lowercase_idemp t), str_eqb_refl, orb_true_r.
  pose proof (agent_nonempty _ Hla). unfold registry_key at 1.
  destruct (to_ascii_lowercase a); [done|]. cbn [app is_empty]. by case_match.
Qed.

End tokens.

(** ** Witnesses *)

Lemma agent_ok_validator_coder : agent_ok (lit "validator-coder").
Proof. split; [done|repeat constructor|vm_compute; reflexivity|vm_compute; reflexivity]. Qed.

Lemma routing_exact_witness :
  let _ := ascii_tables in
  routes (worker_routing_identity (registry_key (lit "validator-coder") (lit "t-01") (Some (lit "7"))))
         (inbox_key (registry_key (lit "coder") (lit "t-01") None)) = true <->
  eq_ignore_ascii_case (lit "coder") (lit "validator-coder") = true /\
  eq_ignore_ascii_case (lit "t-01") (lit "t-01") = true.
Proof.
  intros U. refine (proj2 (proj2 (proj2 (routing_exact (lit "validator-coder") (lit "t-01")
    (Some (lit "7")) (lit "coder") (lit "t-01") agent_ok_validator_coder _ _ _ _)))).
  - vm_compute. reflexivity.
  - repeat constructor.
  - split; [done|repeat constructor|vm_compute; reflexivity|vm_compute; reflexivity].
  - vm_compute. reflexivity.
Defined.

Lemma sibling_reply_accepted_witness :
  let _ := ascii_tables in
  let n := {| notice_id := lit "notice-1"; user_inquiry := lit "stop";
              target_worker := lit "validator-coder-t-01#7"; created_at_ms := 0 |} in
  routes (worker_routing_identity (registry_key (lit "validator-coder") (lit "t-01") None))
         (target_worker n) = false /\
  notice_addresses_worker n (registry_key (lit "validator-coder") (lit "t-01") None) = true.
Proof.
  intros U n. apply (sibling_reply_accepted (lit "validator-coder") (lit "t-01") (lit "7") n).
  - apply agent_ok_validator_coder.
  - vm_compute. reflexivity.
  - repeat constructor.
  - vm_compute. reflexivity.
Defined.
