(* ===== verification/NoticeProps.v ===== *)
(** * Steering notices: replies, histories and the properties

    The effect of recording a reply, the invariant of every history of the
    store, and the theorems about posting, draining and routing. *)

From S2P Require Import Prelude Str Regex TaskId Agents PlanParse PlanParseFacts Notice NoticeFacts.

(** ** Recording a reply *)

Section replies.
Context `{DashOrder}.

Definition without (id : str) (l : list SteerNotice) : list SteerNotice :=
  List.filter (fun n => negb (str_eqb (notice_id n) id)) l.

Lemma without_id id l : existsb (fun n => str_eqb (notice_id n) id) l = false -> without id l = l.
Proof.
  induction l as [|n l IH]; simpl; [done|]. intros [Hn Hl]%orb_false_iff.
  unfold without. simpl. rewrite Hn. simpl. f_equal. by apply IH.
Qed.

Lemma without_idemp id l : without id (without id l) = without id l.
Proof.
  unfold without. induction l as [|n l IH]; simpl; [done|].
  destruct (str_eqb (notice_id n) id) eqn:E; simpl; [done|]. rewrite E. simpl. by f_equal.
Qed.

Lemma drop_copies_fold clock id keys s :
  let s' := fold_left (drop_copies_in clock id) keys s in
  pending s' = pending s /\ replied s' = replied s /\ next_id s' = next_id s /\
  replied_seq s' = replied_seq s /\
  forall k, notices <$> inboxes s' !! k =
    if decide (k ∈ keys) then without id ∘ notices <$> inboxes s !! k else notices <$> inboxes s !! k.
Proof.
  induction keys as [|key keys IH] using rev_ind.
  - by split_and!.
  - rewrite fold_left_app. simpl. destruct IH as (Hp & Hr & Hn & Hs & Hi).
    set (s1 := fold_left (drop_copies_in clock id) keys s) in *. cbv zeta.
    unfold drop_copies_in. destruct (inboxes s1 !! key) as [ib|] eqn:Hk; simpl.
    + split_and!; try done. intros k. pose proof (Hi k) as Hik. destruct (decide (k = key)) as [->|Hne].
      * rewrite lookup_insert_eq, decide_True by (apply elem_of_app; right; by left). simpl.
        rewrite Hk in Hik. simpl in Hik. fold (without id (notices ib)).
        destruct (inboxes s !! key) as [ib0|]; case_decide; simplify_eq/=; [|by rewrite Hik].
        by rewrite Hik, without_idemp.
      * rewrite lookup_insert_ne, Hik by done. apply decide_ext.
        rewrite elem_of_app, list_elem_of_singleton. naive_solver.
    + split_and!; try done. intros k. rewrite (Hi k). pose proof (Hi key) as Hik. rewrite Hk in Hik.
      destruct (decide (k = key)) as [->|Hne].
      * destruct (inboxes s !! key) as [ib0|]; [by case_decide|]. by repeat case_decide.
      * apply decide_ext. rewrite elem_of_app, list_elem_of_singleton. naive_solver.
Qed.

(** Every copy of the notice leaves the queues and nothing else does. *)
Lemma drop_queued_notice_copies_spec clock id s :
  let s' := drop_queued_notice_copies clock id s in
  pending s' = pending s /\ replied s' = replied s /\ next_id s' = next_id s /\
  replied_seq s' = replied_seq s /\
  forall k, notices <$> inboxes s' !! k = without id ∘ notices <$> inboxes s !! k.
Proof.
  unfold drop_queued_notice_copies.
  match goal with |- context [fold_left _ ?ks _] => set (keys := ks) end.
  destruct (drop_copies_fold clock id keys s) as (? & ? & ? & ? & Hi). split_and!; try done.
  intros k. rewrite (Hi k). case_decide as Hk; [done|].
  destruct (inboxes s !! k) as [ib|] eqn:Hib; simpl; [|done]. f_equal. symmetry. apply without_id.
  destruct (existsb _ (notices ib)) eqn:E; [|done]. destruct Hk. apply list_elem_of_fmap.
  exists (k, ib). split; [done|]. apply list_elem_of_In, filter_In. split; [|done].
  by rewrite <-list_elem_of_In, dash_iter_perm, elem_of_map_to_list.
Qed.

(** The orders the store sorts by. *)
Lemma id_leb_total a b : id_leb a b = false -> id_leb b a = true.
Proof.
  revert b. induction a as [|c a IH]; intros [|d b]; simpl; try done.
  repeat case_match; try done; try (intros; lia). auto.
Qed.

Lemma id_leb_trans a b c : id_leb a b = true -> id_leb b c = true -> id_leb a c = true.
Proof.
  revert b c. induction a as [|x a IH]; intros [|y b] [|z c]; simpl; try done.
  repeat case_match; try done; try (intros; lia). eauto.
Qed.

Lemma stamp_leb_total x y : stamp_leb x y = false -> stamp_leb y x = true.
Proof.
  unfold stamp_leb. repeat case_match; try done; try (intros; lia). apply id_leb_total.
Qed.

Lemma stamp_leb_trans x y z : stamp_leb x y = true -> stamp_leb y z = true -> stamp_leb x z = true.
Proof.
  unfold stamp_leb. repeat case_match; try done; try (intros; lia). apply id_leb_trans.
Qed.

Lemma sorted_take_drop l n x y :
  Sorted (fun x y => stamp_leb x y = true) l -> x ∈ take n l -> y ∈ drop n l -> stamp_leb x y = true.
Proof.
  intros Hl. apply Sorted_StronglySorted in Hl; [|exact stamp_leb_trans]. rewrite <-(take_drop n l) in Hl. revert Hl.
  induction (take n l) as [|z k IH]; simpl; intros Hl Hx Hy; [by apply not_elem_of_nil in Hx|].
  apply StronglySorted_inv in Hl as [Hk Hz]. apply elem_of_cons in Hx as [->|Hx]; [|auto].
  rewrite Forall_app, !Forall_forall in Hz. by apply Hz.
Qed.

Lemma delete_replies_spec ids s :
  fold_left (fun s id => on_replied (delete id) s) ids s =
  on_replied (fun m => foldr delete m (rev ids)) s.
Proof.
  revert s. induction ids as [|id ids IH]; intros s; simpl; [by destruct s|].
  rewrite IH. unfold on_replied; simpl. f_equal. by rewrite foldr_app.
Qed.

(** The newest reply is not among the ones the bound drops. *)
Lemma newest_not_oldest s id r n :
  replied s !! id = Some r -> n < size (replied s) ->
  (forall id' r', replied s !! id' = Some r' -> id' <> id -> (reply_seq r' < reply_seq r)%N) ->
  id ∉ take n (oldest_replies s).
Proof.
  unfold oldest_replies. intros Hr Hn Hnew Hin.
  pose proof (stamped_keys_length reply_seq (replied s)) as Hlen.
  pose proof (stamped_keys_NoDup reply_seq (replied s) (size (replied s))) as Hnd.
  set (pairs := map (fun e => (reply_seq (snd e), fst e)) (dash_iter (replied s))) in *.
  pose proof (sort_with_sorted stamp_leb pairs stamp_leb_total) as Hs.
  assert (Hpair : forall q id', (q, id') ∈ sort_with stamp_leb pairs ->
    exists r', replied s !! id' = Some r' /\ q = reply_seq r').
  { intros q id'. rewrite sort_with_perm. unfold pairs. rewrite list_elem_of_fmap.
    intros ([k r'] & [= -> ->] & Hk). rewrite dash_iter_perm, elem_of_map_to_list in Hk.
    by exists r'. }
  rewrite length_map in Hlen. rewrite firstn_map in Hin.
  apply list_elem_of_fmap in Hin as ([q id'] & Heq & Hin). simpl in Heq. subst id'.
  destruct (drop n (sort_with stamp_leb pairs)) as [|[q2 id2] k] eqn:Ed.
  { apply (f_equal length) in Ed. rewrite length_drop in Ed. simpl in Ed. lia. }
  assert (Hle : stamp_leb (q, id) (q2, id2) = true).
  { eapply sorted_take_drop; [done|done|]. rewrite Ed. by left. }
  destruct (Hpair q id) as (r1 & Hr1 & ->); [by eapply sublist_subseteq, Hin; apply sublist_take|].
  destruct (Hpair q2 id2) as (r2 & Hr2 & ->).
  { eapply (sublist_subseteq (drop n _)); [apply sublist_drop|]. rewrite Ed. by left. }
  destruct (decide (id2 = id)) as [->|Hne].
  - rewrite take_ge in Hnd by (rewrite length_map; lia).
    rewrite <-(take_drop n (sort_with stamp_leb pairs)), Ed, map_app in Hnd.
    apply NoDup_app in Hnd as (_ & Hdis & _). apply (Hdis id); [|by left].
    apply list_elem_of_fmap. by exists (reply_seq r1, id).
  - pose proof (Hnew _ _ Hr2 Hne). unfold stamp_leb in Hle. simpl in Hle.
    rewrite Hr in Hr1. simplify_eq. repeat case_match; try done; lia.
Qed.

Lemma bound_replies_spec s :
  pending (bound_replies s) = pending s /\ inboxes (bound_replies s) = inboxes s /\
  next_id (bound_replies s) = next_id s /\ replied_seq (bound_replies s) = replied_seq s /\
  size (replied (bound_replies s)) <= REPLIED_NOTICES_CAP /\
  replied (bound_replies s) ⊆ replied s /\
  forall id r, replied s !! id = Some r ->
    (forall id' r', replied s !! id' = Some r' -> id' <> id -> (reply_seq r' < reply_seq r)%N) ->
    replied (bound_replies s) !! id = Some r.
Proof.
  unfold bound_replies. destruct (REPLIED_NOTICES_CAP <? size (replied s)) eqn:E.
  2:{ apply Nat.ltb_ge in E. split_and!; done. }
  apply Nat.ltb_lt in E. rewrite delete_replies_spec. simpl. set (ids := take _ _).
  split_and!; try done.
  - pose proof (size_foldr_delete (replied s) (rev ids)) as Hsz.
    assert (Hlen : length (rev ids) = size (replied s) - REPLIED_NOTICES_CAP).
    { unfold ids. rewrite length_rev, length_take. unfold oldest_replies. rewrite stamped_keys_length. lia. }
    rewrite Hlen in Hsz. enough (size (foldr delete (replied s) (rev ids)) +
      (size (replied s) - REPLIED_NOTICES_CAP) = size (replied s)) by lia. apply Hsz.
    + rewrite <-Permutation_rev. apply stamped_keys_NoDup.
    + intros k Hk. rewrite <-Permutation_rev in Hk. by eapply stamped_keys_dom.
  - apply map_subseteq_spec. intros id r. rewrite lookup_foldr_delete. by case_decide.
  - intros id r Hr Hnew. rewrite lookup_foldr_delete. case_decide as Hd; [|done].
    rewrite <-Permutation_rev in Hd. exfalso. eapply newest_not_oldest; [done| |done|exact Hd].
    unfold REPLIED_NOTICES_CAP in *. lia.
Qed.

(** The sequence numbers of the recorded replies lie below the counter. *)
Definition seqs_below (s : Store) : Prop :=
  forall id r, replied s !! id = Some r -> (reply_seq r < replied_seq s)%N.

(** What a successful reply does. *)
Record reply_effect (now : N) (tag id message : str) (n : SteerNotice) (s s' : Store) : Prop := {
  re_pending : pending s' = delete id (pending s);
  re_queues : forall k, notices <$> inboxes s' !! k = without id ∘ notices <$> inboxes s !! k;
  re_next_id : next_id s' = next_id s;
  re_seq : replied_seq s' = fetch_add (replied_seq s) 1;
  re_ring : size (replied s') <= REPLIED_NOTICES_CAP;
  re_replied : forall id' r, replied s' !! id' = Some r ->
    replied s !! id' = Some r \/ id' = id /\ reply_seq r = replied_seq s;
  re_reply : seqs_below s -> get_worker_reply s' id =
    Some {| reply_notice_id := id; worker_tag := tag; reply_message := message; replied_at_ms := now |}
}.

Lemma commit_reply_spec clock now tag id message s :
  coherent (pending s) (inboxes s) ->
  match commit_reply clock now tag id message s with
  | (inl n, s') => pending s !! id = Some n /\ reply_effect now tag id message n s s'
  | (inr r, s') => pending s !! id = None /\ r = UnknownNoticeId id tag /\ s' = s
  end.
Proof.
  intros Hc. unfold commit_reply. destruct (pending s !! id) as [n|] eqn:Hn; [|done].
  pose proof (coherent_id _ _ Hc _ _ Hn) as Hid. rewrite Hid, str_eqb_refl.
  set (s1 := on_pending (delete id) s).
  destruct (drop_queued_notice_copies_spec clock id s1) as (Hp2 & Hr2 & Hn2 & Hs2 & Hi2).
  set (s2 := drop_queued_notice_copies clock id s1) in *.
  set (stored := {| reply := _; reply_seq := _ |}). set (s3 := on_replied _ _).
  destruct (bound_replies_spec s3) as (Hp4 & Hi4 & Hn4 & Hs4 & Hsz & Hsub & Hnew).
  split; [done|]. split; simpl in *.
  - by rewrite Hp4, Hp2.
  - intros k. by rewrite Hi4, (Hi2 k).
  - by rewrite Hn4, Hn2.
  - rewrite Hs4. simpl. by rewrite Hs2.
  - done.
  - intros id' r Hr. apply (lookup_weaken _ _ _ _ Hr) in Hsub. simpl in Hsub.
    apply lookup_insert_Some in Hsub as [[<- <-]|[_ Hr']]; [right; by rewrite <-Hs2|].
    left. by rewrite Hr2 in Hr'.
  - intros Hseq. unfold get_worker_reply. rewrite (Hnew id stored); [done|apply lookup_insert_eq|].
    intros id' r' Hr' Hne. rewrite lookup_insert_ne, Hr2 in Hr' by done. simpl.
    rewrite Hs2. by eapply Hseq.
Qed.

End replies.

(** ** Histories of the store *)

Section histories.
Context `{DashOrder} `{Unicode}.

(** An id the counter has already given out. *)
Definition issued (s : Store) (id : str) : Prop :=
  exists k, (1 <= k < next_id s)%N /\ id = spell_notice_id k.

(** One operation.  A post names no id, or re-uses an issued one that is no
    longer pending, as the follow-up of an answered notice does.  The counters
    are below their wrap-around. *)
Inductive notice_step (s : Store) : Store -> Prop :=
  | step_post now_prune now target inquiry :
      (next_id s + 1 < 2 ^ 64)%N ->
      notice_step s (snd (post_notice_to_worker_tracked now_prune now target inquiry None s))
  | step_follow_up now_prune now target inquiry id :
      issued s id -> pending s !! id = None ->
      notice_step s (snd (post_notice_to_worker_tracked now_prune now target inquiry (Some id) s))
  | step_prune now : notice_step s (snd (prune_expired_notices now s))
  | step_drain now worker_key : notice_step s (snd (drain_worker_notices_report now worker_key s))
  | step_reclaim worker_key : notice_step s (snd (reclaim_worker_inbox worker_key s))
  | step_reply clock now tag id message :
      (replied_seq s + 1 < 2 ^ 64)%N ->
      notice_step s (snd (record_worker_reply_for_notice clock now tag id message s))
  | step_commit clock now tag id message :
      (replied_seq s + 1 < 2 ^ 64)%N ->
      notice_step s (snd (commit_reply clock now tag id message s))
  | step_seed floor : (floor < 2 ^ 64)%N -> notice_step s (snd (seed_notice_id_floor floor s))
  | step_clear : notice_step s (clear_all_notices s).

Inductive notice_history : Store -> Prop :=
  | history_init : notice_history initial_store
  | history_step s s' : notice_history s -> notice_step s s' -> notice_history s'.

Record store_ok (s : Store) : Prop := {
  ok_coherent : coherent (pending s) (inboxes s);
  ok_keys : size (inboxes s) <= S MAX_INBOX_KEYS;
  ok_ring : size (replied s) <= REPLIED_NOTICES_CAP;
  ok_seqs : seqs_below s;
  ok_issued : forall id, is_Some (pending s !! id) -> issued s id;
  ok_next : (1 <= next_id s < 2 ^ 64)%N
}.

Lemma spell_notice_id_inj a b : spell_notice_id a = spell_notice_id b -> a = b.
Proof. intros Hab%app_inv_head%lit_inj. by apply (inj pretty.pretty) in Hab. Qed.

(** Operations that only remove keep the invariant. *)
Lemma store_ok_shrink s s' :
  store_ok s -> coherent (pending s') (inboxes s') -> shrinks (inboxes s) (inboxes s') ->
  pending s' ⊆ pending s -> ring s' = ring s -> next_id s' = next_id s -> store_ok s'.
Proof.
  intros [Hc Hk Hr Hs Hi Hn] Hc' Hsh Hp [= Hr1 Hr2] Hn'. split.
  - done.
  - apply shrinks_size in Hsh. lia.
  - by rewrite Hr1.
  - unfold seqs_below. by rewrite Hr1, Hr2.
  - intros id [n Hid]. unfold issued. rewrite Hn'. apply Hi. exists n. by eapply lookup_weaken.
  - by rewrite Hn'.
Qed.

Lemma prune_ok now s r s' expired evicted :
  prune_effect now s r s' expired evicted -> store_ok s -> store_ok s'.
Proof.
  intros He Hok. eapply store_ok_shrink; [done|eapply prune_coherent; [done|by apply ok_coherent]|by apply He| | |];
    [by eapply prune_pending_weaken|by apply He..].
Qed.

(** The steps of a post: prune, name the notice, queue it. *)
Lemma post_inv np now target inquiry ov s o s' :
  post_notice_to_worker_tracked np now target inquiry ov s = (o, s') ->
  exists s1 s2 expired evicted id,
    prune_effect np s (post_prune o) s1 expired evicted /\
    (id, s2) = match ov with Some id => (id, s1) | None => next_notice_id s1 end /\
    post_notice o = {| notice_id := id; user_inquiry := inquiry;
                       target_worker := inbox_key target; created_at_ms := now |} /\
    enqueue now (post_notice o) (on_pending <[id := post_notice o]> s2) = (evicted_older o, s').
Proof.
  unfold post_notice_to_worker_tracked. destruct (prune_notice_storage np s) as [r s1] eqn:Ep.
  destruct (prune_spec _ _ _ _ Ep) as (expired & evicted & He).
  destruct (match ov with Some id => (id, s1) | None => next_notice_id s1 end) as [id s2] eqn:Eid.
  destruct (enqueue _ _ _) as [ev s3] eqn:Eq. intros [= <- <-]. simpl.
  by exists s1, s2, expired, evicted, id.
Qed.

(** Queueing under a fresh issued id. *)
Lemma enqueue_ok now n s p evicted s' :
  store_ok (on_pending (fun _ => p) s) -> size (inboxes s) <= MAX_INBOX_KEYS ->
  pending s = <[notice_id n := n]> p -> p !! notice_id n = None -> issued s (notice_id n) ->
  enqueue now n s = (evicted, s') -> store_ok s'.
Proof.
  intros [Hc Hk Hr Hs Hi Hn] Hsz Hp Hfresh Hiss Heq. simpl in *.
  pose proof (enqueue_coherent _ _ _ _ _ _ Hp Hfresh Hc Heq) as Hc'.
  destruct (enqueue_spec _ _ _ _ _ Heq) as (kept & _ & _ & Hi' & Hp' & [= Hr1 Hr2] & Hn'). split.
  - done.
  - rewrite Hi', map_size_insert. destruct (inboxes s !! _); unfold id; lia.
  - by rewrite Hr1.
  - unfold seqs_below. by rewrite Hr1, Hr2.
  - intros id [x Hid]. rewrite Hp', Hp in Hid. case_decide; [done|]. unfold issued. rewrite Hn'.
    apply lookup_insert_Some in Hid as [[<- _]|[_ Hid]]; [done|]. apply Hi. by exists x.
  - by rewrite Hn'.
Qed.

Lemma raise_ok s m : store_ok s -> (next_id s <= m < 2 ^ 64)%N -> store_ok (set_next_id m s).
Proof.
  intros [Hc Hk Hr Hs Hi Hn] Hm. split; try done; simpl.
  - intros id (k & Hk' & ->)%Hi. exists k. simpl. split; [lia|done].
  - lia.
Qed.

Lemma on_pending_same s f p : p = pending s -> on_pending (fun _ => p) (on_pending f s) = s.
Proof. intros ->. by destruct s. Qed.

Lemma next_notice_id_fresh s : store_ok s -> pending s !! spell_notice_id (next_id s) = None.
Proof.
  intros Hok. destruct (pending s !! _) eqn:E; [|done].
  destruct (ok_issued _ Hok (spell_notice_id (next_id s))) as (k & Hk & Hid%spell_notice_id_inj);
    [by eexists|lia].
Qed.

Lemma post_ok s np now target inquiry ov :
  store_ok s ->
  match ov with
  | None => (next_id s + 1 < 2 ^ 64)%N
  | Some id => issued s id /\ pending s !! id = None
  end ->
  store_ok (snd (post_notice_to_worker_tracked np now target inquiry ov s)).
Proof.
  intros Hok Hov. destruct (post_notice_to_worker_tracked _ _ _ _ _ _) as [o s'] eqn:E. simpl.
  destruct (post_inv _ _ _ _ _ _ _ _ E) as (s1 & s2 & expired & evicted & id & He & Hid & Hpn & Heq).
  assert (Hok1 : store_ok s1) by (eapply prune_ok; eauto).
  assert (Hn1 : next_id s1 = next_id s) by apply He.
  pose proof (pe_size _ _ _ _ _ _ He) as Hsz.
  assert (store_ok s2 /\ pending s2 = pending s1 /\ inboxes s2 = inboxes s1 /\
    pending s1 !! id = None /\ issued s2 id) as (Hok2 & Hp2 & Hi2 & Hfresh & Hiss).
  { destruct ov as [id0|]; simplify_eq/=.
    - destruct Hov as [(k & Hk & ->) Hnone]. split_and!; try done.
      + destruct (pending s1 !! _) eqn:Hx; [|done].
        apply (lookup_weaken _ (pending s)) in Hx; [congruence|by eapply prune_pending_weaken].
      + exists k. split; [lia|done].
    - pose proof (ok_next _ Hok1). unfold next_notice_id, fetch_add in Hid.
      rewrite N.mod_small in Hid by lia. injection Hid as -> ->. split_and!; try done.
      + apply raise_ok; [done|lia].
      + by apply next_notice_id_fresh.
      + exists (next_id s1). simpl. split; [lia|done]. }
  assert (Hnid : notice_id (post_notice o) = id) by by rewrite Hpn.
  eapply (enqueue_ok now (post_notice o)); [| | | | |exact Heq]; simpl.
  - rewrite on_pending_same; [exact Hok2|reflexivity].
  - by rewrite Hi2.
  - by rewrite Hnid.
  - by rewrite Hnid, Hp2.
  - by rewrite Hnid.
Qed.

(** Reclaiming removes empty inboxes only. *)
Lemma reclaim_if_empty_spec key s :
  let s' := snd (reclaim_if_empty key s) in
  pending s' = pending s /\ ring s' = ring s /\ next_id s' = next_id s /\
  shrinks (inboxes s) (inboxes s') /\ queued (inboxes s') ≡ₚ queued (inboxes s).
Proof.
  unfold reclaim_if_empty. destruct (inboxes s !! key) as [ib|] eqn:Hk.
  2:{ split_and!; try done. apply shrinks_refl. }
  destruct (is_empty (notices ib)) eqn:E; simpl.
  2:{ split_and!; try done. apply shrinks_refl. }
  split_and!; try done; [apply shrinks_delete|].
  rewrite (queued_delete _ _ _ Hk). by destruct (notices ib).
Qed.

Lemma reclaim_fold_spec keys s r :
  let s' := fst (fold_left reclaim_entry keys (s, r)) in
  pending s' = pending s /\ ring s' = ring s /\ next_id s' = next_id s /\
  shrinks (inboxes s) (inboxes s') /\ queued (inboxes s') ≡ₚ queued (inboxes s).
Proof.
  revert s r. induction keys as [|[k q] keys IH]; intros s r; simpl.
  { split_and!; try done. apply shrinks_refl. }
  destruct (0 <? q); [apply IH|]. pose proof (reclaim_if_empty_spec k s) as Hr.
  destruct (reclaim_if_empty k s) as [b s1]. simpl in Hr. destruct Hr as (Hp & Hr & Hn & Hs & Hq).
  match goal with |- context [fold_left reclaim_entry keys (s1, ?r')] =>
    destruct (IH s1 r') as (Hp' & Hr' & Hn' & Hs' & Hq') end.
  split_and!; try congruence; [by eapply shrinks_trans|by rewrite Hq', Hq].
Qed.

Lemma foldr_delete_shrinks m ks : shrinks m (foldr delete m ks).
Proof. intros k ib. rewrite lookup_foldr_delete. case_decide; [done|]. by exists ib. Qed.

Lemma drain_ok s now worker_key :
  store_ok s -> store_ok (snd (drain_worker_notices_report now worker_key s)).
Proof.
  intros Hok. destruct (drain_worker_notices_report now worker_key s) as [o s'] eqn:E. simpl.
  destruct (drain_inv _ _ _ _ _ E) as (r & s1 & expired & evicted & out & He & _ & _ & Hr & Hn & Hp & Hi & _).
  assert (Hok1 : store_ok s1) by (eapply prune_ok; eauto).
  assert (Hsh : shrinks (inboxes s1) (inboxes s')) by (rewrite Hi; apply foldr_delete_shrinks).
  eapply store_ok_shrink; try done; [|by rewrite Hp].
  eapply coherent_shrink; [by apply ok_coherent|done|by rewrite Hp|].
  intros n (k & ib' & Hk & Hn')%elem_of_queued. destruct (Hsh _ _ Hk) as (ib & Hk' & Hsub).
  rewrite Hp. exists n. eapply coherent_live; [by apply ok_coherent|done|by eapply sublist_subseteq].
Qed.

Lemma reply_effect_shrinks now tag id message n s s' :
  reply_effect now tag id message n s s' -> shrinks (inboxes s) (inboxes s').
Proof.
  intros He k ib Hk. pose proof (re_queues _ _ _ _ _ _ _ He k) as Hq. rewrite Hk in Hq.
  destruct (inboxes s !! k) as [ib0|]; simplify_eq/=. exists ib0. rewrite Hq. split; [done|]. apply filter_sublist.
Qed.

Lemma reply_effect_ok now tag id message n s s' :
  store_ok s -> (replied_seq s + 1 < 2 ^ 64)%N -> reply_effect now tag id message n s s' -> store_ok s'.
Proof.
  intros Hok Hseq He. pose proof (reply_effect_shrinks _ _ _ _ _ _ _ He) as Hsh.
  split.
  - eapply coherent_shrink; [by apply ok_coherent|done|rewrite (re_pending _ _ _ _ _ _ _ He); apply delete_subseteq|].
    intros x (k & ib & Hk & Hx)%elem_of_queued.
    pose proof (re_queues _ _ _ _ _ _ _ He k) as Hq. rewrite Hk in Hq.
    destruct (inboxes s !! k) as [ib0|] eqn:Hk0; simplify_eq/=. rewrite Hq in Hx.
    apply list_elem_of_In, filter_In in Hx as [Hx Hid%negb_true_iff]. apply list_elem_of_In in Hx.
    rewrite (re_pending _ _ _ _ _ _ _ He), lookup_delete_ne.
    + exists x. by eapply coherent_live; [apply ok_coherent| |].
    + intros ->. by rewrite str_eqb_refl in Hid.
  - apply shrinks_size in Hsh. pose proof (ok_keys _ Hok). lia.
  - apply He.
  - intros id' r Hr. rewrite (re_seq _ _ _ _ _ _ _ He). unfold fetch_add. rewrite N.mod_small by done.
    destruct (re_replied _ _ _ _ _ _ _ He _ _ Hr) as [Hr'|[_ ->]]; [|lia].
    apply (ok_seqs _ Hok) in Hr'. lia.
  - intros id' [x Hx]. rewrite (re_pending _ _ _ _ _ _ _ He) in Hx. apply lookup_delete_Some in Hx as [_ Hx].
    unfold issued. rewrite (re_next_id _ _ _ _ _ _ _ He). apply (ok_issued _ Hok). by exists x.
  - rewrite (re_next_id _ _ _ _ _ _ _ He). apply Hok.
Qed.

Lemma empty_ok s :
  pending s = ∅ -> inboxes s = ∅ -> replied s = ∅ -> (1 <= next_id s < 2 ^ 64)%N -> store_ok s.
Proof.
  intros Hp Hi Hr Hn. split.
  - rewrite Hp, Hi. split; intros * Hx; by rewrite lookup_empty in Hx.
  - rewrite Hi, map_size_empty. lia.
  - rewrite Hr, map_size_empty. lia.
  - intros id r Hx. by rewrite Hr, lookup_empty in Hx.
  - intros id [x Hx]. by rewrite Hp, lookup_empty in Hx.
  - done.
Qed.

Lemma step_ok s s' : store_ok s -> notice_step s s' -> store_ok s'.
Proof.
  intros Hok [np now t i Hn|np now t i id Hid Hp|now|now key|key|clock now tag id msg Hn
             |clock now tag id msg Hn|floor Hf|].
  - by apply (post_ok s np now t i None).
  - by apply (post_ok s np now t i (Some id)).
  - unfold prune_expired_notices. destruct (prune_notice_storage now s) as [r s1] eqn:E.
    destruct (prune_spec _ _ _ _ E) as (? & ? & He). by eapply prune_ok.
  - by apply drain_ok.
  - unfold reclaim_worker_inbox. match goal with |- context [fold_left _ ?ks (_, ?r)] =>
      pose proof (reclaim_fold_spec ks s r) as Hr; destruct (fold_left _ _ _) as [s1 r1] end.
    simpl in *. destruct Hr as (Hp & Hr & Hn & Hs & Hq). eapply store_ok_shrink; try done; [|by rewrite Hp].
    eapply coherent_shrink; [by apply ok_coherent|done|by rewrite Hp|].
    intros n Hin. rewrite Hq in Hin. rewrite Hp. apply elem_of_queued in Hin as (k & ib & Hk & Hn').
    exists n. by eapply coherent_live; [apply ok_coherent| |].
  - unfold record_worker_reply_for_notice. destruct (check_reply _ _ _); [|done].
    pose proof (commit_reply_spec clock now (trim tag) (trim id) msg s (ok_coherent _ Hok)) as Hc.
    destruct (commit_reply _ _ _ _ _ _) as [[n|r] s1]; [by eapply reply_effect_ok, Hc|].
    by destruct Hc as (_ & _ & ->).
  - pose proof (commit_reply_spec clock now tag id msg s (ok_coherent _ Hok)) as Hc.
    destruct (commit_reply _ _ _ _ _ _) as [[n|r] s1]; [by eapply reply_effect_ok, Hc|].
    by destruct Hc as (_ & _ & ->).
  - apply raise_ok; [done|]. pose proof (ok_next _ Hok). lia.
  - by apply empty_ok; [..|exact (ok_next _ Hok)].
Qed.

(** ** The bound on targets *)

Lemma prune_bounds s now : size (inboxes (snd (prune_expired_notices now s))) <= MAX_INBOX_KEYS.
Proof.
  unfold prune_expired_notices. destruct (prune_notice_storage now s) as [r s1] eqn:E.
  destruct (prune_spec _ _ _ _ E) as (? & ? & He). apply He.
Qed.
Lemma drain_bounds s now key : size (inboxes (snd (drain_worker_notices_report now key s))) <= MAX_INBOX_KEYS.
Proof.
  destruct (drain_worker_notices_report now key s) as [o s'] eqn:E. cbn [snd].
  destruct (drain_inv _ _ _ _ _ E) as (r & s1 & expired & evicted & out & He & _ & _ & _ & _ & _ & Hi & _).
  rewrite Hi. etransitivity; [apply shrinks_size, foldr_delete_shrinks|apply He].
Qed.

(** One notice, on a key the table did not hold. *)
Definition opened (s s' : Store) : Prop :=
  exists key ib, inboxes s !! key = None /\ inboxes s' !! key = Some ib /\ exists n, notices ib = [n].

Lemma post_opens s np now target inquiry ov :
  size (inboxes s) <= MAX_INBOX_KEYS ->
  let s' := snd (post_notice_to_worker_tracked np now target inquiry ov s) in
  MAX_INBOX_KEYS < size (inboxes s') -> opened s s'.
Proof.
  intros Hs s' Hs'. unfold s' in *. destruct (post_notice_to_worker_tracked _ _ _ _ _ _) as [o s3] eqn:E. cbn [snd] in *.
  destruct (post_inv _ _ _ _ _ _ _ _ E) as (s1 & s2 & expired & evicted & id & He & Hid & Hpn & Heq).
  destruct (enqueue_spec _ _ _ _ _ Heq) as (kept & Hk & Hlen & Hi & _). cbn [inboxes on_pending] in *.
  assert (Hi2 : inboxes s2 = inboxes s1) by (destruct ov; unfold next_notice_id in Hid; by simplify_eq/=). rewrite Hi2 in *.
  set (key := target_worker (post_notice o)) in *. pose proof (pe_shrinks _ _ _ _ _ _ He) as Hsh.
  pose proof (shrinks_size _ _ Hsh) as Hle. rewrite Hi in Hs'.
  destruct (inboxes s1 !! key) as [ib|] eqn:Hkey.
  { rewrite map_size_insert_Some in Hs' by done. lia. }
  rewrite map_size_insert_None in Hs' by done. exists key. eexists. rewrite Hi, lookup_insert_eq. split_and!; [|done|].
  - apply not_elem_of_dom. assert (Hd : dom (inboxes s1) ≡ dom (inboxes s)).
    { apply set_subseteq_size_equiv; [|rewrite !size_dom; lia]. intros k [ib Hib]%elem_of_dom.
      destruct (Hsh _ _ Hib) as (ib0 & H1 & _). apply elem_of_dom. by exists ib0. }
    rewrite <-Hd. by apply not_elem_of_dom.
  - exists (post_notice o). cbn [notices]. cbn [length] in Hlen. unfold INBOX_CAPACITY in Hlen. destruct kept as [|n [|]]; cbn [length] in Hlen; [lia| |lia].
    destruct (evicted_older o) as [|e l]; cbn [app] in Hk; [by injection Hk as <-|]. injection Hk as _ Hk. by destruct l.
Qed.

Lemma only_a_post_opens s s' : store_ok s -> notice_step s s' ->
  size (inboxes s) <= MAX_INBOX_KEYS -> MAX_INBOX_KEYS < size (inboxes s') -> opened s s'.
Proof.
  intros Hok Hstep Hs Hs'.
  assert (Hno : shrinks (inboxes s) (inboxes s') -> opened s s') by (intros Hsh%shrinks_size; lia).
  destruct Hstep as [np now t i Hn|np now t i id Hid Hp|now|now key|key|clock now tag id msg Hn|clock now tag id msg Hn|floor Hf|].
  - by apply (post_opens s np now t i None).
  - by apply (post_opens s np now t i (Some id)).
  - pose proof (prune_bounds s now). lia.
  - pose proof (drain_bounds s now key). lia.
  - unfold reclaim_worker_inbox in *. match goal with |- context [fold_left _ ?ks (_, ?r)] =>
      pose proof (reclaim_fold_spec ks s r) as Hr; destruct (fold_left _ _ _) as [s1 r1] end. by apply Hno, Hr.
  - unfold record_worker_reply_for_notice in *. destruct (check_reply _ _ _); [|by apply Hno, shrinks_refl].
    pose proof (commit_reply_spec clock now (trim tag) (trim id) msg s (ok_coherent _ Hok)) as Hc.
    destruct (commit_reply _ _ _ _ _ _) as [[n|r] s1]; [apply Hno; by eapply reply_effect_shrinks, Hc|].
    destruct Hc as (_ & _ & ->). by apply Hno, shrinks_refl.
  - pose proof (commit_reply_spec clock now tag id msg s (ok_coherent _ Hok)) as Hc.
    destruct (commit_reply _ _ _ _ _ _) as [[n|r] s1]; [apply Hno; by eapply reply_effect_shrinks, Hc|].
    destruct Hc as (_ & _ & ->). by apply Hno, shrinks_refl.
  - by apply Hno, shrinks_refl.
  - cbn in Hs'. rewrite map_size_empty in Hs'. lia.
Qed.

(** C40: In every history of posts, follow-ups, prunes, drains, reclaims,
    replies (whole, or removed after another task ran), restored floors and
    clears, the tables stay coherent: a pending notice is filed under its id, a
    queue holds at most 64 notices, all addressed to its key and with distinct
    ids, every queued notice is still pending, and every pending id was issued
    by the counter.  At most 64 replies are retained, with sequence numbers
    below their counter, and at most 257 targets: a prune and a drain leave at
    most 256, and only a post to one more target reaches 257. *)
Theorem notice_store_invariant s : notice_history s ->
  store_ok s /\
  (forall now, size (inboxes (snd (prune_expired_notices now s))) <= MAX_INBOX_KEYS) /\
  (forall now key, size (inboxes (snd (drain_worker_notices_report now key s))) <= MAX_INBOX_KEYS) /\
  (forall s', notice_step s s' -> size (inboxes s) <= MAX_INBOX_KEYS -> MAX_INBOX_KEYS < size (inboxes s') -> opened s s').
Proof.
  intros Hh. assert (Hok : store_ok s) by (induction Hh as [|s s' _ IH Hstep]; [by apply empty_ok|by eapply step_ok]).
  split; [done|]. split; [intros now; by apply prune_bounds|]. split; [intros now key; by apply drain_bounds|].
  intros s' Hstep Hs Hs'. by apply only_a_post_opens.
Qed.

(** A post accounts for every notice.  The queued notices and the new one
    are, as a multiset, the ones still queued, the ones evicted as oldest, the
    ones expired (all reported by id, all past their lifetime) and the ones of
    evicted targets (counted, and none unless the table was over its bound).
    The target's queue afterwards is its earlier live queue followed by the new
    notice, less the oldest ones beyond the capacity, and the new notice is
    always the last of it. *)
Theorem post_conserves np now target inquiry ov s o s' :
  post_notice_to_worker_tracked np now target inquiry ov s = (o, s') ->
  exists expired evicted old kept ib,
    post_notice o :: queued (inboxes s) ≡ₚ
      evicted_older o ++ expired ++ evicted ++ queued (inboxes s') /\
    Forall (fun n => is_notice_expired np n = true /\ notice_id n ∈ expired_ids (post_prune o)) expired /\
    length evicted = notices_dropped_by_key_eviction (post_prune o) /\
    (size (inboxes s) <= MAX_INBOX_KEYS -> evicted = []) /\
    old `sublist_of` peek_worker_inbox s target /\
    old = evicted_older o ++ kept /\
    inboxes s' !! inbox_key target = Some ib /\ notices ib = kept ++ [post_notice o] /\
    length (notices ib) = min (S (length old)) INBOX_CAPACITY.
Proof.
  intros (s1 & s2 & expired & evicted & id & He & Hid & Hpn & Heq)%post_inv.
  assert (Hi2 : inboxes s2 = inboxes s1) by (destruct ov; unfold next_notice_id in Hid; by simplify_eq/=).
  pose proof (enqueue_queued _ _ _ _ _ Heq) as Hq.
  destruct (enqueue_spec _ _ _ _ _ Heq) as (kept & Hk & Hlen & Hi' & _). simpl in *.
  rewrite Hi2 in *. assert (Ht : target_worker (post_notice o) = inbox_key target) by by rewrite Hpn.
  rewrite Ht in *.
  destruct (queue_last_kept _ _ _ _ Hk) as (kept' & -> & Hold).
  { intros ->. simpl in Hlen. unfold INBOX_CAPACITY in Hlen. lia. }
  rewrite Hold in Hlen. eexists expired, evicted, (evicted_older o ++ kept'), kept', _. split_and!.
  - rewrite (pe_queued _ _ _ _ _ _ He).
    rewrite (Permutation_middle expired), (Permutation_middle evicted), Hq.
    rewrite (Permutation_app_swap_app evicted), (Permutation_app_swap_app expired). done.
  - apply Forall_forall. intros n Hn. split; [|by eapply pe_ids].
    pose proof (pe_expired _ _ _ _ _ _ He) as Hx. rewrite Forall_forall in Hx. by apply Hx.
  - by apply He.
  - by apply He.
  - rewrite <-Hold. unfold peek_worker_inbox. destruct (inboxes s1 !! _) as [ib|] eqn:E.
    + destruct (pe_shrinks _ _ _ _ _ _ He _ _ E) as (ib0 & -> & Hs). done.
    + apply sublist_nil_l.
  - done.
  - rewrite Hi'. apply lookup_insert_eq.
  - done.
  - exact Hlen.
Qed.

(** A drain delivers exactly what is addressed to the worker.  The queued
    notices are, as a multiset, the delivered ones, the expired ones (all
    reported, all past their lifetime), the ones of evicted targets (none unless
    the table was over its bound) and the ones still queued.  The delivered
    notices are alive, in chronological order, and come from inboxes whose key
    routes to the worker; no such inbox is left. *)
Theorem drain_conserves now worker_key s o s' :
  drain_worker_notices_report now worker_key s = (o, s') ->
  let w := worker_routing_identity worker_key in
  exists expired evicted,
    queued (inboxes s) ≡ₚ delivered o ++ expired ++ evicted ++ queued (inboxes s') /\
    Forall (fun n => is_notice_expired now n = true /\ notice_id n ∈ drain_expired_ids o) expired /\
    (size (inboxes s) <= MAX_INBOX_KEYS -> evicted = []) /\
    Sorted (fun a b => (created_at_ms a <= created_at_ms b)%N) (delivered o) /\
    Forall (fun n => is_notice_expired now n = false /\
      exists k ib, inboxes s !! k = Some ib /\ n ∈ notices ib /\ routes w k = true) (delivered o) /\
    (forall k, is_Some (inboxes s' !! k) -> routes w k = false).
Proof.
  intros (r & s1 & expired & evicted & out & He & Hd & Hids & _ & _ & _ & Hi & Hq & Ho)%drain_inv w.
  fold w in Hi, Ho. exists expired, evicted. split_and!.
  - rewrite (pe_queued _ _ _ _ _ _ He), Hq, Hd, sort_with_perm.
    rewrite (Permutation_app_swap_app evicted), (Permutation_app_swap_app expired). done.
  - apply Forall_forall. intros n Hn. rewrite Hids. split; [|by eapply pe_ids].
    pose proof (pe_expired _ _ _ _ _ _ He) as Hx. rewrite Forall_forall in Hx. by apply Hx.
  - by apply He.
  - rewrite Hd. eapply Sorted_weaken; [|apply sort_with_sorted]; unfold created_leb; simpl; intros; lia.
  - apply Forall_forall. intros n Hn. rewrite Hd, sort_with_perm in Hn. split.
    + pose proof (pe_alive _ _ _ _ _ _ He) as [_ Hal]%Forall_app. rewrite Hq in Hal.
      rewrite Forall_app, Forall_forall in Hal. destruct Hal as [Hal _]. specialize (Hal n Hn).
      simpl in Hal. rewrite alive_expired in Hal. by apply negb_true_iff in Hal.
    + destruct (Ho _ Hn) as (k & ib & Hk & Hib & Hin).
      destruct (pe_shrinks _ _ _ _ _ _ He _ _ Hib) as (ib0 & Hib0 & Hsub).
      exists k, ib0. split_and!; [done|by eapply sublist_subseteq|done].
  - intros k [ib Hk]. rewrite Hi, lookup_foldr_delete in Hk. case_decide as Hm; [done|].
    destruct (routes w k) eqn:Hr; [|done]. destruct Hm. rewrite <-Permutation_rev.
    apply matched_keys_spec. split; [by exists ib|done].
Qed.

(** A reply resolves the notice it names and nothing else.  It is accepted
    exactly when its trimmed id is not empty, names a pending notice, and that
    notice addresses the replying worker; then that notice alone stops being
    pending, its copies and only they leave the queues, and the reply can be
    read back.  Otherwise the rejection says which guard failed and nothing
    changes. *)
Theorem record_reply_spec clock now tag id message s :
  store_ok s ->
  let tag' := trim tag in
  let id' := trim id in
  match record_worker_reply_for_notice clock now tag id message s with
  | (inl n, s') =>
      id' <> [] /\ pending s !! id' = Some n /\ notice_addresses_worker n tag' = true /\
      pending s' = delete id' (pending s) /\
      (forall k, peek_worker_inbox s' k = without id' (peek_worker_inbox s k)) /\
      get_worker_reply s' id' = Some {| reply_notice_id := id'; worker_tag := tag';
                                        reply_message := message; replied_at_ms := now |}
  | (inr r, s') =>
      s' = s /\
      match r with
      | MissingNoticeId => id' = []
      | UnknownNoticeId i t => i = id' /\ t = tag' /\ id' <> [] /\
          pending s !! id' = None /\ get_worker_reply s id' = None
      | AlreadyReplied i t => i = id' /\ t = tag' /\ id' <> [] /\
          pending s !! id' = None /\ is_Some (get_worker_reply s id')
      | WorkerMismatch i t a => i = id' /\ t = tag' /\
          exists n, pending s !! id' = Some n /\ a = target_worker n /\
            notice_addresses_worker n tag' = false
      end
  end.
Proof.
  intros Hok. cbv zeta. unfold record_worker_reply_for_notice, check_reply.
  pose proof (commit_reply_spec clock now (trim tag) (trim id) message s (ok_coherent _ Hok)) as Hc.
  destruct (is_empty (trim id)) eqn:E; [by destruct (trim id)|].
  assert (trim id <> []) by by destruct (trim id).
  destruct (pending s !! trim id) as [n|] eqn:Hp.
  - destruct (notice_addresses_worker n (trim tag)) eqn:Ha.
    2:{ split_and!; try done. by exists n. }
    destruct (commit_reply _ _ _ _ _ _) as [[n'|r] s1]; [|by destruct Hc].
    destruct Hc as ([= <-] & He). split_and!; try done; [by apply He| |by apply He, Hok].
    intros k. unfold peek_worker_inbox. pose proof (re_queues _ _ _ _ _ _ _ He (inbox_key k)) as Hq.
    destruct (inboxes s1 !! _), (inboxes s !! _); by simplify_eq/=.
  - unfold get_worker_reply. destruct (replied s !! trim id); by split_and!.
Qed.

End histories.

(** ** Witnesses *)

(** A store with one notice posted to [coder-t-01]. *)
Definition posted_store : Store :=
  let _ := gmap_order in
  snd (post_notice_to_worker_tracked 1000 1001 (lit "Coder-t-01") (lit "stop") None initial_store).

Lemma posted_store_ok : store_ok posted_store.
Proof.
  apply (@post_ok gmap_order initial_store 1000 1001 (lit "Coder-t-01") (lit "stop") None);
    [by apply empty_ok|vm_compute; reflexivity].
Qed.

Lemma notice_store_invariant_witness :
  let _ := gmap_order in let _ := ascii_tables in
  notice_history posted_store /\ store_ok posted_store.
Proof.
  intros D U. assert (notice_history posted_store) as Hh.
  { eapply history_step; [apply history_init|]. apply step_post. vm_compute. reflexivity. }
  split; [exact Hh|]. apply (notice_store_invariant posted_store Hh).
Defined.

(** The bound on targets is not a hard one: a post to one more target than a
    prune allows is kept until the next prune. *)
Definition greet (clock : N) (key : str) (s : Store) : option Store :=
  let _ := gmap_order in
  if decide (next_id s + 1 < 2 ^ 64)%N then Some (snd (post_notice_to_worker_tracked 0 clock key (lit "hello") None s)) else None.
Fixpoint greet_each (n : nat) (s : Store) : option Store :=
  match n with 0 => Some s | S m => s1 ← greet_each m s; greet 1 (lit "coder-" ++ lit (pretty.pretty (N.of_nat m))) s1 end.

Lemma table_over_its_bound :
  let _ := gmap_order in let _ := ascii_tables in
  exists s, notice_history s /\ size (inboxes s) = S MAX_INBOX_KEYS.
Proof.
  intros D U. assert (Hg : forall n s, greet_each n initial_store = Some s -> notice_history s).
  { induction n as [|n IH]; intros s E; cbn [greet_each] in E; [injection E as <-; apply history_init|].
    destruct (greet_each n initial_store) as [s1|] eqn:E1; [|done]. cbn [mbind option_bind] in E. unfold greet in E.
    destruct (decide _) as [Hn|]; [|done]. injection E as <-. eapply history_step; [by apply IH|]. by apply step_post. }
  assert (Hs : (fun s => size (inboxes s)) <$> greet_each (S MAX_INBOX_KEYS) initial_store = Some (S MAX_INBOX_KEYS))
    by by vm_compute.
  destruct (greet_each (S MAX_INBOX_KEYS) initial_store) as [s|] eqn:E; [|done]. exists s. split; [by apply (Hg _ _ E)|].
  cbn [fmap option_fmap option_map] in Hs. by injection Hs.
Qed.

Lemma post_conserves_witness :
  let _ := gmap_order in
  exists o s' expired evicted,
    post_notice_to_worker_tracked 1000 1002 (lit "coder-t-01") (lit "wait") None posted_store = (o, s') /\
    post_notice o :: queued (inboxes posted_store) ≡ₚ
      evicted_older o ++ expired ++ evicted ++ queued (inboxes s').
Proof.
  intros D. set (r := post_notice_to_worker_tracked 1000 1002 (lit "coder-t-01") (lit "wait") None posted_store).
  destruct (post_conserves 1000 1002 (lit "coder-t-01") (lit "wait") None posted_store (fst r) (snd r))
    as (expired & evicted & _ & _ & _ & Hq & _); [apply surjective_pairing|].
  exists (fst r), (snd r), expired, evicted. split; [apply surjective_pairing|exact Hq].
Defined.

Lemma drain_conserves_witness :
  let _ := gmap_order in let _ := ascii_tables in
  exists o s' expired evicted,
    drain_worker_notices_report 2000 (lit "coder-t-01#7") posted_store = (o, s') /\
    queued (inboxes posted_store) ≡ₚ delivered o ++ expired ++ evicted ++ queued (inboxes s') /\
    length (delivered o) = 1.
Proof.
  intros D U. set (r := drain_worker_notices_report 2000 (lit "coder-t-01#7") posted_store).
  destruct (drain_conserves 2000 (lit "coder-t-01#7") posted_store (fst r) (snd r))
    as (expired & evicted & Hq & _); [apply surjective_pairing|].
  exists (fst r), (snd r), expired, evicted. split_and!; [apply surjective_pairing|exact Hq|vm_compute; reflexivity].
Defined.

Lemma record_reply_spec_witness :
  let _ := gmap_order in let _ := ascii_tables in
  exists n s',
    record_worker_reply_for_notice (fun _ => 3000%N) 3000 (lit "coder-t-01 ") (lit " notice-1")
      (lit "done") posted_store = (inl n, s') /\
    pending posted_store !! lit "notice-1" = Some n /\
    pending s' = delete (lit "notice-1") (pending posted_store).
Proof.
  intros D U.
  pose proof (record_reply_spec (fun _ => 3000%N) 3000 (lit "coder-t-01 ") (lit " notice-1")
    (lit "done") posted_store posted_store_ok) as Hspec. cbv zeta in Hspec.
  destruct (record_worker_reply_for_notice _ _ _ _ _ _) as [[n|r] s'] eqn:E.
  - exists n, s'. change (trim (lit " notice-1")) with (lit "notice-1") in Hspec.
    destruct Hspec as (_ & Hp & _ & Hd & _). split_and!; [reflexivity|exact Hp|exact Hd].
  - exfalso. apply (f_equal (fun x => match fst x with inl _ => true | inr _ => false end)) in E.
    vm_compute in E. discriminate E.
Defined.
