(* ===== verification/Registry.v ===== *)
(** * The worker registry ([src/orchestrator/workers.rs],
      [src/orchestrator/worker_pause.rs])

    The table of active and recently completed specialist workers: claiming a
    key, the guards that keep a worker active, the bounded ring of completed
    entries, restored entries, the progress updates, the read model, and the
    cancellation of workers by address.  Dropping the last guard also reclaims
    the worker's notice inbox, so the registry holds a [Notice.Store].

    Parameters: the cancellation tokens of tokio-util ([Tokens]), the UUIDs of
    the uuid crate ([Uuids]), the iteration order of DashMap ([DashOrder]), and
    the clock readings, which operations take as arguments. *)

From stdpp Require Import pretty.
From S2P Require Import Prelude Str Regex TaskId Agents PlanParse Pool Notice NoticeRouting.

(** ** The libraries the registry relies on *)

(** Cancellation tokens: equality of tokens is identity, cancelling a token
    cancels it and never revives another. *)
Class Tokens := {
  Token : Type;
  token_eq_dec : EqDecision Token;
  TokenStore : Type;
  token_cancelled : TokenStore -> Token -> bool;
  token_cancel : Token -> TokenStore -> TokenStore;
  child_token : TokenStore -> Token * TokenStore;   (* of the global token *)
  token_cancel_self : forall t ts, token_cancelled (token_cancel t ts) t = true;
  token_cancel_mono : forall t u ts,
    token_cancelled ts u = true -> token_cancelled (token_cancel t ts) u = true
}.
#[export] Existing Instance token_eq_dec.

(** The [n]-th version-4 UUID drawn, in its hyphenated form. *)
Class Uuids := { uuid_v4 : N -> str; uuid_v4_inj : Inj (=) (=) uuid_v4 }.

(** ** Data *)

(** A reading of the monotonic clock and of the wall clock. *)
Record Now := { instant : N; wall : N }.

Section data.
Context `{Tokens}.

Record ActiveWorkerInfo := {
  wi_task_id : option str;
  wi_agent_name : str;
  wi_prompt : str;
  wi_started_at : N;
  wi_started_wall : N;
  wi_context_tokens : nat;
  wi_implementation_turns : nat;
  wi_validation_rounds : nat;
  wi_feedback : option str;
  wi_status : str;
  wi_cancel_token : option Token
}.

Record CompletedWorkerInfo := {
  ci_task_id : option str;
  ci_agent_name : str;
  ci_prompt : str;
  ci_started_at : N;
  ci_started_wall : N;
  ci_completed_at : N;
  ci_completed_wall : N;
  ci_duration : N;
  ci_implementation_turns : nat;
  ci_validation_rounds : nat;
  ci_feedback : option str;
  ci_status : str
}.

Record WorkerState := {
  ws_info : ActiveWorkerInfo;
  last_tokens : nat;
  completed_seq : option N;
  completed_at : option N;
  completed_wall : option N;
  worker_id_seq_value : N;
  queue_position : option QueuePosition
}.

Definition is_active (s : WorkerState) : bool :=
  match completed_seq s with None => true | Some _ => false end.

(** The subtraction of two [Instant]s saturates at zero, as that of [N]. *)
Definition completed_info (s : WorkerState) : option CompletedWorkerInfo :=
  let i := ws_info s in
  match completed_at s, completed_wall s with
  | Some at', Some wall' =>
      Some {| ci_task_id := wi_task_id i; ci_agent_name := wi_agent_name i; ci_prompt := wi_prompt i;
              ci_started_at := wi_started_at i; ci_started_wall := wi_started_wall i;
              ci_completed_at := at'; ci_completed_wall := wall';
              ci_duration := at' - wi_started_at i;
              ci_implementation_turns := wi_implementation_turns i;
              ci_validation_rounds := wi_validation_rounds i;
              ci_feedback := wi_feedback i; ci_status := wi_status i |}
  | _, _ => None
  end.

(** The statics of the module, the pause requests of [worker_pause.rs], the
    notice store, the token store and the session's lifecycle edge. *)
Record Registry := {
  workers : gmap str WorkerState;   (* WORKERS *)
  guard_refs : gmap str nat;        (* ACTIVE_GUARD_REFS *)
  next_completed_seq : N;           (* COMPLETED_SEQ *)
  next_worker_id_seq : N;           (* WORKER_ID_SEQ *)
  pauses : gmap str bool;           (* PAUSES *)
  notice_store : Store;
  token_store : TokenStore;
  uuids_drawn : N;
  lifecycle_edge : bool             (* WORKER_EDGE *)
}.

Definition initial_registry (ts : TokenStore) : Registry :=
  {| workers := ∅; guard_refs := ∅; next_completed_seq := 0; next_worker_id_seq := 1; pauses := ∅;
     notice_store := initial_store; token_store := ts; uuids_drawn := 0; lifecycle_edge := false |}.

(** Field updates. *)
Definition on_workers (f : gmap str WorkerState -> gmap str WorkerState) (r : Registry) : Registry :=
  {| workers := f (workers r); guard_refs := guard_refs r; next_completed_seq := next_completed_seq r;
     next_worker_id_seq := next_worker_id_seq r; pauses := pauses r; notice_store := notice_store r;
     token_store := token_store r; uuids_drawn := uuids_drawn r; lifecycle_edge := lifecycle_edge r |}.
Definition on_refs (f : gmap str nat -> gmap str nat) (r : Registry) : Registry :=
  {| workers := workers r; guard_refs := f (guard_refs r); next_completed_seq := next_completed_seq r;
     next_worker_id_seq := next_worker_id_seq r; pauses := pauses r; notice_store := notice_store r;
     token_store := token_store r; uuids_drawn := uuids_drawn r; lifecycle_edge := lifecycle_edge r |}.
Definition set_completed_seq (n : N) (r : Registry) : Registry :=
  {| workers := workers r; guard_refs := guard_refs r; next_completed_seq := n;
     next_worker_id_seq := next_worker_id_seq r; pauses := pauses r; notice_store := notice_store r;
     token_store := token_store r; uuids_drawn := uuids_drawn r; lifecycle_edge := lifecycle_edge r |}.
Definition set_worker_id_seq (n : N) (r : Registry) : Registry :=
  {| workers := workers r; guard_refs := guard_refs r; next_completed_seq := next_completed_seq r;
     next_worker_id_seq := n; pauses := pauses r; notice_store := notice_store r;
     token_store := token_store r; uuids_drawn := uuids_drawn r; lifecycle_edge := lifecycle_edge r |}.
Definition on_pauses (f : gmap str bool -> gmap str bool) (r : Registry) : Registry :=
  {| workers := workers r; guard_refs := guard_refs r; next_completed_seq := next_completed_seq r;
     next_worker_id_seq := next_worker_id_seq r; pauses := f (pauses r); notice_store := notice_store r;
     token_store := token_store r; uuids_drawn := uuids_drawn r; lifecycle_edge := lifecycle_edge r |}.
Definition on_notices (f : Store -> Store) (r : Registry) : Registry :=
  {| workers := workers r; guard_refs := guard_refs r; next_completed_seq := next_completed_seq r;
     next_worker_id_seq := next_worker_id_seq r; pauses := pauses r; notice_store := f (notice_store r);
     token_store := token_store r; uuids_drawn := uuids_drawn r; lifecycle_edge := lifecycle_edge r |}.
Definition on_tokens (f : TokenStore -> TokenStore) (r : Registry) : Registry :=
  {| workers := workers r; guard_refs := guard_refs r; next_completed_seq := next_completed_seq r;
     next_worker_id_seq := next_worker_id_seq r; pauses := pauses r; notice_store := notice_store r;
     token_store := f (token_store r); uuids_drawn := uuids_drawn r; lifecycle_edge := lifecycle_edge r |}.
Definition bump_uuids (r : Registry) : Registry :=
  {| workers := workers r; guard_refs := guard_refs r; next_completed_seq := next_completed_seq r;
     next_worker_id_seq := next_worker_id_seq r; pauses := pauses r; notice_store := notice_store r;
     token_store := token_store r; uuids_drawn := (uuids_drawn r + 1)%N; lifecycle_edge := lifecycle_edge r |}.
(** [mark_worker_lifecycle_edge] *)
Definition mark_worker_lifecycle_edge (r : Registry) : Registry :=
  {| workers := workers r; guard_refs := guard_refs r; next_completed_seq := next_completed_seq r;
     next_worker_id_seq := next_worker_id_seq r; pauses := pauses r; notice_store := notice_store r;
     token_store := token_store r; uuids_drawn := uuids_drawn r; lifecycle_edge := true |}.

Definition with_info (f : ActiveWorkerInfo -> ActiveWorkerInfo) (s : WorkerState) : WorkerState :=
  {| ws_info := f (ws_info s); last_tokens := last_tokens s; completed_seq := completed_seq s;
     completed_at := completed_at s; completed_wall := completed_wall s;
     worker_id_seq_value := worker_id_seq_value s; queue_position := queue_position s |}.
Definition with_queue (p : option QueuePosition) (s : WorkerState) : WorkerState :=
  {| ws_info := ws_info s; last_tokens := last_tokens s; completed_seq := completed_seq s;
     completed_at := completed_at s; completed_wall := completed_wall s;
     worker_id_seq_value := worker_id_seq_value s; queue_position := p |}.
Definition with_prompt (p : str) (i : ActiveWorkerInfo) : ActiveWorkerInfo :=
  {| wi_task_id := wi_task_id i; wi_agent_name := wi_agent_name i; wi_prompt := p;
     wi_started_at := wi_started_at i; wi_started_wall := wi_started_wall i;
     wi_context_tokens := wi_context_tokens i; wi_implementation_turns := wi_implementation_turns i;
     wi_validation_rounds := wi_validation_rounds i; wi_feedback := wi_feedback i;
     wi_status := wi_status i; wi_cancel_token := wi_cancel_token i |}.
Definition with_status (st : str) (i : ActiveWorkerInfo) : ActiveWorkerInfo :=
  {| wi_task_id := wi_task_id i; wi_agent_name := wi_agent_name i; wi_prompt := wi_prompt i;
     wi_started_at := wi_started_at i; wi_started_wall := wi_started_wall i;
     wi_context_tokens := wi_context_tokens i; wi_implementation_turns := wi_implementation_turns i;
     wi_validation_rounds := wi_validation_rounds i; wi_feedback := wi_feedback i;
     wi_status := st; wi_cancel_token := wi_cancel_token i |}.
Definition with_context (n : nat) (i : ActiveWorkerInfo) : ActiveWorkerInfo :=
  {| wi_task_id := wi_task_id i; wi_agent_name := wi_agent_name i; wi_prompt := wi_prompt i;
     wi_started_at := wi_started_at i; wi_started_wall := wi_started_wall i;
     wi_context_tokens := n; wi_implementation_turns := wi_implementation_turns i;
     wi_validation_rounds := wi_validation_rounds i; wi_feedback := wi_feedback i;
     wi_status := wi_status i; wi_cancel_token := wi_cancel_token i |}.
Definition with_progress (turns rounds : nat) (fb : option str) (i : ActiveWorkerInfo) : ActiveWorkerInfo :=
  {| wi_task_id := wi_task_id i; wi_agent_name := wi_agent_name i; wi_prompt := wi_prompt i;
     wi_started_at := wi_started_at i; wi_started_wall := wi_started_wall i;
     wi_context_tokens := wi_context_tokens i; wi_implementation_turns := turns;
     wi_validation_rounds := rounds;
     wi_feedback := match fb with Some f => Some f | None => wi_feedback i end;
     wi_status := wi_status i; wi_cancel_token := wi_cancel_token i |}.

(** ** Constants and sequences *)

Definition MAX_RECENT_COMPLETED : nat := 10.
Definition MAX_KEY_DISAMBIGUATION_RETRIES : nat := 16.
Definition VALIDATOR_ROLE_FAMILY : str := lit "validator".

Definition next_worker_id (r : Registry) : N * Registry :=
  (next_worker_id_seq r, set_worker_id_seq (fetch_add (next_worker_id_seq r) 1) r).

Definition seed_worker_id_seq_floor (floor : N) (r : Registry) : N * Registry :=
  (next_worker_id_seq r, set_worker_id_seq (N.max (next_worker_id_seq r) floor) r).
Definition worker_id_seq_floor (r : Registry) : N := next_worker_id_seq r.
Definition seed_completed_seq_floor (floor : N) (r : Registry) : N * Registry :=
  (next_completed_seq r, set_completed_seq (N.max (next_completed_seq r) floor) r).
Definition completed_seq_floor (r : Registry) : N := next_completed_seq r.

(** ** Registration *)

Definition new_worker_state (task_id : option str) (agent prompt : str) (token : option Token)
    (now : Now) (initial_tokens : nat) (id : N) : WorkerState :=
  {| ws_info := {| wi_task_id := task_id; wi_agent_name := agent; wi_prompt := prompt;
                   wi_started_at := instant now; wi_started_wall := wall now;
                   wi_context_tokens := initial_tokens; wi_implementation_turns := 0;
                   wi_validation_rounds := 0; wi_feedback := None;
                   wi_status := lit "In Progress"; wi_cancel_token := token |};
     last_tokens := initial_tokens; completed_seq := None; completed_at := None;
     completed_wall := None; worker_id_seq_value := id; queue_position := None |}.

Section claim.
Context `{Uuids}.

(** The key of a retry: a fresh id, and past the bound a UUID. *)
Definition disambiguated (base : str) (retries : nat) (r : Registry) : str * Registry :=
  if retries <=? MAX_KEY_DISAMBIGUATION_RETRIES
  then let '(id, r') := next_worker_id r in
       (base ++ [WORKER_KEY_DISAMBIGUATOR] ++ lit (pretty id), r')
  else (base ++ [WORKER_KEY_DISAMBIGUATOR] ++ lit "u" ++ uuid_v4 (uuids_drawn r), bump_uuids r).

(** The loop of [claim_worker_slot]; [None] is no fuel left. *)
Fixpoint claim_loop (fuel : nat) (base key : str) (retries : nat) (mk : nat -> WorkerState)
    (r : Registry) : option (str * Registry) :=
  match fuel with
  | 0 => None
  | S fuel' =>
      match workers r !! key with
      | Some s =>
          if is_active s then
            let '(key', r') := disambiguated base (S retries) r in
            claim_loop fuel' base key' (S retries) mk r'
          else Some (key, on_workers <[key := mk (last_tokens s)]> r)
      | None => Some (key, on_workers <[key := mk 0]> r)
      end
  end.

(** Every key the loop refuses holds a live entry, so the size of the table
    bounds the refusals. *)
Definition claim_worker_slot (base : str) (task_id : option str) (agent prompt : str)
    (token : option Token) (now : Now) (id : N) (r : Registry) : option (str * Registry) :=
  claim_loop (S (size (workers r))) base base 0
    (fun tokens => new_worker_state task_id agent prompt token now tokens id) r.

Context `{DashOrder}.

(** A live entry of the same agent, task and token. *)
Definition same_delegation (agent : str) (task_id : option str) (token : Token)
    (e : str * WorkerState) : bool :=
  let i := ws_info (snd e) in
  is_active (snd e) && str_eqb (wi_agent_name i) agent
  && bool_decide (wi_task_id i = task_id)
  && match wi_cancel_token i with Some t => bool_decide (t = token) | None => false end.

Definition existing_key (agent : str) (task_id : option str) (token : Token) (r : Registry)
    : option str :=
  fst <$> find_first (same_delegation agent task_id token) (dash_iter (workers r)).

(** [*ACTIVE_GUARD_REFS.entry(key).or_insert(1) += 1] *)
Definition attach_guard (key : str) (refs : gmap str nat) : gmap str nat :=
  <[key := S (default 1 (refs !! key))]> refs.

Definition register_active_worker_with_token (task_id : option str) (agent prompt : str)
    (token : option Token) (now : Now) (r : Registry) : option (str * Registry) :=
  let clean := match task_id with Some t => normalize_task_id t | None => None end in
  match (match token with Some t => existing_key agent clean t r | None => None end) with
  | Some key =>
      let r1 := on_workers (alter (fun s => if is_active s then with_info (with_prompt prompt) s else s) key) r in
      Some (key, mark_worker_lifecycle_edge (on_refs (attach_guard key) r1))
  | None =>
      let '(id, r1) := next_worker_id r in
      let base := match clean with
                  | Some t => agent ++ lit "-" ++ t
                  | None => agent ++ lit "-w" ++ lit (pretty id)
                  end in
      let '(effective, r2) := match token with
                              | Some t => (t, r1)
                              | None => let '(t, ts) := child_token (token_store r1) in
                                        (t, on_tokens (fun _ => ts) r1)
                              end in
      match claim_worker_slot base clean agent prompt (Some effective) now id r2 with
      | Some (key, r3) => Some (key, mark_worker_lifecycle_edge (on_refs <[key := 1]> r3))
      | None => None
      end
  end.

Definition register_active_worker (task_id : option str) (agent prompt : str) (now : Now)
    (r : Registry) : option (str * Registry) :=
  register_active_worker_with_token task_id agent prompt None now r.

End claim.

(** ** Completion *)

Section completion.
Context `{DashOrder} `{Unicode}.

(** One pass over the ring: the completed entries past the bound, oldest first. *)
Definition completed_entries (r : Registry) : list (str * N) :=
  omap (fun e => (fun q => (fst e, q)) <$> completed_seq (snd e)) (dash_iter (workers r)).
Definition seq_leb (a b : str * N) : bool := (snd a <=? snd b)%N.
Definition remove_worker (acc : Registry * nat) (key : str) : Registry * nat :=
  let '(r, n) := acc in
  match workers r !! key with
  | Some _ => (on_workers (delete key) r, S n)
  | None => (r, n)
  end.
Fixpoint ring_loop (fuel total : nat) (r : Registry) : option (nat * Registry) :=
  match fuel with
  | 0 => None
  | S fuel' =>
      let completed := completed_entries r in
      if length completed <=? MAX_RECENT_COMPLETED then Some (total, r)
      else
        let victims := take (length completed - MAX_RECENT_COMPLETED) (sort_with seq_leb completed) in
        let '(r', removed) := fold_left remove_worker (map fst victims) (r, 0) in
        if removed =? 0 then Some (total, r') else ring_loop fuel' (total + removed) r'
  end.
Definition evict_completed_ring (r : Registry) : option (nat * Registry) :=
  ring_loop (S (size (workers r))) 0 r.
Definition enforce_completed_ring_cap (r : Registry) : option (nat * Registry) :=
  evict_completed_ring r.

(** [worker_pause::clear] *)
Definition pause_clear (key : str) (r : Registry) : Registry := on_pauses (delete key) r.

(** Flip a live entry to completed in place. *)
Definition complete_state (seq : N) (now : Now) (s : WorkerState) : WorkerState :=
  {| ws_info := ws_info s; last_tokens := wi_context_tokens (ws_info s); completed_seq := Some seq;
     completed_at := Some (instant now); completed_wall := Some (wall now);
     worker_id_seq_value := worker_id_seq_value s; queue_position := None |}.

Definition release_ref (key : str) (r : Registry) : bool * Registry :=
  match guard_refs r !! key with
  | Some n => if 1 <? n then (true, on_refs <[key := n - 1]> r) else (false, on_refs (delete key) r)
  | None => (false, r)
  end.

Definition flip_completed (key : str) (now : Now) (r : Registry) : Registry :=
  match workers r !! key with
  | Some s =>
      if is_active s then
        let seq := next_completed_seq r in
        let r1 := set_completed_seq (fetch_add seq 1) r in
        pause_clear key (on_workers <[key := complete_state seq now s]> r1)
      else r
  | None => r
  end.

(** [ActiveWorkerGuard::drop]; closing the worker's journal is left out. *)
Definition drop_guard (key : str) (now : Now) (r : Registry) : option Registry :=
  let '(still_held, r1) := release_ref key r in
  if still_held : bool then Some r1
  else
    '(_, r2) ← evict_completed_ring (flip_completed key now r1);
    let r3 := on_notices (fun st => snd (reclaim_worker_inbox key st)) r2 in
    Some (mark_worker_lifecycle_edge r3).

(** ** Restored entries *)

Definition install_restored_worker (key : str) (s : WorkerState) (r : Registry) : bool * Registry :=
  match workers r !! key with
  | Some old => if is_active old then (false, r) else (true, on_workers <[key := s]> r)
  | None => (true, on_workers <[key := s]> r)
  end.

(** [retire_restored_worker]; the outer [None] is no fuel left in the ring. *)
Definition retire_restored_worker (key status : str) (now : Now) (r : Registry)
    : option (option N * Registry) :=
  match workers r !! key with
  | None => Some (None, r)
  | Some s =>
      let '(seq, r1) :=
        if is_active s then
          let q := next_completed_seq r in
          (q, on_workers <[key := with_info (with_status status) (complete_state q now s)]>
                (set_completed_seq (fetch_add q 1) r))
        else (default 0%N (completed_seq s), r) in
      '(_, r2) ← evict_completed_ring (on_refs (delete key) r1);
      Some (Some seq, on_notices (fun st => snd (reclaim_worker_inbox key st)) r2)
  end.

End completion.

(** ** Progress of a live worker *)

Definition update_active_worker_context (key : str) (tokens : nat) (now : Now) (r : Registry) : Registry :=
  match workers r !! key with
  | Some s =>
      on_workers <[key := {| ws_info := if is_active s then with_context tokens (ws_info s) else ws_info s;
                             last_tokens := tokens; completed_seq := completed_seq s;
                             completed_at := completed_at s; completed_wall := completed_wall s;
                             worker_id_seq_value := worker_id_seq_value s;
                             queue_position := queue_position s |}]> r
  | None =>
      let seq := next_completed_seq r in
      let stub :=
        {| ws_info := {| wi_task_id := None; wi_agent_name := key; wi_prompt := [];
                         wi_started_at := instant now; wi_started_wall := wall now;
                         wi_context_tokens := tokens; wi_implementation_turns := 0;
                         wi_validation_rounds := 0; wi_feedback := None;
                         wi_status := lit "Completed"; wi_cancel_token := None |};
           last_tokens := tokens; completed_seq := Some seq; completed_at := Some (instant now);
           completed_wall := Some (wall now); worker_id_seq_value := 0; queue_position := None |} in
      on_workers <[key := stub]> (set_completed_seq (fetch_add seq 1) r)
  end.

(** Rewrite an entry only while it is live: the answer says whether it was. *)
Definition alter_live (key : str) (f : WorkerState -> WorkerState) (r : Registry) : bool * Registry :=
  match workers r !! key with
  | Some s => if is_active s then (true, on_workers <[key := f s]> r) else (false, r)
  | None => (false, r)
  end.

Definition update_active_worker_progress (key : str) (turns rounds : nat) (fb : option str)
    (r : Registry) : Registry :=
  snd (alter_live key (with_info (with_progress turns rounds fb)) r).

Definition set_active_worker_status (key status : str) (r : Registry) : Registry :=
  let '(updated, r') := alter_live key (with_info (with_status status)) r in
  if updated : bool then mark_worker_lifecycle_edge r' else r'.

Definition set_active_worker_queue_position (key : str) (p : option QueuePosition) (r : Registry)
    : bool * Registry :=
  alter_live key (with_queue p) r.

Definition active_worker_queue_position (key : str) (r : Registry) : option QueuePosition :=
  match workers r !! key with
  | Some s => if is_active s then queue_position s else None
  | None => None
  end.
Definition get_active_worker_tokens (key : str) (r : Registry) : option nat :=
  last_tokens <$> workers r !! key.

(** A live entry of the registry. *)
Definition live (r : Registry) (key : str) : bool :=
  match workers r !! key with Some s => is_active s | None => false end.

End data.
