(* ===== verification/RegistryView.v ===== *)
(** * The worker registry: reading, addressing and cancelling

    The projections of the registry the rest of the program reads, the
    attribution of a reply to the running worker, pause requests, and the
    cancellation of the workers an address names
    ([src/orchestrator/workers.rs], [src/orchestrator/worker_pause.rs]). *)

From S2P Require Import Prelude Str Regex TaskId Agents PlanParse Pool Notice NoticeRouting Registry.

Section view.
Context `{Tokens} `{DashOrder} `{Unicode}.

(** Sorting key-value pairs by key. *)
Definition key_leb {A} (a b : str * A) : bool := id_leb (fst a) (fst b).

Definition live_worker_states (r : Registry) : list (str * WorkerState) :=
  sort_with key_leb (dash_iter (workers r)).
Definition active_worker_entries (r : Registry) : list (str * ActiveWorkerInfo) :=
  sort_with key_leb (map (fun e => (fst e, ws_info (snd e)))
    (List.filter (fun e => is_active (snd e)) (dash_iter (workers r)))).
Definition recent_completed_entries (r : Registry) : list (str * ActiveWorkerInfo) :=
  sort_with key_leb (map (fun e => (fst e, ws_info (snd e)))
    (List.filter (fun e => negb (is_active (snd e))) (dash_iter (workers r)))).
Definition has_active_workers (r : Registry) : bool :=
  existsb (fun e => is_active (snd e)) (dash_iter (workers r)).
Definition worker_state_snapshot (key : str) (r : Registry) : option WorkerState := workers r !! key.

(** ** The read model *)

Inductive WorkerCallClass := SpecialistRun | ValidatorAudit | Placeholder.

Definition classify_call_class (agent : str) (id : N) : WorkerCallClass :=
  if (id =? 0)%N then Placeholder
  else
    let name := to_ascii_lowercase (trim agent) in
    if str_eqb name VALIDATOR_ROLE_FAMILY
       || match strip_prefix VALIDATOR_ROLE_FAMILY name with
          | Some rest => starts_with (lit "-") rest
          | None => false
          end
    then ValidatorAudit else SpecialistRun.

Record WorkerEntry := {
  we_key : str;
  we_natural_key : str;
  we_collision_handle : option str;
  we_disambiguated : bool;
  we_agent_name : str;
  we_task_id : option str;
  we_call_class : WorkerCallClass;
  we_is_active : bool;
  we_status_label : str;
  we_prompt : str;
  we_started_at : N;
  we_started_wall : N;
  we_elapsed_secs : N;
  we_completed_seq : option N;
  we_completed_wall : option N;
  we_context_tokens : nat;
  we_last_tokens : nat;
  we_implementation_turns : nat;
  we_validation_rounds : nat;
  we_feedback : option str;
  we_queue_position : option QueuePosition
}.

(** [Duration::as_secs] of a difference of clock readings in nanoseconds. *)
Definition as_secs (d : N) : N := (d / 1000000000)%N.

Definition project_worker_entry (now : Now) (key : str) (s : WorkerState) : WorkerEntry :=
  let '(natural, handle) := match find_split [WORKER_KEY_DISAMBIGUATOR] key with
                            | Some (a, b) => (a, Some b)
                            | None => (key, None)
                            end in
  let i := ws_info s in
  {| we_key := key; we_natural_key := natural; we_collision_handle := handle;
     we_disambiguated := contains [WORKER_KEY_DISAMBIGUATOR] key;
     we_agent_name := wi_agent_name i; we_task_id := wi_task_id i;
     we_call_class := classify_call_class (wi_agent_name i) (worker_id_seq_value s);
     we_is_active := is_active s; we_status_label := wi_status i; we_prompt := wi_prompt i;
     we_started_at := wi_started_at i; we_started_wall := wi_started_wall i;
     we_elapsed_secs := as_secs (match completed_at s with
                                 | Some finished => finished - wi_started_at i
                                 | None => instant now - wi_started_at i
                                 end);
     we_completed_seq := completed_seq s; we_completed_wall := completed_wall s;
     we_context_tokens := wi_context_tokens i; we_last_tokens := last_tokens s;
     we_implementation_turns := wi_implementation_turns i;
     we_validation_rounds := wi_validation_rounds i; we_feedback := wi_feedback i;
     we_queue_position := queue_position s |}.

Definition worker_entries (now : Now) (r : Registry) : list WorkerEntry :=
  sort_with (fun a b => id_leb (we_key a) (we_key b))
    (map (fun e => project_worker_entry now (fst e) (snd e)) (dash_iter (workers r))).

(** [format_duration_human] *)
Definition format_duration_human (secs : N) : str :=
  let mins := (secs / 60)%N in
  let rem_secs := (secs mod 60)%N in
  if (mins =? 0)%N then lit (pretty.pretty rem_secs) ++ lit "s"
  else lit (pretty.pretty mins) ++ lit "m " ++ lit (pretty.pretty rem_secs) ++ lit "s".

(** The components of the prompt file's path under the workspace root. *)
Definition worker_prompt_path (root : list str) (raw : option str) : option (list str) + TaskIdError :=
  match raw with
  | None => inl None
  | Some raw =>
      match validate_task_id (normalize_task_id_ref raw) with
      | inl id => inl (Some (root ++ [lit ".marmel"; lit "prompts"; id ++ lit ".md"]))
      | inr e => inr e
      end
  end.

(** ** Whose turn is running *)

Definition cmp_then (c d : comparison) : comparison := match c with Eq => d | _ => c end.
Definition str_cmp (a b : str) : comparison :=
  if str_eqb a b then Eq else if id_leb a b then Lt else Gt.

Definition holds_token (token : Token) (s : WorkerState) : bool :=
  is_active s && match wi_cancel_token (ws_info s) with
                 | Some t => bool_decide (t = token)
                 | None => false
                 end.

Definition active_worker_keys_for_token (token : Token) (r : Registry) : list str :=
  map fst (List.filter (fun e => holds_token token (snd e)) (dash_iter (workers r))).

(** A candidate: its key, its agent and its start. *)
Definition candidate_cmp (role : option str) (a b : str * str * N) : comparison :=
  let exact c := match role with Some x => eq_ignore_ascii_case (snd (fst c)) x | None => false end in
  let matches c := match role with
                   | Some x => eq_ignore_ascii_case (snd (fst c)) x
                               || routes (worker_routing_identity (fst (fst c))) x
                   | None => false
                   end in
  let plain c := negb (contains [WORKER_KEY_DISAMBIGUATOR] (fst (fst c))) in
  cmp_then (Bool.compare (exact b) (exact a))
    (cmp_then (Bool.compare (matches b) (matches a))
      (cmp_then (N.compare (snd b) (snd a))
        (cmp_then (Bool.compare (plain b) (plain a)) (str_cmp (fst (fst a)) (fst (fst b)))))).
Definition candidate_leb (role : option str) (a b : str * str * N) : bool :=
  match candidate_cmp role a b with Gt => false | _ => true end.

(** [current] is the token the running task has in scope, if any. *)
Definition active_worker_key_for_current_token_and_role (current : option Token) (role : option str)
    (r : Registry) : option str :=
  match current with
  | None => None
  | Some token =>
      let clean_role := match role with
                        | Some x => if is_empty (trim x) then None else Some (trim x)
                        | None => None
                        end in
      let candidates :=
        map (fun e => (fst e, wi_agent_name (ws_info (snd e)), wi_started_at (ws_info (snd e))))
          (List.filter (fun e => holds_token token (snd e)) (dash_iter (workers r))) in
      match sort_with (candidate_leb clean_role) candidates with
      | [] => None
      | c :: _ => Some (fst (fst c))
      end
  end.
Definition active_worker_key_for_current_token (current : option Token) (r : Registry) : option str :=
  active_worker_key_for_current_token_and_role current None r.
Definition worker_token_in_scope (current : option Token) : bool :=
  match current with Some _ => true | None => false end.

Definition active_worker_key_for_reply (current : option Token) (role : str) (r : Registry)
    : option str :=
  match active_worker_key_for_current_token_and_role current (Some role) r with
  | Some key => Some key
  | None =>
      if negb (worker_token_in_scope current) then None
      else if is_empty (trim role) then None
      else
        let named e := eq_ignore_ascii_case (wi_agent_name (ws_info (snd e))) (trim role)
                       || eq_ignore_ascii_case (agent_name (worker_routing_identity (fst e))) (trim role) in
        match map fst (List.filter (fun e => is_active (snd e) && named e) (dash_iter (workers r))) with
        | [key] => Some key
        | _ => None
        end
  end.

(** ** Queue reports *)

Definition set_worker_queue_position (agent : str) (task_id : option str) (p : option QueuePosition)
    (r : Registry) : bool * Registry :=
  match (match task_id with Some t => normalize_task_id t | None => None end) with
  | None => (false, r)
  | Some clean =>
      let base := agent ++ lit "-" ++ clean in
      if live r base then set_active_worker_queue_position base p r
      else
        let prefixed := base ++ [WORKER_KEY_DISAMBIGUATOR] in
        match map fst (List.filter (fun e => is_active (snd e) && starts_with prefixed (fst e))
                         (dash_iter (workers r))) with
        | [key] => set_active_worker_queue_position key p r
        | _ => (false, r)
        end
  end.

(** ** Addressing and cancelling *)

(** The routing identity with the registration's own agent and task pinned. *)
Definition worker_identity (key : str) (i : ActiveWorkerInfo) : WorkerRoutingIdentity :=
  let w := worker_routing_identity key in
  let agent := trim (wi_agent_name i) in
  let task := match wi_task_id i with
              | Some raw => let clean := to_ascii_lowercase (normalize_task_id_ref raw) in
                            if is_empty clean then None else Some clean
              | None => None
              end in
  {| effective_key := effective_key w; natural_key := natural_key w;
     agent_name := if is_empty agent then agent_name w else to_ascii_lowercase agent;
     identity_task := or_else task (identity_task w) |}.

Definition get_active_subtask_by_id (now : Now) (task_id : str) (r : Registry) : option (str * str) :=
  let address := to_ascii_lowercase (normalize_task_id_ref task_id) in
  if is_empty address then None
  else
    (fun e => (wi_agent_name (ws_info (snd e)),
               format_duration_human (as_secs (instant now - wi_started_at (ws_info (snd e)))))) <$>
    find_first (fun e => routes (worker_identity (fst e) (ws_info (snd e))) address)
      (sort_with key_leb (List.filter (fun e => is_active (snd e)) (dash_iter (workers r)))).

Definition worker_matches (i : ActiveWorkerInfo) (key : str) (target_agent target_task : option str) : bool :=
  let w := worker_identity key i in
  let clean_agent := to_ascii_lowercase (normalize_task_id_ref (default [] target_agent)) in
  let clean_task := to_ascii_lowercase (normalize_task_id_ref (default [] target_task)) in
  if is_empty clean_agent && is_empty clean_task then false
  else (is_empty clean_agent || routes w clean_agent) && (is_empty clean_task || routes w clean_task).

(** Cancel one worker's token, then label it. *)
Definition cancel_one (r : Registry) (e : str * option Token) : Registry :=
  let r1 := match snd e with Some t => on_tokens (token_cancel t) r | None => r end in
  set_active_worker_status (fst e) (lit "Aborted") r1.

(** The live entries a predicate selects, with their tokens. *)
Definition select_workers (p : str -> ActiveWorkerInfo -> bool) (r : Registry) : list (str * option Token) :=
  map (fun e => (fst e, wi_cancel_token (ws_info (snd e))))
    (List.filter (fun e => is_active (snd e) && p (fst e) (ws_info (snd e))) (dash_iter (workers r))).

Definition cancel_active_worker (target_agent target_task : option str) (r : Registry)
    : bool * Registry :=
  let victims := select_workers (fun key i => worker_matches i key target_agent target_task) r in
  (negb (is_empty victims), fold_left cancel_one victims r).

Definition cancel_all_active_workers (r : Registry) : nat * Registry :=
  let victims := select_workers (fun _ _ => true) r in
  (length victims, fold_left cancel_one victims r).

(** ** Pause requests *)

(** [with_live_worker]: the entry is live, its leading agent segment is a
    role, and its token is present and not cancelled. *)
Definition leading_segment (s : str) : str :=
  match find_split [WORKER_KEY_SEGMENT] s with Some (a, _) => a | None => s end.
Definition controllable (key : str) (r : Registry) : bool :=
  match workers r !! key with
  | None => false
  | Some s =>
      match from_str (leading_segment (wi_agent_name (ws_info s))) with
      | None => false
      | Some _ =>
          is_active s && match wi_cancel_token (ws_info s) with
                         | Some t => negb (token_cancelled (token_store r) t)
                         | None => false
                         end
      end
  end.

(** [set_paused]: [None] is the error of a key without a live worker. *)
Definition set_paused (key : str) (paused : bool) (r : Registry) : option Registry :=
  if controllable key r then Some (on_pauses <[key := paused]> r) else None.
Definition is_paused (key : str) (r : Registry) : bool := default false (pauses r !! key).
Definition paused_key_for_token (token : Token) (r : Registry) : option str :=
  find_first (fun key => is_paused key r) (active_worker_keys_for_token token r).

End view.
