(* ===== verification/RegistryFacts.v ===== *)
(** * The worker registry: what keeps a worker active

    The claim of a key, the bounded ring, and the histories of the registry:
    guards and restorations decide which entries are live, and the table of
    reference counts refines an abstract slot table. *)

From S2P Require Import Prelude Str Decimal Regex TaskId Agents PlanParse Pool Notice NoticeFacts NoticeRouting.
From S2P Require Import Registry RegistryView.

(** ** Enumerations of a table *)

Section tables.
Context `{DashOrder}.

Lemma dash_NoDup {A} (m : gmap str A) : NoDup (map fst (dash_iter m)).
Proof. rewrite dash_iter_perm. apply NoDup_fst_map_to_list. Qed.

Lemma elem_of_dash {A} (m : gmap str A) k x : (k, x) ∈ dash_iter m <-> m !! k = Some x.
Proof. by rewrite dash_iter_perm, elem_of_map_to_list. Qed.

Lemma dash_omap {A B} (f : A -> option B) (m : gmap str A) :
  omap (fun e => (fun y => (fst e, y)) <$> f (snd e)) (dash_iter m) ≡ₚ map_to_list (omap f m).
Proof.
  apply NoDup_Permutation.
  - apply (NoDup_fmap_1 fst). eapply sublist_NoDup; [|apply omap_keys_sublist]. apply dash_NoDup.
  - apply NoDup_map_to_list.
  - intros [k y]. rewrite list_elem_of_omap, elem_of_map_to_list, lookup_omap_Some. split.
    + intros ([k' x] & Hin%elem_of_dash & Hf). simpl in Hf.
      destruct (f x) eqn:E; simplify_eq/=. by exists x.
    + intros (x & Hf & Hm). exists (k, x). simpl. rewrite Hf. split; [by apply elem_of_dash|done].
Qed.

Lemma omap_foldr_delete {A B} (f : A -> option B) (m : gmap str A) ks :
  omap f (foldr delete m ks) = foldr delete (omap f m) ks.
Proof. induction ks as [|k ks IH]; simpl; [done|]. by rewrite omap_delete, IH. Qed.

End tables.

(** ** The bounded ring *)

Section ring.
Context `{Tokens} `{DashOrder}.

(** The completed part of the table, with the completion sequences. *)
Definition completed_of (m : gmap str WorkerState) : gmap str N := omap completed_seq m.

Lemma completed_entries_perm r : completed_entries r ≡ₚ map_to_list (completed_of (workers r)).
Proof. apply dash_omap. Qed.

Lemma completed_entries_length r : length (completed_entries r) = size (completed_of (workers r)).
Proof. by rewrite completed_entries_perm, length_map_to_list. Qed.

Lemma live_not_completed r k : live r k = true <-> is_Some (workers r !! k) /\ completed_of (workers r) !! k = None.
Proof.
  unfold live, completed_of, is_active. rewrite lookup_omap. destruct (workers r !! k) as [s|]; simpl.
  - destruct (completed_seq s); split; naive_solver.
  - split; [done|]. by intros [[? ?] _].
Qed.

Lemma remove_worker_fold ks r n :
  NoDup ks -> (forall k, k ∈ ks -> is_Some (workers r !! k)) ->
  fold_left remove_worker ks (r, n) = (on_workers (fun m => foldr delete m (rev ks)) r, n + length ks).
Proof.
  intros Hnd. revert r n. induction Hnd as [|k ks Hk Hnd IH]; intros r n Hin; simpl.
  - rewrite Nat.add_0_r. by destruct r.
  - destruct (Hin k) as [s Hs]; [by left|]. rewrite Hs, IH.
    + unfold on_workers; simpl. by rewrite foldr_app, Nat.add_succ_r.
    + intros k' Hk'. simpl. rewrite lookup_delete_ne by (intros ->; done). apply Hin. by right.
Qed.

Lemma sorted_take_drop_seq (l : list (str * N)) n x y :
  Sorted (fun a b => seq_leb a b = true) l -> x ∈ take n l -> y ∈ drop n l -> (snd x <= snd y)%N.
Proof.
  intros Hl. apply Sorted_StronglySorted in Hl; [|intros a b c; unfold seq_leb; lia].
  rewrite <-(take_drop n l) in Hl. revert Hl.
  induction (take n l) as [|z k IH]; simpl; intros Hl Hx Hy; [by apply not_elem_of_nil in Hx|].
  apply StronglySorted_inv in Hl as [Hk Hz]. apply elem_of_cons in Hx as [->|Hx]; [|auto].
  rewrite Forall_app, !Forall_forall in Hz. destruct Hz as [_ Hz]. specialize (Hz y Hy).
  unfold seq_leb in Hz. lia.
Qed.

(** The oldest entries of a table beyond a bound: each as old as any that
    stays. *)
Lemma oldest_spec (l : list (str * N)) (m : gmap str N) cap :
  l ≡ₚ map_to_list m ->
  let victims := map fst (take (length l - cap) (sort_with seq_leb l)) in
  let kept := foldr delete m (rev victims) in
  NoDup victims /\ (forall k, k ∈ victims -> is_Some (m !! k)) /\
  length victims = size m - cap /\ size kept + length victims = size m /\
  (forall k q k' q', k ∈ victims -> m !! k = Some q -> kept !! k' = Some q' -> (q <= q')%N).
Proof.
  intros Hl. cbv zeta. set (n := length l - cap).
  assert (Hperm : sort_with seq_leb l ≡ₚ map_to_list m) by by rewrite sort_with_perm.
  assert (Hnd : NoDup (map fst (sort_with seq_leb l))).
  { rewrite Hperm. apply NoDup_fst_map_to_list. }
  assert (Hin : forall k, k ∈ map fst (take n (sort_with seq_leb l)) -> is_Some (m !! k)).
  { intros k ([k' q] & -> & Hk)%list_elem_of_fmap. exists q.
    apply elem_of_map_to_list. rewrite <-Hperm. by eapply sublist_subseteq; [apply sublist_take|]. }
  assert (Hnd' : NoDup (map fst (take n (sort_with seq_leb l)))).
  { rewrite <-firstn_map. eapply sublist_NoDup; [exact Hnd|apply sublist_take]. }
  assert (Hn : n = size m - cap) by (unfold n; by rewrite Hl, length_map_to_list).
  assert (Hlen : length (map fst (take n (sort_with seq_leb l))) = n).
  { rewrite length_map, length_take, sort_with_length. unfold n. lia. }
  split_and!; [done|done|by rewrite Hlen| |].
  - rewrite <-length_rev. apply size_foldr_delete; [by rewrite <-Permutation_rev|].
    intros k Hk. rewrite <-Permutation_rev in Hk. auto.
  - intros k q k' q' ([k0 q0] & -> & Hk)%list_elem_of_fmap Hq Hk'. simpl in Hq.
    rewrite lookup_foldr_delete in Hk'. case_decide as Hv; [done|]. rewrite <-Permutation_rev in Hv.
    assert (q0 = q) as ->.
    { assert ((k0, q0) ∈ sort_with seq_leb l) as Hin0 by (by eapply sublist_subseteq; [apply sublist_take|]).
      rewrite Hperm, elem_of_map_to_list in Hin0. simplify_eq. done. }
    apply (sorted_take_drop_seq (sort_with seq_leb l) n (k0, q) (k', q')); [|done|].
    + apply sort_with_sorted. unfold seq_leb. lia.
    + assert ((k', q') ∈ sort_with seq_leb l) as Hin' by by rewrite Hperm, elem_of_map_to_list.
      rewrite <-(take_drop n (sort_with _ _)) in Hin'. apply elem_of_app in Hin' as [Hin'|]; [|done].
      destruct Hv. apply list_elem_of_fmap. by exists (k', q').
Qed.

(** The eviction: it always ends, only completed entries go, at most ten stay,
    and no entry that stays is older than one that goes. *)
Record eviction (r r' : Registry) (victims : list str) : Prop := {
  ev_state : r' = on_workers (fun m => foldr delete m victims) r;
  ev_completed : forall k, k ∈ victims -> is_Some (completed_of (workers r) !! k);
  ev_bound : size (completed_of (workers r')) <= MAX_RECENT_COMPLETED;
  ev_exact : length victims = size (completed_of (workers r)) - MAX_RECENT_COMPLETED;
  ev_oldest : forall k q k' q', k ∈ victims -> completed_of (workers r) !! k = Some q ->
    completed_of (workers r') !! k' = Some q' -> (q <= q')%N
}.

Lemma evict_spec r :
  exists r' victims, evict_completed_ring r = Some (length victims, r') /\ eviction r r' victims.
Proof.
  unfold evict_completed_ring. set (C := completed_of (workers r)).
  assert (HC : size C <= size (workers r)).
  { unfold C, completed_of. rewrite <-!size_dom. apply subseteq_size, dom_omap_subseteq. }
  cbn [ring_loop]. rewrite completed_entries_length. fold C.
  destruct (size C <=? MAX_RECENT_COMPLETED) eqn:E.
  { apply Nat.leb_le in E. exists r, []. split; [done|]. fold C.
    split; [by destruct r|by intros ? ?%not_elem_of_nil|done|simpl; fold C; lia|by intros ? ? ? ? ?%not_elem_of_nil]. }
  apply Nat.leb_gt in E. pose proof (oldest_spec _ _ MAX_RECENT_COMPLETED (completed_entries_perm r)) as Hv. cbv zeta in Hv.
  rewrite completed_entries_length in Hv. fold C in Hv.
  set (victims := map fst _) in *. destruct Hv as (Hnd & Hin & Hlen & Hsz & Hold).
  rewrite remove_worker_fold; [|done|].
  2:{ intros k Hk. destruct (Hin k Hk) as [q Hq]. unfold C, completed_of in Hq.
      apply lookup_omap_Some in Hq as (s & _ & Hs). by exists s. }
  rewrite Nat.add_0_l. destruct (length victims =? 0) eqn:E0; [apply Nat.eqb_eq in E0; lia|].
  set (r' := on_workers _ r). assert (HC' : completed_of (workers r') = foldr delete C (rev victims)).
  { apply omap_foldr_delete. }
  destruct (size (workers r)) as [|n] eqn:En; [unfold MAX_RECENT_COMPLETED in E; lia|].
  cbn [ring_loop]. rewrite completed_entries_length, HC'.
  rewrite (proj2 (Nat.leb_le _ _)) by lia.
  exists r', (rev victims). rewrite length_rev. split; [done|]. split.
  - done.
  - intros k Hk. rewrite <-Permutation_rev in Hk. auto.
  - rewrite HC'. lia.
  - by rewrite length_rev.
  - intros k q k' q' Hk Hq. rewrite HC'. rewrite <-Permutation_rev in Hk. by eapply Hold.
Qed.

(** Which entries are live, and what else an operation may touch. *)
Definition same_live (r r' : Registry) : Prop := forall k, live r' k = live r k.

Lemma eviction_live r r' victims : eviction r r' victims -> forall k, live r' k = live r k.
Proof.
  intros [-> Hc _ _ _] k. unfold live. simpl. rewrite lookup_foldr_delete.
  case_decide as Hk; [|done]. destruct (Hc k Hk) as [q Hq]. unfold completed_of in Hq.
  apply lookup_omap_Some in Hq as (s & Hs & Hm). rewrite Hm. unfold is_active. by rewrite Hs.
Qed.

(** ** Claiming a key *)

Context `{Uuids}.

(** The keys the loop has tried: the natural one, then ids in the order they
    were drawn, then UUIDs. *)
Definition tried_key (base : str) (s0 : N) (draws : nat) (uuids : N) (t : str) : Prop :=
  t = base \/
  (exists i, i < draws /\ t = base ++ [WORKER_KEY_DISAMBIGUATOR] ++
     lit (pretty.pretty ((s0 + N.of_nat i) mod 2 ^ 64)%N)) \/
  (exists n, (n < uuids)%N /\ t = base ++ [WORKER_KEY_DISAMBIGUATOR] ++ lit "u" ++ uuid_v4 n).

Lemma tried_key_mono base s0 d u d' u' t :
  d <= d' -> (u <= u')%N -> tried_key base s0 d u t -> tried_key base s0 d' u' t.
Proof.
  intros Hd Hu [->|[(i & Hi & ->)|(n & Hn & ->)]]; [by left| |].
  - right; left. exists i. split; [lia|done].
  - right; right. exists n. split; [lia|done].
Qed.

Lemma lit_injective a b : lit a = lit b -> a = b.
Proof.
  revert b. induction a as [|x a IH]; intros [|y b]; try done.
  intros [= Hx%(f_equal Ascii.ascii_of_N) Hab%IH]. rewrite !Ascii.ascii_N_embedding in Hx. by subst.
Qed.

Lemma dec_inj (a b : N) : lit (pretty.pretty a) = lit (pretty.pretty b) -> a = b.
Proof. intros Hab%lit_injective. by apply (inj pretty.pretty) in Hab. Qed.

Lemma disambiguated_spec base retries r key r' s0 :
  disambiguated base (S retries) r = (key, r') ->
  next_worker_id_seq r = ((s0 + N.of_nat (min retries 16)) mod 2 ^ 64)%N ->
  ~ tried_key base s0 (min retries 16) (uuids_drawn r) key /\
  tried_key base s0 (min (S retries) 16) (uuids_drawn r') key /\
  (uuids_drawn r <= uuids_drawn r')%N /\
  next_worker_id_seq r' = ((s0 + N.of_nat (min (S retries) 16)) mod 2 ^ 64)%N /\
  workers r' = workers r /\ guard_refs r' = guard_refs r /\ notice_store r' = notice_store r /\
  pauses r' = pauses r /\ token_store r' = token_store r /\ next_completed_seq r' = next_completed_seq r.
Proof.
  unfold disambiguated, MAX_KEY_DISAMBIGUATION_RETRIES. intros Hk Hseq.
  destruct (S retries <=? 16) eqn:E.
  - apply Nat.leb_le in E. unfold next_worker_id in Hk. injection Hk as <- <-.
    rewrite Hseq. replace (min retries 16) with retries in * by lia.
    replace (min (S retries) 16) with (S retries) by lia. split_and!; try done.
    + intros [Hb|[(i & Hi & Heq)|(n & _ & Heq)]].
      * apply (f_equal length) in Hb. rewrite length_app in Hb. simpl in Hb. lia.
      * apply app_inv_head in Heq. injection Heq as Heq%dec_inj.
        assert (N.of_nat retries = N.of_nat i); [|lia].
        assert ((s0 + N.of_nat retries) mod 2 ^ 64 = (s0 + N.of_nat i) mod 2 ^ 64)%N as Hm by done.
        clear Heq. zify. Z.to_euclidean_division_equations. nia.
      * apply app_inv_head in Heq. injection Heq as Heq.
        pose proof (pretty_digits ((s0 + N.of_nat retries) mod 2 ^ 64)) as Hd. rewrite Heq in Hd.
        apply Forall_inv in Hd. vm_compute in Hd. done.
    + right; left. exists retries. split; [lia|done].
    + simpl. unfold fetch_add. rewrite N.Div0.add_mod_idemp_l. f_equal. lia.
  - apply Nat.leb_gt in E. injection Hk as <- <-.
    replace (min retries 16) with 16 in * by lia. replace (min (S retries) 16) with 16 by lia.
    split_and!; try done; simpl; [| |lia].
    + intros [Hb|[(i & Hi & Heq)|(n & Hn & Heq)]].
      * apply (f_equal length) in Hb. rewrite length_app in Hb. simpl in Hb. lia.
      * apply app_inv_head in Heq. injection Heq as Heq.
        pose proof (pretty_digits ((s0 + N.of_nat i) mod 2 ^ 64)) as Hd. rewrite <-Heq in Hd.
        apply Forall_inv in Hd. vm_compute in Hd. done.
      * apply app_inv_head in Heq. injection Heq as Heq. apply uuid_v4_inj in Heq. lia.
    + right; right. exists (uuids_drawn r). split; [lia|done].
Qed.

(** What a claim does: the key was not live, only its entry is written, and the
    last-seen token count of a completed entry is inherited. *)
Record claimed (r : Registry) (base key : str) (mk : nat -> WorkerState) (r' : Registry) : Prop := {
  cl_free : live r key = false;
  cl_workers : workers r' = <[key := mk (default 0 (last_tokens <$> workers r !! key))]> (workers r);
  cl_refs : guard_refs r' = guard_refs r;
  cl_notices : notice_store r' = notice_store r;
  cl_pauses : pauses r' = pauses r;
  cl_tokens : token_store r' = token_store r;
  cl_seq : next_completed_seq r' = next_completed_seq r;
  cl_key : key = base \/ exists handle, key = base ++ [WORKER_KEY_DISAMBIGUATOR] ++ handle
}.

Lemma tried_key_shape base s0 d u t :
  tried_key base s0 d u t -> t = base \/ exists handle, t = base ++ [WORKER_KEY_DISAMBIGUATOR] ++ handle.
Proof. intros [->|[(i & _ & ->)|(n & _ & ->)]]; eauto. Qed.

Lemma claim_loop_spec base mk s0 fuel : forall key retries r tried,
  size (workers r) < fuel + length tried -> NoDup tried -> key ∉ tried ->
  (forall t, t ∈ tried -> live r t = true) ->
  (forall t, t ∈ key :: tried -> tried_key base s0 (min retries 16) (uuids_drawn r) t) ->
  next_worker_id_seq r = ((s0 + N.of_nat (min retries 16)) mod 2 ^ 64)%N ->
  exists k r', claim_loop fuel base key retries mk r = Some (k, r') /\ claimed r base k mk r' /\
    (live r key = false -> k = key).
Proof.
  induction fuel as [|fuel IH]; intros key retries r tried Hsz Hnd Hk Hlive Htried Hseq.
  - exfalso. assert (list_to_set tried ⊆ dom (workers r)) as Hsub.
    { intros t Ht%elem_of_list_to_set. apply Hlive in Ht. unfold live in Ht. apply elem_of_dom.
      by destruct (workers r !! t). }
    apply subseteq_size in Hsub. rewrite size_list_to_set, size_dom in Hsub by done. lia.
  - cbn [claim_loop]. destruct (live r key) eqn:El.
    + assert (exists s, workers r !! key = Some s /\ is_active s = true) as (s & Hs & Ha).
      { unfold live in El. destruct (workers r !! key) as [s|]; [by exists s|done]. }
      rewrite Hs, Ha. destruct (disambiguated base (S retries) r) as [key' r1] eqn:Ed.
      destruct (disambiguated_spec _ _ _ _ _ _ Ed Hseq)
        as (Hfresh & Hnew & Hu & Hseq' & Hw & Hr & Hn & Hp & Ht & Hc).
      destruct (IH key' (S retries) r1 (key :: tried)) as (k & r' & Heq & Hcl & _).
      * rewrite Hw. simpl. lia.
      * by constructor.
      * intros Hin. apply Hfresh, Htried, Hin.
      * intros t Hin. unfold live in *. rewrite Hw. apply elem_of_cons in Hin as [->|Hin].
        -- by rewrite Hs.
        -- by apply Hlive.
      * intros t [->|Hin]%elem_of_cons; [done|]. eapply tried_key_mono; [| |by apply Htried]; lia.
      * done.
      * exists k, r'. split; [done|]. split; [|congruence]. destruct Hcl. unfold live in *.
        rewrite Hw in *. split; congruence || done.
    + exists key. assert (Hshape : tried_key base s0 (min retries 16) (uuids_drawn r) key) by (apply Htried; left).
      apply tried_key_shape in Hshape. unfold live in El.
      destruct (workers r !! key) as [s|] eqn:Hs; [rewrite El|]; eexists;
        (split; [reflexivity|]); (split; [|done]); split; simpl; try done; rewrite ?Hs; try done;
        unfold live; by rewrite Hs.
Qed.

(** Claiming always succeeds: the number of entries bounds the retries. *)
Lemma claim_spec base task agent prompt token now id r :
  (next_worker_id_seq r < 2 ^ 64)%N ->
  let mk tokens := new_worker_state task agent prompt token now tokens id in
  exists k r', claim_worker_slot base task agent prompt token now id r = Some (k, r') /\
    claimed r base k mk r' /\ (live r base = false -> k = base).
Proof.
  intros Hseq mk. apply (claim_loop_spec base mk (next_worker_id_seq r) _ base 0 r []).
  - simpl. lia.
  - constructor.
  - apply not_elem_of_nil.
  - by intros t ?%not_elem_of_nil.
  - intros t ->%list_elem_of_singleton. by left.
  - simpl. rewrite N.add_0_r, N.mod_small; done.
Qed.

(** ** Registering *)

Definition clean_task (task_id : option str) : option str :=
  match task_id with Some t => normalize_task_id t | None => None end.

(** The natural key of a registration. *)
Definition natural_base (agent : str) (clean : option str) (id : N) : str :=
  match clean with
  | Some t => agent ++ lit "-" ++ t
  | None => agent ++ lit "-w" ++ lit (pretty.pretty id)
  end.

(** The registration joined the live entry [s] of its own delegation. *)
Record attached (agent prompt : str) (clean : option str) (token : option Token) (r : Registry)
    (key : str) (r' : Registry) (s : WorkerState) : Prop := {
  at_entry : workers r !! key = Some s;
  at_live : is_active s = true;
  at_same : wi_agent_name (ws_info s) = agent /\ wi_task_id (ws_info s) = clean /\
            token <> None /\ wi_cancel_token (ws_info s) = token;
  at_workers : workers r' = <[key := with_info (with_prompt prompt) s]> (workers r);
  at_refs : guard_refs r' = attach_guard key (guard_refs r)
}.

(** The registration opened a fresh entry. *)
Record opened (agent prompt : str) (clean : option str) (token : option Token) (now : Now) (r : Registry)
    (key : str) (r' : Registry) : Prop := {
  op_free : live r key = false;
  op_workers : exists tokens t, workers r' =
    <[key := new_worker_state clean agent prompt (Some t) now tokens (next_worker_id_seq r)]> (workers r) /\
    (token = None \/ token = Some t);
  op_refs : guard_refs r' = <[key := 1]> (guard_refs r);
  op_natural : live r (natural_base agent clean (next_worker_id_seq r)) = false ->
    key = natural_base agent clean (next_worker_id_seq r);
  op_alone : forall t k s, token = Some t -> workers r !! k = Some s ->
    same_delegation agent clean t (k, s) = false
}.

Lemma same_delegation_true agent clean t k s :
  same_delegation agent clean t (k, s) = true <->
  is_active s = true /\ wi_agent_name (ws_info s) = agent /\ wi_task_id (ws_info s) = clean /\
  wi_cancel_token (ws_info s) = Some t.
Proof.
  unfold same_delegation. simpl. rewrite !andb_true_iff, str_eqb_eq, bool_decide_eq_true.
  destruct (wi_cancel_token (ws_info s)); [rewrite bool_decide_eq_true|]; naive_solver.
Qed.

Lemma register_spec task agent prompt token now r :
  (next_worker_id_seq r < 2 ^ 64)%N ->
  exists key r', register_active_worker_with_token task agent prompt token now r = Some (key, r') /\
    next_completed_seq r' = next_completed_seq r /\ notice_store r' = notice_store r /\
    ((exists s, attached agent prompt (clean_task task) token r key r' s) \/
     opened agent prompt (clean_task task) token now r key r').
Proof.
  intros Hseq. unfold register_active_worker_with_token. fold (clean_task task).
  set (clean := clean_task task).
  destruct (match token with Some t => existing_key agent clean t r | None => None end) as [key|] eqn:Ee.
  - destruct token as [t|]; [|done]. unfold existing_key in Ee.
    destruct (find_first _ _) as [[k s]|] eqn:Ef; [|done]. simpl in Ee. injection Ee as ->.
    apply find_first_Some in Ef as (l1 & l2 & Hl & Hs & _).
    assert (workers r !! key = Some s) as Hk.
    { apply elem_of_dash. rewrite Hl. apply elem_of_app. right. by left. }
    apply same_delegation_true in Hs as (Ha & Hag & Htk & Htok).
    eexists _, _. split_and!; [reflexivity|done|done|]. left. exists s. split; try done; simpl.
    apply map_eq. intros k. destruct (decide (k = key)) as [->|Hne].
    + rewrite lookup_alter_eq, Hk, lookup_insert_eq. simpl. by rewrite Ha.
    + by rewrite lookup_alter_ne, lookup_insert_ne.
  - unfold next_worker_id. cbv iota beta. set (r1 := set_worker_id_seq _ r). fold (natural_base agent clean (next_worker_id_seq r)).
    destruct (match token with Some t => (t, r1) | None => _ end) as [t r2] eqn:Et.
    assert (Hr2 : workers r2 = workers r /\ guard_refs r2 = guard_refs r /\ notice_store r2 = notice_store r /\
      next_completed_seq r2 = next_completed_seq r /\
      next_worker_id_seq r2 = fetch_add (next_worker_id_seq r) 1 /\ (token = None \/ token = Some t)).
    { destruct token as [t0|]; simplify_eq/=; [by split_and!; auto|].
      destruct (child_token _) as [t1 ts]. simplify_eq/=. by split_and!; auto. }
    destruct Hr2 as (Hw & Hr & Hn & Hc & Hs & Ht).
    destruct (claim_spec (natural_base agent clean (next_worker_id_seq r)) clean agent prompt (Some t) now
                (next_worker_id_seq r) r2) as (key & r3 & Heq & Hcl & Hnat).
    { rewrite Hs. unfold fetch_add. apply N.mod_lt. done. }
    rewrite Heq. destruct Hcl as [Hfree Hw3 Hr3 Hn3 _ _ Hc3 _]. unfold live in Hfree, Hnat.
    rewrite Hw in *. eexists _, _. split_and!; [reflexivity|simpl; congruence|simpl; congruence|]. right. split; simpl.
    + done.
    + by eexists _, t.
    + by rewrite Hr3, Hr.
    + done.
    + intros t' k s -> Hk. unfold existing_key in Ee.
      destruct (find_first _ _) eqn:Ef; [done|]. rewrite find_first_None, Forall_forall in Ef.
      apply Ef. by apply elem_of_dash.
Qed.

(** ** Completing *)

Context `{Unicode}.

Lemma flip_live key now r k :
  live (flip_completed key now r) k = if decide (k = key) then false else live r k.
Proof.
  unfold flip_completed, live. destruct (workers r !! key) as [s|] eqn:Hs.
  - destruct (is_active s) eqn:Ha; simpl.
    + destruct (decide (k = key)) as [->|Hne]; [by rewrite lookup_insert_eq|by rewrite lookup_insert_ne].
    + destruct (decide (k = key)) as [->|Hne]; [by rewrite Hs|done].
  - destruct (decide (k = key)) as [->|Hne]; [by rewrite Hs|done].
Qed.

Lemma flip_frame key now r :
  guard_refs (flip_completed key now r) = guard_refs r /\
  notice_store (flip_completed key now r) = notice_store r /\
  next_worker_id_seq (flip_completed key now r) = next_worker_id_seq r.
Proof. unfold flip_completed. by destruct (workers r !! key) as [s|]; [destruct (is_active s)|]. Qed.

(** The last guard of a key completes its entry, bounds the ring and reclaims
    the inbox; an earlier guard only counts down. *)
Record dropped (key : str) (now : Now) (r r' : Registry) : Prop := {
  dr_live : forall k, live r' k = if decide (k = key) then false else live r k;
  dr_refs : guard_refs r' = delete key (guard_refs r);
  dr_ring : exists victims, eviction (flip_completed key now r) (on_notices (fun _ => notice_store r)
    (on_workers (fun _ => workers r') (flip_completed key now r))) victims;
  dr_notices : notice_store r' = snd (reclaim_worker_inbox key (notice_store r));
  dr_ids : next_worker_id_seq r' = next_worker_id_seq r
}.

Lemma drop_last_spec key now r :
  guard_refs r !! key = None \/ guard_refs r !! key = Some 0 \/ guard_refs r !! key = Some 1 ->
  exists r', drop_guard key now r = Some r' /\ dropped key now r r'.
Proof.
  intros Hn. unfold drop_guard, release_ref.
  assert (Hr1 : exists r1, (match guard_refs r !! key with
      | Some n => if 1 <? n then (true, on_refs <[key := n - 1]> r) else (false, on_refs (delete key) r)
      | None => (false, r) end) = (false, r1) /\ r1 = on_refs (delete key) r).
  { destruct Hn as [Hn|[Hn|Hn]]; rewrite Hn; [|by eexists..]. eexists. split; [done|].
    unfold on_refs. rewrite delete_id by done. by destruct r. }
  destruct Hr1 as (r1 & -> & ->). set (r1 := on_refs (delete key) r).
  destruct (evict_spec (flip_completed key now r1)) as (r2 & victims & He & Hev). rewrite He. simpl.
  eexists. split; [done|].
  destruct (flip_frame key now r1) as (Hrefs & Hns & Hid). pose proof (eviction_live _ _ _ Hev) as Hlive.
  assert (Hw : workers (flip_completed key now r) = workers (flip_completed key now r1)).
  { unfold flip_completed, r1. simpl. by destruct (workers r !! key) as [s|]; [destruct (is_active s)|]. }
  destruct Hev as [Hst Hc Hb Hex Hold]. split; simpl.
  - intros k. unfold live in *. simpl. rewrite Hlive. apply (flip_live key now r1).
  - rewrite Hst. simpl. by rewrite Hrefs.
  - exists victims. split; simpl.
    + rewrite Hst. unfold on_notices, on_workers; simpl.
      destruct (flip_frame key now r) as (_ & <- & _). by rewrite Hw.
    + rewrite Hw. done.
    + done.
    + by rewrite Hw.
    + rewrite Hw. done.
  - rewrite Hst. simpl. by rewrite Hns.
  - rewrite Hst. simpl. by rewrite Hid.
Qed.

Lemma drop_shared_spec key now r n :
  guard_refs r !! key = Some (S (S n)) ->
  drop_guard key now r = Some (on_refs <[key := S n]> r).
Proof. intros Hn. unfold drop_guard, release_ref. rewrite Hn. simpl. done. Qed.

Lemma retire_spec key status now r :
  exists seq r', retire_restored_worker key status now r = Some (seq, r') /\
    (forall k, live r' k = if decide (k = key) then false else live r k) /\
    (guard_refs r' = delete key (guard_refs r) \/ guard_refs r' = guard_refs r /\ workers r !! key = None) /\
    next_worker_id_seq r' = next_worker_id_seq r.
Proof.
  unfold retire_restored_worker. destruct (workers r !! key) as [s|] eqn:Hs.
  2:{ eexists _, _. split_and!; [done| |by right|done]. intros k. case_decide as Hk; [|done].
      subst. unfold live. by rewrite Hs. }
  destruct (if is_active s then _ else _) as [seq r1] eqn:E1.
  assert (Hr1 : (forall k, live r1 k = if decide (k = key) then false else live r k) /\
    guard_refs r1 = guard_refs r /\ next_worker_id_seq r1 = next_worker_id_seq r).
  { destruct (is_active s) eqn:Ha; simplify_eq/=; split_and!; try done; intros k; unfold live; simpl;
      case_decide as Hk; subst; rewrite ?lookup_insert_eq, ?lookup_insert_ne by done; try done.
    by rewrite Hs. }
  destruct Hr1 as (Hl & Hr & Hi).
  destruct (evict_spec (on_refs (delete key) r1)) as (r2 & victims & He & Hev). rewrite He. simpl.
  pose proof (eviction_live _ _ _ Hev) as Hlive. destruct Hev as [Hst _ _ _ _].
  eexists _, _. split_and!; [done| | |].
  - intros k. unfold live in *. simpl. rewrite Hlive. apply Hl.
  - left. rewrite Hst. simpl. by rewrite Hr.
  - rewrite Hst. done.
Qed.

(** ** Histories *)

(** The operations that keep every entry where it is. *)
Inductive Update :=
  | UContext (key : str) (tokens : nat) (now : Now)
  | UProgress (key : str) (turns rounds : nat) (fb : option str)
  | UStatus (key status : str)
  | UQueue (key : str) (p : option QueuePosition)
  | UQueueReport (agent : str) (task : option str) (p : option QueuePosition)
  | UCancel (agent task : option str)
  | UCancelAll
  | UPause (key : str) (paused : bool)
  | UNotices (f : Store -> Store)
  | USeedIds (floor : N)
  | USeedSeq (floor : N).

Definition apply_update (u : Update) (r : Registry) : Registry :=
  match u with
  | UContext key tokens now => update_active_worker_context key tokens now r
  | UProgress key turns rounds fb => update_active_worker_progress key turns rounds fb r
  | UStatus key status => set_active_worker_status key status r
  | UQueue key p => snd (set_active_worker_queue_position key p r)
  | UQueueReport agent task p => snd (set_worker_queue_position agent task p r)
  | UCancel agent task => snd (cancel_active_worker agent task r)
  | UCancelAll => snd (cancel_all_active_workers r)
  | UPause key paused => default r (set_paused key paused r)
  | UNotices f => on_notices f r
  | USeedIds floor => snd (seed_worker_id_seq_floor (floor mod 2 ^ 64) r)
  | USeedSeq floor => snd (seed_completed_seq_floor floor r)
  end.

(** A well-formed entry: its completion sequence and its two completion clocks
    are there together, and a completed entry reports no queue rank. *)
Definition state_ok (s : WorkerState) : Prop :=
  match completed_seq s, completed_at s, completed_wall s with
  | None, None, None => True
  | Some _, Some _, Some _ => queue_position s = None
  | _, _, _ => False
  end.
Definition table_ok (r : Registry) : Prop := map_Forall (fun _ s => state_ok s) (workers r).

(** What an update leaves alone: which keys are live and with which token, the
    reference counts, and the width of the id counter. *)
Record quiet (r r' : Registry) : Prop := {
  qu_live : forall k, live r' k = live r k;
  qu_token : forall k s', workers r' !! k = Some s' -> is_active s' = true ->
    exists s, workers r !! k = Some s /\ is_active s = true /\
      wi_cancel_token (ws_info s') = wi_cancel_token (ws_info s);
  qu_refs : guard_refs r' = guard_refs r;
  qu_ids : (next_worker_id_seq r < 2 ^ 64)%N -> (next_worker_id_seq r' < 2 ^ 64)%N;
  qu_typed : table_ok r -> table_ok r'
}.

Lemma quiet_refl r : quiet r r.
Proof. split; try done. intros k s Hs Ha. by exists s. Qed.

Lemma quiet_trans r1 r2 r3 : quiet r1 r2 -> quiet r2 r3 -> quiet r1 r3.
Proof.
  intros [Hl Ht Hr Hi Hy] [Hl' Ht' Hr' Hi' Hy']. split.
  - intros k. by rewrite Hl'.
  - intros k s3 Hs3 Ha3. destruct (Ht' _ _ Hs3 Ha3) as (s2 & Hs2 & Ha2 & ->).
    destruct (Ht _ _ Hs2 Ha2) as (s1 & ? & ? & ->). by exists s1.
  - by rewrite Hr'.
  - auto.
  - auto.
Qed.

(** Same table and counts. *)
Lemma quiet_frame r r' :
  workers r' = workers r -> guard_refs r' = guard_refs r ->
  ((next_worker_id_seq r < 2 ^ 64)%N -> (next_worker_id_seq r' < 2 ^ 64)%N) -> quiet r r'.
Proof.
  intros Hw Hr Hi. split; [|..|done|done|].
  - intros k. unfold live. by rewrite Hw.
  - intros k s. rewrite Hw. intros Hs Ha. by exists s.
  - unfold table_ok. by rewrite Hw.
Qed.

(** Rewriting one entry without touching its liveness or its token. *)
Lemma quiet_insert r key s s' :
  workers r !! key = Some s -> is_active s' = is_active s ->
  wi_cancel_token (ws_info s') = wi_cancel_token (ws_info s) -> (state_ok s -> state_ok s') ->
  quiet r (on_workers <[key := s']> r).
Proof.
  intros Hs Ha Ht Hy. split; [| |done|done|].
  - intros k. unfold live. simpl. destruct (decide (k = key)) as [->|Hne].
    + by rewrite lookup_insert_eq, Hs.
    + by rewrite lookup_insert_ne.
  - intros k s2. simpl. intros [[<- <-]|[Hne Hk]]%lookup_insert_Some Ha2; [|by exists s2].
    exists s. split_and!; [done|congruence|done].
  - intros Hok. apply map_Forall_insert_2; [|done]. apply Hy. exact (Hok _ _ Hs).
Qed.

Lemma quiet_alter_live key f r :
  (forall s, is_active s = true -> is_active (f s) = is_active s /\
     wi_cancel_token (ws_info (f s)) = wi_cancel_token (ws_info s) /\ (state_ok s -> state_ok (f s))) ->
  quiet r (snd (alter_live key f r)).
Proof.
  intros Hf. unfold alter_live. destruct (workers r !! key) as [s|] eqn:Hs; [|apply quiet_refl].
  destruct (is_active s) eqn:Ha; [|apply quiet_refl]. destruct (Hf s Ha) as (? & ? & ?). by eapply quiet_insert.
Qed.

Lemma quiet_status key status r : quiet r (set_active_worker_status key status r).
Proof.
  unfold set_active_worker_status.
  pose proof (quiet_alter_live key (with_info (with_status status)) r) as Hq.
  destruct (alter_live _ _ r) as [[] r1]; [|by apply Hq].
  eapply quiet_trans; [by apply Hq|]. by apply quiet_frame.
Qed.

Lemma quiet_cancel victims r : quiet r (fold_left cancel_one victims r).
Proof.
  revert r. induction victims as [|[key [t|]] victims IH]; intros r; simpl; [apply quiet_refl|..];
    (eapply quiet_trans; [|apply IH]); unfold cancel_one; simpl; [|apply quiet_status].
  eapply quiet_trans; [|apply quiet_status]. by apply quiet_frame.
Qed.

Lemma quiet_context key tokens now r : quiet r (update_active_worker_context key tokens now r).
Proof.
  unfold update_active_worker_context. destruct (workers r !! key) as [s|] eqn:Hs.
  - apply (quiet_insert _ _ s); [done|done| |done]. simpl. by destruct (is_active s).
  - split; [| |done|done|by intros Hok; apply map_Forall_insert_2].
    + intros k. unfold live. simpl. destruct (decide (k = key)) as [->|Hne].
      * by rewrite lookup_insert_eq, Hs.
      * by rewrite lookup_insert_ne.
    + intros k s2. simpl. intros [[<- <-]|[Hne Hk]]%lookup_insert_Some Ha2; [done|by exists s2].
Qed.

Lemma quiet_queue key p r : quiet r (snd (set_active_worker_queue_position key p r)).
Proof.
  apply quiet_alter_live. intros s Ha. split_and!; [done|done|]. unfold state_ok, is_active in *. simpl.
  by destruct (completed_seq s).
Qed.

Lemma update_quiet u r : quiet r (apply_update u r).
Proof.
  destruct u; cbn [apply_update].
  - apply quiet_context.
  - by apply quiet_alter_live.
  - apply quiet_status.
  - apply quiet_queue.
  - unfold set_worker_queue_position. destruct (match task with Some t => _ | None => _ end); [|apply quiet_refl].
    destruct (live r _); [apply quiet_queue|].
    destruct (map fst _) as [|key [|? ?]]; [apply quiet_refl|apply quiet_queue|apply quiet_refl].
  - apply quiet_cancel.
  - apply quiet_cancel.
  - unfold set_paused. destruct (controllable key r); [|apply quiet_refl]. by apply quiet_frame.
  - by apply quiet_frame.
  - apply quiet_frame; [done|done|]. simpl. intros Hn.
    pose proof (N.mod_lt floor (2 ^ 64) ltac:(done)). lia.
  - by apply quiet_frame.
Qed.

(** The registry with what the program holds outside it: the guards in scope
    and the keys whose live entry was put back by a session restore. *)
Record World := { reg : Registry; guards : list str; restored : gset str }.

(** One operation.  Only a guard in scope is dropped.  The token of a restored
    entry was minted by the restore and registers nobody; what is retired is
    not held by a guard. *)
Inductive world_step : World -> World -> Prop :=
  | w_register task agent prompt token now r gs rs key r' :
      register_active_worker_with_token task agent prompt token now r = Some (key, r') ->
      (forall k s, k ∈ rs -> workers r !! k = Some s -> token = None \/ wi_cancel_token (ws_info s) <> token) ->
      world_step {| reg := r; guards := gs; restored := rs |}
                 {| reg := r'; guards := key :: gs; restored := rs |}
  | w_drop key now r gs1 gs2 rs r' :
      drop_guard key now r = Some r' ->
      world_step {| reg := r; guards := gs1 ++ key :: gs2; restored := rs |}
                 {| reg := r'; guards := gs1 ++ gs2; restored := rs |}
  | w_install key s r gs rs r' :
      state_ok s -> install_restored_worker key s r = (true, r') ->
      world_step {| reg := r; guards := gs; restored := rs |}
                 {| reg := r'; guards := gs; restored := if is_active s then {[key]} ∪ rs else rs |}
  | w_retire key status now r gs rs seq r' :
      key ∉ gs -> retire_restored_worker key status now r = Some (seq, r') ->
      world_step {| reg := r; guards := gs; restored := rs |}
                 {| reg := r'; guards := gs; restored := rs ∖ {[key]} |}
  | w_ring r gs rs n r' :
      enforce_completed_ring_cap r = Some (n, r') ->
      world_step {| reg := r; guards := gs; restored := rs |} {| reg := r'; guards := gs; restored := rs |}
  | w_update u r gs rs :
      world_step {| reg := r; guards := gs; restored := rs |}
                 {| reg := apply_update u r; guards := gs; restored := rs |}.

Definition initial_world (ts : TokenStore) : World :=
  {| reg := initial_registry ts; guards := []; restored := ∅ |}.

(** ** The abstract slot table *)

(** What the registry promises, without its entries: how many holders keep a
    key, and the keys parked by a restore.  A key that is neither is free. *)
Record Slots := { held : gmap str nat; parked : gset str }.

Inductive slot_step : Slots -> Slots -> Prop :=
  | s_stutter s : slot_step s s
  | s_open k h p : h !! k = None -> k ∉ p ->
      slot_step {| held := h; parked := p |} {| held := <[k := 1]> h; parked := p |}
  | s_join k n h p : h !! k = Some (S n) ->
      slot_step {| held := h; parked := p |} {| held := <[k := S (S n)]> h; parked := p |}
  | s_leave k n h p : h !! k = Some (S (S n)) ->
      slot_step {| held := h; parked := p |} {| held := <[k := S n]> h; parked := p |}
  | s_close k h p : h !! k = Some 1 ->
      slot_step {| held := h; parked := p |} {| held := delete k h; parked := p |}
  | s_park k h p : h !! k = None ->
      slot_step {| held := h; parked := p |} {| held := h; parked := {[k]} ∪ p |}
  | s_unpark k h p : h !! k = None ->
      slot_step {| held := h; parked := p |} {| held := h; parked := p ∖ {[k]} |}.

Definition slots_of (w : World) : Slots := {| held := guard_refs (reg w); parked := restored w |}.

Definition count_guards (k : str) (gs : list str) : nat := count_occ (decide_rel (=)) gs k.
#[local] Arguments count_guards : simpl never.

Record world_ok (w : World) : Prop := {
  wo_ids : (next_worker_id_seq (reg w) < 2 ^ 64)%N;
  wo_count : forall k, default 0 (guard_refs (reg w) !! k) = count_guards k (guards w);
  wo_nonzero : forall k, guard_refs (reg w) !! k <> Some 0;
  wo_live : forall k, live (reg w) k = true <-> is_Some (guard_refs (reg w) !! k) \/ k ∈ restored w;
  wo_parked : forall k, k ∈ restored w -> guard_refs (reg w) !! k = None
}.

Lemma count_cons k x gs : count_guards k (x :: gs) = (if decide (x = k) then 1 else 0) + count_guards k gs.
Proof.
  unfold count_guards. destruct (decide (x = k)) as [Hx|Hx].
  - by rewrite count_occ_cons_eq.
  - by rewrite count_occ_cons_neq.
Qed.

Lemma count_middle k x gs1 gs2 :
  count_guards k (gs1 ++ x :: gs2) = (if decide (x = k) then 1 else 0) + count_guards k (gs1 ++ gs2).
Proof.
  unfold count_guards. rewrite !count_occ_app. pose proof (count_cons k x gs2) as Hc.
  unfold count_guards in Hc. lia.
Qed.

Lemma claim_loop_ids fuel base mk : forall key retries r key' r',
  claim_loop fuel base key retries mk r = Some (key', r') ->
  (next_worker_id_seq r < 2 ^ 64)%N -> (next_worker_id_seq r' < 2 ^ 64)%N.
Proof.
  induction fuel as [|fuel IH]; intros key retries r key' r' Heq Hid; [done|]. cbn [claim_loop] in Heq.
  destruct (workers r !! key) as [s|]; [|by simplify_eq/=].
  destruct (is_active s); [|by simplify_eq/=].
  unfold disambiguated in Heq. destruct (S retries <=? _); simpl in Heq.
  - eapply IH; [exact Heq|]. simpl. unfold fetch_add. by apply N.mod_lt.
  - by eapply IH; [exact Heq|].
Qed.

Lemma register_ids task agent prompt token now r key r' :
  register_active_worker_with_token task agent prompt token now r = Some (key, r') ->
  (next_worker_id_seq r < 2 ^ 64)%N -> (next_worker_id_seq r' < 2 ^ 64)%N.
Proof.
  unfold register_active_worker_with_token. intros Heq Hid.
  destruct (match token with Some t => existing_key _ _ t r | None => None end); [by simplify_eq/=|].
  unfold next_worker_id in Heq. cbv iota beta in Heq.
  destruct (match token with Some t => _ | None => _ end) as [t r2] eqn:Et.
  destruct (claim_worker_slot _ _ _ _ _ _ _ r2) as [[k r3]|] eqn:Ec; [|done]. simplify_eq/=.
  eapply (claim_loop_ids _ _ _ _ _ _ _ _ Ec).
  assert (next_worker_id_seq r2 = fetch_add (next_worker_id_seq r) 1) as ->.
  { destruct token; [by simplify_eq/=|]. destruct (child_token _). by simplify_eq/=. }
  unfold fetch_add. by apply N.mod_lt.
Qed.

(** One operation keeps the bookkeeping and is a step of the slot table. *)
Definition sound (w w' : World) : Prop := world_ok w' /\ slot_step (slots_of w) (slots_of w').

Lemma register_ok task agent prompt token now r gs rs key r' :
  register_active_worker_with_token task agent prompt token now r = Some (key, r') ->
  (forall k s, k ∈ rs -> workers r !! k = Some s -> token = None \/ wi_cancel_token (ws_info s) <> token) ->
  let w := {| reg := r; guards := gs; restored := rs |} in
  world_ok w -> sound w {| reg := r'; guards := key :: gs; restored := rs |}.
Proof.
  intros Heq Htok w [Hids Hcount Hnz Hlive Hpark]; simpl in *.
  pose proof (register_ids _ _ _ _ _ _ _ _ Heq Hids) as Hids'.
  destruct (register_spec task agent prompt token now r Hids) as (key0 & r0 & Heq0 & _ & _ & Hcase).
  rewrite Heq in Heq0. injection Heq0 as <- <-.
  destruct Hcase as [[s [Hs Ha (_ & _ & Hn & Ht) Hw Hr]]|[Hfree (tokens & t & Hw & _) Hr _ _]].
  - assert (Hl : live r key = true) by (unfold live; by rewrite Hs).
    destruct (guard_refs r !! key) as [n|] eqn:En.
    2:{ apply Hlive in Hl as [[? ?]|Hin]; [congruence|]. destruct (Htok key s Hin Hs); contradiction. }
    destruct n as [|n]; [by destruct (Hnz key)|]. unfold attach_guard in Hr. rewrite En in Hr. simpl in Hr.
    split; [split; simpl; [done|..]|].
    + intros k. rewrite Hr, count_cons, <-Hcount. destruct (decide (key = k)) as [->|Hne].
      * by rewrite lookup_insert_eq, En.
      * by rewrite lookup_insert_ne.
    + intros k. rewrite Hr. intros [[_ ?]|[_ Hk]]%lookup_insert_Some; [done|by apply (Hnz k)].
    + intros k. unfold live in *. rewrite Hw, Hr. destruct (decide (k = key)) as [->|Hne].
      * rewrite !lookup_insert_eq. split; [by left|done].
      * rewrite !lookup_insert_ne by done. apply Hlive.
    + intros k Hk. rewrite Hr, lookup_insert_ne; [by apply Hpark|]. intros <-. apply Hpark in Hk. congruence.
    + unfold slots_of. simpl. rewrite Hr. by constructor.
  - assert (En : guard_refs r !! key = None /\ key ∉ rs).
    { split; [apply eq_None_not_Some|]; intros Hk; assert (live r key = true) by (apply Hlive; auto); congruence. }
    destruct En as [En Hrs]. split; [split; simpl; [done|..]|].
    + intros k. rewrite Hr, count_cons, <-Hcount. destruct (decide (key = k)) as [->|Hne].
      * by rewrite lookup_insert_eq, En.
      * by rewrite lookup_insert_ne.
    + intros k. rewrite Hr. intros [[_ ?]|[_ Hk]]%lookup_insert_Some; [done|by apply (Hnz k)].
    + intros k. unfold live in *. rewrite Hw, Hr. destruct (decide (k = key)) as [->|Hne].
      * rewrite !lookup_insert_eq. split; [by left|done].
      * rewrite !lookup_insert_ne by done. apply Hlive.
    + intros k Hk. rewrite Hr, lookup_insert_ne; [by apply Hpark|]. by intros <-.
    + unfold slots_of. simpl. rewrite Hr. by constructor.
Qed.

Lemma drop_ok key now r gs1 gs2 rs r' :
  drop_guard key now r = Some r' ->
  let w := {| reg := r; guards := gs1 ++ key :: gs2; restored := rs |} in
  world_ok w -> sound w {| reg := r'; guards := gs1 ++ gs2; restored := rs |}.
Proof.
  intros Heq w [Hids Hcount Hnz Hlive Hpark]; simpl in *.
  pose proof (Hcount key) as Hk. rewrite count_middle, decide_True in Hk by done.
  destruct (guard_refs r !! key) as [n|] eqn:En; [|done]. simpl in Hk. subst n.
  destruct (count_guards key (gs1 ++ gs2)) as [|n] eqn:Ec; simpl in En.
  - destruct (drop_last_spec key now r) as (r0 & Heq0 & [Hl Hr _ _ Hi]); [auto|].
    rewrite Heq in Heq0. injection Heq0 as <-. split; [split; simpl; [by rewrite Hi|..]|].
    + intros k. rewrite Hr. destruct (decide (k = key)) as [->|Hne]; [by rewrite lookup_delete_eq, Ec|].
      by rewrite lookup_delete_ne, Hcount, count_middle, decide_False.
    + intros k. rewrite Hr. intros [_ ?]%lookup_delete_Some. by apply (Hnz k).
    + intros k. rewrite Hl, Hr. case_decide as Hk; subst.
      * rewrite lookup_delete_eq. split; [done|]. intros [[? ?]|Hin]; [done|].
        apply Hpark in Hin. congruence.
      * rewrite lookup_delete_ne by done. apply Hlive.
    + intros k Hk. rewrite Hr. apply lookup_delete_None. right. by apply Hpark.
    + unfold slots_of. simpl. rewrite Hr. by constructor.
  - rewrite (drop_shared_spec key now r n En) in Heq. injection Heq as <-.
    split; [split; simpl; [done|..]|].
    + intros k. destruct (decide (k = key)) as [->|Hne]; [by rewrite lookup_insert_eq, Ec|].
      by rewrite lookup_insert_ne, Hcount, count_middle, decide_False.
    + intros k [[_ ?]|[_ Hk]]%lookup_insert_Some; [done|by apply (Hnz k)].
    + intros k. change (live (on_refs <[key:=S n]> r) k) with (live r k). rewrite Hlive.
      destruct (decide (k = key)) as [->|Hne]; [rewrite lookup_insert_eq, En; split; intros [[? ?]|?]; eauto|by rewrite lookup_insert_ne].
    + intros k Hk. rewrite lookup_insert_ne; [by apply Hpark|]. intros <-. apply Hpark in Hk. congruence.
    + by constructor.
Qed.

Lemma install_ok key s r gs rs r' :
  install_restored_worker key s r = (true, r') ->
  let w := {| reg := r; guards := gs; restored := rs |} in
  world_ok w ->
  sound w {| reg := r'; guards := gs; restored := if is_active s then {[key]} ∪ rs else rs |}.
Proof.
  intros Heq w [Hids Hcount Hnz Hlive Hpark]; simpl in *.
  assert (live r key = false /\ r' = on_workers <[key := s]> r) as [Hfree ->].
  { unfold install_restored_worker, live in *. destruct (workers r !! key) as [old|]; [|by simplify_eq/=].
    by destruct (is_active old); simplify_eq/=. }
  assert (En : guard_refs r !! key = None /\ key ∉ rs).
  { split; [apply eq_None_not_Some|]; intros Hk; assert (live r key = true) by (apply Hlive; auto); congruence. }
  destruct En as [En Hrs]. split; [split; simpl; [done|done|done|..]|].
  - intros k. unfold live in *. simpl. destruct (decide (k = key)) as [->|Hne].
    + rewrite lookup_insert_eq, En. destruct (is_active s); [|split; [done|by intros [[? ?]|?]]].
      split; [|done]. intros _. right. by apply elem_of_union_l, elem_of_singleton.
    + rewrite lookup_insert_ne, Hlive by done. destruct (is_active s); [|done].
      rewrite elem_of_union, elem_of_singleton. naive_solver.
  - intros k Hk. destruct (is_active s); [|by apply Hpark].
    apply elem_of_union in Hk as [->%elem_of_singleton|Hk]; [done|by apply Hpark].
  - unfold slots_of. simpl. destruct (is_active s); by constructor.
Qed.

Lemma retire_ok key status now r gs rs seq r' :
  key ∉ gs -> retire_restored_worker key status now r = Some (seq, r') ->
  let w := {| reg := r; guards := gs; restored := rs |} in
  world_ok w -> sound w {| reg := r'; guards := gs; restored := rs ∖ {[key]} |}.
Proof.
  intros Hgs Heq w [Hids Hcount Hnz Hlive Hpark]; simpl in *.
  assert (En : guard_refs r !! key = None).
  { pose proof (Hcount key) as Hk. unfold count_guards in Hk.
    rewrite (proj1 (count_occ_not_In _ _ _)) in Hk by (by rewrite <-list_elem_of_In).
    destruct (guard_refs r !! key) as [n|] eqn:E; [|done]. simpl in Hk. subst. by destruct (Hnz key). }
  destruct (retire_spec key status now r) as (seq0 & r0 & Heq0 & Hl & Hr & Hi).
  rewrite Heq in Heq0. injection Heq0 as <- <-.
  assert (Hrefs : guard_refs r' = guard_refs r).
  { destruct Hr as [Hr|[Hr _]]; [|done]. by rewrite Hr, delete_id. }
  split; [split; simpl; rewrite ?Hrefs, ?Hi; [done|done|done|..]|].
  - intros k. rewrite Hl, elem_of_difference, elem_of_singleton. case_decide as Hk; subst.
    + rewrite En. split; [done|]. intros [[? ?]|[_ ?]]; done.
    + rewrite Hlive. naive_solver.
  - intros k [Hk _]%elem_of_difference. by apply Hpark.
  - unfold slots_of. simpl. rewrite Hrefs. by constructor.
Qed.

(** Operations that leave the live keys and the counts alone. *)
Lemma still_ok r r' gs rs :
  (forall k, live r' k = live r k) -> guard_refs r' = guard_refs r ->
  ((next_worker_id_seq r < 2 ^ 64)%N -> (next_worker_id_seq r' < 2 ^ 64)%N) ->
  let w := {| reg := r; guards := gs; restored := rs |} in
  world_ok w -> sound w {| reg := r'; guards := gs; restored := rs |}.
Proof.
  intros Hl Hr Hi w [Hids Hcount Hnz Hlive Hpark]; simpl in *.
  split; [split; simpl; rewrite ?Hr; auto|].
  - intros k. by rewrite Hl.
  - unfold slots_of. simpl. rewrite Hr. constructor.
Qed.

Lemma world_step_sound w w' : world_step w w' -> world_ok w -> sound w w'.
Proof.
  destruct 1 as [? ? ? ? ? r gs rs key r' Heq Htok|? ? r gs1 gs2 rs r' Heq|key s r gs rs r' _ Heq
    |key status now r gs rs seq r' Hgs Heq|r gs rs n r' Heq|u r gs rs]; intros Hok.
  - by eapply register_ok.
  - by eapply drop_ok.
  - by eapply install_ok.
  - by eapply retire_ok.
  - unfold enforce_completed_ring_cap in Heq.
    destruct (evict_spec r) as (r0 & victims & Heq0 & Hev). rewrite Heq in Heq0. injection Heq0 as -> <-.
    apply still_ok; [|..|done].
    + by eapply eviction_live.
    + by rewrite (ev_state _ _ _ Hev).
    + by rewrite (ev_state _ _ _ Hev).
  - pose proof (update_quiet u r) as [Hl _ Hr Hi]. by apply still_ok.
Qed.

Lemma initial_world_ok ts : world_ok (initial_world ts).
Proof.
  split; simpl.
  - done.
  - intros k. by rewrite lookup_empty.
  - intros k. by rewrite lookup_empty.
  - intros k. unfold live, initial_world. simpl. rewrite !lookup_empty. split; [done|].
    intros [[? ?]|Hin]; [done|]. by apply not_elem_of_empty in Hin.
  - intros k _. by rewrite lookup_empty.
Qed.

Lemma held_iff_guarded w : world_ok w -> forall k, is_Some (guard_refs (reg w) !! k) <-> k ∈ guards w.
Proof.
  intros [_ Hcount Hnz _ _] k. pose proof (Hcount k) as Hk. specialize (Hnz k).
  rewrite list_elem_of_In, (count_occ_In (decide_rel (=))). unfold count_guards in Hk. rewrite <-Hk.
  destruct (guard_refs (reg w) !! k) as [n|]; simpl; split.
  - intros _. destruct n; [done|lia].
  - by eexists.
  - by intros [].
  - lia.
Qed.

Lemma history_sound w w' :
  rtc world_step w w' -> world_ok w -> world_ok w' /\ rtc slot_step (slots_of w) (slots_of w').
Proof.
  induction 1 as [w|w1 w2 w3 Hs _ IH]; intros Hok; [done|].
  destruct (world_step_sound _ _ Hs Hok) as [Hok2 Hslot]. destruct (IH Hok2) as [Hok3 Hrtc].
  split; [done|]. by eapply rtc_l.
Qed.

(** ** Well-formed entries *)

Lemma eviction_typed r r' victims : eviction r r' victims -> table_ok r -> table_ok r'.
Proof.
  intros Hev Hok k s Hk. rewrite (ev_state _ _ _ Hev) in Hk. simpl in Hk.
  rewrite lookup_foldr_delete in Hk. case_decide; [done|]. exact (Hok k s Hk).
Qed.

Lemma flip_typed key now r : table_ok r -> table_ok (flip_completed key now r).
Proof.
  intros Hok. unfold flip_completed. destruct (workers r !! key) as [s|]; [|done].
  destruct (is_active s); [|done]. by apply map_Forall_insert_2.
Qed.

Lemma drop_typed key now r r' : drop_guard key now r = Some r' -> table_ok r -> table_ok r'.
Proof.
  unfold drop_guard. intros Heq Hok. destruct (release_ref key r) as [held r1] eqn:E1.
  assert (table_ok r1) as Hok1.
  { unfold release_ref in E1. destruct (guard_refs r !! key) as [n|]; [destruct (1 <? n)|]; by simplify_eq/=. }
  destruct held; [by simplify_eq/=|].
  destruct (evict_spec (flip_completed key now r1)) as (r2 & victims & He & Hev). rewrite He in Heq.
  simplify_eq/=. change (table_ok r2). eapply eviction_typed; [exact Hev|]. by apply flip_typed.
Qed.

Lemma retire_typed key status now r seq r' :
  retire_restored_worker key status now r = Some (seq, r') -> table_ok r -> table_ok r'.
Proof.
  unfold retire_restored_worker. intros Heq Hok. destruct (workers r !! key) as [s|] eqn:Hs; [|by simplify_eq/=].
  destruct (if is_active s then _ else _) as [q r1] eqn:E1.
  assert (table_ok (on_refs (delete key) r1)) as Hok1.
  { destruct (is_active s); simplify_eq/=; [|done]. by apply map_Forall_insert_2. }
  destruct (evict_spec (on_refs (delete key) r1)) as (r2 & victims & He & Hev). rewrite He in Heq.
  simplify_eq/=. change (table_ok r2). by eapply eviction_typed.
Qed.

Lemma world_step_typed w w' : world_step w w' -> world_ok w -> table_ok (reg w) -> table_ok (reg w').
Proof.
  destruct 1 as [task agent prompt token now r gs rs key r' Heq Htok|? ? r gs1 gs2 rs r' Heq|key s r gs rs r' Hs Heq
    |key status now r gs rs seq r' Hgs Heq|r gs rs n r' Heq|u r gs rs]; intros [Hids _ _ _ _] Hok; simpl in *.
  - destruct (register_spec task agent prompt token now r Hids) as (key0 & r0 & Heq0 & _ & _ & Hcase).
    rewrite Heq in Heq0. injection Heq0 as <- <-. unfold table_ok.
    destruct Hcase as [[s [Hs Ha _ Hw _]]|[_ (tokens & t & Hw & _) _ _ _]]; rewrite Hw;
      apply map_Forall_insert_2; try done. exact (Hok _ _ Hs).
  - by eapply drop_typed.
  - unfold install_restored_worker in Heq.
    destruct (workers r !! key) as [old|]; [destruct (is_active old)|]; simplify_eq/=; by apply map_Forall_insert_2.
  - by eapply retire_typed.
  - destruct (evict_spec r) as (r0 & victims & Heq0 & Hev). unfold enforce_completed_ring_cap in Heq.
    rewrite Heq in Heq0. injection Heq0 as -> <-. by eapply eviction_typed.
  - by apply (qu_typed _ _ (update_quiet u r)).
Qed.

Lemma history_typed w w' :
  rtc world_step w w' -> world_ok w -> table_ok (reg w) -> table_ok (reg w').
Proof.
  induction 1 as [w|w1 w2 w3 Hs _ IH]; intros Hw Hok; [done|].
  apply IH; [by apply (world_step_sound _ _ Hs Hw)|by eapply world_step_typed].
Qed.

(** ** Dropping guards *)

(** Drop the guards of a list, one after the other. *)
Definition drop_all (drops : list (str * Now)) (r : Registry) : option Registry :=
  fold_left (fun acc d => r' ← acc; drop_guard (fst d) (snd d) r') drops (Some r).

(** Dropping every guard in scope, in any order, is a history. *)
Lemma drop_all_history drops r gs rs :
  map fst drops ≡ₚ gs -> world_ok {| reg := r; guards := gs; restored := rs |} ->
  exists r', drop_all drops r = Some r' /\
    rtc world_step {| reg := r; guards := gs; restored := rs |} {| reg := r'; guards := []; restored := rs |}.
Proof.
  revert r gs. induction drops as [|[key now] drops IH]; intros r gs Hp Hok; simpl in Hp.
  - apply Permutation_nil in Hp as ->. by exists r.
  - assert (exists gs1 gs2, gs = gs1 ++ key :: gs2) as (gs1 & gs2 & ->).
    { apply list_elem_of_split. rewrite <-Hp. by left. }
    apply Permutation_cons_app_inv in Hp.
    assert (exists r1, drop_guard key now r = Some r1) as [r1 Hd].
    { destruct (guard_refs r !! key) as [[|[|n]]|] eqn:En;
        [..|by eexists; apply drop_shared_spec| ];
        destruct (drop_last_spec key now r) as (r1 & ? & _); eauto. }
    assert (world_step {| reg := r; guards := gs1 ++ key :: gs2; restored := rs |}
      {| reg := r1; guards := gs1 ++ gs2; restored := rs |}) as Hstep by by econstructor.
    destruct (world_step_sound _ _ Hstep Hok) as [Hok1 _].
    destruct (IH r1 (gs1 ++ gs2) Hp Hok1) as (r' & Hr' & Hrtc). exists r'. split; [|by eapply rtc_l].
    unfold drop_all in *. simpl. by rewrite Hd.
Qed.

End ring.
