(* ===== verification/RegistryProps.v ===== *)
(** * The worker registry: the properties

    Cancellation by address, and the properties of the registry's histories
    with their witnesses. *)

From S2P Require Import Prelude Str Regex TaskId Agents PlanParse Pool Notice NoticeFacts NoticeRouting.
From S2P Require Import Registry RegistryView RegistryFacts.

Section cancel.
Context `{Tokens} `{DashOrder} `{Unicode}.

(** ** Cancelling *)

Definition abort_entry (s : WorkerState) : WorkerState := with_info (with_status (lit "Aborted")) s.

(** The effect of cancelling a list of selected workers. *)
Record aborted (victims : list (str * option Token)) (r r' : Registry) : Prop := {
  ab_workers : forall k, workers r' !! k =
    (fun s => if is_active s && bool_decide (k ∈ map fst victims) then abort_entry s else s) <$> workers r !! k;
  ab_tokens : token_store r' =
    fold_left (fun ts t => token_cancel t ts) (omap snd victims) (token_store r);
  ab_frame : guard_refs r' = guard_refs r /\ pauses r' = pauses r /\ notice_store r' = notice_store r /\
    next_completed_seq r' = next_completed_seq r /\ next_worker_id_seq r' = next_worker_id_seq r
}.

Lemma set_status_lookup key st r k :
  workers (set_active_worker_status key st r) !! k =
  (fun s => if is_active s && bool_decide (k = key) then with_info (with_status st) s else s) <$> workers r !! k.
Proof.
  unfold set_active_worker_status, alter_live. destruct (workers r !! key) as [s|] eqn:Hs.
  - destruct (is_active s) eqn:Ha; simpl; destruct (decide (k = key)) as [->|Hne].
    + by rewrite lookup_insert_eq, Hs; simpl; rewrite Ha, bool_decide_true.
    + rewrite lookup_insert_ne, bool_decide_false by done. destruct (workers r !! k); simpl; [|done].
      by rewrite andb_false_r.
    + by rewrite Hs; simpl; rewrite Ha.
    + rewrite bool_decide_false by done. destruct (workers r !! k); simpl; [|done]. by rewrite andb_false_r.
  - simpl. destruct (decide (k = key)) as [->|Hne]; [by rewrite Hs|].
    rewrite bool_decide_false by done. destruct (workers r !! k); simpl; [|done]. by rewrite andb_false_r.
Qed.

Lemma set_status_frame key st r :
  let r' := set_active_worker_status key st r in
  token_store r' = token_store r /\ guard_refs r' = guard_refs r /\ pauses r' = pauses r /\
  notice_store r' = notice_store r /\ next_completed_seq r' = next_completed_seq r /\
  next_worker_id_seq r' = next_worker_id_seq r.
Proof.
  unfold set_active_worker_status, alter_live.
  by destruct (workers r !! key) as [s|]; [destruct (is_active s)|].
Qed.

Lemma cancel_one_spec r e : aborted [e] r (cancel_one r e).
Proof.
  destruct e as [key tok]. unfold cancel_one. simpl.
  set (r1 := match tok with Some t => on_tokens (token_cancel t) r | None => r end).
  assert (Hr1 : workers r1 = workers r /\ token_store r1 = fold_left (fun ts t => token_cancel t ts) (omap snd [(key, tok)])
    (token_store r) /\ guard_refs r1 = guard_refs r /\ pauses r1 = pauses r /\ notice_store r1 = notice_store r /\
    next_completed_seq r1 = next_completed_seq r /\ next_worker_id_seq r1 = next_worker_id_seq r).
  { unfold r1. by destruct tok. }
  destruct Hr1 as (Hw & Ht & Hg & Hp & Hn & Hc & Hi).
  destruct (set_status_frame key (lit "Aborted") r1) as (Ht' & Hg' & Hp' & Hn' & Hc' & Hi').
  split; [|congruence|split_and!; congruence].
  intros k. rewrite set_status_lookup, Hw. destruct (workers r !! k) as [s|]; simpl; [|done].
  by rewrite (bool_decide_ext (k ∈ [key]) (k = key)) by apply list_elem_of_singleton.
Qed.

Lemma cancel_fold_spec victims r : aborted victims r (fold_left cancel_one victims r).
Proof.
  revert r. induction victims as [|e victims IH]; intros r.
  - split; [|done|done]. intros k. cbn [fold_left map]. destruct (workers r !! k) as [s|]; [|done].
    cbn [fmap option_fmap option_map]. rewrite bool_decide_false by apply not_elem_of_nil.
    by rewrite andb_false_r.
  - simpl. destruct (cancel_one_spec r e) as [Hw Ht (Hf1 & Hf2 & Hf3 & Hf4 & Hf5)].
    destruct (IH (cancel_one r e)) as [Hw' Ht' (Hg1 & Hg2 & Hg3 & Hg4 & Hg5)].
    split; [| |split_and!; congruence].
    + intros k. rewrite Hw', Hw. destruct (workers r !! k) as [s|]; simpl; [|done].
      rewrite (bool_decide_ext (k ∈ fst e :: map fst victims) (k = fst e \/ k ∈ map fst victims)) by apply elem_of_cons.
      rewrite (bool_decide_ext (k ∈ [fst e]) (k = fst e)) by apply list_elem_of_singleton.
      rewrite bool_decide_or. unfold abort_entry.
      destruct (is_active s) eqn:Ha; simpl; [|by rewrite Ha].
      destruct (bool_decide (k = fst e)); simpl; [|by rewrite Ha].
      change (is_active (with_info _ s)) with (is_active s). rewrite Ha. simpl. by case_match.
    + rewrite Ht', Ht. destruct e as [key [t|]]; done.
Qed.

Lemma cancelled_fold ts tok tokens :
  tok ∈ tokens \/ token_cancelled ts tok = true ->
  token_cancelled (fold_left (fun ts t => token_cancel t ts) tokens ts) tok = true.
Proof.
  revert ts. induction tokens as [|t tokens IH]; intros ts Hin; simpl.
  - destruct Hin as [?%not_elem_of_nil|?]; done.
  - apply IH. destruct Hin as [[->|Hin]%elem_of_cons|Hc].
    + right. apply token_cancel_self.
    + by left.
    + right. by apply token_cancel_mono.
Qed.

Lemma elem_of_select p r k tok :
  (k, tok) ∈ select_workers p r <->
  exists s, workers r !! k = Some s /\ is_active s = true /\ p k (ws_info s) = true /\
    wi_cancel_token (ws_info s) = tok.
Proof.
  unfold select_workers. rewrite list_elem_of_fmap. split.
  - intros ([k' s] & [= -> ->] & Hin). apply list_elem_of_In, filter_In in Hin as [Hin Hf].
    apply list_elem_of_In, elem_of_dash in Hin. apply andb_true_iff in Hf as [? ?]. by exists s.
  - intros (s & Hs & Ha & Hp & <-). exists (k, s). split; [done|].
    apply list_elem_of_In, filter_In. split; [by apply list_elem_of_In, elem_of_dash|].
    simpl. by rewrite Ha, Hp.
Qed.

(** What is selected, read off the table. *)
Lemma select_spec p r :
  let r' := fold_left cancel_one (select_workers p r) r in
  (negb (is_empty (select_workers p r)) = true <->
   exists k s, workers r !! k = Some s /\ is_active s = true /\ p k (ws_info s) = true) /\
  (forall k, workers r' !! k =
    (fun s => if is_active s && p k (ws_info s) then abort_entry s else s) <$> workers r !! k) /\
  (forall k s t, workers r !! k = Some s -> is_active s = true -> p k (ws_info s) = true ->
    wi_cancel_token (ws_info s) = Some t -> token_cancelled (token_store r') t = true) /\
  guard_refs r' = guard_refs r /\ pauses r' = pauses r /\ notice_store r' = notice_store r.
Proof.
  intros r'. destruct (cancel_fold_spec (select_workers p r) r) as [Hw Ht (Hg & Hp & Hn & _)].
  split_and!; [| | |done..].
  - split.
    + intros Hne. destruct (select_workers p r) as [|[k tok] l] eqn:E; [done|].
      assert ((k, tok) ∈ select_workers p r) as (s & ? & ? & ? & _)%elem_of_select by (rewrite E; by left). eauto.
    + intros (k & s & Hs & Ha & Hps).
      assert ((k, wi_cancel_token (ws_info s)) ∈ select_workers p r) as Hin by (apply elem_of_select; eauto).
      destruct (select_workers p r); [by apply not_elem_of_nil in Hin|done].
  - intros k. unfold r'. rewrite Hw. destruct (workers r !! k) as [s|] eqn:Hs; simpl; [|done].
    f_equal. destruct (is_active s) eqn:Ha; simpl; [|done].
    replace (bool_decide (k ∈ map fst (select_workers p r))) with (p k (ws_info s)); [done|].
    symmetry. destruct (p k (ws_info s)) eqn:Ep.
    + apply bool_decide_eq_true. apply list_elem_of_fmap. eexists (k, _). split; [done|].
      apply elem_of_select. eauto.
    + apply bool_decide_eq_false. intros ([k' tok] & -> & Hin)%list_elem_of_fmap.
      apply elem_of_select in Hin as (s' & Hs' & _ & Hps' & _). simpl in *. congruence.
  - intros k s t Hs Ha Hps Htk. unfold r'. rewrite Ht. apply cancelled_fold. left.
    apply list_elem_of_omap. exists (k, Some t). split; [|done]. apply elem_of_select. eauto.
Qed.

(** ** Addressing a worker by its task *)

(** A task token reaches a registered worker through its task alone. *)
Lemma routes_task a t h t1 :
  agent_ok a -> is_task_id_token t = true -> handle_ok h -> is_task_id_token t1 = true ->
  routes (worker_routing_identity (registry_key a t h)) t1 = eq_ignore_ascii_case t1 t.
Proof.
  intros Ha Ht Hh Ht1. rewrite registry_identity by done. unfold routes.
  cbn [effective_key natural_key agent_name identity_task].
  rewrite normalize_plain by (eapply Forall_impl; [by apply task_token_chars|by left]).
  pose proof (task_token_lower _ Ht1) as Hl1. pose proof (task_token_lower _ Ht) as Hl.
  pose proof (agent_ok_lower _ Ha) as Hla. unfold eq_ignore_ascii_case.
  set (T := to_ascii_lowercase t1) in *. set (la := to_ascii_lowercase a) in *.
  assert (is_empty T = false /\ existsb (str_eqb T) BROADCAST_TARGETS = false) as [-> ->].
  { apply task_token_inv in Hl1 as (x & z & rest & -> & _). split; [done|].
    apply not_broadcast. apply elem_of_cons. right. by left. }
  assert (Hkey : forall h', str_eqb T (to_ascii_lowercase (registry_key a t h')) = false).
  { intros h'. destruct (str_eqb _ _) eqn:E; [|done]. apply str_eqb_eq in E. exfalso.
    rewrite E, registry_key_lower in Hl1. unfold registry_key in Hl1. fold la in Hl1. cbn [app] in Hl1.
    rewrite no_task_start_app in Hl1; [done|apply Hla]. }
  rewrite !Hkey. cbn [orb].
  assert (str_eqb T la || starts_with (T ++ [WORKER_KEY_SEGMENT]) la = false) as ->.
  { destruct (str_eqb T la || _) eqn:E; [|done]. exfalso.
    assert (exists r, la = T ++ r) as [r Hr].
    { apply orb_true_iff in E as [<-%str_eqb_eq|(r & ->)%starts_with_true];
        [exists []; by rewrite app_nil_r|]. exists ([WORKER_KEY_SEGMENT] ++ r). by rewrite <-app_assoc. }
    pose proof (agent_start _ Hla) as Hs. by rewrite Hr, task_token_start in Hs. }
  unfold task_id_eq, eq_ignore_ascii_case.
  assert (Hplain : forall u, is_task_id_token u = true -> normalize_task_id_ref u = u).
  { intros u Hu. apply normalize_plain. eapply Forall_impl; [by apply task_token_chars|]. by left. }
  rewrite !Hplain by done. unfold T. rewrite !to_ascii_lowercase_idemp. fold T.
  destruct (str_eqb T (to_ascii_lowercase t)) eqn:E.
  - apply str_eqb_eq in E as <-. rewrite str_eqb_refl, andb_true_r.
    apply task_token_inv in Hl1 as (x & z & rest & -> & _). done.
  - destruct (str_eqb (to_ascii_lowercase t) T) eqn:E2; [|by rewrite andb_false_r].
    apply str_eqb_eq in E2. by rewrite E2, str_eqb_refl in E.
Qed.

End cancel.

Section properties.
Context `{Tokens} `{DashOrder} `{Uuids} `{Unicode}.

(** The identity of a registered worker is that of its key. *)
Lemma worker_identity_registered i a t h :
  agent_ok a -> is_task_id_token t = true -> handle_ok h -> wi_agent_name i = a -> wi_task_id i = Some t ->
  worker_identity (registry_key a t h) i = worker_routing_identity (registry_key a t h).
Proof.
  intros Ha Ht Hh Hn Hk. unfold worker_identity. rewrite Hn, Hk, registry_identity by done.
  cbn [effective_key natural_key agent_name identity_task].
  rewrite normalize_plain by (eapply Forall_impl; [by apply task_token_chars|by left]).
  rewrite trim_plain by (eapply Forall_impl; [apply (agent_bytes _ Ha)|]; intros c Hc; by apply id_char_i_plain, id_byte_char_i).
  destruct a as [|x a]; [by destruct (agent_nonempty _ Ha)|]. simpl is_empty. cbv iota.
  pose proof (task_token_lower _ Ht) as (x' & z & rest & -> & _)%task_token_inv. done.
Qed.

Lemma worker_matches_task i a t h t1 :
  agent_ok a -> is_task_id_token t = true -> handle_ok h -> wi_agent_name i = a -> wi_task_id i = Some t ->
  is_task_id_token t1 = true ->
  worker_matches i (registry_key a t h) None (Some t1) = eq_ignore_ascii_case t1 t.
Proof.
  intros Ha Ht Hh Hn Hk Ht1. unfold worker_matches. rewrite (worker_identity_registered i a t h) by done. simpl default.
  rewrite (normalize_plain t1) by (eapply Forall_impl; [by apply task_token_chars|by left]).
  pose proof (task_token_lower _ Ht1) as Hl1. rewrite (routes_task a t h (to_ascii_lowercase t1)) by done.
  unfold eq_ignore_ascii_case. rewrite to_ascii_lowercase_idemp.
  apply task_token_inv in Hl1 as (x & z & rest & -> & _). done.
Qed.

(** C3: The registry implements a table of slots.  In every history of
    registrations, guard drops, restored installs, retirements, evictions,
    progress updates, queue reports, cancellations and pauses, the reference
    counts and the restored keys move by steps of the slot table (a key opens
    only when it is free, is joined by a second guard, and closes with its
    last); the count of a key is the number of its guards in scope, and an
    entry is live exactly while a guard holds it or a restore parked it. *)
Theorem registry_refines_slots ts w :
  rtc world_step (initial_world ts) w ->
  rtc slot_step {| held := ∅; parked := ∅ |} (slots_of w) /\
  (forall k, default 0 (guard_refs (reg w) !! k) = count_guards k (guards w)) /\
  (forall k, live (reg w) k = true <-> k ∈ guards w \/ k ∈ restored w).
Proof.
  intros Hw. destruct (history_sound _ _ Hw (initial_world_ok ts)) as [Hok Hslots].
  split_and!; [done|apply Hok|]. intros k. rewrite (wo_live _ Hok k).
  by rewrite (held_iff_guarded _ Hok).
Qed.

(** Every entry of the registry is well formed in every history: the
    completion sequence and both completion clocks are present together, a
    completed entry carries no queue rank, and hence an entry is completed
    exactly when the completed-worker view of it exists. *)
Theorem registry_entries_typed ts w k s :
  rtc world_step (initial_world ts) w -> workers (reg w) !! k = Some s ->
  state_ok s /\ (is_active s = false <-> is_Some (completed_info s)) /\
  (is_active s = false -> queue_position s = None).
Proof.
  intros Hw Hk. assert (Hs : state_ok s).
  { eapply (history_typed _ _ Hw); [apply initial_world_ok| |exact Hk]. apply map_Forall_empty. }
  split; [done|]. unfold state_ok, is_active, completed_info in *.
  destruct (completed_seq s), (completed_at s), (completed_wall s); try done; split; try done;
    split; try done; by intros [].
Qed.

(** Registering always succeeds and never disturbs another worker.  Either
    the caller's own delegation (same agent, task and token) is already live
    and the call joins its entry, one more guard on the same key; or a key that
    no live worker holds gets a fresh entry with one guard, the natural key
    whenever that one is free.  Every other entry is left as it is. *)
Theorem registration_exclusive task agent prompt token now r :
  (next_worker_id_seq r < 2 ^ 64)%N ->
  exists key r', register_active_worker_with_token task agent prompt token now r = Some (key, r') /\
    ((exists s, attached agent prompt (clean_task task) token r key r' s) \/
     opened agent prompt (clean_task task) token now r key r') /\
    live r' key = true /\
    (forall k, k <> key -> workers r' !! k = workers r !! k /\ guard_refs r' !! k = guard_refs r !! k).
Proof.
  intros Hid. destruct (register_spec task agent prompt token now r Hid) as (key & r' & Heq & _ & _ & Hcase).
  exists key, r'. split; [done|]. split; [done|]. unfold live.
  destruct Hcase as [[s [Hs Ha _ -> ->]]|[_ (tokens & t & -> & _) -> _ _]];
    rewrite lookup_insert_eq; (split; [done|]); intros k Hne; unfold attach_guard; by rewrite !lookup_insert_ne.
Qed.

(** Dropping the last guard of a worker completes it and bounds the table.
    It always returns; the worker is no longer live, every other live entry is
    untouched and nothing is added; at most ten completed entries stay, none
    of them older than an evicted one; and the worker's inbox is reclaimed. *)
Theorem last_drop_completes key now r :
  guard_refs r !! key = Some 1 ->
  exists r', drop_guard key now r = Some r' /\
    live r' key = false /\ guard_refs r' = delete key (guard_refs r) /\
    (forall k s, k <> key -> workers r !! k = Some s -> is_active s = true -> workers r' !! k = Some s) /\
    (forall k s, k <> key -> workers r' !! k = Some s -> workers r !! k = Some s) /\
    size (completed_of (workers r')) <= MAX_RECENT_COMPLETED /\
    (forall k q k' q', workers r' !! k = None -> completed_of (workers (flip_completed key now r)) !! k = Some q ->
       completed_of (workers r') !! k' = Some q' -> (q <= q')%N) /\
    notice_store r' = snd (reclaim_worker_inbox key (notice_store r)).
Proof.
  intros Hn. destruct (drop_last_spec key now r) as (r' & Heq & [Hl Hr (victims & [Hst Hc Hb _ Hold]) Hns _]); [auto|].
  exists r'. apply (f_equal workers) in Hst. simpl in *.
  assert (Hother : forall k, k <> key -> workers (flip_completed key now r) !! k = workers r !! k).
  { intros k Hk. unfold flip_completed. destruct (workers r !! key) as [s|]; [|done].
    destruct (is_active s); [|done]. simpl. by rewrite lookup_insert_ne. }
  split_and!; [done|by rewrite Hl, decide_True|done| | |done| |done].
  - intros k s Hk Hs Ha. rewrite Hst, lookup_foldr_delete, Hother by done. case_decide as Hv; [|done].
    destruct (Hc k Hv) as [q Hq]. unfold completed_of in Hq. rewrite lookup_omap, Hother, Hs in Hq by done.
    unfold is_active in Ha. simpl in Hq. by rewrite Hq in Ha.
  - intros k s Hk. rewrite Hst, lookup_foldr_delete, Hother by done. by case_decide.
  - intros k q k' q' Hnone Hq Hq'. apply (Hold k q k' q'); [|done|done].
    rewrite Hst, lookup_foldr_delete in Hnone. case_decide; [done|].
    unfold completed_of in Hq. by rewrite lookup_omap, Hnone in Hq.
Qed.

(** A run that ends leaves nothing behind.  From every reachable state,
    dropping the guards in scope, in whatever order and at whatever times,
    returns; afterwards no key is held, the live entries are exactly the
    restored ones, and without those no worker is reported active. *)
Theorem all_guards_dropped ts w drops :
  rtc world_step (initial_world ts) w -> map fst drops ≡ₚ guards w ->
  exists r', drop_all drops (reg w) = Some r' /\ guard_refs r' = ∅ /\
    (forall k, live r' k = true <-> k ∈ restored w) /\
    (restored w = ∅ -> has_active_workers r' = false).
Proof.
  intros Hw Hp. destruct (history_sound _ _ Hw (initial_world_ok ts)) as [Hok _]. destruct w as [r gs rs].
  destruct (drop_all_history drops r gs rs Hp Hok) as (r' & Hr' & Hrtc).
  destruct (history_sound _ _ Hrtc Hok) as [Hok' _]. pose proof (held_iff_guarded _ Hok') as Hheld.
  pose proof (wo_live _ Hok') as Hlive. simpl in *.
  assert (Hl : forall k, live r' k = true <-> k ∈ rs).
  { intros k. rewrite Hlive, Hheld. split; [|auto]. intros [?%not_elem_of_nil|]; done. }
  exists r'. split_and!; [done| |done|].
  - apply map_empty. intros k. apply eq_None_not_Some. rewrite Hheld. apply not_elem_of_nil.
  - intros ->. apply not_true_is_false. intros Ha. unfold has_active_workers in Ha.
    apply existsb_exists in Ha as ([k s] & Hin & Has). apply list_elem_of_In, elem_of_dash in Hin.
    apply (not_elem_of_empty (C := gset str) k), Hl. unfold live. by rewrite Hin.
Qed.

(** Cancelling by address hits exactly the addressed workers.  The answer
    says whether a live worker matches; the matching live entries get the
    status [Aborted] and stay live until their guards drop, every other entry,
    the guards, the pauses and the notices are untouched, and the token of
    every match is cancelled. *)
Theorem cancel_active_worker_spec agent task r :
  let hit k s := is_active s && worker_matches (ws_info s) k agent task in
  let '(found, r') := cancel_active_worker agent task r in
  (found = true <-> exists k s, workers r !! k = Some s /\ hit k s = true) /\
  (forall k, workers r' !! k = (fun s => if hit k s then abort_entry s else s) <$> workers r !! k) /\
  (forall k s t, workers r !! k = Some s -> hit k s = true -> wi_cancel_token (ws_info s) = Some t ->
     token_cancelled (token_store r') t = true) /\
  guard_refs r' = guard_refs r /\ pauses r' = pauses r /\ notice_store r' = notice_store r.
Proof.
  unfold cancel_active_worker.
  destruct (select_spec (fun k i => worker_matches i k agent task) r) as (Hf & Hw & Ht & Hr). cbv zeta in *.
  split_and!; [|done| |apply Hr..].
  - rewrite Hf. split; intros (k & s & Hs & Hk); exists k, s; [by destruct Hk as [-> ->]|].
    by apply andb_true_iff in Hk as [? ?].
  - intros k s t Hs [Ha Hm]%andb_true_iff. by apply (Ht k s t).
Qed.

(** Cancelling a task cancels the workers of that task only.  When a live
    entry is registered under its key for an agent and a task of the program,
    an abort of task [t1] labels it exactly when [t1] is its task up to ASCII
    case: [t-1] never aborts the worker of [t-10], nor one whose agent or key
    merely contains it. *)
Theorem cancel_task_exact r k s a t h t1 :
  agent_ok a -> is_task_id_token t = true -> handle_ok h -> is_task_id_token t1 = true ->
  k = registry_key a t h -> workers r !! k = Some s -> is_active s = true ->
  wi_agent_name (ws_info s) = a -> wi_task_id (ws_info s) = Some t ->
  workers (snd (cancel_active_worker None (Some t1) r)) !! k =
    Some (if eq_ignore_ascii_case t1 t then abort_entry s else s).
Proof.
  intros Ha Ht Hh Ht1 -> Hs Hact Hn Hk. unfold cancel_active_worker. simpl snd.
  destruct (select_spec (fun k i => worker_matches i k None (Some t1)) r) as (_ & Hw & _). cbv zeta in Hw.
  rewrite Hw, Hs. simpl. by rewrite Hact, (worker_matches_task _ a t h t1).
Qed.

(** A queue report labels at most one live worker.  The answer is whether
    an entry was written; nothing else changes, and the entry written is live
    and is the reporter's natural key or, when that is not live, the only live
    key that extends it by a collision suffix. *)
Theorem queue_report_exclusive agent task p r :
  let '(found, r') := set_worker_queue_position agent task p r in
  if found then
    exists clean key s, clean_task task = Some clean /\ workers r !! key = Some s /\ is_active s = true /\
      workers r' = <[key := with_queue p s]> (workers r) /\
      let base := agent ++ lit "-" ++ clean in
      (key = base \/
       live r base = false /\ starts_with (base ++ [WORKER_KEY_DISAMBIGUATOR]) key = true /\
       forall k, live r k = true -> starts_with (base ++ [WORKER_KEY_DISAMBIGUATOR]) k = true -> k = key)
  else r' = r.
Proof.
  unfold set_worker_queue_position. fold (clean_task task).
  destruct (clean_task task) as [clean|]; [|done]. set (base := agent ++ lit "-" ++ clean).
  destruct (live r base) eqn:Hb.
  { unfold set_active_worker_queue_position, alter_live, live in *.
    destruct (workers r !! base) as [s|] eqn:Hs; [|done]. rewrite Hb.
    exists clean, base, s. by split_and!; auto. }
  set (pred := fun e : str * WorkerState => is_active (snd e) && starts_with _ (fst e)).
  assert (Hin : forall k s, (k, s) ∈ List.filter pred (dash_iter (workers r)) <->
    workers r !! k = Some s /\ is_active s = true /\ starts_with (base ++ [WORKER_KEY_DISAMBIGUATOR]) k = true).
  { intros k s. rewrite list_elem_of_In, filter_In, <-list_elem_of_In, elem_of_dash. unfold pred. simpl.
    by rewrite andb_true_iff. }
  destruct (List.filter pred (dash_iter (workers r))) as [|[key s] [|? ?]]; [done| |done]. cbn [map fst].
  destruct (proj1 (Hin key s)) as (Hs & Ha & Hp); [by left|].
  unfold set_active_worker_queue_position, alter_live. rewrite Hs, Ha.
  exists clean, key, s. split_and!; [done..|]. right. split_and!; [done|done|].
  intros k Hk Hpk. unfold live in Hk. destruct (workers r !! k) as [s'|] eqn:Hs'; [|done].
  assert ((k, s') ∈ [(key, s)]) as [= -> _]%list_elem_of_singleton by by apply Hin. done.
Qed.

End properties.

(** ** Two teardowns that differ *)

Section teardown.
Context `{Tokens} `{DashOrder} `{Unicode}.

(** A guard drop withdraws the worker's pause request; the retirement of a
    restored worker does not, although its doc promises the same teardown. *)
Lemma retirement_keeps_pause key status now r s :
  workers r !! key = Some s -> is_active s = true -> guard_refs r !! key = None ->
  (exists r', drop_guard key now r = Some r' /\ is_paused key r' = false) /\
  (exists seq r', retire_restored_worker key status now r = Some (seq, r') /\
     live r' key = false /\ is_paused key r' = is_paused key r).
Proof.
  intros Hs Ha Hn. unfold drop_guard, release_ref, retire_restored_worker, flip_completed. rewrite Hn, Hs, Ha. split.
  - destruct (evict_spec (pause_clear key (on_workers <[key:=complete_state (next_completed_seq r) now s]>
      (set_completed_seq (fetch_add (next_completed_seq r) 1) r)))) as (r2 & victims & He & Hev).
    rewrite He. eexists. split; [done|]. unfold is_paused. simpl.
    rewrite (ev_state _ _ _ Hev). simpl. by rewrite lookup_delete_eq.
  - set (r1 := on_refs (delete key) (on_workers _ _)).
    destruct (evict_spec r1) as (r2 & victims & He & Hev). rewrite He. eexists _, _. split; [done|].
    split; [|unfold is_paused; simpl; by rewrite (ev_state _ _ _ Hev)].
    change (live r2 key = false). rewrite (eviction_live _ _ _ Hev). unfold live, r1. simpl.
    by rewrite lookup_insert_eq.
Qed.

(** A guard of a key without a reference count completes whatever live entry
    holds the key, such as one put back by a restore. *)
Lemma stale_guard_completes key now r :
  guard_refs r !! key = None -> live r key = true ->
  exists r', drop_guard key now r = Some r' /\ live r' key = false.
Proof.
  intros Hn _. destruct (drop_last_spec key now r) as (r' & Heq & Hd); [auto|]. exists r'.
  split; [done|]. by rewrite (dr_live _ _ _ _ Hd), decide_True.
Qed.

End teardown.

(** ** Witnesses *)

(** Tokens numbered in the order they are minted, and the set of those cancelled. *)
Lemma counted_cancel_self (t : nat) (ts : gset nat * nat) : bool_decide (t ∈ {[t]} ∪ fst ts) = true.
Proof. apply bool_decide_eq_true. set_solver. Qed.

Lemma counted_cancel_mono (t u : nat) (ts : gset nat * nat) :
  bool_decide (u ∈ fst ts) = true -> bool_decide (u ∈ {[t]} ∪ fst ts) = true.
Proof. rewrite !bool_decide_eq_true. set_solver. Qed.

#[local] Instance counted_tokens : Tokens := {|
  Token := nat; token_eq_dec := _; TokenStore := gset nat * nat;
  token_cancelled ts t := bool_decide (t ∈ fst ts);
  token_cancel t ts := ({[t]} ∪ fst ts, snd ts);
  child_token ts := (snd ts, (fst ts, S (snd ts)));
  token_cancel_self := counted_cancel_self; token_cancel_mono := counted_cancel_mono
|}.

Lemma decimal_inj : Inj (=) (=) (fun n : N => lit (pretty.pretty n)).
Proof. intros a b. apply dec_inj. Qed.

#[local] Instance numbered_uuids : Uuids :=
  {| uuid_v4 n := lit (pretty.pretty n); uuid_v4_inj := decimal_inj |}.

#[local] Existing Instance gmap_order.
#[local] Existing Instance ascii_tables.

Definition noon : Now := {| instant := 5; wall := 7 |}.
Definition no_tokens : TokenStore (Tokens := counted_tokens) := (∅, 0).

(** A worker put back by a restore. *)
Definition parked_state : WorkerState :=
  new_worker_state (Some (lit "t-9")) (lit "debugger") (lit "fix") (Some 77) noon 12 4.

(** Operations on a whole world. *)
Definition registering (task agent prompt : str) (token : option Token) (w : World) : World :=
  match register_active_worker_with_token (Some task) agent prompt token noon (reg w) with
  | Some (key, r') => {| reg := r'; guards := key :: guards w; restored := restored w |}
  | None => w
  end.
Definition installing (key : str) (s : WorkerState) (w : World) : World :=
  match install_restored_worker key s (reg w) with
  | (true, r') => {| reg := r'; guards := guards w; restored := if is_active s then {[key]} ∪ restored w else restored w |}
  | (false, _) => w
  end.

Lemma registering_reached task agent prompt token w w' :
  rtc world_step w w' -> restored w' = ∅ ->
  rtc world_step w (registering task agent prompt token w') /\
  restored (registering task agent prompt token w') = ∅.
Proof.
  intros Hw Hr. unfold registering.
  destruct (register_active_worker_with_token _ _ _ _ _ _) as [[key r']|] eqn:E; [|done].
  destruct w' as [r gs rs]. simpl in *. split; [|done]. eapply rtc_r; [exact Hw|]. eapply w_register; [exact E|].
  intros k s Hk. rewrite Hr in Hk. by apply not_elem_of_empty in Hk.
Qed.

(** A worker registered twice under one token, and a restored one. *)
Definition busy_world : World :=
  let step := registering (lit "t-1") (lit "coder") (lit "go") in
  installing (lit "debugger-t-9") parked_state (step (Some 0) (step None (initial_world no_tokens))).

Lemma busy_world_reached : rtc world_step (initial_world no_tokens) busy_world.
Proof.
  unfold busy_world. set (w1 := registering _ _ _ None _).
  destruct (registering_reached (lit "t-1") (lit "coder") (lit "go") None _ _ (rtc_refl _ (initial_world no_tokens))
    eq_refl) as [H1 E1]. fold w1 in H1, E1.
  destruct (registering_reached (lit "t-1") (lit "coder") (lit "go") (Some 0) _ _ H1 E1) as [H2 _].
  set (w2 := registering _ _ _ (Some 0) w1) in *. etrans; [exact H2|]. unfold installing.
  destruct (install_restored_worker _ _ (reg w2)) as [[] r'] eqn:E; [|done].
  destruct w2 as [r gs rs]. apply rtc_once. by eapply w_install.
Qed.

Lemma registry_refines_slots_witness :
  rtc slot_step {| held := ∅; parked := ∅ |} (slots_of busy_world) /\
  (forall k, default 0 (guard_refs (reg busy_world) !! k) = count_guards k (guards busy_world)) /\
  (forall k, live (reg busy_world) k = true <-> k ∈ guards busy_world \/ k ∈ restored busy_world).
Proof. apply (registry_refines_slots no_tokens). apply busy_world_reached. Defined.

Lemma registry_entries_typed_witness :
  state_ok parked_state /\ (is_active parked_state = false <-> is_Some (completed_info parked_state)) /\
  (is_active parked_state = false -> queue_position parked_state = None).
Proof.
  apply (registry_entries_typed no_tokens busy_world (lit "debugger-t-9")).
  - apply busy_world_reached.
  - vm_compute. reflexivity.
Defined.

Lemma registration_exclusive_witness :
  exists key r', register_active_worker_with_token (Some (lit "t-1")) (lit "coder") (lit "go") None noon
      (initial_registry no_tokens) = Some (key, r') /\ live r' key = true.
Proof.
  destruct (registration_exclusive (Some (lit "t-1")) (lit "coder") (lit "go") None noon
    (initial_registry no_tokens)) as (key & r' & Heq & _ & Hl & _).
  - reflexivity.
  - exists key, r'. split; [exact Heq|exact Hl].
Defined.

(** The busy world after one of the two guards is gone. *)
Definition one_guard_left : Registry := default (reg busy_world) (drop_guard (lit "coder-t-1") noon (reg busy_world)).

Lemma last_drop_completes_witness :
  exists r', drop_guard (lit "coder-t-1") noon one_guard_left = Some r' /\ live r' (lit "coder-t-1") = false.
Proof.
  destruct (last_drop_completes (lit "coder-t-1") noon one_guard_left) as (r' & Heq & Hl & _).
  - vm_compute. reflexivity.
  - exists r'. split; [exact Heq|exact Hl].
Defined.

Lemma all_guards_dropped_witness :
  exists r', drop_all [(lit "coder-t-1", noon); (lit "coder-t-1", noon)] (reg busy_world) = Some r' /\
    live r' (lit "debugger-t-9") = true.
Proof.
  destruct (all_guards_dropped no_tokens busy_world [(lit "coder-t-1", noon); (lit "coder-t-1", noon)])
    as (r' & Heq & _ & Hl & _).
  - apply busy_world_reached.
  - reflexivity.
  - exists r'. split; [exact Heq|]. apply Hl. vm_compute. reflexivity.
Defined.

Lemma cancel_task_exact_witness :
  let s := parked_state in
  workers (snd (cancel_active_worker None (Some (lit "T-9")) (reg busy_world))) !! lit "debugger-t-9" =
    Some (if eq_ignore_ascii_case (lit "T-9") (lit "t-9") then abort_entry s else s).
Proof.
  apply (cancel_task_exact (reg busy_world) (lit "debugger-t-9") parked_state (lit "debugger") (lit "t-9") None).
  - split; [done|repeat constructor|vm_compute; reflexivity|vm_compute; reflexivity].
  - vm_compute. reflexivity.
  - exact I.
  - vm_compute. reflexivity.
  - vm_compute. reflexivity.
  - vm_compute. reflexivity.
  - reflexivity.
  - reflexivity.
  - reflexivity.
Defined.
