(* ===== verification/Preemption.v ===== *)
(** * Preemption of model streams ([src/orchestrator/preemption.rs])

    An arbitrator borrows the model slot of the streams that conflict with its
    own: it signals them, collects the acknowledgements under one deadline, and
    later tells every paused stream to resume or to abort.  The channels are
    modelled by their ends: a one-shot channel holds what was sent and whether
    each end is still alive.  The steps of streams and of the coordinator
    interleave freely, the registry changes under them, and a deadline may fall
    anywhere.  The identifiers of streams are not wrapped at 64 bits. *)

From S2P Require Import Prelude Str TaskId Steer Pool Notice Registry RegistryView.
Local Open Scope nat_scope.

(** Iteration over a [HashMap]: some order of its entries. *)
Class StreamOrder := {
  stream_iter : forall {A}, gmap N A -> list (N * A);
  stream_iter_perm : forall A (m : gmap N A), stream_iter m ≡ₚ map_to_list m
}.

(** ** Channels *)

Inductive PauseAction := Resume | Abort.
(** A one-shot channel; the message of an acknowledgement is the sending end
    of the stream's action channel. *)
Record Oneshot (A : Type) := { sent : option A; tx : bool; rx : bool }.
Arguments sent {A} _.
Arguments tx {A} _.
Arguments rx {A} _.
Definition open_channel {A} : Oneshot A := {| sent := None; tx := true; rx := true |}.
(** [send]: refused when the receiver is gone; the sender is used up. *)
Definition send {A} (v : A) (c : Oneshot A) : bool * Oneshot A :=
  (rx c, {| sent := if rx c then Some v else sent c; tx := false; rx := rx c |}).
Definition drop_tx {A} (c : Oneshot A) : Oneshot A := {| sent := sent c; tx := false; rx := rx c |}.
(** Dropping the receiver drops what was not received. *)
Definition drop_rx {A} (c : Oneshot A) : Oneshot A := {| sent := None; tx := tx c; rx := false |}.

Section preemption.
Context `{Tokens} `{DashOrder} `{Unicode} `{StreamOrder}.

(** ** Identities *)

Record StreamIdentity := {
  agent_tag : str;
  si_agent_name : option str;
  si_task_id : option str;
  cancel_token : option Token
}.
#[export] Instance StreamIdentity_eq_dec : EqDecision StreamIdentity.
Proof. solve_decision. Defined.

Definition routing_identity (i : StreamIdentity) : WorkerRoutingIdentity :=
  let w := worker_routing_identity (agent_tag i) in
  let name := match si_agent_name i with
              | Some n => let n := trim n in if is_empty n then agent_name w else to_ascii_lowercase n
              | None => agent_name w
              end in
  let task := match si_task_id i with
              | Some raw => let clean := to_ascii_lowercase (normalize_task_id_ref raw) in
                            if is_empty clean then None else Some clean
              | None => None
              end in
  {| effective_key := effective_key w; natural_key := natural_key w; agent_name := name;
     identity_task := or_else task (identity_task w) |}.

Definition matches (i : StreamIdentity) (target_agent : option str) (target_tool_call_id : str) : bool :=
  let w := routing_identity i in
  let clean_tid := to_ascii_lowercase (normalize_task_id_ref target_tool_call_id) in
  let clean_agent := to_ascii_lowercase (normalize_task_id_ref (default [] target_agent)) in
  if is_empty clean_tid && is_empty clean_agent then false
  else negb (is_empty clean_tid) && routes w clean_tid || negb (is_empty clean_agent) && routes w clean_agent.

Definition models_conflict (m1 m2 : str) : bool :=
  let m1 := trim m1 in
  let m2 := trim m2 in
  if is_empty m1 || is_empty m2 then true else eq_ignore_ascii_case m1 m2.

(** The decision's subtasks that order a cancellation. *)
Definition cancel_subtasks_of (d : option SteerDecision) : list SteerSubtaskDecision :=
  match d with
  | Some d => List.filter (fun st => bool_decide (action_of st = Cancel)) (subtasks d)
  | None => []
  end.
Definition cancels_subtask (i : StreamIdentity) (cancels : list SteerSubtaskDecision) : bool :=
  existsb (fun st => matches i (st_agent_name st) (tool_call_id st)) cancels.

(** ** Streams *)

Record PauseSignal := { user_input : str; yielded_tx : N }.
Inductive StreamControl := Continue | Pause (user_input : str).
Inductive SinkState :=
  | Streaming
  | ManualPause (key : str)     (* [manual_pause_key] is set *)
  | ManualWait (key : str)      (* inside [worker_pause::wait] *)
  | Pausing (s : PauseSignal)   (* [pending_signal] is set *)
  | PausedOn (action_rx : N)
  | Aborted.
Record Sink := {
  identity : StreamIdentity;
  sink_model : str;
  pause_rx : list PauseSignal;
  state : SinkState
}.
Definition set_state (st : SinkState) (s : Sink) : Sink :=
  {| identity := identity s; sink_model := sink_model s; pause_rx := pause_rx s; state := st |}.
Definition set_queue (q : list PauseSignal) (s : Sink) : Sink :=
  {| identity := identity s; sink_model := sink_model s; pause_rx := q; state := state s |}.

(** The identity a stream is registered with: what is missing is read off the tag. *)
Definition inferred_identity (tag : str) (name task : option str) (token : option Token) : StreamIdentity :=
  {| agent_tag := tag;
     si_agent_name := match name with
                      | Some n => Some n
                      | None => match find_split [ch "-"] tag with Some (a, _) => Some a | None => Some tag end
                      end;
     si_task_id := match task with
                   | Some t => Some t
                   | None => snd <$> rfind_split (ch "-") tag
                   end;
     cancel_token := token |}.

(** What an arbitration holds while it decides. *)
Inductive PreemptHandle :=
  | NoHandle
  | Active (l : list (StreamIdentity * N))
  | Running (l : list StreamIdentity)
  | Combined (active : list (StreamIdentity * N)) (running : list StreamIdentity).
Inductive Coordinator :=
  | Idle
  | Signalling (todo : list (N * StreamIdentity)) (waiters : list (StreamIdentity * N)) (user_msg : str)
  | Collecting (waiters active : list (StreamIdentity * N))
  | Holding (h : PreemptHandle).

Record World := {
  streams : gmap N Sink;             (* ACTIVE_STREAMS and the sinks *)
  next_stream : N;                   (* NEXT_STREAM_ID *)
  acks : gmap N (Oneshot N);
  actions : gmap N (Oneshot PauseAction);
  next_channel : N;
  coordinator : Coordinator;
  registry : Registry;               (* the workers, their tokens and their pauses *)
  transitions : list (str * bool)    (* SubagentStreamPause events *)
}.
Definition with_streams f (w : World) : World :=
  {| streams := f (streams w); next_stream := next_stream w; acks := acks w; actions := actions w; next_channel := next_channel w;
     coordinator := coordinator w; registry := registry w; transitions := transitions w |}.
Definition with_acks f (w : World) : World :=
  {| streams := streams w; next_stream := next_stream w; acks := f (acks w); actions := actions w; next_channel := next_channel w;
     coordinator := coordinator w; registry := registry w; transitions := transitions w |}.
Definition with_actions f (w : World) : World :=
  {| streams := streams w; next_stream := next_stream w; acks := acks w; actions := f (actions w); next_channel := next_channel w;
     coordinator := coordinator w; registry := registry w; transitions := transitions w |}.
Definition with_coordinator c (w : World) : World :=
  {| streams := streams w; next_stream := next_stream w; acks := acks w; actions := actions w; next_channel := next_channel w;
     coordinator := c; registry := registry w; transitions := transitions w |}.
Definition with_registry f (w : World) : World :=
  {| streams := streams w; next_stream := next_stream w; acks := acks w; actions := actions w; next_channel := next_channel w;
     coordinator := coordinator w; registry := f (registry w); transitions := transitions w |}.
Definition fresh_channel  (w : World) : World :=
  {| streams := streams w; next_stream := next_stream w; acks := acks w; actions := actions w; next_channel := (next_channel w + 1)%N;
     coordinator := coordinator w; registry := registry w; transitions := transitions w |}.
(** [SubagentStreamPause] *)
Definition emit_transition (tag : str) (paused : bool) (w : World) : World :=
  {| streams := streams w; next_stream := next_stream w; acks := acks w; actions := actions w; next_channel := next_channel w;
     coordinator := coordinator w; registry := registry w; transitions := transitions w ++ [(tag, paused)] |}.
Definition emit_pause_transition (i : StreamIdentity) : bool -> World -> World := emit_transition (agent_tag i).

Definition register_full (tag : str) (name task : option str) (token : option Token) (model : str) (w : World) : N * World :=
  let id := next_stream w in
  let sink := {| identity := inferred_identity tag name task token; sink_model := model; pause_rx := []; state := Streaming |} in
  (id, {| streams := <[id := sink]> (streams w); next_stream := (id + 1)%N; acks := acks w; actions := actions w;
          next_channel := next_channel w; coordinator := coordinator w; registry := registry w;
          transitions := transitions w |}).

(** The signals that are still answered, from the front of the queue. *)
Fixpoint next_signal (a : gmap N (Oneshot N)) (q : list PauseSignal) : option PauseSignal * list PauseSignal :=
  match q with
  | [] => (None, [])
  | s :: q' => match a !! yielded_tx s with
               | Some c => if rx c then (Some s, q') else next_signal a q'
               | None => next_signal a q'
               end
  end.
Definition poll_control (id : N) (s : Sink) (w : World) : StreamControl * World :=
  let update st := with_streams <[id := st]> in
  match cancel_token (identity s) ≫= fun t => paused_key_for_token t (registry w) with
  | Some key => (Pause (lit "Subagent pause requested"), update (set_state (ManualPause key) s) w)
  | None =>
      match next_signal (acks w) (pause_rx s) with
      | (Some signal, q) => (Pause (user_input signal), update (set_state (Pausing signal) (set_queue q s)) w)
      | (None, q) => (Continue, update (set_queue q s) w)
      end
  end.

(** [on_pause] up to its await: [Some] when it answers at once. *)
Definition on_pause (id : N) (s : Sink) (signal : PauseSignal) (w : World) : option PauseAction * World :=
  let w1 := emit_pause_transition (identity s) true w in
  let a := next_channel w1 in
  match acks w1 !! yielded_tx signal with
  | Some c =>
      let '(delivered, c') := send a c in
      if delivered : bool then
        (None, with_streams <[id := set_state (PausedOn a) s]>
                 (with_acks <[yielded_tx signal := c']> (with_actions <[a := open_channel]> (fresh_channel w1))))
      else
        (Some Resume, with_streams <[id := set_state Streaming s]> (emit_pause_transition (identity s) false w1))
  | None => (Some Resume, with_streams <[id := set_state Streaming s]> (emit_pause_transition (identity s) false w1))
  end.
Definition after (action : PauseAction) : SinkState := match action with Resume => Streaming | Abort => Aborted end.
(** The end of the await: [None] while the channel is open and silent. *)
Definition resume_action (c : Oneshot PauseAction) : option PauseAction :=
  match sent c with Some a => Some a | None => if tx c then None else Some Resume end.
Definition on_answer (id : N) (s : Sink) (a : N) (action : PauseAction) (w : World) : World :=
  with_streams <[id := set_state (after action) s]>
    (with_actions (alter drop_rx a) (emit_pause_transition (identity s) false w)).
(** [worker_pause::wait] up to its await: [Some] when it answers at once. *)
Definition wait_manual (id : N) (s : Sink) (key : str) (w : World) : option PauseAction * World :=
  if is_paused key (registry w) then
    (None, with_streams <[id := set_state (ManualWait key) s]> (emit_transition key true w))
  else (Some Resume, with_streams <[id := set_state Streaming s]> w).
(** The end of its await: the token was cancelled or the pause lifted. *)
Definition wait_over (t : Token) (key : str) (w : World) : option PauseAction :=
  if token_cancelled (token_store (registry w)) t then Some Abort
  else if is_paused key (registry w) then None else Some Resume.
Definition end_manual (id : N) (s : Sink) (key : str) (action : PauseAction) (w : World) : World :=
  with_streams <[id := set_state (after action) s]> (emit_transition key false w).

(** Dropping the sink drops its ends of the channels. *)
Definition drop_sink (id : N) (s : Sink) (w : World) : World :=
  let signals := pause_rx s ++ match state s with Pausing p => [p] | _ => [] end in
  let w1 := with_acks (fun a => foldl (fun a p => alter drop_tx (yielded_tx p) a) a signals) w in
  let w2 := match state s with PausedOn a => with_actions (alter drop_rx a) w1 | _ => w1 end in
  with_streams (delete id) w2.

(** ** The coordinator *)

Definition conflicting (target_model : str) (w : World) : list (N * StreamIdentity) :=
  map (fun e => (fst e, identity (snd e)))
    (List.filter (fun e => models_conflict (sink_model (snd e)) target_model) (stream_iter (streams w))).
Definition preempt_streams (spare_capacity : bool) (target_model user_msg : str) (w : World) : World :=
  with_coordinator
    (match conflicting target_model w with
     | [] => Holding NoHandle
     | entries => if spare_capacity then Holding (Running (map snd entries)) else Signalling entries [] user_msg
     end) w.
Definition preempt_on_backend (active : option ConcurrencyConfig) (pools : Pools) (arbitrator_backend : option str)
    (target_model user_msg : str) (w : World) : World :=
  preempt_streams (match arbitrator_backend with
                   | Some backend => has_spare_session_capacity active pools backend target_model
                   | None => false
                   end) target_model user_msg w.

(** One signal; a stream that is gone receives none. *)
Definition signal_one (id : N) (i : StreamIdentity) (todo : list (N * StreamIdentity)) (waiters : list (StreamIdentity * N))
    (msg : str) (w : World) : World :=
  match streams w !! id with
  | Some s =>
      let k := next_channel w in
      with_coordinator (Signalling todo (waiters ++ [(i, k)]) msg)
        (with_streams <[id := set_queue (pause_rx s ++ [{| user_input := msg; yielded_tx := k |}]) s]>
           (with_acks <[k := open_channel]> (fresh_channel w)))
  | None => with_coordinator (Signalling todo waiters msg) w
  end.

(** What a waiter that is ready completes with: the acknowledgement, or none
    when the signal was dropped. *)
Definition ack_ready (c : Oneshot N) : option (option N) :=
  match sent c with Some a => Some (Some a) | None => if tx c then None else Some None end.
Definition collect_one (ws1 : list (StreamIdentity * N)) (e : StreamIdentity * N) (ws2 active : list (StreamIdentity * N))
    (ack : option N) (w : World) : World :=
  with_coordinator
    (Collecting (ws1 ++ ws2) (match ack with Some a => active ++ [(fst e, a)] | None => active end))
    (with_acks (alter drop_rx (snd e)) w).

Definition handle_of (active : list (StreamIdentity * N)) (running : list StreamIdentity) : PreemptHandle :=
  match active, running with
  | [], [] => NoHandle
  | _, [] => Active active
  | [], _ => Running running
  | _, _ => Combined active running
  end.
(** A waiter dropped with its message drops the sending end the message is. *)
Definition drop_waiter (w : World) (e : StreamIdentity * N) : World :=
  match acks w !! snd e with
  | Some c =>
      let w1 := with_acks <[snd e := drop_rx c]> w in
      match sent c with Some a => with_actions (alter drop_tx a) w1 | None => w1 end
  | None => w
  end.
(** The end of the collection: every stream answered, or the deadline passed. *)
Definition finish (waiters active : list (StreamIdentity * N)) (w : World) : World :=
  with_coordinator (Holding (handle_of active (map fst waiters))) (foldl drop_waiter w waiters).

(** ** Completing *)

Definition cancel (i : StreamIdentity) (ts : TokenStore) : TokenStore :=
  match cancel_token i with Some t => token_cancel t ts | None => ts end.
(** A stream left running is told nothing; only its token may be cancelled. *)
Definition complete_running (abort : StreamIdentity -> bool) (l : list StreamIdentity) (w : World) : World :=
  with_registry (on_tokens (fun ts => foldl (fun ts i => if abort i then cancel i ts else ts) ts l)) w.
Definition complete_one (abort : StreamIdentity -> bool) (w : World) (e : StreamIdentity * N) : World :=
  let w1 := if abort (fst e) then with_registry (on_tokens (cancel (fst e))) w else w in
  with_actions (alter (fun c => snd (send (if abort (fst e) then Abort else Resume) c)) (snd e)) w1.
Definition complete (abort : StreamIdentity -> bool) (h : PreemptHandle) (w : World) : World :=
  with_coordinator Idle
    match h with
    | NoHandle => w
    | Running l => complete_running abort l w
    | Active l => foldl (complete_one abort) w l
    | Combined active running => foldl (complete_one abort) (complete_running abort running w) active
    end.
Definition complete_all (h : PreemptHandle) (action : PauseAction) (w : World) : World :=
  complete (fun _ => match action with Abort => true | Resume => false end) h w.
Definition complete_with_subtask_decision (h : PreemptHandle) (d : option SteerDecision) (w : World) : World :=
  let cancels := cancel_subtasks_of d in
  complete (fun i => cancels_subtask i cancels) h w.
(** A handle dropped without an answer. *)
Definition active_of (h : PreemptHandle) : list (StreamIdentity * N) :=
  match h with Active l => l | Combined l _ => l | _ => [] end.
Definition running_of (h : PreemptHandle) : list StreamIdentity :=
  match h with Running l => l | Combined _ l => l | _ => [] end.
Definition drop_handle (h : PreemptHandle) (w : World) : World :=
  with_coordinator Idle (with_actions (fun a => foldl (fun a e => alter drop_tx (snd e) a) a (active_of h)) w).

(** ** Steps *)

Inductive step : World -> World -> Prop :=
  | step_register tag name task token model w :
      step w (snd (register_full tag name task token model w))
  | step_poll id s w :
      streams w !! id = Some s -> state s = Streaming -> step w (snd (poll_control id s w))
  | step_pause id s signal w :
      streams w !! id = Some s -> state s = Pausing signal -> step w (snd (on_pause id s signal w))
  | step_answer id s a c action w :
      streams w !! id = Some s -> state s = PausedOn a -> actions w !! a = Some c -> resume_action c = Some action ->
      step w (on_answer id s a action w)
  | step_manual id s key w :
      streams w !! id = Some s -> state s = ManualPause key -> step w (snd (wait_manual id s key w))
  | step_manual_over id s key t action w :
      streams w !! id = Some s -> state s = ManualWait key -> cancel_token (identity s) = Some t ->
      wait_over t key w = Some action -> step w (end_manual id s key action w)
  | step_drop id s w : streams w !! id = Some s -> step w (drop_sink id s w)
  | step_registry r w : step w (with_registry (fun _ => r) w)
  | step_preempt spare model msg w : coordinator w = Idle -> step w (preempt_streams spare model msg w)
  | step_signal id i todo waiters msg w :
      coordinator w = Signalling ((id, i) :: todo) waiters msg -> step w (signal_one id i todo waiters msg w)
  | step_signalled waiters msg w :
      coordinator w = Signalling [] waiters msg -> step w (with_coordinator (Collecting waiters []) w)
  | step_collect ws1 e ws2 active c ack w :
      coordinator w = Collecting (ws1 ++ e :: ws2) active -> acks w !! snd e = Some c -> ack_ready c = Some ack ->
      step w (collect_one ws1 e ws2 active ack w)
  | step_finish waiters active w : coordinator w = Collecting waiters active -> step w (finish waiters active w)
  | step_complete_all h action w : coordinator w = Holding h -> step w (complete_all h action w)
  | step_complete h d w : coordinator w = Holding h -> step w (complete_with_subtask_decision h d w)
  | step_drop_handle h w : coordinator w = Holding h -> step w (drop_handle h w)
  | step_abandon waiters active w :
      coordinator w = Collecting waiters active -> step w (drop_handle (Active active) (finish waiters active w)).

Definition initial_world (r : Registry) : World :=
  {| streams := ∅; next_stream := 1; acks := ∅; actions := ∅; next_channel := 0; coordinator := Idle;
     registry := r; transitions := [] |}.
Inductive reachable (r : Registry) : World -> Prop :=
  | reach_init : reachable r (initial_world r)
  | reach_step w w' : reachable r w -> step w w' -> reachable r w'.

End preemption.
