(* ===== verification/PreemptionFacts.v ===== *)
(** * Facts of preemption ([src/orchestrator/preemption.rs])

    In every interleaving a paused stream is answerable: its action channel has
    an answer, or its sending end is held for it by the coordinator or is gone.
    No stream is left paused behind an arbitration that is over, and an answer
    goes to the stream it was decided for. *)

From S2P Require Import Prelude Str TaskId Steer Pool Notice Registry RegistryView Preemption.
Local Open Scope nat_scope.

Section facts.
Context `{Tokens} `{DashOrder} `{Unicode} `{StreamOrder}.
Implicit Types (w : World) (s : Sink) (i j : StreamIdentity) (id k a : N).

(** ** The invariant *)

Definition waiters_of (c : Coordinator) : list (StreamIdentity * N) :=
  match c with Signalling _ ws _ => ws | Collecting ws _ => ws | _ => [] end.
Definition actives_of (c : Coordinator) : list (StreamIdentity * N) :=
  match c with Collecting _ l => l | Holding h => active_of h | _ => [] end.
Definition todo_of (c : Coordinator) : list (N * StreamIdentity) :=
  match c with Signalling todo _ _ => todo | _ => [] end.
Definition signals_of s : list PauseSignal := pause_rx s ++ match state s with Pausing p => [p] | _ => [] end.

(** Who holds the sending end of an action channel. *)
Definition owner w i a : Prop :=
  (exists k c, (i, k) ∈ waiters_of (coordinator w) /\ acks w !! k = Some c /\ sent c = Some a) \/
  (i, a) ∈ actives_of (coordinator w).

Record Inv w : Prop := {
  inv_streams : forall id, is_Some (streams w !! id) -> (id < next_stream w)%N;
  inv_acks_below : forall k, is_Some (acks w !! k) -> (k < next_channel w)%N;
  inv_owned_below : forall i a, owner w i a -> (a < next_channel w)%N;
  inv_todo : forall id i, (id, i) ∈ todo_of (coordinator w) ->
    (id < next_stream w)%N /\ forall s, streams w !! id = Some s -> identity s = i;
  inv_nodup : NoDup (map snd (waiters_of (coordinator w)));
  inv_waiters : forall i k, (i, k) ∈ waiters_of (coordinator w) -> exists c, acks w !! k = Some c /\ rx c = true;
  inv_acks : forall k c, acks w !! k = Some c -> rx c = true -> exists i, (i, k) ∈ waiters_of (coordinator w);
  inv_signals : forall id s p i, streams w !! id = Some s -> p ∈ signals_of s ->
    (yielded_tx p < next_channel w)%N /\ ((i, yielded_tx p) ∈ waiters_of (coordinator w) -> identity s = i);
  inv_unsent : forall id s p c, streams w !! id = Some s -> p ∈ signals_of s -> acks w !! yielded_tx p = Some c -> sent c = None;
  inv_signal_once : forall id s, streams w !! id = Some s -> NoDup (map yielded_tx (signals_of s));
  inv_signal_own : forall id s p id' s' p', streams w !! id = Some s -> streams w !! id' = Some s' ->
    p ∈ signals_of s -> p' ∈ signals_of s' -> yielded_tx p = yielded_tx p' -> id = id';
  inv_paused : forall id s a, streams w !! id = Some s -> state s = PausedOn a ->
    (a < next_channel w)%N /\ (forall i, owner w i a -> i = identity s) /\
    exists c, actions w !! a = Some c /\ rx c = true /\ (sent c = None -> tx c = true -> owner w (identity s) a);
  inv_distinct : forall id s id' s' a, streams w !! id = Some s -> streams w !! id' = Some s' ->
    state s = PausedOn a -> state s' = PausedOn a -> id = id'
}.

Lemma inv_init r : Inv (initial_world r).
Proof.
  split; unfold owner; cbn [streams acks actions coordinator initial_world waiters_of actives_of todo_of map].
  - intros id [s Hs]. by rewrite lookup_empty in Hs.
  - intros k [c Hc]. by rewrite lookup_empty in Hc.
  - intros i a [(k & c & ?%not_elem_of_nil & _)|?%not_elem_of_nil]; done.
  - by intros id i ?%not_elem_of_nil.
  - constructor.
  - by intros i k ?%not_elem_of_nil.
  - intros k c Hc. by rewrite lookup_empty in Hc.
  - intros id s p i Hs. by rewrite lookup_empty in Hs.
  - intros id s p c Hs. by rewrite lookup_empty in Hs.
  - intros id s Hs. by rewrite lookup_empty in Hs.
  - intros id s p id' s' p' Hs. by rewrite lookup_empty in Hs.
  - intros id s a Hs. by rewrite lookup_empty in Hs.
  - intros id s id' s' a Hs. by rewrite lookup_empty in Hs.
Qed.

(** ** Streams that change their own state *)

Lemma submseteq_NoDup {A} (l k : list A) : l ⊆+ k -> NoDup k -> NoDup l.
Proof. intros [x Hx]%submseteq_Permutation Hk. rewrite Hx in Hk. by apply NoDup_app in Hk as [? _]. Qed.

(** Streams may leave, forget signals and stop waiting, if what the others
    wait on is not touched. *)
Lemma inv_shrink w S K A r l :
  Inv w ->
  (forall id s', S !! id = Some s' -> exists s, streams w !! id = Some s /\ identity s' = identity s /\
    signals_of s' ⊆+ signals_of s /\ forall a, state s' = PausedOn a -> state s = PausedOn a /\ A !! a = actions w !! a) ->
  (forall k, (fun c => (rx c, sent c)) <$> K !! k = (fun c => (rx c, sent c)) <$> acks w !! k) ->
  Inv {| streams := S; next_stream := next_stream w; acks := K; actions := A;
         next_channel := next_channel w; coordinator := coordinator w; registry := r; transitions := l |}.
Proof.
  intros [Hst Hab Hob Htd Hnd Hwa Hac Hsi Hun Hon How Hpa Hdi] HS HK.
  assert (HK1 : forall k c, K !! k = Some c -> exists c0, acks w !! k = Some c0 /\ rx c0 = rx c /\ sent c0 = sent c).
  { intros k c E. specialize (HK k). rewrite E in HK. destruct (acks w !! k) as [c0|]; [|done]. injection HK as E1 E2. by exists c0. }
  assert (HK2 : forall k c0, acks w !! k = Some c0 -> exists c, K !! k = Some c /\ rx c = rx c0 /\ sent c = sent c0).
  { intros k c0 E. specialize (HK k). rewrite E in HK. destruct (K !! k) as [c|]; [|done]. injection HK as E1 E2. by exists c. }
  assert (Hsub : forall s s' p, signals_of s' ⊆+ signals_of s -> p ∈ signals_of s' -> p ∈ signals_of s)
    by (intros s s' p Hm Hp; by eapply elem_of_submseteq).
  assert (Ho : forall i a, owner w i a <-> owner {| streams := S; next_stream := next_stream w; acks := K; actions := A;
    next_channel := next_channel w; coordinator := coordinator w; registry := r; transitions := l |} i a).
  { intros i a. split; (intros [(k & c & Hin & Hc & Hsent)|Hin]; [left|by right]).
    - destruct (HK2 k c Hc) as (c' & Hc' & _ & E). exists k, c'. by rewrite E.
    - destruct (HK1 k c Hc) as (c' & Hc' & _ & E). exists k, c'. by rewrite E. }
  split; cbn [streams next_stream acks actions next_channel coordinator]; try done.
  - intros id [x Hx]. destruct (HS id x Hx) as (y & Hy & _). apply Hst; by eexists.
  - intros k [c Hc]. destruct (HK1 k c Hc) as (c' & Hc' & _). apply Hab; by eexists.
  - intros i a Hia. by apply (Hob i), Ho.
  - intros id i Hin. destruct (Htd id i Hin) as [Hlt Hid]. split; [done|]. intros x Hx.
    destruct (HS id x Hx) as (y & Hy & -> & _). by apply Hid.
  - intros i k Hin. destruct (Hwa i k Hin) as (c & Hc & Hr). destruct (HK2 k c Hc) as (c' & Hc' & E & _). exists c'. by rewrite E.
  - intros k c Hc Hr. destruct (HK1 k c Hc) as (c' & Hc' & E & _). apply (Hac k c' Hc'). by rewrite E.
  - intros id x p i Hx Hp. destruct (HS id x Hx) as (y & Hy & -> & Hm & _). by apply (Hsi id y p i Hy (Hsub y x p Hm Hp)).
  - intros id x p c Hx Hp Hc. destruct (HS id x Hx) as (y & Hy & _ & Hm & _). destruct (HK1 (yielded_tx p) c Hc) as (c0 & Hc0 & _ & <-).
    by apply (Hun id y p c0 Hy (Hsub y x p Hm Hp)).
  - intros id x Hx. destruct (HS id x Hx) as (y & Hy & _ & Hm & _). eapply submseteq_NoDup; [|by eapply Hon].
    by apply (fmap_submseteq yielded_tx).
  - intros id1 x1 p1 id2 x2 p2 Hx1 Hx2 Hp1 Hp2 E. destruct (HS id1 x1 Hx1) as (y1 & Hy1 & _ & Hm1 & _).
    destruct (HS id2 x2 Hx2) as (y2 & Hy2 & _ & Hm2 & _). eapply (How id1 y1 p1 id2 y2 p2); eauto.
  - intros id x a Hx Hp. destruct (HS id x Hx) as (y & Hy & -> & _ & Hpy). destruct (Hpy a Hp) as [Hs HA].
    destruct (Hpa id y a Hy Hs) as (Hlt & Hu & c & Hc & Hr & Hc'). split; [done|]. split; [intros i Hi; by apply Hu, Ho|].
    exists c. rewrite HA. split; [done|]. split; [done|]. intros. by apply Ho, Hc'.
  - intros id1 x1 id2 x2 a Hx1 Hx2 Hp1 Hp2. destruct (HS id1 x1 Hx1) as (y1 & Hy1 & _ & _ & Hq1).
    destruct (HS id2 x2 Hx2) as (y2 & Hy2 & _ & _ & Hq2). eapply Hdi; [exact Hy1|exact Hy2|by apply Hq1|by apply Hq2].
Qed.

Lemma NoDup_snd_functional {A} (l : list (A * N)) k (x y : A) : NoDup (map snd l) -> (x, k) ∈ l -> (y, k) ∈ l -> x = y.
Proof.
  induction l as [|[z k'] l IH]; [intros _ ?%not_elem_of_nil; done|]. cbn [map snd]. intros [Hn Hd]%NoDup_cons.
  assert (Hne : forall v, (v, k) ∈ l -> k <> k')
    by (intros v Hv ->; apply Hn, list_elem_of_In, in_map_iff; exists (v, k'); by rewrite <- list_elem_of_In).
  intros [[= -> ->]|Hx]%elem_of_cons [E|Hy]%elem_of_cons; [by injection E|by destruct (Hne y Hy)|..|by apply IH].
  injection E as -> ->. by destruct (Hne x Hx).
Qed.

(** One stream takes a state that waits for no answer, and its signals shrink. *)
Lemma inv_restate w id s s' r l A :
  Inv w -> streams w !! id = Some s -> identity s' = identity s -> signals_of s' ⊆+ signals_of s ->
  (forall a, state s' <> PausedOn a) ->
  (forall a, state s <> PausedOn a -> A !! a = actions w !! a) ->
  Inv {| streams := <[id := s']> (streams w); next_stream := next_stream w; acks := acks w; actions := A;
         next_channel := next_channel w; coordinator := coordinator w; registry := r; transitions := l |}.
Proof.
  intros Hw Hs Hi Hm Hnp HA. apply inv_shrink; [done| |done]. intros id' x Hx.
  apply lookup_insert_Some in Hx as [[<- <-]|[Hne Hx]].
  - exists s. split_and!; try done. intros a Ha. by destruct (Hnp a).
  - exists x. split_and!; try done. intros a Ha. split; [done|]. apply HA. intros Hsa.
    by apply Hne, (inv_distinct w Hw id s id' x a).
Qed.

Lemma next_signal_sub A q p q' :
  next_signal A q = (p, q') -> q' ++ match p with Some x => [x] | None => [] end ⊆+ q.
Proof.
  revert p q'. induction q as [|x q IH]; intros p q'; cbn [next_signal]; [by intros [= <- <-]|]. intros E.
  destruct (A !! yielded_tx x) as [c|].
  1: destruct (rx c); [injection E as <- <-; by rewrite Permutation_app_comm|].
  all: apply IH in E; by apply submseteq_cons_r; left.
Qed.

Lemma inv_poll id s w : Inv w -> streams w !! id = Some s -> state s = Streaming -> Inv (snd (poll_control id s w)).
Proof.
  intros Hi Hs Hst. unfold poll_control. cbv zeta.
  destruct (cancel_token (identity s) ≫= _) as [key|].
  { apply (inv_restate w id s); try done. unfold signals_of. by rewrite Hst. }
  destruct (next_signal (acks w) (pause_rx s)) as [[signal|] q] eqn:E; apply next_signal_sub in E;
    (apply (inv_restate w id s); try done; unfold signals_of; cbn [state pause_rx set_state set_queue];
     rewrite ?Hst, ?(app_nil_r (pause_rx s)); done).
Qed.

Lemma inv_streaming w id s st r l :
  Inv w -> streams w !! id = Some s -> (forall p, st <> Pausing p) -> (forall a, st <> PausedOn a) ->
  Inv {| streams := <[id := set_state st s]> (streams w); next_stream := next_stream w; acks := acks w; actions := actions w;
         next_channel := next_channel w; coordinator := coordinator w; registry := r; transitions := l |}.
Proof.
  intros Hi Hs Hp Ha. apply (inv_restate w id s); try done. unfold signals_of. cbn [state set_state pause_rx].
  destruct st; try (by rewrite app_nil_r; apply submseteq_inserts_r). by destruct (Hp s0).
Qed.

Lemma after_not action : (forall p, after action <> Pausing p) /\ forall a, after action <> PausedOn a.
Proof. by destruct action. Qed.

Lemma inv_answer id s a action w :
  Inv w -> streams w !! id = Some s -> state s = PausedOn a -> Inv (on_answer id s a action w).
Proof.
  intros Hi Hs Hst. apply (inv_restate w id s); try done.
  - unfold signals_of. cbn. rewrite Hst. by destruct action.
  - apply after_not.
  - intros b Hb. cbn. apply lookup_alter_ne. intros ->. by destruct Hb.
Qed.

Lemma inv_manual id s key w : Inv w -> streams w !! id = Some s -> Inv (snd (wait_manual id s key w)).
Proof. intros Hi Hs. unfold wait_manual. destruct (is_paused key (registry w)); by apply (inv_streaming w id s). Qed.
Lemma inv_end_manual id s key action w : Inv w -> streams w !! id = Some s -> Inv (end_manual id s key action w).
Proof. intros Hi Hs. apply (inv_streaming w id s); [done|done|apply after_not..]. Qed.

Lemma drop_txs_view (q : list PauseSignal) (A : gmap N (Oneshot N)) k :
  (fun c => (rx c, sent c)) <$> foldl (fun m p => alter drop_tx (yielded_tx p) m) A q !! k = (fun c => (rx c, sent c)) <$> A !! k.
Proof.
  revert A. induction q as [|p q IH]; intros A; [done|]. cbn [foldl]. rewrite IH.
  destruct (decide (yielded_tx p = k)) as [<-|?]; [rewrite lookup_alter_eq; by destruct (A !! _)|by rewrite lookup_alter_ne].
Qed.
Lemma inv_drop_sink id s w : Inv w -> streams w !! id = Some s -> Inv (drop_sink id s w).
Proof.
  intros Hi Hs. unfold drop_sink. cbv zeta.
  assert (HS : forall A, (forall a, state s <> PausedOn a -> A !! a = actions w !! a) -> Inv {| streams := delete id (streams w);
    next_stream := next_stream w; acks := foldl (fun m p => alter drop_tx (yielded_tx p) m) (acks w) (signals_of s); actions := A;
    next_channel := next_channel w; coordinator := coordinator w; registry := registry w; transitions := transitions w |}).
  { intros A HA. apply inv_shrink; [done| |intros k; apply drop_txs_view]. intros id' x [Hne Hx]%lookup_delete_Some.
    exists x. split_and!; try done. intros a Ha. split; [done|]. apply HA. intros Hsa.
    by apply Hne, (inv_distinct w Hi id s id' x a). }
  destruct (state s) eqn:Hst; unfold signals_of in HS; rewrite Hst in HS; cbn; try (by apply (HS (actions w))).
  apply (HS (alter drop_rx action_rx (actions w))). intros a Ha. apply lookup_alter_ne. intros ->. by destruct Ha.
Qed.

Lemma inv_registry w r l : Inv w ->
  Inv {| streams := streams w; next_stream := next_stream w; acks := acks w; actions := actions w; next_channel := next_channel w;
         coordinator := coordinator w; registry := r; transitions := l |}.
Proof. intros Hi. apply inv_shrink; [done| |done]. intros id s Hs. exists s. split_and!; try done. Qed.

(** ** Streams that register and streams that pause *)

Lemma inv_register tag name task token model w : Inv w -> Inv (snd (register_full tag name task token model w)).
Proof.
  intros [Hst Hab Hob Htd Hnd Hwa Hac Hsi Hun Hon How Hpa Hdi]. set (w' := snd _).
  assert (HS : forall id s, streams w' !! id = Some s -> id <> next_stream w /\ streams w !! id = Some s \/
    id = next_stream w /\ signals_of s = [] /\ forall a, state s <> PausedOn a).
  { intros id s Hs. cbn in Hs. apply lookup_insert_Some in Hs as [[<- <-]|[Hne Hs]]; [by right|by left]. }
  split; try done.
  - intros id [x Hx]. cbn. destruct (HS id x Hx) as [[_ Hs]|(-> & _)]; [|lia].
    assert (id < next_stream w)%N by (apply Hst; by eexists). lia.
  - intros id i Hin. destruct (Htd id i Hin) as [Hlt Hid]. split; [cbn; lia|]. intros x Hx.
    destruct (HS id x Hx) as [[_ Hs]|(-> & _)]; [by apply Hid|lia].
  - intros id x p i Hx Hp. destruct (HS id x Hx) as [[_ Hs]|(-> & Hq & _)]; [by apply (Hsi id x)|].
    rewrite Hq in Hp. by apply not_elem_of_nil in Hp.
  - intros id x p c Hx Hp. destruct (HS id x Hx) as [[_ Hs]|(-> & Hq & _)]; [by apply (Hun id x)|].
    rewrite Hq in Hp. by apply not_elem_of_nil in Hp.
  - intros id x Hx. destruct (HS id x Hx) as [[_ Hs]|(-> & Hq & _)]; [by apply (Hon id x)|]. rewrite Hq. constructor.
  - intros id1 x1 p1 id2 x2 p2 Hx1 Hx2 Hp1 Hp2 E.
    destruct (HS id1 x1 Hx1) as [[_ Hs1]|(-> & Hq & _)]; [|rewrite Hq in Hp1; by apply not_elem_of_nil in Hp1].
    destruct (HS id2 x2 Hx2) as [[_ Hs2]|(-> & Hq & _)]; [|rewrite Hq in Hp2; by apply not_elem_of_nil in Hp2].
    by eapply (How id1 x1 p1).
  - intros id x a Hx Hp. destruct (HS id x Hx) as [[_ Hs]|(_ & _ & Hn)]; [by apply (Hpa id x)|by destruct (Hn a)].
  - intros id1 x1 id2 x2 a Hx1 Hx2 Hp1 Hp2.
    destruct (HS id1 x1 Hx1) as [[_ Hs1]|(_ & _ & Hn)]; [|by destruct (Hn a)].
    destruct (HS id2 x2 Hx2) as [[_ Hs2]|(_ & _ & Hn)]; [|by destruct (Hn a)]. by apply (Hdi id1 x1 id2 x2 a).
Qed.

(** A stream's signals are its own. *)
Lemma others_signals w id s signal id' x p :
  Inv w -> streams w !! id = Some s -> state s = Pausing signal -> streams w !! id' = Some x -> p ∈ signals_of x ->
  yielded_tx p = yielded_tx signal -> id' = id /\ ~ p ∈ pause_rx s.
Proof.
  intros Hi Hs Hst Hx Hp E. assert (Hsig : signals_of s = pause_rx s ++ [signal]) by (unfold signals_of; by rewrite Hst).
  split.
  - apply (inv_signal_own w Hi id' x p id s signal Hx Hs Hp); [|done]. rewrite Hsig. apply elem_of_app. right. by left.
  - intros Hq. pose proof (inv_signal_once w Hi id s Hs) as Hd. rewrite Hsig, map_app in Hd.
    apply NoDup_app in Hd as (_ & Hd & _). apply (Hd (yielded_tx p)); [|rewrite E; by left].
    by apply (list_elem_of_fmap_2 yielded_tx).
Qed.

(** A stream acknowledges: what it waits on is held for it alone. *)
Definition acknowledged id s k w l : World :=
  {| streams := <[id := set_state (PausedOn (next_channel w)) s]> (streams w); next_stream := next_stream w;
     acks := <[k := {| sent := Some (next_channel w); tx := false; rx := true |}]> (acks w);
     actions := <[next_channel w := open_channel]> (actions w); next_channel := (next_channel w + 1)%N;
     coordinator := coordinator w; registry := registry w; transitions := l |}.

Lemma acknowledged_streams id s signal w l id' x :
  Inv w -> streams w !! id = Some s -> state s = Pausing signal -> streams (acknowledged id s (yielded_tx signal) w l) !! id' = Some x ->
  exists y, streams w !! id' = Some y /\ identity x = identity y /\ signals_of x ⊆+ signals_of y /\
    (forall p, p ∈ signals_of x -> yielded_tx p <> yielded_tx signal) /\
    (id' = id /\ state x = PausedOn (next_channel w) \/ id' <> id /\ state x = state y).
Proof.
  intros Hi Hs Hst Hx. cbn in Hx. apply lookup_insert_Some in Hx as [[<- <-]|[Hne Hx]].
  - exists s. unfold signals_of at 1 3. cbn [identity set_state state pause_rx]. rewrite app_nil_r. split_and!; try done; [| |by left].
    + by apply submseteq_inserts_r.
    + intros p Hp E. apply (others_signals w id s signal id s p) in E as [_ E]; try done. by apply elem_of_app; left.
  - exists x. split_and!; try done; [|by right]. intros p Hp E. by apply (others_signals w id s signal id' x p) in E as [-> _].
Qed.

Lemma acknowledged_owner id s signal i c w l :
  Inv w -> streams w !! id = Some s -> state s = Pausing signal -> acks w !! yielded_tx signal = Some c ->
  (i, yielded_tx signal) ∈ waiters_of (coordinator w) ->
  let w' := acknowledged id s (yielded_tx signal) w l in
  owner w' (identity s) (next_channel w) /\ (forall j b, owner w j b -> owner w' j b) /\
  forall j b, owner w' j b -> owner w j b \/ b = next_channel w /\ j = identity s.
Proof.
  intros Hi Hs Hst Hc Hwait w'. set (k := yielded_tx signal) in *.
  assert (Hsig : signal ∈ signals_of s) by (unfold signals_of; rewrite Hst; apply elem_of_app; right; by left).
  assert (Hsent : sent c = None) by by apply (inv_unsent w Hi id s signal c Hs).
  destruct (inv_signals w Hi id s signal i Hs Hsig) as [_ Hid]. specialize (Hid Hwait). split_and!.
  - left. exists k, {| sent := Some (next_channel w); tx := false; rx := true |}. rewrite Hid. split; [done|].
    split; [apply lookup_insert_eq|done].
  - intros j b [(k' & c' & Hin & Hc' & Hs')|Hin]; [left|by right]. exists k', c'. split; [done|]. split; [|done].
    cbn. rewrite lookup_insert_ne; [done|]. intros <-. rewrite Hc in Hc'. injection Hc' as <-. by rewrite Hsent in Hs'.
  - intros j b [(k' & c' & Hin & Hc' & Hs')|Hin]; [|by left; right]. cbn in Hin, Hc'.
    apply lookup_insert_Some in Hc' as [[<- <-]|[_ Hc']]; [right|left; left; by exists k', c'].
    split; [by injection Hs'|]. rewrite Hid. by apply (NoDup_snd_functional (waiters_of (coordinator w)) k); [apply Hi|..].
Qed.

Lemma acknowledged_paused id s signal i c w l :
  Inv w -> streams w !! id = Some s -> state s = Pausing signal -> acks w !! yielded_tx signal = Some c ->
  (i, yielded_tx signal) ∈ waiters_of (coordinator w) ->
  let w' := acknowledged id s (yielded_tx signal) w l in
  forall id' x a, streams w' !! id' = Some x -> state x = PausedOn a ->
  (a < next_channel w')%N /\ (forall j, owner w' j a -> j = identity x) /\
  exists c, actions w' !! a = Some c /\ rx c = true /\ (sent c = None -> tx c = true -> owner w' (identity x) a).
Proof.
  intros Hi Hs Hst Hc Hwait w' id' x a Hx Hp.
  destruct (acknowledged_owner id s signal i c w l Hi Hs Hst Hc Hwait) as (Hnew & Hold & Hon).
  destruct (acknowledged_streams id s signal w l id' x Hi Hs Hst Hx) as (y & Hy & Hid & _ & _ & [[-> E]|[Hne E]]).
  - rewrite E in Hp. injection Hp as <-. rewrite Hs in Hy. injection Hy as <-. rewrite Hid. split; [cbn; lia|]. split.
    + intros j [Ho|[_ ->]]%Hon; [|done]. apply (inv_owned_below w Hi) in Ho. lia.
    + exists open_channel. split; [apply lookup_insert_eq|done].
  - rewrite E in Hp. destruct (inv_paused w Hi id' y a Hy Hp) as (Hlt & Hu & c' & Hc' & Hr & Ho). rewrite Hid.
    split; [cbn; lia|]. split; [intros j [?|[-> _]]%Hon; [by apply Hu|lia]|]. exists c'.
    split; [|split; [done|]; intros; by apply Hold, Ho]. cbn. rewrite lookup_insert_ne; [done|lia].
Qed.

Lemma inv_acknowledge id s signal i c w l :
  Inv w -> streams w !! id = Some s -> state s = Pausing signal -> acks w !! yielded_tx signal = Some c ->
  (i, yielded_tx signal) ∈ waiters_of (coordinator w) -> Inv (acknowledged id s (yielded_tx signal) w l).
Proof.
  intros Hi Hs Hst Hc Hwait. destruct (acknowledged_owner id s signal i c w l Hi Hs Hst Hc Hwait) as (Hnew & Hold & Hon).
  pose proof (fun id' x => acknowledged_streams id s signal w l id' x Hi Hs Hst) as HS.
  set (w' := acknowledged _ _ _ _ _) in *. assert (Hback := Hi). destruct Hback as [Hstr Hab Hob Htd Hnd Hwa Hac Hsi Hun Hso How Hpa Hdi].
  assert (Hsub : forall x y p, signals_of x ⊆+ signals_of y -> p ∈ signals_of x -> p ∈ signals_of y)
    by (intros x y p Hm Hp; by eapply elem_of_submseteq).
  split; try done.
  - intros id' [x Hx]. destruct (HS id' x Hx) as (y & Hy & _). apply Hstr; by eexists.
  - intros k' [c' Hc']. cbn in *. apply lookup_insert_Some in Hc' as [[<- _]|[_ Hc']];
      [assert (yielded_tx signal < next_channel w)%N by (apply Hab; by eexists); lia|].
    assert (k' < next_channel w)%N by (apply Hab; by eexists). lia.
  - intros j b Hb. cbn. destruct (Hon j b Hb) as [Ho|[-> _]]; [apply Hob in Ho|]; lia.
  - intros id' j Hin. destruct (Htd id' j Hin) as [Hlt Hid]. split; [done|]. intros x Hx.
    destruct (HS id' x Hx) as (y & Hy & -> & _). by apply Hid.
  - intros j k' Hin. cbn. destruct (decide (yielded_tx signal = k')) as [<-|Hne]; [eexists; by rewrite lookup_insert_eq|].
    rewrite lookup_insert_ne; [by apply (Hwa j)|done].
  - intros k' c' Hc' Hr. cbn in Hc'. apply lookup_insert_Some in Hc' as [[<- _]|[_ Hc']]; [by exists i|by apply (Hac k' c')].
  - intros id' x p j Hx Hp. destruct (HS id' x Hx) as (y & Hy & -> & Hm & _). destruct (Hsi id' y p j Hy (Hsub x y p Hm Hp)).
    split; [cbn; lia|done].
  - intros id' x p c' Hx Hp Hc'. destruct (HS id' x Hx) as (y & Hy & _ & Hm & Hk & _). cbn in Hc'.
    rewrite lookup_insert_ne in Hc' by by apply not_eq_sym, Hk. by apply (Hun id' y p c' Hy (Hsub x y p Hm Hp)).
  - intros id' x Hx. destruct (HS id' x Hx) as (y & Hy & _ & Hm & _). eapply submseteq_NoDup; [|by eapply Hso].
    by apply (fmap_submseteq yielded_tx).
  - intros id1 x1 p1 id2 x2 p2 Hx1 Hx2 Hp1 Hp2 E. destruct (HS id1 x1 Hx1) as (y1 & Hy1 & _ & Hm1 & _).
    destruct (HS id2 x2 Hx2) as (y2 & Hy2 & _ & Hm2 & _). eapply (How id1 y1 p1 id2 y2 p2); eauto.
  - by eapply acknowledged_paused.
  - intros id1 x1 id2 x2 a Hx1 Hx2 Hp1 Hp2. destruct (HS id1 x1 Hx1) as (y1 & Hy1 & _ & _ & _ & [[-> E1]|[_ E1]]);
      destruct (HS id2 x2 Hx2) as (y2 & Hy2 & _ & _ & _ & [[-> E2]|[_ E2]]); rewrite E1 in Hp1; rewrite E2 in Hp2; [done|..].
    + injection Hp1 as <-. destruct (Hpa id2 y2 _ Hy2 Hp2). lia.
    + injection Hp2 as <-. destruct (Hpa id1 y1 _ Hy1 Hp1). lia.
    + by apply (Hdi id1 y1 id2 y2 a).
Qed.
Lemma inv_pause id s signal w :
  Inv w -> streams w !! id = Some s -> state s = Pausing signal -> Inv (snd (on_pause id s signal w)).
Proof.
  intros Hi Hs Hst. unfold on_pause. cbv zeta. cbn [emit_pause_transition acks emit_transition].
  destruct (acks w !! yielded_tx signal) as [c|] eqn:Ec; [|by apply (inv_streaming w id s)].
  unfold send. destruct (rx c) eqn:Er; [|by apply (inv_streaming w id s)].
  destruct (inv_acks w Hi (yielded_tx signal) c Ec Er) as [i Hin]. by apply (inv_acknowledge id s signal i c w).
Qed.

(** ** Steps of the coordinator *)

(** A step that withdraws receivers and settles what it gives up. *)
Lemma inv_coordinator w c' K A r :
  Inv w ->
  (forall id i, (id, i) ∈ todo_of c' -> (id < next_stream w)%N /\ forall s, streams w !! id = Some s -> identity s = i) ->
  map snd (waiters_of c') ⊆+ map snd (waiters_of (coordinator w)) ->
  (forall i k, (i, k) ∈ waiters_of c' -> (i, k) ∈ waiters_of (coordinator w) /\ K !! k = acks w !! k) ->
  (forall k c, K !! k = Some c -> exists c0, acks w !! k = Some c0 /\ (sent c0 = None -> sent c = None) /\
    (rx c = true -> rx c0 = true /\ exists i, (i, k) ∈ waiters_of c')) ->
  (forall i a, (i, a) ∈ actives_of c' -> owner w i a) ->
  let w' := {| streams := streams w; next_stream := next_stream w; acks := K; actions := A; next_channel := next_channel w;
               coordinator := c'; registry := r; transitions := transitions w |} in
  (forall id s a c, streams w !! id = Some s -> state s = PausedOn a -> actions w !! a = Some c -> rx c = true ->
    (sent c = None -> tx c = true -> owner w (identity s) a) ->
    exists c1, A !! a = Some c1 /\ rx c1 = true /\ (sent c1 = None -> tx c1 = true -> owner w' (identity s) a)) ->
  Inv w'.
Proof.
  intros [Hst Hab Hob Htd Hnd Hwa Hac Hsi Hun Hon How Hpa Hdi] HT HW HWK HK HO w' HA.
  assert (Hown : forall i a, owner w' i a -> owner w i a).
  { intros i a [(k & c & Hin & Hc & Hs)|Hin]; [left|by apply HO]. cbn in *. destruct (HWK i k Hin) as [? E].
    exists k, c. by rewrite <- E. }
  split; try done.
  - intros k [c Hc]. destruct (HK k c Hc) as (c0 & Hc0 & _). apply Hab; by eexists.
  - intros i a Ha. by apply (Hob i), Hown.
  - by apply (submseteq_NoDup _ _ HW).
  - intros i k Hin. destruct (HWK i k Hin) as [Hin' E]. cbn. rewrite E. by apply (Hwa i).
  - intros k c Hc Hr. destruct (HK k c Hc) as (c0 & _ & _ & Hx). by apply Hx.
  - intros id s p i Hs Hp. destruct (Hsi id s p i Hs Hp) as [Hlt Hi]. split; [done|]. intros Hin. by apply Hi, HWK.
  - intros id s p c Hs Hp Hc. destruct (HK _ c Hc) as (c0 & Hc0 & Hsent & _). by apply Hsent, (Hun id s p c0).
  - intros id s a Hs Hp. destruct (Hpa id s a Hs Hp) as (Hlt & Hu & c & Hc & Hr & Ho). split; [done|].
    split; [intros i Ha; by apply Hu, Hown|]. by apply (HA id s a c).
Qed.

Lemma inv_signalled waiters msg w :
  Inv w -> coordinator w = Signalling [] waiters msg -> Inv (with_coordinator (Collecting waiters []) w).
Proof.
  intros Hi Hc. apply inv_coordinator; rewrite ?Hc; try done.
  - by intros id i ?%not_elem_of_nil.
  - intros k c Hk. exists c. split_and!; try done. intros Hr. split; [done|].
    destruct (inv_acks w Hi k c Hk Hr) as [i Hin]. rewrite Hc in Hin. by exists i.
  - by intros i a ?%not_elem_of_nil.
  - intros id s a c Hs Hp Ha Hr Ho. exists c. split_and!; try done. intros Hn Ht. destruct (Ho Hn Ht) as [Hl|Hr'].
    + left. by rewrite Hc in Hl.
    + rewrite Hc in Hr'. by apply not_elem_of_nil in Hr'.
Qed.

Lemma todo_conflicting target w id i : Inv w -> (id, i) ∈ conflicting target w ->
  (id < next_stream w)%N /\ forall s, streams w !! id = Some s -> identity s = i.
Proof.
  intros Hi Hin. unfold conflicting in Hin. apply list_elem_of_In, in_map_iff in Hin as ([id' s'] & [= -> <-] & Hf).
  apply filter_In in Hf as [Hf _]. apply list_elem_of_In in Hf. cbn [fst snd] in *. rewrite stream_iter_perm in Hf.
  apply elem_of_map_to_list in Hf. split; [apply (inv_streams w Hi); by eexists|]. intros s Hs. rewrite Hs in Hf. by injection Hf as ->.
Qed.

Lemma inv_preempt spare model msg w : Inv w -> coordinator w = Idle -> Inv (preempt_streams spare model msg w).
Proof.
  intros Hi Hc. unfold preempt_streams. set (c' := match conflicting model w with [] => _ | _ => _ end).
  assert (Hw : waiters_of c' = [] /\ actives_of c' = []) by (unfold c'; destruct (conflicting model w); [|destruct spare]; done).
  destruct Hw as [Hw Ha]. apply inv_coordinator; rewrite ?Hw, ?Ha; try done.
  - intros id i Hin. apply (todo_conflicting model); [done|]. unfold c' in Hin. destruct (conflicting model w) as [|e l];
      [by apply not_elem_of_nil in Hin|]. destruct spare; [by apply not_elem_of_nil in Hin|done].
  - by rewrite Hc.
  - by intros i k ?%not_elem_of_nil.
  - intros k c Hk. exists c. split_and!; try done. intros Hr. destruct (inv_acks w Hi k c Hk Hr) as [i Hin].
    rewrite Hc in Hin. by apply not_elem_of_nil in Hin.
  - by intros i a ?%not_elem_of_nil.
  - intros id s a c Hs Hp Hk Hr Ho. exists c. split_and!; try done. intros Hn Ht.
    destruct (Ho Hn Ht) as [(k & c0 & Hin & _)|Hin]; rewrite Hc in Hin; by apply not_elem_of_nil in Hin.
Qed.

Lemma inv_skip id i todo waiters msg w :
  Inv w -> coordinator w = Signalling ((id, i) :: todo) waiters msg ->
  Inv (with_coordinator (Signalling todo waiters msg) w).
Proof.
  intros Hi Hc. apply inv_coordinator; rewrite ?Hc; try done.
  - intros id' i' Hin. apply (inv_todo w Hi). rewrite Hc. by right.
  - intros k c Hk. exists c. split_and!; try done. intros Hr. split; [done|].
    destruct (inv_acks w Hi k c Hk Hr) as [j Hin]. rewrite Hc in Hin. by exists j.
  - by intros j a ?%not_elem_of_nil.
  - intros id' s a c Hs Hp Ha Hr Ho. exists c. split_and!; try done. intros Hn Ht. destruct (Ho Hn Ht) as [Hl|Hr'].
    + left. by rewrite Hc in Hl.
    + rewrite Hc in Hr'. by apply not_elem_of_nil in Hr'.
Qed.

(** A signal is queued with an acknowledgement of its own. *)
Definition signalled id s i todo waiters msg w : World :=
  {| streams := <[id := set_queue (pause_rx s ++ [{| user_input := msg; yielded_tx := next_channel w |}]) s]> (streams w);
     next_stream := next_stream w; acks := <[next_channel w := open_channel]> (acks w); actions := actions w;
     next_channel := (next_channel w + 1)%N; coordinator := Signalling todo (waiters ++ [(i, next_channel w)]) msg;
     registry := registry w; transitions := transitions w |}.

Lemma signalled_streams id s i todo waiters msg w id' x :
  streams w !! id = Some s -> streams (signalled id s i todo waiters msg w) !! id' = Some x ->
  exists y, streams w !! id' = Some y /\ identity x = identity y /\ state x = state y /\
    forall p, p ∈ signals_of x -> p ∈ signals_of y \/ id' = id /\ yielded_tx p = next_channel w.
Proof.
  intros Hs Hx. cbn in Hx. apply lookup_insert_Some in Hx as [[<- <-]|[Hne Hx]]; [|exists x; split_and!; auto].
  exists s. split_and!; try done. unfold signals_of. cbn [pause_rx set_queue state]. intros p Hp.
  rewrite <- app_assoc in Hp. apply elem_of_app in Hp as [Hp|Hp]; [left; by apply elem_of_app; left|].
  apply elem_of_app in Hp as [->%list_elem_of_singleton|Hp]; [by right|left; by apply elem_of_app; right].
Qed.

Lemma signalled_once id s i todo waiters msg w id' x :
  Inv w -> streams w !! id = Some s -> streams (signalled id s i todo waiters msg w) !! id' = Some x -> NoDup (map yielded_tx (signals_of x)).
Proof.
  intros Hi Hs Hx. cbn in Hx. apply lookup_insert_Some in Hx as [[<- <-]|[_ Hx]]; [|by apply (inv_signal_once w Hi id')].
  unfold signals_of. cbn [pause_rx set_queue state].
  apply (submseteq_NoDup _ (map yielded_tx ({| user_input := msg; yielded_tx := next_channel w |} :: signals_of s))).
  - apply (fmap_submseteq yielded_tx), Permutation_submseteq. unfold signals_of. rewrite <- app_assoc. cbn [app].
    symmetry. apply Permutation_middle.
  - cbn [map]. apply NoDup_cons. split; [|by apply (inv_signal_once w Hi id)].
    intros (p & E & Hp)%list_elem_of_fmap. destruct (inv_signals w Hi id s p i Hs Hp) as [Hlt _]. cbn in E. lia.
Qed.

Lemma signalled_owner id s i todo waiters msg w j a :
  Inv w -> coordinator w = Signalling ((id, i) :: todo) waiters msg ->
  owner (signalled id s i todo waiters msg w) j a <-> owner w j a.
Proof.
  intros Hi Hc. unfold owner, signalled. cbn [coordinator acks waiters_of actives_of]. rewrite Hc. cbn [waiters_of actives_of].
  split; (intros [(k & c & Hin & Hk & Hsent)|Hin]; [left|by right]); exists k, c.
  - apply lookup_insert_Some in Hk as [[<- <-]|[Hne Hk]]; [done|]. split_and!; try done.
    apply elem_of_app in Hin as [?|[= -> ->]%list_elem_of_singleton]; [done|by destruct Hne].
  - split; [by apply elem_of_app; left|]. split; [|done]. rewrite lookup_insert_ne; [done|].
    assert (k < next_channel w)%N by (apply (inv_acks_below w Hi); by eexists). lia.
Qed.

(** The new signal belongs to the stream it was queued for. *)
Lemma signalled_signals id s i todo waiters msg w :
  Inv w -> coordinator w = Signalling ((id, i) :: todo) waiters msg -> streams w !! id = Some s -> identity s = i ->
  (forall j k, (j, k) ∈ waiters -> (k < next_channel w)%N) ->
  let w' := signalled id s i todo waiters msg w in
  (forall id' x p j, streams w' !! id' = Some x -> p ∈ signals_of x ->
    (yielded_tx p < next_channel w')%N /\ ((j, yielded_tx p) ∈ waiters_of (coordinator w') -> identity x = j)) /\
  (forall id' x p c, streams w' !! id' = Some x -> p ∈ signals_of x -> acks w' !! yielded_tx p = Some c -> sent c = None) /\
  (forall id1 x1 p1 id2 x2 p2, streams w' !! id1 = Some x1 -> streams w' !! id2 = Some x2 ->
    p1 ∈ signals_of x1 -> p2 ∈ signals_of x2 -> yielded_tx p1 = yielded_tx p2 -> id1 = id2).
Proof.
  intros [Hst Hab Hob Htd Hnd Hwa Hac Hsi Hun Hon How Hpa Hdi] Hc Hs Hid Hwl w'.
  pose proof (fun id' x => signalled_streams id s i todo waiters msg w id' x Hs) as HS. rewrite Hc in *. split_and!.
  - intros id' x p j Hx Hp. destruct (HS id' x Hx) as (y & Hy & -> & _ & Hm). cbn.
    destruct (Hm p Hp) as [Hq|[-> Hq]].
    + destruct (Hsi id' y p j Hy Hq) as [Hlt Hj]. split; [lia|].
      intros [Hin|[= -> E]%list_elem_of_singleton]%elem_of_app; [by apply Hj|lia].
    + rewrite Hq. split; [lia|]. rewrite Hs in Hy. injection Hy as <-.
      intros [Hin%Hwl|[= ->]%list_elem_of_singleton]%elem_of_app; [lia|done].
  - intros id' x p c Hx Hp Hk. destruct (HS id' x Hx) as (y & Hy & _ & _ & Hm). cbn in Hk.
    apply lookup_insert_Some in Hk as [[_ <-]|[Hne Hk]]; [done|]. destruct (Hm p Hp) as [Hq|[-> Hq]]; [by apply (Hun id' y p)|done].
  - intros id1 x1 p1 id2 x2 p2 Hx1 Hx2 Hp1 Hp2 E. destruct (HS id1 x1 Hx1) as (y1 & Hy1 & _ & _ & Hm1).
    destruct (HS id2 x2 Hx2) as (y2 & Hy2 & _ & _ & Hm2).
    destruct (Hm1 p1 Hp1) as [Hq1|[-> Hq1]]; destruct (Hm2 p2 Hp2) as [Hq2|[-> Hq2]]; [by apply (How id1 y1 p1 id2 y2 p2)|..|done].
    + destruct (Hsi id1 y1 p1 i Hy1 Hq1). lia.
    + destruct (Hsi id2 y2 p2 i Hy2 Hq2). lia.
Qed.

Lemma inv_signalled_one id s i todo waiters msg w :
  Inv w -> coordinator w = Signalling ((id, i) :: todo) waiters msg -> streams w !! id = Some s ->
  Inv (signalled id s i todo waiters msg w).
Proof.
  intros Hi Hc Hs. pose proof (fun j a => signalled_owner id s i todo waiters msg w j a Hi Hc) as Hown.
  pose proof (fun id' x => signalled_streams id s i todo waiters msg w id' x Hs) as HS.
  pose proof (fun id' x => signalled_once id s i todo waiters msg w id' x Hi Hs) as Honce.
  set (w' := signalled _ _ _ _ _ _ _) in *. destruct (inv_todo w Hi id i) as [_ Hid]; [rewrite Hc; by left|]. specialize (Hid s Hs).
  assert (Hwl : forall j k, (j, k) ∈ waiters -> (k < next_channel w)%N).
  { intros j k Hin. destruct (inv_waiters w Hi j k) as (c & Hk & _); [by rewrite Hc|]. apply (inv_acks_below w Hi); by eexists. }
  destruct (signalled_signals id s i todo waiters msg w Hi Hc Hs Hid Hwl) as (Hsig & Hunsent & Hmine).
  destruct Hi as [Hst Hab Hob Htd Hnd Hwa Hac _ _ _ _ Hpa Hdi]. rewrite Hc in *.
  split.
  - intros id' [x Hx]. destruct (HS id' x Hx) as (y & Hy & _). apply Hst; by eexists.
  - intros k [c Hk]. cbn in *. apply lookup_insert_Some in Hk as [[<- _]|[_ Hk]]; [lia|].
    assert (k < next_channel w)%N by (apply Hab; by eexists). lia.
  - intros j a Ha%Hown%Hob. cbn. lia.
  - intros id' j Hin. destruct (Htd id' j) as [Hlt Hj]; [by right|]. split; [done|]. intros x Hx.
    destruct (HS id' x Hx) as (y & Hy & -> & _). by apply Hj.
  - cbn. rewrite map_app. apply NoDup_app. split; [done|]. split; [|apply NoDup_singleton].
    intros k ((j & k') & E & Hin)%list_elem_of_fmap E'%list_elem_of_singleton. apply Hwl in Hin. cbn in *. lia.
  - intros j k [Hin|[= -> ->]%list_elem_of_singleton]%elem_of_app; cbn; [|eexists; by rewrite lookup_insert_eq].
    rewrite lookup_insert_ne; [by apply (Hwa j)|]. apply Hwl in Hin. lia.
  - intros k c Hk Hr. cbn in *. apply lookup_insert_Some in Hk as [[<- _]|[_ Hk]].
    + exists i. apply elem_of_app. right. by left.
    + destruct (Hac k c Hk Hr) as [j Hj]. exists j. by apply elem_of_app; left.
  - done.
  - done.
  - intros id' x Hx. by apply (Honce id').
  - done.
  - intros id' x a Hx Hp. destruct (HS id' x Hx) as (y & Hy & -> & E & _). rewrite E in Hp.
    destruct (Hpa id' y a Hy Hp) as (Hlt & Hu & c & Ha & Hr & Ho). split; [cbn; lia|]. split; [intros j ?%Hown; by apply Hu|].
    exists c. split_and!; try done. intros. by apply Hown, Ho.
  - intros id1 x1 id2 x2 a Hx1 Hx2 Hp1 Hp2. destruct (HS id1 x1 Hx1) as (y1 & Hy1 & _ & E1 & _).
    destruct (HS id2 x2 Hx2) as (y2 & Hy2 & _ & E2 & _). rewrite E1 in Hp1. rewrite E2 in Hp2. by apply (Hdi id1 y1 id2 y2 a).
Qed.

Lemma inv_signal id i todo waiters msg w :
  Inv w -> coordinator w = Signalling ((id, i) :: todo) waiters msg -> Inv (signal_one id i todo waiters msg w).
Proof.
  intros Hi Hc. unfold signal_one. destruct (streams w !! id) as [s|] eqn:Hs; [|by eapply inv_skip].
  by apply (inv_signalled_one id s i todo waiters msg w).
Qed.

(** *** Collecting *)

Lemma inv_collect ws1 e ws2 active c ack w :
  Inv w -> coordinator w = Collecting (ws1 ++ e :: ws2) active -> acks w !! snd e = Some c -> ack_ready c = Some ack ->
  Inv (collect_one ws1 e ws2 active ack w).
Proof.
  intros Hi Hc Hk Hack. destruct e as [i k]. cbn [snd] in *.
  pose proof (inv_nodup w Hi) as Hnd. rewrite Hc in Hnd. cbn [waiters_of] in Hnd.
  assert (Hne : forall j k', (j, k') ∈ ws1 ++ ws2 -> k' <> k).
  { intros j k' Hin ->. rewrite map_app in Hnd. cbn [map snd] in Hnd. rewrite <- Permutation_middle, <- map_app in Hnd.
    apply NoDup_cons in Hnd as [Hn _]. by apply Hn, (list_elem_of_fmap_2 snd _ (j, k)). }
  apply (inv_coordinator w); rewrite ?Hc; cbn [waiters_of actives_of fst snd]; try done.
  - by intros id' i' ?%not_elem_of_nil.
  - rewrite !map_app. cbn [map snd]. apply submseteq_app; [done|by apply submseteq_cons_r; left].
  - intros j k' Hin. split; [|by apply lookup_alter_ne, not_eq_sym, (Hne j)].
    apply elem_of_app in Hin as [?|?]; apply elem_of_app; [by left|by right; right].
  - intros k' c' Hk'. change (alter drop_rx k (acks w) !! k' = Some c') in Hk'. destruct (decide (k = k')) as [<-|Hd].
    + rewrite lookup_alter_eq, Hk in Hk'. injection Hk' as <-. exists c. by split_and!.
    + rewrite lookup_alter_ne in Hk' by done. exists c'. split_and!; try done. intros Hr. split; [done|].
      destruct (inv_acks w Hi k' c' Hk' Hr) as [j Hj]. rewrite Hc in Hj. exists j.
      apply elem_of_app in Hj as [?|[[= -> ->]|?]%elem_of_cons]; [by apply elem_of_app; left|done|by apply elem_of_app; right].
  - intros j a Hin. assert (Hold : (j, a) ∈ active -> owner w j a) by (intros ?; right; by rewrite Hc).
    unfold ack_ready in Hack. destruct (sent c) as [b|] eqn:Hsent.
    + injection Hack as <-. apply elem_of_app in Hin as [Hin|[= -> ->]%list_elem_of_singleton]; [by apply Hold|].
      left. exists k, c. split; [|done]. rewrite Hc. apply elem_of_app. right. by left.
    + destruct (tx c); [done|]. injection Hack as <-. by apply Hold.
  - intros id s a c0 Hs Hp Ha Hr Ho. exists c0. split_and!; try done. intros Hn Ht.
    destruct (Ho Hn Ht) as [(k' & c' & Hin & Hk' & Hsent)|Hin]; rewrite Hc in Hin; cbn [waiters_of actives_of] in Hin.
    2: { right. cbn. destruct ack; [by apply elem_of_app; left|done]. }
    destruct (decide (k = k')) as [<-|Hd].
    + right. rewrite Hk in Hk'. injection Hk' as <-. unfold ack_ready in Hack. rewrite Hsent in Hack. injection Hack as <-.
      cbn. apply elem_of_app. right. apply list_elem_of_singleton. f_equal.
      apply (NoDup_snd_functional (ws1 ++ (i, k) :: ws2) k); [done|done|]. apply elem_of_app. right. by left.
    + left. exists k', c'. cbn. split; [|by rewrite lookup_alter_ne].
      apply elem_of_app in Hin as [?|[[= -> ->]|?]%elem_of_cons]; [by apply elem_of_app; left|done|by apply elem_of_app; right].
Qed.

(** *** The end of the collection *)

Lemma drop_waiters_fields l w :
  streams (foldl drop_waiter w l) = streams w /\ next_stream (foldl drop_waiter w l) = next_stream w /\
  next_channel (foldl drop_waiter w l) = next_channel w /\ coordinator (foldl drop_waiter w l) = coordinator w /\
  registry (foldl drop_waiter w l) = registry w /\ transitions (foldl drop_waiter w l) = transitions w.
Proof.
  revert w. induction l as [|e l IH]; intros w; [done|]. cbn [foldl].
  destruct (IH (drop_waiter w e)) as (-> & -> & -> & -> & -> & ->). unfold drop_waiter.
  destruct (acks w !! snd e) as [c|]; [|done]. by destruct (sent c).
Qed.

Lemma drop_waiters_acks l w k :
  acks (foldl drop_waiter w l) !! k = if decide (k ∈ map snd l) then drop_rx <$> acks w !! k else acks w !! k.
Proof.
  revert w. induction l as [|[i k'] l IH]; intros w; [done|]. cbn [foldl map snd]. rewrite IH.
  assert (E : acks (drop_waiter w (i, k')) !! k = if decide (k = k') then drop_rx <$> acks w !! k else acks w !! k).
  { unfold drop_waiter. cbn [snd]. destruct (acks w !! k') as [c|] eqn:Ek; [|destruct (decide (k = k')) as [->|]; by rewrite ?Ek].
    assert (Hk : acks (with_acks <[k' := drop_rx c]> w) !! k = if decide (k = k') then drop_rx <$> acks w !! k else acks w !! k).
    { cbn. destruct (decide (k = k')) as [->|?]; [by rewrite lookup_insert_eq, Ek|by rewrite lookup_insert_ne]. }
    by destruct (sent c). }
  rewrite E. destruct (decide (k = k')) as [->|Hne].
  - destruct (decide (k' ∈ k' :: map snd l)) as [_|[]]; [|by left].
    destruct (decide (k' ∈ map snd l)); [by destruct (acks w !! k')|done].
  - destruct (decide (k ∈ map snd l)) as [Hin|Hn]; destruct (decide (k ∈ k' :: map snd l)) as [Hin'|Hn']; [done|..|done].
    + destruct Hn'. by right.
    + by apply elem_of_cons in Hin' as [?|?].
Qed.

Lemma drop_waiters_actions l w a :
  NoDup (map snd l) ->
  (actions (foldl drop_waiter w l) !! a = actions w !! a /\
   (forall i k c, (i, k) ∈ l -> acks w !! k = Some c -> sent c <> Some a)) \/
  actions (foldl drop_waiter w l) !! a = drop_tx <$> actions w !! a.
Proof.
  revert w. induction l as [|[i k] l IH]; intros w; cbn [foldl map snd]; [by left; split; [|intros ??? ?%not_elem_of_nil]|].
  intros [Hn Hd]%NoDup_cons. set (w1 := drop_waiter w (i, k)).
  assert (Hacks : forall j k', (j, k') ∈ l -> acks w1 !! k' = acks w !! k').
  { intros j k' Hin. pose proof (drop_waiters_acks [(i, k)] w k') as E. cbn [foldl map snd] in E. rewrite decide_False in E; [done|].
    intros ->%list_elem_of_singleton. by apply Hn, (list_elem_of_fmap_2 snd _ (j, k)). }
  assert (H1' : actions w1 !! a = actions w !! a /\ (forall c, acks w !! k = Some c -> sent c <> Some a) \/
               actions w1 !! a = drop_tx <$> actions w !! a).
  { unfold w1, drop_waiter. cbn [snd]. destruct (acks w !! k) as [c|]; [|by left]. destruct (sent c) as [b|] eqn:Hs.
    - cbn. destruct (decide (b = a)) as [->|Hne]; [right; apply lookup_alter_eq|left].
      rewrite lookup_alter_ne by done. split; [done|]. intros ? [= <-]. congruence.
    - left. split; [done|]. intros ? [= <-]. congruence. }
  destruct (IH w1 Hd) as [[-> Hl]| ->]; destruct H1' as [[-> Hk]| ->]; [left|by right..|].
  - split; [done|]. intros j k' c [[= -> ->]|Hin]%elem_of_cons; [apply Hk|]. intros Hc. apply (Hl j k' c Hin). by rewrite (Hacks j).
  - right. by destruct (actions w !! a).
Qed.

Lemma handle_of_parts active running : active_of (handle_of active running) = active /\ running_of (handle_of active running) = running.
Proof. by destruct active, running. Qed.

Lemma inv_finish waiters active w : Inv w -> coordinator w = Collecting waiters active -> Inv (finish waiters active w).
Proof.
  intros Hi Hc. unfold finish, with_coordinator.
  destruct (drop_waiters_fields waiters w) as (-> & -> & -> & _ & -> & ->).
  pose proof (inv_nodup w Hi) as Hnd. rewrite Hc in Hnd. cbn [waiters_of] in Hnd.
  apply (inv_coordinator w); cbn [todo_of waiters_of actives_of]; try done.
  - by intros id i ?%not_elem_of_nil.
  - apply submseteq_nil_l.
  - by intros i k ?%not_elem_of_nil.
  - intros k c Hk. rewrite drop_waiters_acks in Hk. destruct (decide (k ∈ map snd waiters)) as [Hin|Hn].
    + destruct (acks w !! k) as [c0|]; [|done]. injection Hk as <-. exists c0. by split_and!.
    + exists c. split_and!; try done. intros Hr. destruct (inv_acks w Hi k c Hk Hr) as [i Hin]. rewrite Hc in Hin.
      destruct Hn. by apply (list_elem_of_fmap_2 snd _ (i, k)).
  - intros i a Hin. right. rewrite Hc. by rewrite (proj1 (handle_of_parts active (map fst waiters))) in Hin.
  - intros id s a c Hs Hp Ha Hr Ho. destruct (drop_waiters_actions waiters w a Hnd) as [[E Hnone]|E].
    + exists c. rewrite E. split_and!; try done. intros Hn Ht. right. cbn. rewrite (proj1 (handle_of_parts _ _)).
      destruct (Ho Hn Ht) as [(k & c' & Hin & Hk & Hsent)|Hin]; rewrite Hc in Hin; [|done]. by destruct (Hnone (identity s) k c').
    + exists (drop_tx c). rewrite E, Ha. by split_and!.
Qed.

(** *** The end of an arbitration *)

(** What settles the channels the handle holds may end the arbitration. *)
Lemma inv_settle w h A r :
  Inv w -> coordinator w = Holding h ->
  (forall a c, actions w !! a = Some c -> rx c = true -> exists c1, A !! a = Some c1 /\ rx c1 = true /\
    (sent c1 = None -> tx c1 = true -> sent c = None /\ tx c = true /\ forall i, ~ (i, a) ∈ active_of h)) ->
  Inv {| streams := streams w; next_stream := next_stream w; acks := acks w; actions := A; next_channel := next_channel w;
         coordinator := Idle; registry := r; transitions := transitions w |}.
Proof.
  intros Hi Hc HA. apply (inv_coordinator w); cbn [todo_of waiters_of actives_of]; try done.
  - by intros id i ?%not_elem_of_nil.
  - apply submseteq_nil_l.
  - by intros i k ?%not_elem_of_nil.
  - intros k c Hk. exists c. split_and!; try done. intros Hr. destruct (inv_acks w Hi k c Hk Hr) as [i Hin].
    rewrite Hc in Hin. by apply not_elem_of_nil in Hin.
  - by intros i a ?%not_elem_of_nil.
  - intros id s a c Hs Hp Ha Hr Ho. destruct (HA a c Ha Hr) as (c1 & Hc1 & Hr1 & Hh). exists c1. split_and!; try done.
    intros Hn Ht. destruct (Hh Hn Ht) as (Hn0 & Ht0 & Hnot).
    destruct (Ho Hn0 Ht0) as [(k & c' & Hin & _)|Hin]; rewrite Hc in Hin; [by apply not_elem_of_nil in Hin|by apply Hnot in Hin].
Qed.

Definition answer_of (abort : StreamIdentity -> bool) (i : StreamIdentity) : PauseAction := if abort i then Abort else Resume.
Lemma complete_one_actions abort w e :
  actions (complete_one abort w e) = alter (fun c => snd (send (answer_of abort (fst e)) c)) (snd e) (actions w).
Proof. unfold complete_one, answer_of. by destruct (abort (fst e)). Qed.

Lemma completed_actions abort l w a :
  actions (foldl (complete_one abort) w l) !! a =
  foldl (fun c e => if decide (snd e = a) then snd ∘ send (answer_of abort (fst e)) <$> c else c) (actions w !! a) l.
Proof.
  revert w. induction l as [|e l IH]; intros w; [done|]. cbn [foldl]. rewrite IH, complete_one_actions. f_equal.
  destruct (decide (snd e = a)) as [<-|?]; [by rewrite lookup_alter_eq|by apply lookup_alter_ne].
Qed.

Lemma complete_foldl_fields abort l w :
  streams (foldl (complete_one abort) w l) = streams w /\ next_stream (foldl (complete_one abort) w l) = next_stream w /\
  next_channel (foldl (complete_one abort) w l) = next_channel w /\ acks (foldl (complete_one abort) w l) = acks w /\
  transitions (foldl (complete_one abort) w l) = transitions w.
Proof.
  revert w. induction l as [|e l IH]; intros w; [done|]. cbn [foldl].
  destruct (IH (complete_one abort w e)) as (-> & -> & -> & -> & ->). unfold complete_one. by destruct (abort (fst e)).
Qed.

(** An open channel is answered when it is held, else untouched. *)
Lemma completed_open abort l a (c : Oneshot PauseAction) :
  rx c = true ->
  exists c1, foldl (fun c e => if decide (snd e = a) then snd ∘ send (answer_of abort (fst e)) <$> c else c) (Some c) l = Some c1 /\
    rx c1 = true /\ (sent c1 = None -> tx c1 = true -> sent c = None /\ tx c = true /\ forall i : StreamIdentity, ~ (i, a) ∈ l).
Proof.
  revert c. induction l as [|[i b] l IH]; intros c Hr; cbn [foldl fst snd].
  { exists c. split_and!; try done. intros Hn Ht. split_and!; try done. by intros i ?%not_elem_of_nil. }
  destruct (decide (b = a)) as [->|Hne].
  - change (snd ∘ send (answer_of abort i) <$> Some c) with (Some (snd (send (answer_of abort i) c))).
    destruct (IH (snd (send (answer_of abort i) c)) Hr) as (c1 & -> & Hr1 & Hh). exists c1. split_and!; try done.
    intros Hn Ht. by destruct (Hh Hn Ht) as (_ & ? & _).
  - destruct (IH c Hr) as (c1 & -> & Hr1 & Hh). exists c1. split_and!; try done. intros Hn Ht.
    destruct (Hh Hn Ht) as (? & ? & Hno). split_and!; try done. intros j [[= -> ->]|Hin]%elem_of_cons; [done|by apply (Hno j)].
Qed.

Lemma inv_complete abort h w : Inv w -> coordinator w = Holding h -> Inv (complete abort h w).
Proof.
  intros Hi Hc.
  assert (Hgo : forall r, Inv (with_coordinator Idle (foldl (complete_one abort) (with_registry r w) (active_of h)))).
  { intros r. unfold with_coordinator. destruct (complete_foldl_fields abort (active_of h) (with_registry r w)) as (-> & -> & -> & -> & ->).
    apply (inv_settle w h); [done|done|]. intros a c Ha Hr. rewrite completed_actions.
    destruct (completed_open abort (active_of h) a c Hr) as (c1 & E & ?). exists c1. cbn. by rewrite Ha. }
  pose proof (Hgo (fun r => r)) as Hsame. replace (with_registry (fun r => r) w) with w in Hsame by by destruct w.
  destruct h as [|l|l|l l']; [done|done|apply (Hgo (on_tokens _))|apply (Hgo (on_tokens _))].
Qed.

Lemma drop_all_actions (l : list (StreamIdentity * N)) (A : gmap N (Oneshot PauseAction)) a :
  foldl (fun m e => alter drop_tx (snd e) m) A l !! a = if decide (a ∈ map snd l) then drop_tx <$> A !! a else A !! a.
Proof.
  revert A. induction l as [|[i b] l IH]; intros A; [done|]. cbn [foldl map snd]. rewrite IH.
  destruct (decide (b = a)) as [->|Hne].
  - destruct (decide (a ∈ a :: map snd l)) as [_|[]]; [|by left]. rewrite lookup_alter_eq.
    destruct (decide (a ∈ map snd l)); [by destruct (A !! a)|done].
  - rewrite lookup_alter_ne by done.
    destruct (decide (a ∈ map snd l)) as [Hin|Hn]; destruct (decide (a ∈ b :: map snd l)) as [Hin'|Hn']; [done|..|done].
    + destruct Hn'. by right.
    + by apply elem_of_cons in Hin' as [?|?].
Qed.

Lemma inv_drop_handle h w : Inv w -> coordinator w = Holding h -> Inv (drop_handle h w).
Proof.
  intros Hi Hc. apply (inv_settle w h); [done|done|]. intros a c Ha Hr. cbn [actions with_actions]. rewrite drop_all_actions.
  destruct (decide (a ∈ map snd (active_of h))) as [Hin|Hn].
  - exists (drop_tx c). rewrite Ha. by split_and!.
  - exists c. split_and!; try done. intros Hs Ht. split_and!; try done. intros i Hin. by apply Hn, (list_elem_of_fmap_2 snd _ (i, a)).
Qed.

Lemma inv_abandon waiters active w :
  Inv w -> coordinator w = Collecting waiters active -> Inv (drop_handle (Active active) (finish waiters active w)).
Proof.
  intros Hi Hc. pose proof (inv_drop_handle _ _ (inv_finish waiters active w Hi Hc) eq_refl) as G.
  unfold drop_handle in *. by rewrite (proj1 (handle_of_parts active _)) in G.
Qed.

Lemma inv_step w w' : Inv w -> step w w' -> Inv w'.
Proof.
  intros Hi Hs. destruct Hs; eauto using inv_register, inv_poll, inv_pause, inv_answer, inv_manual, inv_end_manual, inv_drop_sink,
    inv_registry, inv_preempt, inv_signal, inv_signalled, inv_collect, inv_finish, inv_complete, inv_drop_handle, inv_abandon.
Qed.

Lemma inv_reachable r w : reachable r w -> Inv w.
Proof. induction 1; [apply inv_init|by eapply inv_step]. Qed.

End facts.
