(* ===== verification/PreemptionProps.v ===== *)
(** * Properties of preemption ([src/orchestrator/preemption.rs])

    No interleaving leaves a stream paused for good, and a decision reaches
    exactly the stream it was taken for. *)

From S2P Require Import Prelude Str TaskId Steer Pool Notice Registry RegistryView RegistryProps Preemption PreemptionFacts.
Local Open Scope nat_scope.

Section props.
Context `{Tokens} `{DashOrder} `{Unicode} `{StreamOrder}.
Implicit Types (w : World) (s : Sink) (i : StreamIdentity) (id a : N).

(** ** An arbitration always ends *)

(** The streams wait for what they waited for. *)
Definition still_waiting w w' : Prop := forall id s, streams w !! id = Some s ->
  exists s', streams w' !! id = Some s' /\ state s' = state s /\ identity s' = identity s.

Lemma still_waiting_eq w w' : streams w' = streams w -> still_waiting w w'.
Proof. intros E id s Hs. exists s. by rewrite E. Qed.
Lemma still_waiting_trans w1 w2 w3 : still_waiting w1 w2 -> still_waiting w2 w3 -> still_waiting w1 w3.
Proof.
  intros H12 H23 id s Hs. destruct (H12 id s Hs) as (s2 & Hs2 & E1 & E2). destruct (H23 id s2 Hs2) as (s3 & Hs3 & E3 & E4).
  exists s3. split; [done|]. split; congruence.
Qed.

Lemma holding_ends h w : coordinator w = Holding h ->
  exists w', rtc step w w' /\ coordinator w' = Idle /\ still_waiting w w'.
Proof.
  intros Hc. exists (complete_all h Resume w). split; [by apply rtc_once, step_complete_all|]. split; [done|].
  apply still_waiting_eq. unfold complete_all, complete. destruct h as [|l|l|l l']; [done|apply complete_foldl_fields|done|].
  apply (complete_foldl_fields _ l (complete_running _ l' w)).
Qed.

Lemma collecting_ends ws l w : coordinator w = Collecting ws l ->
  exists w', rtc step w w' /\ coordinator w' = Idle /\ still_waiting w w'.
Proof.
  intros Hc. destruct (holding_ends _ (finish ws l w) eq_refl) as (w' & Hr & Hi & Hw). exists w'.
  split; [by eapply rtc_l; [apply step_finish|]|]. split; [done|]. eapply still_waiting_trans; [|exact Hw].
  by apply still_waiting_eq, drop_waiters_fields.
Qed.

Lemma signalling_ends todo ws msg w : coordinator w = Signalling todo ws msg ->
  exists w', rtc step w w' /\ coordinator w' = Idle /\ still_waiting w w'.
Proof.
  revert ws w. induction todo as [|[id i] todo IH]; intros ws w Hc.
  - destruct (collecting_ends ws [] (with_coordinator (Collecting ws []) w) eq_refl) as (w' & Hr & ?).
    exists w'. split; [by eapply rtc_l; [by eapply step_signalled|]|done].
  - pose proof (step_signal id i todo ws msg w Hc) as Hstep.
    assert (Hsig : still_waiting w (signal_one id i todo ws msg w) /\
      exists ws', coordinator (signal_one id i todo ws msg w) = Signalling todo ws' msg).
    { unfold signal_one. destruct (streams w !! id) as [s|] eqn:Hs; [|split; [by apply still_waiting_eq|by eexists]].
      split; [|by eexists]. intros id' s' Hs'. cbn. destruct (decide (id = id')) as [<-|Hne].
      - rewrite lookup_insert_eq. eexists. split; [done|]. by rewrite Hs in Hs'; injection Hs' as ->.
      - rewrite lookup_insert_ne by done. by exists s'. }
    destruct Hsig as [Hw [ws' Hc']]. destruct (IH ws' _ Hc') as (w' & Hr & Hi & Hw').
    exists w'. split; [by eapply rtc_l|]. split; [done|]. by eapply still_waiting_trans.
Qed.

Lemma arbitration_ends w : exists w', rtc step w w' /\ coordinator w' = Idle /\ still_waiting w w'.
Proof.
  destruct (coordinator w) as [|todo ws msg|ws l|h] eqn:Hc; [|by eapply signalling_ends|by eapply collecting_ends|by eapply holding_ends].
  exists w. split; [done|]. split; [done|by apply still_waiting_eq].
Qed.

Lemma reachable_rtc r w w' : reachable r w -> rtc step w w' -> reachable r w'.
Proof. intros Hr Hs. induction Hs; [done|]. apply IHHs. by eapply reach_step. Qed.

(** Behind an arbitration that is over, every paused stream is answered. *)
Lemma idle_answerable r w id s a :
  reachable r w -> coordinator w = Idle -> streams w !! id = Some s -> state s = PausedOn a ->
  exists c action, actions w !! a = Some c /\ resume_action c = Some action.
Proof.
  intros Hr Hc Hs Hp. destruct (inv_paused w (inv_reachable r w Hr) id s a Hs Hp) as (_ & _ & c & Ha & _ & Ho).
  exists c. unfold resume_action. destruct (sent c) as [v|]; [by exists v|]. destruct (tx c); [|by exists Resume].
  destruct (Ho eq_refl eq_refl) as [(k & c' & Hin & _)|Hin]; rewrite Hc in Hin; by apply not_elem_of_nil in Hin.
Qed.

(** C19: no stream is left paused.  Wherever the streams, the registry and the
    arbitration stand, also when the deadline passed between a stream's
    acknowledgement and its collection, when a stream acknowledged late or
    when the arbitration was dropped, a stream that waits for an answer can
    still run on or be aborted. *)
Theorem paused_stream_runs_on r w id s a :
  reachable r w -> streams w !! id = Some s -> state s = PausedOn a ->
  exists w' s', rtc step w w' /\ streams w' !! id = Some s' /\ identity s' = identity s /\
    (state s' = Streaming \/ state s' = Aborted).
Proof.
  intros Hr Hs Hp. destruct (arbitration_ends w) as (w1 & Hw1 & Hc & Hk).
  destruct (Hk id s Hs) as (s1 & Hs1 & E & Hid). rewrite Hp in E.
  destruct (idle_answerable r w1 id s1 a (reachable_rtc r w w1 Hr Hw1) Hc Hs1 E) as (c & action & Ha & Hact).
  exists (on_answer id s1 a action w1), (set_state (after action) s1). split.
  - eapply rtc_r; [exact Hw1|]. by eapply step_answer.
  - split; [apply lookup_insert_eq|]. split; [done|]. destruct action; [by left|by right].
Qed.

(** ** A decision reaches its stream *)

(** The tokens a decision cancels, in order: those of the streams left running
    and of the paused ones that it addresses. *)
Definition decided_tokens (d : option SteerDecision) (h : PreemptHandle) : list Token :=
  omap cancel_token (List.filter (fun i => cancels_subtask i (cancel_subtasks_of d)) (running_of h ++ map fst (active_of h))).

Lemma cancel_all_tokens (abort : StreamIdentity -> bool) l ts :
  foldl (fun ts i => if abort i then cancel i ts else ts) ts l =
  foldl (fun ts t => token_cancel t ts) ts (omap cancel_token (List.filter abort l)).
Proof.
  revert ts. induction l as [|i l IH]; intros ts; [done|]. cbn [foldl List.filter]. rewrite IH.
  destruct (abort i); [|done]. unfold cancel. cbn [omap list_omap]. by destruct (cancel_token i).
Qed.

Lemma complete_foldl_tokens abort l w :
  token_store (registry (foldl (complete_one abort) w l)) =
  foldl (fun ts i => if abort i then cancel i ts else ts) (token_store (registry w)) (map fst l).
Proof.
  revert w. induction l as [|e l IH]; intros w; [done|]. cbn [foldl map]. rewrite IH. f_equal.
  unfold complete_one. by destruct (abort (fst e)).
Qed.

Lemma complete_tokens abort h w :
  token_store (registry (complete abort h w)) =
  foldl (fun ts i => if abort i then cancel i ts else ts) (token_store (registry w)) (running_of h ++ map fst (active_of h)).
Proof.
  destruct h as [|l|l|l l']; cbn [complete running_of active_of app map]; unfold with_coordinator; cbn [registry]; [done|..].
  - apply complete_foldl_tokens.
  - by rewrite app_nil_r.
  - rewrite foldl_app. apply (complete_foldl_tokens _ l (complete_running _ l' w)).
Qed.

Lemma complete_actions abort h w a :
  actions (complete abort h w) !! a =
  foldl (fun c e => if decide (snd e = a) then snd ∘ send (answer_of abort (fst e)) <$> c else c) (actions w !! a) (active_of h).
Proof.
  destruct h as [|l|l|l l']; [done|apply completed_actions|done|].
  apply (completed_actions abort l (complete_running abort l' w)).
Qed.

(** Every holder of a channel decides the same, so the last answer is the answer. *)
Lemma completed_answer abort i a l (c : Oneshot PauseAction) :
  rx c = true -> (sent c = None \/ sent c = Some (answer_of abort i)) ->
  (forall j, (j, a) ∈ l -> j = i) -> (sent c = None -> (i, a) ∈ l) ->
  exists c1, foldl (fun c e => if decide (snd e = a) then snd ∘ send (answer_of abort (fst e)) <$> c else c) (Some c) l = Some c1 /\
    resume_action c1 = Some (answer_of abort i).
Proof.
  revert c. induction l as [|[j b] l IH]; intros c Hr Hs Hu Hin; cbn [foldl fst snd].
  - exists c. split; [done|]. unfold resume_action. destruct Hs as [Hn| ->]; [by apply Hin, not_elem_of_nil in Hn|done].
  - destruct (decide (b = a)) as [->|Hne].
    + assert (j = i) as -> by (apply Hu; by left).
      change (snd ∘ send (answer_of abort i) <$> Some c) with (Some (snd (send (answer_of abort i) c))).
      apply IH; cbn [send snd sent rx]; rewrite ?Hr; [done|by right|intros j Hj; apply Hu; by right|done].
    + apply IH; [done|done|intros k Hk; apply Hu; by right|].
      intros Hn. specialize (Hin Hn). apply elem_of_cons in Hin as [[= -> ->]|Hin]; [done|done].
Qed.

(** C20: a steering decision is applied to the streams it addresses, each by
    its own identity.  A paused stream that waits for this decision gets the
    abort exactly when one of the cancelled subtasks names it, and else runs
    on, whatever order the acknowledgements arrived in; and the tokens that
    are cancelled are those of the held streams the decision names, also of
    those that never acknowledged. *)
Theorem decision_reaches_its_stream r w h d :
  reachable r w -> coordinator w = Holding h ->
  let w' := complete_with_subtask_decision h d w in
  (forall id s a c, streams w !! id = Some s -> state s = PausedOn a -> actions w !! a = Some c -> resume_action c = None ->
     exists c', actions w' !! a = Some c' /\
       resume_action c' = Some (if cancels_subtask (identity s) (cancel_subtasks_of d) then Abort else Resume)) /\
  token_store (registry w') = foldl (fun ts t => token_cancel t ts) (token_store (registry w)) (decided_tokens d h).
Proof.
  intros Hr Hc w'. split.
  - intros id s a c Hs Hp Ha Hopen. unfold w', complete_with_subtask_decision. rewrite complete_actions, Ha.
    destruct (inv_paused w (inv_reachable r w Hr) id s a Hs Hp) as (_ & Hu & c0 & Ha0 & Hrx & Ho).
    rewrite Ha in Ha0. injection Ha0 as <-. unfold resume_action in Hopen.
    destruct (sent c) as [v|] eqn:Hsent; [done|]. destruct (tx c) eqn:Htx; [|done].
    apply (completed_answer (fun i => cancels_subtask i (cancel_subtasks_of d)) (identity s) a); [done|by left|intros j Hj; apply Hu; right; by rewrite Hc|].
    intros _. destruct (Ho eq_refl eq_refl) as [(k & c' & Hin & _)|Hin]; rewrite Hc in Hin; [by apply not_elem_of_nil in Hin|done].
  - unfold w', complete_with_subtask_decision. by rewrite complete_tokens, cancel_all_tokens.
Qed.

End props.

(** ** Witnesses *)

#[local] Existing Instance counted_tokens.
#[local] Existing Instance gmap_order.
#[local] Existing Instance ascii_tables.
#[local] Instance map_order : StreamOrder :=
  {| stream_iter A m := map_to_list m; stream_iter_perm A m := reflexivity _ |}.

(** Two streams of one model; the first acknowledges, the second never does. *)
Definition sink_at (id : N) (w : World) : Sink :=
  default {| identity := inferred_identity [] None None None; sink_model := []; pause_rx := []; state := Streaming |} (streams w !! id).
Definition w_two : World :=
  snd (register_full (lit "tester-t-2") (Some (lit "tester")) (Some (lit "t-2")) (Some 2) (lit "m")
    (snd (register_full (lit "coder-t-1") (Some (lit "coder")) (Some (lit "t-1")) (Some 1) (lit "m") (initial_world (initial_registry no_tokens))))).
Definition signal_next (w : World) : World :=
  match coordinator w with Signalling ((id, i) :: todo) ws msg => signal_one id i todo ws msg w | _ => w end.
Definition w_signalled : World :=
  let w := signal_next (signal_next (preempt_streams false (lit "m") (lit "stop") w_two)) in
  match coordinator w with Signalling [] ws _ => with_coordinator (Collecting ws []) w | _ => w end.
Definition w_polled : World := snd (poll_control 1 (sink_at 1 w_signalled) w_signalled).
Definition signal_of (s : Sink) : PauseSignal := match state s with Pausing p => p | _ => {| user_input := []; yielded_tx := 0 |} end.
Definition w_paused : World := snd (on_pause 1 (sink_at 1 w_polled) (signal_of (sink_at 1 w_polled)) w_polled).
(** The acknowledgement is collected, then the deadline passes. *)
Definition collect_last (w : World) : World :=
  match coordinator w with
  | Collecting [e1; e2] active =>
      match acks w !! snd e2 ≫= ack_ready with Some ack => collect_one [e1] e2 [] active ack w | None => w end
  | _ => w
  end.
Definition w_collected : World := collect_last w_paused.
Definition w_held : World :=
  match coordinator w_collected with Collecting ws active => finish ws active w_collected | _ => w_collected end.
Definition held_by (w : World) : PreemptHandle := match coordinator w with Holding h => h | _ => NoHandle end.

Lemma signal_next_reached r w : reachable r w -> reachable r (signal_next w).
Proof.
  intros Hw. unfold signal_next. destruct (coordinator w) as [|[|[id i] todo] ws msg|ws l|h] eqn:Hc; try done.
  by eapply reach_step, step_signal.
Qed.
Lemma signalled_reached : reachable (initial_registry no_tokens) w_signalled.
Proof.
  unfold w_signalled. set (w := signal_next _).
  assert (Hw : reachable (initial_registry no_tokens) w).
  { apply signal_next_reached, signal_next_reached. eapply reach_step; [|by apply step_preempt].
    do 2 (eapply reach_step; [|apply step_register]). apply reach_init. }
  destruct (coordinator w) as [|[|] ws msg|ws l|h] eqn:Hc; try done. by eapply reach_step, step_signalled.
Qed.
Lemma paused_reached : reachable (initial_registry no_tokens) w_paused.
Proof.
  eapply reach_step; [eapply reach_step; [apply signalled_reached|]|].
  - refine (step_poll 1 (sink_at 1 w_signalled) w_signalled _ _); by vm_compute.
  - refine (step_pause 1 (sink_at 1 w_polled) (signal_of (sink_at 1 w_polled)) w_polled _ _); by vm_compute.
Qed.
Lemma collect_last_reached r w : reachable r w -> reachable r (collect_last w).
Proof.
  intros Hw. unfold collect_last. destruct (coordinator w) as [| |[|e1 [|e2 [|]]] active|] eqn:E; try done.
  destruct (acks w !! snd e2) as [c|] eqn:Hk; [|done]. cbn [mbind option_bind]. destruct (ack_ready c) as [ack|] eqn:Hack; [|done].
  eapply reach_step; [exact Hw|]. by eapply (step_collect [e1] e2 []).
Qed.
Lemma held_reached : reachable (initial_registry no_tokens) w_held.
Proof.
  assert (Hc : reachable (initial_registry no_tokens) w_collected) by exact (collect_last_reached _ _ paused_reached).
  unfold w_held. generalize w_collected, Hc. intros w Hw.
  destruct (coordinator w) as [| |ws active|] eqn:E; try done. by eapply reach_step, step_finish.
Qed.

Lemma held_is : coordinator w_held = Holding (held_by w_held).
Proof. vm_cast_no_check (@eq_refl Coordinator (coordinator w_held)). Qed.
Lemma first_paused : state (sink_at 1 w_paused) = PausedOn 2 /\ streams w_paused !! 1%N = Some (sink_at 1 w_paused).
Proof.
  split; [vm_cast_no_check (@eq_refl SinkState (PausedOn 2))|vm_cast_no_check (@eq_refl (option Sink) (streams w_paused !! 1%N))].
Qed.

Definition cancel_coder : SteerDecision :=
  {| decision := lit "None"; response := None; tier := None; model := None;
     subtasks := [{| tool_call_id := lit "t-1"; action := lit "cancel"; st_message := None; st_agent_name := None;
                     st_prompt := None; st_sleep_seconds := None; st_share_with_orchestrator := None |}];
     sleep_seconds := None; share_with_orchestrator := None; orchestrator_note := None |}.

Lemma paused_stream_runs_on_witness :
  state (sink_at 1 w_paused) = PausedOn 2 /\
  exists w' s', rtc step w_paused w' /\ streams w' !! 1%N = Some s' /\ identity s' = identity (sink_at 1 w_paused) /\
    (state s' = Streaming \/ state s' = Aborted).
Proof.
  split; [exact (proj1 first_paused)|].
  exact (paused_stream_runs_on (initial_registry no_tokens) w_paused 1%N (sink_at 1 w_paused) 2%N
    paused_reached (proj2 first_paused) (proj1 first_paused)).
Defined.

(** The stream that acknowledged is told to abort and its token is cancelled;
    the one that did not is left running. *)
Lemma decision_reaches_its_stream_witness :
  let w' := complete_with_subtask_decision (held_by w_held) (Some cancel_coder) w_held in
  (forall id s a c, streams w_held !! id = Some s -> state s = PausedOn a -> actions w_held !! a = Some c -> resume_action c = None ->
     exists c', actions w' !! a = Some c' /\
       resume_action c' = Some (if cancels_subtask (identity s) (cancel_subtasks_of (Some cancel_coder)) then Abort else Resume)) /\
  token_store (registry w') = foldl (fun ts t => token_cancel t ts) (token_store (registry w_held))
    (decided_tokens (Some cancel_coder) (held_by w_held)).
Proof.
  exact (decision_reaches_its_stream (initial_registry no_tokens) w_held (held_by w_held) (Some cancel_coder) held_reached held_is).
Defined.
Example coder_aborted :
  length (running_of (held_by w_held)) = 1 /\
  (actions (complete_with_subtask_decision (held_by w_held) (Some cancel_coder) w_held) !! 2%N ≫= resume_action) = Some Abort /\
  decided_tokens (Some cancel_coder) (held_by w_held) = [1].
Proof. by vm_compute. Qed.
