(* ===== verification/Json.v ===== *)
(** * JSON values

    serde_json's [Value] by the constructors of its enum, which the sources
    match on.  Its map, a [BTreeMap], is the list of its entries in key order.
    Numbers are a parameter. *)

From S2P Require Import Prelude Str Pool.
Local Open Scope nat_scope.

Class Numbers := { Number : Type; number_eqb : Number -> Number -> bool }.

Section values.
Context `{Numbers}.

Inductive Value :=
  | VNull
  | VBool (b : bool)
  | VNumber (n : Number)
  | VString (s : str)
  | VArray (items : list Value)
  | VObject (map : list (str * Value)).

Section equal.
Context (eqb : Number -> Number -> bool).
Fixpoint value_eqb_by (a b : Value) {struct a} : bool :=
  match a, b with
  | VNull, VNull => true
  | VBool x, VBool y => Bool.eqb x y
  | VNumber x, VNumber y => eqb x y
  | VString x, VString y => str_eqb x y
  | VArray xs, VArray ys =>
      (fix items xs ys := match xs, ys with
                          | [], [] => true
                          | x :: xs', y :: ys' => value_eqb_by x y && items xs' ys'
                          | _, _ => false
                          end) xs ys
  | VObject xs, VObject ys =>
      (fix entries xs ys := match xs, ys with
                            | [], [] => true
                            | (k, x) :: xs', (l, y) :: ys' => str_eqb k l && value_eqb_by x y && entries xs' ys'
                            | _, _ => false
                            end) xs ys
  | _, _ => false
  end.
End equal.
(** [==], and equality up to the numbers. *)
Definition value_eqb : Value -> Value -> bool := value_eqb_by number_eqb.
Definition alike : Value -> Value -> bool := value_eqb_by (fun _ _ => true).

(** How deep arrays and maps nest. *)
Fixpoint depth (v : Value) : nat :=
  match v with
  | VArray items => S ((fix all l := match l with [] => 0 | x :: l' => Nat.max (depth x) (all l') end) items)
  | VObject map => S ((fix all l := match l with [] => 0 | (_, x) :: l' => Nat.max (depth x) (all l') end) map)
  | _ => 0
  end.

(** ** The map *)

Definition map_get (m : list (str * Value)) (key : str) : option Value :=
  snd <$> find_first (fun e => str_eqb (fst e) key) m.
Definition map_remove (m : list (str * Value)) (key : str) : list (str * Value) :=
  List.filter (fun e => negb (str_eqb (fst e) key)) m.
(** [insert]: in key order, replacing the value of the key. *)
Fixpoint map_insert (m : list (str * Value)) (key : str) (v : Value) : list (str * Value) :=
  match m with
  | [] => [(key, v)]
  | (k, x) :: m' =>
      if str_eqb k key then (key, v) :: m'
      else if str_leb key k then (key, v) :: m
      else (k, x) :: map_insert m' key v
  end.
(** [entry(key).or_insert(v)] *)
Definition map_or_insert (m : list (str * Value)) (key : str) (v : Value) : list (str * Value) :=
  match map_get m key with Some _ => m | None => map_insert m key v end.

Definition as_str (v : Value) : option str := match v with VString s => Some s | _ => None end.
Definition as_object (v : Value) : option (list (str * Value)) := match v with VObject m => Some m | _ => None end.
(** [Value::get] with a text: absent unless the value is an object. *)
Definition value_get (args : Value) (key : str) : option Value := as_object args ≫= fun m => map_get m key.
(** [get(a).or_else(|| get(b))…and_then(as_str)]: the first name that is
    present decides, whatever its value is. *)
Definition first_present (args : Value) (keys : list str) : option str :=
  find_map (value_get args) keys ≫= as_str.

(** ** Text *)

(** A value of the enum holds its keys in order, each once. *)
Definition keys_ascend (m : list (str * Value)) : Prop :=
  StronglySorted (fun k l => str_leb k l = true /\ k <> l) (map fst m).
Fixpoint canonical (v : Value) : Prop :=
  match v with
  | VArray items => (fix all l := match l with [] => True | x :: l' => canonical x /\ all l' end) items
  | VObject m =>
      keys_ascend m /\ (fix all l := match l with [] => True | (_, x) :: l' => canonical x /\ all l' end) m
  | _ => True
  end.

(** ** Facts *)

Lemma map_get_insert m key v : map_get (map_insert m key v) key = Some v.
Proof.
  unfold map_get. induction m as [|[k x] m IH]; cbn [map_insert find_first fst]; [by rewrite str_eqb_refl|].
  destruct (str_eqb k key) eqn:E; cbn [find_first fst]; [by rewrite str_eqb_refl|].
  destruct (str_leb key k); cbn [find_first fst]; [by rewrite str_eqb_refl|by rewrite E].
Qed.
Lemma map_get_insert_ne m key v k : k <> key -> map_get (map_insert m key v) k = map_get m k.
Proof.
  intros Hne. assert (Ek : str_eqb key k = false) by (apply not_true_iff_false; rewrite str_eqb_eq; congruence).
  unfold map_get. induction m as [|[l x] m IH]; cbn [map_insert find_first fst]; [by rewrite Ek|].
  destruct (str_eqb l key) eqn:E; cbn [find_first fst].
  - apply str_eqb_eq in E as ->. by rewrite Ek.
  - destruct (str_leb key l); cbn [find_first fst]; [by rewrite Ek|]. by destruct (str_eqb l k).
Qed.
Lemma map_get_remove m key k : map_get (map_remove m key) k = if str_eqb key k then None else map_get m k.
Proof.
  unfold map_get, map_remove. induction m as [|[l x] m IH]; cbn [List.filter find_first fst]; [by destruct (str_eqb key k)|].
  destruct (str_eqb l key) eqn:E; cbn [negb find_first fst].
  - apply str_eqb_eq in E as ->. rewrite IH. by destruct (str_eqb key k).
  - destruct (str_eqb l k) eqn:El; [|done]. apply str_eqb_eq in El as ->.
    destruct (str_eqb key k) eqn:Ek; [|done]. apply str_eqb_eq in Ek as ->. by rewrite str_eqb_refl in E.
Qed.
Lemma alike_object m v : alike (VObject m) v = true -> exists m', v = VObject m' /\
  forall key, map_get m key ≫= as_str = map_get m' key ≫= as_str.
Proof.
  destruct v as [| | | | |m']; try done. intros Ha. exists m'. split; [done|]. intros key.
  revert m' Ha. induction m as [|[k x] m IH]; intros [|[l y] m'] Ha; try done.
  change (str_eqb k l && alike x y && alike (VObject m) (VObject m') = true) in Ha.
  apply andb_true_iff in Ha as [[Hk Hx]%andb_true_iff Hm]. apply str_eqb_eq in Hk as <-. apply IH in Hm.
  unfold map_get in *. cbn [find_first fst]. destruct (str_eqb k key); [|done]. cbn [fmap option_fmap option_map snd mbind option_bind].
  destruct x, y; try done. cbn [as_str]. f_equal. by apply str_eqb_eq.
Qed.
End values.

(** [from_str], [to_string], and how deep a text may nest to be read. *)
Class JsonText `{Numbers} := { from_json : str -> option Value; to_json : Value -> str; depth_limit : nat }.
(** What they promise: a value read is one the enum can hold, within the limit;
    a printed value within it is read back, up to the rounding of numbers; an
    object is printed from brace to brace. *)
Class JsonTextLaw `{JsonText} := {
  from_json_canonical : forall s v, from_json s = Some v -> canonical v /\ depth v <= depth_limit;
  from_json_empty : from_json (lit "{}") = Some (VObject []);
  from_to_json : forall v, canonical v -> depth v <= depth_limit -> exists v', from_json (to_json v) = Some v' /\ alike v v' = true;
  to_json_object : forall m, exists s, to_json (VObject m) = [ch "{"] ++ s ++ [ch "}"];
  depth_limit_pos : 1 <= depth_limit
}.

(** ** A JSON codec for the witnesses *)

#[local] Instance demo_numbers : Numbers := {| Number := N; number_eqb := N.eqb |}.

Fixpoint put_str (s : str) : str := match s with [] => [ch ";"] | c :: s' => ch "." :: c :: put_str s' end.
Fixpoint put (v : Value) : str :=
  match v with
  | VNull => [ch "n"]
  | VBool b => [if b then ch "t" else ch "f"]
  | VNumber n => [ch "#"; n]
  | VString s => ch "s" :: put_str s
  | VArray items => ch "[" :: (fix all l := match l with [] => [ch "]"] | x :: l' => ch "," :: put x ++ all l' end) items
  | VObject map => ch "{" :: (fix all l := match l with [] => [ch "}"] | (k, x) :: l' => ch "," :: put_str k ++ put x ++ all l' end) map
  end.

Fixpoint take_str (s : str) : option (str * str) :=
  match s with
  | c :: s' => if (c =? ch ";")%N then Some ([], s')
               else match s' with d :: s'' => '(t, rest) ← take_str s''; Some (d :: t, rest) | [] => None end
  | [] => None
  end.
(** [want] says what is read: a value, or the rest of a list or of a map. *)
Inductive want := AValue | Items | Entries.
Inductive got := GotValue (v : Value) | GotItems (l : list Value) | GotEntries (m : list (str * Value)).
Fixpoint take_json (fuel : nat) (w : want) (s : str) : option (got * str) :=
  match fuel with
  | 0 => None
  | S k =>
      match w, s with
      | AValue, c :: s' =>
          if (c =? ch "n")%N then Some (GotValue VNull, s')
          else if (c =? ch "t")%N then Some (GotValue (VBool true), s')
          else if (c =? ch "f")%N then Some (GotValue (VBool false), s')
          else if (c =? ch "#")%N then match s' with n :: r => Some (GotValue (VNumber n), r) | [] => None end
          else if (c =? ch "s")%N then '(t, r) ← take_str s'; Some (GotValue (VString t), r)
          else if (c =? ch "[")%N then
            match take_json k Items s' with Some (GotItems l, r) => Some (GotValue (VArray l), r) | _ => None end
          else if (c =? ch "{")%N then
            match take_json k Entries s' with Some (GotEntries m, r) => Some (GotValue (VObject m), r) | _ => None end
          else None
      | Items, c :: s' =>
          if (c =? ch "]")%N then Some (GotItems [], s')
          else match take_json k AValue s' with
               | Some (GotValue v, r) => match take_json k Items r with Some (GotItems l, r') => Some (GotItems (v :: l), r') | _ => None end
               | _ => None
               end
      | Entries, c :: s' =>
          if (c =? ch "}")%N then Some (GotEntries [], s')
          else '(key, r0) ← take_str s';
               match take_json k AValue r0 with
               | Some (GotValue v, r) => match take_json k Entries r with Some (GotEntries m, r') => Some (GotEntries ((key, v) :: m), r') | _ => None end
               | _ => None
               end
      | _, [] => None
      end
  end.

Fixpoint ascendb (keys : list str) : bool :=
  match keys with
  | [] => true
  | k :: keys' => forallb (fun l => str_leb k l && negb (str_eqb k l)) keys' && ascendb keys'
  end.
Fixpoint canonicalb (v : Value) : bool :=
  match v with
  | VArray items => (fix all l := match l with [] => true | x :: l' => canonicalb x && all l' end) items
  | VObject m => ascendb (map fst m) && (fix all l := match l with [] => true | (_, x) :: l' => canonicalb x && all l' end) m
  | _ => true
  end.
Definition parse (s : str) : option Value :=
  match take_json (S (length s)) AValue s with
  | Some (GotValue v, []) => if canonicalb v && (depth v <=? 127) then Some v else None
  | _ => None
  end.
#[local] Instance demo_json : JsonText := {| from_json s := if str_eqb s (lit "{}") then Some (VObject []) else parse s; to_json := put; depth_limit := 127 |}.

(** ** Its laws *)

Lemma ascendb_spec keys : ascendb keys = true <-> StronglySorted (fun k l => str_leb k l = true /\ k <> l) keys.
Proof.
  induction keys as [|k keys IH]; cbn [ascendb]; [split; [constructor|done]|].
  rewrite andb_true_iff, IH. split.
  - intros [Hf Hs]. constructor; [done|]. apply Forall_forall. intros l Hl.
    rewrite forallb_forall in Hf. apply list_elem_of_In in Hl. apply Hf, andb_true_iff in Hl as [? Hn].
    split; [done|]. intros ->. by rewrite str_eqb_refl in Hn.
  - inversion 1 as [|? ? Hs Hf]; subst. split; [|done]. apply forallb_forall. intros l Hl%list_elem_of_In.
    rewrite Forall_forall in Hf. apply Hf in Hl as [-> Hn]. cbn [andb]. apply negb_true_iff, not_true_iff_false. by rewrite str_eqb_eq.
Qed.

(** Values by their size, which the nested lists need. *)
Fixpoint size (v : Value) : nat :=
  match v with
  | VArray items => S ((fix all l := match l with [] => 0 | x :: l' => S (size x + all l') end) items)
  | VObject m => S ((fix all l := match l with [] => 0 | (_, x) :: l' => S (size x + all l') end) m)
  | _ => 1
  end.
Definition size_items : list Value -> nat := fix all l := match l with [] => 0 | x :: l' => S (size x + all l') end.
Definition size_entries : list (str * Value) -> nat := fix all l := match l with [] => 0 | (_, x) :: l' => S (size x + all l') end.

Lemma canonicalb_spec n : forall v, size v < n -> canonicalb v = true <-> canonical v.
Proof.
  induction n as [|n IH]; intros v Hn; [lia|]. destruct v as [| | | |items|m]; cbn [canonicalb canonical]; try done.
  - change (S (size_items items) < S n) in Hn. induction items as [|x items IHl]; [done|].
    change (S (S (size x + size_items items)) < S n) in Hn. rewrite andb_true_iff, IH by lia. rewrite IHl by lia. done.
  - unfold keys_ascend. rewrite andb_true_iff, ascendb_spec. change (S (size_entries m) < S n) in Hn.
    enough (E : (fix all l := match l with [] => true | (_, x) :: l' => canonicalb x && all l' end) m = true <->
      (fix all l := match l with [] => True | (_, x) :: l' => canonical x /\ all l' end) m) by by rewrite E.
    induction m as [|[k x] m IHl]; [done|].
    change (S (S (size x + size_entries m)) < S n) in Hn. rewrite andb_true_iff, IH by lia. rewrite IHl by lia. done.
Qed.

Lemma take_put_str s rest : take_str (put_str s ++ rest) = Some (s, rest).
Proof. induction s as [|c s IH]; cbn; [done|]. by rewrite IH. Qed.

Definition put_items : list Value -> str := fix all l := match l with [] => [ch "]"] | x :: l' => ch "," :: put x ++ all l' end.
Definition put_entries : list (str * Value) -> str :=
  fix all l := match l with [] => [ch "}"] | (k, x) :: l' => ch "," :: put_str k ++ put x ++ all l' end.
Lemma take_put n :
  (forall v rest, size v < n -> take_json n AValue (put v ++ rest) = Some (GotValue v, rest)) /\
  (forall l rest, size_items l < n -> take_json n Items (put_items l ++ rest) = Some (GotItems l, rest)) /\
  (forall m rest, size_entries m < n -> take_json n Entries (put_entries m ++ rest) = Some (GotEntries m, rest)).
Proof.
  induction n as [|n (IHv & IHl & IHm)]; [split_and!; intros; lia|]. split_and!.
  - intros v rest Hn. destruct v as [|[]| |s|items|m]; try reflexivity.
    + change (take_json (S n) AValue (put (VString s) ++ rest)) with ('(t, r) ← take_str (put_str s ++ rest); Some (GotValue (VString t), r)).
      by rewrite take_put_str.
    + change (S (size_items items) < S n) in Hn.
      change (take_json (S n) AValue (put (VArray items) ++ rest)) with
        (match take_json n Items (put_items items ++ rest) with Some (GotItems l, r) => Some (GotValue (VArray l), r) | _ => None end).
      by rewrite IHl by lia.
    + change (S (size_entries m) < S n) in Hn.
      change (take_json (S n) AValue (put (VObject m) ++ rest)) with
        (match take_json n Entries (put_entries m ++ rest) with Some (GotEntries m, r) => Some (GotValue (VObject m), r) | _ => None end).
      by rewrite IHm by lia.
  - intros [|x l] rest Hn; [done|]. change (S (size x + size_items l) < S n) in Hn.
    change (put_items (x :: l)) with (ch "," :: put x ++ put_items l). cbn [app]. rewrite <- app_assoc. cbn [take_json]. cbn -[take_json put].
    by rewrite IHv, IHl by lia.
  - intros [|[k x] m] rest Hn; [done|]. change (S (size x + size_entries m) < S n) in Hn.
    change (put_entries ((k, x) :: m)) with (ch "," :: put_str k ++ put x ++ put_entries m). cbn [app]. rewrite <- !app_assoc. cbn [take_json].
    cbn -[take_json put take_str put_str]. rewrite take_put_str. cbn -[take_json put]. by rewrite IHv, IHm by lia.
Qed.

Lemma size_put n : forall v, size v < n -> size v <= length (put v).
Proof.
  induction n as [|n IH]; intros v Hn; [lia|]. destruct v as [|[]| |s|items|m]; cbn [size put length]; try lia.
  - change (S (size_items items) < S n) in Hn. change (S (size_items items) <= S (length (put_items items))). apply le_n_S.
    induction items as [|x items IHl]; [cbn; lia|]. change (S (S (size x + size_items items)) < S n) in Hn.
    change (S (size x + size_items items) <= length (ch "," :: put x ++ put_items items)).
    cbn [length]. rewrite length_app. specialize (IH x). lia.
  - change (S (size_entries m) < S n) in Hn. change (S (size_entries m) <= S (length (put_entries m))). apply le_n_S.
    induction m as [|[k x] m IHl]; [cbn; lia|]. change (S (S (size x + size_entries m)) < S n) in Hn.
    change (S (size x + size_entries m) <= length (ch "," :: put_str k ++ put x ++ put_entries m)).
    cbn [length]. rewrite !length_app. specialize (IH x). lia.
Qed.

Lemma parse_put v : canonical v -> depth v <= 127 -> parse (put v) = Some v.
Proof.
  intros Hc Hd%Nat.leb_le. unfold parse. pose proof (size_put (S (size v)) v ltac:(lia)).
  replace (put v) with (put v ++ []) at 2 by apply app_nil_r.
  rewrite (proj1 (take_put _)) by lia. by rewrite (proj2 (canonicalb_spec (S (size v)) v ltac:(lia)) Hc), Hd.
Qed.

Lemma alike_self n : forall v, size v < n -> alike v v = true.
Proof.
  induction n as [|n IH]; intros v Hn; [lia|]. destruct v as [|[]| |s|items|m]; try done.
  - apply str_eqb_refl.
  - change (S (size_items items) < S n) in Hn. induction items as [|x items IHl]; [done|].
    change (S (S (size x + size_items items)) < S n) in Hn. change (alike x x && alike (VArray items) (VArray items) = true).
    rewrite IH, IHl by lia. done.
  - change (S (size_entries m) < S n) in Hn. induction m as [|[k x] m IHl]; [done|].
    change (S (S (size x + size_entries m)) < S n) in Hn.
    change (str_eqb k k && alike x x && alike (VObject m) (VObject m) = true). rewrite str_eqb_refl, IH, IHl by lia. done.
Qed.

#[local] Instance demo_law : JsonTextLaw.
Proof.
  split.
  - intros s v. cbn [from_json depth_limit demo_json].
    destruct (str_eqb s (lit "{}")); [intros [= <-]; split; [split; [constructor|done]|cbn; lia]|].
    unfold parse. destruct (take_json _ _ _) as [[[v'| |] []]|]; try done. destruct (canonicalb v' && (depth v' <=? 127)) eqn:E; [|done]. intros [= <-].
    apply andb_true_iff in E as [E Hd%Nat.leb_le]. split; [|done]. by apply (canonicalb_spec (S (size v')) v'); [lia|].
  - reflexivity.
  - intros v Hc Hd. exists v. split; [|by apply (alike_self (S (size v))); lia]. cbn [from_json to_json demo_json].
    destruct (str_eqb (put v) (lit "{}")) eqn:E; [|by apply parse_put].
    apply str_eqb_eq in E. destruct v as [|[]| |s|items|m]; try discriminate E. destruct m as [|[k x] m]; [done|]. discriminate E.
  - intros m. exists (List.removelast (put_entries m)). cbn [to_json demo_json]. change (put (VObject m)) with (ch "{" :: put_entries m).
    cbn [app]. f_equal. induction m as [|[k x] m IH]; [done|].
    change (put_entries ((k, x) :: m)) with (ch "," :: put_str k ++ put x ++ put_entries m).
    assert (Hne : put_entries m <> []) by (by destruct m as [|[]]). rewrite !app_comm_cons, !app_assoc, List.removelast_app by done.
    rewrite <- !app_assoc. by rewrite <- IH.
  - cbn. lia.
Qed.
