(* ===== verification/Repetition.v ===== *)
(** * Repetition detectors ([src/harness/monitor/common.rs], [repetition.rs])

    One watches the tool calls of an agent, the other its streamed text.  Both
    keep bounded windows; the text detector caches what its rules need when a
    line or a word ends.  [VecDeque]s are lists, front first. *)

From S2P Require Import Prelude Str Json ToolNames.
Local Open Scope nat_scope.

(** ** What looks like code ([src/harness/monitor/code.rs]) *)

Section heuristics.
Context `{Unicode}.

Definition CODE_DELIMITERS : list str :=
  [lit ","; lit ";"; lit "("; lit ")"; lit "["; lit "]"; lit "{"; lit "}"; lit "->"; lit "::"; lit "=>"; lit "="; lit "0x"].
Definition LITERALS : list str :=
  [lit "true"; lit "false"; lit "null"; lit "None"; lit "Some"; lit "Ok"; lit "Err"; lit "nil"; lit "undefined"].
Definition is_code_pattern (s : str) : bool :=
  let trimmed := trim s in
  if is_empty trimmed then false
  else if existsb (fun d => contains d trimmed) CODE_DELIMITERS then true
  else str_mem trimmed LITERALS
       || forallb (fun c => is_ascii_digit c || (c =? ch ".")%N || (c =? ch "_")%N) trimmed.

Definition COMMENT_PREFIXES : list str := [lit "//"; lit "/*"; lit "*"; lit "#"; lit "@"].
Definition LINE_ENDINGS : list str :=
  [lit ";"; lit "{"; lit "}"; lit ","; lit ")"; lit "]"; lit ":"; lit "\"].
Definition OPERATORS : list str :=
  [lit "::"; lit "->"; lit "=>"; lit "=="; lit "!="; lit "<="; lit ">="; lit "+="; lit "-="; lit "*="; lit "&&"; lit "||";
   lit "()"; lit "[]"; lit "{}"; lit "println!"; lit "assert!"; lit "assert_eq!"].
Definition KEYWORDS : list str :=
  [lit "fn"; lit "pub"; lit "let"; lit "mut"; lit "const"; lit "static"; lit "struct"; lit "enum"; lit "impl"; lit "trait";
   lit "type"; lit "use"; lit "mod"; lit "return"; lit "if"; lit "else"; lit "match"; lit "for"; lit "while"; lit "loop";
   lit "break"; lit "continue"; lit "def"; lit "class"; lit "import"; lit "from"; lit "var"; lit "val"; lit "function";
   lit "export"; lit "public"; lit "private"; lit "protected"; lit "case"; lit "default"; lit "switch"; lit "try"; lit "catch";
   lit "finally"; lit "throw"; lit "async"; lit "await"].
Definition LINE_KEYWORDS : list str :=
  KEYWORDS ++ [lit "package"; lit "include"; lit "SELECT"; lit "INSERT"; lit "UPDATE"; lit "DELETE"; lit "WHERE"; lit "FROM";
               lit "CREATE"].
Definition is_code_line (s : str) : bool :=
  let trimmed := trim s in
  if is_empty trimmed then false
  else if starts_with (lit "```") trimmed || starts_with (lit "~~~") trimmed then true
  else if existsb (fun p => starts_with p trimmed) COMMENT_PREFIXES then true
  else if existsb (fun e => ends_with e trimmed) LINE_ENDINGS then true
  else if existsb (fun o => contains o trimmed) OPERATORS then true
  else str_mem (take_while (fun c => is_alphanumeric c || (c =? ch "_")%N) trimmed) LINE_KEYWORDS.

Definition WORD_KEYWORDS : list str :=
  KEYWORDS ++ [lit "self"; lit "super"; lit "crate"; lit "true"; lit "false"; lit "none"; lit "some"; lit "ok"; lit "err";
               lit "nil"; lit "null"; lit "int"; lit "i32"; lit "i64"; lit "u32"; lit "u64"; lit "usize"; lit "isize"; lit "str";
               lit "string"; lit "vec"; lit "bool"; lit "void"; lit "char"; lit "float"; lit "double"; lit "assert";
               lit "asserteq"; lit "println"; lit "printf"; lit "stdout"; lit "stderr"].
Definition is_code_word (w : str) : bool := str_mem (to_ascii_lowercase w) WORD_KEYWORDS.

Definition is_markdown_divider (s : str) : bool :=
  let trimmed := trim s in
  if is_empty trimmed then false
  else forallb (fun c => (c =? ch "-")%N || (c =? ch "=")%N || (c =? ch "*")%N || (c =? ch "`")%N || (c =? ch "#")%N || (c =? ch "_")%N)
         trimmed.
End heuristics.


Section repetition.
Context `{Numbers} `{Unicode}.

(** ** Tool calls *)

Definition TOOL_BUFFER_CAPACITY : nat := 50.
Definition DEFAULT_REPETITION_THRESHOLD : nat := 5.

(** Pagination keys do not count: [offset] and [page], at any depth. *)
Definition is_pagination_key (k : str) : bool := str_eqb k (lit "offset") || str_eqb k (lit "page").
Fixpoint strip_pagination (value : Value) : Value :=
  match value with
  | VObject map =>
      VObject ((fix entries m := match m with
                                 | [] => []
                                 | (k, v) :: m' => if is_pagination_key k then entries m' else (k, strip_pagination v) :: entries m'
                                 end) map)
  | VArray items => VArray ((fix all l := match l with [] => [] | v :: l' => strip_pagination v :: all l' end) items)
  | other => other
  end.
Definition semantic_json_value_eq (a b : Value) : bool := value_eqb (strip_pagination a) (strip_pagination b).
Definition is_pagination_tool (name : str) : bool := str_mem name [TOOL_READ_FILE; TOOL_GREP_SEARCH].
Definition pagination_only_differs (a b : Value) : bool :=
  negb (value_eqb a b) && value_eqb (strip_pagination a) (strip_pagination b).

(** The same of two texts, whose own keys are dropped at the top only. *)
Definition normalized `{!JsonText} (s : str) : Value :=
  match from_json s with
  | Some (VObject map) => VObject (map_remove (map_remove map (lit "offset")) (lit "page"))
  | Some v => v
  | None => VString s
  end.
Definition semantic_json_eq `{!JsonText} (a b : str) : bool := value_eqb (normalized a) (normalized b).

Record ToolCallRecord := { name : str; arguments : Value }.
Definition semantically_eq (a b : ToolCallRecord) : bool :=
  str_eqb (name a) (name b) && semantic_json_value_eq (arguments a) (arguments b).
Inductive Intervention := NoIntervention | Block | Cut.

Definition is_consecutive_repeat (prev record : ToolCallRecord) : bool :=
  if negb (str_eqb (name prev) (name record)) then false
  else if is_pagination_tool (name prev) && pagination_only_differs (arguments prev) (arguments record) then false
  else value_eqb (arguments prev) (arguments record).

Record ToolRepetitionDetector := { tool_buffer : list ToolCallRecord; tool_threshold : nat }.
Definition new_tool_detector (threshold : nat) : ToolRepetitionDetector :=
  {| tool_buffer := []; tool_threshold := Nat.max threshold 2 |}.
(** [record] *)
Definition record_call (r : ToolCallRecord) (d : ToolRepetitionDetector) : ToolRepetitionDetector :=
  {| tool_buffer := (if length (tool_buffer d) =? TOOL_BUFFER_CAPACITY then tail (tool_buffer d) else tool_buffer d) ++ [r];
     tool_threshold := tool_threshold d |}.

(** The calls from the latest backwards, [count] equivalent ones so far. *)
Fixpoint count_consecutive (threshold count : nat) (record : ToolCallRecord) (recent : list ToolCallRecord) : bool :=
  match recent with
  | [] => false
  | existing :: older =>
      if is_consecutive_repeat existing record then
        if threshold <=? S count then true else count_consecutive threshold (S count) record older
      else false
  end.
Definition detect_consecutive (d : ToolRepetitionDetector) (record : ToolCallRecord) : bool :=
  count_consecutive (tool_threshold d) 1 record (rev (tool_buffer d)).

(** The calls before the last, from the latest backwards, at distance [dist]
    from it. *)
Fixpoint alternates (threshold n : nat) (a b : ToolCallRecord) (dist : nat) (recent : list ToolCallRecord) : bool :=
  match recent with
  | [] => threshold <=? n / 2
  | x :: older =>
      let expected := if Nat.even dist then a else b in
      if semantically_eq x expected then alternates threshold n a b (S dist) older
      else threshold <=? dist / 2
  end.
Definition detect_cycle (d : ToolRepetitionDetector) (record : ToolCallRecord) : bool :=
  let all := tool_buffer d ++ [record] in
  let n := length all in
  let needed := tool_threshold d * 2 in
  if n <? needed then false
  else
    match rev all with
    | a :: b :: older => if semantically_eq a b then false else alternates (tool_threshold d) n a b 1 (b :: older)
    | _ => false
    end.
Definition is_rebirth (r : ToolCallRecord) : bool := str_eqb (name r) TOOL_REBIRTH.
Definition classify (d : ToolRepetitionDetector) (record : ToolCallRecord) : Intervention :=
  if is_rebirth record && match last (tool_buffer d) with Some b => is_rebirth b | None => false end then Block
  else if detect_consecutive d record then Block
  else if detect_cycle d record then Cut
  else NoIntervention.
Definition evaluate (record : ToolCallRecord) (d : ToolRepetitionDetector) : Intervention * ToolRepetitionDetector :=
  (classify d record, record_call record d).

(** ** Streamed text *)

Definition TEXT_BUFFER_CAPACITY : nat := 16384.
Definition TAIL_SCAN_WINDOW : nat := 4096.
Definition LINE_WINDOW : nat := 256.
Definition WORD_WINDOW : nat := 512.
Definition DEFAULT_MIN_PATTERN_LEN : nat := 5.

Record LineEntry := { line_text : str; line_is_code : bool; divider : bool; alphanumeric : bool }.
Definition new_line_entry (text : str) : LineEntry :=
  {| line_text := text; line_is_code := is_code_line text; divider := is_markdown_divider text;
     alphanumeric := existsb is_alphanumeric text |}.
Record WordEntry := { word_text : str; word_is_code : bool }.
Definition new_word_entry (text : str) : WordEntry := {| word_text := text; word_is_code := is_code_word text |}.

Definition trimmed_line (raw : str) : option LineEntry :=
  let line := trim raw in if is_empty line then None else Some (new_line_entry line).
Definition trimmed_word (raw : str) : option WordEntry :=
  let word := trim_matches (fun c => negb (is_alphanumeric c)) raw in if is_empty word then None else Some (new_word_entry word).

(** The eviction loop of a window: its entries and their characters. *)
Fixpoint evict {E} (text : E -> str) (limit : nat) (window : list E) (chars : nat) : list E * nat :=
  if (limit <? length window) || (TEXT_BUFFER_CAPACITY <? chars) then
    match window with
    | evicted :: rest => evict text limit rest (chars - blen (text evicted))
    | [] => ([], chars)
    end
  else (window, chars).
Definition commit_line (window : list LineEntry) (chars : nat) (raw : str) : list LineEntry * nat :=
  match trimmed_line raw with
  | None => (window, chars)
  | Some entry => evict line_text LINE_WINDOW (window ++ [entry]) (chars + blen (line_text entry))
  end.
Definition commit_word (window : list WordEntry) (chars : nat) (raw : str) : list WordEntry * nat :=
  match trimmed_word raw with
  | None => (window, chars)
  | Some entry => evict word_text WORD_WINDOW (window ++ [entry]) (chars + blen (word_text entry))
  end.

(** The next character boundary from a byte offset on. *)
Fixpoint next_boundary (fuel : nat) (s : str) (cut : nat) : nat :=
  match fuel with
  | 0 => cut
  | S k => if (cut <? blen s) && negb (is_char_boundary s cut) then next_boundary k s (S cut) else cut
  end.
(** The newest bytes, from a character boundary on; [drain] panics off one. *)
Definition trim_to_char_budget (partial : str) : option str :=
  if blen partial <=? TEXT_BUFFER_CAPACITY then Some partial
  else get_from partial (next_boundary (blen partial) partial (blen partial - TEXT_BUFFER_CAPACITY)).

Record RepetitionDetector := {
  buffer : str;
  threshold : nat;
  min_len : nat;
  lines_window : list LineEntry;
  partial_line : str;
  words_window : list WordEntry;
  partial_word : str;
  lines_chars : nat;
  words_chars : nat
}.
Definition new_detector (threshold min_len : nat) : RepetitionDetector :=
  {| buffer := []; threshold := Nat.max threshold 2; min_len := Nat.max min_len 1; lines_window := []; partial_line := [];
     words_window := []; partial_word := []; lines_chars := 0; words_chars := 0 |}.

(** One character; [None] is a panic of the budget. *)
Definition push_line (c : char) (d : RepetitionDetector) : option (list LineEntry * nat * str) :=
  if (c =? NL)%N then Some (commit_line (lines_window d) (lines_chars d) (partial_line d), [])
  else partial ← trim_to_char_budget (partial_line d ++ [c]); Some (lines_window d, lines_chars d, partial).
Definition push_word (c : char) (d : RepetitionDetector) : option (list WordEntry * nat * str) :=
  if is_whitespace c then Some (commit_word (words_window d) (words_chars d) (partial_word d), [])
  else partial ← trim_to_char_budget (partial_word d ++ [c]); Some (words_window d, words_chars d, partial).
Definition push_char (c : char) (d : RepetitionDetector) : option RepetitionDetector :=
  let full := buffer d ++ [c] in
  '(ls, lc, pl) ← push_line c d;
  '(ws, wc, pw) ← push_word c d;
  Some {| buffer := if TEXT_BUFFER_CAPACITY <? length full then tail full else full;
          threshold := threshold d; min_len := min_len d; lines_window := ls; partial_line := pl; words_window := ws;
          partial_word := pw; lines_chars := lc; words_chars := wc |}.
Fixpoint push (text : str) (d : RepetitionDetector) : option RepetitionDetector :=
  match text with
  | [] => Some d
  | c :: text' => d' ← push_char c d; push text' d'
  end.

(** *** The period of the tail *)

Definition tail_scan_chars (d : RepetitionDetector) : nat := Nat.min (length (buffer d)) TAIL_SCAN_WINDOW.
Definition tail_scan_candidates (d : RepetitionDetector) : nat :=
  let max_pattern := tail_scan_chars d / threshold d in
  if min_len d <=? max_pattern then max_pattern - min_len d + 1 else 0.
(** The character at an index, which the guard of [tail_repeats] keeps inside. *)
Definition at_index (d : RepetitionDetector) (i : nat) : option char := buffer d !! i.
Definition tail_repeats (d : RepetitionDetector) (pat_len : nat) : bool :=
  let n := length (buffer d) in
  if n <? pat_len * threshold d then false
  else
    let groups := seq 1 (threshold d - 1) in
    if negb (forallb (fun group => bool_decide (at_index d (n - group * pat_len - 1) = at_index d (n - 1))) groups) then false
    else if negb (forallb (fun offset =>
               forallb (fun group => bool_decide (at_index d (n - pat_len + offset - group * pat_len) = at_index d (n - pat_len + offset)))
                 groups) (seq 0 pat_len)) then false
    else
      let last_str := drop (n - pat_len) (buffer d) in
      if negb (existsb is_alphanumeric last_str) then false
      else if (pat_len <? 16) && is_code_pattern last_str then false
      else true.
Definition tail_repeats_any_length (d : RepetitionDetector) : bool :=
  existsb (tail_repeats d) (rev (seq (min_len d) (S (tail_scan_chars d / threshold d) - min_len d))).

(** *** Lines and words *)

Definition lines_view (d : RepetitionDetector) : list LineEntry :=
  lines_window d ++ match trimmed_line (partial_line d) with Some e => [e] | None => [] end.
Definition words_view (d : RepetitionDetector) : list WordEntry :=
  words_window d ++ match trimmed_word (partial_word d) with Some e => [e] | None => [] end.

(** The line before the last equal to it, going back at most [k] lines. *)
Fixpoint equal_lines (k : nat) (last : LineEntry) (older : list LineEntry) : nat :=
  match k, older with
  | S k', e :: older' => if str_eqb (line_text e) (line_text last) then S (equal_lines k' last older') else 0
  | _, _ => 0
  end.
Definition last_line_repeats (th : nat) (view : list LineEntry) : bool :=
  match rev view with
  | [] => false
  | last :: older =>
      if (8 <=? blen (line_text last)) && alphanumeric last && negb (divider last) then
        let consecutive := S (equal_lines (th - 1) last older) in
        let limit := if line_is_code last then th * 3 else th in
        limit <=? consecutive
      else false
  end.

(** A hash map of counters, and whether one reaches [limit]. *)
Fixpoint reaches {K} `{Countable K} (limit : nat) (counts : gmap K nat) (keys : list K) : bool :=
  match keys with
  | [] => false
  | k :: keys' =>
      let cnt := S (default 0 (counts !! k)) in
      if limit <=? cnt then true else reaches limit (<[k := cnt]> counts) keys'
  end.

Definition windows2 {A} (l : list A) : list (A * A) := zip l (tail l).
Definition windows4 {A} (l : list A) : list (A * A * A * A) := zip (zip (zip l (tail l)) (tail (tail l))) (tail (tail (tail l))).

Definition bigram (pair : LineEntry * LineEntry) : option (str * str) :=
  let '(first, second) := pair in
  if line_is_code first || line_is_code second then None
  else if (6 <=? blen (line_text first)) && (6 <=? blen (line_text second)) && (alphanumeric first || alphanumeric second)
          && negb (divider first) && negb (divider second) then Some (line_text first, line_text second)
  else None.
Definition sentence (e : LineEntry) : option str :=
  if line_is_code e then None
  else if (25 <=? blen (line_text e)) && alphanumeric e && negb (divider e) then Some (line_text e) else None.
Definition word_gram (g : WordEntry * WordEntry * WordEntry * WordEntry) : option (str * str * str * str) :=
  let '(w0, w1, w2, w3) := g in
  if word_is_code w0 || word_is_code w1 || word_is_code w2 || word_is_code w3 then None
  else if 12 <=? blen (word_text w0) + blen (word_text w1) + blen (word_text w2) + blen (word_text w3)
  then Some (word_text w0, word_text w1, word_text w2, word_text w3) else None.

Definition line_or_phrase_repeats (d : RepetitionDetector) : bool :=
  let view := lines_view d in
  let th := Nat.max (threshold d) 3 in
  let words := words_view d in
  ((th <=? length view) &&
   (last_line_repeats th view || reaches th ∅ (omap bigram (windows2 view)) || reaches (th * 2) ∅ (omap sentence view)))
  || ((4 <=? length words) && reaches th ∅ (omap word_gram (windows4 words))).
Definition is_repeating (d : RepetitionDetector) : bool := tail_repeats_any_length d || line_or_phrase_repeats d.

End repetition.
