(* ===== verification/RepetitionFacts.v ===== *)
(** * Facts of the repetition detectors ([src/harness/monitor/repetition.rs])

    What each rule fires on, stated on the whole history of calls or of text. *)

From S2P Require Import Prelude Str Json Pool ToolNames Repetition.
Local Open Scope nat_scope.

Section tools.
Context `{Numbers} `{Unicode}.
Implicit Types (r p : ToolCallRecord) (h l : list ToolCallRecord).

(** ** Tool calls *)

(** The exemption of pagination adds nothing: only equal arguments repeat. *)
Definition same_call r p : bool := str_eqb (name p) (name r) && value_eqb (arguments p) (arguments r).
Lemma is_consecutive_repeat_same p r : is_consecutive_repeat p r = same_call r p.
Proof.
  unfold is_consecutive_repeat, same_call, pagination_only_differs. destruct (str_eqb (name p) (name r)); [|done]. cbn [negb andb].
  destruct (value_eqb (arguments p) (arguments r)); cbn [negb andb]; rewrite ?andb_false_r; [done|]. by destruct (_ && _).
Qed.

Lemma count_consecutive_spec th c r l : c < th ->
  count_consecutive th c r l = true <-> th - c <= length l /\ Forall (fun p => same_call r p = true) (take (th - c) l).
Proof.
  revert c. induction l as [|p l IH]; intros c Hc; cbn [count_consecutive length].
  { split; [done|]. intros [? _]. lia. }
  replace (th - c) with (S (th - S c)) by lia. cbn [take]. rewrite is_consecutive_repeat_same, Forall_cons.
  destruct (same_call r p) eqn:E; [|by split; [|intros (_ & ? & _)]].
  destruct (Nat.leb_spec th (S c)) as [Hle|Hlt].
  - replace (th - S c) with 0 by lia. cbn [take]. split; [intros _; split; [lia|by split]|done].
  - rewrite IH by done. split; [intros [? ?]; split; [lia|by split]|intros (? & _ & ?); split; [lia|done]].
Qed.

Lemma alternates_spec th n a b dist l : dist + length l = n -> 2 * th <= n ->
  alternates th n a b dist l = true <->
  forall k x, l !! k = Some x -> dist + k < 2 * th -> semantically_eq x (if Nat.even (dist + k) then a else b) = true.
Proof.
  revert dist. induction l as [|y l IH]; intros dist Hn Hth; cbn [alternates length] in *.
  { split; [done|]. intros _. apply Nat.leb_le, Nat.div_le_lower_bound; lia. }
  destruct (semantically_eq y (if Nat.even dist then a else b)) eqn:E.
  - rewrite IH by lia. split.
    + intros Hk [|k] x Hx Hlt; cbn [lookup] in Hx; [injection Hx as <-; by rewrite Nat.add_0_r|].
      rewrite <- Nat.add_succ_comm in *. by apply (Hk k).
    + intros Hk k x Hx Hlt. rewrite Nat.add_succ_comm in *. by apply (Hk (S k)).
  - rewrite Nat.leb_le. split.
    + intros Hle k x Hx Hlt. pose proof (Nat.Div0.mul_div_le dist 2). lia.
    + intros Hk. destruct (Nat.lt_ge_cases dist (2 * th)) as [Hlt|Hge]; [|apply Nat.div_le_lower_bound; lia].
      specialize (Hk 0 y eq_refl). rewrite Nat.add_0_r, E in Hk. by specialize (Hk Hlt).
Qed.

(** The detector after a history of calls, and the calls it still sees, the
    latest first. *)
Definition observed (threshold : nat) h : ToolRepetitionDetector := fold_left (fun d r => record_call r d) h (new_tool_detector threshold).
Definition recent h : list ToolCallRecord := take TOOL_BUFFER_CAPACITY (rev h).

Lemma record_buffer (d : ToolRepetitionDetector) r :
  length (tool_buffer d) <= TOOL_BUFFER_CAPACITY ->
  rev (tool_buffer (record_call r d)) = take TOOL_BUFFER_CAPACITY (r :: rev (tool_buffer d)).
Proof.
  intros Hl. unfold record_call. cbn [tool_buffer]. destruct (Nat.eqb_spec (length (tool_buffer d)) TOOL_BUFFER_CAPACITY) as [E|E].
  - rewrite rev_app_distr. cbn [rev app]. destruct (tool_buffer d) as [|x b] eqn:Eb; [by rewrite <- E|]. cbn [tail rev].
    rewrite <- E. cbn [length firstn]. change (take (S (length b)) (r :: rev b ++ [x])) with (r :: take (length b) (rev b ++ [x])).
    f_equal. rewrite take_app_le by (rewrite length_rev; lia). by rewrite take_ge by (rewrite length_rev; lia).
  - rewrite rev_app_distr. cbn [rev app]. symmetry. apply take_ge. cbn [length]. rewrite length_rev. lia.
Qed.

Lemma observed_recent threshold h :
  rev (tool_buffer (observed threshold h)) = recent h /\ tool_threshold (observed threshold h) = Nat.max threshold 2.
Proof.
  induction h as [|r h [IH Ht]] using rev_ind; [done|]. unfold observed in *. rewrite fold_left_app. cbn [fold_left].
  split; [|done]. rewrite record_buffer, IH.
  - unfold recent. rewrite rev_app_distr. cbn [rev app].
    change (r :: take TOOL_BUFFER_CAPACITY (rev h)) with (take (S TOOL_BUFFER_CAPACITY) (r :: rev h)). rewrite take_take. done.
  - rewrite <- length_rev, IH. unfold recent. rewrite length_take. lia.
Qed.

Definition follows_rebirth h r : Prop := is_rebirth r = true /\ exists p, head (recent h) = Some p /\ is_rebirth p = true.
Definition repeated (th : nat) h r : Prop := th <= S (length (recent h)) /\ Forall (fun p => same_call r p = true) (take (th - 1) (recent h)).
Definition cycled (th : nat) h r : Prop := 2 * th <= S (length (recent h)) /\
  exists b, head (recent h) = Some b /\ semantically_eq r b = false /\
    forall k x, recent h !! k = Some x -> S k < 2 * th -> semantically_eq x (if Nat.even (S k) then r else b) = true.

Lemma last_head {A} (l : list A) : last l = head (rev l).
Proof. induction l as [|x l _] using rev_ind; [done|]. by rewrite last_snoc, rev_app_distr. Qed.

Lemma detect_consecutive_observed threshold h r :
  detect_consecutive (observed threshold h) r = true <-> repeated (Nat.max threshold 2) h r.
Proof.
  unfold detect_consecutive, repeated. destruct (observed_recent threshold h) as [-> ->]. rewrite count_consecutive_spec by lia.
  split; intros [? ?]; (split; [lia|done]).
Qed.
Lemma detect_cycle_observed threshold h r :
  detect_cycle (observed threshold h) r = true <-> cycled (Nat.max threshold 2) h r.
Proof.
  unfold detect_cycle, cycled. cbv zeta. rewrite rev_app_distr, length_app, <- (length_rev (tool_buffer _)).
  destruct (observed_recent threshold h) as [-> ->]. cbn [length rev app]. set (th := Nat.max threshold 2).
  destruct (Nat.ltb_spec (length (recent h) + 1) (th * 2)) as [Hlt|Hge]; [split; [done|intros [? _]; lia]|].
  destruct (recent h) as [|b older] eqn:Er; cbn [length] in *; [lia|].
  destruct (semantically_eq r b) eqn:Es; [split; [done|intros (_ & ? & [= <-] & Hn & _); congruence]|].
  rewrite alternates_spec by (cbn [length]; lia). split.
  - intros Hk. split; [lia|]. exists b. split_and!; try done.
  - intros (_ & b' & [= <-] & _ & Hk) k x Hx Hlt'. by apply (Hk k).
Qed.

(** C21: the verdict on a tool call is what the recent history says.  A call is
    blocked exactly when it is a rebirth right after a rebirth, or makes the
    threshold of identical calls in a row; it is cut exactly when it is not
    blocked and the last calls, twice the threshold of them, alternate between
    two that differ by more than pagination.  The history counts for fifty
    calls. *)
Theorem tool_loop_verdict threshold h r :
  let th := Nat.max threshold 2 in
  let blocked := follows_rebirth h r \/ repeated th h r in
  (classify (observed threshold h) r = Block <-> blocked) /\
  (classify (observed threshold h) r = Cut <-> ~ blocked /\ cycled th h r) /\
  (classify (observed threshold h) r = NoIntervention <-> ~ blocked /\ ~ cycled th h r).
Proof.
  intros th blocked. subst blocked th. unfold classify.
  rewrite <- (detect_consecutive_observed threshold h r), <- (detect_cycle_observed threshold h r).
  rewrite last_head, (proj1 (observed_recent threshold h)).
  assert (Hr : follows_rebirth h r <->
    (is_rebirth r && match head (recent h) with Some b => is_rebirth b | None => false end) = true).
  { unfold follows_rebirth. rewrite andb_true_iff. split; intros [? Hp]; (split; [done|]).
    - by destruct Hp as (p & -> & ?).
    - destruct (head (recent h)) as [p|]; [by exists p|done]. }
  rewrite Hr. destruct (is_rebirth r && _); [|destruct (detect_consecutive _ r); [|destruct (detect_cycle _ r)]];
    split_and!; split; try done; intuition discriminate.
Qed.
End tools.

(** A threshold above the window is never met. *)
Lemma high_threshold_never_blocks `{Numbers} threshold h r :
  TOOL_BUFFER_CAPACITY + 1 < threshold -> ~ repeated (Nat.max threshold 2) h r /\ ~ cycled (Nat.max threshold 2) h r.
Proof.
  intros Ht. assert (Hl : length (recent h) <= TOOL_BUFFER_CAPACITY) by (unfold recent; rewrite length_take; lia).
  split; intros [? _]; lia.
Qed.

(** ** The windows of a text *)

(** The pieces of a text between separators, the last one unfinished. *)
Fixpoint pieces (sep : char -> bool) (text : str) : list str :=
  match text with
  | [] => [[]]
  | c :: text' =>
      if sep c then [] :: pieces sep text'
      else match pieces sep text' with [] => [[c]] | p :: ps => (c :: p) :: ps end
  end.

Section window.
Context {E : Type} (entry : str -> option E) (etext : E -> str) (limit : nat) (sep : char -> bool).

(** The window of one kind of entry: the entries, their characters and the
    piece that is being streamed. *)
Definition feed (c : char) (st : list E * nat * str) : option (list E * nat * str) :=
  let '(w, n, p) := st in
  if sep c then
    Some (match entry p with
          | None => (w, n)
          | Some e => evict etext limit (w ++ [e]) (n + blen (etext e))
          end, [])
  else partial ← trim_to_char_budget (p ++ [c]); Some (w, n, partial).
Fixpoint feed_all (text : str) (st : list E * nat * str) : option (list E * nat * str) :=
  match text with [] => Some st | c :: text' => st' ← feed c st; feed_all text' st' end.

Definition chars (w : list E) : nat := sum_with (fun e => blen (etext e)) w.
Definition fits (w : list E) : Prop := length w <= limit /\ chars w <= TEXT_BUFFER_CAPACITY.
Definition budgeted (st : list E * nat * str) : Prop :=
  let '(w, n, p) := st in fits w /\ n = chars w /\ blen p <= TEXT_BUFFER_CAPACITY.

Lemma window_evicted w : exists old kept, w = old ++ kept /\ evict etext limit w (chars w) = (kept, chars kept) /\ fits kept /\
  (fits w -> old = []).
Proof.
  induction w as [|e w IH]; cbn [evict].
  - exists [], []. destruct (_ || _); (split_and!; [done|done|split; [cbn; lia|unfold chars; cbn; lia]|done]).
  - destruct ((limit <? length (e :: w)) || (TEXT_BUFFER_CAPACITY <? chars (e :: w))) eqn:Eo.
    + destruct IH as (old & kept & -> & Ee & Hf & _). exists (e :: old), kept.
      replace (chars (e :: old ++ kept) - blen (etext e)) with (chars (old ++ kept)) by (unfold chars; cbn [sum_with]; lia).
      split_and!; [done|done|done|]. intros [? ?]. apply orb_true_iff in Eo as [?%Nat.ltb_lt|?%Nat.ltb_lt]; lia.
    + exists [], (e :: w). apply orb_false_iff in Eo as [?%Nat.ltb_ge ?%Nat.ltb_ge]. split_and!; try done.
Qed.

Lemma boundary_found fuel s cut a b : s = a ++ b -> cut <= blen a -> (forall a' b', s = a' ++ b' -> cut <= blen a' -> blen a <= blen a') ->
  blen a - cut <= fuel -> next_boundary fuel s cut = blen a.
Proof.
  intros Hs. revert cut. induction fuel as [|k IH]; intros cut Hc Hmin Hf; cbn [next_boundary]; [lia|].
  destruct (decide (cut = blen a)) as [->|Hne].
  - unfold is_char_boundary. rewrite Hs, split_at_app. by rewrite andb_false_r.
  - assert (Hb : is_char_boundary s cut = false).
    { unfold is_char_boundary. destruct (split_at s cut) as [[a' b']|] eqn:Es; [|done].
      apply split_at_Some in Es as [Es <-]. specialize (Hmin a' b' Es (Nat.le_refl _)). lia. }
    rewrite Hb. assert (blen a <= blen s) by (rewrite Hs, blen_app; lia).
    replace (cut <? blen s) with true by (symmetry; apply Nat.ltb_lt; lia). cbn [negb andb].
    apply IH; [lia| |lia]. intros a' b' Ha Hl. apply (Hmin a' b' Ha). lia.
Qed.

Lemma least_boundary s cut : cut <= blen s ->
  exists a b, s = a ++ b /\ cut <= blen a /\ forall a' b', s = a' ++ b' -> cut <= blen a' -> blen a <= blen a'.
Proof.
  revert cut. induction s as [|c s IH]; intros cut Hc.
  - exists [], []. split_and!; [done|done|]. intros. rewrite blen_nil. lia.
  - destruct cut as [|cut]; [exists [], (c :: s); split_and!; [done|lia|intros; rewrite blen_nil; lia]|].
    rewrite blen_cons in Hc. destruct (IH (S cut - len_utf8 c)) as (a & b & -> & Ha & Hmin); [lia|].
    exists (c :: a), b. rewrite blen_cons. split_and!; [done|lia|].
    intros [|c' a'] b' E' Hl; [rewrite blen_nil in Hl; lia|]. injection E' as <- E'.
    rewrite blen_cons in *. specialize (Hmin a' b' E'). lia.
Qed.

Lemma trim_budget_total s : exists a b, s = a ++ b /\ trim_to_char_budget s = Some b /\ blen b <= TEXT_BUFFER_CAPACITY /\
  (blen s <= TEXT_BUFFER_CAPACITY -> a = []).
Proof.
  unfold trim_to_char_budget. destruct (Nat.leb_spec (blen s) TEXT_BUFFER_CAPACITY) as [Hle|Hgt]; [by exists [], s|].
  destruct (least_boundary s (blen s - TEXT_BUFFER_CAPACITY)) as (a & b & Hs & Ha & Hmin); [lia|].
  assert (blen s = blen a + blen b) by by rewrite Hs, blen_app.
  exists a, b. rewrite (boundary_found (blen s) s _ a b Hs Ha Hmin) by lia. split_and!; [done|..|lia|lia].
  rewrite Hs at 1. apply get_from_app.
Qed.

Lemma feed_budgeted c st : budgeted st -> exists st', feed c st = Some st' /\ budgeted st'.
Proof.
  destruct st as [[w n] p]. intros (Hf & -> & Hp). cbn [feed]. destruct (sep c).
  - destruct (entry p) as [e|]; eexists; (split; [done|]); [|by split_and!; [..|apply Nat.le_0_l]].
    assert (En : chars w + blen (etext e) = chars (w ++ [e])).
    { unfold chars. clear. induction w as [|x w IH]; cbn [app sum_with]; lia. }
    rewrite En. destruct (window_evicted (w ++ [e])) as (old & kept & _ & -> & Hk & _). split_and!; [done|done|apply Nat.le_0_l].
  - destruct (trim_budget_total (p ++ [c])) as (a & b & _ & -> & Hb & _). exists (w, chars w, b). split; [done|].
    by split_and!.
Qed.
Lemma feed_all_budgeted text st : budgeted st -> exists st', feed_all text st = Some st' /\ budgeted st'.
Proof.
  revert st. induction text as [|c text IH]; intros st Hst; cbn [feed_all]; [by exists st|].
  destruct (feed_budgeted c st Hst) as (st1 & -> & H1). by apply IH.
Qed.

Lemma chars_app (a b : list E) : chars (a ++ b) = chars a + chars b.
Proof. unfold chars. induction a as [|x a IH]; cbn [app sum_with]; lia. Qed.
Lemma fits_prefix (a b : list E) : fits (a ++ b) -> fits a.
Proof. unfold fits. rewrite length_app, chars_app. lia. Qed.

(** The pieces of a text that goes on with the piece [p]. *)
Definition pieces_after (p text : str) : list str :=
  match pieces sep text with [] => [p] | q :: qs => (p ++ q) :: qs end.
Lemma pieces_cons text : exists q qs, pieces sep text = q :: qs.
Proof. destruct text as [|c text]; cbn [pieces]; [by eexists _, _|]. destruct (sep c); [by eexists _, _|]. by destruct (pieces sep text); eexists _, _. Qed.
Lemma pieces_after_nil text : pieces_after [] text = pieces sep text.
Proof. unfold pieces_after. by destruct (pieces_cons text) as (q & qs & ->). Qed.

Lemma feed_all_pieces text w p :
  fits w -> Forall (fun q => blen q <= TEXT_BUFFER_CAPACITY) (pieces_after p text) ->
  exists w' p' finished old, feed_all text (w, chars w, p) = Some (w', chars w', p') /\
    pieces_after p text = finished ++ [p'] /\ w ++ omap entry finished = old ++ w' /\ (fits (w ++ omap entry finished) -> old = []).
Proof.
  revert w p. induction text as [|c text IH]; intros w p Hw Hps; cbn [feed_all].
  { exists w, p, [], []. split_and!; [done|unfold pieces_after; cbn [pieces]; by rewrite app_nil_r|apply app_nil_r|done]. }
  cbn [feed]. destruct (sep c) eqn:Es.
  - assert (Ep : pieces_after p (c :: text) = p :: pieces_after [] text).
    { rewrite pieces_after_nil. unfold pieces_after. cbn [pieces]. rewrite Es. by rewrite app_nil_r. }
    rewrite Ep in Hps |- *. apply Forall_cons in Hps as [_ Hps]. cbn [mbind option_bind]. destruct (entry p) as [e|] eqn:Ee.
    + assert (En : chars w + blen (etext e) = chars (w ++ [e])) by (rewrite chars_app; unfold chars; cbn; lia).
      rewrite En. destruct (window_evicted (w ++ [e])) as (old1 & kept & E1 & -> & Hk & H1').
      destruct (IH kept [] Hk Hps) as (w' & p' & fin & old & Hf & Hp & Ho & Hfit).
      exists w', p', (p :: fin), (old1 ++ old). rewrite Hp. cbn [omap list_omap]. rewrite Ee.
      assert (Ea : w ++ e :: omap entry fin = old1 ++ kept ++ omap entry fin) by (rewrite app_assoc, <- E1, <- app_assoc; done).
      split_and!; [done|done|by rewrite Ea, Ho, app_assoc|]. intros Hfw.
      assert (old1 = []) as -> by (apply H1'; apply (fits_prefix _ (omap entry fin)); by rewrite <- app_assoc).
      apply Hfit. rewrite Ea in Hfw. done.
    + destruct (IH w [] Hw Hps) as (w' & p' & fin & old & Hf & Hp & Ho & Hfit).
      exists w', p', (p :: fin), old. rewrite Hp. cbn [omap list_omap]. by rewrite Ee.
  - assert (Ep : pieces_after p (c :: text) = pieces_after (p ++ [c]) text).
    { unfold pieces_after. cbn [pieces]. rewrite Es. destruct (pieces_cons text) as (q & qs & ->). by rewrite <- app_assoc. }
    rewrite Ep in Hps |- *. destruct (trim_budget_total (p ++ [c])) as (a & b & Eb & -> & _ & Ha). cbn [mbind option_bind].
    assert (Hl : blen (p ++ [c]) <= TEXT_BUFFER_CAPACITY).
    { unfold pieces_after in Hps. destruct (pieces_cons text) as (q & qs & Eq). rewrite Eq in Hps. apply Forall_cons in Hps as [Hq _].
      rewrite blen_app in Hq. lia. }
    rewrite (Ha Hl) in Eb. cbn [app] in Eb. subst b. by apply IH.
Qed.

Lemma feed_all_view text :
  Forall (fun q => blen q <= TEXT_BUFFER_CAPACITY) (pieces sep text) ->
  exists w p old, feed_all text ([], 0, []) = Some (w, chars w, p) /\
    omap entry (pieces sep text) = old ++ w ++ match entry p with Some e => [e] | None => [] end /\
    (fits (omap entry (pieces sep text)) -> old = []).
Proof.
  rewrite <- pieces_after_nil. intros Hps.
  destruct (feed_all_pieces text [] [] ltac:(split; cbn; lia) Hps) as (w & p & fin & old & Hf & Hp & Ho & Hfit).
  exists w, p, old. rewrite Hp, omap_app. cbn [app] in Ho, Hfit. split; [exact Hf|].
  assert (Ee : omap entry [p] = match entry p with Some e => [e] | None => [] end) by (cbn; by destruct (entry p)).
  rewrite Ee. split; [by rewrite Ho, app_assoc|]. intros Hall. by apply Hfit, (fits_prefix _ _ Hall).
Qed.
End window.

(** ** The state of the detector *)

Section text.
Context `{Unicode}.
Implicit Types (d : RepetitionDetector) (text : str).

Abbreviation line_sep := (fun c => (c =? NL)%N).
Abbreviation feed_lines := (feed_all trimmed_line line_text LINE_WINDOW line_sep).
Abbreviation feed_words := (feed_all trimmed_word word_text WORD_WINDOW is_whitespace).
Definition lines_state d := (lines_window d, lines_chars d, partial_line d).
Definition words_state d := (words_window d, words_chars d, partial_word d).

Lemma push_line_feed c d : push_line c d = feed trimmed_line line_text LINE_WINDOW line_sep c (lines_state d).
Proof. unfold push_line, feed, lines_state, commit_line. destruct (c =? NL)%N; [|done]. by destruct (trimmed_line (partial_line d)). Qed.
Lemma push_word_feed c d : push_word c d = feed trimmed_word word_text WORD_WINDOW is_whitespace c (words_state d).
Proof. unfold push_word, feed, words_state, commit_word. destruct (is_whitespace c); [|done]. by destruct (trimmed_word (partial_word d)). Qed.

(** The newest characters of a text. *)
Definition newest (n : nat) (text : str) : str := drop (length text - n) text.
Lemma newest_snoc n text c : 0 < n ->
  newest n (text ++ [c]) = if n <? length (newest n text ++ [c]) then tail (newest n text ++ [c]) else newest n text ++ [c].
Proof.
  intros Hn. unfold newest. rewrite !length_app, length_drop. cbn [length]. destruct (Nat.ltb_spec n (length text - (length text - n) + 1)) as [Hlt|Hge].
  - replace (length text + 1 - n) with (S (length text - n)) by lia. rewrite <- (drop_app_le _ [c]) by lia.
    generalize (length text - n). intros k. generalize (text ++ [c]). clear. induction k as [|k IH]; intros [|x l]; try done. apply IH.
  - replace (length text + 1 - n) with 0 by lia. replace (length text - n) with 0 by lia. done.
Qed.

Lemma push_snoc text c d : push (text ++ [c]) d = push text d ≫= push_char c.
Proof. revert d. induction text as [|x text IH]; intros d; cbn [app push mbind option_bind]; [by destruct (push_char c d)|]. destruct (push_char x d); [apply IH|done]. Qed.
Lemma feed_all_snoc {E} (entry : str -> option E) etext limit sep text c st :
  feed_all entry etext limit sep (text ++ [c]) st = feed_all entry etext limit sep text st ≫= feed entry etext limit sep c.
Proof.
  revert st. induction text as [|x text IH]; intros st; cbn [app feed_all mbind option_bind]; [by destruct (feed _ _ _ _ c st)|].
  destruct (feed _ _ _ _ x st); [apply IH|done].
Qed.

Lemma push_spec th ml text : exists d, push text (new_detector th ml) = Some d /\
  buffer d = newest TEXT_BUFFER_CAPACITY text /\ threshold d = Nat.max th 2 /\ min_len d = Nat.max ml 1 /\
  feed_lines text ([], 0, []) = Some (lines_state d) /\ feed_words text ([], 0, []) = Some (words_state d).
Proof.
  induction text as [|c text (d & Hd & Hb & Ht & Hm & Hl & Hw)] using rev_ind; [by eexists|].
  rewrite push_snoc, Hd, !feed_all_snoc, Hl, Hw. cbn [mbind option_bind]. unfold push_char.
  assert (HbL : budgeted line_text LINE_WINDOW (lines_state d)).
  { destruct (feed_all_budgeted trimmed_line line_text LINE_WINDOW line_sep text ([], 0, [])) as (st & Hf & Hst);
      [split_and!; [split; cbn; lia|done|apply Nat.le_0_l]|]. rewrite Hl in Hf. by injection Hf as <-. }
  assert (HbW : budgeted word_text WORD_WINDOW (words_state d)).
  { destruct (feed_all_budgeted trimmed_word word_text WORD_WINDOW is_whitespace text ([], 0, [])) as (st & Hf & Hst);
      [split_and!; [split; cbn; lia|done|apply Nat.le_0_l]|]. rewrite Hw in Hf. by injection Hf as <-. }
  rewrite push_line_feed, push_word_feed.
  destruct (feed_budgeted trimmed_line line_text LINE_WINDOW line_sep c _ HbL) as ([[ls lc] pl] & -> & _).
  destruct (feed_budgeted trimmed_word word_text WORD_WINDOW is_whitespace c _ HbW) as ([[ws wc] pw] & -> & _).
  cbn [mbind option_bind]. eexists. split; [done|]. cbn [buffer threshold min_len]. split; [|done].
  rewrite Hb. symmetry. apply newest_snoc. apply Nat.lt_0_succ.
Qed.
(** *** Lines as [str::lines] has them *)

Lemma trim_snoc_space s c : is_whitespace c = true -> trim (s ++ [c]) = trim s.
Proof.
  intros Hc. unfold trim, trim_end, trim_start, trim_end_matches, trim_start_matches.
  destruct (decide (Forall (fun x => is_whitespace x = true) s)) as [Hs|Hs].
  - assert (E : forall r, Forall (fun x => is_whitespace x = true) r -> drop_while is_whitespace r = []).
    { intros r Hr. pose proof (drop_while_app_all is_whitespace r [] Hr) as E. by rewrite app_nil_r in E. }
    rewrite (E s Hs), (E (s ++ [c])); [done|]. apply Forall_app. split; [done|]. by repeat constructor.
  - assert (E : drop_while is_whitespace (s ++ [c]) = drop_while is_whitespace s ++ [c]).
    { induction s as [|x s IH]; [destruct Hs; constructor|]. cbn [app drop_while]. destruct (is_whitespace x) eqn:Ex; [|done].
      apply IH. intros Hall. apply Hs. by constructor. }
    rewrite E, rev_app_distr. cbn [rev app drop_while]. by rewrite Hc.
Qed.

Lemma trim_split_eol chunk : trim (fst (split_eol chunk)) = trim chunk.
Proof.
  destruct (split_eol chunk) as [body eol] eqn:E. pose proof (split_eol_app _ _ _ E) as Ec. cbn [fst].
  unfold split_eol in E. destruct (strip_suffix [NL] chunk) as [r|]; [destruct (strip_suffix [CR] r)|]; injection E as <- <-; rewrite Ec.
  - change [CR; NL] with ([CR] ++ [NL]). by rewrite app_assoc, !trim_snoc_space.
  - by rewrite trim_snoc_space.
  - by rewrite app_nil_r.
Qed.

Lemma trimmed_line_nl p : trimmed_line (p ++ [NL]) = trimmed_line p.
Proof. unfold trimmed_line. by rewrite trim_snoc_space. Qed.
Lemma trimmed_line_eol chunk : trimmed_line (fst (split_eol chunk)) = trimmed_line chunk.
Proof. unfold trimmed_line. by rewrite trim_split_eol. Qed.

Lemma split_inclusive_pieces text :
  omap trimmed_line (split_inclusive text) = omap trimmed_line (pieces line_sep text).
Proof.
  assert (Hg : forall p, (forall c, c ∈ p -> c <> NL) ->
    omap trimmed_line (match split_inclusive text with [] => if is_empty p then [] else [p] | q :: qs => (p ++ q) :: qs end) =
    omap trimmed_line (pieces_after line_sep p text)).
  { induction text as [|c text IH]; intros p Hp.
    - unfold pieces_after. cbn [split_inclusive pieces]. rewrite app_nil_r. by destruct p.
    - unfold pieces_after. cbn [split_inclusive pieces]. destruct (N.eqb_spec c NL) as [->|Hne].
      + rewrite app_nil_r. cbn [omap list_omap]. rewrite trimmed_line_nl.
        specialize (IH [] ltac:(by intros ? ?%not_elem_of_nil)). rewrite pieces_after_nil in IH. cbn [is_empty app] in IH.
        assert (E : match split_inclusive text with [] => [] | q :: qs => q :: qs end = split_inclusive text) by by destruct (split_inclusive text).
        rewrite E in IH. by rewrite IH.
      + specialize (IH (p ++ [c])). unfold pieces_after in IH.
        destruct (pieces_cons line_sep text) as (q & qs & Eq). rewrite Eq in *. rewrite <- app_assoc in IH. cbn [app] in IH.
        rewrite <- IH by (intros x [Hx| ->%list_elem_of_singleton]%elem_of_app; [by apply Hp|done]).
        destruct (split_inclusive text) as [|r rs]; [by destruct p|by rewrite <- app_assoc]. }
  specialize (Hg [] ltac:(by intros ? ?%not_elem_of_nil)). rewrite pieces_after_nil in Hg. rewrite <- Hg. cbn [is_empty app].
  by destruct (split_inclusive text).
Qed.

Lemma lines_pieces text : omap trimmed_line (lines text) = omap trimmed_line (pieces line_sep text).
Proof.
  rewrite <- split_inclusive_pieces. unfold lines. induction (split_inclusive text) as [|x l IH]; [done|].
  cbn [map omap list_omap]. rewrite trimmed_line_eol. by rewrite IH.
Qed.

(** *** The theorem of the windows *)

(** The words of a text. *)
Definition words_of text : list WordEntry := omap trimmed_word (pieces is_whitespace text).
Definition short_pieces (sep : char -> bool) text : Prop := Forall (fun q => blen q <= TEXT_BUFFER_CAPACITY) (pieces sep text).

(** The windows of the detector are those of the whole text.  However the
    text arrives in chunks, the detector does not panic; it holds the newest
    characters, and its lines and words are the last of the trimmed lines and
    words of the text, all of them as long as they fit the bounds.  The windows
    never outgrow their bounds. *)
Theorem windows_of_the_text th ml text :
  exists d, push text (new_detector th ml) = Some d /\
  buffer d = newest TEXT_BUFFER_CAPACITY text /\
  fits line_text LINE_WINDOW (lines_window d) /\ fits word_text WORD_WINDOW (words_window d) /\
  blen (partial_line d) <= TEXT_BUFFER_CAPACITY /\ blen (partial_word d) <= TEXT_BUFFER_CAPACITY /\
  (short_pieces line_sep text -> exists old, omap trimmed_line (lines text) = old ++ lines_view d /\
     (fits line_text LINE_WINDOW (omap trimmed_line (lines text)) -> old = [])) /\
  (short_pieces is_whitespace text -> exists old, words_of text = old ++ words_view d /\
     (fits word_text WORD_WINDOW (words_of text) -> old = [])).
Proof.
  destruct (push_spec th ml text) as (d & Hd & Hb & _ & _ & Hl & Hw). exists d.
  destruct (feed_all_budgeted trimmed_line line_text LINE_WINDOW line_sep text ([], 0, [])) as (sl & Hf & HL);
    [split_and!; [split; cbn; lia|done|apply Nat.le_0_l]|]. rewrite Hl in Hf. injection Hf as <-. destruct HL as (HL & _ & Hpl).
  destruct (feed_all_budgeted trimmed_word word_text WORD_WINDOW is_whitespace text ([], 0, [])) as (sw & Hf & HW);
    [split_and!; [split; cbn; lia|done|apply Nat.le_0_l]|]. rewrite Hw in Hf. injection Hf as <-. destruct HW as (HW & _ & Hpw).
  split_and!; [done|done|done|done|done|done|..]; intros Hs.
  - destruct (feed_all_view trimmed_line line_text LINE_WINDOW line_sep text Hs) as (w & p & old & Hf & Hv & Hfit).
    rewrite Hl in Hf. injection Hf as <- _ <-. exists old. rewrite lines_pieces. by split.
  - destruct (feed_all_view trimmed_word word_text WORD_WINDOW is_whitespace text Hs) as (w & p & old & Hf & Hv & Hfit).
    rewrite Hw in Hf. injection Hf as <- _ <-. exists old. by split.
Qed.
(** ** What the rules fire on *)

Lemma lookup_repeat {A} (p : list A) k j o : j < k -> o < length p -> concat (replicate k p) !! (j * length p + o) = p !! o.
Proof.
  revert j. induction k as [|k IH]; intros j Hj Ho; [lia|]. cbn [replicate concat]. destruct j as [|j].
  - by rewrite lookup_app_l by lia.
  - rewrite lookup_app_r by lia. replace (S j * length p + o - length p) with (j * length p + o) by lia. apply IH; lia.
Qed.
Lemma length_repeat {A} (p : list A) k : length (concat (replicate k p)) = k * length p.
Proof. induction k as [|k IH]; [done|]. cbn [replicate concat]. rewrite length_app, IH. lia. Qed.

(** The blocks of a list from its end. *)
Lemma repeated_tail {A} (b : list A) n pl th :
  length b = n -> pl * th <= n ->
  (forall g o, 1 <= g < th -> o < pl -> b !! (n - pl + o - g * pl) = b !! (n - pl + o)) ->
  exists pre, b = pre ++ concat (replicate th (drop (n - pl) b)).
Proof.
  intros Hn Hth Hb. assert (Hk : forall k, k <= th -> drop (n - k * pl) b = concat (replicate k (drop (n - pl) b))).
  { induction k as [|k IH]; intros Hk; [by apply drop_ge; lia|]. cbn [replicate concat].
    assert (Hle : S k * pl <= n) by nia. rewrite <- IH by lia.
    replace (n - k * pl) with (n - S k * pl + pl) by lia. rewrite <- drop_drop, <- (take_drop pl (drop (n - S k * pl) b)) at 1. f_equal.
    apply list_eq. intros o. destruct (Nat.lt_ge_cases o pl) as [Ho|Ho].
    - rewrite lookup_take_lt by done. rewrite !lookup_drop. destruct k as [|k]; [f_equal; lia|].
      rewrite <- (Hb (S k) o) by lia. f_equal. lia.
    - rewrite lookup_take_ge by done. symmetry. apply lookup_ge_None. rewrite length_drop. lia. }
  exists (take (n - th * pl) b). rewrite <- Hk by done. by rewrite take_drop.
Qed.

(** The text ends with [k] copies of [pat]. *)
Definition ends_with_copies (k : nat) (pat s : str) : Prop := exists pre, s = pre ++ concat (replicate k pat).

Lemma guards_spec (a b alnum code : bool) pl :
  (if negb a then false else if negb b then false else if negb alnum then false else if (pl <? 16) && code then false else true) = true <->
  a = true /\ b = true /\ alnum = true /\ ~ (pl < 16 /\ code = true).
Proof.
  destruct a, b, alnum; cbn [negb]; try (split; [done|by intros (? & ? & ? & _)]).
  destruct (Nat.ltb_spec pl 16), code; cbn [andb]; split; try done; first [intros (_ & _ & _ & Hn); by destruct Hn|intros _; split_and!; try done; intros [? ?]; try done; lia].
Qed.

Lemma tail_repeats_spec d pl : 0 < threshold d -> 0 < pl ->
  tail_repeats d pl = true <->
  exists pat, length pat = pl /\ ends_with_copies (threshold d) pat (buffer d) /\ existsb is_alphanumeric pat = true /\
    ~ (pl < 16 /\ is_code_pattern pat = true).
Proof.
  intros Hth Hpl. unfold tail_repeats, at_index. set (n := length (buffer d)). set (th := threshold d) in *.
  destruct (Nat.ltb_spec n (pl * th)) as [Hlt|Hge].
  { split; [done|]. intros (pat & Hp & (pre & E) & _). apply (f_equal length) in E. rewrite length_app, length_repeat in E. fold n in E. nia. }
  set (body := drop (n - pl) (buffer d)).
  assert (Hbody : length body = pl) by (unfold body; rewrite length_drop; fold n; nia).
  rewrite guards_spec.
  split.
  - intros (_ & Hall & Ha & Hc). exists body. split_and!; [done| |done|done].
    destruct (repeated_tail (buffer d) n pl th) as [pre E]; [done|done| |by exists pre].
    intros g o Hg Ho. rewrite forallb_forall in Hall. specialize (Hall o ltac:(apply in_seq; lia)). rewrite forallb_forall in Hall.
    specialize (Hall g ltac:(apply in_seq; lia)). by apply bool_decide_eq_true in Hall.
  - intros (pat & Hp & (pre & E) & Ha & Hc).
    assert (Hn : n = length pre + th * pl) by (unfold n; rewrite E, length_app, length_repeat; lia).
    assert (Hat : forall g o, g < th -> o < pl -> buffer d !! (n - pl + o - g * pl) = pat !! o).
    { intros g o Hg Ho. rewrite E at 1. rewrite lookup_app_r by nia.
      replace (n - pl + o - g * pl - length pre) with ((th - 1 - g) * length pat + o) by nia. apply lookup_repeat; lia. }
    assert (Hpat : body = pat).
    { apply list_eq. intros o. destruct (Nat.lt_ge_cases o pl) as [Ho|Ho]; [|rewrite !lookup_ge_None_2 by lia; done].
      unfold body. rewrite lookup_drop. rewrite <- (Hat 0 o) by lia. f_equal. lia. }
    rewrite Hpat. split_and!; [| |done|done]; apply forallb_forall.
    + intros g Hg%in_seq. apply bool_decide_eq_true. pose proof (Hat g (pl - 1) ltac:(lia) ltac:(lia)) as E1.
      pose proof (Hat 0 (pl - 1) ltac:(lia) ltac:(lia)) as E2. rewrite <- E2 in E1. etrans; [etrans; [|exact E1]|]; f_equal; nia.
    + intros o Ho%in_seq. apply forallb_forall. intros g Hg%in_seq. apply bool_decide_eq_true. rewrite (Hat g o) by lia.
      rewrite <- (Hat 0 o) by lia. f_equal. lia.
Qed.
Lemma tail_repeats_any_spec d : 0 < threshold d -> 0 < min_len d ->
  tail_repeats_any_length d = true <->
  exists pat, min_len d <= length pat /\ length pat * threshold d <= Nat.min (length (buffer d)) TAIL_SCAN_WINDOW /\
    ends_with_copies (threshold d) pat (buffer d) /\ existsb is_alphanumeric pat = true /\
    ~ (length pat < 16 /\ is_code_pattern pat = true).
Proof.
  intros Hth Hm. unfold tail_repeats_any_length, tail_scan_chars. rewrite existsb_exists. set (scan := Nat.min _ _). split.
  - intros (pl & Hin%in_rev%in_seq & Ht). apply tail_repeats_spec in Ht as (pat & <- & He & Ha & Hc); [|done|lia].
    exists pat. split_and!; try done; [lia|]. assert (length pat <= scan / threshold d) by lia.
    pose proof (Nat.Div0.mul_div_le scan (threshold d)). nia.
  - intros (pat & Hl & Hs & He & Ha & Hc). exists (length pat). split.
    + apply -> in_rev. apply in_seq.
      assert (length pat <= scan / threshold d) by (apply Nat.div_le_lower_bound; lia). lia.
    + apply tail_repeats_spec; [done|lia|]. by exists pat.
Qed.

(** *** Counters *)

Definition occurs {K} `{EqDecision K} (k : K) (keys : list K) : nat := length (List.filter (fun x => bool_decide (x = k)) keys).

Lemma reaches_from {K} `{Countable K} limit (m : gmap K nat) (keys : list K) :
  (forall k, default 0 (m !! k) < limit) ->
  reaches limit m keys = true <-> exists k, limit <= default 0 (m !! k) + occurs k keys.
Proof.
  revert m. induction keys as [|x keys IH]; intros m Hm; cbn [reaches].
  - split; [done|]. intros [k Hk]. specialize (Hm k). unfold occurs in Hk. cbn in Hk. lia.
  - destruct (Nat.leb_spec limit (S (default 0 (m !! x)))) as [Hle|Hgt].
    + split; [intros _|done]. exists x. unfold occurs. cbn [List.filter]. rewrite bool_decide_true by done. cbn [length]. lia.
    + assert (E : forall k, default 0 (<[x := S (default 0 (m !! x))]> m !! k) + occurs k keys = default 0 (m !! k) + occurs k (x :: keys)).
      { intros k. unfold occurs. cbn [List.filter]. destruct (decide (x = k)) as [->|Hne].
        - rewrite lookup_insert_eq, bool_decide_true by done. cbn [length default]. unfold id. lia.
        - by rewrite lookup_insert_ne, bool_decide_false. }
      rewrite IH.
      * split; intros [k Hk]; exists k; [by rewrite <- E|by rewrite E].
      * intros k. destruct (decide (x = k)) as [->|Hne]; [by rewrite lookup_insert_eq|by rewrite lookup_insert_ne].
Qed.
Lemma reaches_spec {K} `{Countable K} limit (keys : list K) : 0 < limit ->
  reaches limit ∅ keys = true <-> exists k, limit <= occurs k keys.
Proof. intros Hl. rewrite reaches_from; [by setoid_rewrite lookup_empty|]. intros k. by rewrite lookup_empty. Qed.

(** *** The last line *)

Lemma equal_lines_spec k (e : LineEntry) older : equal_lines k e older <= k /\
  (equal_lines k e older = k <-> k <= length older /\ Forall (fun x => line_text x = line_text e) (take k older)).
Proof.
  revert k. induction older as [|x older IH]; intros [|k]; cbn [equal_lines length take]; try (split; [lia|split; [intros ?; split; [lia|constructor]|done]]).
  - split; [lia|]. split; [done|intros [? _]; lia].
  - destruct (str_eqb (line_text x) (line_text e)) eqn:E.
    + apply str_eqb_eq in E. destruct (IH k) as [Hle Hk]. split; [lia|]. rewrite Forall_cons. split.
      * intros [= Hk']. apply Hk in Hk' as [? ?]. split; [lia|by split].
      * intros (? & _ & ?). f_equal. apply Hk. split; [lia|done].
    + split; [lia|]. split; [done|]. rewrite Forall_cons. intros (_ & E' & _). rewrite E', str_eqb_refl in E. done.
Qed.

(** The last [th] lines are one line, long enough and no divider: and not code,
    since the higher limit for code is never reached. *)
Definition same_last_lines (th : nat) (view : list LineEntry) : Prop :=
  exists e older, rev view = e :: older /\ 8 <= blen (line_text e) /\ alphanumeric e = true /\ divider e = false /\
    line_is_code e = false /\ th - 1 <= length older /\ Forall (fun x => line_text x = line_text e) (take (th - 1) older).
Lemma last_line_repeats_spec th view : 0 < th -> last_line_repeats th view = true <-> same_last_lines th view.
Proof.
  intros Hth. unfold last_line_repeats, same_last_lines. destruct (rev view) as [|e older]; [split; [done|by intros (? & ? & ? & _)]|].
  destruct (equal_lines_spec (th - 1) e older) as [Hle Heq].
  destruct ((8 <=? blen (line_text e)) && alphanumeric e && negb (divider e)) eqn:Eg.
  - rewrite !andb_true_iff, Nat.leb_le, negb_true_iff in Eg. destruct Eg as [[? ?] ?]. rewrite Nat.leb_le. split.
    + intros Hl. destruct (line_is_code e) eqn:Ec; [lia|]. exists e, older. assert (equal_lines (th - 1) e older = th - 1) as [? ?]%Heq by lia. by split_and!.
    + intros (e' & older' & [= <- <-] & _ & _ & _ & -> & Hk). apply Heq in Hk. lia.
  - split; [done|]. intros (e' & older' & [= <- <-] & ? & Ha & Hd & _). apply not_true_iff_false in Eg. destruct Eg.
    rewrite Ha, Hd, andb_true_r, andb_true_iff, Nat.leb_le. done.
Qed.

(** The detector fires exactly on its four rules: the newest text ends with
    the threshold of copies of a pattern that is not syntax; or the last lines
    are the same sentence; or a pair of lines, a long sentence or four words in
    a row come back often enough among the lines and words it still holds.
    Repeated lines of code never count, however often they come. *)
Theorem repeating_spec th ml text d :
  push text (new_detector th ml) = Some d ->
  let k := Nat.max th 2 in let th' := Nat.max k 3 in
  is_repeating d = true <->
  (exists pat, Nat.max ml 1 <= length pat /\ length pat * k <= Nat.min (length text) TAIL_SCAN_WINDOW /\
     ends_with_copies k pat (newest TEXT_BUFFER_CAPACITY text) /\ existsb is_alphanumeric pat = true /\
     ~ (length pat < 16 /\ is_code_pattern pat = true)) \/
  same_last_lines th' (lines_view d) \/
  th' <= length (lines_view d) /\ (exists pair, th' <= occurs pair (omap bigram (windows2 (lines_view d)))) \/
  th' <= length (lines_view d) /\ (exists line, th' * 2 <= occurs line (omap sentence (lines_view d))) \/
  (exists gram, th' <= occurs gram (omap word_gram (windows4 (words_view d)))).
Proof.
  intros Hd k th'. destruct (push_spec th ml text) as (d' & Hd' & Hb & Ht & Hm & _). rewrite Hd in Hd'. injection Hd' as <-.
  unfold is_repeating, line_or_phrase_repeats. cbv zeta. rewrite Ht. fold k th'.
  rewrite !orb_true_iff, !andb_true_iff, !orb_true_iff, tail_repeats_any_spec by lia. rewrite Ht, Hm, Hb. fold k.
  rewrite last_line_repeats_spec, !reaches_spec, !Nat.leb_le by lia.
  assert (Hlen : Nat.min (length (newest TEXT_BUFFER_CAPACITY text)) TAIL_SCAN_WINDOW = Nat.min (length text) TAIL_SCAN_WINDOW).
  { assert (Hw : TAIL_SCAN_WINDOW <= TEXT_BUFFER_CAPACITY) by (apply Nat.leb_le; vm_compute; reflexivity).
    unfold newest. rewrite length_drop. lia. }
  rewrite Hlen.
  assert (Hlast : same_last_lines th' (lines_view d) -> th' <= length (lines_view d)).
  { intros (e & older & E & _ & _ & _ & _ & Hl & _). rewrite <- length_rev, E. cbn. lia. }
  assert (Hgram : (exists gram, th' <= occurs gram (omap word_gram (windows4 (words_view d)))) -> 4 <= length (words_view d)).
  { intros [g Hg]. destruct (words_view d) as [|? [|? [|? [|? l]]]]; [cbn in Hg; lia..|cbn [length]; lia]. }
  intuition.
Qed.
End text.

#[local] Existing Instance ascii_tables.
Definition hello : str := lit "hello world hello world hello world ".
Definition hello_detector : RepetitionDetector := default (new_detector 3 5) (push hello (new_detector 3 5)).
Lemma hello_pushed : push hello (new_detector 3 5) = Some hello_detector.
Proof. vm_compute. reflexivity. Qed.
Example repeating_spec_witness :
  push hello (new_detector 3 5) = Some hello_detector /\
  (is_repeating hello_detector = true <->
   (exists pat, Nat.max 5 1 <= length pat /\ length pat * Nat.max 3 2 <= Nat.min (length hello) TAIL_SCAN_WINDOW /\
      ends_with_copies (Nat.max 3 2) pat (newest TEXT_BUFFER_CAPACITY hello) /\ existsb is_alphanumeric pat = true /\
      ~ (length pat < 16 /\ is_code_pattern pat = true)) \/
   same_last_lines (Nat.max (Nat.max 3 2) 3) (lines_view hello_detector) \/
   Nat.max (Nat.max 3 2) 3 <= length (lines_view hello_detector) /\
     (exists pair, Nat.max (Nat.max 3 2) 3 <= occurs pair (omap bigram (windows2 (lines_view hello_detector)))) \/
   Nat.max (Nat.max 3 2) 3 <= length (lines_view hello_detector) /\
     (exists line, Nat.max (Nat.max 3 2) 3 * 2 <= occurs line (omap sentence (lines_view hello_detector))) \/
   (exists gram, Nat.max (Nat.max 3 2) 3 <= occurs gram (omap word_gram (windows4 (words_view hello_detector))))).
Proof. split; [exact hello_pushed|exact (repeating_spec 3 5 hello hello_detector hello_pushed)]. Defined.

(** What the rules say of some texts: prose said five times is a loop, and a
    line of code said twenty times is none. *)
Definition fires (text : str) : option bool := is_repeating <$> push text (new_detector 5 20).
Example prose_fires : fires (concat (repeat (lit "I will check the file." ++ [NL]) 5)) = Some true.
Proof. vm_compute. reflexivity. Qed.
Example prose_four_times_silent : fires (concat (repeat (lit "I will check the file." ++ [NL]) 4)) = Some false.
Proof. vm_compute. reflexivity. Qed.

(** Two files read page by page, in turn: six reads, each of another page, are
    cut as a cycle at the threshold of three. *)
#[local] Instance character_numbers : Numbers := {| Number := N; number_eqb := N.eqb |}.
Definition page (file : str) (offset : N) : ToolCallRecord :=
  {| name := TOOL_READ_FILE; arguments := VObject [(lit "offset", VNumber offset); (lit "path", VString file)] |}.
Example alternating_pages_cut :
  classify (observed 3 [page (lit "a") 0; page (lit "b") 0; page (lit "a") 50; page (lit "b") 50; page (lit "a") 100]%N)
    (page (lit "b") 100) = Cut.
Proof. vm_compute. reflexivity. Qed.
