(* ===== verification/CallArguments.v ===== *)
(** * Arguments of a tool call ([src/types/wire.rs])

    A call's arguments are kept as the text of a JSON object, whatever the model
    wrote. *)

From S2P Require Import Prelude Str Pool Wire Json.
Local Open Scope nat_scope.

Section arguments.
Context `{JsonText}.

Definition MALFORMED : str := lit "malformed_arguments".
Definition says_malformed (map : list (str * Value)) : bool :=
  match map_get map (lit "_error") ≫= as_str with Some e => str_eqb e MALFORMED | None => false end.

(** The text sent, and whether the arguments were malformed. *)
Definition ensure_valid_json_arguments (raw : str) : str * bool :=
  let trimmed := trim raw in
  if is_empty trimmed then (lit "{}", false)
  else
    match from_json trimmed with
    | Some (VObject map) => (trimmed, says_malformed map)
    | Some other => (to_json (VObject (map_insert [] (lit "_raw_value") other)), false)
    | None =>
        (to_json (VObject (map_insert (map_insert [] (lit "_error") (VString MALFORMED)) (lit "_raw") (VString raw))), true)
    end.

(** [ToolCall::new] *)
Definition new_call (id name arguments : str) : ToolCall :=
  {| tc_id := id; tc_kind := lit "function";
     tc_function := {| fn_name := name; fn_arguments := fst (ensure_valid_json_arguments arguments) |} |}.
Definition sanitize_arguments (c : ToolCall) : ToolCall :=
  {| tc_id := tc_id c; tc_kind := tc_kind c;
     tc_function := {| fn_name := fn_name (tc_function c);
                       fn_arguments := fst (ensure_valid_json_arguments (fn_arguments (tc_function c))) |} |}.
Definition is_malformed (c : ToolCall) : bool :=
  match from_json (fn_arguments (tc_function c)) with
  | Some (VObject map) => says_malformed map
  | _ => true
  end.

(** ** Facts *)

Definition is_object_text (s : str) : Prop := exists map, from_json s = Some (VObject map).

Lemma braced_trim s : trim ([ch "{"] ++ s ++ [ch "}"]) = [ch "{"] ++ s ++ [ch "}"].
Proof.
  apply trim_id. split; [done|]. rewrite !rev_app_distr. by destruct (rev s).
Qed.

Lemma wrapped_canonical v : canonical v -> canonical (VObject (map_insert [] (lit "_raw_value") v)).
Proof. intros Hv. split; [repeat constructor|by split]. Qed.
Lemma fallback_canonical raw :
  canonical (VObject (map_insert (map_insert [] (lit "_error") (VString MALFORMED)) (lit "_raw") (VString raw))).
Proof. split; [|done]. repeat constructor; by vm_compute. Qed.

Lemma malformed_get map v : map_get map (lit "_error") = v ->
  says_malformed map = match v ≫= as_str with Some e => str_eqb e MALFORMED | None => false end.
Proof. unfold says_malformed. by intros ->. Qed.

Context `{!JsonTextLaw}.

(** A text of an object is sent as it is. *)
Lemma ensure_object s map : trim s = s -> s <> [] -> from_json s = Some (VObject map) ->
  ensure_valid_json_arguments s = (s, says_malformed map).
Proof. intros Ht Hne Hj. unfold ensure_valid_json_arguments. rewrite Ht, Hj. by destruct s. Qed.

(** [sent] reads as an object that says whether the arguments were [bad]. *)
Definition sent_well (sent : str) (bad : bool) : Prop :=
  (exists map, from_json sent = Some (VObject map) /\ says_malformed map = bad) /\ ensure_valid_json_arguments sent = (sent, bad).
Lemma printed_sent_well map : canonical (VObject map) -> depth (VObject map) <= depth_limit ->
  sent_well (to_json (VObject map)) (says_malformed map).
Proof.
  intros Hc Hd. destruct (from_to_json _ Hc Hd) as (v & Hj & Ha). apply alike_object in Ha as (map' & -> & Hg).
  assert (E : says_malformed map' = says_malformed map) by (unfold says_malformed; by rewrite Hg).
  rewrite <- E. split; [by exists map'|]. destruct (to_json_object map) as [s Hs].
  apply ensure_object; [| |done]; rewrite Hs; [apply braced_trim|done].
Qed.

Lemma ensure_spec raw :
  (forall v, from_json (trim raw) = Some v -> as_object v = None -> depth v < depth_limit) ->
  sent_well (fst (ensure_valid_json_arguments raw)) (snd (ensure_valid_json_arguments raw)).
Proof.
  intros Hd. unfold ensure_valid_json_arguments. pose proof depth_limit_pos. destruct (is_empty (trim raw)) eqn:Ee.
  { split; [exists []; split; [apply from_json_empty|done]|]. by apply (ensure_object (lit "{}") []); [| |apply from_json_empty]. }
  assert (Hne : trim raw <> []) by by intros E; rewrite E in Ee.
  destruct (from_json (trim raw)) as [v|] eqn:Ej; cbn [fst snd].
  - assert (Hw : as_object v = None -> sent_well (to_json (VObject (map_insert [] (lit "_raw_value") v))) false).
    { intros Ho. apply (printed_sent_well (map_insert [] (lit "_raw_value") v)).
      - apply wrapped_canonical, (from_json_canonical _ _ Ej).
      - specialize (Hd v eq_refl Ho). cbn [map_insert depth]. lia. }
    destruct v as [| | | | |map]; try by apply Hw.
    split; [by exists map|]. apply ensure_object; [apply trim_idemp|done|done].
  - assert (E : says_malformed (map_insert (map_insert [] (lit "_error") (VString MALFORMED)) (lit "_raw") (VString raw)) = true).
    { erewrite malformed_get; [|rewrite map_get_insert_ne by done; apply map_get_insert]. apply str_eqb_refl. }
    rewrite <- E at 2. apply printed_sent_well; [apply fallback_canonical|exact depth_limit_pos].
Qed.

(** C36: whatever text a model wrote for the arguments of a call, the call built
    from it carries a JSON object: reading the stored text gives an object, a
    second sanitising changes nothing, and the call says it is malformed exactly
    when the text was neither empty nor JSON, or already said so.  The one
    exception are values that are no object and nest as deep as the reader
    goes: wrapped in an object they are too deep to be read again. *)
Theorem call_arguments_object id name raw :
  (forall v, from_json (trim raw) = Some v -> as_object v = None -> depth v < depth_limit) ->
  let call := new_call id name raw in
  is_object_text (fn_arguments (tc_function call)) /\
  sanitize_arguments call = call /\
  (is_malformed call = true <-> trim raw <> [] /\
    (from_json (trim raw) = None \/ exists map, from_json (trim raw) = Some (VObject map) /\ says_malformed map = true)).
Proof.
  intros Hd. cbn zeta. pose proof (ensure_spec raw Hd) as [(map & Hj & Hb) Hi].
  unfold is_object_text, sanitize_arguments, is_malformed, new_call. cbn [tc_function fn_arguments fn_name tc_id tc_kind].
  rewrite Hi, Hj. split_and!; [by exists map|done|]. rewrite Hb. unfold ensure_valid_json_arguments.
  destruct (trim raw) as [|c t] eqn:Et; cbn [is_empty snd]; [by split; [|intros []]|].
  destruct (from_json (c :: t)) as [[| | | | |m]|] eqn:Ej; cbn [snd].
  1-5: by split; [|intros [_ [?|(? & ? & _)]]].
  - split; [intros Hm; split; [done|]; right; by exists m|by intros [_ [?|(? & [= <-] & ?)]]].
  - split; [intros _; split; [done|by left]|done].
Qed.
End arguments.

#[local] Existing Instance demo_numbers.
#[local] Existing Instance demo_json.
#[local] Existing Instance demo_law.
Example call_arguments_object_witness :
  let raw := lit " [,n] " in
  let call := new_call (lit "1") (lit "read_file") raw in
  from_json (trim raw) = Some (VArray [VNull]) /\
  is_object_text (fn_arguments (tc_function call)) /\ sanitize_arguments call = call /\
  (is_malformed call = true <-> trim raw <> [] /\
    (from_json (trim raw) = None \/ exists map, from_json (trim raw) = Some (VObject map) /\ says_malformed map = true)).
Proof.
  split; [reflexivity|]. apply (call_arguments_object (lit "1") (lit "read_file") (lit " [,n] ")).
  intros v [= <-] _. apply Nat.leb_le. reflexivity.
Defined.

(** An array that nests as deep as the reader goes: a call that is malformed,
    though its arguments were JSON, and that a second sanitising changes. *)
Fixpoint nested (n : nat) : Value := match n with 0 => VNull | S k => VArray [nested k] end.
Definition deep_call : ToolCall := new_call (lit "1") (lit "read_file") (to_json (nested 127)).
Example deep_array_turns_malformed :
  from_json (to_json (nested 127)) = Some (nested 127) /\ snd (ensure_valid_json_arguments (to_json (nested 127))) = false /\
  is_malformed deep_call = true /\ sanitize_arguments deep_call <> deep_call.
Proof.
  split_and!; [vm_compute; reflexivity|vm_compute; reflexivity|vm_compute; reflexivity|].
  intros E%(f_equal (fun c => length (fn_arguments (tc_function c)))). vm_compute in E. discriminate E.
Qed.
