(* ===== verification/XmlRescue.v ===== *)
(** * Tool calls written as text ([src/harness/monitor/xml.rs])

    A model that writes its call as markup instead of calling: the blocks are
    found in the text, those inside fenced code are skipped, and each is read in
    one of three ways.  Offsets are in bytes; a slice that ends before it begins
    or falls inside a character is a panic. *)

From S2P Require Import Prelude Str Pool Wire Json CallArguments ToolNames Registry.
Local Open Scope nat_scope.

Definition OPEN_TAG : str := lit "<tool_call".
Definition CLOSE_TAG : str := lit "</tool_call>".
Definition MARK : str := lit "tool_call".
Definition FUNCTION_TAG : str := lit "<function=".
Definition FUNCTION_END : str := lit "</function>".
Definition PARAMETER_TAG : str := lit "<parameter=".
Definition PARAMETER_END : str := lit "</parameter>".
Definition GT : str := lit ">".
Definition DQUOTE : str := [34%N].

(** ** Blocks *)

(** The search for the legacy form, from byte [search] on. *)
Fixpoint find_legacy (fuel : nat) (text : str) (search : nat) : outcome (option (nat * nat)) :=
  match fuel with
  | 0 => Ret None
  | S k =>
      rest ← unwrap (get_from text search);
      match find_str MARK rest with
      | None => Ret None
      | Some idx =>
          let candidate := search + idx in
          let after := candidate + blen MARK in
          after_ws ← unwrap (get_from text after);
          let after_ws_pos := after + sum_with len_utf8 (take_while is_whitespace after_ws) in
          tail ← unwrap (get_from text after_ws_pos);
          if starts_with FUNCTION_TAG tail then
            Ret match find_str FUNCTION_END tail with
                | Some fc => Some (candidate, after_ws_pos + fc + blen FUNCTION_END)
                | None => None
                end
          else find_legacy k text (candidate + blen MARK)
      end
  end.
Definition find_next_tool_call_block (text : str) (from : nat) : outcome (option (nat * nat)) :=
  rest ← unwrap (get_from text from);
  angle ← match find_str OPEN_TAG rest with
          | Some rel =>
              tail ← unwrap (get_from rest rel);
              Ret match find_str CLOSE_TAG tail with
                  | Some close => Some (from + rel, from + rel + close + blen CLOSE_TAG)
                  | None => None
                  end
          | None => Ret None
          end;
  match angle with
  | Some block => Ret (Some block)
  | None => find_legacy (S (blen text)) text from
  end.

(** ** Fences *)

Inductive FenceState := Outside | Inside (c : char) (len : nat).
Definition fence_delimiter (line : str) : option (char * nat) :=
  let trimmed := trim_start line in
  match trimmed with
  | [] => None
  | first :: _ =>
      if negb (first =? ch "`")%N && negb (first =? ch "~")%N then None
      else
        let run := length (take_while (N.eqb first) trimmed) in
        if run <? 3 then None else Some (first, run)
  end.
Fixpoint fence_loop (state : FenceState) (open_start offset : nat) (chunks : list str) : list (nat * nat) :=
  match chunks with
  | [] => match state with Inside _ _ => [(open_start, offset)] | Outside => [] end
  | line :: rest =>
      let line_end := offset + blen line in
      match state with
      | Outside =>
          match fence_delimiter line with
          | Some (c, len) => fence_loop (Inside c len) offset line_end rest
          | None => fence_loop Outside open_start line_end rest
          end
      | Inside c len =>
          match fence_delimiter line with
          | Some (c', l) => if (c' =? c)%N && (len <=? l) then (open_start, line_end) :: fence_loop Outside open_start line_end rest
                            else fence_loop state open_start line_end rest
          | None => fence_loop state open_start line_end rest
          end
      end
  end.
Definition fenced_spans (text : str) : list (nat * nat) := fence_loop Outside 0 0 (split_inclusive text).
Definition inside_fenced_span (spans : list (nat * nat)) (at_ : nat) : bool :=
  existsb (fun span => (fst span <=? at_) && (at_ <? snd span)) spans.

(** ** Reading a block *)

Section rescue.
Context `{JsonText} `{Uuids}.

Definition extract_inner_text (block : str) : outcome str :=
  match find_str GT block with
  | None => Ret block
  | Some i => let open_end := i + 1 in
              match find_str CLOSE_TAG block with
              | Some close => unwrap (get block open_end close)
              | None => unwrap (get_from block open_end)
              end
  end.
(** The value after the first [attr=] of the block. *)
Definition extract_attribute (block attr : str) : option str :=
  match find_split (attr ++ lit "=") block with
  | None => None
  | Some (_, after) =>
      let value := trim_start after in
      match strip_prefix DQUOTE value with
      | Some stripped => fst <$> find_split DQUOTE stripped
      | None =>
          let word := take_while (fun c => negb ((c =? ch ">")%N || is_whitespace c)) value in
          if length word =? length value then None else Some word
      end
  end.

Definition canonicalize_arguments (name : str) (arguments : Value) : Value :=
  if negb (str_eqb name TOOL_GREP_SEARCH) then arguments
  else
    match arguments with
    | VObject map =>
        match map_get map (lit "query") with
        | Some value => VObject (map_or_insert (map_remove map (lit "query")) (lit "pattern") value)
        | None => VObject map
        end
    | other => other
    end.
(** [drawn] ids were drawn before. *)
Definition make_rescued_call (drawn : N) (name : str) (arguments : Value) : ToolCall :=
  new_call (lit "call_text_" ++ uuid_v4 drawn) name
    match canonicalize_arguments name arguments with VString s => s | other => to_json other end.

Definition try_embedded_json (block : str) : outcome (option (str * Value)) :=
  inner ← extract_inner_text block;
  Ret (obj ← from_json (trim inner) ≫= as_object;
       name ← or_else (map_get obj (lit "function")) (map_get obj (lit "name")) ≫= as_str;
       Some (name, default VNull (map_get obj (lit "arguments")))).
Definition try_function_attr (block : str) : outcome (option (str * str)) :=
  match extract_attribute block (lit "function") with
  | None => Ret None
  | Some name => body ← extract_inner_text block; Ret (Some (name, body))
  end.

(** The argument a bare body stands for. *)
Definition body_key (name : str) : option str :=
  if str_eqb name TOOL_WRITE_FILE || str_eqb name TOOL_REPLACE then Some (lit "content")
  else if str_eqb name TOOL_READ_FILE then Some (lit "path")
  else if str_eqb name TOOL_RUN_COMMAND then Some (lit "command")
  else if str_eqb name TOOL_GREP_SEARCH then Some (lit "pattern")
  else if str_eqb name TOOL_GLOB then Some (lit "pattern")
  else None.
Definition ATTRIBUTES : list str :=
  [lit "path"; lit "file"; lit "file_path"; lit "filepath"; lit "filename"; lit "command"; lit "query"; lit "pattern"; lit "doc";
   lit "destination"; lit "dest"; lit "target"].
Definition add_attribute (block : str) (map : list (str * Value)) (attr : str) : list (str * Value) :=
  match extract_attribute block attr with Some val => map_or_insert map attr (VString val) | None => map end.
Definition body_arguments (name args_json : str) : list (str * Value) :=
  let inner := trim args_json in
  match from_json inner with
  | Some (VObject m) => m
  | _ => if is_empty inner then [] else match body_key name with Some key => map_insert [] key (VString inner) | None => [] end
  end.

(** The [<parameter=key>value</parameter>] pairs of a body, from a cursor on;
    [None] inside is a tag that is not closed. *)
Fixpoint parameters (fuel : nat) (rest : str) (map : list (str * Value)) : option (list (str * Value)) :=
  match fuel with
  | 0 => Some map
  | S k =>
      match find_split PARAMETER_TAG rest with
      | None => Some map
      | Some (_, after) =>
          '(key, value) ← find_split GT after;
          parameters k value match find_split PARAMETER_END value with
                             | Some (val, _) => map_insert map (trim key) (VString (trim val))
                             | None => map
                             end
      end
  end.
Definition try_legacy_function_block (drawn : N) (block : str) : option ToolCall :=
  '(_, named) ← find_split FUNCTION_TAG block;
  '(name, after) ← find_split GT named;
  '(body, _) ← find_split FUNCTION_END after;
  map ← parameters (length body) body [];
  Some (make_rescued_call drawn (trim name) (if is_empty map then VString (trim body) else VObject map)).

Definition parse_tool_call_block (drawn : N) (block : str) : outcome (option ToolCall) :=
  embedded ← try_embedded_json block;
  match embedded with
  | Some (name, arguments) => Ret (Some (make_rescued_call drawn name arguments))
  | None =>
      attributed ← try_function_attr block;
      match attributed with
      | Some (name, body) =>
          args_json ← extract_inner_text body;
          let map := foldl (add_attribute block) (body_arguments name args_json) ATTRIBUTES in
          Ret (Some (make_rescued_call drawn name (if is_empty map then VString (trim args_json) else VObject map)))
      | None => Ret (try_legacy_function_block drawn block)
      end
  end.

(** ** The scan *)

Fixpoint rescue_loop (fuel : nat) (text : str) (fenced : list (nat * nat)) (scan_from : nat) (drawn : N) : outcome (list ToolCall) :=
  match fuel with
  | 0 => Ret []
  | S k =>
      found ← find_next_tool_call_block text scan_from;
      match found with
      | None => Ret []
      | Some (start, stop) =>
          call ← (if inside_fenced_span fenced start then Ret None
                  else block ← unwrap (get text start stop); parse_tool_call_block drawn block);
          match call with
          | Some c => cs ← rescue_loop k text fenced stop (drawn + 1)%N; Ret (c :: cs)
          | None => rescue_loop k text fenced stop drawn
          end
      end
  end.
(** The calls; a rescue that finds one counts as one intervention. *)
Definition rescue (drawn : N) (text : str) : outcome (list ToolCall) := rescue_loop (S (blen text)) text (fenced_spans text) 0 drawn.
Definition rescue_counted (drawn : N) (text : str) (xml_tool_rescues : N) : outcome (list ToolCall * N) :=
  calls ← rescue drawn text;
  Ret (calls, if is_empty calls then xml_tool_rescues else (xml_tool_rescues + 1)%N).

End rescue.
