(* ===== verification/XmlFacts.v ===== *)
(** * Facts of the rescue of textual calls ([src/harness/monitor/xml.rs])

    What a block of a text is, which blocks are skipped as fenced, and on which
    the rescue panics. *)

From S2P Require Import Prelude Str Pool Wire PlanParse Json CallArguments ToolNames Registry XmlRescue.
Local Open Scope nat_scope.

(** ** What a block is

    The blocks of a text, without the search that finds them. *)

(** [needle] occurs in [s] after [a] and not earlier; [b] is what follows. *)
Definition first_in (needle s a b : str) : Prop := s = a ++ needle ++ b /\ forall a' b', s = a' ++ needle ++ b' -> length a <= length a'.
(** A pair of tags: from the first opening tag to the first closing tag after it. *)
Definition tagged (rest pre block post : str) : Prop :=
  exists q m, first_in OPEN_TAG rest pre q /\ first_in CLOSE_TAG (OPEN_TAG ++ q) m post /\ block = m ++ CLOSE_TAG.
(** A legacy call begins after [a]: the word, blanks and the tag of a function. *)
Definition legacy_head (s a ws r : str) : Prop := s = a ++ MARK ++ ws ++ FUNCTION_TAG ++ r /\ Forall (fun c => is_whitespace c = true) ws.
(** The first legacy call, up to the first end of a function after it. *)
Definition legacy (rest pre block post : str) : Prop :=
  exists ws r m, legacy_head rest pre ws r /\ (forall a ws' r', legacy_head rest a ws' r' -> length pre <= length a) /\
    first_in FUNCTION_END (FUNCTION_TAG ++ r) m post /\ block = MARK ++ ws ++ m ++ FUNCTION_END.
Definition none_of (P : str -> str -> str -> str -> Prop) (rest : str) : Prop := forall pre block post, ~ P rest pre block post.
(** The blocks of [rest] with their offsets, [rest] lying at [off].  A legacy
    call is a block only when no pair of tags is left behind it. *)
Inductive Blocks : nat -> str -> list (nat * str) -> Prop :=
  | no_block off rest : none_of tagged rest -> none_of legacy rest -> Blocks off rest []
  | tagged_block off rest pre block post bs :
      tagged rest pre block post -> Blocks (off + blen (pre ++ block)) post bs -> Blocks off rest ((off + blen pre, block) :: bs)
  | legacy_block off rest pre block post bs :
      none_of tagged rest -> legacy rest pre block post -> Blocks (off + blen (pre ++ block)) post bs ->
      Blocks off rest ((off + blen pre, block) :: bs).

Lemma same_cut (a a' b b' : str) : a ++ b = a' ++ b' -> length a = length a' -> a = a' /\ b = b'.
Proof. intros E Hl. by apply app_inj_1. Qed.
Lemma first_in_unique needle s a b a' b' : first_in needle s a b -> first_in needle s a' b' -> a = a' /\ b = b'.
Proof.
  intros [E Hm] [E' Hm']. specialize (Hm _ _ E'). specialize (Hm' _ _ E). rewrite E in E'. destruct (same_cut _ _ _ _ E' ltac:(lia)) as [-> E2]. clear E'. rename E2 into E'.
  split; [done|]. by apply app_inv_head in E'.
Qed.
Lemma find_str_first needle s n : find_str needle s = Some n -> exists a b, first_in needle s a b /\ blen a = n.
Proof. intros (a & b & E & Hn & Hm)%find_str_Some. exists a, b. by repeat split. Qed.
Lemma tagged_unique rest pre b post pre' b' post' : tagged rest pre b post -> tagged rest pre' b' post' -> pre = pre' /\ b = b' /\ post = post'.
Proof.
  intros (q & m & H1 & H2 & ->) (q' & m' & H1' & H2' & ->). destruct (first_in_unique _ _ _ _ _ _ H1 H1') as [-> ->].
  destruct (first_in_unique _ _ _ _ _ _ H2 H2') as [-> ->]. done.
Qed.

Lemma blanks_before_tag (ws ws' r r' : str) : Forall (fun c => is_whitespace c = true) ws -> Forall (fun c => is_whitespace c = true) ws' ->
  ws ++ FUNCTION_TAG ++ r = ws' ++ FUNCTION_TAG ++ r' -> ws = ws' /\ r = r'.
Proof.
  intros Hw. revert ws'. induction Hw as [|c ws Hc _ IH]; intros ws' Hw' E; destruct Hw' as [|c' ws' Hc' Hw']; cbn [app] in E.
  - split; [done|]. by apply app_inv_head in E.
  - injection E as <- _. done.
  - injection E as -> _. done.
  - injection E as -> E. by destruct (IH _ Hw' E) as [-> ->].
Qed.
Lemma legacy_unique rest pre b post pre' b' post' : legacy rest pre b post -> legacy rest pre' b' post' -> pre = pre' /\ b = b' /\ post = post'.
Proof.
  intros (ws & r & m & H1 & H2 & H3 & ->) (ws' & r' & m' & H1' & H2' & H3' & ->). specialize (H2 _ _ _ H1'). specialize (H2' _ _ _ H1).
  destruct H1 as [E Hw], H1' as [E' Hw']. rewrite E in E'. destruct (same_cut _ _ _ _ E' ltac:(lia)) as [-> E2]. clear E'. rename E2 into E'. split; [done|]. apply app_inv_head in E'.
  destruct (blanks_before_tag _ _ _ _ Hw Hw' E') as [-> ->]. destruct (first_in_unique _ _ _ _ _ _ H3 H3') as [-> ->]. done.
Qed.

(** The word cannot overlap itself. *)
Lemma mark_overlap (q x y : str) : MARK ++ q = x ++ MARK ++ y -> x = [] \/ exists x', x = MARK ++ x' /\ q = x' ++ MARK ++ y.
Proof.
  intros E. apply app_eq_inv in E as [(k & Ek & Eq)|(k & -> & Eq)]; [|right; by exists k].
  destruct (decide (length x < 9)) as [Hl|Hl].
  - left. destruct x as [|c1 [|c2 [|c3 [|c4 [|c5 [|c6 [|c7 [|c8 [|c9 x]]]]]]]]]; [done|..|cbn [length] in Hl; lia]; exfalso;
      cbn [app MARK lit] in Ek; injection Ek; intros; subst; cbn in Eq; discriminate Eq.
  - right. exists []. assert (k = []) as ->.
    { apply (f_equal length) in Ek. rewrite length_app in Ek. change (length MARK) with 9 in Ek. destruct k; [done|cbn [length] in Ek; lia]. }
    rewrite app_nil_r in Ek. cbn [app] in Eq. by rewrite app_nil_r.
Qed.

(** ** The search finds the blocks *)

Lemma head_at q : starts_with FUNCTION_TAG (drop_while is_whitespace q) = true <-> exists ws r, q = ws ++ FUNCTION_TAG ++ r /\ Forall (fun c => is_whitespace c = true) ws.
Proof.
  split.
  - intros [r Hr]%starts_with_true. exists (take_while is_whitespace q), r. split; [rewrite <- Hr; symmetry; apply take_drop_while|apply take_while_Forall].
  - intros (ws & r & -> & Hw). by rewrite drop_while_app_all.
Qed.
Lemma legacy_heads p q a ws r : first_in MARK (p ++ MARK ++ q) p q -> legacy_head (p ++ MARK ++ q) a ws r ->
  a = p /\ q = ws ++ FUNCTION_TAG ++ r \/ exists a', a = p ++ MARK ++ a' /\ legacy_head q a' ws r.
Proof.
  intros [_ Hm] [E Hw]. pose proof (Hm _ _ E) as Hl. assert (Hk : exists k, a = p ++ k).
  { apply app_eq_inv in E as [(k & -> & _)|(k & -> & _)]; [|by exists k]. rewrite length_app in Hl. destruct k; [|cbn [length] in Hl; lia]. exists []. by rewrite !app_nil_r. }
  destruct Hk as [k ->]. rewrite <- app_assoc in E. apply app_inv_head in E. apply mark_overlap in E as Ho. destruct Ho as [->|(x' & -> & ->)].
  - left. rewrite app_nil_r. split; [done|]. rewrite app_nil_l in E. by apply app_inv_head in E.
  - right. by exists x'.
Qed.
Lemma legacy_later p q pre block post : first_in MARK (p ++ MARK ++ q) p q -> starts_with FUNCTION_TAG (drop_while is_whitespace q) = false ->
  legacy (p ++ MARK ++ q) pre block post <-> exists pre', pre = p ++ MARK ++ pre' /\ legacy q pre' block post.
Proof.
  intros Hf Hs. assert (Hno : forall ws r, Forall (fun c => is_whitespace c = true) ws -> q <> ws ++ FUNCTION_TAG ++ r).
  { intros ws r Hw E. assert (Ht : starts_with FUNCTION_TAG (drop_while is_whitespace q) = true) by (apply head_at; by exists ws, r). congruence. }
  split.
  - intros (ws & r & m & Hh & Hmin & He & ->). destruct (legacy_heads _ _ _ _ _ Hf Hh) as [[_ E]|(pre' & -> & Hh')]; [by destruct (Hno ws r (proj2 Hh))|].
    exists pre'. split; [done|]. exists ws, r, m. split_and!; [done| |done|done]. intros a ws' r' [Ea Hw].
    specialize (Hmin (p ++ MARK ++ a) ws' r'). rewrite !length_app in Hmin. enough (length p + (length MARK + length pre') <= length p + (length MARK + length a)) by lia.
    apply Hmin. split; [|done]. rewrite Ea. by rewrite <- !app_assoc.
  - intros (pre' & -> & ws & r & m & [E Hw] & Hmin & He & ->). exists ws, r, m. split_and!; [split; [rewrite E; by rewrite <- !app_assoc|done]| |done|done].
    intros a ws' r' Hh. destruct (legacy_heads _ _ _ _ _ Hf Hh) as [[_ Eq]|(a' & -> & Hh')]; [by destruct (Hno ws' r' (proj2 Hh))|].
    specialize (Hmin _ _ _ Hh'). rewrite !length_app. lia.
Qed.

(** What a search answers of [rest] at [off]. *)
Definition finds (P : str -> str -> str -> str -> Prop) (off : nat) (rest : str) (x : outcome (option (nat * nat))) : Prop :=
  x = Ret None /\ none_of P rest \/
  exists pre block post, P rest pre block post /\ x = Ret (Some (off + blen pre, off + blen (pre ++ block))).
Lemma legacy_parts rest pre block post : legacy rest pre block post -> rest = pre ++ block ++ post /\ 0 < blen block.
Proof.
  intros (ws & r & m & [-> _] & _ & [E _] & ->). split; [rewrite E; by rewrite <- !app_assoc|]. rewrite blen_app. change (blen MARK) with 9. lia.
Qed.
Lemma tagged_parts rest pre block post : tagged rest pre block post -> rest = pre ++ block ++ post /\ 0 < blen block.
Proof.
  intros (q & m & [-> _] & [E _] & ->). split; [rewrite E; by rewrite <- !app_assoc|]. rewrite blen_app. change (blen CLOSE_TAG) with 12. lia.
Qed.
Lemma find_legacy_finds fuel before rest : length rest < fuel -> finds legacy (blen before) rest (find_legacy fuel (before ++ rest) (blen before)).
Proof.
  revert before rest. induction fuel as [|k IH]; intros before rest Hl; [lia|]. cbn [find_legacy].
  rewrite get_from_app. cbn [unwrap mbind outcome_bind]. destruct (find_str MARK rest) as [idx|] eqn:E.
  2:{ left. split; [done|]. intros pre block post (ws & r & m & [Er _] & _). by apply (proj1 (find_str_None _ _) E pre (ws ++ FUNCTION_TAG ++ r)). }
  apply find_str_first in E as (p & q & Hf & <-). assert (Hf' := Hf). destruct Hf' as [-> _].
  assert (Ea : before ++ p ++ MARK ++ q = (before ++ p ++ MARK) ++ q) by by rewrite <- !app_assoc.
  assert (El : blen before + blen p + blen MARK = blen (before ++ p ++ MARK)) by (rewrite !blen_app; lia).
  rewrite Ea, El, get_from_app. cbn [unwrap mbind outcome_bind].
  set (ws := take_while is_whitespace q). set (r := drop_while is_whitespace q).
  assert (Eq : q = ws ++ r) by (symmetry; apply take_drop_while). change (sum_with len_utf8 ws) with (blen ws).
  assert (Ea2 : (before ++ p ++ MARK) ++ q = (before ++ p ++ MARK ++ ws) ++ r) by (rewrite Eq at 1; by rewrite <- !app_assoc).
  assert (El2 : blen (before ++ p ++ MARK) + blen ws = blen (before ++ p ++ MARK ++ ws)) by (rewrite !blen_app; lia).
  rewrite Ea2, El2, get_from_app, <- Ea2. cbn [unwrap mbind outcome_bind].
  assert (Hws : Forall (fun c => is_whitespace c = true) ws) by apply take_while_Forall.
  destruct (starts_with FUNCTION_TAG r) eqn:Es.
  - apply starts_with_true in Es as [r2 Er].
    assert (Hh : legacy_head (p ++ MARK ++ q) p ws r2) by (split; [by rewrite Eq, Er|done]).
    assert (Hmin : forall a ws' r', legacy_head (p ++ MARK ++ q) a ws' r' -> length p <= length a).
    { intros a ws' r' [Ea' _]. destruct Hf as [_ Hm]. by apply (Hm a (ws' ++ FUNCTION_TAG ++ r')). }
    destruct (find_str FUNCTION_END r) as [fc|] eqn:Ef; [right|left; split; [done|]].
    + apply find_str_first in Ef as (m & post & He & <-). exists p, (MARK ++ ws ++ m ++ FUNCTION_END), post. split.
      * exists ws, r2, m. rewrite <- Er. by split_and!.
      * do 3 f_equal; rewrite !blen_app; lia.
    + intros pre block post (ws' & r' & m & Hh' & Hmin' & [He _] & _). specialize (Hmin' _ _ _ Hh). pose proof (Hmin _ _ _ Hh') as Hle.
      destruct Hh as [E1 _], Hh' as [E2 Hw2]. rewrite E1 in E2. destruct (same_cut _ _ _ _ E2 ltac:(lia)) as [_ E3]. apply app_inv_head in E3.
      destruct (blanks_before_tag _ _ _ _ Hws Hw2 E3) as [_ Err]. rewrite <- Err, <- Er in He. by apply (proj1 (find_str_None _ _) Ef m post).
  - assert (Hlq : length q < k) by (rewrite !length_app in Hl; change (length MARK) with 9 in Hl; lia).
    destruct (IH (before ++ p ++ MARK) q Hlq) as [[-> Hn]|(pre & block & post & HL & ->)]; [left|right].
    + split; [done|]. intros pre block post (pre' & -> & HL)%legacy_later; [|done|done]. by apply (Hn pre' block post).
    + exists (p ++ MARK ++ pre), block, post. split; [apply legacy_later; [done|done|]; by exists pre|]. do 3 f_equal; rewrite !blen_app; lia.
Qed.
Definition next_block (rest pre block post : str) : Prop := tagged rest pre block post \/ none_of tagged rest /\ legacy rest pre block post.
Lemma next_parts rest pre block post : next_block rest pre block post -> rest = pre ++ block ++ post /\ 0 < blen block.
Proof. intros [?|[_ ?]]; [by apply tagged_parts|by apply legacy_parts]. Qed.
Lemma find_next_finds before rest : finds next_block (blen before) rest (find_next_tool_call_block (before ++ rest) (blen before)).
Proof.
  unfold find_next_tool_call_block. rewrite get_from_app. cbn [unwrap mbind outcome_bind].
  assert (Hleg : none_of tagged rest -> finds next_block (blen before) rest (find_legacy (S (blen (before ++ rest))) (before ++ rest) (blen before))).
  { intros Hn. pose proof (find_legacy_finds (S (blen (before ++ rest))) before rest) as Hl.
    destruct Hl as [[-> Hnl]|(pre & block & post & HL & ->)]; [pose proof (length_le_blen rest); rewrite blen_app; lia|left|right].
    - split; [done|]. intros pre block post [Ht|[_ HL]]; [by apply (Hn pre block post)|by apply (Hnl pre block post)].
    - exists pre, block, post. split; [by right|done]. }
  destruct (find_str OPEN_TAG rest) as [rel|] eqn:E; cbn [mbind outcome_bind].
  - apply find_str_first in E as (p & q & Hf & <-). assert (Eg : get_from rest (blen p) = Some (OPEN_TAG ++ q)) by (rewrite (proj1 Hf); apply get_from_app). rewrite Eg. cbn [unwrap mbind outcome_bind].
    destruct (find_str CLOSE_TAG (OPEN_TAG ++ q)) as [close|] eqn:Ec.
    + right. apply find_str_first in Ec as (m & post & Hc & <-). exists p, (m ++ CLOSE_TAG), post. split; [left; by exists q, m|].
      do 3 f_equal; rewrite !blen_app; lia.
    + apply Hleg. intros pre block post (q' & m & Hf' & [Em _] & _). destruct (first_in_unique _ _ _ _ _ _ Hf Hf') as [_ ->].
      by apply (proj1 (find_str_None _ _) Ec m post).
  - apply Hleg. intros pre block post (q' & m & [Er _] & _). by apply (proj1 (find_str_None _ _) E pre q').
Qed.

(** Every text has its blocks, and no others. *)
Lemma blocks_exist off rest : exists bs, Blocks off rest bs.
Proof.
  revert off. induction rest as [rest IH] using (induction_ltof1 _ blen). intros off.
  assert (Hstep : forall pre block post, next_block rest pre block post -> exists bs, Blocks (off + blen (pre ++ block)) post bs).
  { intros pre block post [-> Hb]%next_parts. apply IH. unfold ltof. rewrite !blen_app. lia. }
  destruct (find_next_finds [] rest) as [[_ Hn]|(pre & block & post & Hb & _)].
  - assert (Ht : none_of tagged rest) by (intros pre block post Ht; by apply (Hn pre block post); left).
    exists []. constructor; [done|]. intros pre block post HL. by apply (Hn pre block post); right.
  - destruct (Hstep _ _ _ Hb) as [bs Hbs]. eexists. destruct Hb as [Ht|[Hn HL]]; [by eapply tagged_block|by eapply legacy_block].
Qed.
Lemma blocks_unique off rest bs bs' : Blocks off rest bs -> Blocks off rest bs' -> bs' = bs.
Proof.
  intros Hb. revert bs'. induction Hb as [off rest Hn Hnl|off rest pre block post bs Ht _ IH|off rest pre block post bs Hn HL _ IH];
    intros bs' Hb'; inversion Hb' as [? ? Hn' Hnl'|? ? pre' block' post' ? Ht' ?|? ? pre' block' post' ? Hn' HL' ?]; subst.
  - done.
  - by destruct (Hn pre' block' post').
  - by destruct (Hnl pre' block' post').
  - by destruct (Hn' pre block post).
  - destruct (tagged_unique _ _ _ _ _ _ _ Ht Ht') as (-> & -> & ->). f_equal. by apply IH.
  - by destruct (Hn' pre block post).
  - by destruct (Hnl' pre block post).
  - by destruct (Hn pre' block' post').
  - destruct (legacy_unique _ _ _ _ _ _ _ HL HL') as (-> & -> & ->). f_equal. by apply IH.
Qed.
Lemma next_unique rest pre b post pre' b' post' : next_block rest pre b post -> next_block rest pre' b' post' -> pre = pre' /\ b = b' /\ post = post'.
Proof.
  intros [Ht|[Hn HL]] [Ht'|[Hn' HL']]; [by eapply tagged_unique|by destruct (Hn' pre b post)|by destruct (Hn pre' b' post')|by eapply legacy_unique].
Qed.
Lemma find_next_at before rest pre block post : next_block rest pre block post ->
  find_next_tool_call_block (before ++ rest) (blen before) = Ret (Some (blen before + blen pre, blen before + blen (pre ++ block))).
Proof.
  intros Hb. destruct (find_next_finds before rest) as [[_ Hn]|(pre' & block' & post' & Hb' & ->)]; [by destruct (Hn pre block post)|].
  by destruct (next_unique _ _ _ _ _ _ _ Hb Hb') as (-> & -> & _).
Qed.

(** ** Panics *)

(** The closing tag comes before the opening one ends. *)
Definition closes_early (block : str) : Prop := exists a b, block = a ++ CLOSE_TAG ++ b /\ ch ">" ∉ a.

Lemma find_gt_none (a b : str) : ch ">" ∉ a -> find_str GT (a ++ GT ++ b) = Some (blen a).
Proof.
  intros Ha. destruct (find_str GT (a ++ GT ++ b)) as [n|] eqn:E.
  - apply find_str_Some in E as (a' & b' & Es & <- & Hmin). specialize (Hmin a b eq_refl).
    f_equal. change GT with [ch ">"] in *. destruct (Nat.lt_ge_cases (length a') (length a)) as [Hlt|Hge].
    + exfalso. apply Ha. assert (Hl : (a' ++ [ch ">"] ++ b') !! length a' = Some (ch ">")) by (by rewrite lookup_app_r, Nat.sub_diag by lia).
      rewrite <- Es, lookup_app_l in Hl by done. by apply list_elem_of_lookup_2 in Hl.
    + apply (f_equal (take (length a))) in Es. rewrite take_app_length in Es. rewrite take_app_le in Es by lia.
      rewrite Es, take_ge by lia. done.
  - exfalso. by apply (proj1 (find_str_None _ _) E a b).
Qed.

Lemma first_gt_unique (a b a' b' : str) :
  a ++ GT ++ b = a' ++ GT ++ b' -> ch ">" ∉ a -> ch ">" ∉ a' -> a = a' /\ b = b'.
Proof.
  intros E Ha Ha'. pose proof (find_gt_none a b Ha) as F. rewrite E, (find_gt_none a' b' Ha') in F. injection F as F.
  pose proof (split_at_app a (GT ++ b)) as S1. rewrite E, <- F, split_at_app in S1. injection S1 as -> S2. by split.
Qed.

Lemma close_tag_split : CLOSE_TAG = lit "</tool_call" ++ GT /\ ch ">" ∉ lit "</tool_call".
Proof. split; [done|]. vm_compute. intros Hin. repeat (apply elem_of_cons in Hin as [?|Hin]; [done|]). by apply not_elem_of_nil in Hin. Qed.

Section reading.
Context `{JsonText} `{Uuids}.

(** The text inside a block that does not close early has no closing tag. *)
Lemma extract_inner_text_spec block :
  closes_early block /\ extract_inner_text block = Panic \/
  ~ closes_early block /\ exists inner, extract_inner_text block = Ret inner /\
    ~ exists a b, inner = a ++ CLOSE_TAG ++ b.
Proof.
  unfold extract_inner_text. destruct (find_str GT block) as [i|] eqn:Eg.
  2:{ right. assert (Hn : ch ">" ∉ block).
      { intros (a & b & ->)%list_elem_of_split. by apply (proj1 (find_str_None _ _) Eg a b). }
      assert (Hc : ~ exists a b, block = a ++ CLOSE_TAG ++ b) by (intros (a & b & ->); apply Hn; rewrite (proj1 close_tag_split); set_solver).
      split; [intros (a & b & E & _); apply Hc; by exists a, b|by exists block]. }
  apply find_str_Some in Eg as (a & b & Eb & <- & Hmin).
  assert (Ha : ch ">" ∉ a). { intros (x & y & ->)%list_elem_of_split. specialize (Hmin x (y ++ GT ++ b)).
    rewrite Eb, <- app_assoc in Hmin. specialize (Hmin eq_refl). rewrite length_app in Hmin. cbn in Hmin. lia. }
  destruct (find_str CLOSE_TAG block) as [close|] eqn:Ec.
  2:{ right. split; [intros (x & y & E & _); by apply (proj1 (find_str_None _ _) Ec x y)|]. exists b.
      assert (Eb' : block = (a ++ GT) ++ b) by by rewrite <- app_assoc. assert (El : blen a + 1 = blen (a ++ GT)) by by rewrite blen_app.
      rewrite El, Eb' at 1. rewrite get_from_app. split; [done|]. intros (x & y & ->). apply (proj1 (find_str_None _ _) Ec (a ++ GT ++ x) y).
      rewrite Eb. by rewrite <- !app_assoc. }
  apply find_str_Some in Ec as (p & q & Ep & <- & Hfirst). destruct (decide (ch ">" ∈ p)) as [Hp|Hp].
  - right. apply list_elem_of_split_l in Hp as (x & m & -> & Hx). destruct (first_gt_unique a b x (m ++ CLOSE_TAG ++ q)) as [-> ->];
      [rewrite <- Eb, Ep; by rewrite <- app_assoc|done|done|]. split.
    + intros (a' & b' & E & Ha'). pose proof (Hfirst a' b' E) as Hl. apply Ha'. rewrite Ep in E. apply (f_equal (take (length a'))) in E.
      rewrite take_app_length, take_app, (take_ge (x ++ _)) in E by done. rewrite <- E. set_solver.
    + exists m. rewrite (get_slice block (x ++ GT) m (CLOSE_TAG ++ q)); [split; [done|]|by rewrite Eb, <- app_assoc|by rewrite blen_app|].
      2:{ change (ch ">" :: m) with (GT ++ m). rewrite !blen_app. change (blen GT) with 1. lia. }
      intros (u & v & ->). assert (E : block = (x ++ GT ++ u) ++ CLOSE_TAG ++ v ++ CLOSE_TAG ++ q).
      { rewrite Eb. by rewrite <- !app_assoc. }
      pose proof (Hfirst _ _ E) as Hl. change (ch ">" :: u ++ CLOSE_TAG ++ v) with (GT ++ u ++ CLOSE_TAG ++ v) in Hl.
      repeat (rewrite !length_app in Hl || cbn [length] in Hl). change (length CLOSE_TAG) with 12 in Hl. lia.
  - left. split; [by exists p, q|]. destruct close_tag_split as [Et Ht].
    destruct (first_gt_unique a b (p ++ lit "</tool_call") q) as [-> ->]; [|done|set_solver|].
    + rewrite <- Eb, Ep, Et. by rewrite <- !app_assoc.
    + unfold get. rewrite blen_app. destruct (Nat.leb_spec (blen p + blen (lit "</tool_call") + 1) (blen p)); [lia|done].
Qed.

Lemma parse_panics drawn block : parse_tool_call_block drawn block = Panic <-> closes_early block.
Proof.
  unfold parse_tool_call_block, try_embedded_json. destruct (extract_inner_text_spec block) as [[Hc ->]|(Hc & inner & Ei & Hn)]; [done|].
  rewrite Ei. cbn [mbind outcome_bind]. split; [|done]. match goal with |- context [match ?o with Some _ => _ | None => _ end = Panic] => destruct o as [[name args]|]; [done|] end.
  unfold try_function_attr. destruct (extract_attribute block (lit "function")) as [name|]; [|done]. rewrite Ei. cbn [mbind outcome_bind].
  destruct (extract_inner_text_spec inner) as [[(a & b & E & _) _]|(_ & body & -> & _)]; [|done].
  destruct Hn. by exists a, b.
Qed.

(** ** The scan *)

Definition outside (fenced : list (nat * nat)) (b : nat * str) : bool := negb (inside_fenced_span fenced (fst b)).
(** The calls of blocks read one after the other, each drawing an id. *)
Fixpoint read_blocks (drawn : N) (bs : list str) : list ToolCall :=
  match bs with
  | [] => []
  | b :: bs' => match parse_tool_call_block drawn b with
                | Ret (Some c) => c :: read_blocks (drawn + 1)%N bs'
                | _ => read_blocks drawn bs'
                end
  end.

(** The blocks that are no fenced examples. *)
Definition unfenced (text : str) (bs : list (nat * str)) : list str := map snd (List.filter (outside (fenced_spans text)) bs).

(** A scan ends with the calls of its blocks, or on the first that closes early. *)
Definition reads (drawn : N) (out : list str) (x : outcome (list ToolCall)) : Prop :=
  Exists closes_early out /\ x = Panic \/ ~ Exists closes_early out /\ x = Ret (read_blocks drawn out).
Lemma reads_step fuel before rest pre block post fenced bs drawn : next_block rest pre block post ->
  (forall drawn, reads drawn (map snd (List.filter (outside fenced) bs)) (rescue_loop fuel (before ++ rest) fenced (blen before + blen (pre ++ block)) drawn)) ->
  reads drawn (map snd (List.filter (outside fenced) ((blen before + blen pre, block) :: bs))) (rescue_loop (S fuel) (before ++ rest) fenced (blen before) drawn).
Proof.
  intros Hb Hrest. cbn [rescue_loop]. rewrite (find_next_at before rest pre block post Hb). cbn [mbind outcome_bind List.filter].
  change (outside fenced (blen before + blen pre, block)) with (negb (inside_fenced_span fenced (blen before + blen pre))).
  destruct (inside_fenced_span fenced (blen before + blen pre)); cbn [negb]; [apply Hrest|].
  apply next_parts in Hb as [-> _]. rewrite (get_slice _ (before ++ pre) block post) by (rewrite ?blen_app; rewrite <-?app_assoc; done || lia).
  cbn [unwrap mbind outcome_bind map snd]. pose proof (parse_panics drawn block) as Hp. unfold reads. cbn [read_blocks].
  destruct (parse_tool_call_block drawn block) as [[c|]|].
  - assert (Hc : ~ closes_early block) by by intros ?%Hp. rewrite Exists_cons.
    destruct (Hrest (drawn + 1)%N) as [[He ->]|[He ->]]; cbn [mbind outcome_bind]; [left; split; [by right|done]|right; split; [by intros [?|?]|done]].
  - assert (Hc : ~ closes_early block) by by intros ?%Hp. rewrite Exists_cons.
    destruct (Hrest drawn) as [[He ->]|[He ->]]; [left; split; [by right|done]|right; split; [by intros [?|?]|done]].
  - left. split; [|done]. apply Exists_cons. left. by apply Hp.
Qed.
Lemma rescue_loop_reads off rest bs : Blocks off rest bs -> forall before fuel fenced drawn, off = blen before -> blen rest < fuel ->
  reads drawn (map snd (List.filter (outside fenced) bs)) (rescue_loop fuel (before ++ rest) fenced off drawn).
Proof.
  assert (Hgo : forall before rest pre block post, next_block rest pre block post -> before ++ rest = (before ++ pre ++ block) ++ post /\
    blen before + blen (pre ++ block) = blen (before ++ pre ++ block) /\ blen post < blen rest).
  { intros before rest0 pre block post [-> Hb]%next_parts. rewrite !blen_app, <-!app_assoc. split_and!; [done|lia|lia]. }
  induction 1 as [off rest Hn Hnl|off rest pre block post bs Ht _ IH|off rest pre block post bs Hn HL _ IH];
    intros before [|fuel] fenced drawn -> Hf; try lia.
  - right. split; [by intros ?%Exists_nil|]. cbn [rescue_loop].
    destruct (find_next_finds before rest) as [[-> _]|(pre & block & post & [Ht|[_ HL]] & _)]; [done|by destruct (Hn pre block post)|by destruct (Hnl pre block post)].
  - destruct (Hgo before rest pre block post (or_introl Ht)) as (E & El & Hlt). eapply (reads_step _ _ _ _ _ post); [by left|]. intros drawn'. rewrite E.
    apply IH; [done|lia].
  - destruct (Hgo before rest pre block post (or_intror (conj Hn HL))) as (E & El & Hlt). eapply (reads_step _ _ _ _ _ post); [by right|]. intros drawn'. rewrite E.
    apply IH; [done|lia].
Qed.
Lemma rescue_reads drawn text bs : Blocks 0 text bs -> reads drawn (unfenced text bs) (rescue drawn text).
Proof. intros Hb. apply (rescue_loop_reads 0 text bs Hb []); [done|lia]. Qed.
(** The texts the rescue panics on. *)
Definition crossed (text : str) : Prop := exists bs, Blocks 0 text bs /\ Exists closes_early (unfenced text bs).
Lemma rescue_crossed drawn text : rescue drawn text = Panic -> crossed text.
Proof.
  destruct (blocks_exist 0 text) as [bs Hb]. destruct (rescue_reads drawn text bs Hb) as [[He _]|[_ ->]]; [|done]. intros _. by exists bs.
Qed.

(** C22: the rescue reads the blocks of the text.  Every text has one list of
    blocks: from each point on, the first pair of tags that is left, and only
    when none is left the first legacy call, so that a legacy call in front of
    a pair of tags is no block.  The rescue reads each block that does not
    begin inside fenced code, in order, and nothing else; it panics exactly when
    one of these has its closing tag before its opening tag has ended. *)
Theorem rescue_reads_blocks drawn text :
  exists bs, Blocks 0 text bs /\ (forall bs', Blocks 0 text bs' -> bs' = bs) /\
    (rescue drawn text = Panic <-> Exists closes_early (unfenced text bs)) /\
    (forall calls, rescue drawn text = Ret calls -> calls = read_blocks drawn (unfenced text bs)).
Proof.
  destruct (blocks_exist 0 text) as [bs Hb]. exists bs. split; [done|]. split; [intros bs'; by apply blocks_unique|].
  destruct (rescue_reads drawn text bs Hb) as [[He ->]|[He ->]]; (split; [by split|]); [done|by intros calls [= <-]].
Qed.
End reading.

(** ** Fences *)

Definition conv (s : FenceState) : PlanParse.FenceState :=
  match s with Outside => PlanParse.Outside | Inside c len => PlanParse.Inside c len end.

(** A terminator does not change what a line opens or closes. *)
Lemma fence_delimiter_chunk chunk : fence_delimiter chunk = PlanParse.fence_delimiter (fst (split_eol chunk)).
Proof.
  destruct (split_eol chunk) as [body eol] eqn:E. cbn [fst].
  assert (Heol : Forall (fun c => is_whitespace c = true) eol).
  { unfold split_eol in E. destruct (strip_suffix [NL] chunk) as [r|]; [destruct (strip_suffix [CR] r)|]; injection E as _ <-; by repeat constructor. }
  rewrite (split_eol_app _ _ _ E). clear E chunk. unfold fence_delimiter, PlanParse.fence_delimiter.
  assert (Ht : trim_start (body ++ eol) = trim_start body ++ (if is_empty (trim_start body) then [] else eol)).
  { unfold trim_start, trim_start_matches. induction body as [|c body IH]; cbn [app drop_while].
    - pose proof (drop_while_app_all is_whitespace eol [] Heol) as Ed. by rewrite app_nil_r in Ed.
    - destruct (is_whitespace c); [done|by rewrite app_nil_r || done]. }
  rewrite Ht. destruct (trim_start body) as [|first r] eqn:Eb; [done|]. cbn [is_empty app].
  destruct (negb (first =? ch "`")%N && negb (first =? ch "~")%N) eqn:En; [done|].
  assert (Hr : take_while (N.eqb first) (first :: r ++ eol) = take_while (N.eqb first) (first :: r)); [|by rewrite Hr].
  assert (Hf : is_whitespace first = false).
  { apply andb_false_iff in En as [En|En]; apply negb_false_iff, N.eqb_eq in En as ->; done. }
  change (first :: r ++ eol) with ((first :: r) ++ eol). clear Ht Eb En. induction (first :: r) as [|x l IH]; cbn [app take_while].
  - destruct eol as [|x eol]; [done|]. cbn [take_while]. destruct (N.eqb_spec first x) as [->|]; [|done].
    apply Forall_cons in Heol as [Hx _]. congruence.
  - destruct (first =? x)%N; [by rewrite IH|done].
Qed.

(** Whether an offset lies in a line that the automaton does not keep. *)
Definition chunk_step (state : FenceState) (chunk : str) : bool * FenceState :=
  match state with
  | Outside => match fence_delimiter chunk with Some (c, len) => (false, Inside c len) | None => (true, Outside) end
  | Inside c len => match fence_delimiter chunk with
                    | Some (c', l) => (false, if (c' =? c)%N && (len <=? l) then Outside else state)
                    | None => (false, state)
                    end
  end.
Lemma chunk_step_plan state chunk :
  PlanParse.fence_step (conv state) (fst (split_eol chunk)) = (fst (chunk_step state chunk), conv (snd (chunk_step state chunk))).
Proof.
  unfold PlanParse.fence_step, chunk_step. destruct state as [|c len]; cbn [conv]; rewrite <- fence_delimiter_chunk;
    destruct (fence_delimiter chunk) as [[c' l]|]; try done. by destruct (_ && _).
Qed.
Fixpoint covered (state : FenceState) (offset : nat) (chunks : list str) (at_ : nat) : bool :=
  match chunks with
  | [] => false
  | chunk :: rest =>
      let '(keep, state') := chunk_step state chunk in
      if at_ <? offset + blen chunk then negb keep else covered state' (offset + blen chunk) rest at_
  end.

Lemma spans_outside o offset chunks at_ : at_ < offset -> inside_fenced_span (fence_loop Outside o offset chunks) at_ = false.
Proof.
  assert (Hg : forall st o offset, (match st with Outside => at_ < offset | Inside _ _ => at_ < o /\ at_ < offset end) ->
    inside_fenced_span (fence_loop st o offset chunks) at_ = false); [|intros; by apply Hg].
  clear o offset. induction chunks as [|chunk rest IH]; intros st o offset Ha; cbn [fence_loop].
  - destruct st; [done|]. unfold inside_fenced_span. cbn [existsb fst snd]. destruct (Nat.leb_spec o at_); [lia|done].
  - destruct st as [|c len].
    + destruct (fence_delimiter chunk) as [[c len]|]; apply IH; lia.
    + destruct (fence_delimiter chunk) as [[c' l]|]; [|apply IH; lia]. destruct ((c' =? c)%N && (len <=? l)); [|apply IH; lia].
      unfold inside_fenced_span in *. cbn [existsb fst snd]. rewrite IH by lia. destruct (Nat.leb_spec o at_); [lia|done].
Qed.

Lemma spans_inside c len o offset chunks at_ : o <= at_ < offset -> inside_fenced_span (fence_loop (Inside c len) o offset chunks) at_ = true.
Proof.
  revert offset. induction chunks as [|chunk rest IH]; intros offset Ha; cbn [fence_loop].
  - unfold inside_fenced_span. cbn [existsb fst snd]. destruct (Nat.leb_spec o at_); [|lia]. by destruct (Nat.ltb_spec at_ offset); [|lia].
  - destruct (fence_delimiter chunk) as [[c' l]|]; [|apply IH; lia]. destruct ((c' =? c)%N && (len <=? l)); [|apply IH; lia].
    unfold inside_fenced_span. cbn [existsb fst snd]. destruct (Nat.leb_spec o at_); [|lia]. by destruct (Nat.ltb_spec at_ (offset + blen chunk)); [|lia].
Qed.

Lemma fence_loop_covered chunks st o offset at_ :
  offset <= at_ < offset + blen (concat chunks) -> (match st with Outside => True | Inside _ _ => o <= offset end) ->
  inside_fenced_span (fence_loop st o offset chunks) at_ = covered st offset chunks at_.
Proof.
  revert st o offset. induction chunks as [|chunk rest IH]; intros st o offset Ha Ho; cbn [concat] in Ha; [rewrite blen_nil in Ha; lia|].
  rewrite blen_app in Ha. cbn [fence_loop covered]. unfold chunk_step. destruct st as [|c len].
  - destruct (fence_delimiter chunk) as [[c len]|]; destruct (Nat.ltb_spec at_ (offset + blen chunk)); cbn [negb].
    + apply spans_inside; lia.
    + apply IH; lia.
    + apply spans_outside; lia.
    + apply IH; [lia|done].
  - destruct (fence_delimiter chunk) as [[c' l]|]; [destruct ((c' =? c)%N && (len <=? l))|];
      destruct (Nat.ltb_spec at_ (offset + blen chunk)); cbn [negb]; try (apply spans_inside; lia); try (apply IH; lia);
      unfold inside_fenced_span; cbn [existsb fst snd].
    + destruct (Nat.leb_spec o at_); [|lia]. by destruct (Nat.ltb_spec at_ (offset + blen chunk)); [|lia].
    + destruct (Nat.ltb_spec at_ (offset + blen chunk)); [lia|]. rewrite andb_false_r. apply IH; [lia|done].
Qed.

Lemma scan_lines_index st idx chunks i : In i (map fst (PlanParse.scan_lines st idx chunks)) -> idx <= i.
Proof.
  revert st idx. induction chunks as [|chunk rest IH]; intros st idx; cbn [PlanParse.scan_lines map]; [done|].
  destruct (PlanParse.fence_step st chunk) as [[] st']; cbn [map fst In]; [intros [<-|Hi]; [lia|]|intros Hi]; apply IH in Hi; lia.
Qed.

Lemma covered_scannable st offset pre chunk post at_ idx :
  offset + blen (concat pre) <= at_ < offset + blen (concat pre) + blen chunk ->
  covered st offset (pre ++ chunk :: post) at_ = false <->
  In (idx + length pre) (map fst (PlanParse.scan_lines (conv st) idx (map (fun c => fst (split_eol c)) (pre ++ chunk :: post)))).
Proof.
  revert st offset idx. induction pre as [|x pre IH]; intros st offset idx Ha; cbn [app map covered concat length PlanParse.scan_lines] in *;
    rewrite chunk_step_plan; destruct (chunk_step st _) as [keep st'] eqn:E; cbn [fst snd].
  - rewrite blen_nil in Ha. destruct (Nat.ltb_spec at_ (offset + blen chunk)); [|lia]. rewrite Nat.add_0_r.
    destruct keep; cbn [negb map fst In]; [split; [by left|done]|]. split; [done|]. intros Hi%scan_lines_index. lia.
  - rewrite blen_app in Ha. destruct (Nat.ltb_spec at_ (offset + blen x)); [lia|].
    rewrite (IH st' (offset + blen x) (S idx)) by lia. replace (S idx + length pre) with (idx + S (length pre)) by lia.
    destruct keep; cbn [map fst In]; [|done]. split; [by right|intros [?|?]; [lia|done]].
Qed.

(** The rescue and the plan grammar agree on fences: an offset of the text
    lies in a fenced span exactly when its line is not one the plan's reader
    would look at. *)
Theorem fences_agree text pre chunk post at_ :
  split_inclusive text = pre ++ chunk :: post ->
  blen (concat pre) <= at_ < blen (concat pre) + blen chunk ->
  inside_fenced_span (fenced_spans text) at_ = false <-> In (length pre) (map fst (PlanParse.scannable_lines text)).
Proof.
  intros Es Ha. unfold fenced_spans, PlanParse.scannable_lines, lines.
  rewrite fence_loop_covered; [|rewrite concat_split_inclusive|done].
  - rewrite Es. by apply (covered_scannable Outside 0 pre chunk post at_ 0).
  - assert (El : blen text = blen (concat pre) + blen chunk + blen (concat post)).
    { rewrite <- (concat_split_inclusive text), Es, concat_app. cbn [concat]. rewrite !blen_app. lia. }
    lia.
Qed.

Example fences_agree_witness :
  let text := lit "a" ++ [NL] ++ lit "```" ++ [NL] ++ lit "b" ++ [NL] ++ lit "```" ++ [NL] in
  split_inclusive text = [lit "a" ++ [NL]; lit "```" ++ [NL]] ++ (lit "b" ++ [NL]) :: [lit "```" ++ [NL]] /\
  (inside_fenced_span (fenced_spans text) 6 = false <-> In 2 (map fst (PlanParse.scannable_lines text))).
Proof.
  split; [reflexivity|].
  apply (fences_agree _ [lit "a" ++ [NL]; lit "```" ++ [NL]] (lit "b" ++ [NL]) [lit "```" ++ [NL]] 6); [reflexivity|].
  vm_compute. lia.
Defined.

(** ** What some texts are read as *)

#[local] Existing Instance demo_numbers.
#[local] Existing Instance demo_json.
#[local] Instance digit_uuids : Uuids := {| uuid_v4 n := [n]; uuid_v4_inj a b E := f_equal (hd 0%N) E |}.
(** The command of the call rescued from a text. *)
Definition rescued_arguments (text : str) : outcome (list (option Value)) :=
  match rescue 0 text with
  | Ret calls => Ret (map (fun c => from_json (fn_arguments (tc_function c))) calls)
  | Panic => Panic
  end.
Definition quoted (attr value : str) : str := lit " " ++ attr ++ lit "=" ++ DQUOTE ++ value ++ DQUOTE.
Definition run_command_block (body : str) : str :=
  OPEN_TAG ++ quoted (lit "function") TOOL_RUN_COMMAND ++ GT ++ body ++ CLOSE_TAG.
Example bare_command_rescued :
  rescued_arguments (run_command_block (lit "ls -l")) = Ret [Some (VObject [(lit "command", VString (lit "ls -l"))])].
Proof. vm_compute. reflexivity. Qed.
(** A redirection cuts off the command before it. *)
Example redirection_loses_the_command :
  rescued_arguments (run_command_block (lit "ls > out")) = Ret [Some (VObject [(lit "command", VString (lit "out"))])].
Proof. vm_compute. reflexivity. Qed.
(** A legacy call in front of a fenced example of the other form is lost; alone
    it is rescued. *)
Definition legacy_call : str := MARK ++ lit " " ++ FUNCTION_TAG ++ TOOL_GLOB ++ GT ++ lit "*.rs" ++ FUNCTION_END ++ [NL].
Definition fenced_example : str := lit "```" ++ [NL] ++ run_command_block (lit "ls") ++ [NL] ++ lit "```" ++ [NL].
Example legacy_call_is_lost :
  length <$> rescued_arguments legacy_call = Ret 1 /\ rescued_arguments (legacy_call ++ fenced_example) = Ret [].
Proof. by vm_compute. Qed.
Example unfinished_opening_tag_panics : rescue 0 (OPEN_TAG ++ CLOSE_TAG) = Panic.
Proof. vm_compute. reflexivity. Qed.
