(* ===== verification/Monitor.v ===== *)
(** * The monitor of an agent ([src/harness/monitor/mod.rs])

    One object holds the detectors of an agent and the counters of its session. *)

From S2P Require Import Prelude Str Json Pool Wire ToolNames Decimal Repetition CallArguments XmlRescue Registry.
Local Open Scope nat_scope.

(** ** Orphaned tool messages *)

Definition call_ids (messages : list Message) : list str :=
  concat (map (fun m => match m with Assistant _ _ calls => map tc_id calls | _ => [] end) messages).
Definition prune_orphan_tool_messages (messages : list Message) : list Message :=
  let valid_ids := call_ids messages in
  List.filter (fun m => match m with Tool id _ => str_mem id valid_ids | _ => true end) messages.

Section monitor.
Context `{JsonText} `{Uuids} `{Unicode}.

(** The counters the monitor moves. *)
Record HarnessStats := { repetition_breaks : N; xml_tool_rescues : N }.
Record HarnessMonitor := {
  tool_rep : ToolRepetitionDetector;
  text_rep : RepetitionDetector;
  stats : HarnessStats;
  repetition_fired : bool
}.
Definition new_monitor (s : HarnessStats) (repetition_threshold min_pattern_len : nat) : HarnessMonitor :=
  {| tool_rep := new_tool_detector repetition_threshold; text_rep := new_detector repetition_threshold min_pattern_len;
     stats := s; repetition_fired := false |}.

Definition rescue_xml (drawn : N) (text : str) (m : HarnessMonitor) : outcome (list ToolCall * HarnessMonitor) :=
  '(calls, count) ← rescue_counted drawn text (xml_tool_rescues (stats m));
  Ret (calls, {| tool_rep := tool_rep m; text_rep := text_rep m;
                 stats := {| repetition_breaks := repetition_breaks (stats m); xml_tool_rescues := count |};
                 repetition_fired := repetition_fired m |}).
Definition observe_tool (tool : str) (args : Value) (m : HarnessMonitor) : Intervention * HarnessMonitor :=
  let '(i, d) := evaluate {| name := tool; arguments := args |} (tool_rep m) in
  (i, {| tool_rep := d; text_rep := text_rep m; stats := stats m; repetition_fired := repetition_fired m |}).

Definition intervention_error (i : Intervention) (m : HarnessMonitor) : option str :=
  match i with
  | Block =>
      if match last (tool_buffer (tool_rep m)) with Some b => is_rebirth b | None => false end then
        Some (lit "TOOL REPETITION DETECTED: Rebirth checkpoint was already applied. You cannot invoke rebirth consecutively. Make progress using other tools.")
      else
        Some (lit "TOOL REPETITION DETECTED: You have called this tool with identical arguments "
              ++ dec (tool_threshold (tool_rep m)) ++ lit " times in a row. Stop looping and try an alternative approach.")
  | Cut =>
      Some (lit "TOOL CYCLE DETECTED: You are repeating a loop of tool calls. Step back and re-evaluate your plan.")
  | NoIntervention => None
  end.

(** Whether the stream is to be cut; a break is counted once until re-armed. *)
Definition feed_text (chunk : str) (m : HarnessMonitor) : option (bool * HarnessMonitor) :=
  text ← push chunk (text_rep m);
  Some (if negb (repetition_fired m) && is_repeating text then
          (true, {| tool_rep := tool_rep m; text_rep := new_detector (threshold text) (min_len text);
                    stats := {| repetition_breaks := (repetition_breaks (stats m) + 1)%N; xml_tool_rescues := xml_tool_rescues (stats m) |};
                    repetition_fired := true |})
        else (false, {| tool_rep := tool_rep m; text_rep := text; stats := stats m; repetition_fired := repetition_fired m |})).
Definition reset_text_break (m : HarnessMonitor) : HarnessMonitor :=
  {| tool_rep := tool_rep m; text_rep := text_rep m; stats := stats m; repetition_fired := false |}.

End monitor.
