(* ===== verification/Client.v ===== *)
(** * The streaming chat client ([src/llm/client.rs], [src/net/sse.rs])

    One call of a model: the wait for a slot, the attempts, the reading of the
    event stream and its assembly into a reply.  The runtime is a script: what
    each wait of an attempt ends with, after how many silent polls.  The caller's
    hook is a state machine that answers whether to go on.  Log lines are left
    out. *)

From S2P Require Import Prelude Str Wire Json CallArguments Registry Context Thinking Retry Pool.
Local Open Scope nat_scope.

(** ** How a reply ends *)

Inductive ReplyOutcome := Complete | Cancelled | Truncated | Error.
#[export] Instance ReplyOutcome_eq_dec : EqDecision ReplyOutcome.
Proof. solve_decision. Defined.
Definition is_success (o : ReplyOutcome) : bool := match o with Complete => true | _ => false end.
Definition is_interrupted (o : ReplyOutcome) : bool := negb (is_success o).
Definition outcome_str (o : ReplyOutcome) : str :=
  match o with Complete => lit "complete" | Cancelled => lit "cancelled" | Truncated => lit "truncated" | Error => lit "error" end.

(** [TerminalCause], whose names the errors share. *)
Inductive TerminalCause :=
  | CauseDone | CauseFinishReason | CauseCallerAbort | CauseStreamEnd | CauseTransport | CauseWatchdog | CauseHttpStatus | CauseQueueTimeout.
#[export] Instance TerminalCause_eq_dec : EqDecision TerminalCause.
Proof. solve_decision. Defined.
Definition outcome_of (c : TerminalCause) : ReplyOutcome :=
  match c with
  | CauseDone | CauseFinishReason => Complete
  | CauseCallerAbort => Cancelled
  | CauseStreamEnd | CauseTransport | CauseWatchdog => Truncated
  | CauseHttpStatus | CauseQueueTimeout => Error
  end.
Record Terminal := { t_outcome : ReplyOutcome; t_cause : TerminalCause; t_finish_reason : option str }.
Definition from_cause (c : TerminalCause) : Terminal := {| t_outcome := outcome_of c; t_cause := c; t_finish_reason := None |}.

Record StreamedReply := {
  reply_content : str;
  reply_reasoning : str;
  reply_raw : str;
  reply_tool_calls : list ToolCall;
  reply_outcome : ReplyOutcome;
  reply_cause : TerminalCause;
  reply_finish_reason : option str;
  reply_deltas : nat;
  reply_bytes : nat;
  dropped_tool_calls : nat
}.
(** [default()], with another end and number of deltas. *)
Definition empty_reply (o : ReplyOutcome) (c : TerminalCause) (deltas : nat) : StreamedReply :=
  {| reply_content := []; reply_reasoning := []; reply_raw := []; reply_tool_calls := []; reply_outcome := o; reply_cause := c;
     reply_finish_reason := None; reply_deltas := deltas; reply_bytes := 0; dropped_tool_calls := 0 |}.
Definition default_reply : StreamedReply := empty_reply Truncated CauseStreamEnd 0.

Inductive ChatError :=
  | HttpStatus (status : N) (body : str)
  | InitialTimeout
  | StallTimeout
  | ReadTimeout
  | Stream (message : str)
  | Transport (message : str)
  | Interrupted (deltas bytes : nat) (cause : ChatError) (reply : StreamedReply)
  | QueueTimeout (waited_secs cap : nat) (backend model : str)
  | TrustStore (backend reason : str).
#[export] Instance chat_retryable : Retryable ChatError := {|
  is_retryable e :=
    match e with
    | Interrupted _ _ _ _ | QueueTimeout _ _ _ _ | TrustStore _ _ => false
    | HttpStatus status _ => (status =? 503)%N || (status =? 429)%N || (status =? 502)%N || (status =? 504)%N
    | InitialTimeout | StallTimeout | Transport _ | Stream _ | ReadTimeout => true
    end
|}.
Definition terminal_outcome (e : ChatError) : ReplyOutcome := match e with Interrupted _ _ _ _ => Truncated | _ => Error end.
Definition terminal_cause (e : ChatError) : TerminalCause :=
  match e with
  | HttpStatus _ _ => CauseHttpStatus
  | InitialTimeout | StallTimeout | ReadTimeout => CauseWatchdog
  | QueueTimeout _ _ _ _ => CauseQueueTimeout
  | Stream _ | Transport _ | TrustStore _ _ | Interrupted _ _ _ _ => CauseTransport
  end.

(** ** Chunks ([types/wire.rs]) *)

Record ChunkToolFunction := { chunk_name : option str; chunk_arguments : option str }.
Record ChunkToolCall := { index : nat; chunk_call_id : option str; chunk_function : option ChunkToolFunction }.
Record ChunkDelta := { delta_content : option str; delta_reasoning : option str; delta_tool_calls : option (list ChunkToolCall) }.
Record ChunkChoice := { delta : ChunkDelta; choice_finish_reason : option str }.
Record ChatChunk := { chunk_id : option str; choices : list ChunkChoice }.
(** [serde_json::from_str::<ChatChunk>] *)
Class ChunkJson := { chunk_from_json : str -> option ChatChunk }.

(** ** Waits *)

(** A wait polls until something is there or its deadline has passed. *)
Inductive Ending (T : Type) := Ready (x : T) | Elapsed.
Arguments Ready {T} x.
Arguments Elapsed {T}.
Record Wait (T : Type) := { silent : nat; ending : Ending T }.
Arguments silent {T} _.
Arguments ending {T} _.
Inductive PumpNext (T : Type) := Item (x : T) | IdleTimeout | Aborted.
Arguments Item {T} x.
Arguments IdleTimeout {T}.
Arguments Aborted {T}.

(** An event of the stream: its data, or why it could not be decoded. *)
Definition Event : Type := result str str.
(** The response: its status, and the body read when that is a failure. *)
Record Response := { status : N; body : str }.
(** A wait between events; the timeout of the whole read can end it too. *)
Inductive Gap := Next (w : Wait (option Event)) | Overrun (polls : nat).
Record Attempt := { sending : Wait (result Response str); first_event : Wait (option Event); gaps : list Gap }.

(** What the attempts of a call thread: the caller's state, the deltas given to
    it, the counters of the process, the ids drawn, and the attempts made. *)
Record Progress (C : Type) := {
  caller : C; deltas : nat; tokens_in : N; tokens_out : N; drawn : N; made : nat
}.
Arguments caller {C} _.
Arguments deltas {C} _.
Arguments tokens_in {C} _.
Arguments tokens_out {C} _.
Arguments drawn {C} _.
Arguments made {C} _.

(** ** What has been read *)

(** The id, the name and the arguments of a call so far. *)
Definition Fragment : Type := option str * str * str.
Record ReadState := {
  rs_content : str;
  rs_reasoning : str;
  rs_raw : str;
  fragments : list (nat * Fragment);
  in_reasoning : bool;
  rs_finish_reason : option str
}.
Definition new_state : ReadState :=
  {| rs_content := []; rs_reasoning := []; rs_raw := []; fragments := []; in_reasoning := false; rs_finish_reason := None |}.

Definition set_finish (fr : str) (st : ReadState) : ReadState :=
  {| rs_content := rs_content st; rs_reasoning := rs_reasoning st; rs_raw := rs_raw st; fragments := fragments st;
     in_reasoning := in_reasoning st; rs_finish_reason := Some fr |}.
Definition set_in_reasoning (b : bool) (st : ReadState) : ReadState :=
  {| rs_content := rs_content st; rs_reasoning := rs_reasoning st; rs_raw := rs_raw st; fragments := fragments st;
     in_reasoning := b; rs_finish_reason := rs_finish_reason st |}.
Definition push_reasoning (r : str) (st : ReadState) : ReadState :=
  {| rs_content := rs_content st; rs_reasoning := rs_reasoning st ++ r; rs_raw := rs_raw st ++ r; fragments := fragments st;
     in_reasoning := in_reasoning st; rs_finish_reason := rs_finish_reason st |}.
Definition push_content (c : str) (st : ReadState) : ReadState :=
  {| rs_content := rs_content st ++ c; rs_reasoning := rs_reasoning st; rs_raw := rs_raw st ++ c; fragments := fragments st;
     in_reasoning := in_reasoning st; rs_finish_reason := rs_finish_reason st |}.
Definition set_fragments (f : list (nat * Fragment)) (st : ReadState) : ReadState :=
  {| rs_content := rs_content st; rs_reasoning := rs_reasoning st; rs_raw := rs_raw st; fragments := f;
     in_reasoning := in_reasoning st; rs_finish_reason := rs_finish_reason st |}.

(** A [BTreeMap] by its entries in order: [entry(i).or_insert_with(..)]. *)
Fixpoint with_entry (i : nat) (f : Fragment -> Fragment) (m : list (nat * Fragment)) : list (nat * Fragment) :=
  match m with
  | [] => [(i, f (None, [], []))]
  | (j, x) :: m' =>
      if i =? j then (j, f x) :: m'
      else if i <? j then (i, f (None, [], [])) :: m
      else (j, x) :: with_entry i f m'
  end.
Definition add_call (tc : ChunkToolCall) (x : Fragment) : Fragment :=
  let '(id, name, args) := x in
  (match chunk_call_id tc with Some i => Some i | None => id end,
   name ++ default [] (chunk_function tc ≫= chunk_name),
   args ++ default [] (chunk_function tc ≫= chunk_arguments)).
Definition add_calls (tcs : list ChunkToolCall) (m : list (nat * Fragment)) : list (nat * Fragment) :=
  foldl (fun m tc => with_entry (index tc) (add_call tc) m) m tcs.

Definition THINK : str := lit "<think>".
Definition END_THINK : str := lit "</think>".
Definition DONE : str := lit "[DONE]".

Inductive ConsumeMark := Continue | Done | Stopped.

(** ** The request *)

(** The history on the wire: only the first message may be a system message,
    every assistant message has a content and its calls have JSON arguments. *)
Definition wire_message `{JsonText} (index : nat) (m : Message) : Message :=
  match m with
  | Wire.System c => if 0 <? index then User c else m
  | Assistant c r calls => Assistant (Some (default [] c)) r (map sanitize_arguments calls)
  | _ => m
  end.
Definition wire_messages `{JsonText} (messages : list Message) : list Message := imap wire_message messages.

Section client.
Context `{ChunkJson} `{JsonText} `{Uuids} `{Tokenizer} {C : Type} (on_delta : str -> C -> bool * C).
Implicit Types (p : Progress C) (st : ReadState).

(** The hook, on what the attempts thread. *)
Definition call_hook (d : str) p : bool * Progress C :=
  let '(go, c) := on_delta d (caller p) in
  (go, {| caller := c; deltas := deltas p; tokens_in := tokens_in p; tokens_out := tokens_out p; drawn := drawn p; made := made p |}).
Definition count_delta p : Progress C :=
  {| caller := caller p; deltas := S (deltas p); tokens_in := tokens_in p; tokens_out := tokens_out p; drawn := drawn p; made := made p |}.
Definition has_emitted_deltas p : bool := 0 <? deltas p.
Definition record_tokens_in (count : nat) p : Progress C :=
  {| caller := caller p; deltas := deltas p; tokens_in := ((tokens_in p + N.of_nat count) mod 2 ^ 64)%N; tokens_out := tokens_out p;
     drawn := drawn p; made := made p |}.
(** [record_tokens_out], and the ids the reply drew. *)
Definition record_reply (count : nat) (ids : N) p : Progress C :=
  {| caller := caller p; deltas := deltas p; tokens_in := tokens_in p; tokens_out := ((tokens_out p + N.of_nat count) mod 2 ^ 64)%N;
     drawn := ids; made := made p |}.
Definition forbid_mid_stream_retry (cause : ChatError) (partial : StreamedReply) p : ChatError :=
  Interrupted (deltas p) (reply_bytes partial) cause partial.

(** [pump_next] and [pump_future]: the hook, the deadline, then the wait. *)
Fixpoint pump {T} (silent : nat) (ending : Ending T) p : PumpNext T * Progress C :=
  let '(go, p) := call_hook [] p in
  if negb go then (Aborted, p)
  else
    match silent with
    | 0 => (match ending with Ready x => Item x | Elapsed => IdleTimeout end, p)
    | S k => pump k ending p
    end.
Definition pump_wait {T} (w : Wait T) p : PumpNext T * Progress C := pump (silent w) (ending w) p.
(** The polls of a wait the timeout of the whole read ends: whether the hook
    stopped it before. *)
Fixpoint pump_overrun (polls : nat) p : bool * Progress C :=
  let '(go, p) := call_hook [] p in
  if negb go then (true, p)
  else match polls with 0 => (false, p) | S k => pump_overrun k p end.

(** *** Events *)

(** What a part of an event leaves: whether to go on with the next. *)
Definition step : Type := bool * ReadState * Progress C.
Definition then_ (x : step) (f : ReadState -> Progress C -> step) : step :=
  let '(go, st, p) := x in if go then f st p else x.
Definition hook (d : str) st p : step := let '(go, p) := call_hook d p in (go, st, p).
Definition counted_hook (d : str) st p : step := hook d st (count_delta p).

Definition take_finish (c : ChunkChoice) st : ReadState :=
  match rs_finish_reason st, choice_finish_reason c with
  | None, Some fr => if is_empty fr then st else set_finish fr st
  | _, _ => st
  end.
Definition take_reasoning (c : ChunkChoice) st p : step :=
  match delta_reasoning (delta c) with
  | Some r =>
      if is_empty r then (true, st, p)
      else
        let st := push_reasoning r st in
        then_ (if in_reasoning st then (true, st, p) else hook THINK (set_in_reasoning true st) p)
          (counted_hook r)
  | None => (true, st, p)
  end.
Definition take_content (c : ChunkChoice) st p : step :=
  match delta_content (delta c) with
  | Some t =>
      if is_empty t then (true, st, p)
      else
        then_ (if in_reasoning st then hook END_THINK (set_in_reasoning false st) p else (true, st, p))
          (fun st p => counted_hook t (push_content t st) p)
  | None => (true, st, p)
  end.
Definition take_calls (c : ChunkChoice) st p : step :=
  match delta_tool_calls (delta c) with
  | Some tcs => counted_hook [] (set_fragments (add_calls tcs (fragments st)) st) p
  | None => (true, st, p)
  end.
Definition consume_choice (c : ChunkChoice) st p : step :=
  then_ (then_ (take_reasoning c (take_finish c st) p) (take_content c)) (take_calls c).
Fixpoint consume_choices (cs : list ChunkChoice) st p : step :=
  match cs with
  | [] => (true, st, p)
  | c :: cs' => then_ (consume_choice c st p) (consume_choices cs')
  end.
(** The closing marker of an open reasoning channel. *)
Definition close_reasoning st p : ReadState * Progress C :=
  if in_reasoning st then (set_in_reasoning false st, snd (call_hook END_THINK p)) else (st, p).
Definition consume_event (data : str) st p : ConsumeMark * ReadState * Progress C :=
  if str_eqb (trim data) DONE then let '(st, p) := close_reasoning st p in (Done, st, p)
  else
    match chunk_from_json data with
    | Some chunk => let '(go, st, p) := consume_choices (choices chunk) st p in (if go then Continue else Stopped, st, p)
    | None => (Continue, st, p)
    end.

(** *** The reply *)

Definition named (x : Fragment) : bool := let '(_, name, _) := x in negb (is_empty (trim name)).
(** The calls of named fragments, with an id drawn for each that has none. *)
Fixpoint make_calls (drawn : N) (l : list Fragment) : list ToolCall * N :=
  match l with
  | [] => ([], drawn)
  | (id, name, args) :: l' =>
      let '(call_id, drawn') := match id with Some i => (i, drawn) | None => (lit "call_" ++ uuid_v4 drawn, (drawn + 1)%N) end in
      let '(calls, d) := make_calls drawn' l' in
      (new_call call_id name args :: calls, d)
  end.
Definition map_to_tool_calls (m : list (nat * Fragment)) (outcome : ReplyOutcome) (drawn : N) : list ToolCall * nat * N :=
  let kept := List.filter named (map snd m) in
  let dropped := length m - length kept in
  if negb (is_success outcome) then ([], dropped + length kept, drawn)
  else let '(calls, drawn') := make_calls drawn kept in (calls, dropped, drawn').

Definition count_reply_tokens (content reasoning : str) (calls : list ToolCall) : nat :=
  count_assistant_tokens (if is_empty content then None else Some content) (if is_empty reasoning then None else Some reasoning) calls.
Definition finalize st (t : Terminal) p : StreamedReply * Progress C :=
  let args_bytes := sum_with (fun e => blen (snd (snd e))) (fragments st) in
  let '(calls, dropped, ids) := map_to_tool_calls (fragments st) (t_outcome t) (drawn p) in
  ({| reply_content := rs_content st; reply_reasoning := rs_reasoning st; reply_raw := rs_raw st; reply_tool_calls := calls;
      reply_outcome := t_outcome t; reply_cause := t_cause t; reply_finish_reason := t_finish_reason t; reply_deltas := deltas p;
      reply_bytes := blen (rs_raw st) + args_bytes; dropped_tool_calls := dropped |},
   record_reply (count_reply_tokens (rs_content st) (rs_reasoning st) calls) ids p).
Definition cancelled_before_stream p : StreamedReply := empty_reply Cancelled CauseCallerAbort (deltas p).

(** *** The read *)

(** The events after the first: how the read ended, and the terminal so far. *)
Fixpoint read_loop (gs : list Gap) st p : result TerminalCause (ChatError * TerminalCause) * ReadState * Progress C :=
  match gs with
  | [] =>
      match pump (T := option Event) 0 (Ready None) p with
      | (Aborted, p) => (Ok CauseCallerAbort, st, p)
      | (_, p) => (Ok CauseStreamEnd, st, p)
      end
  | Overrun polls :: _ =>
      let '(stopped, p) := pump_overrun polls p in
      if stopped then (Ok CauseCallerAbort, st, p) else (Err (ReadTimeout, CauseStreamEnd), st, p)
  | Next w :: gs' =>
      match pump_wait w p with
      | (Item (Some (Ok data)), p) =>
          match consume_event data st p with
          | (Done, st, p) => (Ok CauseDone, st, p)
          | (Stopped, st, p) => (Ok CauseCallerAbort, st, p)
          | (Continue, st, p) => read_loop gs' st p
          end
      | (Item (Some (Err e)), p) => (Err (Stream e, CauseStreamEnd), st, p)
      | (Item None, p) => (Ok CauseStreamEnd, st, p)
      | (IdleTimeout, p) => (Err (StallTimeout, CauseWatchdog), st, p)
      | (Aborted, p) => (Ok CauseCallerAbort, st, p)
      end
  end.
(** Why the read stopped: a failure or a finish reason is told apart from a
    body that just stopped. *)
Definition classify_read (read : result TerminalCause (ChatError * TerminalCause)) st : TerminalCause :=
  match read with
  | Err (cause, CauseStreamEnd) => terminal_cause cause
  | Err (_, c) => c
  | Ok CauseStreamEnd => match rs_finish_reason st with Some _ => CauseFinishReason | None => CauseStreamEnd end
  | Ok c => c
  end.
Definition terminal_at (c : TerminalCause) st : Terminal :=
  {| t_outcome := outcome_of c; t_cause := c; t_finish_reason := rs_finish_reason st |}.
Definition read_rest (gs : list Gap) st p : result StreamedReply ChatError * Progress C :=
  let '(read, st, p) := read_loop gs st p in
  let '(st, p) := match read with Ok _ => close_reasoning st p | Err _ => (st, p) end in
  let '(reply, p) := finalize st (terminal_at (classify_read read st) st) p in
  match read with
  | Ok _ => (Ok reply, p)
  | Err (cause, _) => if has_emitted_deltas p then (Err (forbid_mid_stream_retry cause reply p), p) else (Err cause, p)
  end.
Definition read_stream (a : Attempt) p : result StreamedReply ChatError * Progress C :=
  match pump_wait (first_event a) p with
  | (IdleTimeout, p) => (Err InitialTimeout, p)
  | (Aborted, p) => (Ok (cancelled_before_stream p), p)
  | (Item None, p) => let '(reply, p) := finalize new_state (from_cause CauseStreamEnd) p in (Ok reply, p)
  | (Item (Some (Err e)), p) => (Err (Stream e), p)
  | (Item (Some (Ok data)), p) =>
      match consume_event data new_state p with
      | (Continue, st, p) => read_rest (gaps a) st p
      | (mark, st, p) =>
          let cause := match mark with Done => CauseDone | _ => CauseCallerAbort end in
          let p := snd (close_reasoning st p) in
          let '(reply, p) := finalize st (terminal_at cause st) p in (Ok reply, p)
      end
  end.
Definition try_chat_once (a : Attempt) (messages : list Message) p : result StreamedReply ChatError * Progress C :=
  let p := record_tokens_in (count_tokens (wire_messages messages)) p in
  match pump_wait (sending a) p with
  | (Item (Ok r), p) =>
      if ((200 <=? status r) && (status r <? 300))%N then read_stream a p else (Err (HttpStatus (status r) (body r)), p)
  | (Item (Err e), p) => (Err (Transport e), p)
  | (IdleTimeout, p) => (Err InitialTimeout, p)
  | (Aborted, p) => (Ok (cancelled_before_stream p), p)
  end.

(** *** One call *)

(** Every attempt runs on what the one before left; [env] scripts them. *)
Definition chat_attempt (env : nat -> Attempt) (messages : list Message) p : result StreamedReply ChatError * Progress C :=
  let n := made p in
  try_chat_once (env n) messages
    {| caller := caller p; deltas := deltas p; tokens_in := tokens_in p; tokens_out := tokens_out p; drawn := drawn p; made := S n |}.
(** [StreamProgress::new] *)
Definition new_progress p : Progress C :=
  {| caller := caller p; deltas := 0; tokens_in := tokens_in p; tokens_out := tokens_out p; drawn := drawn p; made := 0 |}.
(** The retry loop of a call and what it is answered with; [None] would be a
    retry loop out of fuel. *)
Definition chat_call (env : nat -> Attempt) (messages : list Message) p : option (result StreamedReply ChatError * Progress C) :=
  '(r, p, _) ← retry_with_backoff (chat_attempt env messages) MAX_ATTEMPTS BACKOFF_BASE_MS (new_progress p);
  Some (match r with Err (Interrupted _ _ _ reply) => Ok reply | r => r end, p).
End client.

(** ** The slot of a call *)

Inductive SlotGuard := Session (position : option QueuePosition) | Reserve | Unmetered.
Inductive SlotAbort := Timeout (e : ChatError) | SlotCancelled | Closed (key : str).
(** What the pool answers on either path. *)
Inductive ReserveOutcome := Reserved | ReserveUnmetered | ReserveFailedOpen (waited_secs : nat) | ReserveCancelled.
Definition SessionOutcome : Type := result (option (option QueuePosition)) PoolError.

(** What the owner of the call is told: events of its delegation, and the rank
    kept on its registry entry. *)
Inductive SlotNotice := EventQueued (rank : QueuePosition) | EventRunning | Publish (rank : option QueuePosition).
(** [owned]: the call belongs to a tracked delegation. *)
Definition report_rank (owned : bool) (rank : QueuePosition) : list SlotNotice :=
  if owned then [EventQueued rank; Publish (Some rank)] else [].
Definition reserved_slot (o : ReserveOutcome) : result SlotGuard SlotAbort :=
  match o with
  | Reserved => Ok Reserve
  | ReserveUnmetered | ReserveFailedOpen _ => Ok Unmetered
  | ReserveCancelled => Err SlotCancelled
  end.
Definition acquire_slot (uses_reserve owned : bool) (reserve : ReserveOutcome) (ranks : list QueuePosition) (session : SessionOutcome)
    : result SlotGuard SlotAbort * list SlotNotice :=
  if uses_reserve then (reserved_slot reserve, [])
  else
    let told := concat (map (report_rank owned) ranks) ++ (if owned then [Publish None] else []) in
    match session with
    | Ok None => (Ok Unmetered, told)
    | Ok (Some position) => (Ok (Session position), told ++ (if owned && bool_decide (is_Some position) then [EventRunning] else []))
    | Err (Pool.QueueTimeout backend model cap _ waited_secs) => (Err (Timeout (QueueTimeout waited_secs cap backend model)), told)
    | Err (Pool.Cancelled _) => (Err SlotCancelled, told)
    | Err (PoolClosed key) => (Err (Closed key), told)
    end.

(** Why a call is refused before any attempt. *)
Inductive Refusal := WorkerCancelled | RefusedWith (e : ChatError) | PoolWasClosed (key : str).
(** [chat_stream]: [resumed] says the pause of the worker ended, [http] why this
    process has no client, [slot] what the wait for a slot gave. *)
Definition chat_stream `{ChunkJson} `{JsonText} `{Uuids} `{Tokenizer} {C} (on_delta : str -> C -> bool * C)
    (resumed : bool) (http : option (str * str)) (slot : result SlotGuard SlotAbort)
    (env : nat -> Attempt) (messages : list Message) (p : Progress C) : option (result StreamedReply Refusal * Progress C) :=
  if negb resumed then Some (Err WorkerCancelled, p)
  else
    match http with
    | Some (backend, reason) => Some (Err (RefusedWith (TrustStore backend reason)), p)
    | None =>
        match slot with
        | Err (Timeout e) => Some (Err (RefusedWith e), p)
        | Err SlotCancelled => Some (Ok (empty_reply Cancelled CauseCallerAbort 0), p)
        | Err (Closed key) => Some (Err (PoolWasClosed key), p)
        | Ok _ =>
            '(r, p) ← chat_call on_delta env messages p;
            Some (match r with Ok reply => Ok reply | Err e => Err (RefusedWith e) end, p)
        end
    end.
