(* ===== verification/ClientFacts.v ===== *)
(** * Facts of the chat client ([src/llm/client.rs])

    What the caller is shown and what the reply holds, against a reading of the
    events that calls no hook; what the retries can repeat. *)

From S2P Require Import Prelude Str Wire Json CallArguments Registry Context Thinking Retry Pool Client.
Local Open Scope nat_scope.

(** ** The events without a hook *)

Definition see_reasoning (c : ChunkChoice) (st : ReadState) : ReadState :=
  match delta_reasoning (delta c) with
  | Some r => if is_empty r then st else set_in_reasoning true (push_reasoning r st)
  | None => st
  end.
Definition see_content (c : ChunkChoice) (st : ReadState) : ReadState :=
  match delta_content (delta c) with
  | Some t => if is_empty t then st else push_content t (set_in_reasoning false st)
  | None => st
  end.
Definition see_calls (c : ChunkChoice) (st : ReadState) : ReadState :=
  match delta_tool_calls (delta c) with Some tcs => set_fragments (add_calls tcs (fragments st)) st | None => st end.
Definition see_choice (st : ReadState) (c : ChunkChoice) : ReadState :=
  see_calls c (see_content c (see_reasoning c (take_finish c st))).
Definition see (cs : list ChunkChoice) (st : ReadState) : ReadState := foldl see_choice st cs.

(** What a choice has the caller shown, with the markers of the reasoning
    channel. *)
Definition shown_reasoning (c : ChunkChoice) (open : bool) : list str :=
  match delta_reasoning (delta c) with
  | Some r => if is_empty r then [] else (if open then [] else [THINK]) ++ [r]
  | None => []
  end.
Definition shown_content (c : ChunkChoice) (open : bool) : list str :=
  match delta_content (delta c) with
  | Some t => if is_empty t then [] else (if open then [END_THINK] else []) ++ [t]
  | None => []
  end.
Definition shown_choice (c : ChunkChoice) (st : ReadState) : list str :=
  shown_reasoning c (in_reasoning st) ++ shown_content c (in_reasoning (see_reasoning c (take_finish c st))).
Fixpoint shown (cs : list ChunkChoice) (st : ReadState) : list str :=
  match cs with [] => [] | c :: cs' => shown_choice c st ++ shown cs' (see_choice st c) end.
Definition closing (st : ReadState) : list str := if in_reasoning st then [END_THINK] else [].

Lemma see_app cs1 cs2 st : see (cs1 ++ cs2) st = see cs2 (see cs1 st).
Proof. apply foldl_app. Qed.
Lemma shown_app cs1 cs2 st : shown (cs1 ++ cs2) st = shown cs1 st ++ shown cs2 (see cs1 st).
Proof.
  revert st. induction cs1 as [|c cs1 IH]; intros st; cbn [app shown]; [done|]. by rewrite IH, <- app_assoc.
Qed.

(** The deltas a caller was given, without the empty polls. *)
Definition visible (h : list str) : list str := List.filter (fun d => negb (is_empty d)) h.
Lemma visible_app a b : visible (a ++ b) = visible a ++ visible b.
Proof. apply List.filter_app. Qed.

(** ** A caller that decides by its history *)

Section history.
Context `{ChunkJson} `{JsonText} `{Uuids} `{Tokenizer} (decide : list str -> bool).
Implicit Types (p : Progress (list str)) (st : ReadState).
Definition recorded (d : str) (h : list str) : bool * list str := (decide (h ++ [d]), h ++ [d]).

(** The parts of an event go on as the reading without a hook does, or stop
    having shown a beginning of it. *)
Definition extends p p' (e : list str) : Prop := caller p' = caller p ++ e /\ deltas p <= deltas p' /\ made p' = made p.
Definition gives p (said : list str) (next : ReadState) (x : step (C := list str)) : Prop :=
  let '(go, st', p') := x in
  exists e, extends p p' e /\
    if (go : bool) then st' = next /\ visible e = said /\ (said <> [] -> deltas p < deltas p')
    else visible e `prefix_of` said.

Lemma extends_trans p1 p2 p3 e1 e2 : extends p1 p2 e1 -> extends p2 p3 e2 -> extends p1 p3 (e1 ++ e2).
Proof. intros (C1 & D1 & M1) (C2 & D2 & M2). split_and!; [by rewrite C2, C1, app_assoc|lia|congruence]. Qed.
Lemma extends_refl p : extends p p [].
Proof. split_and!; [by rewrite app_nil_r|done|done]. Qed.

Lemma gives_id st p : gives p [] st (true, st, p).
Proof. exists []. split; [apply extends_refl|]. by split_and!. Qed.
Lemma gives_then p s1 n1 s2 n2 x f :
  gives p s1 n1 x -> (forall p', gives p' s2 n2 (f n1 p')) -> gives p (s1 ++ s2) n2 (then_ x f).
Proof.
  destruct x as [[go st1] p1]. intros (e1 & X1 & G1) Hf. destruct go; cbn [then_].
  - destruct G1 as (-> & V1 & L1). specialize (Hf p1). destruct (f n1 p1) as [[go2 st2] p2]. destruct Hf as (e2 & X2 & G2).
    exists (e1 ++ e2). split; [by eapply extends_trans|]. rewrite visible_app, V1. destruct X1 as (_ & D1 & _), X2 as (_ & D2 & _).
    destruct go2.
    + destruct G2 as (-> & V2 & L2). split_and!; [done|by rewrite V2|]. intros Hne.
      destruct s1 as [|d s1]; [|specialize (L1 ltac:(done)); lia]. destruct s2 as [|d s2]; [done|]. specialize (L2 ltac:(done)). lia.
    + destruct G2 as [k Hk]. exists k. by rewrite Hk, app_assoc.
  - exists e1. split; [done|]. destruct G1 as [k ->]. exists (k ++ s2). by rewrite app_assoc.
Qed.

Lemma gives_counted d st p said : said = visible [d] -> gives p said st (counted_hook recorded d st p).
Proof.
  intros ->. unfold counted_hook, hook, call_hook, recorded. cbn. exists [d].
  split; [split_and!; [done|cbn; lia|done]|]. destruct (decide _); [|done]. split_and!; [done|done|cbn; lia].
Qed.

(** A delta behind a marker: the marker is not counted, the delta is. *)
Lemma gives_marked (marked : bool) m d st1 st2 put p : m <> [] -> d <> [] -> (marked = false -> st1 = st2) ->
  gives p ((if marked then [m] else []) ++ [d]) (put st2)
    (then_ (if marked then hook recorded m st2 p else (true, st1, p)) (fun st p => counted_hook recorded d (put st) p)).
Proof.
  intros Hm Hd H12. destruct marked; cbn [then_ app].
  - unfold hook, call_hook, recorded. cbn [fst snd]. destruct (decide (caller p ++ [m])) eqn:Em; cbn [then_].
    + unfold counted_hook, hook, call_hook, recorded, count_delta. cbn. exists [m; d].
      split; [split_and!; cbn; [by rewrite <- app_assoc|lia|done]|].
      destruct m as [|x m]; [done|]. destruct d as [|y d]; [done|]. case_match; [split_and!; [done|done|cbn; lia]|by exists []].
    + exists [m]. split; [by split_and!|]. destruct m as [|x m]; [done|]. by exists [d].
  - rewrite (H12 eq_refl). unfold counted_hook, hook, call_hook, recorded, count_delta. cbn. exists [d].
    split; [split_and!; [done|cbn; lia|done]|]. destruct d as [|y d]; [done|]. case_match; [split_and!; [done|done|cbn; lia]|by exists []].
Qed.

Lemma gives_choice c st p : gives p (shown_choice c st) (see_choice st c) (consume_choice recorded c st p).
Proof.
  unfold consume_choice, shown_choice, see_choice. rewrite <- (app_nil_r (_ ++ shown_content _ _)).
  apply (gives_then _ _ (see_content c (see_reasoning c (take_finish c st)))); [apply (gives_then _ _ (see_reasoning c (take_finish c st)))|].
  - assert (Ho : in_reasoning (take_finish c st) = in_reasoning st).
    { unfold take_finish. destruct (rs_finish_reason st); [done|]. destruct (choice_finish_reason c) as [fr|]; [|done]. by destruct (is_empty fr). }
    rewrite <- Ho. generalize (take_finish c st). clear st Ho. intros st. unfold take_reasoning, see_reasoning, shown_reasoning.
    destruct (delta_reasoning (delta c)) as [r|]; [|apply gives_id]. destruct (is_empty r) eqn:Er; [apply gives_id|].
    replace (in_reasoning (push_reasoning r st)) with (in_reasoning st) by done.
    pose proof (gives_marked (negb (in_reasoning st)) THINK r (push_reasoning r st) (set_in_reasoning true (push_reasoning r st)) id p) as G.
    cbv beta in G. destruct (in_reasoning st) eqn:Ei; cbn [negb] in G; apply G; try done; try (by destruct r).
    intros _. unfold set_in_reasoning, push_reasoning. cbn. by rewrite Ei.
  - intros p'. generalize (see_reasoning c (take_finish c st)). clear st. intros st. unfold take_content, see_content, shown_content.
    destruct (delta_content (delta c)) as [t|]; [|apply gives_id]. destruct (is_empty t) eqn:Et; [apply gives_id|].
    apply (gives_marked (in_reasoning st) END_THINK t st (set_in_reasoning false st) (push_content t)); [done|by destruct t|].
    intros Ei. destruct st. cbn in *. by rewrite Ei.
  - intros p'. unfold take_calls, see_calls. destruct (delta_tool_calls (delta c)) as [tcs|]; [|apply gives_id]. by apply gives_counted.
Qed.
Lemma gives_choices cs st p : gives p (shown cs st) (see cs st) (consume_choices recorded cs st p).
Proof.
  revert st p. induction cs as [|c cs IH]; intros st p; cbn [shown see foldl consume_choices]; [apply gives_id|].
  eapply gives_then; [apply gives_choice|]. intros p'. apply IH.
Qed.

(** ** The read *)

Definition choices_of (datas : list str) : list ChunkChoice := concat (map (fun d => from_option choices [] (chunk_from_json d)) datas).
Lemma choices_of_cons d datas : choices_of (d :: datas) = from_option choices [] (chunk_from_json d) ++ choices_of datas.
Proof. done. Qed.
Definition is_done (d : str) : bool := str_eqb (trim d) DONE.
(** The data that can be read before a wait that brings none. *)
Fixpoint gap_data (gs : list Gap) : list str :=
  match gs with
  | Next {| ending := Ready (Some (Ok d)) |} :: gs' => d :: gap_data gs'
  | _ => []
  end.
Definition attempt_data (a : Attempt) : list str :=
  match ending (first_event a) with Ready (Some (Ok d)) => d :: gap_data (gaps a) | _ => [] end.

(** Polls show nothing. *)
Definition silently p p' : Prop := exists e, extends p p' e /\ visible e = [] /\ deltas p' = deltas p.
Lemma hook_silently p : silently p (snd (call_hook recorded [] p)).
Proof. exists [[]]. split_and!; [|done|done]. by split_and!. Qed.
Lemma silently_trans p1 p2 p3 : silently p1 p2 -> silently p2 p3 -> silently p1 p3.
Proof.
  intros (e1 & X1 & V1 & D1) (e2 & X2 & V2 & D2). exists (e1 ++ e2). split_and!; [by eapply extends_trans| |congruence].
  by rewrite visible_app, V1, V2.
Qed.
Lemma pump_spec {T} k (en : Ending T) p : let '(n, p') := pump recorded k en p in
  silently p p' /\ match n with Item x => en = Ready x | IdleTimeout => en = Elapsed | Aborted => True end.
Proof.
  revert p. induction k as [|k IH]; intros p; cbn [pump]; pose proof (hook_silently p) as Hs;
    destruct (call_hook recorded [] p) as [go p1]; cbn [snd] in Hs; (destruct go; cbn [negb]; [|done]).
  - split; [done|]. by destruct en.
  - specialize (IH p1). destruct (pump recorded k en p1) as [n p2]. destruct IH as [Hs2 ?]. split; [by eapply silently_trans|done].
Qed.
Lemma overrun_spec k p : silently p (snd (pump_overrun recorded k p)).
Proof.
  revert p. induction k as [|k IH]; intros p; cbn [pump_overrun]; pose proof (hook_silently p) as Hs;
    destruct (call_hook recorded [] p) as [go p1]; cbn [snd] in Hs; (destruct go; cbn [negb]; [|done]); [done|].
  eapply silently_trans; [done|apply IH].
Qed.
Lemma silently_extends p p' p2 e : silently p p' -> extends p' p2 e -> exists e', extends p p2 e' /\ visible e' = visible e.
Proof.
  intros (e1 & X1 & V1 & _) X. exists (e1 ++ e). split; [by eapply extends_trans|]. by rewrite visible_app, V1.
Qed.

Lemma close_reasoning_spec st p : let '(st', p') := close_reasoning recorded st p in
  exists e, extends p p' e /\ visible e = closing st /\ st' = set_in_reasoning false st /\ deltas p' = deltas p.
Proof.
  unfold close_reasoning, closing. destruct (in_reasoning st) eqn:E.
  - unfold call_hook, recorded. cbn. by exists [END_THINK].
  - exists []. split_and!; [apply extends_refl|done| |done]. destruct st. cbn in *. by rewrite E.
Qed.

(** What an event leaves. *)
Definition consumed st p (d : str) (x : ConsumeMark * ReadState * Progress (list str)) : Prop :=
  let '(mark, st', p') := x in
  let cs := choices_of [d] in
  exists e, extends p p' e /\
    match mark with
    | Continue => is_done d = false /\ st' = see cs st /\ visible e = shown cs st /\ (shown cs st <> [] -> deltas p < deltas p')
    | Done => is_done d = true /\ st' = set_in_reasoning false st /\ visible e = closing st
    | Stopped => is_done d = false /\ visible e `prefix_of` shown cs st
    end.
Lemma consume_event_spec d st p : consumed st p d (consume_event recorded d st p).
Proof.
  unfold consumed, consume_event, is_done. destruct (str_eqb (trim d) DONE) eqn:Ed.
  - pose proof (close_reasoning_spec st p) as Hc. destruct (close_reasoning recorded st p) as [st' p']. destruct Hc as (e & X & V & -> & _). by exists e.
  - unfold choices_of. cbn [map concat]. rewrite app_nil_r. destruct (chunk_from_json d) as [chunk|]; cbn [from_option].
    + pose proof (gives_choices (choices chunk) st p) as Hg. destruct (consume_choices _ _ _ _) as [[go st'] p']. destruct Hg as (e & X & Hg).
      exists e. split; [done|]. destruct go; [destruct Hg as (-> & V & D); by split_and!|by split].
    + exists []. split_and!; [apply extends_refl|done..].
Qed.

(** What reading [datas] leaves, by how the read ended. *)
Definition loop_left (more : list str) (datas : list str) st p (read : result TerminalCause (ChatError * TerminalCause)) st' p' (v : list str) : Prop :=
  let cs := choices_of datas in
  match read with
  | Ok CauseDone => st' = set_in_reasoning false (see cs st) /\ v = shown cs st ++ closing (see cs st) /\
      exists d, is_done d = true /\ datas ++ [d] `prefix_of` more
  | Ok CauseStreamEnd | Err _ => st' = see cs st /\ v = shown cs st /\ (shown cs st <> [] -> deltas p < deltas p')
  | Ok CauseCallerAbort => v `prefix_of` shown cs st
  | Ok _ => False
  end.
Definition loop_spec (more : list str) st p (x : result TerminalCause (ChatError * TerminalCause) * ReadState * Progress (list str)) : Prop :=
  let '(read, st', p') := x in
  exists datas e, datas `prefix_of` more /\ Forall (fun d => is_done d = false) datas /\ extends p p' e /\
    loop_left more datas st p read st' p' (visible e) /\
    (forall e c, read = Err (e, c) -> match e with ReadTimeout | Stream _ => c = CauseStreamEnd | StallTimeout => c = CauseWatchdog | _ => False end).

Lemma loop_cons more d st p p1 e1 x : extends p p1 e1 -> visible e1 = shown (choices_of [d]) st ->
  (shown (choices_of [d]) st <> [] -> deltas p < deltas p1) -> is_done d = false ->
  loop_spec more (see (choices_of [d]) st) p1 x -> loop_spec (d :: more) st p x.
Proof.
  destruct x as [[read st'] p']. intros X1 V1 D1 Hd (datas & e & Hp & Hf & X & L & He). exists (d :: datas), (e1 ++ e).
  assert (Ec : choices_of (d :: datas) = choices_of [d] ++ choices_of datas) by (unfold choices_of; cbn [map concat]; by rewrite app_nil_r).
  split_and!; [by apply prefix_cons|by constructor|by eapply extends_trans| |done].
  rewrite visible_app, V1. unfold loop_left in *. rewrite Ec, see_app, shown_app. destruct X as (_ & D & _), X1 as (_ & D1' & _).
  assert (Hdel : shown (choices_of [d]) st ++ shown (choices_of datas) (see (choices_of [d]) st) <> [] ->
    (shown (choices_of datas) (see (choices_of [d]) st) <> [] -> deltas p1 < deltas p') -> deltas p < deltas p').
  { intros Hne Hlt. destruct (shown (choices_of [d]) st); [specialize (Hlt Hne); lia|specialize (D1 ltac:(done)); lia]. }
  destruct read as [c|err]; [destruct c; try done|].
  - destruct L as (-> & -> & d' & Hd' & Hp'). split_and!; [done|by rewrite app_assoc|]. exists d'. split; [done|]. by apply prefix_cons.
  - destruct L as [k ->]. exists k. by rewrite app_assoc.
  - destruct L as (-> & -> & Hl). split_and!; [done|done|]. intros Hne. by apply Hdel.
  - destruct L as (-> & -> & Hl). split_and!; [done|done|]. intros Hne. by apply Hdel.
Qed.
(** A loop that ends at once, having shown nothing. *)
Lemma loop_ends more st p p' read : silently p p' ->
  match read with Ok CauseStreamEnd | Ok CauseCallerAbort => True | Err (ReadTimeout, CauseStreamEnd) | Err (Stream _, CauseStreamEnd) => True
  | Err (StallTimeout, CauseWatchdog) => True | _ => False end -> loop_spec more st p (read, st, p').
Proof.
  intros (e & X & V & D) Hr. exists [], e. split_and!; [apply prefix_nil|constructor|done| |].
  - rewrite V. destruct read as [c|err]; [destruct c; try done|]; cbn [loop_left]; first [apply prefix_nil|by split_and!].
  - intros er c ->. by destruct er, c.
Qed.

Lemma read_loop_spec gs st p : loop_spec (gap_data gs) st p (read_loop recorded gs st p).
Proof.
  revert st p. induction gs as [|g gs IH]; intros st p; cbn [read_loop].
  - pose proof (pump_spec 0 (Ready (None : option Event)) p) as Hs. destruct (pump recorded 0 _ p) as [n p']. destruct Hs as [Hs _].
    destruct n; by apply loop_ends.
  - destruct g as [w|k].
    + unfold pump_wait. pose proof (pump_spec (silent w) (ending w) p) as Hs. destruct (pump recorded _ _ p) as [n p1]. destruct Hs as [Hs Hn].
      destruct n as [[[d|er]|]| |]; try (by apply loop_ends).
      destruct w as [k en]. cbn [ending] in Hn. subst en. cbn [gap_data].
      pose proof (consume_event_spec d st p1) as Hc. destruct (consume_event recorded d st p1) as [[mark st1] p2]. destruct Hc as (e & X & Hc).
      destruct (silently_extends _ _ _ _ Hs X) as (e' & X' & V'). pose proof Hs as (_ & _ & _ & Hd0).
      destruct mark.
      * destruct Hc as (Hd & -> & V & D). apply (loop_cons _ _ _ _ p2 e'); [done|by rewrite V'| |done|apply IH]. intros Hne. specialize (D Hne). lia.
      * destruct Hc as (Hd & -> & V). exists [], e'. split_and!; [apply prefix_nil|constructor|done| |done].
        cbn [loop_left]. rewrite V', V. split_and!; [done|done|]. exists d. split; [done|]. exists (gap_data gs). done.
      * destruct Hc as (Hd & V). exists [d], e'. split_and!; [by exists (gap_data gs)|by constructor|done| |done]. cbn [loop_left]. by rewrite V'.
    + pose proof (overrun_spec k p) as Hs. destruct (pump_overrun recorded k p) as [stopped p']. cbn [snd] in Hs. destruct stopped; by apply loop_ends.
Qed.

(** ** An attempt *)

(** The reply holds what was read. *)
Definition holds (st : ReadState) (reply : StreamedReply) : Prop :=
  reply_content reply = rs_content st /\ reply_reasoning reply = rs_reasoning st /\ reply_raw reply = rs_raw st /\
  reply_finish_reason reply = rs_finish_reason st /\
  exists ids, (reply_tool_calls reply, dropped_tool_calls reply) = fst (map_to_tool_calls (fragments st) (reply_outcome reply) ids).
Lemma finalize_spec st t p : let '(reply, p') := finalize st t p in
  extends p p' [] /\ deltas p' = deltas p /\ reply_outcome reply = t_outcome t /\ reply_cause reply = t_cause t /\
  (t_finish_reason t = rs_finish_reason st -> holds st reply).
Proof.
  unfold finalize. destruct (map_to_tool_calls _ _ _) as [[calls dropped] ids] eqn:E. split_and!; [|done..|].
  - split_and!; [by rewrite app_nil_r|done|done].
  - intros Ht. split_and!; try done. exists (drawn p). cbn [reply_tool_calls dropped_tool_calls reply_outcome]. by rewrite E.
Qed.
Lemma holds_reasoning b st reply : holds (set_in_reasoning b st) reply <-> holds st reply.
Proof. done. Qed.
Lemma interrupted_no_calls st reply : holds st reply -> is_success (reply_outcome reply) = false -> reply_tool_calls reply = [].
Proof.
  intros (_ & _ & _ & _ & ids & E) Ho. unfold map_to_tool_calls in E. rewrite Ho in E. by injection E.
Qed.

(** A beginning of what was to be shown, whose reasoning channel is closed. *)
Definition begins (v said : list str) : Prop := exists v', v' `prefix_of` said /\ (v = v' \/ v = v' ++ [END_THINK]).
Lemma begins_closing v said st : v `prefix_of` said -> begins (v ++ closing st) said.
Proof. intros Hp. exists v. split; [done|]. unfold closing. destruct (in_reasoning st); [by right|left; apply app_nil_r]. Qed.
(** Why a complete reply is complete. *)
Definition terminated (a : Attempt) (datas : list str) (reply : StreamedReply) : Prop :=
  match reply_cause reply with
  | CauseDone => exists d, is_done d = true /\ datas ++ [d] `prefix_of` attempt_data a
  | CauseFinishReason => is_Some (reply_finish_reason reply)
  | _ => False
  end.
Definition attempt_left (a : Attempt) (r : result StreamedReply ChatError) (p' : Progress (list str)) (datas : list str) (v : list str) : Prop :=
  let cs := choices_of datas in
  let st := see cs new_state in
  match r with
  | Ok reply =>
      reply_outcome reply = outcome_of (reply_cause reply) /\
      if is_success (reply_outcome reply) then v = shown cs new_state ++ closing st /\ holds st reply /\ terminated a datas reply
      else reply_tool_calls reply = [] /\ begins v (shown cs new_state)
  | Err (Interrupted n _ _ reply) =>
      v = shown cs new_state /\ holds st reply /\ reply_outcome reply = Truncated /\ 0 < n
  | Err _ => v = [] /\ deltas p' = 0
  end.
Definition attempt_spec (a : Attempt) p (x : result StreamedReply ChatError * Progress (list str)) : Prop :=
  let '(r, p') := x in
  exists datas e, datas `prefix_of` attempt_data a /\ extends p p' e /\ attempt_left a r p' datas (visible e).

Lemma extends_nil p p' p2 e : extends p p' e -> extends p' p2 [] -> extends p p2 e.
Proof. intros X1 X2. rewrite <- (app_nil_r e). by eapply extends_trans. Qed.
(** The end of a read that was not cut by its caller and did not fail. *)
Lemma reply_left a datas st t p1 p' v reply : finalize st t p1 = (reply, p') -> t_outcome t = outcome_of (t_cause t) ->
  t_finish_reason t = rs_finish_reason st ->
  (is_success (t_outcome t) = true -> v = shown (choices_of datas) new_state ++ closing (see (choices_of datas) new_state) /\
     (exists b, st = set_in_reasoning b (see (choices_of datas) new_state)) /\
     match t_cause t with
     | CauseDone => exists d, is_done d = true /\ datas ++ [d] `prefix_of` attempt_data a
     | CauseFinishReason => is_Some (rs_finish_reason st) | _ => False end) ->
  begins v (shown (choices_of datas) new_state) ->
  attempt_left a (Ok reply) p' datas v.
Proof.
  intros E Ho Hf Hs Hp. pose proof (finalize_spec st t p1) as F. rewrite E in F. destruct F as (_ & _ & Eo & Ec & Hh).
  specialize (Hh Hf). cbn [attempt_left]. rewrite Eo, Ec. split; [done|].
  destruct (is_success (t_outcome t)) eqn:Es.
  - destruct (Hs eq_refl) as (Hv & [b ->] & Ht). split_and!; [done|by apply holds_reasoning in Hh|].
    unfold terminated. rewrite Ec. destruct Hh as (_ & _ & _ & Hfr & _). destruct (t_cause t); try done. by rewrite Hfr.
  - split; [|done]. eapply interrupted_no_calls; [done|by rewrite Eo].
Qed.

Lemma classify_ok c st : classify_read (Ok c) st =
  match c with CauseStreamEnd => match rs_finish_reason st with Some _ => CauseFinishReason | None => CauseStreamEnd end | _ => c end.
Proof. by destruct c. Qed.

(** The end of the read, from how its loop ended. *)
Definition end_read (x : result TerminalCause (ChatError * TerminalCause) * ReadState * Progress (list str)) : result StreamedReply ChatError * Progress (list str) :=
  let '(read, st, p) := x in
  let '(st, p) := match read with Ok _ => close_reasoning recorded st p | Err _ => (st, p) end in
  let '(reply, p) := finalize st (terminal_at (classify_read read st) st) p in
  match read with
  | Ok _ => (Ok reply, p)
  | Err (cause, _) => if has_emitted_deltas p then (Err (forbid_mid_stream_retry cause reply p), p) else (Err cause, p)
  end.

Lemma end_read_ok a p c st p1 : loop_spec (attempt_data a) new_state p (Ok c, st, p1) -> attempt_spec a p (end_read (Ok c, st, p1)).
Proof.
  intros (datas & e & Hp & _ & X & L & _). unfold end_read. pose proof (close_reasoning_spec st p1) as Hc.
  destruct (close_reasoning recorded st p1) as [st2 p2]. destruct Hc as (e2 & X2 & V2 & -> & _).
  destruct (finalize _ _ p2) as [reply p3] eqn:Ef. pose proof (finalize_spec (set_in_reasoning false st)
    (terminal_at (classify_read (Ok c) (set_in_reasoning false st)) (set_in_reasoning false st)) p2) as F. rewrite Ef in F. destruct F as (X3 & _).
  exists datas, (e ++ e2). split_and!; [done|eapply extends_nil; [by eapply extends_trans|done]|].
  eapply reply_left; [exact Ef|done|done| |]; cbn [t_outcome t_cause terminal_at]; rewrite ?classify_ok, visible_app, V2.
  - cbn [loop_left] in L. destruct c; try done.
    + intros _. destruct L as (-> & V & Hd). split_and!; [|by exists false|done]. rewrite V. apply app_nil_r.
    + destruct L as (-> & V & Hd). cbn [rs_finish_reason set_in_reasoning].
      destruct (rs_finish_reason (see _ _)) eqn:Efr; [|done]. intros _. split_and!; [by rewrite V|by exists false|by eexists].
  - cbn [loop_left] in L. destruct c; try done.
    + destruct L as (-> & V & _). rewrite V. change (closing (set_in_reasoning false (see (choices_of datas) new_state))) with (@nil str).
      rewrite app_nil_r. by apply begins_closing.
    + by apply begins_closing.
    + destruct L as (-> & V & _). rewrite V. by apply begins_closing.
Qed.
Lemma end_read_err a p err c st p1 : deltas p = 0 -> loop_spec (attempt_data a) new_state p (Err (err, c), st, p1) ->
  attempt_spec a p (end_read (Err (err, c), st, p1)).
Proof.
  intros D0 (datas & e & Hp & _ & X & (-> & V & D) & He). unfold end_read. set (st := see _ _) in *.
  set (t := terminal_at (classify_read (Err (err, c)) st) st). pose proof (finalize_spec st t p1) as F.
  destruct (finalize st t p1) as [reply p2]. destruct F as (X2 & D2 & Eo & _ & Hh).
  specialize (Hh eq_refl).
  assert (X' : extends p p2 e) by by eapply extends_nil.
  unfold has_emitted_deltas. destruct (Nat.ltb_spec 0 (deltas p2)); exists datas, e; (split_and!; [done|done|]).
  - cbn [attempt_left forbid_mid_stream_retry]. split_and!; [done|done| |done]. rewrite Eo. subst t. cbn [t_outcome terminal_at classify_read].
    specialize (He err c eq_refl). by destruct err, c.
  - assert (Hz : deltas p2 = 0) by lia.
    assert (Hv : visible e = []) by (rewrite V; destruct (shown _ _); [done|specialize (D ltac:(done)); lia]).
    specialize (He err c eq_refl). by destruct err.
Qed.
Lemma end_read_spec a p x : deltas p = 0 -> loop_spec (attempt_data a) new_state p x -> attempt_spec a p (end_read x).
Proof.
  intros D0 Hx. destruct x as [[[c|[e c]] st] p1]; [by apply end_read_ok|by apply end_read_err].
Qed.

(** Nothing was read. *)
Lemma attempt_silent a p r p' : deltas p = 0 -> silently p p' -> attempt_left a r p' [] [] -> attempt_spec a p (r, p').
Proof.
  intros D0 (e & X & V & D) L. exists [], e. split_and!; [apply prefix_nil|done|by rewrite V].
Qed.
Lemma silently_deltas p p' : silently p p' -> deltas p = 0 -> deltas p' = 0.
Proof. intros (_ & _ & _ & ->). done. Qed.
Lemma cancelled_left a p : attempt_left a (Ok (cancelled_before_stream p)) p [] [].
Proof. split; [done|]. split; [done|]. exists []. split; [apply prefix_nil|by left]. Qed.

Lemma read_stream_spec a p : deltas p = 0 -> attempt_spec a p (read_stream recorded a p).
Proof.
  intros D0. unfold read_stream, pump_wait. pose proof (pump_spec (silent (first_event a)) (ending (first_event a)) p) as Hs.
  destruct (pump recorded _ _ p) as [n p1]. destruct Hs as [Hs Hn]. pose proof (silently_deltas _ _ Hs D0) as D1.
  destruct n as [[[d|er]|]| |].
  2,4,5: apply attempt_silent; [done|done|first [by split|apply cancelled_left]].
  - assert (Ea : attempt_data a = d :: gap_data (gaps a)) by (unfold attempt_data; by rewrite Hn).
    pose proof (consume_event_spec d new_state p1) as Hc. destruct (consume_event recorded d new_state p1) as [[mark st] p2].
    destruct Hc as (e & X & Hc). destruct (silently_extends _ _ _ _ Hs X) as (e' & X' & V'). destruct mark.
    + destruct Hc as (Hd & -> & V & D). change (read_rest recorded (gaps a)) with (fun st p => end_read (read_loop recorded (gaps a) st p)).
      apply end_read_spec; [done|]. rewrite Ea. eapply loop_cons; [done|by rewrite V'| |done|apply read_loop_spec].
      intros Hne. specialize (D Hne). lia.
    + destruct Hc as (Hd & -> & V). pose proof (close_reasoning_spec (set_in_reasoning false new_state) p2) as Hcl.
      destruct (close_reasoning recorded _ p2) as [st3 p3]. destruct Hcl as (e3 & X3 & V3 & _ & _). cbn [snd].
      destruct (finalize _ _ p3) as [reply p4] eqn:Ef. pose proof (finalize_spec (set_in_reasoning false new_state)
        (terminal_at CauseDone (set_in_reasoning false new_state)) p3) as F. rewrite Ef in F. destruct F as (X4 & _).
      exists [], (e' ++ e3). split_and!; [apply prefix_nil|eapply extends_nil; [by eapply extends_trans|done]|].
      rewrite visible_app, V', V, V3. eapply reply_left; [exact Ef|done|done| |].
      * intros _. split_and!; [done|by exists false|]. exists d. split; [done|]. rewrite Ea. by exists (gap_data (gaps a)).
      * exists []. split; [apply prefix_nil|by left].
    + destruct Hc as (Hd & V). pose proof (close_reasoning_spec st p2) as Hcl.
      destruct (close_reasoning recorded st p2) as [st3 p3]. destruct Hcl as (e3 & X3 & V3 & _ & _). cbn [snd].
      destruct (finalize _ _ p3) as [reply p4] eqn:Ef. pose proof (finalize_spec st (terminal_at CauseCallerAbort st) p3) as F.
      rewrite Ef in F. destruct F as (X4 & _).
      exists [d], (e' ++ e3). split_and!; [rewrite Ea; by exists (gap_data (gaps a))|eapply extends_nil; [by eapply extends_trans|done]|].
      rewrite visible_app, V', V3. eapply reply_left; [exact Ef|done|done|done|]. by apply begins_closing.
  - destruct (finalize _ _ p1) as [reply p2] eqn:Ef. pose proof (finalize_spec new_state (from_cause CauseStreamEnd) p1) as F.
    rewrite Ef in F. destruct F as (X2 & _). destruct Hs as (e & X & V & _). exists [], e.
    split_and!; [apply prefix_nil|by eapply extends_nil|]. rewrite V. eapply reply_left; [exact Ef|done|done|done|].
    exists []. split; [apply prefix_nil|by left].
Qed.

Lemma try_chat_once_spec a messages p : deltas p = 0 -> attempt_spec a p (try_chat_once recorded a messages p).
Proof.
  intros D0. unfold try_chat_once, pump_wait. set (p0 := record_tokens_in _ p).
  pose proof (pump_spec (silent (sending a)) (ending (sending a)) p0) as Hs. destruct (pump recorded _ _ p0) as [n p1]. destruct Hs as [Hs _].
  change (silently p p1) in Hs. pose proof (silently_deltas _ _ Hs D0) as D1. destruct n as [[r|er]| |].
  2,3,4: apply attempt_silent; [done|done|first [by split|apply cancelled_left]].
  destruct (_ && _); [|apply attempt_silent; [done|done|by split]].
  pose proof (read_stream_spec a p1 D1) as Hr. destruct (read_stream recorded a p1) as [r' p2]. destruct Hr as (datas & e & Hp & X & L).
  destruct (silently_extends _ _ _ _ Hs X) as (e' & X' & V'). exists datas, e'. by rewrite V'.
Qed.

(** ** A call *)

Lemma chat_attempt_spec env messages p : deltas p = 0 ->
  let '(r, p') := chat_attempt recorded env messages p in
  exists datas e, datas `prefix_of` attempt_data (env (made p)) /\ caller p' = caller p ++ e /\ made p' = S (made p) /\
    attempt_left (env (made p)) r p' datas (visible e).
Proof.
  intros D0. unfold chat_attempt. set (q := {| caller := _ |}). pose proof (try_chat_once_spec (env (made p)) messages q D0) as Ha.
  destruct (try_chat_once recorded (env (made p)) messages q) as [r p']. destruct Ha as (datas & e & Hp & (C & _ & M) & L).
  exists datas, e. by split_and!.
Qed.
(** A failed attempt that may be tried again has shown nothing. *)
Lemma failed_attempt_silent env messages p e : deltas p = 0 -> fst (chat_attempt recorded env messages p) = Err e -> is_retryable e = true ->
  let p' := snd (chat_attempt recorded env messages p) in
  deltas p' = 0 /\ made p' = S (made p) /\ exists quiet, caller p' = caller p ++ quiet /\ visible quiet = [].
Proof.
  intros D0 Ee Hr. pose proof (chat_attempt_spec env messages p D0) as Ha. destruct (chat_attempt _ _ _ _) as [r p'].
  cbn [fst snd] in *. subst r. destruct Ha as (datas & q & _ & C & M & L). destruct e; try done; destruct L as [V D]; split_and!; try done; by exists q.
Qed.
Lemma retried env messages k p : deltas p = 0 ->
  (forall j, j < k -> exists e, fst (attempt_at (chat_attempt recorded env messages) j p) = Err e /\ is_retryable e = true) ->
  exists q quiet, attempt_at (chat_attempt recorded env messages) k p = chat_attempt recorded env messages q /\
    caller q = caller p ++ quiet /\ visible quiet = [] /\ deltas q = 0 /\ made q = made p + k.
Proof.
  revert p. induction k as [|k IH]; intros p D0 Hj.
  - exists p, []. split_and!; [done|by rewrite app_nil_r|done|done|lia].
  - destruct (Hj 0 ltac:(lia)) as (e & E0 & R0). destruct (failed_attempt_silent env messages p e D0 E0 R0) as (D1 & M1 & quiet & C1 & V1).
    cbn [attempt_at]. destruct (IH _ D1) as (q & quiet2 & E & C & V & D & M).
    { intros j Hlt. apply (Hj (S j)). lia. }
    exists q, (quiet ++ quiet2). split_and!; [done|by rewrite C, C1, app_assoc|by rewrite visible_app, V1|done|lia].
Qed.

(** C12: a call answers, after at most three attempts, and its caller is shown
    the events of one of them, once and in order: earlier attempts showed it
    nothing.  A complete reply holds exactly what the events said, the caller
    was shown exactly that, with the reasoning between its markers, and the
    stream said it was finished.  Any other reply carries no tool call, and the
    caller was shown a beginning of the events.  An error has shown nothing. *)
Theorem call_shown_once env messages p :
  exists r p' n datas quiet e,
    chat_call recorded env messages p = Some (r, p') /\ n <= 2 /\ datas `prefix_of` attempt_data (env n) /\
    caller p' = caller p ++ quiet ++ e /\ visible quiet = [] /\
    let cs := choices_of datas in
    match r with
    | Ok reply =>
        if is_success (reply_outcome reply) then
          visible e = shown cs new_state ++ closing (see cs new_state) /\ holds (see cs new_state) reply /\ terminated (env n) datas reply
        else reply_tool_calls reply = [] /\ begins (visible e) (shown cs new_state)
    | Err err => visible e = []
    end.
Proof.
  unfold chat_call, retry_with_backoff. set (p0 := new_progress p).
  destruct (retry_loop_spec (chat_attempt recorded env messages) (S (N.to_nat MAX_ATTEMPTS)) MAX_ATTEMPTS BACKOFF_BASE_MS 0 p0 [])
    as (k & -> & Hb & _); [lia|].
  destruct (retried env messages k p0) as (q & quiet & E & C & V & D & M); [done|intros j Hj; by apply (Hb j)|]. rewrite E.
  pose proof (chat_attempt_spec env messages q D) as Ha. destruct (chat_attempt recorded env messages q) as [r p'].
  destruct Ha as (datas & e & Hp & Cp & _ & L). cbn [fst snd mbind option_bind].
  eexists _, p', (made q), datas, quiet, e. split_and!; [done| |done|by rewrite Cp, C, <- app_assoc|done|].
  { change (made p0) with 0 in M. rewrite M. destruct k as [|k]; [lia|]. destruct (Hb k) as [? _]; [lia|]. unfold MAX_ATTEMPTS in *. lia. }
  destruct r as [reply|err]; [by destruct L as [_ L]|].
  destruct err as [| | | | | |n b c reply| |]; try by destruct L. destruct L as (Hv & Hh & Ho & _). rewrite Ho. cbn [is_success].
  split; [eapply interrupted_no_calls; [done|by rewrite Ho]|]. rewrite Hv. exists (shown (choices_of datas) new_state). split; [done|by left].
Qed.
End history.

(** ** Tool calls *)

(** What the deltas say of the call at an index: its latest id, and its name
    and arguments in one piece. *)
Definition gathered (tcs : list ChunkToolCall) (i : nat) : Fragment :=
  let mine := List.filter (fun tc => index tc =? i) tcs in
  (last (omap chunk_call_id mine), concat (omap (fun tc => chunk_function tc ≫= chunk_name) mine),
   concat (omap (fun tc => chunk_function tc ≫= chunk_arguments) mine)).
Definition call_deltas (cs : list ChunkChoice) : list ChunkToolCall := concat (omap (fun c => delta_tool_calls (delta c)) cs).

Lemma see_fragments cs st : fragments (see cs st) = add_calls (call_deltas cs) (fragments st).
Proof.
  revert st. induction cs as [|c cs IH]; intros st; [done|]. change (see (c :: cs) st) with (see cs (see_choice st c)). rewrite IH.
  assert (E : fragments (see_choice st c) = add_calls (default [] (delta_tool_calls (delta c))) (fragments st)).
  { unfold see_choice, see_calls. assert (Ef : fragments (see_content c (see_reasoning c (take_finish c st))) = fragments st).
    { unfold see_content, see_reasoning, take_finish. repeat case_match; done. }
    destruct (delta_tool_calls (delta c)); cbn [default]; [by rewrite <- Ef|done]. }
  rewrite E. unfold call_deltas, add_calls. cbn [omap list_omap]. destruct (delta_tool_calls (delta c)); cbn [default concat]; [|done].
  by rewrite foldl_app.
Qed.

Lemma gathered_snoc tcs tc i : gathered (tcs ++ [tc]) i = if index tc =? i then add_call tc (gathered tcs i) else gathered tcs i.
Proof.
  unfold gathered. rewrite List.filter_app. cbn [List.filter]. destruct (index tc =? i); [|by rewrite app_nil_r].
  rewrite !omap_app, !concat_app. unfold add_call. cbn [omap list_omap].
  destruct (chunk_call_id tc); destruct (chunk_function tc ≫= chunk_name); destruct (chunk_function tc ≫= chunk_arguments);
    cbn [default concat]; rewrite ?app_nil_r, ?last_snoc; done.
Qed.
Lemma gathered_none tcs i : Forall (fun tc => index tc <> i) tcs -> gathered tcs i = (None, [], []).
Proof.
  intros Hf. unfold gathered. replace (List.filter _ tcs) with (@nil ChunkToolCall); [done|].
  induction Hf as [|tc tcs Hi _ IH]; cbn [List.filter]; [done|]. by destruct (Nat.eqb_spec (index tc) i).
Qed.

(** The table of a list of deltas: its indices ascend and are those of the
    deltas, each with what is gathered for it. *)
Definition table_of (tcs : list ChunkToolCall) (m : list (nat * Fragment)) : Prop :=
  StronglySorted lt (map fst m) /\ (forall i, In i (map fst m) <-> In i (map index tcs)) /\
  Forall (fun e => snd e = gathered tcs (fst e)) m.

Lemma with_entry_keys i f m j : In j (map fst (with_entry i f m)) <-> j = i \/ In j (map fst m).
Proof.
  induction m as [|[k x] m IH]; cbn [with_entry map fst In]; [naive_solver|].
  destruct (Nat.eqb_spec i k) as [->|Hne]; cbn [map fst In]; [naive_solver|].
  destruct (i <? k); cbn [map fst In]; [naive_solver|]. rewrite IH. naive_solver.
Qed.
Lemma with_entry_sorted i f m : StronglySorted lt (map fst m) -> StronglySorted lt (map fst (with_entry i f m)).
Proof.
  induction m as [|[k x] m IH]; cbn [with_entry map fst]; [intros _; repeat constructor|]. inversion 1 as [|? ? Hs Hf]; subst.
  destruct (Nat.eqb_spec i k) as [->|Hne]; cbn [map fst]; [done|]. destruct (Nat.ltb_spec i k) as [Hlt|Hge]; cbn [map fst].
  - constructor; [done|]. constructor; [done|]. eapply Forall_impl; [exact Hf|]. cbn. lia.
  - constructor; [by apply IH|]. apply Forall_forall. intros j Hj. apply list_elem_of_In, with_entry_keys in Hj as [->|Hj]; [lia|].
    rewrite Forall_forall in Hf. by apply Hf, list_elem_of_In.
Qed.
(** An entry is changed, or starts from nothing. *)
Lemma with_entry_values i f m (g : nat -> Fragment) : Forall (fun e => snd e = g (fst e)) m -> (~ In i (map fst m) -> g i = (None, [], [])) ->
  StronglySorted lt (map fst m) -> Forall (fun e => snd e = if i =? fst e then f (g (fst e)) else g (fst e)) (with_entry i f m).
Proof.
  induction m as [|[k x] m IH]; cbn [with_entry]; intros Hf Hn Hs.
  - constructor; [|done]. cbn. rewrite Nat.eqb_refl, Hn; [done|by intros []].
  - inversion Hf as [|? ? Hx Hm]; subst. cbn in Hx. inversion Hs as [|? ? Hs' Hk]; subst.
    assert (Hother : Forall (fun e => i < fst e) m -> Forall (fun e => snd e = if i =? fst e then f (g (fst e)) else g (fst e)) m).
    { intros Hl. rewrite Forall_forall in Hl, Hm |- *. intros e He. destruct (Nat.eqb_spec i (fst e)) as [->|]; [|by apply Hm].
      specialize (Hl e He). lia. }
    assert (Hgt : forall j, j <= k -> Forall (fun e => j < fst e) m).
    { intros j Hj. apply Forall_forall. intros e He. assert (k < fst e); [|lia].
      apply (proj1 (Forall_forall _ _) Hk), list_elem_of_In, in_map. by apply list_elem_of_In. }
    destruct (Nat.eqb_spec i k) as [->|Hne].
    + constructor; [cbn; rewrite Nat.eqb_refl; congruence|]. by apply Hother, Hgt.
    + destruct (Nat.ltb_spec i k) as [Hlt|Hge].
      * constructor; [cbn; rewrite Nat.eqb_refl, Hn; [done|]|].
        { cbn [map fst In]. intros [->|Hin]; [done|]. apply list_elem_of_In, (proj1 (Forall_forall _ _) Hk) in Hin. cbn in Hin. lia. }
        constructor; [cbn; by destruct (Nat.eqb_spec i k)|]. apply Hother, Hgt. lia.
      * constructor; [cbn; by destruct (Nat.eqb_spec i k)|]. apply IH; [done| |done]. intros Hin. apply Hn. cbn [map fst In]. intros [->|?]; done.
Qed.
Lemma add_calls_table tcs : table_of tcs (add_calls tcs []).
Proof.
  induction tcs as [|tc tcs IH] using rev_ind; [split_and!; [constructor|done|constructor]|].
  unfold add_calls in *. rewrite foldl_app. cbn [foldl]. destruct IH as (Hs & Hk & Hv). split_and!.
  - by apply with_entry_sorted.
  - intros i. rewrite with_entry_keys, Hk, map_app, in_app_iff. cbn [map In]. naive_solver.
  - eapply Forall_impl; [apply (with_entry_values _ _ _ (gathered tcs)); [done| |done]|].
    + intros Hn. apply gathered_none, Forall_forall. intros tc' Ht Heq. apply Hn, Hk. rewrite <- Heq. apply in_map. by apply list_elem_of_In.
    + intros [i x]. cbn. by rewrite gathered_snoc.
Qed.

Section calls.
Context `{JsonText} `{Uuids}.

Lemma make_calls_spec d l : map (fun c => (fn_name (tc_function c), fn_arguments (tc_function c))) (fst (make_calls d l)) =
  map (fun x : Fragment => let '(_, name, args) := x in (name, fst (ensure_valid_json_arguments args))) l.
Proof.
  revert d. induction l as [|[[id name] args] l IH]; intros d; cbn [make_calls]; [done|].
  destruct id as [i|].
  - specialize (IH d). destruct (make_calls d l) as [calls d']. cbn [fst map] in *. by rewrite IH.
  - specialize (IH (d + 1)%N). destruct (make_calls (d + 1)%N l) as [calls d']. cbn [fst map] in *. by rewrite IH.
Qed.

(** C35: the tool calls of a complete reply are those its deltas spell: one for
    each index that occurs and has a name, in the order of the indices, whose
    name and arguments are the pieces for that index put together, the
    arguments made JSON; the others are counted as dropped. *)
Theorem streamed_calls cs ids :
  let '(calls, dropped, _) := map_to_tool_calls (fragments (see cs new_state)) Complete ids in
  exists indices, StronglySorted lt indices /\ (forall i, In i indices <-> In i (map index (call_deltas cs))) /\
    length calls + dropped = length indices /\
    map (fun c => (fn_name (tc_function c), fn_arguments (tc_function c))) calls =
      map (fun x : Fragment => let '(_, name, args) := x in (name, fst (ensure_valid_json_arguments args)))
        (List.filter named (map (gathered (call_deltas cs)) indices)).
Proof.
  rewrite see_fragments. cbn [fragments new_state]. set (m := add_calls _ _). destruct (add_calls_table (call_deltas cs)) as (Hs & Hk & Hv).
  fold m in Hs, Hk, Hv. unfold map_to_tool_calls. cbn [is_success negb].
  pose proof (make_calls_spec ids (List.filter named (map snd m))) as Hc. destruct (make_calls _ _) as [calls d]. cbn [fst] in Hc.
  assert (Hl : length calls = length (List.filter named (map snd m))) by (apply (f_equal length) in Hc; by rewrite !length_map in Hc).
  exists (map fst m). split_and!; [done|done| |].
  - rewrite Hl, length_map. pose proof (List.filter_length_le named (map snd m)) as Hle. rewrite length_map in Hle. lia.
  - rewrite Hc. f_equal. f_equal. rewrite map_map. apply map_ext_Forall. eapply Forall_impl; [exact Hv|]. done.
Qed.
End calls.
