(* ===== verification/Stream.v ===== *)
(** * Streamed turns ([src/llm/stream.rs])

    The handler of one turn demultiplexes the stream, watches it for loops and
    budgets and routes it to a sink; a stream can be paused and resumed; a turn
    that came to nothing is nudged.  The sink is a state machine behind an
    interface, with the cancellations the handler reads. *)

From Stdlib Require Import Floats.SpecFloat.
From S2P Require Import Prelude Str Wire Json CallArguments Decimal Registry Context Thinking Retry Repetition XmlRescue Client.
Local Open Scope nat_scope.

Inductive StreamEvent := Content (s : str) | Thinking_ (s : str) | Status (s : str).
Inductive StreamControl := Go | AbortStream | Pause (user_input : str).
#[export] Instance StreamControl_eq_dec : EqDecision StreamControl.
Proof. solve_decision. Defined.
Inductive PauseAction := Resume | Abort.

(** [trait StreamSink], the token of the turn and the process-wide one. *)
Class StreamSink (K : Type) := {
  emit : StreamEvent -> K -> K;
  poll_control : K -> StreamControl * K;
  on_pause : str -> K -> PauseAction * K;
  token_cancelled : K -> bool;
  globally_cancelled : K -> bool
}.

(** [VecSink]: a sink that keeps every event; [NullSink] keeps none. *)
#[export] Instance vec_sink : StreamSink (list StreamEvent) := {|
  emit e k := k ++ [e]; poll_control k := (Go, k); on_pause _ k := (Resume, k); token_cancelled _ := false; globally_cancelled _ := false
|}.
#[export] Instance null_sink : StreamSink unit := {|
  emit _ k := k; poll_control k := (Go, k); on_pause _ k := (Resume, k); token_cancelled _ := false; globally_cancelled _ := false
|}.
Definition vec_content (es : list StreamEvent) : str := concat (omap (fun e => match e with Content s => Some s | _ => None end) es).
Definition vec_thinking (es : list StreamEvent) : str := concat (omap (fun e => match e with Thinking_ s => Some s | _ => None end) es).

(** What can be computed: a value, a panic, or nothing for want of fuel. *)
Inductive Run (A : Type) := Ran (a : A) | Panics | NoFuel.
Arguments Ran {A} _.
Arguments Panics {A}.
Arguments NoFuel {A}.
#[export] Instance run_bind : MBind Run := fun A B f m => match m with Ran a => f a | Panics => Panics | NoFuel => NoFuel end.
Definition or_panic {A} (o : option A) : Run A := match o with Some a => Ran a | None => Panics end.
Definition or_fuel {A} (o : option A) : Run A := match o with Some a => Ran a | None => NoFuel end.
Definition of_outcome {A} (o : outcome A) : Run A := match o with Ret a => Ran a | Panic => Panics end.

(** ** The handler of a turn *)

Record TurnStreamHandler := {
  max_tokens : N;
  tokens_count : N;
  max_thinking_tokens : N;
  thinking_tokens_count : N;
  budget_exceeded : bool;
  thinking_budget_exceeded : bool;
  rep_triggered : bool;
  demux : ThinkingDemuxer;
  rep_detector : RepetitionDetector;
  pause_requested : option str
}.
(** [with_cancellation] *)
Definition new_handler (max_tokens max_thinking_tokens : N) (rep_detector : RepetitionDetector) (preserve_thinking : bool) : TurnStreamHandler :=
  {| max_tokens := N.max max_tokens 256; tokens_count := 0; max_thinking_tokens := N.max max_thinking_tokens 256; thinking_tokens_count := 0;
     budget_exceeded := false; thinking_budget_exceeded := false; rep_triggered := false; demux := with_preserve preserve_thinking;
     rep_detector := rep_detector; pause_requested := None |}.

Definition count_token (h : TurnStreamHandler) : TurnStreamHandler :=
  let n := (tokens_count h + 1)%N in
  {| max_tokens := max_tokens h; tokens_count := n; max_thinking_tokens := max_thinking_tokens h;
     thinking_tokens_count := thinking_tokens_count h; budget_exceeded := budget_exceeded h || (max_tokens h <? n)%N;
     thinking_budget_exceeded := thinking_budget_exceeded h; rep_triggered := rep_triggered h; demux := demux h;
     rep_detector := rep_detector h; pause_requested := pause_requested h |}.
Definition set_demux (d : ThinkingDemuxer) (h : TurnStreamHandler) : TurnStreamHandler :=
  {| max_tokens := max_tokens h; tokens_count := tokens_count h; max_thinking_tokens := max_thinking_tokens h;
     thinking_tokens_count := thinking_tokens_count h; budget_exceeded := budget_exceeded h;
     thinking_budget_exceeded := thinking_budget_exceeded h; rep_triggered := rep_triggered h; demux := d;
     rep_detector := rep_detector h; pause_requested := pause_requested h |}.
Definition set_pause (x : option str) (h : TurnStreamHandler) : TurnStreamHandler :=
  {| max_tokens := max_tokens h; tokens_count := tokens_count h; max_thinking_tokens := max_thinking_tokens h;
     thinking_tokens_count := thinking_tokens_count h; budget_exceeded := budget_exceeded h;
     thinking_budget_exceeded := thinking_budget_exceeded h; rep_triggered := rep_triggered h; demux := demux h;
     rep_detector := rep_detector h; pause_requested := x |}.
Definition watch (r : RepetitionDetector) `{Unicode} (h : TurnStreamHandler) : TurnStreamHandler :=
  {| max_tokens := max_tokens h; tokens_count := tokens_count h; max_thinking_tokens := max_thinking_tokens h;
     thinking_tokens_count := thinking_tokens_count h; budget_exceeded := budget_exceeded h;
     thinking_budget_exceeded := thinking_budget_exceeded h; rep_triggered := rep_triggered h || is_repeating r; demux := demux h;
     rep_detector := r; pause_requested := pause_requested h |}.
(** A token of thinking for every four bytes begun. *)
Definition estimate (len : nat) : N := if len <=? 4 then 1%N else N.of_nat ((len + 3) / 4).
Definition count_thinking (text : str) (h : TurnStreamHandler) : TurnStreamHandler :=
  let n := (thinking_tokens_count h + estimate (blen text))%N in
  {| max_tokens := max_tokens h; tokens_count := tokens_count h; max_thinking_tokens := max_thinking_tokens h;
     thinking_tokens_count := n; budget_exceeded := budget_exceeded h;
     thinking_budget_exceeded := thinking_budget_exceeded h || (max_thinking_tokens h <? n)%N; rep_triggered := rep_triggered h;
     demux := demux h; rep_detector := rep_detector h; pause_requested := pause_requested h |}.
Definition take_pause_request (h : TurnStreamHandler) : option str * TurnStreamHandler := (pause_requested h, set_pause None h).

Section stream.
Context `{Unicode} `{ChunkJson} `{JsonText} `{Uuids} `{Tokenizer} {K : Type} `{StreamSink K}.

Definition event_of (e : DeltaKind * str) : StreamEvent := match fst e with DContent => Content (snd e) | DThinking => Thinking_ (snd e) end.
(** The closure [push_delta] calls for each piece. *)
Definition take_piece (e : DeltaKind * str) (hk : TurnStreamHandler * K) : option (TurnStreamHandler * K) :=
  let '(h, k) := hk in
  h ← match fst e with
      | DContent => r ← Repetition.push (snd e) (rep_detector h); Some (watch r h)
      | DThinking => Some (if is_empty (snd e) then h else count_thinking (snd e) h)
      end;
  Some (h, emit (event_of e) k).
Fixpoint take_pieces (es : events) (hk : TurnStreamHandler * K) : option (TurnStreamHandler * K) :=
  match es with [] => Some hk | e :: es' => hk ← take_piece e hk; take_pieces es' hk end.
(** [on_chunk_with_sink]; [None] is a panic. *)
Definition on_chunk (chunk : str) (hk : TurnStreamHandler * K) : option (bool * (TurnStreamHandler * K)) :=
  let '(h, k) := hk in
  let h := if is_empty chunk then h else count_token h in
  '(d, _, es) ← push_delta (demux h) chunk;
  '(h, k) ← take_pieces es (set_demux d h, k);
  let '(control, k) := poll_control k in
  Some match control with
       | AbortStream => (false, (h, k))
       | Pause user_input => (false, (set_pause (Some user_input) h, k))
       | Go => (negb (token_cancelled k) && negb (rep_triggered h) && negb (budget_exceeded h) && negb (thinking_budget_exceeded h)
                && negb (globally_cancelled k), (h, k))
       end.
Definition finish_with_sink (hk : TurnStreamHandler * K) : TurnStreamHandler * K :=
  let '(h, k) := hk in
  let '(d, es) := finish_delta (demux h) in
  (set_demux d h, foldl (fun k e => emit (event_of e) k) k es).

(** The hook of the client; a handler that panicked takes nothing more. *)
Definition stream_hook (chunk : str) (c : option (TurnStreamHandler * K)) : bool * option (TurnStreamHandler * K) :=
  match c ≫= on_chunk chunk with Some (go, hk) => (go, Some hk) | None => (false, None) end.

(** ** A stream that can be paused

    The detector is the caller's: what it has seen of this stream it keeps. *)

(** The scripts of a call of the client, and the calls of a process in turn. *)
Record CallEnv := { resumed : bool; http : option (str * str); slot : result SlotGuard SlotAbort; attempts : nat -> Attempt }.
Definition Counters : Type := Progress unit.
Definition with_caller {C D} (c : C) (p : Progress D) : Progress C :=
  {| caller := c; deltas := deltas p; tokens_in := tokens_in p; tokens_out := tokens_out p; drawn := drawn p; made := made p |}.

(** The call a turn makes: [n] calls of the client went before. *)
Record World := { sink : K; counters : Counters; calls_made : nat }.
Definition call_client (env : nat -> CallEnv) (messages : list Message) (h : TurnStreamHandler) (w : World)
    : Run (result StreamedReply Refusal * TurnStreamHandler * World) :=
  let e := env (calls_made w) in
  '(r, p) ← or_fuel (chat_stream stream_hook (resumed e) (http e) (slot e) (attempts e) messages (with_caller (Some (h, sink w)) (counters w)));
  '(h, k) ← or_panic (caller p);
  Ran (r, h, {| sink := k; counters := with_caller tt p; calls_made := S (calls_made w) |}).
Definition on_sink {A} (f : K -> A * K) (w : World) : A * World :=
  let '(a, k) := f (sink w) in (a, {| sink := k; counters := counters w; calls_made := calls_made w |}).
Definition emit_to (e : StreamEvent) (w : World) : World := snd (on_sink (fun k => (tt, emit e k)) w).

Definition none_if_empty (s : str) : option str := if is_empty s then None else Some s.
Definition continuation (base : list Message) (content thinking : str) : list Message :=
  if negb (is_empty content) || negb (is_empty thinking)
  then base ++ [Assistant (none_if_empty content) (none_if_empty thinking) []] else base.
Definition CONTINUE_NOTICE : str := lit "(System continuation notice: continue generating your response directly from where you were interrupted. Do not repeat anything.)".
Definition fallback_continuation (base : list Message) (content : str) : list Message :=
  base ++ [Assistant (Some content) None []; User CONTINUE_NOTICE].

(** What is summed over the calls of a stream. *)
Record Sums := { all_tool_calls : list ToolCall; last_finish : option str; sum_deltas : nat; sum_bytes : nat; sum_dropped : nat }.
Definition no_sums : Sums := {| all_tool_calls := []; last_finish := None; sum_deltas := 0; sum_bytes := 0; sum_dropped := 0 |}.
Definition add_reply (r : StreamedReply) (s : Sums) : Sums :=
  {| all_tool_calls := all_tool_calls s ++ reply_tool_calls r; last_finish := or_else (reply_finish_reason r) (last_finish s);
     sum_deltas := sum_deltas s + reply_deltas r; sum_bytes := sum_bytes s + reply_bytes r; sum_dropped := sum_dropped s + dropped_tool_calls r |}.

Record ResumableStreamOutput := {
  out_reply : StreamedReply; out_budget_exceeded : bool; out_thinking_budget_exceeded : bool; out_rep_triggered : bool; was_aborted_by_steer : bool
}.
Definition assembled (o : ReplyOutcome) (c : TerminalCause) (s : Sums) (h : TurnStreamHandler) (aborted : bool) : ResumableStreamOutput :=
  {| out_reply := {| reply_content := d_content (demux h); reply_reasoning := d_thinking (demux h); reply_raw := [];
                     reply_tool_calls := all_tool_calls s; reply_outcome := if aborted then Cancelled else o;
                     reply_cause := if aborted then CauseCallerAbort else c; reply_finish_reason := last_finish s;
                     reply_deltas := sum_deltas s; reply_bytes := sum_bytes s; dropped_tool_calls := sum_dropped s |};
     out_budget_exceeded := budget_exceeded h; out_thinking_budget_exceeded := thinking_budget_exceeded h;
     out_rep_triggered := rep_triggered h; was_aborted_by_steer := aborted |}.

(** A call, and the fallback when a continuation fails. *)
Definition call_or_fallback (env : nat -> CallEnv) (base messages : list Message) (h : TurnStreamHandler) (w : World)
    : Run (result StreamedReply Refusal * TurnStreamHandler * World) :=
  '(r, h, w) ← call_client env messages h w;
  match r with
  | Ok reply => Ran (Ok reply, h, w)
  | Err e =>
      if length base <? length messages then
        '(r', h, w) ← call_client env (fallback_continuation base (d_content (demux h))) h w;
        Ran (match r' with Ok reply => Ok reply | Err _ => Err e end, h, w)
      else Ran (Err e, h, w)
  end.
Fixpoint resume_loop (fuel : nat) (env : nat -> CallEnv) (base messages : list Message) (s : Sums) (h : TurnStreamHandler) (w : World)
    : Run (result ResumableStreamOutput Refusal * RepetitionDetector * World) :=
  match fuel with
  | 0 => NoFuel
  | S fuel' =>
      '(r, h, w) ← call_or_fallback env base messages h w;
      match r with
      | Err e => Ran (Err e, rep_detector h, w)
      | Ok reply =>
          let s := add_reply reply s in
          let '(request, h) := take_pause_request h in
          let '(action, w) := match request with
                              | Some user_input => let '(a, w) := on_sink (on_pause user_input) w in (Some a, w)
                              | None => (None, w)
                              end in
          match action with
          | Some Resume => resume_loop fuel' env base (continuation base (d_content (demux h)) (d_thinking (demux h))) s h w
          | _ =>
              let '(h, k) := finish_with_sink (h, sink w) in
              Ran (Ok (assembled (reply_outcome reply) (reply_cause reply) s h (match action with Some Abort => true | _ => false end)), rep_detector h,
                   {| sink := k; counters := counters w; calls_made := calls_made w |})
          end
      end
  end.
Definition chat_stream_resumable (fuel : nat) (env : nat -> CallEnv) (messages : list Message) (max_tokens max_thinking_tokens : N)
    (rep_detector : RepetitionDetector) (preserve_thinking : bool) (w : World)
    : Run (result ResumableStreamOutput Refusal * RepetitionDetector * World) :=
  resume_loop fuel env messages messages no_sums (new_handler max_tokens max_thinking_tokens rep_detector preserve_thinking) w.

(** ** A turn *)

Record StreamConfig := {
  cfg_model : str; cfg_temperature : spec_float; cfg_top_p : spec_float; cfg_frequency_penalty : spec_float; cfg_presence_penalty : spec_float;
  cfg_preserve_thinking : bool; cfg_recovery : bool; repetition_threshold : nat; min_pattern_len : nat; max_stream_tokens : N;
  cfg_max_thinking_tokens : N; cfg_reasoning_effort : option str
}.
Definition normalized_reasoning_effort (raw : option str) : option str :=
  r ← raw; if is_empty (trim r) then None else Some (trim r).
(** The advertised tools are a parameter. *)
Definition build_request {Tools} (tools : Tools) (cfg : StreamConfig) (messages : list Message) : ChatRequest Tools :=
  {| model := cfg_model cfg; req_messages := messages; temperature := Some (cfg_temperature cfg); top_p := Some (cfg_top_p cfg);
     frequency_penalty := Some (cfg_frequency_penalty cfg); presence_penalty := Some (cfg_presence_penalty cfg); stream := Some true;
     enable_thinking := None; reasoning_effort := normalized_reasoning_effort (cfg_reasoning_effort cfg); Thinking.tools := tools |}.
Definition turn_request {Tools} (tools : Tools) (cfg : StreamConfig) (messages : list Message) (recovery : bool) : ChatRequest Tools :=
  let req := build_request tools cfg messages in
  if recovery then apply_recovery req default_adjustment else req.

Definition is_empty_production (m : Message) : bool :=
  match m with Assistant c _ calls => match c with Some t => is_empty t | None => true end && is_empty calls | _ => false end.
(** The message of a reply, whose text is searched for calls when it has none. *)
Definition assistant_of (reply : StreamedReply) (drawn : N) : outcome Message :=
  let c := none_if_empty (reply_content reply) in
  let r := none_if_empty (reply_reasoning reply) in
  match reply_tool_calls reply, c with
  | [], Some text => rescued ← rescue drawn text; Ret (Assistant c r rescued)
  | calls, _ => Ret (Assistant c r calls)
  end.
(** The ids a rescue drew. *)
Definition draw (m : Message) (reply : StreamedReply) (w : World) : World :=
  let n := N.of_nat (length (tool_calls_of m) - length (reply_tool_calls reply)) in
  let c := counters w in
  {| sink := sink w; calls_made := calls_made w;
     counters := {| caller := tt; deltas := deltas c; tokens_in := tokens_in c; tokens_out := tokens_out c; drawn := (drawn c + n)%N; made := made c |} |}.

Definition nudged (what : str) (attempt : N) : StreamEvent :=
  Status (what ++ lit " " ++ EM_DASH ++ lit " nudge " ++ dec (N.to_nat attempt) ++ lit "/" ++ dec (N.to_nat (max_attempts default_nudge))).
Definition tokens (n : N) : str := dec (N.to_nat n).
Definition after_thinking_budget (limit : N) (m : Message) : list Message :=
  [Assistant (Some match content m with
                   | Some c => if is_empty (trim c) then lit "[Reasoning budget reached: exceeded " ++ tokens limit ++ lit " token limit]" else c
                   | None => lit "[Reasoning budget reached: exceeded " ++ tokens limit ++ lit " token limit]"
                   end) (reasoning_content m) [];
   User (lit "SYSTEM NOTICE: Maximum reasoning budget of " ++ tokens limit ++ lit " tokens reached for this turn. Stop internal reasoning immediately. Proceed directly to provide your output deliverables or execute required tools.")].
Definition after_budget (limit : N) : list Message :=
  [Assistant (Some (lit "[Generation truncated: exceeded " ++ tokens limit ++ lit " token single-turn limit]")) None [];
   User (lit "SYSTEM NOTICE: Your response exceeded the single-turn output budget limit (" ++ tokens limit ++ lit " tokens) and was truncated. Please be concise and execute your necessary tools (such as `delegate_task` or `create_plan`) now.")].
Definition after_loop : list Message :=
  [Assistant (Some (lit "[Generation interrupted due to repetitive loop]")) None [];
   User (lit "SYSTEM NOTICE: Repetitive generation loop detected. Terminate conversational debate immediately and call your required tools (such as `delegate_task` or `create_plan`) now.")].
Definition interrupted_status (reply : StreamedReply) : StreamEvent :=
  Status (lit "LLM reply " ++ outcome_str (reply_outcome reply) ++ lit " after " ++ dec (reply_deltas reply) ++ lit " deltas "
          ++ EM_DASH ++ lit " partial output, not a completed answer").

(** Why a turn goes on: the notice to the sink, what is added to the
    transcript, and whether the next request recovers. *)
Definition next_try (cfg : StreamConfig) (out : ResumableStreamOutput) (m : Message) (used : N) : option (StreamEvent * list Message * bool) :=
  let limit := N.max (max_stream_tokens cfg) 256 in
  let thinking_limit := N.max (cfg_max_thinking_tokens cfg) 256 in
  let may := is_empty (tool_calls_of m) && (used <? max_attempts default_nudge)%N in
  if out_thinking_budget_exceeded out && may then
    Some (nudged (lit "reasoning budget reached (" ++ tokens thinking_limit ++ lit " tokens)") (used + 1), after_thinking_budget thinking_limit m, true)
  else if out_budget_exceeded out && may then
    Some (nudged (lit "output budget reached (" ++ tokens limit ++ lit " tokens)") (used + 1), after_budget limit, true)
  else if out_rep_triggered out && may then Some (nudged (lit "repetition loop recovered") (used + 1), after_loop, true)
  else if is_interrupted (reply_outcome (out_reply out)) then None
  else if is_empty_production m && should_nudge default_nudge used then
    Some (nudged (lit "empty production") (used + 1), nudge default_nudge [m], false)
  else None.

(** [chat_client_turn]; [pauses] bounds how often a stream is resumed. *)
Fixpoint turn_loop {Tools} (fuel pauses : nat) (env : nat -> CallEnv) (tools : Tools) (cfg : StreamConfig) (transcript : list Message)
    (used : N) (recovery : bool) (w : World) : Run (result Message Refusal * World) :=
  match fuel with
  | 0 => NoFuel
  | S fuel' =>
      let req := turn_request tools cfg transcript recovery in
      '(r, _, w) ← chat_stream_resumable pauses env (req_messages req) (N.max (max_stream_tokens cfg) 256) (N.max (cfg_max_thinking_tokens cfg) 256)
                  (new_detector (repetition_threshold cfg) (min_pattern_len cfg)) (cfg_preserve_thinking cfg) w;
      match r with
      | Err e => Ran (Err e, w)
      | Ok out =>
          m ← of_outcome (assistant_of (out_reply out) (drawn (counters w)));
          let w := draw m (out_reply out) w in
          if was_aborted_by_steer out || globally_cancelled (sink w) then Ran (Ok m, w)
          else
            let '(control, w) := on_sink poll_control w in
            if bool_decide (control = AbortStream) then Ran (Ok m, w)
            else
              match next_try cfg out m used with
              | Some (notice, added, recover) =>
                  turn_loop fuel' pauses env tools cfg (transcript ++ added) (used + 1) recover (emit_to notice w)
              | None =>
                  Ran (Ok m, if is_interrupted (reply_outcome (out_reply out)) then emit_to (interrupted_status (out_reply out)) w else w)
              end
      end
  end.
Definition chat_client_turn {Tools} (pauses : nat) (env : nat -> CallEnv) (tools : Tools) (cfg : StreamConfig) (messages : list Message) (w : World)
    : Run (result Message Refusal * World) :=
  turn_loop (S (N.to_nat (max_attempts default_nudge))) pauses env tools cfg messages 0 (cfg_recovery cfg) w.
End stream.
