(* ===== verification/StreamFacts.v ===== *)
(** * Facts of streamed turns ([src/llm/stream.rs])

    What the sink is sent is what the reply holds, budgets cut a stream, and a
    turn ends. *)

From S2P Require Import Prelude Str Wire Json CallArguments Registry Context Thinking ThinkingFacts Retry Repetition RepetitionFacts XmlRescue XmlFacts Client Stream.
Local Open Scope nat_scope.

(** ** What the hook keeps, a call keeps *)

Section keeps.
Context `{ChunkJson} `{JsonText} `{Uuids} `{Tokenizer} {C : Type} (on_delta : str -> C -> bool * C) (I : C -> Prop)
  (keep : forall d c, I c -> I (snd (on_delta d c))).
Implicit Types (p : Progress C) (st : ReadState).
Definition kept p : Prop := I (caller p).

Lemma hook_kept d p : kept p -> kept (snd (call_hook on_delta d p)).
Proof. unfold kept, call_hook. intros Hp. specialize (keep d _ Hp). by destruct (on_delta d (caller p)). Qed.
Lemma pump_kept {T} k (en : Ending T) p : kept p -> kept (snd (pump on_delta k en p)).
Proof.
  revert p. induction k as [|k IH]; intros p Hp; cbn [pump]; pose proof (hook_kept [] p Hp) as Hk;
    destruct (call_hook on_delta [] p) as [[] p1]; cbn [negb snd] in *; auto.
Qed.
Lemma overrun_kept k p : kept p -> kept (snd (pump_overrun on_delta k p)).
Proof.
  revert p. induction k as [|k IH]; intros p Hp; cbn [pump_overrun]; pose proof (hook_kept [] p Hp) as Hk;
    destruct (call_hook on_delta [] p) as [[] p1]; cbn [negb snd] in *; auto.
Qed.
Lemma then_kept (x : step) f : kept (snd x) -> (forall st p, kept p -> kept (snd (f st p))) -> kept (snd (then_ x f)).
Proof. destruct x as [[[] st] p]; cbn; auto. Qed.
Lemma step_hook_kept d st p : kept p -> kept (snd (hook on_delta d st p)).
Proof. intros Hp. unfold hook. pose proof (hook_kept d p Hp) as Hk. by destruct (call_hook on_delta d p). Qed.
Lemma choices_kept cs st p : kept p -> kept (snd (consume_choices on_delta cs st p)).
Proof.
  revert st p. induction cs as [|c cs IH]; intros st p Hp; cbn [consume_choices]; [done|]. apply then_kept; [|auto].
  assert (Hc : forall d st p, kept p -> kept (snd (counted_hook on_delta d st p))) by (intros; by apply step_hook_kept).
  unfold consume_choice, take_reasoning, take_content, take_calls.
  apply then_kept; [apply then_kept|]; intros; repeat case_match; auto; apply then_kept; auto using step_hook_kept.
Qed.
Lemma close_kept st p : kept p -> kept (snd (close_reasoning on_delta st p)).
Proof. unfold close_reasoning. intros Hp. destruct (in_reasoning st); [by apply hook_kept|done]. Qed.
Lemma event_kept d st p : kept p -> kept (snd (consume_event on_delta d st p)).
Proof.
  intros Hp. unfold consume_event. destruct (str_eqb _ _).
  - pose proof (close_kept st p Hp). by destruct (close_reasoning on_delta st p).
  - destruct (chunk_from_json d) as [chunk|]; [|done]. pose proof (choices_kept (choices chunk) st p Hp).
    by destruct (consume_choices on_delta _ st p) as [[[] ?] ?].
Qed.
Lemma loop_kept gs st p : kept p -> kept (snd (read_loop on_delta gs st p)).
Proof.
  revert st p. induction gs as [|g gs IH]; intros st p Hp; cbn [read_loop].
  - pose proof (pump_kept 0 (Ready (None : option Event)) p Hp). by destruct (pump on_delta 0 _ p) as [[] ?].
  - destruct g as [w|k].
    + unfold pump_wait. pose proof (pump_kept (silent w) (ending w) p Hp) as Hk. destruct (pump on_delta _ _ p) as [n p1].
      destruct n as [[[d|]|]| |]; try done. pose proof (event_kept d st p1 Hk) as He.
      destruct (consume_event on_delta d st p1) as [[[] ?] ?]; try done. by apply IH.
    + pose proof (overrun_kept k p Hp). by destruct (pump_overrun on_delta k p) as [[] ?].
Qed.
Lemma finalize_kept st t p : kept p -> kept (snd (finalize st t p)).
Proof. unfold finalize. by destruct (map_to_tool_calls _ _ _) as [[] ?]. Qed.
Lemma rest_kept gs st p : kept p -> kept (snd (read_rest on_delta gs st p)).
Proof.
  intros Hp. unfold read_rest. pose proof (loop_kept gs st p Hp) as Hk. destruct (read_loop on_delta gs st p) as [[read st1] p1]. cbn [snd] in Hk.
  assert (Hc : kept (snd (match read with Ok _ => close_reasoning on_delta st1 p1 | Err _ => (st1, p1) end)))
    by (destruct read; [by apply close_kept|done]).
  destruct (match read with Ok _ => _ | Err _ => _ end) as [st2 p2]. cbn [snd] in Hc.
  pose proof (finalize_kept st2 (terminal_at (classify_read read st2) st2) p2 Hc) as Hf. destruct (finalize _ _ p2) as [reply p3]. cbn [snd] in Hf.
  destruct read as [|[]]; [done|]. by destruct (has_emitted_deltas p3).
Qed.
Lemma stream_kept a p : kept p -> kept (snd (read_stream on_delta a p)).
Proof.
  intros Hp. unfold read_stream, pump_wait. pose proof (pump_kept (silent (first_event a)) (ending (first_event a)) p Hp) as Hk.
  destruct (pump on_delta _ _ p) as [n p1]. cbn [snd] in Hk. destruct n as [[[d|]|]| |]; try done.
  pose proof (event_kept d new_state p1 Hk) as He. destruct (consume_event on_delta d new_state p1) as [[mark st] p2]. cbn [snd] in He.
    destruct mark; [by apply rest_kept|..]; pose proof (close_kept st p2 He) as Hcl;
      destruct (close_reasoning on_delta st p2) as [st3 p3]; cbn [snd] in *;
      [pose proof (finalize_kept st (terminal_at CauseDone st) p3 Hcl) as Hf|pose proof (finalize_kept st (terminal_at CauseCallerAbort st) p3 Hcl) as Hf];
      by destruct (finalize _ _ p3).
Qed.
Lemma attempt_kept env messages p : kept p -> kept (snd (chat_attempt on_delta env messages p)).
Proof.
  intros Hp. unfold chat_attempt, try_chat_once, pump_wait. set (p0 := record_tokens_in _ _). set (a := env (made p)).
  pose proof (pump_kept (silent (sending a)) (ending (sending a)) p0 Hp) as Hk.
  destruct (pump on_delta _ _ p0) as [n p1]. cbn [snd] in Hk. destruct n as [[r|]| |]; try done.
  destruct (_ && _); [by apply stream_kept|done].
Qed.

(** A call answers, and its caller is still as the hook keeps it. *)
Lemma chat_stream_kept resumed http slot env messages p : kept p ->
  exists r p', chat_stream on_delta resumed http slot env messages p = Some (r, p') /\ kept p'.
Proof.
  intros Hp. unfold chat_stream. destruct resumed; cbn [negb]; [|by eexists _, _].
  destruct http as [[b r]|]; [by eexists _, _|]. destruct slot as [g|[]]; try by eexists _, _.
  unfold chat_call, retry_with_backoff.
  destruct (retry_loop_spec (chat_attempt on_delta env messages) (S (N.to_nat MAX_ATTEMPTS)) MAX_ATTEMPTS BACKOFF_BASE_MS 0 (new_progress p) [])
    as (k & -> & _ & _); [lia|]. cbn [mbind option_bind].
  assert (Hk : forall q, kept q -> kept (snd (attempt_at (chat_attempt on_delta env messages) k q))).
  { induction k as [|k IH]; intros q Hq; cbn [attempt_at]; [by apply attempt_kept|]. apply IH. by apply attempt_kept. }
  eexists _, _. split; [done|]. by apply Hk.
Qed.
End keeps.

(** ** The handler *)

Section handler.
Context `{Unicode} `{ChunkJson} `{JsonText} `{Uuids} `{Tokenizer} {K : Type} `{StreamSink K}.
Implicit Types (h : TurnStreamHandler) (k : K).

Definition fed (r : RepetitionDetector) : Prop := exists text th ml, Repetition.push text (new_detector th ml) = Some r.
Lemma push_text_app a b d : Repetition.push (a ++ b) d = Repetition.push a d ≫= Repetition.push b.
Proof. revert d. induction a as [|c a IH]; intros d; cbn [app Repetition.push]; [done|]. destruct (push_char c d); [apply IH|done]. Qed.
Lemma push_fed text r : fed r -> exists r', Repetition.push text r = Some r' /\ fed r'.
Proof.
  intros (t0 & th & ml & Er). destruct (push_spec th ml (t0 ++ text)) as (r' & E & _). rewrite push_text_app, Er in E.
  exists r'. split; [done|]. exists (t0 ++ text), th, ml. by rewrite push_text_app, Er.
Qed.

(** The flags say what the counters say. *)
Definition flagged h : Prop :=
  budget_exceeded h = (max_tokens h <? tokens_count h)%N /\ thinking_budget_exceeded h = (max_thinking_tokens h <? thinking_tokens_count h)%N.
(** A handler that takes every chunk: its detector was fed from the start, and
    nothing it holds back has a tag in it. *)
Definition ready h : Prop := fed (rep_detector h) /\ min_by_idx (found_tags (demux h)) = None /\ flagged h.
Definition emit_all (es : events) k : K := foldl (fun k e => emit (event_of e) k) k es.

(** What a piece leaves alone. *)
Definition same_but_watched h h' : Prop :=
  demux h' = demux h /\ pause_requested h' = pause_requested h /\ max_tokens h' = max_tokens h /\ tokens_count h' = tokens_count h /\
  max_thinking_tokens h' = max_thinking_tokens h.
Lemma exceeds_later (m n n' : N) : (n <= n')%N -> (m <? n)%N || (m <? n')%N = (m <? n')%N.
Proof. intros Hn. destruct (N.ltb_spec m n), (N.ltb_spec m n'); cbn; lia || done. Qed.
Lemma take_piece_spec e h k : fed (rep_detector h) -> flagged h ->
  exists h', take_piece e (h, k) = Some (h', emit (event_of e) k) /\ fed (rep_detector h') /\ flagged h' /\ same_but_watched h h'.
Proof.
  intros Hf [Hb Ht]. destruct e as [[] s]; unfold take_piece; cbn [fst snd].
  - destruct (push_fed s _ Hf) as (r & -> & Hr). exists (watch r h). by split_and!.
  - exists (if is_empty s then h else count_thinking s h). destruct (is_empty s); [by split_and!|]. split_and!; try done.
    split; [done|]. cbn [thinking_budget_exceeded max_thinking_tokens thinking_tokens_count count_thinking]. rewrite Ht. apply exceeds_later. lia.
Qed.
Lemma take_pieces_spec es h k : fed (rep_detector h) -> flagged h ->
  exists h', take_pieces es (h, k) = Some (h', emit_all es k) /\ fed (rep_detector h') /\ flagged h' /\ same_but_watched h h'.
Proof.
  revert h k. induction es as [|e es IH]; intros h k Hf Hg; cbn [take_pieces]; [by exists h; split_and!|].
  destruct (take_piece_spec e h k Hf Hg) as (h1 & -> & Hf1 & Hg1 & Hs1). destruct (IH h1 (emit (event_of e) k) Hf1 Hg1) as (h2 & E & Hf2 & Hg2 & Hs2).
  exists h2. split_and!; [exact E|done..|]. unfold same_but_watched in *. intuition congruence.
Qed.

(** Whether no guard has tripped. *)
Definition unguarded h : bool := negb (rep_triggered h) && negb (budget_exceeded h) && negb (thinking_budget_exceeded h).
Definition pause_after (c : StreamControl) h : option str := match c with Pause u => Some u | _ => pause_requested h end.
Lemma on_chunk_spec chunk h k : ready h -> exists go h' es d kind,
  push_delta (demux h) chunk = Some (d, kind, es) /\
  let '(control, k') := poll_control (emit_all es k) in
  on_chunk chunk (h, k) = Some (go, (h', k')) /\ ready h' /\ demux h' = d /\ pause_requested h' = pause_after control h /\
  (go = true -> unguarded h' = true /\ control = Go).
Proof.
  intros (Hf & Hn & Hg). destruct (push_delta_spec (demux h) chunk Hn) as (d & kind & es & l & Ep & _ & Hn').
  set (h0 := if is_empty chunk then h else count_token h).
  assert (E0 : fed (rep_detector h0) /\ demux h0 = demux h /\ pause_requested h0 = pause_requested h /\ flagged h0).
  { subst h0. destruct (is_empty chunk); [done|]. split_and!; try done. destruct Hg as [Hb Ht]. split; [|done].
    cbn [budget_exceeded max_tokens tokens_count count_token]. rewrite Hb. apply exceeds_later. lia. }
  destruct E0 as (Hf0 & Ed & Epause & Hg0).
  destruct (take_pieces_spec es (set_demux d h0) k Hf0 Hg0) as (h1 & Et & Hf1 & Hg1 & Hd1 & Hp1 & _).
  cbn [demux set_demux pause_requested] in Hd1, Hp1. unfold on_chunk. fold h0. rewrite Ed, Ep. cbn [mbind option_bind]. rewrite Et.
  destruct (poll_control (emit_all es k)) as [control k'] eqn:Ec.
  destruct control as [| |u]; eexists _, _, es, d, kind; rewrite ?Ec; cbn [mbind option_bind]; (split; [done|]); rewrite ?Ec.
  1-3: split; [done|]; split; [split; [done|]; split; [cbn [demux set_pause]; by rewrite Hd1|done]|];
    split; [exact Hd1|]; split; [cbn; by rewrite ?Hp1, ?Epause|].
  - intros Hgo. split; [|done]. unfold unguarded. repeat (apply andb_true_iff in Hgo as [Hgo ?]). by repeat (apply andb_true_iff; split).
  - done.
  - done.
Qed.
End handler.

(** ** What the sink is sent *)

(** A sink whose log can be read: what it was sent, in order. *)
Class SinkLog (K : Type) `{StreamSink K} := {
  log : K -> list StreamEvent;
  log_emit : forall e k, log (emit e k) = log k ++ [e];
  log_poll : forall k, log (snd (poll_control k)) = log k;
  log_pause : forall u k, log (snd (on_pause u k)) = log k
}.
Abbreviation content_sent := vec_content.
Abbreviation thinking_sent := vec_thinking.

Lemma sent_events es : content_sent (map event_of es) = ev_text DContent es /\ thinking_sent (map event_of es) = ev_text DThinking es.
Proof.
  unfold vec_content, vec_thinking, ev_text. induction es as [|[[] s] es [IHc IHt]]; [done|..]; cbn; by rewrite <- ?IHc, <- ?IHt.
Qed.
Lemma sent_app a b : content_sent (a ++ b) = content_sent a ++ content_sent b /\ thinking_sent (a ++ b) = thinking_sent a ++ thinking_sent b.
Proof. unfold vec_content, vec_thinking. by rewrite !omap_app, !concat_app. Qed.

Section sent.
Context `{Unicode} `{ChunkJson} `{JsonText} `{Uuids} `{Tokenizer} {K : Type} `{SinkLog K} (log0 : list StreamEvent).
Implicit Types (h : TurnStreamHandler) (k : K) (w : World (K := K)).

Lemma log_emit_all es k : log (emit_all es k) = log k ++ map event_of es.
Proof.
  revert k. induction es as [|e es IH]; intros k; [by rewrite app_nil_r|]. change (emit_all (e :: es) k) with (emit_all es (emit (event_of e) k)).
  by rewrite IH, log_emit, <- app_assoc.
Qed.

(** What the handler holds is what it has sent since the log was [log0]: both
    are read off the text that came, as the reference lexer reads it. *)
Definition sent (preserve : bool) h k : Prop :=
  ready h /\ preserve_thinking (demux h) = preserve /\ exists es raw l, log k = log0 ++ es /\
    (forall s, lexer false (raw ++ s) = l ++ lexer (in_thinking (demux h)) (pending (demux h) ++ s)) /\
    content_sent es = content_of false l /\ thinking_sent es = thinking_of l /\
    d_content (demux h) = content_of preserve l /\ d_thinking (demux h) = thinking_of l.
(** What was sent of the text [raw], and what is answered for it. *)
Definition told (preserve : bool) (raw : str) (es : list StreamEvent) (content reasoning : str) : Prop :=
  content_sent es = content_of false (lexer false raw) /\ thinking_sent es = thinking_of (lexer false raw) /\
  content = content_of preserve (lexer false raw) /\ reasoning = thinking_of (lexer false raw).
Lemma on_chunk_sent preserve chunk h k : sent preserve h k -> exists go h' k', on_chunk chunk (h, k) = Some (go, (h', k')) /\ sent preserve h' k'.
Proof.
  intros (Hr & Hpr & es0 & raw & l0 & El & Hlex & Ec & Et & Edc & Edt). destruct (on_chunk_spec chunk h k Hr) as (go & h' & es & d & kind & Ep & Hon).
  destruct (poll_control (emit_all es k)) as [control k'] eqn:Ek. destruct Hon as (Eon & Hr' & Ed & _).
  exists go, h', k'. split; [done|]. destruct Hr as (_ & Hn & _).
  destruct (push_delta_spec (demux h) chunk Hn) as (d2 & kind2 & es2 & l & Ep2 & Ha & _). rewrite Ep in Ep2. injection Ep2 as <- <- <-.
  destruct Ha as (Hp & Hl & Hc & Ht & Het & Hec). cbn [preserve_thinking set_pending d_content d_thinking in_thinking pending] in *.
  split_and!; [done|by rewrite Ed, Hp|]. exists (es0 ++ map event_of es), (raw ++ chunk), (l0 ++ l). rewrite Ed.
  destruct (sent_app es0 (map event_of es)) as [-> ->]. destruct (sent_events es) as [-> ->]. rewrite !content_of_app, !thinking_of_app. split_and!; [| |congruence..].
  - pose proof (log_poll (emit_all es k)) as Hlog. rewrite Ek in Hlog. cbn [snd] in Hlog. by rewrite Hlog, log_emit_all, El, app_assoc.
  - intros s. by rewrite <- app_assoc, Hlex, app_assoc, Hl, app_assoc.
Qed.
Lemma finish_sent preserve h k : sent preserve h k -> let '(h', k') := finish_with_sink (h, k) in
  exists es raw, log k' = log0 ++ es /\ told preserve raw es (d_content (demux h')) (d_thinking (demux h')).
Proof.
  intros ((_ & Hn & _) & Hpr & es0 & raw & l0 & El & Hlex & Ec & Et & Edc & Edt). unfold finish_with_sink.
  destruct (finish_spec (demux h) Hn) as (d & es & l & -> & Hl & Hc & Ht & Het & Hec). cbn [demux set_demux].
  exists (es0 ++ map event_of es), raw. split; [change (foldl _ k es) with (emit_all es k); by rewrite log_emit_all, El, app_assoc|].
  specialize (Hlex []). rewrite !app_nil_r, Hl in Hlex. unfold told. rewrite Hlex.
  destruct (sent_app es0 (map event_of es)) as [-> ->]. destruct (sent_events es) as [-> ->]. rewrite !content_of_app, !thinking_of_app.
  split_and!; congruence.
Qed.
End sent.

(** ** The calls of a stream *)

Section calls.
Context `{Unicode} `{ChunkJson} `{JsonText} `{Uuids} `{Tokenizer} {K : Type} `{StreamSink K} (J : TurnStreamHandler -> K -> Prop)
  (chunk_keeps : forall chunk h k, J h k -> exists go h' k', on_chunk chunk (h, k) = Some (go, (h', k')) /\ J h' k').
Implicit Types (h : TurnStreamHandler) (w : World (K := K)).

Definition kept_after (calls : nat) (x : Run (result StreamedReply Refusal * TurnStreamHandler * World)) : Prop :=
  exists r h' w', x = Ran (r, h', w') /\ J h' (sink w') /\ calls_made w' <= calls.
Lemma call_client_kept env messages h w : J h (sink w) -> kept_after (calls_made w + 1) (call_client env messages h w).
Proof.
  intros HJ. unfold call_client. set (e := env (calls_made w)).
  set (I := fun c : option (TurnStreamHandler * K) => exists h k, c = Some (h, k) /\ J h k).
  destruct (chat_stream_kept stream_hook I) with (resumed := resumed e) (http := http e) (slot := slot e) (env := attempts e) (messages := messages)
    (p := with_caller (Some (h, sink w)) (counters w)) as (r & p' & -> & Hk).
  - intros d c (h0 & k0 & -> & HJ0). destruct (chunk_keeps d h0 k0 HJ0) as (go & h1 & k1 & E & HJ1).
    unfold stream_hook. cbn [mbind option_bind]. rewrite E. by exists h1, k1.
  - by exists h, (sink w).
  - destruct Hk as (h' & k' & Ec & HJ'). unfold or_fuel. cbn [mbind run_bind]. rewrite Ec. unfold or_panic. cbn [mbind run_bind].
    eexists r, h', _. split_and!; [done|done|cbn; lia].
Qed.
Lemma call_or_fallback_kept env base messages h w : J h (sink w) -> kept_after (calls_made w + 2) (call_or_fallback env base messages h w).
Proof.
  intros HJ. unfold call_or_fallback. destruct (call_client_kept env messages h w HJ) as (r & h1 & w1 & -> & HJ1 & C1). cbn [mbind run_bind].
  destruct r as [reply|e]; [eexists _, _, _; split_and!; [done|done|lia]|].
  destruct (_ <? _); [|eexists _, _, _; split_and!; [done|done|lia]].
  destruct (call_client_kept env (fallback_continuation base (d_content (demux h1))) h1 w1 HJ1) as (r2 & h2 & w2 & -> & HJ2 & C2). cbn [mbind run_bind].
  eexists _, _, _. split_and!; [done|done|lia].
Qed.
End calls.

Section resumed.
Context `{Unicode} `{ChunkJson} `{JsonText} `{Uuids} `{Tokenizer} {K : Type} `{SinkLog K}.
Implicit Types (h : TurnStreamHandler) (w : World (K := K)).

Lemma new_handler_sent mt mtt d preserve k : fed d -> sent (log k) preserve (new_handler mt mtt d preserve) k.
Proof.
  intros Hd. split; [|split; [by destruct preserve|]].
  - split; [done|]. split; [by destruct preserve|]. split; cbn [budget_exceeded thinking_budget_exceeded max_tokens max_thinking_tokens new_handler
      tokens_count thinking_tokens_count]; symmetry; apply N.ltb_ge; lia.
  - exists [], [], []. rewrite app_nil_r. by destruct preserve.
Qed.

Lemma resume_sent log0 preserve fuel env base messages s h w : sent log0 preserve h (sink w) ->
  match resume_loop fuel env base messages s h w with
  | Ran (Ok out, _, w') => exists es raw, log (sink w') = log0 ++ es /\
      told preserve raw es (reply_content (out_reply out)) (reply_reasoning (out_reply out))
  | Ran (Err _, _, w') => exists es, log (sink w') = log0 ++ es
  | NoFuel => True
  | Panics => False
  end.
Proof.
  revert messages s h w. induction fuel as [|fuel IH]; intros messages s h w Hs; cbn [resume_loop]; [done|].
  destruct (call_or_fallback_kept (sent log0 preserve)) with (env := env) (base := base) (messages := messages) (h := h) (w := w)
    as (r & h1 & w1 & -> & Hs1 & _); [intros; by apply on_chunk_sent|done|]. cbn [mbind run_bind].
  destruct r as [reply|e]; [|destruct Hs1 as (_ & _ & es & _ & _ & El & _); by exists es]. unfold take_pause_request. destruct (pause_requested h1) as [u|].
  - unfold on_sink. destruct (on_pause u (sink w1)) as [a k2] eqn:Ea.
    assert (Hs2 : sent log0 preserve (set_pause None h1) k2).
    { destruct Hs1 as (Hr & Hp & es & raw & l & El & Hrest). split_and!; [done|done|]. exists es, raw, l. split; [|done].
      pose proof (log_pause u (sink w1)) as Hl. rewrite Ea in Hl. cbn [snd] in Hl. by rewrite Hl. }
    destruct a; [by apply IH|]. pose proof (finish_sent log0 preserve (set_pause None h1) k2 Hs2) as Hf. cbn [sink].
    destruct (finish_with_sink (set_pause None h1, k2)) as [h3 k3]. exact Hf.
  - pose proof (finish_sent log0 preserve (set_pause None h1) (sink w1) Hs1) as Hf. destruct (finish_with_sink (set_pause None h1, sink w1)) as [h3 k3]. exact Hf.
Qed.
End resumed.

(** ** A turn ends *)

(** A sink with a bound on the pauses it still asks for. *)
Class SinkPatience (K : Type) `{StreamSink K} := {
  pending_pauses : K -> nat;
  pending_emit : forall e k, pending_pauses (emit e k) <= pending_pauses k;
  pending_poll : forall k, let '(control, k') := poll_control k in
    match control with Pause _ => pending_pauses k' < pending_pauses k | _ => pending_pauses k' <= pending_pauses k end;
  pending_pause : forall u k, pending_pauses (snd (on_pause u k)) <= pending_pauses k
}.

Section patience.
Context `{Unicode} `{ChunkJson} `{JsonText} `{Uuids} `{Tokenizer} {K : Type} `{SinkPatience K}.
Implicit Types (h : TurnStreamHandler) (k : K) (w : World (K := K)).

Lemma pending_emit_all es k : pending_pauses (emit_all es k) <= pending_pauses k.
Proof.
  revert k. induction es as [|e es IH]; intros k; [done|]. change (emit_all (e :: es) k) with (emit_all es (emit (event_of e) k)).
  etrans; [apply IH|apply pending_emit].
Qed.
(** No more than [n] pauses are left, and one less when one was requested. *)
Definition patient (n : nat) h k : Prop := ready h /\ pending_pauses k <= n /\ (pause_requested h <> None -> pending_pauses k < n).
Lemma on_chunk_patient n chunk h k : patient n h k -> exists go h' k', on_chunk chunk (h, k) = Some (go, (h', k')) /\ patient n h' k'.
Proof.
  intros (Hr & Hn & Hp). destruct (on_chunk_spec chunk h k Hr) as (go & h' & es & d & kind & _ & Hon).
  pose proof (pending_poll (emit_all es k)) as Hpoll. destruct (poll_control (emit_all es k)) as [control k']. destruct Hon as (Eon & Hr' & _ & Epr & _).
  exists go, h', k'. split; [done|]. pose proof (pending_emit_all es k). split; [done|]. rewrite Epr.
  destruct control; cbn [pause_after]; split; try lia; intros Hne; try (specialize (Hp Hne); lia); lia.
Qed.
Lemma finish_pending h k : pending_pauses (snd (finish_with_sink (h, k))) <= pending_pauses k.
Proof. unfold finish_with_sink. destruct (finish_delta (demux h)) as [d es]. apply pending_emit_all. Qed.

Lemma finish_detector h k : rep_detector (fst (finish_with_sink (h, k))) = rep_detector h.
Proof. unfold finish_with_sink. by destruct (finish_delta (demux h)) as [d es]. Qed.

(** The calls a world has made, and those its pauses can still cost. *)
Definition budget w : nat := calls_made w + 2 * pending_pauses (sink w).
Lemma resume_ends fuel env base messages s h w : patient (pending_pauses (sink w)) h (sink w) -> pause_requested h = None ->
  pending_pauses (sink w) < fuel ->
  exists r d w', resume_loop fuel env base messages s h w = Ran (r, d, w') /\ fed d /\ budget w' <= budget w + 2 /\
    pending_pauses (sink w') <= pending_pauses (sink w).
Proof.
  revert messages s h w. induction fuel as [|fuel IH]; intros messages s h w Hp Hno Hf; [lia|]. cbn [resume_loop]. set (n := pending_pauses (sink w)) in *.
  destruct (call_or_fallback_kept (patient n)) with (env := env) (base := base) (messages := messages) (h := h) (w := w)
    as (r & h1 & w1 & -> & (Hr1 & Hn1 & Hp1) & C1); [intros; by apply on_chunk_patient|done|]. cbn [mbind run_bind]. unfold budget in *.
  destruct r as [reply|e]; [|eexists _, _, _; split_and!; [done|apply Hr1|lia|lia]]. unfold take_pause_request. destruct (pause_requested h1) as [u|] eqn:Epr.
  - specialize (Hp1 ltac:(done)). unfold on_sink. pose proof (pending_pause u (sink w1)) as Hle. destruct (on_pause u (sink w1)) as [a k2]. cbn [snd] in Hle.
    destruct a.
    + edestruct (IH (continuation base (d_content (demux (set_pause None h1))) (d_thinking (demux (set_pause None h1)))) (add_reply reply s)
        (set_pause None h1) {| sink := k2; counters := counters w1; calls_made := calls_made w1 |}) as (r' & d & w' & -> & Hd & Hb & Hle2);
        [split_and!; [done|done|done]|done|cbn [sink]; lia|]. cbn [sink calls_made] in *.
      eexists _, _, _. split_and!; [done|done|lia|lia].
    + cbn [sink]. pose proof (finish_pending (set_pause None h1) k2) as Hfin. pose proof (finish_detector (set_pause None h1) k2) as Hd.
      destruct (finish_with_sink _) as [h3 k3]. cbn [fst snd] in *.
      eexists _, _, _. split_and!; [done|rewrite Hd; apply Hr1|cbn [calls_made sink]; lia|cbn [sink]; lia].
  - pose proof (finish_pending (set_pause None h1) (sink w1)) as Hfin. pose proof (finish_detector (set_pause None h1) (sink w1)) as Hd.
    destruct (finish_with_sink _) as [h3 k3]. cbn [fst snd] in *.
    eexists _, _, _. split_and!; [done|rewrite Hd; apply Hr1|cbn [calls_made sink]; lia|cbn [sink]; lia].
Qed.

Lemma next_try_used cfg out m used x : next_try cfg out m used = Some x -> (used < max_attempts default_nudge)%N.
Proof.
  unfold next_try, should_nudge. repeat case_match; try done; intros _; bool_simpl; by apply N.ltb_lt.
Qed.
(** A reply without a structured call whose text the rescue cannot read. *)
Definition unreadable (reply : StreamedReply) : Prop := reply_tool_calls reply = [] /\ crossed (reply_content reply).
Lemma assistant_of_spec reply drawn : (exists m, assistant_of reply drawn = Ret m) \/ (assistant_of reply drawn = Panic /\ unreadable reply).
Proof.
  unfold assistant_of, unreadable. destruct (reply_tool_calls reply); [|left; by eexists]. unfold none_if_empty.
  destruct (is_empty (reply_content reply)); [left; by eexists|].
  destruct (rescue drawn (reply_content reply)) eqn:E; [left; by eexists|right; split; [done|split; [done|by eapply rescue_crossed]]].
Qed.
(** The stream a turn asks for. *)
Definition asked {Tools} pauses env (tools : Tools) cfg transcript recovery w :=
  chat_stream_resumable pauses env (req_messages (turn_request tools cfg transcript recovery)) (N.max (max_stream_tokens cfg) 256)
    (N.max (cfg_max_thinking_tokens cfg) 256) (new_detector (repetition_threshold cfg) (min_pattern_len cfg)) (cfg_preserve_thinking cfg) w.
(** The replies a turn is given: to what it asks now, and to what it asks after
    a nudge, with the transcript, the attempts and the recovery of then. *)
Inductive is_given {Tools} pauses env (tools : Tools) cfg : list Message -> N -> bool -> World (K := K) -> StreamedReply -> Prop :=
  | given_now transcript used recovery w out d w1 :
      asked pauses env tools cfg transcript recovery w = Ran (Ok out, d, w1) -> is_given pauses env tools cfg transcript used recovery w (out_reply out)
  | given_later transcript used recovery w out d w1 m control w2 notice added recover reply :
      asked pauses env tools cfg transcript recovery w = Ran (Ok out, d, w1) -> assistant_of (out_reply out) (drawn (counters w1)) = Ret m ->
      on_sink poll_control (draw m (out_reply out) w1) = (control, w2) -> control <> AbortStream ->
      next_try cfg out m used = Some (notice, added, recover) ->
      is_given pauses env tools cfg (transcript ++ added) (used + 1) recover (emit_to notice w2) reply ->
      is_given pauses env tools cfg transcript used recovery w reply.

Lemma draw_budget m reply w : budget (draw m reply w) = budget w /\ sink (draw m reply w) = sink w.
Proof. done. Qed.
Lemma handler_patient mt mtt d preserve k : fed d -> patient (pending_pauses k) (new_handler mt mtt d preserve) k.
Proof.
  intros Hd. split; [|by split]. split; [done|]. split; [by destruct preserve|].
  split; cbn [budget_exceeded thinking_budget_exceeded max_tokens max_thinking_tokens new_handler tokens_count thinking_tokens_count];
    symmetry; apply N.ltb_ge; lia.
Qed.
Lemma fresh_handler_patient mt mtt th ml preserve k : patient (pending_pauses k) (new_handler mt mtt (new_detector th ml) preserve) k.
Proof. apply handler_patient. by exists [], th, ml. Qed.
Lemma asked_ends {Tools} pauses env (tools : Tools) cfg transcript recovery w : pending_pauses (sink w) < pauses ->
  exists r d w1, asked pauses env tools cfg transcript recovery w = Ran (r, d, w1) /\ budget w1 <= budget w + 2 /\
    pending_pauses (sink w1) <= pending_pauses (sink w).
Proof.
  intros Hp. unfold asked, chat_stream_resumable. set (h := new_handler _ _ _ _). set (ms := req_messages _).
  destruct (resume_ends pauses env ms ms no_sums h w) as (r & d & w1 & -> & _ & Hb & Hle); [apply fresh_handler_patient|done|done|]. by exists r, d, w1.
Qed.
Lemma turn_loop_ends {Tools} fuel pauses env (tools : Tools) cfg transcript used recovery w : pending_pauses (sink w) < pauses ->
  (N.to_nat (max_attempts default_nudge - used) < fuel) ->
  match turn_loop fuel pauses env tools cfg transcript used recovery w with
  | Ran (_, w') => budget w' <= budget w + 2 * S (N.to_nat (max_attempts default_nudge - used))
  | Panics => exists reply, is_given pauses env tools cfg transcript used recovery w reply /\ unreadable reply
  | NoFuel => False
  end.
Proof.
  revert transcript used recovery w. induction fuel as [|fuel IH]; intros transcript used recovery w Hp Hf; [lia|]. cbn [turn_loop].
  destruct (asked_ends pauses env tools cfg transcript recovery w Hp) as (r & d & w1 & Ea & Hb & Hle). unfold asked in Ea. rewrite Ea. fold (asked pauses env tools cfg transcript recovery w) in Ea.
  cbn [mbind run_bind]. destruct r as [out|e]; [|lia].
  destruct (assistant_of_spec (out_reply out) (drawn (counters w1))) as [[m Em]|[-> Hr]]; [rewrite Em|]; cbn [of_outcome mbind run_bind].
  2:{ exists (out_reply out). split; [by eapply given_now|done]. }
  destruct (draw_budget m (out_reply out) w1) as [Ebud Esink]. set (w2 := draw m (out_reply out) w1) in *.
  destruct (was_aborted_by_steer out || globally_cancelled (sink w2)); [lia|]. pose proof (@pending_poll K _ _ (sink w2)) as Hpoll.
  assert (Eon : on_sink poll_control w2 = let '(c, k3) := poll_control (sink w2) in (c, {| sink := k3; counters := counters w2; calls_made := calls_made w2 |})) by done.
  destruct (poll_control (sink w2)) as [control k3]. rewrite Eon. set (w3 := {| sink := k3; counters := counters w2; calls_made := calls_made w2 |}).
  assert (Hk : pending_pauses k3 <= pending_pauses (sink w2)) by (destruct control; lia).
  assert (Hb3 : budget w3 <= budget w2) by (unfold budget, w3; cbn [sink calls_made]; lia). assert (Hs3 : sink w3 = k3) by done.
  assert (Hemit : forall e, budget (emit_to e w3) <= budget w3 /\ pending_pauses (sink (emit_to e w3)) <= pending_pauses k3).
  { intros e. unfold budget, emit_to, on_sink, w3. cbn [sink calls_made snd]. pose proof (pending_emit e k3). lia. }
  destruct (bool_decide (control = AbortStream)) eqn:Ec; [lia|]. apply bool_decide_eq_false in Ec.
  destruct (next_try cfg out m used) as [[[notice added] recover]|] eqn:En.
  - assert (Hu := En). apply next_try_used in Hu. destruct (Hemit notice) as [Hb4 Hp4]. rewrite Esink in Hk.
    specialize (IH (transcript ++ added) (used + 1)%N recover (emit_to notice w3) ltac:(lia) ltac:(lia)).
    destruct (turn_loop fuel pauses env tools cfg _ _ _ _) as [[r' w']| |]; [lia| |done].
    destruct IH as (reply & Hg & Hun). exists reply. split; [|done]. by eapply given_later.
  - destruct (is_interrupted _); [destruct (Hemit (interrupted_status (out_reply out)))|]; lia.
Qed.

(** C14: a turn ends.  Whatever the model streams and whichever calls fail, the
    nudges and resumptions of a turn come to an end when the sink's pauses do:
    it makes at most eight calls of the client and two for each pause.  It
    panics only when one of the replies it is given has no structured call and
    a text the rescue cannot read: an unfenced block of it has its closing tag
    before its opening tag has ended. *)
Theorem turn_ends {Tools} env (tools : Tools) cfg messages w :
  let pauses := S (pending_pauses (sink w)) in
  match chat_client_turn pauses env tools cfg messages w with
  | Ran (_, w') => calls_made w' <= calls_made w + 8 + 2 * pending_pauses (sink w)
  | Panics => exists reply, is_given pauses env tools cfg messages 0 (cfg_recovery cfg) w reply /\ unreadable reply
  | NoFuel => False
  end.
Proof.
  unfold chat_client_turn. cbn zeta.
  pose proof (turn_loop_ends (S (N.to_nat (max_attempts default_nudge))) (S (pending_pauses (sink w))) env tools cfg messages 0 (cfg_recovery cfg) w) as Ht.
  specialize (Ht ltac:(lia) ltac:(cbn; lia)). destruct (turn_loop _ _ _ _ _ _ _ _ _) as [[r w']| |]; [|done|done].
  unfold budget in Ht. change (N.to_nat (max_attempts default_nudge - 0)) with 3 in Ht. lia.
Qed.
End patience.

(** ** What a stream answers with *)

Section answered.
Context `{Unicode} `{ChunkJson} `{JsonText} `{Uuids} `{Tokenizer} {K : Type} `{SinkLog K} `{!SinkPatience K}.

(** C13: what a stream answers is what its sink was sent.  With a detector that
    is new or comes from an earlier stream, and with enough fuel for the pauses
    the sink still asks for, a stream over all its calls, pauses, continuations
    and fallbacks answers or fails, and nothing of it panics.  The reasoning it
    answers with is the reasoning emitted while it ran.  The content is the text
    emitted, or, where the thinking is kept in it, a text that the reference
    lexer takes apart into the text and the reasoning emitted. *)
Theorem resumed_reply_was_sent fuel env messages max_tokens max_thinking_tokens detector preserve (w : World (K := K)) :
  fed detector -> pending_pauses (sink w) < fuel ->
  match chat_stream_resumable fuel env messages max_tokens max_thinking_tokens detector preserve w with
  | Ran (r, detector', w') => fed detector' /\ exists es, log (sink w') = log (sink w) ++ es /\
      match r with
      | Ok out => let content := reply_content (out_reply out) in
          reply_reasoning (out_reply out) = thinking_sent es /\
          if preserve then content_sent es = content_of false (lexer false content) /\ thinking_sent es = thinking_of (lexer false content)
          else content = content_sent es
      | Err _ => True
      end
  | Panics | NoFuel => False
  end.
Proof.
  intros Hd Hf. unfold chat_stream_resumable. set (h := new_handler _ _ _ _).
  destruct (resume_ends fuel env messages messages no_sums h w) as (r & d & w' & E & Hd' & _); [by apply handler_patient|done|done|].
  pose proof (resume_sent (log (sink w)) preserve fuel env messages messages no_sums h w) as Hs. rewrite E in *. split; [done|].
  specialize (Hs (new_handler_sent _ _ _ _ _ Hd)). destruct r as [out|e]; [|destruct Hs as [es El]; by exists es].
  destruct Hs as (es & raw & El & Hc & Ht & Ec & Et). exists es. split; [done|]. cbn zeta. split; [congruence|].
  destruct preserve; [|congruence]. rewrite content_preserved in Ec. by rewrite Ec.
Qed.
End answered.

(** ** Budgets *)

Section budgets.
Context `{Unicode} `{ChunkJson} `{JsonText} `{Uuids} `{Tokenizer} {K : Type} `{StreamSink K}.
Implicit Types (h : TurnStreamHandler) (k : K).

(** Chunks until the handler refuses one. *)
Fixpoint feed (chunks : list str) (hk : TurnStreamHandler * K) : option (bool * (TurnStreamHandler * K)) :=
  match chunks with
  | [] => Some (true, hk)
  | c :: cs => '(go, hk) ← on_chunk c hk; if (go : bool) then feed cs hk else Some (false, hk)
  end.

Lemma estimate_bound len : (N.of_nat len <= 4 * estimate len)%N.
Proof.
  unfold estimate. destruct (Nat.leb_spec len 4) as [Hle|Hgt]; [lia|]. pose proof (Nat.div_mod_eq (len + 3) 4). pose proof (Nat.mod_upper_bound (len + 3) 4). lia.
Qed.
Definition thinking_room h : Prop := (N.of_nat (blen (d_thinking (demux h))) <= 4 * thinking_tokens_count h)%N.
Lemma take_pieces_thinking es h k h' k' : take_pieces es (h, k) = Some (h', k') ->
  (4 * thinking_tokens_count h + N.of_nat (blen (ev_text DThinking es)) <= 4 * thinking_tokens_count h')%N.
Proof.
  revert h k. induction es as [|[[] s] es IH]; intros h k; cbn [take_pieces].
  - intros [= <- _]. change (ev_text DThinking []) with (@nil char). rewrite blen_nil. lia.
  - unfold take_piece. cbn [fst snd]. destruct (Repetition.push s (rep_detector h)) as [r|]; [|done]. cbn [mbind option_bind]. intros E%IH.
    change (ev_text DThinking ((DContent, s) :: es)) with (ev_text DThinking es). exact E.
  - unfold take_piece. cbn [fst snd mbind option_bind]. intros E%IH.
    change (ev_text DThinking ((DThinking, s) :: es)) with (s ++ ev_text DThinking es). rewrite blen_app.
    pose proof (estimate_bound (blen s)). destruct s as [|c s]; cbn [is_empty] in E; [rewrite blen_nil; lia|].
    cbn [thinking_tokens_count count_thinking] in E. lia.
Qed.

Lemma on_chunk_counts chunk h k go h' k' : ready h -> on_chunk chunk (h, k) = Some (go, (h', k')) ->
  tokens_count h' = (tokens_count h + if is_empty chunk then 0 else 1)%N /\ max_tokens h' = max_tokens h /\
  max_thinking_tokens h' = max_thinking_tokens h /\ (thinking_room h -> thinking_room h').
Proof.
  intros Hr Hon. destruct Hr as (Hf & Hn & Hg). destruct (push_delta_spec (demux h) chunk Hn) as (d & kind & es & l & Ep & Ha & _).
  unfold on_chunk in Hon. set (h0 := if is_empty chunk then h else count_token h) in Hon.
  assert (E0 : rep_detector h0 = rep_detector h /\ demux h0 = demux h /\ thinking_tokens_count h0 = thinking_tokens_count h /\
    max_tokens h0 = max_tokens h /\ max_thinking_tokens h0 = max_thinking_tokens h /\
    tokens_count h0 = (tokens_count h + if is_empty chunk then 0 else 1)%N /\ flagged h0).
  { subst h0. destruct (is_empty chunk); [split_and!; try done; lia|]. split_and!; try done. destruct Hg as [Hb Ht]. split; [|done].
    cbn [budget_exceeded max_tokens tokens_count count_token]. rewrite Hb. apply exceeds_later. lia. }
  destruct E0 as (E1 & E2 & E3 & E4 & E5 & E6 & Hg0). rewrite E2, Ep in Hon. cbn [mbind option_bind] in Hon.
  destruct (take_pieces_spec es (set_demux d h0) k) as (h1 & Et & _ & _ & Hsame); [by rewrite <- E1 in Hf|done|].
  pose proof (take_pieces_thinking _ _ _ _ _ Et) as Hth. rewrite Et in Hon. cbn [mbind option_bind] in Hon. destruct Hsame as (Hd & _ & Hm & Hc & Hmt).
  cbn [demux set_demux max_tokens tokens_count max_thinking_tokens thinking_tokens_count] in *.
  destruct Ha as (_ & _ & _ & Ht & Het & _). cbn [d_thinking set_pending] in Ht.
  assert (Hroom : thinking_room h -> (N.of_nat (blen (d_thinking d)) <= 4 * thinking_tokens_count h1)%N).
  { unfold thinking_room. rewrite Ht, <- Het, blen_app. lia. }
  destruct (poll_control (emit_all es k)) as [[| |u] k2]; injection Hon as <- <- <-; unfold thinking_room; cbn [tokens_count max_tokens
    max_thinking_tokens demux thinking_tokens_count set_pause]; rewrite Hd; split_and!; congruence || done.
Qed.

Lemma feed_spec chunks h k h' k' : ready h -> feed chunks (h, k) = Some (true, (h', k')) ->
  ready h' /\ max_tokens h' = max_tokens h /\ max_thinking_tokens h' = max_thinking_tokens h /\
  tokens_count h' = (tokens_count h + N.of_nat (length (List.filter (fun c => negb (is_empty c)) chunks)))%N /\
  (thinking_room h -> thinking_room h') /\ (chunks <> [] -> unguarded h' = true).
Proof.
  revert h k. induction chunks as [|c cs IH]; intros h k Hr; cbn [feed].
  - intros [= <- _]. split_and!; try done. cbn. lia.
  - destruct (on_chunk_spec c h k Hr) as (go & h1 & es & d & kind & _ & Hon). destruct (poll_control (emit_all es k)) as [control k1].
    destruct Hon as (Eon & Hr1 & _ & _ & Hgo). rewrite Eon. cbn [mbind option_bind]. destruct go; [|done]. intros E.
    destruct (on_chunk_counts c h k _ _ _ Hr Eon) as (C1 & C2 & C3 & C4). destruct (IH h1 k1 Hr1 E) as (R & M1 & M2 & M3 & M4 & M5).
    split_and!; [done|congruence|congruence| |auto|].
    + rewrite M3, C1. cbn [List.filter]. destruct c; cbn [is_empty negb length]; lia.
    + intros _. destruct cs as [|c2 cs]; [|by apply M5]. cbn [feed] in E. injection E as <- _. by apply Hgo.
Qed.

(** A stream that is still let on is within its budgets: it has delivered
    no more chunks than the output budget allows, its reasoning is at most four
    bytes for each token of the reasoning budget, and its text does not loop. *)
Theorem running_within_budgets max_tokens max_thinking_tokens threshold min_len preserve chunks k h' k' :
  chunks <> [] ->
  feed chunks (new_handler max_tokens max_thinking_tokens (new_detector threshold min_len) preserve, k) = Some (true, (h', k')) ->
  (N.of_nat (length (List.filter (fun c => negb (is_empty c)) chunks)) <= N.max max_tokens 256)%N /\
  (N.of_nat (blen (d_thinking (demux h'))) <= 4 * N.max max_thinking_tokens 256)%N /\
  rep_triggered h' = false.
Proof.
  intros Hne E. destruct (fun Hr => feed_spec chunks _ k h' k' Hr E) as ((_ & _ & Hb & Ht) & M1 & M2 & M3 & M4 & M5).
  { split; [by exists [], threshold, min_len|]. split; [by destruct preserve|].
    split; cbn [budget_exceeded thinking_budget_exceeded Stream.max_tokens Stream.max_thinking_tokens new_handler tokens_count thinking_tokens_count];
      symmetry; apply N.ltb_ge; lia. }
  specialize (M5 Hne). unfold unguarded in M5. apply andb_true_iff in M5 as [[Hrep%negb_true_iff Hbud%negb_true_iff]%andb_true_iff Hth%negb_true_iff].
  rewrite Hbud in Hb. rewrite Hth in Ht. symmetry in Hb, Ht. apply N.ltb_ge in Hb, Ht. cbn [new_handler Stream.max_tokens Stream.max_thinking_tokens tokens_count] in *.
  assert (R : thinking_room h') by (apply M4; unfold thinking_room; destruct preserve; done). unfold thinking_room in R.
  split_and!; [lia|lia|done].
Qed.
End budgets.

(** ** Streams of a scripted backend *)

#[local] Existing Instance ascii_tables.
#[local] Existing Instance demo_numbers.
#[local] Existing Instance demo_json.
#[local] Instance digit_ids : Uuids := {| uuid_v4 n := [n]; uuid_v4_inj a b E := f_equal (hd 0%N) E |}.
#[local] Instance counted_chars : Tokenizer := {| encode_ordinary_len s := length s |}.

Example running_within_budgets_witness :
  exists h' k', feed [lit "Hello "; []; lit "world"] (new_handler 300 300 (new_detector 5 5) false, []) = Some (true, (h', k')) /\
    (N.of_nat (length (List.filter (fun c => negb (is_empty c)) [lit "Hello "; []; lit "world"])) <= N.max 300 256)%N /\
    (N.of_nat (blen (d_thinking (demux h'))) <= 4 * N.max 300 256)%N /\ rep_triggered h' = false.
Proof.
  destruct (feed [lit "Hello "; []; lit "world"] (new_handler 300 300 (new_detector 5 5) false, [])) as [[[] [h' k']]|] eqn:E;
    [|vm_compute in E; discriminate E|vm_compute in E; discriminate E].
  exists h', k'. split; [done|]. exact (running_within_budgets 300 300 5 5 false [lit "Hello "; []; lit "world"] [] h' k' ltac:(done) E).
Defined.

(** Chunks written as one word each. *)
Definition said (r c : option str) (calls : option (list ChunkToolCall)) : ChatChunk :=
  {| chunk_id := None; choices := [{| delta := {| delta_content := c; delta_reasoning := r; delta_tool_calls := calls |}; choice_finish_reason := None |}] |}.
Definition plan_call : ChunkToolCall :=
  {| index := 0; chunk_call_id := Some (lit "c1"); chunk_function := Some {| chunk_name := Some (lit "create_plan"); chunk_arguments := Some (lit "{}") |} |}.
#[local] Instance word_chunks : ChunkJson := {|
  chunk_from_json s := if str_eqb s (lit "think") then Some (said (Some (lit "Hm. ")) None None)
                       else if str_eqb s (lit "call") then Some (said None None (Some [plan_call]))
                       else if str_eqb s (lit "text") then Some (said None (Some (lit "Hi")) None) else None
|}.
Definition now {T} (x : T) : Wait T := {| silent := 0; ending := Ready x |}.
Definition answers (data : list str) : Attempt :=
  {| sending := now (Ok {| status := 200; body := [] |}); first_event := now (Ok <$> head data); gaps := map (fun d => Next (now (Some (Ok d)))) (tail data) |}.
Definition backend (data : list str) : CallEnv :=
  {| resumed := true; http := None; slot := Ok Unmetered; attempts := fun _ => answers data |}.

(** A sink with a script of controls, that resumes after every pause. *)
Record ScriptedSink := { seen : list StreamEvent; controls : list StreamControl }.
#[local] Instance scripted : StreamSink ScriptedSink := {|
  emit e k := {| seen := seen k ++ [e]; controls := controls k |};
  poll_control k := (default Go (head (controls k)), {| seen := seen k; controls := tail (controls k) |});
  on_pause _ k := (Resume, k);
  token_cancelled _ := false; globally_cancelled _ := false
|}.
#[local] Instance scripted_log : SinkLog ScriptedSink.
Proof. by exists seen. Defined.
#[local] Instance scripted_patience : SinkPatience ScriptedSink.
Proof.
  exists (fun k => length (controls k)); [done| |done]. intros k. cbn [poll_control scripted]. destruct (controls k) as [|[] cs]; cbn; lia.
Defined.
Definition fresh (controls : list StreamControl) : World (K := ScriptedSink) :=
  {| sink := {| seen := []; controls := controls |}; calls_made := 0;
     counters := {| caller := tt; deltas := 0; tokens_in := 0; tokens_out := 0; drawn := 0; made := 0 |} |}.
Definition streamed (data : list str) (controls : list StreamControl) : option (str * str * list str * ReplyOutcome * nat) :=
  match chat_stream_resumable 5 (fun _ => backend data) [User (lit "Plan it.")] 300 300 (new_detector 5 5) false (fresh controls) with
  | Ran (Ok out, _, w) => Some (reply_content (out_reply out), reply_reasoning (out_reply out),
                             map (fun c => fn_name (tc_function c)) (reply_tool_calls (out_reply out)), reply_outcome (out_reply out), calls_made w)
  | _ => None
  end.
Example streamed_once : streamed [lit "think"; lit "call"; lit "[DONE]"] [] = Some ([], lit "Hm. ", [lit "create_plan"], Complete, 1).
Proof. vm_compute. reflexivity. Qed.
(** A pause between two events: the stream is cut and continued. *)
Example paused_and_resumed : streamed [lit "text"; lit "[DONE]"] [Go; Go; Pause (lit "wait")] = Some (lit "HiHi", [], [], Complete, 2).
Proof. vm_compute. reflexivity. Qed.
(** A pause polled with the marker that closes the reasoning of a reply already
    complete: the reply is continued all the same, and its call comes twice. *)
Example pause_on_the_closing_marker_repeats_the_call :
  streamed [lit "think"; lit "call"; lit "[DONE]"] [Go; Go; Go; Go; Go; Go; Go; Pause (lit "wait")] =
    Some ([], lit "Hm. Hm. ", [lit "create_plan"; lit "create_plan"], Complete, 2).
Proof. vm_compute. reflexivity. Qed.

(** A stream that keeps the thinking in its content, with the detector of
    another one. *)
Definition used_detector : RepetitionDetector := default (new_detector 5 5) (Repetition.push (lit "an earlier reply ") (new_detector 5 5)).
Lemma resumed_reply_was_sent_witness :
  let run := chat_stream_resumable 3 (fun _ => backend [lit "think"; lit "text"; lit "[DONE]"]) [User (lit "Plan it.")] 300 300 used_detector true (fresh [Go; Pause (lit "wait")]) in
  match run with
  | Ran (r, detector', w') => fed detector' /\ exists es, log (sink w') = log (sink (fresh [Go; Pause (lit "wait")])) ++ es /\
      match r with
      | Ok out => let content := reply_content (out_reply out) in
          reply_reasoning (out_reply out) = thinking_sent es /\
          content_sent es = content_of false (lexer false content) /\ thinking_sent es = thinking_of (lexer false content)
      | Err _ => True
      end
  | Panics | NoFuel => False
  end.
Proof.
  apply (resumed_reply_was_sent 3 _ [User (lit "Plan it.")] 300 300 used_detector true (fresh [Go; Pause (lit "wait")])); [|cbn; lia].
  exists (lit "an earlier reply "), 5, 5. by vm_compute.
Defined.
