(* ===== verification/Journal.v ===== *)
(** * The per-worker history mirror ([src/session/worker_journal.rs],
      [src/session/time.rs])

    A worker's engine is private to its run, so every mutation of it is
    mirrored into a journal the committer can read.  Journals are shared
    objects: the runner, the close guard and the process-wide table hold the
    same one, so they live in a store addressed by number and the table maps
    worker keys to addresses. *)

From S2P Require Import Prelude Str Regex TaskId Agents PlanParse Pool Notice NoticeRouting Decimal.
From S2P Require Import Wire Session Context Registry.

(** ** Durable clocks ([time.rs]) *)

(** A reading kept in a bundle: the seconds since the process anchor, and the
    wall clock in nanoseconds. *)
Record TimePoint := { elapsed_secs : f64; tp_wall : N }.
#[export] Instance TimePoint_eq_dec : EqDecision TimePoint.
Proof. solve_decision. Defined.
Definition is_sane (t : TimePoint) : bool := is_finite (elapsed_secs t) && nonnegative (elapsed_secs t).

(** Clock readings are in nanoseconds; the floor at zero is the truncated
    subtraction. *)
Definition elapsed_since (anchor inst : N) : f64 := as_secs_f64 (inst - anchor).

(** [TimePoint::now] *)
Definition time_now (anchor now : Now) : TimePoint :=
  {| elapsed_secs := elapsed_since (instant anchor) (instant now);
     tp_wall := N.max (wall now) (wall anchor) |}.

(** [TimePoint::from_instant_with_wall] *)
Definition from_instant_with_wall (anchor : Now) (inst wl : N) : TimePoint :=
  {| elapsed_secs := elapsed_since (instant anchor) inst;
     tp_wall := if (wl <? wall anchor)%N then wall anchor else wl |}.

(** [TimePoint::to_instant]; instants count from the least representable one,
    below which [checked_sub] fails. *)
Definition to_instant (now : Now) (t : TimePoint) : N :=
  let age := (wall now - tp_wall t)%N in
  if (age <=? instant now)%N then (instant now - age)%N else instant now.

(** ** What a restart loses ([session/format/restore.rs]) *)

Inductive NonRestorableKind :=
  | CancellationToken | JoinHandle | PtyProcess | DropGuard | PendingNotice | HarnessStatsKind
  | ToolSchemaCharge | WorkerHistory | OtherKind.
#[export] Instance NonRestorableKind_eq_dec : EqDecision NonRestorableKind.
Proof. solve_decision. Defined.

Record NonRestorableNotice := {
  nr_kind : NonRestorableKind; nr_subject : str; nr_detail : str
}.
Definition dedup_key (n : NonRestorableNotice) : NonRestorableKind * str := (nr_kind n, nr_subject n).

(** ** The journal *)

Record WorkerSeed := {
  seed_brief : str; seed_snippets : list str; seed_image_urls : list str;
  seed_audio_urls : list str; seed_recursion_granted : bool
}.
(** The derived [Default]. *)
Definition default_seed : WorkerSeed :=
  {| seed_brief := []; seed_snippets := []; seed_image_urls := []; seed_audio_urls := [];
     seed_recursion_granted := false |}.

Record MirrorState := {
  records : list MessageRecord;
  seeded : bool;
  live_mutations : nat;
  truncated : bool;
  dropped : nat;
  mirror_seed : option WorkerSeed
}.
Definition empty_mirror : MirrorState :=
  {| records := []; seeded := false; live_mutations := 0; truncated := false; dropped := 0;
     mirror_seed := None |}.

Record WorkerJournal := {
  journal_key : str;
  journal_id : N;
  mirror_cap : nat;
  closed : bool;
  closed_seq : N;
  mirror : MirrorState
}.
Definition with_mirror (j : WorkerJournal) (s : MirrorState) : WorkerJournal :=
  {| journal_key := journal_key j; journal_id := journal_id j; mirror_cap := mirror_cap j;
     closed := closed j; closed_seq := closed_seq j; mirror := s |}.

(** Keep the oldest [cap] records; how many were refused. *)
Definition clamp_to_cap (rs : list MessageRecord) (cap : nat) : list MessageRecord * nat :=
  if length rs <=? cap then (rs, 0) else (take cap rs, length rs - cap).

(** Refusing one record, or [n] of them. *)
Definition refuse (n : nat) (s : MirrorState) : MirrorState :=
  if 0 <? n then
    {| records := records s; seeded := seeded s; live_mutations := live_mutations s; truncated := true;
       dropped := dropped s + n; mirror_seed := mirror_seed s |}
  else s.
Definition set_records (rs : list MessageRecord) (s : MirrorState) : MirrorState :=
  {| records := rs; seeded := seeded s; live_mutations := live_mutations s; truncated := truncated s;
     dropped := dropped s; mirror_seed := mirror_seed s |}.
Definition bump_mutations (s : MirrorState) : MirrorState :=
  {| records := records s; seeded := seeded s; live_mutations := S (live_mutations s);
     truncated := truncated s; dropped := dropped s; mirror_seed := mirror_seed s |}.
Definition mark_seeded (sd : WorkerSeed) (s : MirrorState) : MirrorState :=
  {| records := records s; seeded := true; live_mutations := live_mutations s; truncated := truncated s;
     dropped := dropped s; mirror_seed := Some sd |}.

Definition record_seed (messages : list Message) (sd : WorkerSeed) (j : WorkerJournal) : WorkerJournal :=
  let '(kept, n) := clamp_to_cap (map from_wire messages) (mirror_cap j) in
  with_mirror j (mark_seeded sd (refuse n (set_records kept (mirror j)))).

Definition mirrored_append (m : Message) (j : WorkerJournal) : WorkerJournal :=
  let s := bump_mutations (mirror j) in
  with_mirror j
    (if mirror_cap j <=? length (records s) then refuse 1 s
     else set_records (records s ++ [from_wire m]) s).

Definition mirrored_replace_last (m : Message) (j : WorkerJournal) : WorkerJournal :=
  let s := bump_mutations (mirror j) in
  with_mirror j
    (match records s with
     | [] => if 0 <? mirror_cap j then set_records [from_wire m] s else refuse 1 s
     | rs => set_records (<[pred (length rs) := from_wire m]> rs) s
     end).

Definition collapse_records (rs : list MessageRecord) (j : WorkerJournal) : WorkerJournal :=
  let '(kept, n) := clamp_to_cap rs (mirror_cap j) in
  with_mirror j (refuse n (set_records kept (bump_mutations (mirror j)))).
Definition mirrored_collapse (messages : list Message) (j : WorkerJournal) : WorkerJournal :=
  collapse_records (map from_wire messages) j.

(** ** Reading a journal *)

Inductive HistorySource := LiveMirror | SeedOnly | NotCaptured.
#[export] Instance HistorySource_eq_dec : EqDecision HistorySource.
Proof. solve_decision. Defined.

Definition snapshot_records (j : WorkerJournal) : list MessageRecord := records (mirror j).
Definition journal_len (j : WorkerJournal) : nat := length (records (mirror j)).
Definition history_source (j : WorkerJournal) : HistorySource :=
  if 0 <? live_mutations (mirror j) then LiveMirror
  else if seeded (mirror j) then SeedOnly else NotCaptured.
Definition was_truncated (j : WorkerJournal) : bool := truncated (mirror j).
Definition dropped_records (j : WorkerJournal) : nat := dropped (mirror j).
Definition project_history (j : WorkerJournal)
    : list MessageRecord * HistorySource * DanglingToolCallState :=
  (records (mirror j), history_source j, observe (records (mirror j))).

Definition truncation_notice (j : WorkerJournal) : option NonRestorableNotice :=
  if negb (truncated (mirror j)) then None
  else Some {| nr_kind := WorkerHistory; nr_subject := journal_key j;
    nr_detail := lit "the mirror for " ++ journal_key j ++ lit " held at most " ++
      lit (pretty.pretty (mirror_cap j)) ++ lit " records and refused " ++
      lit (pretty.pretty (dropped (mirror j))) ++
      lit " of them: the persisted history is truncated, not complete" |}.

(** ** The engine with its mirror *)

(** [mirror_append], [mirror_replace_last] and [mirror_collapse]: the journal,
    if there is one, follows the engine. *)
Definition mirror_append (e : ContextEngine) (j : option WorkerJournal) (m : Message)
    : ContextEngine * option WorkerJournal := (append e m, mirrored_append m <$> j).
Definition mirror_replace_last (e : ContextEngine) (j : option WorkerJournal) (m : Message)
    : ContextEngine * option WorkerJournal := (replace_last e m, mirrored_replace_last m <$> j).
Definition mirror_collapse (e : ContextEngine) (j : option WorkerJournal)
    : ContextEngine * option WorkerJournal := (e, mirrored_collapse (messages e) <$> j).

(** ** The process-wide table *)

Definition MAX_CLOSED_JOURNALS : nat := 10.

(** The journals by address, the table of names, and the close counter. *)
Record Journals := {
  journals : gmap N WorkerJournal;
  next_address : N;
  names : gmap str N;               (* REGISTRY *)
  next_closed_seq : N               (* CLOSED_SEQ *)
}.
Definition initial_journals : Journals :=
  {| journals := ∅; next_address := 0; names := ∅; next_closed_seq := 0 |}.
Definition on_journals (f : gmap N WorkerJournal -> gmap N WorkerJournal) (st : Journals) : Journals :=
  {| journals := f (journals st); next_address := next_address st; names := names st;
     next_closed_seq := next_closed_seq st |}.
Definition on_names (f : gmap str N -> gmap str N) (st : Journals) : Journals :=
  {| journals := journals st; next_address := next_address st; names := f (names st);
     next_closed_seq := next_closed_seq st |}.

(** [open]; the answer is the address of the shared journal. *)
Definition open_journal (worker_key : str) (id : N) (cap : nat) (st : Journals) : N * Journals :=
  let a := next_address st in
  let j := {| journal_key := worker_key; journal_id := id; mirror_cap := Nat.max cap 1;
              closed := false; closed_seq := 0; mirror := empty_mirror |} in
  (a, {| journals := <[a := j]> (journals st); next_address := (a + 1)%N;
         names := <[worker_key := a]> (names st); next_closed_seq := next_closed_seq st |}).

Definition registry_get (worker_key : str) (st : Journals) : option WorkerJournal :=
  a ← names st !! worker_key; journals st !! a.

(** The table iterates in key order. *)
Definition registry_entries (st : Journals) : list (str * WorkerJournal) :=
  omap (fun e => (fun j => (fst e, j)) <$> journals st !! snd e)
    (sort_with (fun a b => id_leb (fst a) (fst b)) (map_to_list (names st))).
Definition registry_snapshot (st : Journals) : list WorkerJournal := map snd (registry_entries st).
Definition registry_keys (st : Journals) : list str := map fst (registry_entries st).
Definition registry_len (st : Journals) : nat := size (names st).
Definition unregister (worker_key : str) (st : Journals) : option WorkerJournal * Journals :=
  (registry_get worker_key st, on_names (delete worker_key) st).

(** Removing one name, counting the removals. *)
Definition remove_name (acc : Journals * nat) (key : str) : Journals * nat :=
  let '(st, n) := acc in
  match names st !! key with
  | Some _ => (on_names (delete key) st, S n)
  | None => (st, n)
  end.

Definition prune_closed_journals (st : Journals) : nat * Journals :=
  let closed_names := map (fun e => (closed_seq (snd e), fst e))
    (List.filter (fun e => closed (snd e)) (registry_entries st)) in
  if length closed_names <=? MAX_CLOSED_JOURNALS then (0, st)
  else
    let sorted := sort_with (fun a b => (fst a <=? fst b)%N) closed_names in
    let '(st', n) := fold_left remove_name
      (map snd (take (length closed_names - MAX_CLOSED_JOURNALS) sorted)) (st, 0) in
    (n, st').

(** [WorkerJournal::close] of the journal at an address, also the drop of a
    [JournalCloseGuard]. *)
Definition close_journal (a : N) (st : Journals) : nat * Journals :=
  match journals st !! a with
  | None => (0, st)
  | Some j =>
      if closed j then (0, st)
      else
        let seq := next_closed_seq st in
        let j' := {| journal_key := journal_key j; journal_id := journal_id j; mirror_cap := mirror_cap j;
                     closed := true; closed_seq := seq; mirror := mirror j |} in
        prune_closed_journals
          {| journals := <[a := j']> (journals st); next_address := next_address st; names := names st;
             next_closed_seq := fetch_add seq 1 |}
  end.
