(* ===== verification/JournalFacts.v ===== *)
(** * The history mirror: what it promises

    The mirror follows the engine record for record until its cap bites, says
    so when it does, and the table of journals keeps a bounded window of
    finished runs without ever losing a running one. *)

From S2P Require Import Prelude Str Regex TaskId Agents PlanParse Pool Notice NoticeFacts NoticeRouting.
From S2P Require Import Wire Session Context ContextFacts Registry RegistryFacts Journal.

(** ** The mirror and the engine *)

(** What a run does to its engine: a mirrored append, a mirrored replacement of
    the last message, or any mutation of the engine's own (a compaction, an
    advisory, a rebirth) followed by a collapse of the mirror. *)
Inductive EngineOp :=
  | OpAppend (m : Message)
  | OpReplaceLast (m : Message)
  | OpRewrite (f : ContextEngine -> ContextEngine).

Definition apply_op (st : ContextEngine * option WorkerJournal) (op : EngineOp)
    : ContextEngine * option WorkerJournal :=
  match op with
  | OpAppend m => mirror_append (fst st) (snd st) m
  | OpReplaceLast m => mirror_replace_last (fst st) (snd st) m
  | OpRewrite f => mirror_collapse (f (fst st)) (snd st)
  end.

(** The mirror of a transcript: as long as the cap allows, and the transcript
    itself unless it says that it is truncated. *)
Record mirrors (ms : list Message) (j : WorkerJournal) : Prop := {
  mi_cap : 0 < mirror_cap j;
  mi_len : length (records (mirror j)) = Nat.min (mirror_cap j) (length ms);
  mi_exact : truncated (mirror j) = false -> records (mirror j) = map from_wire ms;
  mi_dropped : truncated (mirror j) = true <-> 0 < dropped (mirror j)
}.

Lemma clamp_spec rs cap kept n :
  clamp_to_cap rs cap = (kept, n) ->
  kept = take cap rs /\ n = length rs - cap /\ length kept = Nat.min cap (length rs).
Proof.
  unfold clamp_to_cap. destruct (length rs <=? cap) eqn:E; intros [= <- <-].
  - apply Nat.leb_le in E. rewrite take_ge by lia. split_and!; [done|lia|lia].
  - apply Nat.leb_gt in E. rewrite length_take. split_and!; [done|done|lia].
Qed.

(** Setting the mirror to a clamped transcript. *)
Lemma clamped_mirrors ms j s kept n :
  0 < mirror_cap j -> (truncated s = true <-> 0 < dropped s) ->
  clamp_to_cap (map from_wire ms) (mirror_cap j) = (kept, n) ->
  mirrors ms (with_mirror j (refuse n (set_records kept s))).
Proof.
  intros Hcap Hd Hc. apply clamp_spec in Hc as (-> & -> & Hlen). rewrite length_map in *.
  unfold refuse. destruct (0 <? length ms - mirror_cap j) eqn:E; split; simpl; try done.
  - apply Nat.ltb_lt in E. split; [lia|done].
  - intros _. apply Nat.ltb_ge in E. apply take_ge. rewrite length_map. lia.
Qed.

Lemma seed_mirrors ms sd j :
  0 < mirror_cap j -> truncated (mirror j) = false -> dropped (mirror j) = 0 ->
  mirrors ms (record_seed ms sd j).
Proof.
  intros Hcap Ht Hd. unfold record_seed. destruct (clamp_to_cap _ _) as [kept n] eqn:Hc.
  destruct (clamped_mirrors ms j (mirror j) kept n Hcap) as [H1 H2 H3 H4]; [|done|by split].
  rewrite Ht, Hd. split; [done|lia].
Qed.

Lemma append_mirrors e m j :
  mirrors (messages e) j -> mirrors (messages (append e m)) (mirrored_append m j).
Proof.
  intros [Hcap Hlen Hex Hd]. unfold mirrored_append, append. cbn [messages with_messages bump_mutations records].
  destruct (mirror_cap j <=? length (records (mirror j))) eqn:E; split; simpl; rewrite ?length_app; simpl; try done.
  - apply Nat.leb_le in E. lia.
  - split; [lia|done].
  - apply Nat.leb_gt in E. lia.
  - intros Ht. by rewrite (Hex Ht), map_app.
Qed.

Lemma map_insert_last (ms : list Message) m :
  <[pred (length ms) := from_wire m]> (map from_wire ms) = map from_wire (<[pred (length ms) := m]> ms).
Proof. symmetry. apply (list_fmap_insert from_wire). Qed.

Lemma replace_mirrors e m j :
  mirrors (messages e) j -> mirrors (messages (replace_last e m)) (mirrored_replace_last m j).
Proof.
  intros [Hcap Hlen Hex Hd]. unfold mirrored_replace_last, replace_last. cbn [messages with_messages bump_mutations records].
  destruct (messages e) as [|m0 ms] eqn:Em.
  - simpl in Hlen. rewrite Nat.min_0_r in Hlen. apply nil_length_inv in Hlen as Hr. rewrite Hr.
    rewrite (proj2 (Nat.ltb_lt _ _)) by done. split; simpl; [done|lia|done|done].
  - destruct (records (mirror j)) as [|r rs] eqn:Er; [simpl in Hlen; lia|].
    split; cbn [mirror with_mirror set_records records truncated dropped mirror_cap bump_mutations]; try done.
    + rewrite !length_insert. simpl in *. lia.
    + intros Ht. rewrite (Hex Ht), length_map. apply map_insert_last.
Qed.

Lemma collapse_mirrors ms0 ms j : mirrors ms0 j -> mirrors ms (mirrored_collapse ms j).
Proof.
  intros [Hcap _ _ Hd]. unfold mirrored_collapse, collapse_records.
  destruct (clamp_to_cap _ _) as [kept n] eqn:Hc. by apply (clamped_mirrors ms j (bump_mutations (mirror j))).
Qed.

(** What no operation changes. *)
Lemma op_frame op e j :
  exists e' j', apply_op (e, Some j) op = (e', Some j') /\ mirror_cap j' = mirror_cap j /\
    seeded (mirror j') = seeded (mirror j) /\ live_mutations (mirror j') = S (live_mutations (mirror j)).
Proof.
  destruct op as [m|m|f]; eexists _, _; (split; [reflexivity|]).
  - unfold mirrored_append. simpl. by case_match.
  - unfold mirrored_replace_last. simpl. destruct (records (mirror j)); [|done]. by case_match.
  - unfold mirrored_collapse, collapse_records. destruct (clamp_to_cap _ _). unfold refuse. by case_match.
Qed.

Lemma op_mirrors op e j e' j' :
  mirrors (messages e) j -> apply_op (e, Some j) op = (e', Some j') -> mirrors (messages e') j'.
Proof.
  intros Hm Heq. destruct op as [m|m|f]; injection Heq as <- <-.
  - by apply append_mirrors.
  - by apply replace_mirrors.
  - by eapply collapse_mirrors.
Qed.

Lemma ops_mirrors ops : forall e j,
  mirrors (messages e) j ->
  exists e' j', fold_left apply_op ops (e, Some j) = (e', Some j') /\ mirrors (messages e') j' /\
    mirror_cap j' = mirror_cap j /\ seeded (mirror j') = seeded (mirror j) /\
    live_mutations (mirror j') = length ops + live_mutations (mirror j).
Proof.
  induction ops as [|op ops IH]; intros e j Hm; [by exists e, j|].
  destruct (op_frame op e j) as (e1 & j1 & Heq & Hc1 & Hs1 & Hl1). simpl. rewrite Heq.
  destruct (IH e1 j1 (op_mirrors _ _ _ _ _ Hm Heq)) as (e' & j' & Heq' & Hm' & Hc' & Hs' & Hl').
  exists e', j'. split_and!; [done|done|congruence|congruence|lia].
Qed.

(** A journal as [open] makes it. *)
Definition opened_journal (key : str) (id : N) (cap : nat) : WorkerJournal :=
  {| journal_key := key; journal_id := id; mirror_cap := Nat.max cap 1; closed := false; closed_seq := 0;
     mirror := empty_mirror |}.

(** C24: The mirror is a faithful shadow of the engine.  Seeded from the engine
    a run starts with and fed every append, replacement and rewrite of it, the
    mirror holds as many records as the transcript, or its cap when that is
    longer; as long as it does not report itself truncated its records are the
    transcript, so restoring them gives back the engine's messages, and the
    pairing state the capture records is the one observed on the transcript;
    and the source says live exactly when a mutation was seen. *)
Theorem mirror_refines_engine key id cap sd e ops :
  exists e' j',
    fold_left apply_op ops (e, Some (record_seed (messages e) sd (opened_journal key id cap))) = (e', Some j') /\
    journal_len j' = Nat.min (Nat.max cap 1) (length (messages e')) /\
    (was_truncated j' = true <-> 0 < dropped_records j') /\
    (was_truncated j' = false ->
       project_history j' = (map from_wire (messages e'), history_source j', observe (map from_wire (messages e'))) /\
       map into_wire (snapshot_records j') = messages e') /\
    history_source j' = (if 0 <? length ops then LiveMirror else SeedOnly).
Proof.
  set (j := record_seed _ _ _).
  assert (Hm : mirrors (messages e) j) by (apply seed_mirrors; simpl; [lia|done|done]).
  assert (Hj : live_mutations (mirror j) = 0 /\ seeded (mirror j) = true /\ mirror_cap j = Nat.max cap 1).
  { unfold j, record_seed. destruct (clamp_to_cap _ _). unfold refuse. by case_match. }
  destruct Hj as (Hl & Hs & Hc).
  destruct (ops_mirrors ops e j Hm) as (e' & j' & Heq & [Hcap Hlen Hex Hd] & Hc' & Hs' & Hl').
  exists e', j'. split; [done|]. rewrite Hc in Hc'. rewrite Hs in Hs'.
  split_and!.
  - unfold journal_len. by rewrite Hlen, Hc'.
  - exact Hd.
  - intros Ht. unfold project_history, snapshot_records. rewrite (Hex Ht). split; [done|].
    rewrite map_map. rewrite <-(map_id (messages e')) at 2. apply map_ext, into_from_wire.
  - unfold history_source. rewrite Hl', Hl, Hs', Nat.add_0_r. done.
Qed.

(** Once records have been refused, a replacement of the engine's last message
    overwrites the last record kept, which is a different message: the mirror
    is no longer a prefix of the transcript. *)
Lemma truncated_replace_clobbers :
  let j := record_seed [User (lit "a")] default_seed (opened_journal (lit "k") 1 1) in
  let e := append (Context.new 10) (User (lit "a")) in
  let '(e', j') := fold_left apply_op [OpAppend (User (lit "b")); OpReplaceLast (User (lit "c"))] (e, Some j) in
  messages e' = [User (lit "a"); User (lit "c")] /\ (snapshot_records <$> j') = Some [RUser (lit "c")].
Proof. vm_compute. done. Qed.

(** ** The window of finished runs *)

(** Names lead to journals of that name, and addresses are drawn in order. *)
Record journals_ok (st : Journals) : Prop := {
  jo_names : forall k a, names st !! k = Some a -> exists j, journals st !! a = Some j /\ journal_key j = k;
  jo_fresh : forall a j, journals st !! a = Some j -> (a < next_address st)%N
}.

(** The close order of a name whose run is over. *)
Definition closed_at (st : Journals) (a : N) : option N :=
  j ← journals st !! a; if closed j then Some (closed_seq j) else None.
Definition closed_names (st : Journals) : gmap str N := omap (closed_at st) (names st).

Definition closed_list (st : Journals) : list (str * N) :=
  map (fun e => (fst e, closed_seq (snd e))) (List.filter (fun e => closed (snd e)) (registry_entries st)).

Lemma elem_of_closed_list st k q : (k, q) ∈ closed_list st <-> closed_names st !! k = Some q.
Proof.
  unfold closed_list, closed_names, registry_entries. rewrite list_elem_of_fmap, lookup_omap. split.
  - intros ([k' j] & [= -> ->] & Hin). apply list_elem_of_In, filter_In in Hin as [Hin Hc]. simpl in Hc.
    apply list_elem_of_In, list_elem_of_omap in Hin as ([k2 a] & Hin & Hf). simpl in Hf.
    rewrite sort_with_perm, elem_of_map_to_list in Hin. destruct (journals st !! a) as [j2|] eqn:Ej; simplify_eq/=.
    rewrite Hin. simpl. unfold closed_at. rewrite Ej. simpl. by rewrite Hc.
  - destruct (names st !! k) as [a|] eqn:Ea; [|done]. simpl. unfold closed_at.
    destruct (journals st !! a) as [j|] eqn:Ej; [|done]. simpl. destruct (closed j) eqn:Hc; [|done]. intros [= <-].
    exists (k, j). split; [done|]. apply list_elem_of_In, filter_In. split; [|done].
    apply list_elem_of_In, list_elem_of_omap. exists (k, a). simpl. rewrite Ej. split; [|done].
    by rewrite sort_with_perm, elem_of_map_to_list.
Qed.

Lemma closed_list_perm st : closed_list st ≡ₚ map_to_list (closed_names st).
Proof.
  apply NoDup_Permutation; [|apply NoDup_map_to_list|].
  - apply (NoDup_fmap_1 fst). unfold closed_list. rewrite <-list_fmap_compose.
    eapply sublist_NoDup.
    2:{ apply (fmap_sublist fst), filter_sublist. }
    unfold registry_entries. eapply sublist_NoDup; [|apply (omap_keys_sublist (fun a => journals st !! a))].
    rewrite sort_with_perm. apply NoDup_fst_map_to_list.
  - intros [k q]. by rewrite elem_of_closed_list, elem_of_map_to_list.
Qed.

Lemma remove_name_fold ks st n :
  NoDup ks -> (forall k, k ∈ ks -> is_Some (names st !! k)) ->
  fold_left remove_name ks (st, n) = (on_names (fun m => foldr delete m (rev ks)) st, n + length ks).
Proof.
  intros Hnd. revert st n. induction Hnd as [|k ks Hk Hnd IH]; intros st n Hin; simpl.
  - rewrite Nat.add_0_r. by destruct st.
  - destruct (Hin k) as [a Ha]; [by left|]. rewrite Ha, IH.
    + unfold on_names; simpl. by rewrite foldr_app, Nat.add_succ_r.
    + intros k' Hk'. simpl. rewrite lookup_delete_ne by (intros ->; done). apply Hin. by right.
Qed.

(** Pruning takes names of finished runs only, the oldest, down to the bound. *)
Record pruned (st st' : Journals) (victims : list str) : Prop := {
  pr_state : st' = on_names (fun m => foldr delete m victims) st;
  pr_closed : forall k, k ∈ victims -> is_Some (closed_names st !! k);
  pr_bound : size (closed_names st') <= MAX_CLOSED_JOURNALS;
  pr_oldest : forall k q k' q', k ∈ victims -> closed_names st !! k = Some q ->
    closed_names st' !! k' = Some q' -> (q <= q')%N
}.

Lemma prune_journals_spec st :
  exists victims st', prune_closed_journals st = (length victims, st') /\ pruned st st' victims.
Proof.
  unfold prune_closed_journals.
  set (swapped := map _ (List.filter _ _)).
  assert (Hswap : swapped = map (fun e => (snd e, fst e)) (closed_list st)).
  { unfold swapped, closed_list. by rewrite map_map. }
  assert (Hlen : length swapped = size (closed_names st)).
  { by rewrite Hswap, length_map, closed_list_perm, length_map_to_list. }
  destruct (length swapped <=? MAX_CLOSED_JOURNALS) eqn:E.
  { apply Nat.leb_le in E. exists [], st. split; [done|].
    split; [by destruct st|by intros ? ?%not_elem_of_nil|lia|by intros ? ? ? ? ?%not_elem_of_nil]. }
  pose proof (oldest_spec _ _ MAX_CLOSED_JOURNALS (closed_list_perm st)) as Hv. cbv zeta in Hv.
  rewrite Hswap, length_map, (sort_with_map _ seq_leb) by done.
  rewrite firstn_map, map_map. cbn [snd]. change (map (fun x : str * N => x.1)) with (map (@fst str N)).
  set (victims := map fst _) in *. destruct Hv as (Hnd & Hin & Hl & Hsz & Hold).
  rewrite remove_name_fold; [|done|].
  2:{ intros k Hk. destruct (Hin k Hk) as [q Hq]. unfold closed_names in Hq.
      apply lookup_omap_Some in Hq as (a & _ & Ha). by exists a. }
  exists (rev victims). eexists. rewrite length_rev. split; [done|].
  assert (Hc : closed_names (on_names (fun m => foldr delete m (rev victims)) st) =
               foldr delete (closed_names st) (rev victims)).
  { unfold closed_names. simpl. apply omap_foldr_delete. }
  split; [done| |rewrite Hc; lia|].
  - intros k Hk. rewrite <-Permutation_rev in Hk. auto.
  - intros k q k' q' Hk Hq. rewrite Hc. rewrite <-Permutation_rev in Hk. by eapply Hold.
Qed.

(** ** Histories of the table *)

(** One operation: a run opens a journal, feeds the one it holds, closes it;
    the committer forgets a name. *)
Inductive journal_step : Journals -> Journals -> Prop :=
  | js_open key id cap st : journal_step st (snd (open_journal key id cap st))
  | js_feed a f st :
      (forall j, journal_key (f j) = journal_key j /\ closed (f j) = closed j /\ closed_seq (f j) = closed_seq j) ->
      journal_step st (on_journals (alter f a) st)
  | js_close a st : journal_step st (snd (close_journal a st))
  | js_unregister key st : journal_step st (snd (unregister key st)).

Lemma closed_names_lookup st k q :
  closed_names st !! k = Some q <->
  exists a j, names st !! k = Some a /\ journals st !! a = Some j /\ closed j = true /\ closed_seq j = q.
Proof.
  unfold closed_names. rewrite lookup_omap_Some. unfold closed_at. split.
  - intros (a & Hc & Ha). exists a. destruct (journals st !! a) as [j|]; [|done]. simpl in Hc.
    destruct (closed j) eqn:E; [|done]. simplify_eq. by exists j.
  - intros (a & j & Ha & Hj & Hc & <-). exists a. split; [|done]. rewrite Hj. simpl. by rewrite Hc.
Qed.

(** Fewer finished names. *)
Lemma closed_names_fewer st st' :
  (forall k q, closed_names st' !! k = Some q -> is_Some (closed_names st !! k)) ->
  size (closed_names st') <= size (closed_names st).
Proof.
  intros Hs. rewrite <-!size_dom. apply subseteq_size. intros k [q Hq]%elem_of_dom.
  apply elem_of_dom. by eapply Hs.
Qed.

Lemma close_spec a st :
  journals_ok st ->
  let '(n, st') := close_journal a st in
  journals_ok st' /\
  (forall k b j, names st !! k = Some b -> journals st !! b = Some j -> closed j = false -> b <> a ->
     names st' !! k = Some b /\ journals st' !! b = Some j) /\
  (size (closed_names st) <= MAX_CLOSED_JOURNALS -> size (closed_names st') <= MAX_CLOSED_JOURNALS).
Proof.
  intros Hok. unfold close_journal. destruct (journals st !! a) as [j|] eqn:Hj; [|by split_and!].
  destruct (closed j) eqn:Hc; [by split_and!|].
  set (j' := {| journal_key := _ |}). set (st1 := {| journals := _ |}).
  destruct (prune_journals_spec st1) as (victims & st' & Hp & [Hst Hcl Hb _]). rewrite Hp.
  assert (Hn : forall k b, names st' !! k = Some b -> names st !! k = Some b).
  { intros k b. rewrite Hst. simpl. rewrite lookup_foldr_delete. by case_decide. }
  assert (Hj' : journals st' = <[a := j']> (journals st)) by (by rewrite Hst).
  split_and!; [split| |done].
  - intros k b Hb'%Hn. rewrite Hj'. destruct (jo_names _ Hok _ _ Hb') as (jb & Hjb & Hk).
    destruct (decide (b = a)) as [->|Hne]; [|rewrite lookup_insert_ne by done; by exists jb].
    rewrite lookup_insert_eq. exists j'. split; [done|]. by simplify_eq.
  - intros b jb. rewrite Hj'. replace (next_address st') with (next_address st) by (by rewrite Hst).
    intros [[<- _]|[_ Hjb]]%lookup_insert_Some; by eapply jo_fresh.
  - intros k b jb Hb' Hjb Hcb Hne. rewrite Hj', lookup_insert_ne by done. split; [|done].
    rewrite Hst. simpl. rewrite lookup_foldr_delete. case_decide as Hv; [|done]. exfalso.
    destruct (Hcl k Hv) as [q (b2 & jb2 & Hb2 & Hjb2 & Hcb2 & _)%closed_names_lookup]. simpl in *.
    rewrite Hb' in Hb2. injection Hb2 as <-. rewrite lookup_insert_ne in Hjb2 by done. congruence.
Qed.

Lemma journal_step_ok st st' :
  journal_step st st' -> journals_ok st -> size (closed_names st) <= MAX_CLOSED_JOURNALS ->
  journals_ok st' /\ size (closed_names st') <= MAX_CLOSED_JOURNALS.
Proof.
  intros Hstep Hok Hb. destruct Hstep as [key id cap st|a f st Hf|a st|key st].
  - simpl. split; [split|]; simpl.
    + intros k a [[<- <-]|[Hne Ha]]%lookup_insert_Some; [by rewrite lookup_insert_eq; eexists|].
      destruct (jo_names _ Hok _ _ Ha) as (j & Hj & Hk). pose proof (jo_fresh _ Hok _ _ Hj).
      rewrite lookup_insert_ne by lia. by exists j.
    + intros a j [[<- _]|[_ Hj]]%lookup_insert_Some; [lia|]. pose proof (jo_fresh _ Hok _ _ Hj). lia.
    + etrans; [apply closed_names_fewer|exact Hb].
      intros k q (a & j & Ha & Hj & Hc & Hq)%closed_names_lookup. exists q. apply closed_names_lookup.
      simpl in *. apply lookup_insert_Some in Ha as [[<- <-]|[Hne Ha]].
      * rewrite lookup_insert_eq in Hj. by injection Hj as <-.
      * destruct (jo_names _ Hok _ _ Ha) as (j2 & Hj2 & _). pose proof (jo_fresh _ Hok _ _ Hj2).
        rewrite lookup_insert_ne in Hj by lia. eauto 8.
  - split; [split|]; simpl.
    + intros k b Hb'. destruct (jo_names _ Hok _ _ Hb') as (j & Hj & Hk).
      destruct (decide (b = a)) as [->|Hne]; [|rewrite lookup_alter_ne by done; by exists j].
      rewrite lookup_alter_eq, Hj. exists (f j). split; [done|]. by destruct (Hf j) as [-> _].
    + intros b j Hj. destruct (decide (b = a)) as [->|Hne].
      * rewrite lookup_alter_eq in Hj. destruct (journals st !! a) as [j0|] eqn:E; [|done]. by eapply jo_fresh.
      * rewrite lookup_alter_ne in Hj by done. by eapply jo_fresh.
    + etrans; [apply closed_names_fewer|exact Hb].
      intros k q (b & j & Ha & Hj & Hc & Hq)%closed_names_lookup. exists q. apply closed_names_lookup.
      simpl in *. destruct (decide (b = a)) as [->|Hne]; [|rewrite lookup_alter_ne in Hj by done; eauto 8].
      rewrite lookup_alter_eq in Hj. destruct (journals st !! a) as [j0|] eqn:E; [|done]. simplify_eq/=.
      destruct (Hf j0) as (_ & Hc0 & Hq0). exists a, j0. by split_and!; congruence.
  - pose proof (close_spec a st Hok) as Hc. destruct (close_journal a st) as [n st']. by destruct Hc as (? & _ & ?); auto.
  - simpl. split; [split|]; simpl.
    + intros k a [_ Ha]%lookup_delete_Some. by apply jo_names.
    + apply Hok.
    + etrans; [apply closed_names_fewer|exact Hb].
      intros k q (a & j & Ha & Hj)%closed_names_lookup. exists q. apply closed_names_lookup.
      simpl in Ha. apply lookup_delete_Some in Ha as [_ Ha]. eauto.
Qed.

Lemma journal_history_ok st :
  rtc journal_step initial_journals st -> journals_ok st /\ size (closed_names st) <= MAX_CLOSED_JOURNALS.
Proof.
  intros Hst. cut (forall st0, rtc journal_step st0 st -> journals_ok st0 -> size (closed_names st0) <= MAX_CLOSED_JOURNALS ->
    journals_ok st /\ size (closed_names st) <= MAX_CLOSED_JOURNALS).
  { intros Hcut. apply (Hcut initial_journals); [done| |].
    - split; intros k x; simpl; by rewrite lookup_empty.
    - simpl. unfold closed_names. simpl. rewrite omap_empty, map_size_empty. lia. }
  induction 1 as [st0|st0 st1 st2 Hs _ IH]; intros Hok Hb; [done|].
  destruct (journal_step_ok _ _ Hs Hok Hb). auto.
Qed.

(** The table of journals keeps a bounded window of finished runs and every
    running one.  In every history of opens, mirrored mutations, closes and
    removals, at most ten finished runs keep a name; and closing a run never
    takes the name or the content of another run that is still going. *)
Theorem closed_window_bounded st a :
  rtc journal_step initial_journals st ->
  size (closed_names st) <= MAX_CLOSED_JOURNALS /\
  (let '(n, st') := close_journal a st in
   size (closed_names st') <= MAX_CLOSED_JOURNALS /\
   forall key j, registry_get key st = Some j -> closed j = false -> names st !! key <> Some a ->
     registry_get key st' = Some j).
Proof.
  intros Hst. destruct (journal_history_ok st Hst) as [Hok Hb]. split; [done|].
  pose proof (close_spec a st Hok) as Hc. destruct (close_journal a st) as [n st'].
  destruct Hc as (_ & Hopen & Hb'). split; [auto|]. intros key j Hj Hcl Hne.
  unfold registry_get in *. destruct (names st !! key) as [b|] eqn:Hb2; [|done]. simpl in Hj.
  destruct (Hopen key b j Hb2 Hj Hcl) as [-> Hj']; [congruence|done].
Qed.

Lemma closed_window_bounded_witness :
  let st := snd (open_journal (lit "coder-t-1") 1 5 initial_journals) in
  size (closed_names st) <= MAX_CLOSED_JOURNALS.
Proof.
  intros st. refine (proj1 (closed_window_bounded st 0%N _)).
  exact (rtc_once _ _ (js_open (lit "coder-t-1") 1 5 initial_journals)).
Defined.
