(* ===== verification/WorkerRestore.v ===== *)
(** * Capturing and restoring workers ([src/session/worker_journal.rs],
      [src/ui/session.rs])

    The projection of a live entry and its journal into the durable section of
    a bundle, the installation of restored sections into the registry, and the
    notice that tells the manager what was interrupted. *)

From S2P Require Import Prelude Str Regex TaskId Agents PlanParse Pool Notice NoticeRouting Decimal.
From S2P Require Import Wire Session Registry RegistryView Journal.

(** ** The durable section ([session/format/worker.rs]) *)

Inductive WorkerStatus := InProgress | Completed | FailedRun | AbortedRun | UnknownStatus | Unrecoverable.
#[export] Instance WorkerStatus_eq_dec : EqDecision WorkerStatus.
Proof. solve_decision. Defined.

Record WorkerCounters := {
  implementation_turns : nat; validation_rounds : nat; latest_validator_feedback : option str
}.

Record WorkerSection := {
  worker_key : str;
  section_id : N;
  role : Agent;
  section_task : option str;
  status : WorkerStatus;
  status_label : str;
  started : TimePoint;
  completed : option TimePoint;
  last_activity : option TimePoint;
  worked_secs : f64;
  section_seq : option N;
  context_tokens : nat;
  section_last_tokens : nat;
  counters : WorkerCounters;
  brief : str;
  snippets : list str;
  image_urls : list str;
  audio_urls : list str;
  recursion_granted : bool;
  history : list MessageRecord;
  section_source : HistorySource;
  dangling : DanglingToolCallState;
  unrecoverable_reason : option str;
  non_restorable : list NonRestorableNotice
}.

(** [IdentityFloors] and its check ([session/format/envelope.rs]). *)
Record IdentityFloors := {
  worker_id_seq_floor' : N; completed_seq_floor' : N; notice_id_floor' : N
}.
Definition sanity_violations (f : IdentityFloors) (workers : list WorkerSection) : list str :=
  concat (map (fun w =>
    (if (worker_id_seq_floor' f <=? section_id w)%N
     then [lit "worker " ++ worker_key w ++ lit " drew WORKER_ID_SEQ " ++ lit (pretty.pretty (section_id w)) ++
           lit " but the manifest floor is " ++ lit (pretty.pretty (worker_id_seq_floor' f))] else []) ++
    match section_seq w with
    | Some q =>
        if (completed_seq_floor' f <=? q)%N
        then [lit "worker " ++ worker_key w ++ lit " drew COMPLETED_SEQ " ++ lit (pretty.pretty q) ++
              lit " but the manifest floor is " ++ lit (pretty.pretty (completed_seq_floor' f))] else []
    | None => []
    end) workers).

(** ** Capture *)

Section capture.
Context `{Tokens} `{DashOrder} `{Unicode}.

Definition project_status (s : WorkerState) : WorkerStatus :=
  match completed_seq s with
  | None => InProgress
  | Some _ =>
      let label := wi_status (ws_info s) in
      if str_eqb label (lit "Completed") then Completed
      else if starts_with (lit "Failed") label then FailedRun
      else if starts_with (lit "Aborted") label then AbortedRun
      else if str_eqb label (lit "Approved") || str_eqb label (lit "Approved (validated)") then Completed
      else UnknownStatus
  end.

Definition source_debug (s : HistorySource) : str :=
  match s with LiveMirror => lit "LiveMirror" | SeedOnly => lit "SeedOnly" | NotCaptured => lit "NotCaptured" end.

(** One notice per steering notice queued for the worker. *)
Definition pending_notice_notices (key : str) (st : Store) : list NonRestorableNotice :=
  map (fun n => {| nr_kind := PendingNotice; nr_subject := key;
    nr_detail := lit "steering notice " ++ notice_id n ++ lit " was queued for " ++ key ++
      lit " at capture time and was never delivered: it lived in the memory of the process that ended, and the notice id counter was preserved so the id is not reused" |})
    (peek_worker_inbox st key).

Definition queued_notice_notices (key : str) (count : nat) : list NonRestorableNotice :=
  replicate (Nat.max count 1) {| nr_kind := PendingNotice; nr_subject := key;
    nr_detail := lit "a steering notice queued for " ++ key ++
      lit " in the previous process was never delivered and its queue did not survive the restart" |}.

Definition uncaptured_notice (key : str) (source : HistorySource) : NonRestorableNotice :=
  {| nr_kind := WorkerHistory; nr_subject := key;
     nr_detail := lit "history for " ++ key ++ lit " is " ++ source_debug source ++
       lit ": the mirrored transcript was never observed, so the persisted record carries the brief only" |}.

(** [project_worker_section]; the notice queues are read as they stand. *)
Definition project_worker_section (anchor now : Now) (notices : Store) (key : str) (s : WorkerState)
    (agent : Agent) (journal : option WorkerJournal) : WorkerSection :=
  let '(hist, source, pairing) := match journal with
                                  | Some j => project_history j
                                  | None => ([], NotCaptured, Balanced)
                                  end in
  let seed := default default_seed (j ← journal; mirror_seed (mirror j)) in
  let i := ws_info s in
  {| worker_key := key; section_id := worker_id_seq_value s; role := agent;
     section_task := wi_task_id i; status := project_status s; status_label := wi_status i;
     started := from_instant_with_wall anchor (wi_started_at i) (wi_started_wall i);
     completed := (fun p => from_instant_with_wall anchor (fst p) (snd p)) <$>
       (at' ← completed_at s; w ← completed_wall s; Some (at', w));
     last_activity := None;
     worked_secs := as_secs_f64 (instant now - wi_started_at i);
     section_seq := completed_seq s;
     context_tokens := wi_context_tokens i; section_last_tokens := last_tokens s;
     counters := {| implementation_turns := wi_implementation_turns i;
                    validation_rounds := wi_validation_rounds i;
                    latest_validator_feedback := wi_feedback i |};
     brief := if is_empty (seed_brief seed) then wi_prompt i else seed_brief seed;
     snippets := seed_snippets seed; image_urls := seed_image_urls seed;
     audio_urls := seed_audio_urls seed; recursion_granted := seed_recursion_granted seed;
     history := hist; section_source := source; dangling := pairing;
     unrecoverable_reason := None;
     non_restorable :=
       match (j ← journal; truncation_notice j) with Some n => [n] | None => [] end ++
       pending_notice_notices key notices ++
       (if decide (source = LiveMirror) then [] else [uncaptured_notice key source]) |}.

(** [harvest_worker_sections] and [current_identity_floors] of the committer. *)
Definition harvest_role (s : WorkerState) : Agent :=
  default Coder (from_str (wi_agent_name (ws_info s))).
Definition harvest_worker_sections (anchor now : Now) (r : Registry) (st : Journals) : list WorkerSection :=
  map (fun e => project_worker_section anchor now (notice_store r) (fst e) (snd e)
                  (harvest_role (snd e)) (registry_get (fst e) st))
    (live_worker_states r).
Definition current_identity_floors (r : Registry) : IdentityFloors :=
  {| worker_id_seq_floor' := worker_id_seq_floor r; completed_seq_floor' := completed_seq_floor r;
     notice_id_floor' := notice_id_floor (notice_store r) |}.

(** ** Restore *)

Record WorkerRestoreReport := {
  installed : nat;
  interrupted_keys : list str;
  unrecoverable_keys : list str;
  side_effect_risk_keys : list str;
  completed_dropped_by_ring_cap : nat;
  rejected_keys : list str;
  notices : list NonRestorableNotice;
  warnings : list str
}.
Definition default_report : WorkerRestoreReport :=
  {| installed := 0; interrupted_keys := []; unrecoverable_keys := []; side_effect_risk_keys := [];
     completed_dropped_by_ring_cap := 0; rejected_keys := []; notices := []; warnings := [] |}.
Definition add_notices (ns : list NonRestorableNotice) (p : WorkerRestoreReport) : WorkerRestoreReport :=
  {| installed := installed p; interrupted_keys := interrupted_keys p;
     unrecoverable_keys := unrecoverable_keys p; side_effect_risk_keys := side_effect_risk_keys p;
     completed_dropped_by_ring_cap := completed_dropped_by_ring_cap p; rejected_keys := rejected_keys p;
     notices := notices p ++ ns; warnings := warnings p |}.

(** [push_notice] *)
Definition push_notice (n : NonRestorableNotice) (p : WorkerRestoreReport) : WorkerRestoreReport :=
  if existsb (fun m => bool_decide (dedup_key m = dedup_key n)) (notices p) then p
  else add_notices [n] p.
Definition warn (w : str) (p : WorkerRestoreReport) : WorkerRestoreReport :=
  {| installed := installed p; interrupted_keys := interrupted_keys p;
     unrecoverable_keys := unrecoverable_keys p; side_effect_risk_keys := side_effect_risk_keys p;
     completed_dropped_by_ring_cap := completed_dropped_by_ring_cap p; rejected_keys := rejected_keys p;
     notices := notices p; warnings := warnings p ++ [w] |}.
Definition reject (key : str) (p : WorkerRestoreReport) : WorkerRestoreReport :=
  {| installed := installed p; interrupted_keys := interrupted_keys p;
     unrecoverable_keys := unrecoverable_keys p; side_effect_risk_keys := side_effect_risk_keys p;
     completed_dropped_by_ring_cap := completed_dropped_by_ring_cap p;
     rejected_keys := rejected_keys p ++ [key]; notices := notices p; warnings := warnings p |}.
Definition risk (key : str) (p : WorkerRestoreReport) : WorkerRestoreReport :=
  {| installed := installed p; interrupted_keys := interrupted_keys p;
     unrecoverable_keys := unrecoverable_keys p; side_effect_risk_keys := side_effect_risk_keys p ++ [key];
     completed_dropped_by_ring_cap := completed_dropped_by_ring_cap p; rejected_keys := rejected_keys p;
     notices := notices p; warnings := warnings p |}.

Definition INTERRUPTED_STATUS_LABEL : str := lit "Interrupted by restart".

(** [restored_worker_state]; a child of the global token is minted. *)
Definition restored_worker_state (now : Now) (w : WorkerSection) (r : Registry) : WorkerState * Registry :=
  let '(t, ts) := child_token (token_store r) in
  ({| ws_info := {| wi_task_id := section_task w; wi_agent_name := as_str (role w);
                    wi_prompt := brief w; wi_started_at := to_instant now (started w);
                    wi_started_wall := tp_wall (started w);
                    wi_context_tokens := context_tokens w;
                    wi_implementation_turns := implementation_turns (counters w);
                    wi_validation_rounds := validation_rounds (counters w);
                    wi_feedback := latest_validator_feedback (counters w);
                    wi_status := status_label w; wi_cancel_token := Some t |};
      last_tokens := section_last_tokens w; completed_seq := section_seq w;
      completed_at := to_instant now <$> completed w; completed_wall := tp_wall <$> completed w;
      worker_id_seq_value := section_id w; queue_position := None |},
   on_tokens (fun _ => ts) r).

Definition dispatched_calls (w : WorkerSection) : list str :=
  match dangling w with
  | Dangling calls =>
      map (fun c => dc_function_name c ++ lit " (" ++ dc_tool_call_id c ++ lit ")")
        (List.filter dc_dispatched calls)
  | _ => []
  end.

Inductive InstallOutcome := Interrupted | Terminal | UnrecoverableOutcome | Rejected.

Definition quoted (s : str) : str := lit "'" ++ s ++ lit "'".
Definition status_debug (s : WorkerStatus) : str :=
  match s with
  | InProgress => lit "InProgress" | Completed => lit "Completed" | FailedRun => lit "Failed"
  | AbortedRun => lit "Aborted" | UnknownStatus => lit "Unknown" | Unrecoverable => lit "Unrecoverable"
  end.
Definition notice_of (k : NonRestorableKind) (subject detail : str) : NonRestorableNotice :=
  {| nr_kind := k; nr_subject := subject; nr_detail := detail |}.

(** What the report says of a refused insertion. *)
Definition report_rejected (key : str) (p : WorkerRestoreReport) : WorkerRestoreReport :=
  push_notice (notice_of OtherKind key (lit "the restored record for " ++ key ++
      lit " could not be installed because a live worker owns that key; the persisted history stays in the bundle and was not merged"))
    (warn (lit "restored worker " ++ quoted key ++
       lit " was not installed: a live entry already owns that key, and overwriting it would drop that worker's cancellation token")
       (reject key p)).

Definition report_dispatched (w : WorkerSection) (p : WorkerRestoreReport) : WorkerRestoreReport :=
  let key := worker_key w in
  let calls := dispatched_calls w in
  if is_empty calls then p
  else push_notice (notice_of PtyProcess key (key ++ lit " had " ++ lit (pretty.pretty (length calls)) ++
         lit " dispatched tool call(s) (" ++ join_with (lit ", ") calls ++
         lit ") whose PTY may have survived the kill and may still be mutating the workspace " ++ EM_DASH ++
         lit " re-applying them is a double-apply")) (risk key p).

(** What the report says of an entry left open. *)
Definition report_open (w : WorkerSection) (p : WorkerRestoreReport) : WorkerRestoreReport :=
  let key := worker_key w in
  let p1 := push_notice (notice_of DropGuard key (key ++
      lit " has no completion guard; closing its record goes through retire_interrupted_worker, which draws COMPLETED_SEQ through the existing path"))
    (push_notice (notice_of JoinHandle key (lit "no task exists for " ++ key ++
      lit ": its execution ended with the previous process and no result will ever arrive for its pending calls"))
    (push_notice (notice_of CancellationToken key (lit "the cancellation token of " ++ key ++
      lit " did not survive; a fresh token was attached, so cancelling this entry cancels the placeholder, not the old task")) p)) in
  let p2 := match status w with
            | UnknownStatus => warn (lit "restored worker " ++ quoted key ++
                lit " has the unrecognized status label " ++ quoted (status_label w) ++
                lit " (kept verbatim); it is treated as an open delegation") p1
            | _ => p1
            end in
  if decide (section_source w = LiveMirror) then p2
  else push_notice (notice_of WorkerHistory key (lit "the history of " ++ key ++ lit " is " ++
         source_debug (section_source w) ++
         lit ", not a live mirror: what was persisted is the seed, and no full transcript can be claimed for it")) p2.

Definition report_unrecoverable (w : WorkerSection) (p : WorkerRestoreReport) : WorkerRestoreReport :=
  let key := worker_key w in
  push_notice (notice_of WorkerHistory key (key ++ lit " is Unrecoverable: no message history was restorable"))
    (push_notice (notice_of OtherKind key (lit "the worker file for " ++ key ++ lit " failed verification" ++
      match unrecoverable_reason w with Some reason => lit " (" ++ reason ++ lit ")" | None => [] end ++
      lit ": its name and task are kept, its history is gone")) p).

(** [install_one_worker]; the outer [None] is no fuel left in the ring. *)
Definition install_one_worker (now : Now) (w : WorkerSection) (acc : WorkerRestoreReport * Registry)
    : option (InstallOutcome * (WorkerRestoreReport * Registry)) :=
  let '(p, r) := acc in
  let key := worker_key w in
  let '(s, r1) := restored_worker_state now w r in
  let '(inserted, r2) := install_restored_worker key s r1 in
  if negb inserted then Some (Rejected, (report_rejected key p, r2))
  else
    let p1 := report_dispatched w p in
    match status w with
    | InProgress | UnknownStatus =>
        let r3 := set_active_worker_status key INTERRUPTED_STATUS_LABEL r2 in
        Some (match status w with InProgress => Interrupted | _ => Terminal end, (report_open w p1, r3))
    | Unrecoverable =>
        match section_seq w with
        | None =>
            '(_, r3) ← retire_restored_worker key (status_label w) now r2;
            Some (UnrecoverableOutcome, (report_unrecoverable w (warn (lit "unrecoverable worker " ++ quoted key ++
              lit " carried no completed_seq; it was closed through the existing completion path so it cannot be mistaken for an active worker") p1), r3))
        | Some _ => Some (UnrecoverableOutcome, (report_unrecoverable w p1, r2))
        end
    | st =>
        match section_seq w with
        | None =>
            '(_, r3) ← retire_restored_worker key (status_label w) now r2;
            Some (Terminal, (warn (lit "restored worker " ++ quoted key ++ lit " had status " ++ status_debug st ++
              lit " but no completed_seq; it was closed through the existing completion path") p1, r3))
        | Some _ => Some (Terminal, (p1, r2))
        end
    end.

(** Counting one outcome. *)
Definition count_outcome (key : str) (o : InstallOutcome) (p : WorkerRestoreReport) : WorkerRestoreReport :=
  {| installed := match o with Rejected => installed p | _ => S (installed p) end;
     interrupted_keys := interrupted_keys p ++ match o with Interrupted => [key] | _ => [] end;
     unrecoverable_keys := unrecoverable_keys p ++ match o with UnrecoverableOutcome => [key] | _ => [] end;
     side_effect_risk_keys := side_effect_risk_keys p;
     completed_dropped_by_ring_cap := completed_dropped_by_ring_cap p;
     rejected_keys := rejected_keys p; notices := notices p; warnings := warnings p |}.

Definition install_section (now : Now) (acc : option (WorkerRestoreReport * Registry)) (w : WorkerSection)
    : option (WorkerRestoreReport * Registry) :=
  pr ← acc;
  '(o, (p, r)) ← install_one_worker now w pr;
  Some (count_outcome (worker_key w) o p, r).

Definition drift_warning (name : str) (previous floor : N) (tail : str) (p : WorkerRestoreReport)
    : WorkerRestoreReport :=
  if (floor <? previous)%N
  then warn (name ++ lit " was already at " ++ lit (pretty.pretty previous) ++ lit ", above the bundle floor " ++
             lit (pretty.pretty floor) ++ tail) p
  else p.

(** Step 1 of [install_restored_workers]: the floors. *)
Definition raise_floors (f : IdentityFloors) (r : Registry) : WorkerRestoreReport * Registry :=
  let '(ids, r1) := seed_worker_id_seq_floor (worker_id_seq_floor' f) r in
  let '(seqs, r2) := seed_completed_seq_floor (completed_seq_floor' f) r1 in
  let '(nids, st) := seed_notice_id_floor (notice_id_floor' f) (notice_store r2) in
  (drift_warning (lit "NEXT_NOTICE_ID") nids (notice_id_floor' f) []
    (drift_warning (lit "COMPLETED_SEQ") seqs (completed_seq_floor' f) []
      (drift_warning (lit "WORKER_ID_SEQ") ids (worker_id_seq_floor' f)
         (lit " " ++ EM_DASH ++ lit " this process issued ids the bundle never saw") default_report)),
   on_notices (fun _ => st) r2).

Definition install_restored_workers (now : Now) (sections : list WorkerSection) (f : IdentityFloors)
    (r : Registry) : option (WorkerRestoreReport * Registry) :=
  '(p, r1) ← fold_left (install_section now) sections (Some (raise_floors f r));
  '(n, r2) ← enforce_completed_ring_cap r1;
  Some ({| installed := installed p; interrupted_keys := interrupted_keys p;
           unrecoverable_keys := unrecoverable_keys p; side_effect_risk_keys := side_effect_risk_keys p;
           completed_dropped_by_ring_cap := n; rejected_keys := rejected_keys p; notices := notices p;
           warnings := warnings p |}, r2).

Definition retire_interrupted_worker (key : str) (now : Now) (r : Registry) : option (option N * Registry) :=
  retire_restored_worker key (lit "Retired after restart") now r.

End capture.

(** ** The single manager notice *)

Inductive ProcessEnding :=
  | EndInProgress | CleanTail | UserAbort | Reset | PlanArchived | PanicHook
  | Signal (name : str) | HardKillInferred.

(** The derived [Debug]; a signal is spelled without characters to escape. *)
Definition ending_debug (e : ProcessEnding) : str :=
  match e with
  | EndInProgress => lit "InProgress" | CleanTail => lit "CleanTail" | UserAbort => lit "UserAbort"
  | Reset => lit "Reset" | PlanArchived => lit "PlanArchived" | PanicHook => lit "PanicHook"
  | Signal name => lit "Signal { name: " ++ [34%N] ++ name ++ [34%N] ++ lit " }"
  | HardKillInferred => lit "HardKillInferred"
  end.
Definition kind_debug (k : NonRestorableKind) : str :=
  match k with
  | CancellationToken => lit "CancellationToken" | JoinHandle => lit "JoinHandle"
  | PtyProcess => lit "PtyProcess" | DropGuard => lit "DropGuard" | PendingNotice => lit "PendingNotice"
  | HarnessStatsKind => lit "HarnessStats" | ToolSchemaCharge => lit "ToolSchemaCharge"
  | WorkerHistory => lit "WorkerHistory" | OtherKind => lit "Other"
  end.

(** [group_thousands]: a space before every group of three digits. *)
Fixpoint group_digits (digits : str) : str :=
  match digits with
  | [] => []
  | c :: rest => c :: (if negb (is_empty rest) && (length rest mod 3 =? 0) then [32%N] else []) ++ group_digits rest
  end.
Definition group_thousands (n : nat) : str := group_digits (lit (pretty.pretty n)).

(** [{:<width}] *)
Definition pad_right (width : nat) (s : str) : str := s ++ replicate (width - length s) 32%N.

Definition history_line (w : WorkerSection) : str :=
  match status w with
  | Unrecoverable => lit "history: unrecoverable (" ++
      default (lit "verification failed") (unrecoverable_reason w) ++ lit ")"
  | _ =>
      match section_source w with
      | LiveMirror => lit "history: restored (" ++ group_thousands (length (history w)) ++
          lit " messages, live mirror)"
      | SeedOnly => lit "history: NOT captured " ++ EM_DASH ++ lit " brief and snippets only (" ++
          source_debug SeedOnly ++ lit "); the worker registered but no live turn was mirrored"
      | NotCaptured => lit "history: NOT captured (" ++ source_debug NotCaptured ++ lit ")"
      end
  end.

Definition describe_call (c : DanglingCall) : str :=
  dc_function_name c ++ lit " (dispatched: " ++ (if dc_dispatched c then lit "yes" else lit "no") ++ lit ")" ++
  (if dc_dispatched c then lit " -> the command may have run" else []).

Definition pending_calls_line (w : WorkerSection) : option str :=
  match dangling w with
  | Dangling calls =>
      if is_empty calls then None
      else Some (lit "pending tool calls: " ++ join_with (lit "; ") (map describe_call calls))
  | Healed ids =>
      if is_empty ids then None
      else Some (lit "pending tool calls: healed before capture (" ++ join_with (lit ", ") ids ++ lit ")")
  | OrphanedResults ids =>
      if is_empty ids then None else Some (lit "orphaned tool results: " ++ join_with (lit ", ") ids)
  | Balanced => None
  end.

Definition lost_kinds_for (w : WorkerSection) (p : WorkerRestoreReport) : list str :=
  dedup (sort_with id_leb (map (fun n => kind_debug (nr_kind n))
    (List.filter (fun n => str_eqb (nr_subject n) (worker_key w)) (notices p)))).

(** One worker's paragraph. *)
Definition notice_entry (p : WorkerRestoreReport) (index : nat) (w : WorkerSection) : str :=
  let interrupted := existsb (str_eqb (worker_key w)) (interrupted_keys p) in
  [NL; NL] ++ lit "  [" ++ lit (pretty.pretty (index + 1)) ++ lit "] " ++ pad_right 22 (worker_key w) ++
  lit " status: " ++ status_label w ++
  (if interrupted then lit " -> " ++ INTERRUPTED_STATUS_LABEL else []) ++ lit " | " ++
  lit (pretty.pretty (implementation_turns (counters w))) ++ lit " turns" ++ lit " | " ++
  group_thousands (validation_rounds (counters w)) ++ lit " validation rounds | " ++
  group_thousands (context_tokens w) ++ lit " ctx tokens | worked " ++
  format_duration_human (f64_as_u64 (worked_secs w)) ++
  match section_task w with Some t => lit " | task " ++ t | None => [] end ++
  [NL] ++ lit "      " ++ history_line w ++
  match pending_calls_line w with Some l => [NL] ++ lit "      " ++ l | None => [] end ++
  (let lost := lost_kinds_for w p in
   if is_empty lost then [] else [NL] ++ lit "      lost: " ++ join_with (lit ", ") lost) ++
  (if interrupted
   then [NL] ++ lit "      -> do NOT assume the task is finished; do NOT re-run a dispatched command blindly"
   else []).

Definition restore_notice (session_id : str) (stored derived : ProcessEnding)
    (sections : list WorkerSection) (p : WorkerRestoreReport) : str :=
  SESSION_RESTORE_NOTICE_PREFIX ++
  lit "). This process restarted from its session bundle (session id " ++ session_id ++
  lit ", previous ending: " ++ ending_debug derived ++ lit ", stored ending: " ++ ending_debug stored ++ lit "). " ++
  if is_empty (interrupted_keys p)
  then lit "No specialist worker was in flight when the previous process stopped."
  else
    lit "The work below was in flight when the previous process stopped. Its history is restored; its execution is NOT running " ++
    EM_DASH ++ lit " no task exists to continue it and no result will ever arrive for its pending calls." ++
    concat (imap (notice_entry p) sections) ++ [NL; NL] ++
    (if is_empty (side_effect_risk_keys p)
     then lit "To continue an interrupted item, either delegate the task again from a fresh brief, or continue it from its restored history. Decide from the current workspace state, not from this notice."
     else lit "Items whose tool call was dispatched cannot be continued safely " ++ EM_DASH ++
       lit " the call may already have applied changes. For those, retire the record or delegate again from a fresh brief. Decide from the current workspace state, not from this notice.").

Definition restore_notice_message (session_id : str) (stored derived : ProcessEnding)
    (sections : list WorkerSection) (p : WorkerRestoreReport) : Message :=
  User (restore_notice session_id stored derived sections p).
