(* ===== verification/RestoreFacts.v ===== *)
(** * Restarting a session: what becomes of its workers

    Installing restored sections never disturbs a live worker, and a harvest
    followed by an installation in a fresh process brings back every worker
    under its key. *)

From S2P Require Import Prelude Str Regex TaskId Agents PlanParse Pool Notice NoticeFacts NoticeRouting NoticeProps.
From S2P Require Import Wire Session Registry RegistryView RegistryFacts RegistryProps Journal WorkerRestore.

(** ** The report *)

Section report.
Context `{Tokens} `{DashOrder} `{Unicode}.

(** The counts a notice or a warning leaves alone. *)
Record same_counts (p p' : WorkerRestoreReport) : Prop := {
  sc_installed : installed p' = installed p;
  sc_interrupted : interrupted_keys p' = interrupted_keys p;
  sc_unrecoverable : unrecoverable_keys p' = unrecoverable_keys p;
  sc_rejected : rejected_keys p' = rejected_keys p
}.
#[local] Instance same_counts_refl : Reflexive same_counts.
Proof. by split. Qed.
#[local] Instance same_counts_trans : Transitive same_counts.
Proof. intros p q t [? ? ? ?] [? ? ? ?]. split; congruence. Qed.

Lemma push_counts n p : same_counts p (push_notice n p).
Proof. unfold push_notice. by case_match. Qed.
Lemma warn_counts w p : same_counts p (warn w p).
Proof. by split. Qed.
Lemma risk_counts k p : same_counts p (risk k p).
Proof. by split. Qed.

Lemma dispatched_counts w p : same_counts p (report_dispatched w p).
Proof.
  unfold report_dispatched. case_match; [done|]. etrans; [apply risk_counts|apply push_counts].
Qed.
Lemma open_counts w p : same_counts p (report_open w p).
Proof.
  unfold report_open.
  set (p1 := push_notice _ (push_notice _ (push_notice _ p))).
  assert (same_counts p p1) as Hp1 by (do 2 (etrans; [|apply push_counts]); apply push_counts).
  set (p2 := match status w with UnknownStatus => _ | _ => p1 end).
  assert (same_counts p1 p2) as Hp2 by (unfold p2; case_match; done || apply warn_counts).
  case_decide; [by etrans|]. do 2 (etrans; [eassumption|]). apply push_counts.
Qed.
Lemma unrecoverable_counts w p : same_counts p (report_unrecoverable w p).
Proof. unfold report_unrecoverable. etrans; apply push_counts. Qed.

(** ** Installing one section *)

(** What an installation step leaves alone. *)
Record gentle (r r' : Registry) : Prop := {
  ge_live : forall k s, workers r !! k = Some s -> is_active s = true -> workers r' !! k = Some s;
  ge_ids : next_worker_id_seq r' = next_worker_id_seq r;
  ge_notices : next_id (notice_store r') = next_id (notice_store r)
}.
#[local] Instance gentle_refl : Reflexive gentle.
Proof. by split. Qed.
#[local] Instance gentle_trans : Transitive gentle.
Proof. intros r1 r2 r3 [? ? ?] [? ? ?]. split; [auto|congruence..]. Qed.

Lemma reclaim_next_id key s : next_id (snd (reclaim_worker_inbox key s)) = next_id s.
Proof.
  unfold reclaim_worker_inbox. set (keys := map _ _). set (rep := {| entries_removed := 0; retained_queued_notices := 0 |}).
  destruct (reclaim_fold_spec keys s rep) as (_ & _ & Hn & _). destruct (fold_left _ _ _). done.
Qed.

(** The live entries besides one key are kept. *)
Record spares (key : str) (r r' : Registry) : Prop := {
  sp_live : forall k s, k <> key -> workers r !! k = Some s -> is_active s = true -> workers r' !! k = Some s;
  sp_ids : next_worker_id_seq r' = next_worker_id_seq r;
  sp_notices : next_id (notice_store r') = next_id (notice_store r)
}.

Lemma spares_trans key r1 r2 r3 : spares key r1 r2 -> spares key r2 r3 -> spares key r1 r3.
Proof. intros [? ? ?] [? ? ?]. split; [auto|congruence..]. Qed.

Lemma spares_gentle key r r' : live r key = false -> spares key r r' -> gentle r r'.
Proof.
  intros Hfree [Hl ? ?]. split; [|done..]. intros k s Hs Ha. apply Hl; [|done..].
  intros ->. unfold live in Hfree. rewrite Hs in Hfree. congruence.
Qed.

Lemma retire_spares key st now r :
  exists seq r', retire_restored_worker key st now r = Some (seq, r') /\ spares key r r'.
Proof.
  unfold retire_restored_worker. destruct (workers r !! key) as [s|] eqn:Hs; [|by eexists _, _].
  destruct (if is_active s then _ else _) as [seq r1] eqn:E1.
  assert (spares key r (on_refs (delete key) r1)) as Hsp1.
  { destruct (is_active s); simplify_eq/=; split; simpl; try done. intros k s2 Hne Hs2 _. by rewrite lookup_insert_ne. }
  destruct (evict_spec (on_refs (delete key) r1)) as (r2 & victims & He & Hev). rewrite He.
  eexists _, _. split; [done|]. eapply spares_trans; [exact Hsp1|]. split; simpl.
  - intros k s2 Hne Hs2 Ha. rewrite (ev_state _ _ _ Hev). simpl. rewrite lookup_foldr_delete.
    case_decide as Hv; [|done]. destruct (ev_completed _ _ _ Hev k Hv) as [q Hq].
    unfold completed_of in Hq. simpl in Hq. rewrite lookup_omap in Hq. simpl in Hs2. rewrite Hs2 in Hq.
    unfold is_active in Ha. simpl in Hq. by rewrite Hq in Ha.
  - by rewrite (ev_state _ _ _ Hev).
  - rewrite (ev_state _ _ _ Hev). simpl. apply reclaim_next_id.
Qed.

Lemma status_spares key st r : spares key r (set_active_worker_status key st r).
Proof.
  destruct (set_status_frame key st r) as (_ & _ & _ & Hn & _ & Hi). split; [|done|by rewrite Hn].
  intros k s Hne Hs Ha. rewrite set_status_lookup, Hs. simpl. rewrite bool_decide_false by done.
  by rewrite andb_false_r.
Qed.

(** One section is refused because a live worker holds its key, or installed
    without touching another live worker. *)
Lemma install_one_spec now w p r :
  exists o p' r', install_one_worker now w (p, r) = Some (o, (p', r')) /\ gentle r r' /\
    (o = Rejected /\ live r (worker_key w) = true /\ installed p' = installed p /\ rejected_keys p' = rejected_keys p ++ [worker_key w] \/
     o <> Rejected /\ live r (worker_key w) = false /\ same_counts p p').
Proof.
  unfold install_one_worker. set (key := worker_key w).
  destruct (restored_worker_state now w r) as [s r1] eqn:E1.
  assert (Hr1 : exists ts, r1 = on_tokens (fun _ => ts) r).
  { unfold restored_worker_state in E1. destruct (child_token _) as [t ts]. injection E1 as _ <-. by exists ts. }
  destruct Hr1 as [ts ->]. unfold install_restored_worker. simpl.
  destruct (live r key) eqn:Hl.
  - unfold live in Hl. destruct (workers r !! key) as [old|] eqn:Hold; [|done]. rewrite Hl. simpl.
    eexists _, _, _. split; [done|]. split; [by split|].
    pose proof (push_counts (notice_of OtherKind key (lit "the restored record for " ++ key ++
      lit " could not be installed because a live worker owns that key; the persisted history stays in the bundle and was not merged"))
      (warn (lit "restored worker " ++ quoted key ++
       lit " was not installed: a live entry already owns that key, and overwriting it would drop that worker's cancellation token")
       (reject key p))) as [Hi _ _ Hj]. left. split_and!; [done|done|exact Hi|exact Hj].
  - assert (Hins : (match workers r !! key with
      | Some old => if is_active old then (false, on_tokens (fun _ => ts) r)
                    else (true, on_workers <[key:=s]> (on_tokens (fun _ => ts) r))
      | None => (true, on_workers <[key:=s]> (on_tokens (fun _ => ts) r)) end) =
      (true, on_workers <[key:=s]> (on_tokens (fun _ => ts) r))).
    { unfold live in Hl. destruct (workers r !! key); [by rewrite Hl|done]. }
    rewrite Hins. simpl. clear Hins. set (r2 := on_workers _ _).
    assert (Hsp : spares key r r2).
    { split; [|done..]. intros k s2 Hne Hs2 _. unfold r2. simpl. by rewrite lookup_insert_ne. }
    pose proof (dispatched_counts w p) as Hp1. set (p1 := report_dispatched w p) in *.
    destruct (retire_spares key (status_label w) now r2) as (seq & r3 & Hret & Hsp3).
    pose proof (status_spares key INTERRUPTED_STATUS_LABEL r2) as Hspi.
    destruct (status w), (section_seq w) as [q|]; rewrite ?Hret; simpl; eexists _, _, _;
      (split; [reflexivity|]); (split; [apply (spares_gentle key); [done|]; first [exact Hsp|by eapply spares_trans]|]);
      right; (split_and!; [done|done|]); repeat first [exact Hp1|etrans; [|apply open_counts]|etrans; [|apply unrecoverable_counts]
        |etrans; [|apply warn_counts]].
Qed.

#[local] Arguments install_one_worker : simpl never.

(** All the sections, one after the other. *)
Lemma install_sections_spec now sections : forall p r,
  exists p' r', fold_left (install_section now) sections (Some (p, r)) = Some (p', r') /\ gentle r r' /\
    installed p' + length (rejected_keys p') = length sections + installed p + length (rejected_keys p).
Proof.
  induction sections as [|w sections IH]; intros p r; [by exists p, r|].
  destruct (install_one_spec now w p r) as (o & p1 & r1 & Heq & Hg & Hcase).
  simpl. rewrite Heq. simpl.
  destruct (IH (count_outcome (worker_key w) o p1) r1) as (p' & r' & Heq' & Hg' & Hc).
  exists p', r'. split; [done|]. split; [by etrans|]. rewrite Hc. simpl.
  destruct Hcase as [(-> & _ & Hi & Hr)|(Ho & _ & [Hi _ _ Hr])].
  - rewrite Hi, Hr, length_app. simpl. lia.
  - rewrite Hr. destruct o; simpl; rewrite ?Hi; try lia. done.
Qed.

Lemma raise_floors_spec f r :
  let '(p, r') := raise_floors f r in
  installed p = 0 /\ rejected_keys p = [] /\ interrupted_keys p = [] /\ workers r' = workers r /\
  guard_refs r' = guard_refs r /\
  next_worker_id_seq r' = N.max (next_worker_id_seq r) (worker_id_seq_floor' f) /\
  next_completed_seq r' = N.max (next_completed_seq r) (completed_seq_floor' f) /\
  next_id (notice_store r') = N.max (next_id (notice_store r)) (N.max (notice_id_floor' f) 1).
Proof.
  unfold raise_floors. simpl. unfold drift_warning. split_and!; try done; repeat case_match; done.
Qed.

(** Restoring a session never disturbs what already runs.  Whatever the
    sections and the floors say, the installation returns; every section is
    accounted for as installed or rejected; every live entry is left exactly
    as it was, token included; the id counters are raised to the floors and
    never lowered; and at most ten completed entries stay. *)
Theorem install_never_clobbers now sections f r :
  exists p r', install_restored_workers now sections f r = Some (p, r') /\
    installed p + length (rejected_keys p) = length sections /\
    (forall k s, workers r !! k = Some s -> is_active s = true -> workers r' !! k = Some s) /\
    next_worker_id_seq r' = N.max (next_worker_id_seq r) (worker_id_seq_floor' f) /\
    next_id (notice_store r') = N.max (next_id (notice_store r)) (N.max (notice_id_floor' f) 1) /\
    size (completed_of (workers r')) <= MAX_RECENT_COMPLETED.
Proof.
  unfold install_restored_workers. pose proof (raise_floors_spec f r) as Hf.
  destruct (raise_floors f r) as [p0 r0]. destruct Hf as (Hi & Hrj & _ & Hw & _ & Hid & _ & Hn).
  destruct (install_sections_spec now sections p0 r0) as (p1 & r1 & -> & [Hl1 Hid1 Hn1] & Hc). simpl.
  unfold enforce_completed_ring_cap. destruct (evict_spec r1) as (r2 & victims & He & Hev). rewrite He. simpl.
  eexists _, _. split; [done|]. pose proof (ev_bound _ _ _ Hev) as Hb. pose proof (ev_completed _ _ _ Hev) as Hcm.
  rewrite (ev_state _ _ _ Hev) in *. simpl in *. split_and!; [| |by rewrite Hid1, Hid|by rewrite Hn1, Hn|done].
  - rewrite Hc, Hi, Hrj. simpl. lia.
  - intros k s Hs Ha. rewrite lookup_foldr_delete. rewrite Hw in Hl1. case_decide as Hv; [|by apply Hl1].
    destruct (Hcm k Hv) as [q Hq]. unfold completed_of in Hq. rewrite lookup_omap, (Hl1 k s Hs Ha) in Hq.
    unfold is_active in Ha. simpl in Hq. by rewrite Hq in Ha.
Qed.

(** ** A restart *)

(** The entry a worker comes back as: its identity, counters and clocks, its
    prompt or the brief its journal was seeded with, and the label of an
    interruption if it was running. *)
Record resumed (st : Journals) (key : str) (s s' : WorkerState) : Prop := {
  re_task : wi_task_id (ws_info s') = wi_task_id (ws_info s);
  re_agent : wi_agent_name (ws_info s') = as_str (harvest_role s);
  re_prompt : wi_prompt (ws_info s') = wi_prompt (ws_info s) \/
    exists j sd, registry_get key st = Some j /\ mirror_seed (mirror j) = Some sd /\
      wi_prompt (ws_info s') = seed_brief sd;
  re_context : wi_context_tokens (ws_info s') = wi_context_tokens (ws_info s);
  re_turns : wi_implementation_turns (ws_info s') = wi_implementation_turns (ws_info s);
  re_rounds : wi_validation_rounds (ws_info s') = wi_validation_rounds (ws_info s);
  re_feedback : wi_feedback (ws_info s') = wi_feedback (ws_info s);
  re_label : wi_status (ws_info s') = if is_active s then INTERRUPTED_STATUS_LABEL else wi_status (ws_info s);
  re_token : is_Some (wi_cancel_token (ws_info s'));
  re_last : last_tokens s' = last_tokens s;
  re_seq : completed_seq s' = completed_seq s;
  re_id : worker_id_seq_value s' = worker_id_seq_value s;
  re_ok : state_ok s'
}.

Lemma project_status_cases s :
  (is_active s = true /\ project_status s = InProgress) \/
  (is_active s = false /\ project_status s <> InProgress /\ project_status s <> Unrecoverable).
Proof.
  unfold project_status, is_active. destruct (completed_seq s); [right|by left].
  split; [done|]. by repeat case_match.
Qed.

Definition harvested (anchor now : Now) (r : Registry) (st : Journals) (e : str * WorkerState) : WorkerSection :=
  project_worker_section anchor now (notice_store r) (fst e) (snd e) (harvest_role (snd e)) (registry_get (fst e) st).

Lemma restored_resumed anchor now now' r st key s r0 s' r0' :
  state_ok s -> restored_worker_state now' (harvested anchor now r st (key, s)) r0 = (s', r0') ->
  (exists ts, r0' = on_tokens (fun _ => ts) r0) /\
  resumed st key s (if is_active s then with_info (with_status INTERRUPTED_STATUS_LABEL) s' else s').
Proof.
  intros Hok Heq. unfold restored_worker_state, harvested, project_worker_section in Heq.
  destruct (match registry_get (fst (key, s)) st with Some j => _ | None => _ end) as [[hist source] pairing].
  destruct (child_token (token_store r0)) as [t ts]. injection Heq as <- <-. split; [by exists ts|].
  unfold state_ok, is_active in *.
  destruct (completed_seq s) eqn:Eq, (completed_at s) eqn:Ea, (completed_wall s) eqn:Ew; try done;
    (split; simpl; try done; try (unfold is_active; by rewrite Eq));
    (destruct (registry_get key st) as [j|] eqn:Ej; simpl; [|by left]);
    (destruct (mirror_seed (mirror j)) as [sd|] eqn:Es; simpl; [|by left]);
    (destruct (is_empty (seed_brief sd)); [by left|right; eauto]).
Qed.

Lemma harvested_fields anchor now r st e :
  let w := harvested anchor now r st e in
  worker_key w = fst e /\ status w = project_status (snd e) /\ section_seq w = completed_seq (snd e).
Proof.
  unfold harvested, project_worker_section.
  by destruct (match registry_get (fst e) st with Some j => _ | None => _ end) as [[? ?] ?].
Qed.

Lemma restored_active anchor now now' r st key s r0 s' r0' :
  restored_worker_state now' (harvested anchor now r st (key, s)) r0 = (s', r0') -> is_active s' = is_active s.
Proof.
  intros Heq. unfold restored_worker_state in Heq. destruct (child_token _). injection Heq as <- _.
  unfold is_active. simpl. by destruct (harvested_fields anchor now r st (key, s)) as (_ & _ & ->).
Qed.

(** A harvested section is installed as the worker it was taken from. *)
Lemma harvested_install anchor now now' r st p key s r0 :
  state_ok s -> live r0 key = false ->
  exists p' r' s',
    install_one_worker now' (harvested anchor now r st (key, s)) (p, r0) =
      Some (if is_active s then Interrupted else Terminal, (p', r')) /\
    workers r' = <[key := s']> (workers r0) /\ resumed st key s s' /\ same_counts p p'.
Proof.
  intros Hok Hfree. unfold install_one_worker.
  destruct (harvested_fields anchor now r st (key, s)) as (Hk & Hst & Hq). rewrite Hk, Hst, Hq. simpl fst. simpl snd.
  destruct (restored_worker_state now' _ r0) as [s' r1] eqn:E1.
  pose proof (restored_active _ _ _ _ _ _ _ _ _ _ E1) as Hact.
  destruct (restored_resumed _ _ _ _ _ _ _ _ _ _ Hok E1) as [[ts ->] Hres].
  assert (Hins : install_restored_worker key s' (on_tokens (fun _ => ts) r0) =
    (true, on_workers <[key := s']> (on_tokens (fun _ => ts) r0))).
  { unfold install_restored_worker, live in *. simpl. destruct (workers r0 !! key); [by rewrite Hfree|done]. }
  rewrite Hins. simpl. set (w := harvested _ _ _ _ _) in *. set (p1 := report_dispatched w p).
  pose proof (dispatched_counts w p) as Hp1. fold p1 in Hp1. set (r2 := on_workers _ _).
  assert (Hopen : forall o : InstallOutcome, exists p' r' s'',
    Some (o, (report_open w p1, set_active_worker_status key INTERRUPTED_STATUS_LABEL r2)) =
      Some (o, (p', r')) /\ workers r' = <[key := s'']> (workers r0) /\ resumed st key s s'' /\ same_counts p p').
  { intros o. eexists _, _, _. split; [reflexivity|]. split; [|split; [exact Hres|by etrans; [exact Hp1|apply open_counts]]].
    apply map_eq. intros k. rewrite set_status_lookup. unfold r2. simpl.
    destruct (decide (k = key)) as [->|Hne].
    - rewrite !lookup_insert_eq. simpl. rewrite bool_decide_true, andb_true_r by done. by rewrite Hact.
    - rewrite !lookup_insert_ne by done. destruct (workers r0 !! k); simpl; [|done].
      rewrite bool_decide_false by done. by rewrite andb_false_r. }
  assert (Hclosed : is_active s = false -> exists p' r' s'',
    Some (Terminal, (p1, r2)) = Some (Terminal, (p', r')) /\
    workers r' = <[key := s'']> (workers r0) /\ resumed st key s s'' /\ same_counts p p').
  { intros Ha. rewrite Ha in Hres. by eexists _, _, _. }
  destruct (project_status_cases s) as [[Ha Hs]|(Ha & Hs & Hs')]; rewrite Ha.
  - rewrite Hs. apply Hopen.
  - unfold is_active in Ha. destruct (completed_seq s) eqn:Eq; [|done].
    destruct (project_status s); try done; try apply Hopen; apply Hclosed; unfold is_active; by rewrite Eq.
Qed.

(** Harvested sections of distinct keys, none of them in the table yet. *)
Lemma harvested_all anchor now now' r st l : forall p r0,
  NoDup (map fst l) -> Forall (fun e => state_ok (snd e)) l ->
  (forall k s, (k, s) ∈ l -> workers r0 !! k = None) ->
  exists p' r', fold_left (install_section now') (map (harvested anchor now r st) l) (Some (p, r0)) = Some (p', r') /\
    installed p' = length l + installed p /\ rejected_keys p' = rejected_keys p /\
    interrupted_keys p' = interrupted_keys p ++ map fst (List.filter (fun e => is_active (snd e)) l) /\
    (forall k, k ∉ map fst l -> workers r' !! k = workers r0 !! k) /\
    (forall k s, (k, s) ∈ l -> exists s', workers r' !! k = Some s' /\ resumed st k s s').
Proof.
  induction l as [|[key s] l IH]; intros p r0 Hnd Hok Hnew.
  { exists p, r0. split_and!; try done; [by rewrite app_nil_r|by intros ? ? ?%not_elem_of_nil]. }
  cbn [map fst] in Hnd. apply NoDup_cons in Hnd as [Hk Hnd]. apply Forall_cons in Hok as [Hs Hok]. simpl in Hs.
  assert (Hfree : workers r0 !! key = None) by (apply (Hnew key s); left).
  destruct (harvested_install anchor now now' r st p key s r0) as (p1 & r1 & s' & Heq & Hw & Hres & [Hi Hint _ Hrj]).
  { done. } { unfold live. by rewrite Hfree. }
  destruct (harvested_fields anchor now r st (key, s)) as (Hwk & _).
  destruct (IH (count_outcome key (if is_active s then Interrupted else Terminal) p1) r1) as
    (p' & r' & Heq' & Hi' & Hrj' & Hint' & Hout & Hin); [done|done| |].
  { intros k s2 Hks. rewrite Hw, lookup_insert_ne; [apply (Hnew k s2); by right|].
    intros <-. apply Hk. apply list_elem_of_fmap. by exists (key, s2). }
  exists p', r'. split; [cbn [map fold_left]; unfold install_section at 2; simpl; by rewrite Heq, Hwk|].
  split_and!.
  - rewrite Hi'. destruct (is_active s); simpl; rewrite Hi; lia.
  - by rewrite Hrj'.
  - rewrite Hint'. simpl. rewrite Hint. destruct (is_active s); simpl; [by rewrite <-app_assoc|by rewrite app_nil_r].
  - intros k Hn. cbn [map fst] in Hn. apply not_elem_of_cons in Hn as [Hne Hn]. rewrite Hout by done.
    by rewrite Hw, lookup_insert_ne.
  - intros k s2 [[= -> ->]|Hks]%elem_of_cons; [|by apply Hin].
    exists s'. split; [|done]. rewrite Hout by done. by rewrite Hw, lookup_insert_eq.
Qed.

Lemma live_states_perm r : live_worker_states r ≡ₚ map_to_list (workers r).
Proof. unfold live_worker_states. rewrite sort_with_perm. apply dash_iter_perm. Qed.

(** C4: A restart loses no worker.  Harvest the registry with its journals and
    install the sections in a process that knows no worker: nothing is
    rejected or evicted, and the new table holds exactly the old keys, each
    with its worker's task, id, counters and completion sequence, open exactly
    when it was open; the interrupted keys are the ones that were running; and
    no id that was handed out before can be drawn again.  A worker named after
    a role keeps its agent name, and every other comes back as a coder. *)
Theorem restart_preserves_workers anchor now now' r st r0 :
  table_ok r -> size (completed_of (workers r)) <= MAX_RECENT_COMPLETED -> workers r0 = ∅ ->
  exists p r', install_restored_workers now' (harvest_worker_sections anchor now r st)
                 (current_identity_floors r) r0 = Some (p, r') /\
    installed p = size (workers r) /\ rejected_keys p = [] /\ completed_dropped_by_ring_cap p = 0 /\
    (forall k, workers r !! k = None -> workers r' !! k = None) /\
    (forall k s, workers r !! k = Some s -> exists s', workers r' !! k = Some s' /\ resumed st k s s' /\
       live r' k = live r k /\
       (forall a, wi_agent_name (ws_info s) = as_str a -> wi_agent_name (ws_info s') = wi_agent_name (ws_info s)) /\
       (from_str (wi_agent_name (ws_info s)) = None -> wi_agent_name (ws_info s') = as_str Coder)) /\
    (forall k, k ∈ interrupted_keys p <-> live r k = true) /\
    (next_worker_id_seq r <= next_worker_id_seq r')%N /\ (next_id (notice_store r) <= next_id (notice_store r'))%N.
Proof.
  intros Hok Hsz Hempty. unfold install_restored_workers. pose proof (raise_floors_spec (current_identity_floors r) r0) as Hf.
  destruct (raise_floors _ r0) as [p0 r1]. destruct Hf as (Hi & Hrj & Hint & Hw & _ & Hid & _ & Hn).
  destruct (harvested_all anchor now now' r st (live_worker_states r) p0 r1) as
    (p1 & r2 & Heq & Hi' & Hrj' & Hint' & Hout & Hin).
  { rewrite live_states_perm. apply NoDup_fst_map_to_list. }
  { rewrite live_states_perm. apply Forall_forall. intros [k s] Hk%elem_of_map_to_list. by apply (Hok k). }
  { intros k s _. by rewrite Hw, Hempty, lookup_empty. }
  assert (Hmem : forall k s, workers r !! k = Some s <-> (k, s) ∈ live_worker_states r).
  { intros k s. by rewrite live_states_perm, elem_of_map_to_list. }
  assert (Hkeys : forall k, workers r !! k = None -> workers r2 !! k = None).
  { intros k Hk. rewrite Hout, Hw, Hempty; [apply lookup_empty|].
    intros ([k' s] & -> & Hin')%list_elem_of_fmap. apply Hmem in Hin'. simpl in Hk. congruence. }
  assert (Hall : forall k s, workers r !! k = Some s -> exists s', workers r2 !! k = Some s' /\ resumed st k s s').
  { intros k s Hk. by apply Hin, Hmem. }
  unfold harvest_worker_sections. fold (harvested anchor now r st).
  change (fun e => project_worker_section anchor now (notice_store r) e.1 e.2 (harvest_role e.2) (registry_get e.1 st))
    with (harvested anchor now r st).
  destruct (install_sections_spec now' (map (harvested anchor now r st) (live_worker_states r)) p0 r1)
    as (p1' & r2' & Heq' & [_ Hids Hns] & _). rewrite Heq in Heq'. injection Heq' as <- <-.
  rewrite Heq. simpl. unfold enforce_completed_ring_cap.
  destruct (evict_spec r2) as (r3 & victims & He & Hev).
  assert (Hsame : completed_of (workers r2) = completed_of (workers r)).
  { apply map_eq. intros k. unfold completed_of. rewrite !lookup_omap.
    destruct (workers r !! k) as [s|] eqn:Hk; [|by rewrite Hkeys].
    destruct (Hall k s Hk) as (s' & -> & Hres). simpl. apply Hres. }
  assert (victims = []) as ->.
  { apply nil_length_inv. rewrite (ev_exact _ _ _ Hev), Hsame. lia. }
  rewrite He. simpl. eexists _, _. split; [done|].
  assert (workers r3 = workers r2) as Hw3 by by rewrite (ev_state _ _ _ Hev).
  simpl. split_and!; [|by rewrite Hrj'|done| | | | |].
  - by rewrite Hi', Hi, live_states_perm, length_map_to_list, Nat.add_0_r.
  - intros k Hk. rewrite Hw3. by apply Hkeys.
  - intros k s Hk. destruct (Hall k s Hk) as (s' & Hs' & Hres). exists s'. rewrite Hw3. split; [done|]. split; [done|].
    pose proof (re_agent _ _ _ _ Hres) as Hag. unfold harvest_role in Hag. split_and!.
    + unfold live. rewrite Hw3, Hs', Hk. unfold is_active. by rewrite (re_seq _ _ _ _ Hres).
    + intros a Ha. rewrite Hag, Ha. by rewrite from_str_as_str.
    + intros Ha. rewrite Hag, Ha. done.
  - intros k. rewrite Hint', Hint. simpl. rewrite list_elem_of_fmap. unfold live. split.
    + intros ([k' s] & -> & Hks). apply list_elem_of_In, filter_In in Hks as [Hks Ha].
      apply list_elem_of_In, Hmem in Hks. simpl in *. by rewrite Hks.
    + destruct (workers r !! k) as [s|] eqn:Hk; [|done]. intros Ha. exists (k, s). split; [done|].
      apply list_elem_of_In, filter_In. split; [|done]. by apply list_elem_of_In, Hmem.
  - rewrite (ev_state _ _ _ Hev). simpl. rewrite Hids, Hid. simpl. unfold worker_id_seq_floor. lia.
  - rewrite (ev_state _ _ _ Hev). simpl. rewrite Hns, Hn. simpl. unfold notice_id_floor. lia.
Qed.

(** The bundle keeps the role, not the agent name: a worker whose name is not
    that of a role, such as a validation pass, comes back as a coder. *)
Lemma validator_comes_back_as_coder anchor now now' r st key s r0 s' r0' :
  wi_agent_name (ws_info s) = lit "validator-debugger" ->
  restored_worker_state now' (harvested anchor now r st (key, s)) r0 = (s', r0') ->
  wi_agent_name (ws_info s') = lit "coder".
Proof.
  intros Hn Heq. unfold restored_worker_state, harvested, project_worker_section in Heq.
  destruct (match registry_get (fst (key, s)) st with Some j => _ | None => _ end) as [[? ?] ?].
  destruct (child_token _). injection Heq as <- _. simpl. unfold harvest_role. by rewrite Hn.
Qed.

(** A completed worker whose label is not one of the known ones is recorded
    with an unknown status, and its installation announces an open delegation
    of an entry that is closed. *)
Lemma rejected_worker_reported_open anchor now r st key s p :
  is_active s = false -> wi_status (ws_info s) = lit "Rejected" ->
  let w := harvested anchor now r st (key, s) in
  status w = UnknownStatus /\
  exists n, n ∈ notices (report_open w p) /\ nr_kind n = JoinHandle /\ nr_subject n = key.
Proof.
  intros Ha Hl w. destruct (harvested_fields anchor now r st (key, s)) as (Hk & Hst & _). fold w in Hk, Hst. simpl in *.
  assert (Hu : status w = UnknownStatus).
  { rewrite Hst. unfold project_status, is_active in *. rewrite Hl. destruct (completed_seq s); [|done]. by vm_compute. }
  split; [done|]. unfold report_open. rewrite Hk, Hu. clearbody w.
  set (n := notice_of JoinHandle key _). set (p0 := push_notice (notice_of CancellationToken key _) p).
  assert (Hin : exists m, m ∈ notices (push_notice n p0) /\ nr_kind m = JoinHandle /\ nr_subject m = key).
  { unfold push_notice at 1. destruct (existsb _ (notices p0)) eqn:E.
    - apply existsb_exists in E as (m & Hm & Hd%bool_decide_eq_true). exists m.
      split; [by apply list_elem_of_In|]. unfold dedup_key in Hd. by injection Hd as -> ->.
    - exists n. split; [|done]. simpl. apply elem_of_app. right. by left. }
  destruct Hin as (m & Hm & Hmk). exists m. split; [|done].
  assert (Hpush : forall x q, m ∈ notices q -> m ∈ notices (push_notice x q)).
  { intros x q Hq. unfold push_notice. case_match; [done|]. simpl. apply elem_of_app. by left. }
  case_decide; [|apply Hpush]; apply (Hpush _ _ Hm).
Qed.

End report.

(** ** Witnesses *)

#[local] Existing Instance counted_tokens.
#[local] Existing Instance gmap_order.
#[local] Existing Instance ascii_tables.
#[local] Existing Instance numbered_uuids.

(** The busy registry restarted in a fresh process. *)
Lemma restart_preserves_workers_witness :
  exists p r', install_restored_workers noon (harvest_worker_sections noon noon (reg busy_world) initial_journals)
      (current_identity_floors (reg busy_world)) (initial_registry no_tokens) = Some (p, r') /\
    installed p = size (workers (reg busy_world)).
Proof.
  destruct (restart_preserves_workers noon noon noon (reg busy_world) initial_journals (initial_registry no_tokens))
    as (p & r' & Heq & Hi & _).
  - apply (history_typed (initial_world no_tokens)); [apply busy_world_reached|apply initial_world_ok|].
    apply map_Forall_empty.
  - apply Nat.leb_le. vm_compute. reflexivity.
  - reflexivity.
  - exists p, r'. split; [exact Heq|exact Hi].
Defined.
