(* ===== verification/Disk.v ===== *)
(** * Files under the plan's directory

    The part of [std::fs] the plan module uses, over a tree of named nodes.
    Paths are relative to the directory of the plan, whose own path is [[]].
    Reads and writes can fail at any call: a failed [write] may have truncated
    its file and left part of the text, a failed [remove_dir_all] may have
    removed any part of its tree, a failed [create_dir_all] may have made the
    first folders of its path; a failed [remove_file] or [remove_dir] has done
    nothing.  [Path::exists] and [is_file] are taken to answer truthfully. *)

From S2P Require Import Prelude Str Utf8 Notice.

Definition path : Type := list str.

(** A file is kept as the text it holds, or as its bytes: the plan's files are
    texts, or bytes that do not decode; the bundle's files are only ever read
    as bytes. *)
Inductive node := TextFile (content : str) | BinaryFile (bytes : list N) | Folder.
#[export] Instance node_eq_dec : EqDecision node.
Proof. solve_decision. Defined.
Definition node_bytes (n : node) : option (list N) :=
  match n with TextFile s => Some (utf8 s) | BinaryFile b => Some b | Folder => None end.
Notation Tree := (gmap path node).

(** Which calls fail, by their number, and what a failed call leaves: the text
    or the bytes in a file half written, the nodes that survive a removal, the
    number of folders made. *)
Class Faults := {
  write_fault : N -> bool;
  read_fault : N -> bool;
  left_text : N -> option str;
  left_bytes : N -> list N;
  survives : N -> path -> bool;
  folders_made : N -> nat
}.

(** The calls made so far are counted. *)
Record Disk := { tree : Tree; calls : N }.

(** ** Paths *)

Fixpoint under (p q : path) : bool :=
  match p, q with
  | [], _ => true
  | _, [] => false
  | x :: p', y :: q' => str_eqb x y && under p' q'
  end.
Definition parent (p : path) : path := removelast p.

(** The name of a direct child of [p]. *)
Fixpoint child_of (p q : path) : option str :=
  match p, q with
  | [], [n] => Some n
  | x :: p', y :: q' => if str_eqb x y then child_of p' q' else None
  | _, _ => None
  end.

Definition is_folder (t : Tree) (p : path) : bool :=
  match t !! p with Some Folder => true | _ => false end.
Definition is_file (t : Tree) (p : path) : bool :=
  match t !! p with Some (TextFile _) | Some (BinaryFile _) => true | _ => false end.
Definition path_exists (t : Tree) (p : path) : bool :=
  match t !! p with Some _ => true | None => false end.

Definition prune (p : path) (t : Tree) : Tree := filter (fun e => under p (fst e) = false) t.

(** The children of a folder, by name. *)
Definition children (t : Tree) (p : path) : gmap str node :=
  list_to_map (omap (fun e => (fun n => (n, snd e)) <$> child_of p (fst e)) (map_to_list t)).

(** ** Calls *)

Section calls.
Context `{Faults} `{DashOrder}.

Definition tick (d : Disk) (t : Tree) : Disk := {| tree := t; calls := calls d + 1 |}.

(** A change: [None] from [f] is a refusal that changes nothing; [broken] is
    what a call that fails half way leaves. *)
Definition write_call (f : Tree -> option Tree) (broken : N -> Tree -> Tree) (d : Disk) : bool * Disk :=
  if write_fault (calls d) then (false, tick d (broken (calls d) (tree d)))
  else match f (tree d) with
       | Some t => (true, tick d t)
       | None => (false, tick d (tree d))
       end.
Definition unbroken (n : N) (t : Tree) : Tree := t.
Definition read_call {A} (f : Tree -> option A) (d : Disk) : option A * Disk :=
  (if read_fault (calls d) then None else f (tree d), tick d (tree d)).

(** A file can be written where a folder holds its name and none has it. *)
Definition writable (t : Tree) (p : path) : bool := is_folder t (parent p) && negb (is_folder t p).

(** [fs::write]: create or truncate a file in an existing folder. *)
Definition write_file (p : path) (content : str) : Disk -> bool * Disk :=
  write_call (fun t => if writable t p then Some (<[p := TextFile content]> t) else None)
    (fun n t => match left_text n with
                | Some s => if writable t p then <[p := TextFile s]> t else t
                | None => t
                end).
Definition remove_file (p : path) : Disk -> bool * Disk :=
  write_call (fun t => if is_file t p then Some (delete p t) else None) unbroken.
Definition remove_dir_all (p : path) : Disk -> bool * Disk :=
  write_call (fun t => if is_folder t p then Some (prune p t) else None)
    (fun n t => if is_folder t p then filter (fun e => under p (fst e) = false \/ survives n (fst e) = true) t else t).
(** [fs::remove_dir] of an empty folder. *)
Definition remove_dir (p : path) : Disk -> bool * Disk :=
  write_call (fun t => if is_folder t p && bool_decide (children t p = ∅)
                       then Some (delete p t) else None) unbroken.
(** [fs::create_dir_all]: the folders of the path that are missing, from the
    outermost. *)
Definition make_folders (ps : list path) (t : Tree) : Tree :=
  fold_left (fun t q => if path_exists t q then t else <[q := Folder]> t) ps t.
Definition folders_of (p : path) : list path := map (fun n => take n p) (seq 0 (S (length p))).
Definition create_dir_all (p : path) : Disk -> bool * Disk :=
  write_call (fun t => if existsb (is_file t) (folders_of p) then None
                       else Some (make_folders (folders_of p) t))
    (fun n t => if existsb (is_file t) (folders_of p) then t
                else make_folders (take (folders_made n) (folders_of p)) t).
Definition read_to_string (p : path) : Disk -> option str * Disk :=
  read_call (fun t => match t !! p with Some (TextFile s) => Some s | _ => None end).
(** [fs::read] compared with a text: a binary file never equals one. *)
Definition reads_as (p : path) (content : str) (d : Disk) : bool * Disk :=
  let '(r, d') := read_to_string p d in
  (match r with Some s => str_eqb s content | None => false end, d').
Definition read_dir (p : path) : Disk -> option (list str) * Disk :=
  read_call (fun t => if is_folder t p then Some (map fst (dash_iter (children t p))) else None).

(** [fs::read] *)
Definition read_bytes (p : path) : Disk -> option (list N) * Disk :=
  read_call (fun t => t !! p ≫= node_bytes).

(** Opening with [create_new]: the name must be free. *)
Inductive CreateNew := Created | AlreadyExists | NotCreated.
Definition create_new (p : path) (d : Disk) : CreateNew * Disk :=
  if write_fault (calls d) then (NotCreated, tick d (tree d))
  else if path_exists (tree d) p then (AlreadyExists, tick d (tree d))
  else if is_folder (tree d) (parent p) then (Created, tick d (<[p := BinaryFile []]> (tree d)))
  else (NotCreated, tick d (tree d)).
(** Writing and flushing the open file at [p]. *)
Definition write_all (p : path) (bytes : list N) : Disk -> bool * Disk :=
  write_call (fun t => Some (<[p := BinaryFile bytes]> t)) (fun n t => <[p := BinaryFile (left_bytes n)]> t).
(** Reading and setting permissions changes no content. *)
Definition copy_permissions : Disk -> bool * Disk := write_call Some unbroken.
(** [fs::rename] of a file onto a name that no folder has. *)
Definition rename (a b : path) : Disk -> bool * Disk :=
  write_call (fun t => match t !! a with
                       | Some n => if is_file t a && writable t b then Some (<[b := n]> (delete a t)) else None
                       | None => None
                       end) unbroken.

End calls.
