(* ===== verification/DiskFacts.v ===== *)
(** * Facts of the disk

    What each call does to the tree, when it answers and when it fails. *)

From S2P Require Import Prelude Str Utf8 Notice Disk.

Section disk.
Context `{Faults} `{DashOrder}.
Implicit Types (p q : path) (d : Disk) (t : Tree).

Lemma path_exists_false t q : path_exists t q = false -> t !! q = None.
Proof. unfold path_exists. by case_match. Qed.

(** ** Files *)

Lemma write_file_other p c d q : q <> p -> tree (snd (write_file p c d)) !! q = tree d !! q.
Proof.
  intros Hq. unfold write_file, write_call.
  destruct (write_fault _); simpl.
  - destruct (left_text _); [|done]. destruct (writable _ _); [|done].
    by rewrite lookup_insert_ne.
  - destruct (writable _ _); simpl; [|done]. by rewrite lookup_insert_ne.
Qed.

Lemma write_file_ok p c d d' : write_file p c d = (true, d') -> tree d' = <[p := TextFile c]> (tree d).
Proof.
  unfold write_file, write_call. destruct (write_fault _); [done|].
  destruct (writable _ _); [|done]. by intros [= <-].
Qed.

Lemma remove_file_cases p d ok d' :
  remove_file p d = (ok, d') ->
  tree d' = (if ok then delete p (tree d) else tree d).
Proof.
  unfold remove_file, write_call. destruct (write_fault _); [by intros [= <- <-]|].
  destruct (is_file _ _); by intros [= <- <-].
Qed.

Lemma remove_dir_cases p d ok d' :
  remove_dir p d = (ok, d') ->
  tree d' = (if ok then delete p (tree d) else tree d).
Proof.
  unfold remove_dir, write_call. destruct (write_fault _); [by intros [= <- <-]|].
  destruct (_ && _); by intros [= <- <-].
Qed.

Lemma filter_lookup_same (P : path * node -> Prop) `{forall x, Decision (P x)} t q :
  (forall n, P (q, n)) -> (filter P t : Tree) !! q = t !! q.
Proof.
  intros HP. destruct (t !! q) as [n|] eqn:E.
  - by apply map_lookup_filter_Some_2.
  - apply map_lookup_filter_None_2. by left.
Qed.

Lemma remove_dir_all_other p d q :
  under p q = false -> tree (snd (remove_dir_all p d)) !! q = tree d !! q.
Proof.
  intros Hq. unfold remove_dir_all, write_call, prune.
  destruct (write_fault _); simpl.
  - destruct (is_folder _ _); [|done]. apply filter_lookup_same. intros n. by left.
  - destruct (is_folder _ _); simpl; [|done]. by apply filter_lookup_same.
Qed.

(** ** Folders and listings *)

Lemma make_folders_grows ps t q n : t !! q = Some n -> make_folders ps t !! q = Some n.
Proof.
  unfold make_folders. revert t. induction ps as [|p ps IH]; intros t Hq; simpl; [done|].
  apply IH. unfold path_exists. destruct (t !! p) eqn:E; [done|].
  rewrite lookup_insert_ne; [done|]. intros ->. by rewrite Hq in E.
Qed.

Lemma make_folders_other ps t q : q ∉ ps -> make_folders ps t !! q = t !! q.
Proof.
  unfold make_folders. revert t. induction ps as [|p ps IH]; intros t Hq; simpl; [done|].
  rewrite not_elem_of_cons in Hq. destruct Hq as [Hp Hq]. rewrite IH by done.
  unfold path_exists. destruct (t !! p); [done|]. by rewrite lookup_insert_ne.
Qed.

Lemma create_dir_all_grows p d q n :
  tree d !! q = Some n -> tree (snd (create_dir_all p d)) !! q = Some n.
Proof.
  intros Hq. unfold create_dir_all, write_call.
  destruct (write_fault _); destruct (existsb (is_file (tree d)) (folders_of p)); cbn [snd tree tick]; try done;
    by apply make_folders_grows.
Qed.

Lemma create_dir_all_other p d q :
  q ∉ folders_of p -> tree (snd (create_dir_all p d)) !! q = tree d !! q.
Proof.
  intros Hq. unfold create_dir_all, write_call.
  destruct (write_fault _); destruct (existsb (is_file (tree d)) (folders_of p)); cbn [snd tree tick]; try done;
    apply make_folders_other;
    try done. intros Hin. apply Hq. by eapply subseteq_take.
Qed.

Lemma make_folders_ok (ps : list path) (t : Tree) q :
  existsb (is_file t) ps = false -> q ∈ ps -> is_folder (make_folders ps t) q = true.
Proof.
  revert t. induction ps as [|p ps IH]; intros t Hf Hq; [by apply not_elem_of_nil in Hq|].
  simpl in Hf. apply orb_false_iff in Hf as [Hp Hf].
  set (t1 := if path_exists t p then t else <[p := Folder]> t).
  assert (H1 : is_folder t1 p = true).
  { unfold t1, path_exists, is_folder, is_file in *.
    destruct (t !! p) as [[|bs|]|] eqn:E; try done; [by rewrite E|by rewrite lookup_insert_eq]. }
  assert (Hf1 : existsb (is_file t1) ps = false).
  { unfold t1. destruct (path_exists t p); [done|]. clear -Hf. induction ps as [|x ps IHp]; [done|].
    simpl in *. apply orb_false_iff in Hf as [Hx Hf]. rewrite (IHp Hf), orb_false_r.
    unfold is_file in *. destruct (decide (x = p)) as [->|Hne].
    - by rewrite lookup_insert_eq.
    - by rewrite lookup_insert_ne. }
  change (is_folder (make_folders ps t1) q = true).
  apply elem_of_cons in Hq as [->|Hq]; [|by apply IH].
  unfold is_folder in *. destruct (t1 !! p) as [[|bs|]|] eqn:E; try done.
  by rewrite (make_folders_grows _ _ _ _ E).
Qed.

Lemma create_dir_all_ok p d d' q :
  create_dir_all p d = (true, d') -> q ∈ folders_of p -> is_folder (tree d') q = true.
Proof.
  unfold create_dir_all, write_call. destruct (write_fault _); [done|].
  destruct (existsb (is_file (tree d)) (folders_of p)) eqn:E; [done|]. intros [= <-] Hq.
  exact (make_folders_ok (folders_of p) (tree d) q E Hq).
Qed.

Lemma create_dir_all_calls p d d' ok : create_dir_all p d = (ok, d') -> calls d' = (calls d + 1)%N.
Proof.
  unfold create_dir_all, write_call. destruct (write_fault _); [by intros [= _ <-]|].
  destruct (existsb (is_file (tree d)) (folders_of p)); by intros [= _ <-].
Qed.

Lemma folders_of_self p : p ∈ folders_of p.
Proof.
  unfold folders_of. apply list_elem_of_fmap. exists (length p).
  rewrite firstn_all. split; [done|]. apply elem_of_seq. lia.
Qed.

Lemma child_of_app p n : child_of p (p ++ [n]) = Some n.
Proof. induction p as [|x p IH]; simpl; [done|]. by rewrite str_eqb_refl. Qed.

Lemma read_dir_cases p d r d' :
  read_dir p d = (r, d') ->
  tree d' = tree d /\ calls d' = (calls d + 1)%N /\
  match r with
  | None => read_fault (calls d) = true \/ is_folder (tree d) p = false
  | Some names => forall n nd, tree d !! (p ++ [n]) = Some nd -> n ∈ names
  end.
Proof.
  unfold read_dir, read_call. intros [= <- <-]. split_and!; [done|done|].
  destruct (read_fault (calls d)); [by left|].
  destruct (is_folder (tree d) p); [|by right]. intros n nd Hn.
  rewrite (dash_iter_perm (children (tree d) p)).
  assert (Hin : (n, nd) ∈ omap (fun e => (fun m => (m, snd e)) <$> child_of p (fst e)) (map_to_list (tree d))).
  { apply list_elem_of_omap. exists (p ++ [n], nd). split; [by apply elem_of_map_to_list|].
    simpl. by rewrite child_of_app. }
  assert (Hs : is_Some (children (tree d) p !! n)).
  { unfold children.
    destruct (list_to_map _ !! n) eqn:E; [done|]. apply not_elem_of_list_to_map in E.
    exfalso. apply E. apply list_elem_of_fmap. by exists (n, nd). }
  destruct Hs as [nd' Hs]. apply list_elem_of_fmap. exists (n, nd'). split; [done|].
  by apply elem_of_map_to_list.
Qed.

Lemma read_call_tree {A} (f : Tree -> option A) d : tree (snd (read_call f d)) = tree d.
Proof. done. Qed.

Lemma read_to_string_cases p d r d' :
  read_to_string p d = (r, d') ->
  tree d' = tree d /\ calls d' = (calls d + 1)%N /\
  r = (if read_fault (calls d) then None
       else match tree d !! p with Some (TextFile c) => Some c | _ => None end).
Proof. unfold read_to_string, read_call. by intros [= <- <-]. Qed.

Lemma reads_as_cases p c d same d' :
  reads_as p c d = (same, d') ->
  tree d' = tree d /\ (same = true -> tree d !! p = Some (TextFile c)) /\
  (read_fault (calls d) = false -> tree d !! p = Some (TextFile c) -> same = true).
Proof.
  unfold reads_as. destruct (read_to_string p d) as [r d1] eqn:E.
  apply read_to_string_cases in E as (Ht & _ & Hr). intros [= <- <-]. split; [done|]. subst r.
  split.
  - destruct (read_fault _); [done|]. destruct (tree d !! p) as [[c'|bs|]|]; try done.
    intros Heq. by rewrite (proj1 (str_eqb_eq _ _) Heq).
  - intros -> ->. apply str_eqb_eq. done.
Qed.

End disk.

(** A disk on which nothing fails, and one whose listings do. *)
Definition no_faults : Faults := {|
  write_fault _ := false; read_fault _ := false; left_text _ := None; left_bytes _ := [];
  survives _ _ := false; folders_made _ := 0
|}.
Definition failing_at (k : N) : Faults := {|
  write_fault n := (n =? k)%N; read_fault n := (n =? k)%N; left_text _ := Some (lit "half"); left_bytes _ := [];
  survives _ _ := false; folders_made _ := 0
|}.
