(* ===== verification/Atomic.v ===== *)
(** * Atomic file writes ([src/harness/fs.rs])

    [write_file_atomic]: a fresh file staged next to its target, written, and
    renamed onto it; the staged file is removed on every failure.  Readers of
    the target see its old bytes or its new ones. *)

From stdpp Require Import pretty.
From S2P Require Import Prelude Str Utf8 Notice Disk DiskFacts.

(** ** Staging *)

Definition STAGING_NAME_MAX_STEM : nat := 48.
Definition STAGING_CREATE_ATTEMPTS : nat := 16.

Definition staging_stem (target : path) : str :=
  map (fun c => if (c =? ch "/")%N || (c =? 92)%N || (c =? 0)%N then ch "_" else c)
    (truncate_chars (default [] (last target)) STAGING_NAME_MAX_STEM).

(** [{:08}] *)
Definition pad8 (n : N) : str := let d := lit (pretty n) in replicate (8 - length d) (ch "0") ++ d.

(** [.{stem}.tmp.{pid}.{nanos}.{seq:08}] *)
Definition staging_name (stem : str) (pid nanos seq : N) : str :=
  lit "." ++ stem ++ lit ".tmp." ++ lit (pretty pid) ++ lit "." ++ lit (pretty nanos) ++ lit "." ++ pad8 seq.

(** The process: its id, the staging sequence ([STAGING_SEQ], an [AtomicU64])
    and its disk.  The clock is read once per attempt. *)
Record Process := { pid : N; staging_seq : N; proc_disk : Disk }.
Definition with_disk (p : Process) (d : Disk) : Process :=
  {| pid := pid p; staging_seq := staging_seq p; proc_disk := d |}.
Definition next_seq (p : Process) : Process :=
  {| pid := pid p; staging_seq := ((staging_seq p + 1) mod 2 ^ 64)%N; proc_disk := proc_disk p |}.

(** A write's outcome; the text of the error is left out. *)
Inductive AtomicError := StagingFailed | NoStagingName | PayloadFailed | PermissionsFailed | RenameFailed.

Section atomic.
Context `{Faults} `{DashOrder}.
(** The nanoseconds of the clock at the time of the n-th call to the disk. *)
Context (nanos_at : N -> N).

Definition on_calls {A} (f : Disk -> A * Disk) (p : Process) : A * Process :=
  let '(a, d) := f (proc_disk p) in (a, with_disk p d).

Fixpoint create_staging_file (attempts : nat) (dir target : path) (p : Process)
    : (path + AtomicError) * Process :=
  match attempts with
  | 0 => (inr NoStagingName, p)
  | S attempts' =>
      let candidate := dir ++ [staging_name (staging_stem target) (pid p) (nanos_at (calls (proc_disk p))) (staging_seq p)] in
      let p1 := next_seq p in
      match on_calls (create_new candidate) p1 with
      | (Created, p2) => (inl candidate, p2)
      | (AlreadyExists, p2) => create_staging_file attempts' dir target p2
      | (NotCreated, p2) => (inr StagingFailed, p2)
      end
  end.

(** The drop of an armed [StagedTemp]: a failed removal is logged. *)
Definition unstage (staged : path) (p : Process) : Process := snd (on_calls (remove_file staged) p).

(** [preserve_target_permissions]: only a target that can be examined has a
    mode to copy. *)
Definition preserve_target_permissions (target : path) (p : Process) : bool * Process :=
  let '(meta, p1) := on_calls (read_call (fun t => t !! target)) p in
  match meta with Some _ => on_calls copy_permissions p1 | None => (true, p1) end.

Definition write_file_atomic (target : path) (bytes : list N) (p : Process) : (() + AtomicError) * Process :=
  match create_staging_file STAGING_CREATE_ATTEMPTS (parent target) target p with
  | (inr e, p1) => (inr e, p1)
  | (inl staged, p1) =>
      match on_calls (write_all staged bytes) p1 with
      | (false, p2) => (inr PayloadFailed, unstage staged p2)
      | (true, p2) =>
          match preserve_target_permissions target p2 with
          | (false, p3) => (inr PermissionsFailed, unstage staged p3)
          | (true, p3) =>
              match on_calls (rename staged target) p3 with
              | (false, p4) => (inr RenameFailed, unstage staged p4)
              | (true, p4) => (inl (), p4)
              end
          end
      end
  end.

(** ** What a write leaves *)

Implicit Types (p : Process) (q target : path).
Definition ptree (p : Process) : Tree := tree (proc_disk p).

Lemma on_calls_pid {A} (f : Disk -> A * Disk) p : pid (snd (on_calls f p)) = pid p.
Proof. unfold on_calls. by destruct (f (proc_disk p)). Qed.

(** A staged name is fresh, and nothing else has changed. *)
Lemma create_staging_spec n dir target p :
  let '(r, p') := create_staging_file n dir target p in
  pid p' = pid p /\
  match r with
  | inl staged => ptree p !! staged = None /\ ptree p' = <[staged := BinaryFile []]> (ptree p) /\
      exists nanos seq, staged = dir ++ [staging_name (staging_stem target) (pid p) nanos seq]
  | inr _ => ptree p' = ptree p
  end.
Proof.
  revert p. induction n as [|n IH]; intros p; [done|]. cbn [create_staging_file].
  unfold on_calls, create_new. cbn [proc_disk next_seq].
  destruct (write_fault (calls (proc_disk p))); [done|].
  set (c := dir ++ [_]). destruct (path_exists (tree (proc_disk p)) c) eqn:E.
  - exact (IH (with_disk (next_seq p) (tick (proc_disk p) (tree (proc_disk p))))).
  - destruct (is_folder _ _); [|done]. split; [done|]. split; [|split; [done|by eexists _, _]].
    by apply path_exists_false.
Qed.

Lemma write_all_other staged bytes d q :
  q <> staged -> tree (snd (write_all staged bytes d)) !! q = tree d !! q.
Proof.
  intros Hq. unfold write_all, write_call. destruct (write_fault _); simpl; by rewrite lookup_insert_ne.
Qed.
Lemma preserve_permissions_frame target p :
  ptree (snd (preserve_target_permissions target p)) = ptree p /\ pid (snd (preserve_target_permissions target p)) = pid p.
Proof.
  unfold preserve_target_permissions, on_calls, read_call, ptree. destruct (if read_fault _ then None else _); [|done].
  unfold copy_permissions, write_call. by destruct (write_fault _).
Qed.

(** Unstaging touches the staged name only, and removes it unless the removal
    fails. *)
Lemma unstage_other staged p q : q <> staged -> ptree (unstage staged p) !! q = ptree p !! q.
Proof.
  intros Hq. unfold unstage, on_calls, ptree, remove_file, write_call, unbroken.
  destruct (write_fault _); simpl; [done|]. destruct (is_file _ _); simpl; [by rewrite lookup_delete_ne|done].
Qed.

(** Renaming moves the staged file, or changes nothing. *)
Lemma rename_spec staged target d :
  let '(ok, d') := rename staged target d in
  if ok then exists n, tree d !! staged = Some n /\ tree d' = <[target := n]> (delete staged (tree d))
  else tree d' = tree d.
Proof.
  unfold rename, write_call, unbroken. destruct (write_fault _); [done|].
  destruct (tree d !! staged) as [n|]; [|done]. destruct (_ && _); [|done]. by exists n.
Qed.

(** A write that answers has put the bytes in place and left nothing else; one
    that fails has left the target as it was, and at most its staged file. *)
Lemma write_file_atomic_cases target bytes p :
  let staged_name q := exists nanos seq, q = parent target ++ [staging_name (staging_stem target) (pid p) nanos seq] in
  ~ staged_name target ->
  match write_file_atomic target bytes p with
  | (inl _, p') => ptree p' !! target = Some (BinaryFile bytes) /\ pid p' = pid p /\
      forall q, q <> target -> ptree p' !! q = ptree p !! q
  | (inr _, p') => pid p' = pid p /\
      forall q, ptree p' !! q <> ptree p !! q -> staged_name q /\ ptree p !! q = None /\ q <> target
  end.
Proof.
  intros staged_name Hn. unfold write_file_atomic.
  pose proof (create_staging_spec STAGING_CREATE_ATTEMPTS (parent target) target p) as Hc.
  destruct (create_staging_file _ _ _ p) as [[staged|e] p1].
  2:{ destruct Hc as [Hp Ht]. split; [done|]. intros q Hq. by rewrite Ht in Hq. }
  destruct Hc as (Hpid & Hfresh & Ht1 & Hs). assert (Hne : target <> staged) by (by intros ->; apply Hn).
  assert (Hfail : forall p', pid p' = pid p -> (forall q, q <> staged -> ptree p' !! q = ptree p !! q) ->
    pid p' = pid p /\ forall q, ptree p' !! q <> ptree p !! q -> staged_name q /\ ptree p !! q = None /\ q <> target).
  { intros p' Hp' Ho. split; [done|]. intros q Hq. destruct (decide (q = staged)) as [->|Hqs]; [|by destruct Hq; apply Ho].
    split_and!; [done|done|by intros ->]. }
  assert (Hpu : forall p', pid (unstage staged p') = pid p') by (intros p'; apply on_calls_pid).
  unfold on_calls at 1. destruct (write_all staged bytes (proc_disk p1)) as [ok2 d2] eqn:E2.
  assert (Ho2 : forall q, q <> staged -> tree d2 !! q = ptree p !! q).
  { intros q Hq. replace d2 with (snd (write_all staged bytes (proc_disk p1))) by by rewrite E2.
    rewrite write_all_other by done. fold (ptree p1). by rewrite Ht1, lookup_insert_ne. }
  destruct ok2; [|apply Hfail; [by rewrite Hpu|intros q Hq; rewrite unstage_other by done; by apply Ho2]].
  assert (Hb : tree d2 !! staged = Some (BinaryFile bytes)).
  { revert E2. unfold write_all, write_call. destruct (write_fault _); [done|]. intros [= <-]. apply lookup_insert_eq. }
  destruct (preserve_permissions_frame target (with_disk p1 d2)) as [Ht3 Hp3].
  destruct (preserve_target_permissions _ _) as [ok3 p3]. cbn [snd] in Ht3, Hp3. unfold ptree at 2 in Ht3. cbn [with_disk proc_disk] in Ht3.
  assert (Ho3 : forall q, q <> staged -> ptree p3 !! q = ptree p !! q) by (intros q Hq; rewrite Ht3; by apply Ho2).
  destruct ok3; [|apply Hfail; [by rewrite Hpu, Hp3|intros q Hq; rewrite unstage_other by done; by apply Ho3]].
  unfold on_calls at 1. pose proof (rename_spec staged target (proc_disk p3)) as Hr. fold (ptree p3) in Hr.
  destruct (rename _ _ _) as [ok4 d4]. simpl in Hr. destruct ok4.
  - destruct Hr as (n & Hn3 & Hd4). rewrite Ht3, Hb in Hn3. injection Hn3 as <-.
    split_and!; [unfold ptree; simpl; rewrite Hd4; apply lookup_insert_eq|simpl; by rewrite Hp3|].
    intros q Hq. unfold ptree at 1. simpl. rewrite Hd4, lookup_insert_ne by done.
    destruct (decide (q = staged)) as [->|Hqs]; [by rewrite lookup_delete_eq|].
    rewrite lookup_delete_ne by done. by apply Ho3.
  - apply Hfail; [rewrite Hpu; simpl; by rewrite Hp3|].
    intros q Hq. rewrite unstage_other by done. unfold ptree at 1. simpl. rewrite Hr. by apply Ho3.
Qed.

End atomic.
