(* ===== verification/Documents.v ===== *)
(** * The documents of a session bundle ([src/session/format])

    The manifest and the frame of a member file ([envelope.rs]), the durable
    state of the terminal UI and its structural check ([ui.rs]), and the
    vocabulary of a restore ([restore.rs]). *)

From stdpp Require Import pretty.
From S2P Require Import Prelude Str Decimal Markers Notice Wire Session Journal WorkerRestore.
From S2P Require Import Context Normalize Disk.
Local Open Scope nat_scope.

(** ** Constants ([mod.rs]) *)

Definition FORMAT_VERSION : N := 1.
Definition SCHEMA_VERSION : N := 1.
Definition BUNDLE_DIR_NAME : str := lit "session".
Definition MANIFEST_FILE : str := lit "manifest.json".
Definition UI_FILE : str := lit "ui.json".
Definition WORKERS_DIR_NAME : str := lit "workers".

(** Renderings of [core] and chrono that only reach messages. *)
Class Texts := {
  debug_str : str -> str;          (* [{:?}] of a string *)
  debug_time : TimePoint -> str;   (* the derived [Debug] *)
  show_f64 : f64 -> str;
  rfc3339 : N -> str;
  show_path : path -> str;
  io_error : N -> str              (* why the n-th call to the disk failed *)
}.

(** ** The envelope *)

Inductive SectionKind := KManager | KUi | KWorker.
#[export] Instance SectionKind_eq_dec : EqDecision SectionKind.
Proof. solve_decision. Defined.
Definition section_kind_debug (k : SectionKind) : str :=
  match k with KManager => lit "Manager" | KUi => lit "Ui" | KWorker => lit "Worker" end.

Record ManifestMember := {
  mm_kind : SectionKind;
  rel_path : str;
  byte_len : N;
  mm_fingerprint : N;
  mm_saved_wall : N;
  mm_saved_elapsed_secs : f64
}.
Record Manifest := {
  format_version : N;
  schema_version : N;
  session_id : str;
  committed_wall : N;
  anchor_wall : N;
  ending : ProcessEnding;
  identity_floors : IdentityFloors;
  members : list ManifestMember
}.
Record SectionHeader := {
  h_format_version : N;
  h_schema_version : N;
  h_session_id : str;
  h_kind : SectionKind;
  h_saved_wall : N;
  h_saved_elapsed_secs : f64;
  member_count : N;
  member_index : N
}.

Record ManagerFile := { manager_header : SectionHeader; manager_section : ManagerSection }.
Record WorkerFile := { worker_header : SectionHeader; worker_section : WorkerSection }.

(** ** The UI section ([ui.rs]) *)

Record QueuePanel := { position : nat; of_ : nat }.
Record SubagentPanel := {
  panel_name : str;
  panel_task_id : option str;
  panel_prompt : str;
  panel_logs : list str;
  panel_thinking : str;
  panel_content : str;
  is_active : bool;
  panel_context_tokens : nat;
  worked_duration_secs : f64;
  started_at : option TimePoint;
  last_activity_at : option TimePoint;
  turn_thinking : option str;
  is_thinking : option bool;
  queue : option QueuePanel;
  paused : bool
}.
Inductive UiJournalRecord :=
  | JUser (text : str)
  | JAssistant (content thinking : option str)
  | JSteerResponse (text : str)
  | JToolCall (display : str)
  | JToolResult (display : str)
  | JTaskCompleted (task_id : str)
  | JTaskFailed (task_id : str) (reason : option str)
  | JStatus (text : str).
Record ComposerState := {
  input_text : str; cursor : nat; input_draft : str; input_history : list str; history_index : option nat
}.
Record ViewState := {
  chat_scroll : N; plan_scroll : N; subagent_scroll : N; subagent_list_scroll : N;
  selected_subagent_idx : nat;
  focused_panel : str;
  show_thought : bool; show_subagent_panel : bool; show_plan_panel : bool;
  chat_auto_scroll : bool; subagent_autoscroll : bool; plan_auto_scroll : bool;
  view_mode : option str;
  follow : option bool
}.
Record BudgetWitness := { thinking_budgets : gmap str nat; default_thinking_budget : nat }.
Record UiSection := {
  chat_messages : list str;
  status_line : str;
  subagent_panels : list SubagentPanel;
  ui_journal : list UiJournalRecord;
  composer : ComposerState;
  view : ViewState;
  budgets : BudgetWitness;
  plan_content : str;
  had_active_plan : bool;
  active_plan_task : option str;
  plan_start : option TimePoint;
  plan_completed : option TimePoint;
  current_thought : str;
  current_content : str;
  active_agent : option str;
  steer_sentence_buffer : option str;
  tokens_in : N;
  tokens_out : N;
  orchestrator_context_tokens : N;
  abort_armed : bool;
  abort_armed_at : option TimePoint
}.
Record UiFile := { ui_header : SectionHeader; ui_section : UiSection }.

Definition default_view : ViewState :=
  {| chat_scroll := 0; plan_scroll := 0; subagent_scroll := 0; subagent_list_scroll := 0;
     selected_subagent_idx := 0; focused_panel := lit "chat"; show_thought := false;
     show_subagent_panel := false; show_plan_panel := false; chat_auto_scroll := false;
     subagent_autoscroll := false; plan_auto_scroll := false; view_mode := None; follow := None |}.
(** The derived [Default]. *)
Definition default_ui : UiSection :=
  {| chat_messages := []; status_line := []; subagent_panels := []; ui_journal := [];
     composer := {| input_text := []; cursor := 0; input_draft := []; input_history := []; history_index := None |};
     view := default_view; budgets := {| thinking_budgets := ∅; default_thinking_budget := 0 |};
     plan_content := []; had_active_plan := false; active_plan_task := None; plan_start := None;
     plan_completed := None; current_thought := []; current_content := []; active_agent := None;
     steer_sentence_buffer := None; tokens_in := 0; tokens_out := 0; orchestrator_context_tokens := 0;
     abort_armed := false; abort_armed_at := None |}.

Definition FOCUSED_PANELS : list str := [lit "chat"; lit "input"; lit "plan"; lit "subagents"].
Definition VIEW_MODES : list str := [lit "transcript"; lit "plan"; lit "workers"; lit "split"].

Section texts.
Context `{Texts}.

(** [{:?}] of a list of strings. *)
Definition debug_list (l : list str) : str := lit "[" ++ join_with (lit ", ") (map debug_str l) ++ lit "]".

Definition composer_violations (c : ComposerState) : list str :=
  if blen (input_text c) <? cursor c then
    [lit "composer.cursor " ++ dec (cursor c) ++ lit " is past the end of input_text (" ++
     dec (blen (input_text c)) ++ lit " bytes)"]
  else if negb (is_char_boundary (input_text c) (cursor c)) then
    [lit "composer.cursor " ++ dec (cursor c) ++ lit " is not on a char boundary of input_text"]
  else [].
Definition view_violations (v : ViewState) : list str :=
  (if str_mem (focused_panel v) FOCUSED_PANELS then []
   else [lit "view.focused_panel " ++ debug_str (focused_panel v) ++ lit " is not one of " ++ debug_list FOCUSED_PANELS]) ++
  match view_mode v with
  | Some mode => if str_mem mode VIEW_MODES then []
                 else [lit "view.view_mode " ++ debug_str mode ++ lit " is not one of " ++ debug_list VIEW_MODES]
  | None => []
  end.
Definition history_violations (c : ComposerState) : list str :=
  match history_index c with
  | Some idx =>
      if length (input_history c) <=? idx
      then [lit "composer.history_index " ++ dec idx ++ lit " is outside history (" ++
            dec (length (input_history c)) ++ lit " entries)"]
      else []
  | None => []
  end.
Definition selection_violations (u : UiSection) : list str :=
  let idx := selected_subagent_idx (view u) in
  match subagent_panels u with
  | [] => if idx =? 0 then []
          else [lit "view.selected_subagent_idx " ++ dec idx ++ lit " must be 0 when there are no panels"]
  | panels => if length panels <=? idx
              then [lit "view.selected_subagent_idx " ++ dec idx ++ lit " is outside subagent_panels (" ++
                    dec (length panels) ++ lit " panels)"]
              else []
  end.
(** The named readings that are not sane. *)
Definition insane (before : str) (points : list (str * option TimePoint)) : list str :=
  concat (map (fun e => match snd e with
    | Some tp => if is_sane tp then [] else [before ++ fst e ++ lit " is not a sane TimePoint: " ++ debug_time tp]
    | None => []
    end) points).
Definition panel_times (p : SubagentPanel) : list (str * option TimePoint) :=
  [(lit "started_at", started_at p); (lit "last_activity_at", last_activity_at p)].
Definition ui_times (u : UiSection) : list (str * option TimePoint) :=
  [(lit "plan_start", plan_start u); (lit "plan_completed", plan_completed u);
   (lit "abort_armed_at", abort_armed_at u)].

Definition structural_violations (u : UiSection) : list str :=
  composer_violations (composer u) ++ view_violations (view u) ++ history_violations (composer u) ++
  selection_violations u ++
  concat (map (fun p => insane (lit "subagent " ++ panel_name p ++ lit " ") (panel_times p)) (subagent_panels u)) ++
  insane [] (ui_times u).

End texts.

(** ** The outcome of a restore ([restore.rs]) *)

Inductive PinStage := Stored | Installed.
Definition stage_label (s : PinStage) : str :=
  match s with Stored => lit "stored" | Installed => lit "installed" end.

Record WorkerRepairCounts := {
  count_key : str; before : nat; after : nat; applied_rules : list str
}.
Record RepairReport := {
  pins_verified : bool;
  pinned_prefix_end_expected : option N;
  pinned_prefix_end_actual : option N;
  orphan_tool_results_pruned : nat;
  aborted_results_synthesized : nat;
  tool_results_regrouped : nat;
  normalization_passes : N;
  normalization_stable : bool;
  manager_messages_before : nat;
  manager_messages_after : nat;
  ui_lines_restored : nat;
  workers_restored : nat;
  workers_unrecoverable : list str;
  completed_dropped_by_ring_cap : nat;
  notices : list NonRestorableNotice;
  warnings : list str;
  worker_counts : list WorkerRepairCounts
}.
Definition empty_report : RepairReport :=
  {| pins_verified := false; pinned_prefix_end_expected := None; pinned_prefix_end_actual := None;
     orphan_tool_results_pruned := 0; aborted_results_synthesized := 0; tool_results_regrouped := 0;
     normalization_passes := 0; normalization_stable := false; manager_messages_before := 0;
     manager_messages_after := 0; ui_lines_restored := 0; workers_restored := 0;
     workers_unrecoverable := []; completed_dropped_by_ring_cap := 0; notices := []; warnings := [];
     worker_counts := [] |}.

Record RestoredSession := {
  restored_id : str;
  restored_manager : ManagerSection;
  restored_ui : UiSection;
  restored_workers : list WorkerSection;
  restored_floors : IdentityFloors;
  restored_manifest : Manifest;
  restored_bundle : path
}.
Inductive RestoreOutcome :=
  | NoBundle (bundle : path) (legacy_journals : list path) (orphan_members : list str)
  | Refused (refusal : Refusal) (report : RepairReport)
  | Restored (session : RestoredSession) (ending : ProcessEnding) (report : RepairReport)
  | PartiallyRestored (session : RestoredSession) (ending : ProcessEnding)
      (unrecoverable_workers : list str) (report : RepairReport).

(** [Refusal::display] *)
Definition refusal_display `{Texts} (bundle : path) (r : Refusal) : str :=
  lit "session restore refused [" ++ code_label (code r) ++ lit "]" ++
  match refusal_member r with Some m => lit " " ++ m | None => [] end ++ lit ": " ++ refusal_message r ++
  lit " " ++ EM_DASH ++ lit " the bundle at " ++ show_path bundle ++
  lit " was NOT modified; it is still on disk unchanged".
