(* ===== verification/MemberName.v ===== *)
(** * Names of the bundle's files ([src/session/commit.rs], [src/session/restore.rs])

    The escaping of worker keys into file names and its inverse, the staging
    leftovers a sweep recognises, and the hints an unreadable member's name
    still gives.  Escaping is undone by unescaping and never makes a separator;
    a staging name is recognised by every other process and by no one when it
    is the name of a member. *)

From stdpp Require Import pretty.
From S2P Require Import Prelude Str Utf8 Decimal Agents Normalize WorkerRestore Disk Documents Atomic.

(** ** Escaping *)

(** [str::replace] with a character pattern. *)
Definition replace_char (c : char) (by_ s : str) : str :=
  concat (map (fun x => if (x =? c)%N then by_ else [x]) s).

Definition percent_escape_key (key : str) : str :=
  replace_char (ch "/") (lit "%2F") (replace_char (ch "#") (lit "%23") (replace_char (ch "%") (lit "%25") key)).

Definition worker_rel_path (key : str) : str :=
  WORKERS_DIR_NAME ++ lit "/" ++ percent_escape_key key ++ lit ".json".

(** [u8::from_str_radix] in base 16: a sign [+] is accepted. *)
Definition hex_digit (c : char) : option N :=
  if is_ascii_digit c then Some (c - 48)%N
  else if in_range 97 102 c then Some (c - 87)%N
  else if in_range 65 70 c then Some (c - 55)%N
  else None.
Fixpoint hex_digits (acc : N) (s : str) : option N :=
  match s with
  | [] => Some acc
  | c :: s' => d ← hex_digit c; let v := (acc * 16 + d)%N in if (v <? 256)%N then hex_digits v s' else None
  end.
Definition u8_from_hex (s : str) : option N :=
  let rest := match s with c :: (_ :: _) as r => if (c =? ch "+")%N then r else s | _ => s end in
  if is_empty rest then None else hex_digits 0 rest.

Inductive UnescapeError := Truncated | InvalidEscape (raw : list N).

(** The loop over the bytes of the name. *)
Fixpoint unescape_bytes (bytes : list N) : list N + UnescapeError :=
  match bytes with
  | [] => inl []
  | b :: rest =>
      if (b =? ch "%")%N then
        match rest with
        | hi :: lo :: rest' =>
            match from_utf8 [hi; lo] ≫= u8_from_hex with
            | Some byte => match unescape_bytes rest' with inl out => inl (byte :: out) | inr e => inr e end
            | None => inr (InvalidEscape [b; hi; lo])
            end
        | _ => inr Truncated
        end
      else match unescape_bytes rest with inl out => inl (b :: out) | inr e => inr e end
  end.
Definition percent_unescape `{Texts} (escaped : str) : str + Refusal :=
  let refused why := inr (refuse JsonCode why) in
  match unescape_bytes (utf8 escaped) with
  | inl out =>
      match from_utf8 out with
      | Some s => inl s
      | None => refused (lit "member name " ++ debug_str escaped ++ lit " does not decode to UTF-8")
      end
  | inr Truncated => refused (lit "truncated %-escape in member name " ++ debug_str escaped)
  | inr (InvalidEscape raw) =>
      refused (lit "invalid %-escape " ++ debug_str (from_utf8_lossy raw) ++ lit " in member name " ++ debug_str escaped)
  end.

(** ** Staging leftovers *)

(** [str::split] at a character. *)
Fixpoint split_char (c : char) (s : str) : list str :=
  match s with
  | [] => [[]]
  | x :: s' =>
      if (x =? c)%N then [] :: split_char c s'
      else match split_char c s' with [] => [[x]] | p :: ps => (x :: p) :: ps end
  end.

Definition is_stale_staging_name (name : str) (this_pid : N) : bool :=
  match strip_prefix (lit ".") name with
  | None => false
  | Some rest =>
      match find_split (lit ".tmp.") rest with
      | None => false
      | Some (stem, tail) =>
          if is_empty stem then false
          else match split_char (ch ".") tail with
               | [pid; nanos; seq] =>
                   (blen seq =? 8) && bool_decide (is_Some (parse_u32 seq)) &&
                   bool_decide (is_Some (parse_u32 nanos)) &&
                   match parse_u32 pid with Some p => negb (p =? this_pid)%N | None => false end
               | _ => false
               end
      end
  end.

(** ** Hints of a name *)

Definition file_stem (rel : str) : str :=
  let name := default rel (last (split_char (ch "/") rel)) in
  default name (strip_suffix (lit ".json") name).
Definition worker_key_from_rel_path `{Texts} (rel : str) : str :=
  match percent_unescape (file_stem rel) with inl key => key | inr _ => file_stem rel end.

(** [split(['-', '/', '#']).next()] *)
Definition key_head (key : str) : str :=
  take_while (fun c => negb ((c =? ch "-")%N || (c =? ch "/")%N || (c =? ch "#")%N)) key.
Definition role_hint_from_key (key : str) : Agent := default Generalist (from_str (key_head key)).
Definition task_hint_from_key (key : str) : option str :=
  rest ← strip_prefix (key_head key) key ≫= strip_prefix (lit "-");
  if is_empty rest || match rest with c :: tail => (c =? ch "w")%N && forallb is_ascii_digit tail | [] => false end
  then None else Some rest.

Example unescape_plus : unescape_bytes (utf8 (lit "%+F")) = inl [15%N].
Proof. by vm_compute. Qed.
Example unescape_not_injective : unescape_bytes (utf8 (lit "%41")) = unescape_bytes (utf8 (lit "A")).
Proof. by vm_compute. Qed.
Example stale_names :
  map (fun n => is_stale_staging_name n 999999)
    [lit ".manager.json.tmp.1.123.00000007"; lit ".x.tmp.1.2"; lit ".x.tmp.a.2.00000007"; lit ".x.tmp.1.2.7"] =
  [true; false; false; false].
Proof. by vm_compute. Qed.

(** ** Facts of the names *)

Definition scalars (s : str) : Prop := Forall (fun c => is_scalar c = true) s.

(** ** Escaping *)

Definition escape_char (c : char) : str :=
  if (c =? ch "%")%N then lit "%25" else if (c =? ch "#")%N then lit "%23"
  else if (c =? ch "/")%N then lit "%2F" else [c].

Lemma replace_char_app c b x y : replace_char c b (x ++ y) = replace_char c b x ++ replace_char c b y.
Proof. unfold replace_char. by rewrite map_app, concat_app. Qed.
Lemma percent_escape_cons c k : percent_escape_key (c :: k) = escape_char c ++ percent_escape_key k.
Proof.
  unfold percent_escape_key. change (c :: k) with ([c] ++ k). rewrite !replace_char_app. f_equal.
  unfold escape_char, replace_char. cbn [map concat]. rewrite app_nil_r.
  destruct (N.eqb_spec c (ch "%")) as [->|]; [by vm_compute|]. cbn [map concat]. rewrite app_nil_r.
  destruct (N.eqb_spec c (ch "#")) as [->|]; [by vm_compute|]. cbn [map concat]. rewrite app_nil_r. done.
Qed.

Lemma escape_no_slash k : ch "/" ∉ percent_escape_key k.
Proof.
  induction k as [|c k IH]; [by vm_compute; intros ?%not_elem_of_nil|].
  rewrite percent_escape_cons, elem_of_app. intros [Hc|Hc]; [|done]. revert Hc. unfold escape_char.
  repeat case_match; vm_compute (lit _); vm_compute (ch _); rewrite ?elem_of_cons, ?elem_of_nil; intros Hc;
    destruct_or? Hc; try done. subst c. done.
Qed.

Lemma utf8_char_plain c : c <> ch "%" -> Forall (fun b => b <> ch "%") (utf8_char c).
Proof.
  intros Hc. unfold utf8_char. change (ch "%") with 37%N in *.
  assert (Hk : forall n, cont n <> 37%N) by (intros n; unfold cont; lia).
  repeat case_match; repeat constructor; try done; lia.
Qed.
Lemma unescape_plain bs rest :
  Forall (fun b => b <> ch "%") bs ->
  unescape_bytes (bs ++ rest) =
    match unescape_bytes rest with inl out => inl (bs ++ out) | inr e => inr e end.
Proof.
  induction 1 as [|b bs Hb _ IH]; cbn [app]; [by destruct (unescape_bytes rest)|].
  cbn [unescape_bytes]. rewrite (proj2 (N.eqb_neq _ _) Hb), IH. by destruct (unescape_bytes rest).
Qed.
Lemma unescape_escaped c rest :
  unescape_bytes (utf8 (escape_char c) ++ rest) =
    match unescape_bytes rest with inl out => inl (utf8_char c ++ out) | inr e => inr e end.
Proof.
  unfold escape_char.
  destruct (N.eqb_spec c (ch "%")) as [->|H1]; [done|].
  destruct (N.eqb_spec c (ch "#")) as [->|H2]; [done|].
  destruct (N.eqb_spec c (ch "/")) as [->|H3]; [done|].
  unfold utf8. cbn [map concat]. rewrite app_nil_r. apply unescape_plain. by apply utf8_char_plain.
Qed.
Lemma unescape_bytes_escape k : unescape_bytes (utf8 (percent_escape_key k)) = inl (utf8 k).
Proof.
  induction k as [|c k IH]; [done|]. by rewrite percent_escape_cons, utf8_app, unescape_escaped, IH.
Qed.
Lemma percent_unescape_escape `{Texts} k : scalars k -> percent_unescape (percent_escape_key k) = inl k.
Proof. intros Hk. unfold percent_unescape. by rewrite unescape_bytes_escape, from_utf8_utf8. Qed.
Lemma percent_escape_inj k l : scalars k -> scalars l -> percent_escape_key k = percent_escape_key l -> k = l.
Proof.
  intros Hk Hl E. pose proof (unescape_bytes_escape k) as Hu. rewrite E, unescape_bytes_escape in Hu.
  injection Hu as Hu. apply (f_equal from_utf8) in Hu. rewrite !from_utf8_utf8 in Hu by done. congruence.
Qed.

(** ** Paths of members *)

Lemma split_char_none c s : c ∉ s -> split_char c s = [s].
Proof.
  induction s as [|x s IH]; [done|]. rewrite not_elem_of_cons. intros [Hx Hs]. cbn [split_char].
  rewrite (proj2 (N.eqb_neq _ _)) by congruence. by rewrite IH.
Qed.
Lemma split_char_app c a s : c ∉ a -> split_char c (a ++ c :: s) = a :: split_char c s.
Proof.
  induction a as [|x a IH]; cbn [app split_char]; [by rewrite N.eqb_refl|]. rewrite not_elem_of_cons. intros [Hx Ha].
  rewrite (proj2 (N.eqb_neq _ _)) by congruence. by rewrite IH.
Qed.

Lemma not_in_text c (s : str) : existsb (N.eqb c) s = false -> c ∉ s.
Proof.
  intros E Hin. apply not_true_iff_false in E. apply E. apply existsb_exists. exists c.
  by rewrite N.eqb_refl, <-list_elem_of_In.
Qed.
Definition worker_file (key : str) : str := percent_escape_key key ++ lit ".json".
Lemma worker_file_no_slash key : ch "/" ∉ worker_file key.
Proof. unfold worker_file. rewrite elem_of_app. intros [Hc|Hc]; [by apply escape_no_slash in Hc|]. revert Hc. by apply not_in_text. Qed.
Lemma split_worker_rel_path key : split_char (ch "/") (worker_rel_path key) = [WORKERS_DIR_NAME; worker_file key].
Proof.
  change (worker_rel_path key) with (WORKERS_DIR_NAME ++ ch "/" :: worker_file key).
  rewrite split_char_app by by apply not_in_text. by rewrite split_char_none by apply worker_file_no_slash.
Qed.
Lemma file_stem_rel_path key : file_stem (worker_rel_path key) = percent_escape_key key.
Proof.
  unfold file_stem. rewrite split_worker_rel_path.
  change (default _ (last _)) with (worker_file key). unfold worker_file.
  by rewrite (proj2 (strip_suffix_Some (lit ".json") _ (percent_escape_key key)) eq_refl).
Qed.
Lemma worker_rel_path_inj k l : scalars k -> scalars l -> worker_rel_path k = worker_rel_path l -> k = l.
Proof.
  intros Hk Hl E. apply percent_escape_inj; [done|done|].
  by rewrite <-(file_stem_rel_path k), <-(file_stem_rel_path l), E.
Qed.

(** ** Staging names *)

Definition numeral_char (c : char) : bool := is_ascii_digit c || (c =? ch "+")%N.
Lemma decimal_digits_chars acc s v : decimal_digits acc s = Some v -> Forall (fun c => is_ascii_digit c = true) s.
Proof.
  revert acc. induction s as [|c s IH]; intros acc; cbn [decimal_digits]; [constructor|].
  destruct (is_ascii_digit c) eqn:Hc; [|done]. cbn zeta. case_match; [|done]. intros Hs. constructor; [done|]. by eapply IH.
Qed.
Lemma parse_u32_chars s v : parse_u32 s = Some v -> Forall (fun c => numeral_char c = true) s.
Proof.
  assert (Hw : forall t w, decimal_digits 0 t = Some w -> Forall (fun c => numeral_char c = true) t).
  { intros t w Ht%decimal_digits_chars. eapply Forall_impl; [exact Ht|]. intros c Hc. unfold numeral_char. by rewrite Hc. }
  unfold parse_u32, parse_unsigned. destruct s as [|c [|c' s]]; try done; [by apply Hw|].
  destruct (c =? ch "+")%N eqn:E; cbn [is_empty]; [|by apply Hw].
  intros Hs. constructor; [unfold numeral_char; by rewrite E, orb_true_r|by apply (Hw _ v)].
Qed.

Lemma split_char_join c s : s = join_with [c] (split_char c s).
Proof.
  induction s as [|x s IH]; [done|]. cbn [split_char].
  assert (Hn : split_char c s <> []) by (destruct s; cbn [split_char]; repeat case_match; done).
  destruct (N.eqb_spec x c) as [->|Hx].
  - destruct (split_char c s) as [|p ps]; [done|]. cbn [join_with app]. by f_equal.
  - destruct (split_char c s) as [|p [|q ps]]; [done|cbn [join_with] in *; by subst|].
    cbn [join_with app] in *. by f_equal.
Qed.

(** A stale name ends in a numeral, so it is never the name of a member. *)
Lemma stale_ends_in_numeral name this :
  is_stale_staging_name name this = true -> exists pre c, name = pre ++ [c] /\ numeral_char c = true.
Proof.
  unfold is_stale_staging_name. destruct (strip_prefix _ name) as [rest|] eqn:E1; [|done].
  apply strip_prefix_Some in E1. destruct (find_split _ rest) as [[stem tail]|] eqn:E2; [|done].
  apply find_split_Some in E2. destruct (is_empty stem); [done|].
  pose proof (split_char_join (ch ".") tail) as Hj.
  destruct (split_char (ch ".") tail) as [|pid [|nanos [|seq [|]]]]; try done. cbn [join_with] in Hj.
  intros (((Hlen & Hseq)%andb_prop & _)%andb_prop & _)%andb_prop.
  apply bool_decide_eq_true in Hseq as [v Hv]. apply parse_u32_chars in Hv.
  destruct seq as [|c r _] using rev_ind; [done|].
  exists (lit "." ++ stem ++ lit ".tmp." ++ pid ++ [ch "."] ++ nanos ++ [ch "."] ++ r), c. split.
  - subst name rest tail. by rewrite <-!app_assoc.
  - apply Forall_app in Hv as [_ Hc]. by inversion Hc.
Qed.
Lemma json_never_stale s this : is_stale_staging_name (s ++ lit ".json") this = false.
Proof.
  apply not_true_iff_false. intros (pre & c & E & Hc)%stale_ends_in_numeral.
  change (lit ".json") with (lit ".jso" ++ [ch "n"]) in E. rewrite app_assoc in E.
  apply app_inj_tail in E as [_ <-]. by vm_compute in Hc.
Qed.

(** ** Staging names are recognised *)

Lemma no_dot_digits s : Forall (fun c => is_ascii_digit c = true) s -> ch "." ∉ s.
Proof. intros Hs Hin. rewrite Forall_forall in Hs. apply Hs in Hin. by vm_compute in Hin. Qed.
Lemma pad8_digits n : Forall (fun c => is_ascii_digit c = true) (pad8 n).
Proof. unfold pad8. apply Forall_app. split; [by apply Forall_replicate|apply pretty_digits]. Qed.
Lemma blen_ascii s : Forall (fun c => is_ascii_digit c = true) s -> blen s = length s.
Proof.
  unfold blen. induction 1 as [|c s Hc _ IH]; [done|]. simpl. rewrite IH.
  replace (len_utf8 c) with 1; [done|]. unfold len_utf8. unfold is_ascii_digit, in_range in Hc.
  by replace (c <? 128)%N with true by lia.
Qed.

(** The name the file writer stages a write under is recognised as a
    leftover by every process but the one that made it, whatever the clock and
    below a hundred million writes; the name of a member never is. *)
Theorem staging_name_recognised stem pid nanos seq this :
  stem <> [] -> find_split (lit ".tmp.") (stem ++ lit ".tmp.") = Some (stem, []) ->
  (pid < 2 ^ 32)%N -> (nanos < 1000000000)%N -> (seq < 100000000)%N ->
  is_stale_staging_name (staging_name stem pid nanos seq) this = negb (pid =? this)%N /\
  forall key, is_stale_staging_name (worker_file key) this = false.
Proof.
  intros Hn Hf Hp Hna Hs. split; [|intros key; apply json_never_stale].
  unfold is_stale_staging_name, staging_name.
  rewrite (proj2 (strip_prefix_Some _ _ _) eq_refl), app_assoc, (find_split_app _ _ _ _ _ Hf), app_nil_l.
  destruct stem; [done|]. cbn [is_empty].
  change (lit "." ++ lit (pretty nanos) ++ lit "." ++ pad8 seq) with (ch "." :: lit (pretty nanos) ++ ch "." :: pad8 seq).
  rewrite split_char_app by apply no_dot_digits, pretty_digits.
  rewrite split_char_app by apply no_dot_digits, pretty_digits.
  rewrite split_char_none by apply no_dot_digits, pad8_digits.
  assert (Hl : length (lit (pretty seq)) <= 8) by (apply pretty_length; lia).
  rewrite blen_ascii by apply pad8_digits.
  replace (length (pad8 seq)) with 8 by (unfold pad8; rewrite length_app, length_replicate; lia).
  assert (H8 : parse_u32 (pad8 seq) = Some seq).
  { apply parse_u32_digits; [apply pad8_digits| |].
    - unfold pad8. intros E%app_eq_nil. by destruct E as [_ E%pretty_nonempty].
    - unfold pad8. rewrite decimal_digits_zeros. apply decimal_digits_pretty. lia. }
  rewrite H8, parse_u32_pretty, parse_u32_pretty by lia. done.
Qed.
Lemma staging_name_recognised_witness :
  is_stale_staging_name (lit ".manager.json.tmp.41.123.00000007") 41 = false /\
  is_stale_staging_name (lit ".manager.json.tmp.41.123.00000007") 42 = true.
Proof.
  split.
  - apply (staging_name_recognised (lit "manager.json") 41 123 7 41); [discriminate|by vm_compute|reflexivity..].
  - apply (staging_name_recognised (lit "manager.json") 41 123 7 42); [discriminate|by vm_compute|reflexivity..].
Defined.

(** A worker key survives its file name: the path of its member is two
    names deep, whatever characters the key holds, unescaping the name gives
    the key back, and two keys never share a path. *)
Theorem worker_path_round_trip `{Texts} key :
  scalars key ->
  split_char (ch "/") (worker_rel_path key) = [WORKERS_DIR_NAME; worker_file key] /\
  percent_unescape (file_stem (worker_rel_path key)) = inl key /\
  worker_key_from_rel_path (worker_rel_path key) = key /\
  forall other, scalars other -> worker_rel_path other = worker_rel_path key -> other = key.
Proof.
  intros Hk. unfold worker_key_from_rel_path. rewrite file_stem_rel_path, percent_unescape_escape by done.
  split_and!; [apply split_worker_rel_path|done|done|]. intros other Ho. by apply worker_rel_path_inj.
Qed.
Definition plain_texts : Texts :=
  {| debug_str s := s; debug_time _ := []; show_f64 _ := []; rfc3339 _ := []; show_path p := join_with (lit "/") p;
     io_error _ := lit "I/O error" |}.
Lemma worker_path_round_trip_witness :
  worker_rel_path (lit "coder-t/18#7%") = lit "workers/coder-t%2F18%237%25.json" /\
  @percent_unescape plain_texts (lit "coder-t%2F18%237%25") = inl (lit "coder-t/18#7%").
Proof.
  split; [by vm_compute|].
  assert (Hs : scalars (lit "coder-t/18#7%")) by (repeat constructor).
  exact (proj1 (proj2 (@worker_path_round_trip plain_texts _ Hs))).
Defined.
