(* ===== verification/Commit.v ===== *)
(** * Committing a session bundle ([src/session/commit.rs])

    [write_bundle]: the members first, workers in the order of their paths,
    then the UI, then the manager, and the manifest last; the rename of the
    manifest is the commit.  The JSON of the documents is printed by serde_json
    and read back by it: the parameter [Json].  The capture takes its clock
    readings as arguments; the time a commit took is left out of its report. *)

From S2P Require Import Prelude Str Utf8 Notice Wire Session Registry Journal WorkerRestore Decimal.
From S2P Require Import Normalize Disk Atomic Documents MemberName.
Local Open Scope nat_scope.

(** ** serde_json *)

Record JsonError := { err_text : str; err_line : N; err_column : N }.
(** [to_vec_pretty] and [from_slice] at a type. *)
Class Json (A : Type) := {
  to_vec_pretty : A -> list N + str;
  from_slice : list N -> A + JsonError
}.

(** ** The commit lock *)

Record GuardState := { in_flight : bool; dirty : bool }.
Definition new_lock : GuardState := {| in_flight := false; dirty := false |}.

(** [true]: the caller holds the guard. *)
Definition try_guard (l : GuardState) : bool * GuardState :=
  if in_flight l then (false, {| in_flight := true; dirty := true |})
  else (true, {| in_flight := true; dirty := dirty l |}).
Definition mark_dirty (l : GuardState) : bool * GuardState :=
  (dirty l, {| in_flight := in_flight l; dirty := true |}).
Definition take_dirty (l : GuardState) : bool * GuardState :=
  (dirty l, {| in_flight := in_flight l; dirty := false |}).
(** The drop of the guard. *)
Definition release (l : GuardState) : GuardState := {| in_flight := false; dirty := dirty l |}.

(** ** Payloads and reports *)

Record CapturePayload := {
  cp_manager : ManagerSection;
  cp_ui : option UiSection;
  cp_workers : list WorkerSection;
  cp_floors : IdentityFloors
}.
Record CommitPolicy := { min_interval_ms : N; max_bundle_bytes : N; allow_throttled : bool }.
Definition default_policy : CommitPolicy :=
  {| min_interval_ms := 250; max_bundle_bytes := 32 * 1024 * 1024; allow_throttled := true |}.
Record CommitReport := {
  members_written : list str; members_skipped_identical : nat; manifest_bytes : N; orphans_removed : nat
}.
Inductive CommitError :=
  | CommitIo (p : path)
  | CommitSerialize (detail : str)
  | CommitLocked
  | CommitWrite (p : path) (why : AtomicError).

(** [MemberBytes] *)
Record MemberBytes := {
  mb_rel_path : str; mb_kind : SectionKind; mb_bytes : list N;
  mb_byte_len : N; mb_fingerprint : N; mb_saved : TimePoint
}.
(** [LastCommit]: the length, the fingerprint and the bytes of every member. *)
Abbreviation member_cache := (gmap str (N * N * list N)) (only parsing).
Record LastCommit := {
  lc_bundle : path; lc_session_id : str; lc_manifest : Manifest; lc_members : member_cache
}.

(** The process-wide state of the committer, and the process. *)
Record Committer := {
  last_commit : option LastCommit; size_ceiling_warned : bool; lock : GuardState; process : Process
}.
Definition with_lock (l : GuardState) (c : Committer) : Committer :=
  {| last_commit := last_commit c; size_ceiling_warned := size_ceiling_warned c; lock := l; process := process c |}.
Definition with_process (p : Process) (c : Committer) : Committer :=
  {| last_commit := last_commit c; size_ceiling_warned := size_ceiling_warned c; lock := lock c; process := p |}.
Definition publish (lc : LastCommit) (c : Committer) : Committer :=
  {| last_commit := Some lc; size_ceiling_warned := size_ceiling_warned c; lock := lock c; process := process c |}.

(** The answer is [true] once: the latch stays set. *)
Definition size_ceiling_hit (total_bytes : N) (policy : CommitPolicy) (c : Committer) : bool * Committer :=
  if (total_bytes <=? max_bundle_bytes policy)%N then (false, c)
  else (negb (size_ceiling_warned c),
        {| last_commit := last_commit c; size_ceiling_warned := true; lock := lock c; process := process c |}).

(** A name below the bundle; the names of the members end in no [.] or [..]. *)
Definition member_path (bundle : path) (rel : str) : path := bundle ++ split_char (ch "/") rel.

Definition writable_ending (e : ProcessEnding) : ProcessEnding :=
  match e with HardKillInferred => EndInProgress | _ => e end.

Section commit.
Context `{Texts} `{Faults} `{DashOrder}.
Context `{Json Manifest} `{Json ManagerFile} `{Json UiFile} `{Json WorkerFile}.
Context (nanos_at : N -> N).

Definition header (sid : str) (k : SectionKind) (saved : TimePoint) : SectionHeader :=
  {| h_format_version := FORMAT_VERSION; h_schema_version := SCHEMA_VERSION; h_session_id := sid; h_kind := k;
     h_saved_wall := tp_wall saved; h_saved_elapsed_secs := elapsed_secs saved;
     member_count := 1; member_index := 0 |}.

(** [MemberBytes::new]: the value is serialized once, and measured. *)
Definition new_member {A} `{Json A} (rel : str) (k : SectionKind) (saved : TimePoint) (value : A)
    : MemberBytes + CommitError :=
  match to_vec_pretty value with
  | inl bytes =>
      inl {| mb_rel_path := rel; mb_kind := k; mb_bytes := bytes; mb_byte_len := N.of_nat (length bytes);
             mb_fingerprint := fingerprint bytes; mb_saved := saved |}
  | inr why => inr (CommitSerialize (lit "serializing bundle member failed: " ++ why))
  end.

(** ** Clock checks before anything is written *)

Definition worker_times (w : WorkerSection) : list (str * option TimePoint) :=
  [(lit "started", Some (started w)); (lit "completed", completed w); (lit "last_activity", last_activity w)].
(** The readings a commit looks at, with the member and the field of each. *)
Definition at_site (site : str) (l : list (str * option TimePoint)) : list (str * str * TimePoint) :=
  omap (fun e => (fun t => (site, fst e, t)) <$> snd e) l.
Definition payload_times (p : CapturePayload) : list (str * str * TimePoint) :=
  concat (map (fun w => at_site (worker_rel_path (worker_key w)) (worker_times w)) (cp_workers p)) ++
  match cp_ui p with
  | Some u => concat (map (fun q => at_site (UI_FILE ++ lit " subagent " ++ panel_name q) (panel_times q)) (subagent_panels u)) ++
              at_site UI_FILE (ui_times u)
  | None => []
  end.
Definition clock_offenders (p : CapturePayload) : list str :=
  map (fun '(site, field, t) => site ++ lit " " ++ field ++ lit " elapsed_secs = " ++ show_f64 (elapsed_secs t))
    (List.filter (fun '(_, _, t) => negb (is_finite (elapsed_secs t))) (payload_times p)).
Definition check_time_points (p : CapturePayload) : option CommitError :=
  match clock_offenders p with
  | [] => None
  | offenders =>
      Some (CommitSerialize (lit "A " ++ [167%N] ++ lit "5.6: " ++ join_with (lit "; ") offenders ++
        lit " carry a non-finite monotonic offset " ++ EM_DASH ++ lit " NaN/" ++ [177%N] ++
        lit "infinity cannot become a JSON number (`serde_json` writes `null`, a silent default), so the commit is refused before C1: nothing was written, the bundle is untouched, and the value is never defaulted to now"))
  end.

(** ** The members, in write order *)

Definition by_rel_path (a b : WorkerSection) : bool :=
  id_leb (worker_rel_path (worker_key a)) (worker_rel_path (worker_key b)).
Definition worker_member (sid : str) (saved : TimePoint) (w : WorkerSection) : MemberBytes + CommitError :=
  new_member (worker_rel_path (worker_key w)) KWorker saved
    {| worker_header := header sid KWorker saved; worker_section := w |}.
Definition ui_member (sid : str) (saved : TimePoint) (u : UiSection) : MemberBytes + CommitError :=
  new_member UI_FILE KUi saved {| ui_header := header sid KUi saved; ui_section := u |}.
Definition manager_member (sid : str) (saved : TimePoint) (m : ManagerSection) : MemberBytes + CommitError :=
  new_member MANAGER_FILE KManager saved {| manager_header := header sid KManager saved; manager_section := m |}.

(** The members, or the first error. *)
Fixpoint collect (l : list (MemberBytes + CommitError)) : list MemberBytes + CommitError :=
  match l with
  | [] => inl []
  | inl m :: l' => match collect l' with inl ms => inl (m :: ms) | inr e => inr e end
  | inr e :: _ => inr e
  end.
Definition assemble_members (sid : str) (saved : TimePoint) (p : CapturePayload) : list MemberBytes + CommitError :=
  match check_time_points p with
  | Some e => inr e
  | None =>
      collect (map (worker_member sid saved) (sort_with by_rel_path (cp_workers p)) ++
               match cp_ui p with Some u => [ui_member sid saved u] | None => [] end ++
               [manager_member sid saved (cp_manager p)])
  end.

Definition previous_members (bundle : path) (sid : str) (c : Committer) : member_cache :=
  match last_commit c with
  | Some l => if bool_decide (lc_bundle l = bundle) && str_eqb (lc_session_id l) sid then lc_members l else ∅
  | None => ∅
  end.
Definition last_manifest (bundle : path) (c : Committer) : option Manifest :=
  match last_commit c with
  | Some l => if bool_decide (lc_bundle l = bundle) then Some (lc_manifest l) else None
  | None => None
  end.

(** ** Writing *)

Definition ensure_parent_dir (p : path) (q : Process) : option CommitError * Process :=
  let '(ok, q') := on_calls (create_dir_all (parent p)) q in
  ((if ok : bool then None else Some (CommitIo (parent p))), q').
(** A file of the bundle: its folder, then its bytes. *)
Definition put (p : path) (bytes : list N) (q : Process) : option CommitError * Process :=
  match ensure_parent_dir p q with
  | (Some e, q1) => (Some e, q1)
  | (None, q1) =>
      match write_file_atomic nanos_at p bytes q1 with
      | (inl _, q2) => (None, q2)
      | (inr e, q2) => (Some (CommitWrite p e), q2)
      end
  end.

Definition cache_entry (m : MemberBytes) : N * N * list N := (mb_byte_len m, mb_fingerprint m, mb_bytes m).
Definition identical (cached : member_cache) (m : MemberBytes) : bool :=
  bool_decide (cached !! mb_rel_path m = Some (cache_entry m)).
(** C3: the members written and the number skipped, or the first error. *)
Fixpoint write_members (bundle : path) (cached : member_cache) (ms : list MemberBytes) (q : Process)
    : (list str * nat + CommitError) * Process :=
  match ms with
  | [] => (inl ([], 0), q)
  | m :: ms' =>
      let next written skipped q :=
        match write_members bundle cached ms' q with
        | (inl (w, k), q') => (inl (written ++ w, skipped + k), q')
        | (inr e, q') => (inr e, q')
        end in
      if identical cached m then next [] 1 q
      else match put (member_path bundle (mb_rel_path m)) (mb_bytes m) q with
           | (Some e, q') => (inr e, q')
           | (None, q') => next [mb_rel_path m] 0 q'
           end
  end.

(** C5 *)
Definition remove_orphan (p : path) (acc : nat * Process) : nat * Process :=
  let '(ok, q) := on_calls (remove_file p) (snd acc) in
  (if ok : bool then S (fst acc) else fst acc, q).
Definition sweep_dir (dir : path) (doomed : str -> bool) (acc : nat * Process) : nat * Process :=
  match on_calls (read_dir dir) (snd acc) with
  | (Some names, q) =>
      fold_left (fun acc name => remove_orphan (dir ++ [name]) acc) (List.filter doomed names) (fst acc, q)
  | (None, q) => (fst acc, q)
  end.
Definition listed_paths (m : Manifest) : list str := map rel_path (members m).
Definition doomed_worker (listed : list str) (this_pid : N) (name : str) : bool :=
  if starts_with (lit ".") name then is_stale_staging_name name this_pid
  else ends_with (lit ".json") name && negb (str_mem (WORKERS_DIR_NAME ++ lit "/" ++ name) listed).
Definition sweep_orphans (bundle : path) (m : Manifest) (q : Process) : nat * Process :=
  sweep_dir bundle (fun name => is_stale_staging_name name (pid q))
    (sweep_dir (bundle ++ [WORKERS_DIR_NAME]) (doomed_worker (listed_paths m) (pid q)) (0, q)).

Definition manifest_member (m : MemberBytes) : ManifestMember :=
  {| mm_kind := mb_kind m; rel_path := mb_rel_path m; byte_len := mb_byte_len m; mm_fingerprint := mb_fingerprint m;
     mm_saved_wall := tp_wall (mb_saved m); mm_saved_elapsed_secs := elapsed_secs (mb_saved m) |}.
Definition new_manifest (sid : str) (end_ : ProcessEnding) (f : IdentityFloors) (anchor committed : Now)
    (ms : list MemberBytes) : Manifest :=
  {| format_version := FORMAT_VERSION; schema_version := SCHEMA_VERSION; session_id := sid;
     committed_wall := wall committed; anchor_wall := wall anchor; ending := end_;
     identity_floors := f; members := map manifest_member ms |}.

(** C1 to C5, under the guard. *)
Definition commit_under_guard (bundle : path) (sid : str) (p : CapturePayload) (end_ : ProcessEnding)
    (policy : CommitPolicy) (anchor captured committed : Now) (c : Committer)
    : (CommitReport + CommitError) * Committer :=
  match assemble_members sid (time_now anchor captured) p with
  | inr e => (inr e, c)
  | inl ms =>
      let '(_, c1) := size_ceiling_hit (foldr N.add 0%N (map mb_byte_len ms)) policy c in
      match write_members bundle (previous_members bundle sid c1) ms (process c1) with
      | (inr e, q) => (inr e, with_process q c1)
      | (inl (written, skipped), q) =>
          let m := new_manifest sid (writable_ending end_) (cp_floors p) anchor committed ms in
          match to_vec_pretty m with
          | inr why => (inr (CommitSerialize (lit "serializing bundle member failed: " ++ why)), with_process q c1)
          | inl bytes =>
              match put (member_path bundle MANIFEST_FILE) bytes q with
              | (Some e, q') => (inr e, with_process q' c1)
              | (None, q') =>
                  let '(removed, q'') := sweep_orphans bundle m q' in
                  (inl {| members_written := written; members_skipped_identical := skipped;
                          manifest_bytes := N.of_nat (length bytes); orphans_removed := removed |},
                   publish {| lc_bundle := bundle; lc_session_id := sid; lc_manifest := m;
                              lc_members := list_to_map (rev (map (fun m => (mb_rel_path m, cache_entry m)) ms)) |}
                     (with_process q'' c1))
              end
          end
      end
  end.

(** The guard is taken without blocking and dropped at the end. *)
Definition write_bundle (bundle : path) (sid : str) (p : CapturePayload) (end_ : ProcessEnding)
    (policy : CommitPolicy) (anchor captured committed : Now) (c : Committer)
    : (CommitReport + CommitError) * Committer :=
  let '(held, l) := try_guard (lock c) in
  if held then
    let '(r, c') := commit_under_guard bundle sid p end_ policy anchor captured committed (with_lock l c) in
    (r, with_lock (release (lock c')) c')
  else (inr CommitLocked, with_lock l c).

End commit.

(** ** What serde_json promises *)

(** Reading back what was printed gives the value, when its floats are finite:
    a number that is not prints as [null]. *)
Class JsonLaw (A : Type) `{Json A} (finite : A -> Prop) :=
  from_to : forall x bytes, finite x -> to_vec_pretty x = inl bytes -> from_slice bytes = inl x.

Definition header_finite (h : SectionHeader) : Prop := is_finite (h_saved_elapsed_secs h) = true.
Definition times_finite (l : list (str * option TimePoint)) : Prop :=
  Forall (fun e => match snd e with Some t => is_finite (elapsed_secs t) = true | None => True end) l.
Definition worker_finite (w : WorkerSection) : Prop := times_finite (worker_times w) /\ is_finite (worked_secs w) = true.
Definition ui_finite (u : UiSection) : Prop :=
  times_finite (ui_times u) /\
  Forall (fun q => times_finite (panel_times q) /\ is_finite (worked_duration_secs q) = true) (subagent_panels u).
Definition manifest_finite (m : Manifest) : Prop := Forall (fun mm => is_finite (mm_saved_elapsed_secs mm) = true) (members m).
