(* ===== verification/CommitFacts.v ===== *)
(** * Facts of committing a bundle

    The files of a bundle have distinct paths, none of which is a staging name
    or one of the folders above them; writing one file leaves the others, and
    the sweep leaves every listed member. *)

From S2P Require Import Prelude Str Utf8 Decimal Notice Registry Journal WorkerRestore Session.
From S2P Require Import Normalize Disk DiskFacts Atomic Documents MemberName Commit.
Local Open Scope nat_scope.

(** ** Paths *)

Lemma folders_of_take p x : x ∈ folders_of p -> x = take (length x) p /\ length x <= length p.
Proof.
  unfold folders_of. intros (n & -> & Hn)%list_elem_of_fmap. apply elem_of_seq in Hn.
  rewrite length_take, Nat.min_l by lia. split; [done|lia].
Qed.
Lemma folders_of_app p n x : x ∈ folders_of (p ++ [n]) <-> x ∈ folders_of p \/ x = p ++ [n].
Proof.
  unfold folders_of. rewrite length_app. cbn [length]. rewrite Nat.add_1_r, seq_S, map_app, elem_of_app.
  cbn [map]. rewrite list_elem_of_singleton, (firstn_all2 (n := 0 + _) (p ++ [n])) by (rewrite length_app; simpl; lia).
  assert (E : map (fun k => take k (p ++ [n])) (seq 0 (S (length p))) = map (fun k => take k p) (seq 0 (S (length p)))).
  { apply map_ext_in. intros k Hk. apply in_seq in Hk. apply take_app_le. lia. }
  by rewrite E.
Qed.

(** The relative paths of a bundle's files. *)
Inductive bundle_rel : str -> Prop :=
  | rel_ui : bundle_rel UI_FILE
  | rel_manager : bundle_rel MANAGER_FILE
  | rel_manifest : bundle_rel MANIFEST_FILE
  | rel_worker key : bundle_rel (worker_rel_path key).

Lemma member_path_worker b key : member_path b (worker_rel_path key) = (b ++ [WORKERS_DIR_NAME]) ++ [worker_file key].
Proof. unfold member_path. by rewrite split_worker_rel_path, <-app_assoc. Qed.
Lemma member_path_inj b r s : member_path b r = member_path b s -> r = s.
Proof.
  unfold member_path. intros E%app_inv_head. by rewrite (split_char_join (ch "/") r), (split_char_join (ch "/") s), E.
Qed.
Lemma bundle_rel_cases b r :
  bundle_rel r ->
  exists dir s, member_path b r = dir ++ [s ++ lit ".json"] /\
    (dir = b /\ r = s ++ lit ".json" \/ dir = b ++ [WORKERS_DIR_NAME] /\ r = WORKERS_DIR_NAME ++ lit "/" ++ s ++ lit ".json").
Proof.
  intros [ | | |key].
  - exists b, (lit "ui"). by split; [|left].
  - exists b, (lit "manager"). by split; [|left].
  - exists b, (lit "manifest"). by split; [|left].
  - exists (b ++ [WORKERS_DIR_NAME]), (percent_escape_key key). by rewrite member_path_worker; split; [|right].
Qed.
Lemma parent_app (p : path) n : parent (p ++ [n]) = p.
Proof. apply removelast_last. Qed.

Lemma no_json_folder b r x :
  bundle_rel r -> member_path b x ∈ folders_of (parent (member_path b r)) -> ~ bundle_rel x.
Proof.
  intros Hr Hin Hx. destruct (bundle_rel_cases b r Hr) as (dir & s & E & Hd). rewrite E, parent_app in Hin.
  destruct (bundle_rel_cases b x Hx) as (dir' & s' & E' & Hd'). rewrite E' in Hin.
  assert (Hb : forall y, b ++ y ∈ folders_of b -> y = []).
  { intros y [_ Hl]%folders_of_take. rewrite length_app in Hl. destruct y; [done|simpl in Hl; lia]. }
  destruct Hd as [[-> _]|[-> _]], Hd' as [[-> _]|[-> _]].
  - by apply Hb in Hin.
  - rewrite <-app_assoc in Hin. by apply Hb in Hin.
  - apply folders_of_app in Hin as [Hin|Hin]; [by apply Hb in Hin|].
    apply app_inj_tail in Hin as [_ Hin]. apply (f_equal last) in Hin. by rewrite last_app in Hin.
  - apply folders_of_app in Hin as [Hin|Hin]; [rewrite <-app_assoc in Hin; by apply Hb in Hin|].
    apply (f_equal length) in Hin. rewrite !length_app in Hin. simpl in Hin. lia.
Qed.

(** A staged name is not the name of a file of the bundle. *)
Lemma staged_not_member b r target p nanos seq :
  bundle_rel r -> member_path b r <> parent target ++ [staging_name (staging_stem target) (pid p) nanos seq].
Proof.
  intros Hr E. destruct (bundle_rel_cases b r Hr) as (dir & s & E' & _). rewrite E' in E.
  apply app_inj_tail in E as [_ E]. unfold staging_name in E.
  assert (Hd : exists d c, pad8 seq = d ++ [c] /\ is_ascii_digit c = true).
  { pose proof (pad8_digits seq) as Hf. destruct (pad8 seq) as [|c d _] eqn:Ep using rev_ind.
    - unfold pad8 in Ep. apply app_eq_nil in Ep as [_ Ep]. by apply pretty_nonempty in Ep.
    - exists d, c. split; [done|]. apply Forall_app in Hf as [_ Hf]. by inversion Hf. }
  destruct Hd as (d & c & Hd & Hc). rewrite Hd in E. rewrite !app_assoc in E.
  change (lit ".json") with (lit ".jso" ++ [ch "n"]) in E. rewrite app_assoc in E.
  apply app_inj_tail in E as [_ <-]. by vm_compute in Hc.
Qed.

(** ** Writing one file *)

Section facts.
Context `{Texts} `{Faults} `{DashOrder}.
Context `{Json Manifest} `{Json ManagerFile} `{Json UiFile} `{Json WorkerFile}.
Context (nanos_at : N -> N).
Implicit Types (q : Process) (b : path) (t : Tree).

(** The folders above a path are there. *)
Definition reachable t (p : path) : Prop := forall x, x ∈ folders_of (parent p) -> is_folder t x = true.
(** Nothing that was there is lost, but at the paths [X]. *)
Definition keeps (X : path -> Prop) t t' : Prop := forall x n, ~ X x -> t !! x = Some n -> t' !! x = Some n.
(** The files of the bundle but those in [X] are the same. *)
Definition same_files b (X : str -> Prop) t t' : Prop :=
  forall r, bundle_rel r -> ~ X r -> t' !! member_path b r = t !! member_path b r.

Lemma keeps_trans (X Y Z : path -> Prop) t t' t'' :
  keeps X t t' -> keeps Y t' t'' -> (forall x, X x -> Z x) -> (forall x, Y x -> Z x) -> keeps Z t t''.
Proof. intros H1' H2' HX HY x n Hx Hn. apply H2'; [by intros ?%HY|]. apply H1'; [by intros ?%HX|done]. Qed.
Lemma same_files_trans b (X Y Z : str -> Prop) t t' t'' :
  same_files b X t t' -> same_files b Y t' t'' -> (forall x, X x -> Z x) -> (forall x, Y x -> Z x) -> same_files b Z t t''.
Proof. intros H1' H2' HX HY r Hr Hz. rewrite H2', H1'; [done|done|by intros ?%HX|done|by intros ?%HY]. Qed.
Lemma keeps_reachable (X : path -> Prop) t t' p :
  keeps X t t' -> reachable t p -> (forall x, x ∈ folders_of (parent p) -> ~ X x) -> reachable t' p.
Proof.
  intros Hk Hr HX x Hx. specialize (Hr x Hx). unfold is_folder in *.
  destruct (t !! x) as [n|] eqn:E; [|done]. by rewrite (Hk x n (HX x Hx) E).
Qed.

Lemma put_spec b r bytes q :
  bundle_rel r ->
  let p := member_path b r in
  match put nanos_at p bytes q with
  | (None, q') => pid q' = pid q /\ ptree q' !! p = Some (BinaryFile bytes) /\ reachable (ptree q') p /\
      same_files b (eq r) (ptree q) (ptree q') /\ keeps (eq p) (ptree q) (ptree q')
  | (Some _, q') => pid q' = pid q /\ same_files b (fun _ => False) (ptree q) (ptree q') /\
      keeps (fun _ => False) (ptree q) (ptree q')
  end.
Proof.
  intros Hr p. unfold put, ensure_parent_dir, on_calls.
  destruct (create_dir_all (parent p) (proc_disk q)) as [ok d1] eqn:E1.
  set (q1 := with_disk q d1).
  assert (Hg : keeps (fun _ => False) (ptree q) (ptree q1)).
  { intros x n _ Hn. change (ptree q1) with (tree (snd (ok, d1))). rewrite <-E1. by apply create_dir_all_grows. }
  assert (Hs : same_files b (fun _ => False) (ptree q) (ptree q1)).
  { intros s Hs' _. change (ptree q1) with (tree (snd (ok, d1))). rewrite <-E1. apply create_dir_all_other.
    intros Hin. by apply (no_json_folder b r s Hr Hin). }
  destruct ok; [|done].
  assert (Hre : reachable (ptree q1) p) by (intros x Hx; by apply (create_dir_all_ok _ _ _ x E1)).
  pose proof (write_file_atomic_cases nanos_at p bytes q1) as Hw. cbv zeta in Hw.
  assert (Hn : ~ exists nanos seq, p = parent p ++ [staging_name (staging_stem p) (pid q1) nanos seq]).
  { intros (nanos & seq & E). by apply (staged_not_member b r p q1 nanos seq Hr). }
  specialize (Hw Hn). destruct (write_file_atomic nanos_at p bytes q1) as [[u|e] q2].
  - destruct Hw as (Ht & Hp & Ho). split_and!; [by rewrite Hp|done| | |].
    + intros x Hx. specialize (Hre x Hx). unfold is_folder in *. rewrite Ho; [done|]. intros ->.
      by apply (no_json_folder b r r Hr Hx).
    + intros s Hs' Hne. rewrite Ho; [by apply Hs; [|intros []]|]. intros E. apply Hne. by apply member_path_inj in E.
    + intros x n Hx Hn'. rewrite Ho by congruence. by apply Hg; [intros []|].
  - destruct Hw as (Hp & Ho). split_and!; [by rewrite Hp| |].
    + intros s Hs' _. rewrite <-(Hs s Hs') by tauto.
      destruct (decide (ptree q2 !! member_path b s = ptree q1 !! member_path b s)) as [|Hne]; [done|].
      destruct (Ho _ Hne) as ((nanos & seq & E) & _). by destruct (staged_not_member b s p q1 nanos seq Hs').
    + intros x n _ Hn'. apply Hg in Hn'; [|tauto].
      destruct (decide (ptree q2 !! x = ptree q1 !! x)) as [->|Hne]; [done|].
      destruct (Ho _ Hne) as (_ & E & _). congruence.
Qed.

(** ** Writing the members *)

(** A file holds exactly these bytes, in folders that are there. *)
Definition present b t (r : str) (bytes : list N) : Prop :=
  t !! member_path b r = Some (BinaryFile bytes) /\ reachable t (member_path b r).
Definition rels (ms : list MemberBytes) : list str := map mb_rel_path ms.
Definition at_rels b (rs : list str) (x : path) : Prop := exists r, r ∈ rs /\ x = member_path b r.
(** Only the files [rs] of the bundle are touched, and nothing else is lost. *)
Definition wrote b (rs : list str) t t' : Prop :=
  same_files b (fun r => r ∈ rs) t t' /\ keeps (at_rels b rs) t t'.

Lemma wrote_refl b rs t : wrote b rs t t.
Proof. split; [by intros r _ _|by intros x n _ Hn]. Qed.
Lemma wrote_trans b rs ss us t t' t'' :
  wrote b rs t t' -> wrote b ss t' t'' -> (forall r, r ∈ rs -> r ∈ us) -> (forall r, r ∈ ss -> r ∈ us) -> wrote b us t t''.
Proof.
  intros [Hs Hk] [Hs' Hk'] Hr Hr'. split; [by eapply same_files_trans|].
  eapply keeps_trans; [exact Hk|exact Hk'| |]; intros x (r & ? & ->); exists r; auto.
Qed.

Lemma wrote_folders b rs t t' r :
  Forall bundle_rel rs -> bundle_rel r -> wrote b rs t t' ->
  reachable t (member_path b r) -> reachable t' (member_path b r).
Proof.
  intros Hrs Hr [_ Hk] Hre. apply (keeps_reachable _ _ _ _ Hk Hre). intros x Hx (s & Hs & ->).
  rewrite Forall_forall in Hrs. by apply (no_json_folder b r s Hr Hx), Hrs.
Qed.
Lemma wrote_present b rs t t' r bytes :
  Forall bundle_rel rs -> bundle_rel r -> r ∉ rs -> wrote b rs t t' -> present b t r bytes -> present b t' r bytes.
Proof.
  intros Hrs Hr Hn Hw [Ht Hre]. split; [|by eapply wrote_folders].
  destruct Hw as [Hs _]. by rewrite (Hs r Hr Hn).
Qed.

(** One member: written, or left when the cache has it. *)
Definition write_one b (cached : member_cache) (m : MemberBytes) (q : Process) : option CommitError * Process :=
  if identical cached m then (None, q) else put nanos_at (member_path b (mb_rel_path m)) (mb_bytes m) q.
Lemma put_wrote b r bytes q :
  bundle_rel r ->
  match put nanos_at (member_path b r) bytes q with
  | (None, q') => pid q' = pid q /\ present b (ptree q') r bytes /\ wrote b [r] (ptree q) (ptree q')
  | (Some _, q') => pid q' = pid q /\ wrote b [] (ptree q) (ptree q')
  end.
Proof.
  intros Hr. pose proof (put_spec b r bytes q Hr) as Hp. cbv zeta in Hp.
  destruct (put _ _ _ q) as [[e|] q1].
  - destruct Hp as (Hp & Hs & Hk). split; [done|]. split.
    + intros s Hs' _. by apply Hs; [|intros []].
    + intros x n _. by apply Hk; intros [].
  - destruct Hp as (Hp & Ht & Hre & Hs & Hk). split_and!; [done|done|]. split.
    + intros s Hs' Hn. apply Hs; [done|]. intros <-. apply Hn. by left.
    + intros x n Hx. apply Hk. intros <-. apply Hx. exists r. split; [by left|done].
Qed.
Lemma write_one_spec b cached m q :
  bundle_rel (mb_rel_path m) -> (identical cached m = true -> present b (ptree q) (mb_rel_path m) (mb_bytes m)) ->
  match write_one b cached m q with
  | (None, q') => pid q' = pid q /\ present b (ptree q') (mb_rel_path m) (mb_bytes m) /\
      wrote b [mb_rel_path m] (ptree q) (ptree q')
  | (Some _, q') => pid q' = pid q /\ wrote b [] (ptree q) (ptree q')
  end.
Proof.
  intros Hm Hc. unfold write_one. destruct (identical cached m); [|by apply put_wrote].
  split_and!; [done|by apply Hc|apply wrote_refl].
Qed.
Lemma write_members_cons b cached m ms q :
  write_members nanos_at b cached (m :: ms) q =
    match write_one b cached m q with
    | (Some e, q1) => (inr e, q1)
    | (None, q1) =>
        match write_members nanos_at b cached ms q1 with
        | (inl (w, k), q') =>
            (inl (if identical cached m then (w, S k) else (mb_rel_path m :: w, k)), q')
        | (inr e, q') => (inr e, q')
        end
    end.
Proof.
  cbn [write_members]. unfold write_one. destruct (identical cached m).
  - by destruct (write_members _ b cached ms q) as [[[w k]|e] q'].
  - destruct (put _ _ _ q) as [[e|] q1]; [done|]. by destruct (write_members _ b cached ms q1) as [[[w k]|e] q'].
Qed.

Lemma identical_entry cached m : identical cached m = true <-> cached !! mb_rel_path m = Some (cache_entry m).
Proof. unfold identical. apply bool_decide_eq_true. Qed.

Lemma write_members_spec b cached ms q :
  Forall bundle_rel (rels ms) -> NoDup (rels ms) ->
  (forall m, m ∈ ms -> identical cached m = true -> present b (ptree q) (mb_rel_path m) (mb_bytes m)) ->
  match write_members nanos_at b cached ms q with
  | (inl (w, k), q') => pid q' = pid q /\ length w + k = length ms /\
      (forall m, m ∈ ms -> present b (ptree q') (mb_rel_path m) (mb_bytes m)) /\
      wrote b (rels ms) (ptree q) (ptree q')
  | (inr _, q') => pid q' = pid q /\ wrote b (rels ms) (ptree q) (ptree q')
  end.
Proof.
  revert q. induction ms as [|m ms IH]; intros q Hb Hd Hc.
  { cbn [write_members]. split_and!; [done|done|by intros m Hm%not_elem_of_nil|apply wrote_refl]. }
  rewrite write_members_cons. cbn [rels map] in Hb, Hd |- *. fold (rels ms) in *.
  inversion_clear Hb as [|? ? Hm Hms]. inversion_clear Hd as [|? ? Hnew Hd'].
  pose proof (write_one_spec b cached m q Hm (Hc m (list_elem_of_here _ _))) as H1'.
  destruct (write_one b cached m q) as [[e|] q1].
  { destruct H1' as [Hp Hw]. split; [done|]. eapply wrote_trans; [exact Hw|apply wrote_refl|by intros ? ?%not_elem_of_nil|].
    intros r Hr. exact Hr. }
  destruct H1' as (Hp1 & Hpr1 & Hw1).
  assert (Hne : forall m', m' ∈ ms -> mb_rel_path m' ∉ [mb_rel_path m] /\ bundle_rel (mb_rel_path m')).
  { intros m' Hm'. pose proof (list_elem_of_fmap_2 mb_rel_path ms m' Hm') as Hin. split.
    - intros E%list_elem_of_singleton. apply Hnew. by rewrite <-E.
    - rewrite Forall_forall in Hms. by apply Hms. }
  assert (Hc1 : forall m', m' ∈ ms -> identical cached m' = true -> present b (ptree q1) (mb_rel_path m') (mb_bytes m')).
  { intros m' Hm' Hi. destruct (Hne m' Hm'). apply (wrote_present b [mb_rel_path m] (ptree q)); try done.
    - by constructor; [|constructor].
    - apply Hc; [by right|done]. }
  specialize (IH q1 Hms Hd' Hc1).
  assert (Hlift : forall t, wrote b (rels ms) (ptree q1) t -> wrote b (mb_rel_path m :: rels ms) (ptree q) t).
  { intros t Ht. eapply wrote_trans; [exact Hw1|exact Ht| |by right]. intros r Hr%list_elem_of_singleton. rewrite Hr. by left. }
  destruct (write_members _ b cached ms q1) as [[[w k]|e] q'].
  - destruct IH as (Hp & Hl & Hpr & Hw).
    assert (Hall : forall m', m' ∈ m :: ms -> present b (ptree q') (mb_rel_path m') (mb_bytes m')).
    { intros m' [->|Hm']%elem_of_cons; [by apply (wrote_present b (rels ms) (ptree q1))|by apply Hpr]. }
    destruct (identical cached m); (split_and!; [congruence|simpl; lia|done|by apply Hlift]).
  - destruct IH as (Hp & Hw). split; [congruence|by apply Hlift].
Qed.

End facts.

(** ** Assembling the members *)

Section members.
Context `{Texts} `{Faults} `{DashOrder}.
Context `{Json Manifest} `{Json ManagerFile} `{Json UiFile} `{Json WorkerFile}.
Implicit Types (q : Process) (b : path) (t : Tree).

Lemma collect_inl l ms : collect l = inl ms -> l = map inl ms.
Proof.
  revert ms. induction l as [|[m|e] l IH]; intros ms; cbn [collect]; [by intros [= <-]| |done].
  destruct (collect l) as [ms'|e]; [|done]. intros [= <-]. cbn [map]. by rewrite (IH ms').
Qed.
Lemma new_member_inl {A} `{Json A} rel k saved (value : A) m :
  new_member rel k saved value = inl m ->
  to_vec_pretty value = inl (mb_bytes m) /\
  m = {| mb_rel_path := rel; mb_kind := k; mb_bytes := mb_bytes m; mb_byte_len := N.of_nat (length (mb_bytes m));
         mb_fingerprint := fingerprint (mb_bytes m); mb_saved := saved |}.
Proof. unfold new_member. destruct (to_vec_pretty value); [|done]. by intros [= <-]. Qed.

Definition ui_members (sid : str) (saved : TimePoint) (p : CapturePayload) : list (MemberBytes + CommitError) :=
  match cp_ui p with Some u => [ui_member sid saved u] | None => [] end.
Lemma assemble_inl sid saved p ms :
  assemble_members sid saved p = inl ms ->
  check_time_points p = None /\ exists wms ums mm, ms = wms ++ ums ++ [mm] /\
    map (worker_member sid saved) (sort_with by_rel_path (cp_workers p)) = map inl wms /\
    ui_members sid saved p = map inl ums /\ manager_member sid saved (cp_manager p) = inl mm.
Proof.
  unfold assemble_members. destruct (check_time_points p); [done|]. intros E%collect_inl. split; [done|].
  symmetry in E. apply map_eq_app in E as (wms & rest & -> & Ew & E).
  apply map_eq_app in E as (ums & [|mm [|]] & -> & Eu & Em); try done.
  exists wms, ums, mm. by injection Em as <-.
Qed.

(** What every member is: its bytes measured, at its own path. *)
Definition measured (m : MemberBytes) : Prop :=
  mb_byte_len m = N.of_nat (length (mb_bytes m)) /\ mb_fingerprint m = fingerprint (mb_bytes m).
Lemma worker_members_spec sid saved ws wms :
  map (worker_member sid saved) ws = map inl wms ->
  rels wms = map (fun w => worker_rel_path (worker_key w)) ws /\ Forall measured wms.
Proof.
  revert wms. induction ws as [|w ws IH]; intros [|m wms]; try done. cbn [map]. intros [= Em E].
  destruct (IH wms E) as [Hr Hm]. apply new_member_inl in Em as [_ ->]. cbn [rels map mb_rel_path]. split.
  - f_equal. exact Hr.
  - by constructor.
Qed.
Definition distinct_keys (p : CapturePayload) : Prop :=
  NoDup (map worker_key (cp_workers p)) /\ Forall scalars (map worker_key (cp_workers p)).
Definition worker_rels (ws : list WorkerSection) : list str := map (fun w => worker_rel_path (worker_key w)) ws.
Lemma worker_rels_nodup p : distinct_keys p -> NoDup (worker_rels (sort_with by_rel_path (cp_workers p))).
Proof.
  intros [Hd Hs]. unfold worker_rels. rewrite (sort_with_perm by_rel_path (cp_workers p)), <-(map_map worker_key worker_rel_path).
  apply NoDup_fmap_2_strong; [|done]. rewrite Forall_forall in Hs. intros x y Hx Hy. by apply worker_rel_path_inj; apply Hs.
Qed.
Lemma worker_rel_not_fixed key : worker_rel_path key ∉ [UI_FILE; MANAGER_FILE; MANIFEST_FILE].
Proof.
  intros Hin. assert (Hs : existsb (N.eqb (ch "/")) (worker_rel_path key) = false).
  { rewrite !elem_of_cons in Hin. destruct Hin as [->|[->|[->|Hin%not_elem_of_nil]]]; done. }
  change (worker_rel_path key) with (WORKERS_DIR_NAME ++ lit "/" ++ worker_file key) in Hs.
  rewrite !existsb_app in Hs. apply orb_false_iff in Hs as [_ Hs]. by apply orb_false_iff in Hs as [Hs _].
Qed.
Lemma ui_members_spec sid saved p ums :
  ui_members sid saved p = map inl ums ->
  (rels ums = [] \/ rels ums = [UI_FILE]) /\ Forall measured ums.
Proof.
  unfold ui_members. destruct (cp_ui p); destruct ums as [|um [|]]; try done; [|by intros _; split; [left|]].
  intros [= Eu]. apply new_member_inl in Eu as [_ ->]. split; [by right|by constructor].
Qed.
Lemma assemble_members_spec sid saved p ms :
  distinct_keys p -> assemble_members sid saved p = inl ms ->
  Forall bundle_rel (rels ms) /\ NoDup (rels ms) /\ MANIFEST_FILE ∉ rels ms /\ Forall measured ms.
Proof.
  intros Hd (_ & wms & ums & mm & -> & Ew & Eu & Em)%assemble_inl.
  apply worker_members_spec in Ew as [Hw Hwm]. apply new_member_inl in Em as [_ Em].
  apply ui_members_spec in Eu as [Hu Hum].
  assert (Hr : rels (wms ++ ums ++ [mm]) = worker_rels (sort_with by_rel_path (cp_workers p)) ++ rels ums ++ [MANAGER_FILE]).
  { unfold rels in *. rewrite !map_app, Hw. by rewrite Em. }
  assert (Hm : Forall measured (wms ++ ums ++ [mm])).
  { rewrite !Forall_app. split_and!; [done|done|]. constructor; [|done]. by rewrite Em. }
  rewrite Hr. pose proof (worker_rels_nodup p Hd) as Hnd. set (l := worker_rels _) in *.
  assert (Hl : forall r, r ∈ l -> bundle_rel r /\ r ∉ [UI_FILE; MANAGER_FILE; MANIFEST_FILE]).
  { intros r (w & -> & _)%list_elem_of_fmap. split; [constructor|apply worker_rel_not_fixed]. }
  assert (Hus : Forall bundle_rel (rels ums ++ [MANAGER_FILE]) /\ NoDup (rels ums ++ [MANAGER_FILE]) /\
    MANIFEST_FILE ∉ rels ums ++ [MANAGER_FILE] /\
    forall r, r ∈ rels ums ++ [MANAGER_FILE] -> r ∈ [UI_FILE; MANAGER_FILE; MANIFEST_FILE]).
  { destruct Hu as [-> | ->]; cbn [app].
    - split_and!; [repeat constructor|apply NoDup_singleton|by intros ?%list_elem_of_singleton|].
      intros r ->%list_elem_of_singleton. set_solver.
    - split_and!; [repeat constructor| | |].
      + apply NoDup_cons; split; [by intros ?%list_elem_of_singleton|apply NoDup_singleton].
      + rewrite !elem_of_cons. intros [E|[E|E%not_elem_of_nil]]; done.
      + intros r. rewrite !elem_of_cons. tauto. }
  destruct Hus as (Hb & Hn & Hmf & Hin). split_and!.
  - apply Forall_app. split; [apply Forall_forall; by intros r (? & _)%Hl|done].
  - apply NoDup_app. split_and!; [done| |done]. intros r (_ & Hr1)%Hl Hr2. by apply Hr1, Hin.
  - rewrite elem_of_app. intros [(_ & Hx)%Hl|Hx]; [|done]. apply Hx. set_solver.
  - done.
Qed.

(** ** The sweep *)

(** The paths a sweep may remove. *)
Definition sweepable b (listed : list str) (this_pid : N) (x : path) : Prop :=
  (exists name, doomed_worker listed this_pid name = true /\ x = (b ++ [WORKERS_DIR_NAME]) ++ [name]) \/
  (exists name, is_stale_staging_name name this_pid = true /\ x = b ++ [name]).

Lemma remove_orphan_spec p acc :
  pid (snd (remove_orphan p acc)) = pid (snd acc) /\
  forall x, x <> p -> ptree (snd (remove_orphan p acc)) !! x = ptree (snd acc) !! x.
Proof.
  unfold remove_orphan, on_calls. destruct (remove_file p (proc_disk (snd acc))) as [ok d] eqn:E.
  apply remove_file_cases in E. split; [done|]. intros x Hx. unfold ptree. cbn [snd with_disk proc_disk]. rewrite E.
  destruct ok; [by rewrite lookup_delete_ne|done].
Qed.
Lemma remove_all_spec dir ns acc :
  let acc' := fold_left (fun acc name => remove_orphan (dir ++ [name]) acc) ns acc in
  pid (snd acc') = pid (snd acc) /\
  forall x, (forall name, name ∈ ns -> x <> dir ++ [name]) -> ptree (snd acc') !! x = ptree (snd acc) !! x.
Proof.
  revert acc. induction ns as [|n ns IH]; intros acc; [done|]. cbn [fold_left].
  destruct (remove_orphan_spec (dir ++ [n]) acc) as [Hp1 Ho1].
  destruct (IH (remove_orphan (dir ++ [n]) acc)) as [Hp2 Ho2]. split; [congruence|].
  intros x Hx. rewrite Ho2 by (intros name Hn; apply Hx; by right). apply Ho1. apply Hx. by left.
Qed.
Lemma sweep_dir_spec dir (doomed : str -> bool) acc :
  pid (snd (sweep_dir dir doomed acc)) = pid (snd acc) /\
  forall x, (forall name, doomed name = true -> x <> dir ++ [name]) ->
    ptree (snd (sweep_dir dir doomed acc)) !! x = ptree (snd acc) !! x.
Proof.
  unfold sweep_dir, on_calls, read_dir, read_call. destruct (if read_fault _ then None else _) as [names|]; [|done].
  destruct (remove_all_spec dir (List.filter doomed names)
    (fst acc, with_disk (snd acc) (tick (proc_disk (snd acc)) (tree (proc_disk (snd acc)))))) as [Hp Ho].
  split; [exact Hp|]. intros x Hx. rewrite Ho; [done|]. intros name [_ Hn]%list_elem_of_In%filter_In. by apply Hx.
Qed.
Lemma sweep_orphans_spec b m q :
  pid (snd (sweep_orphans b m q)) = pid q /\
  forall x, ~ sweepable b (listed_paths m) (pid q) x -> ptree (snd (sweep_orphans b m q)) !! x = ptree q !! x.
Proof.
  unfold sweep_orphans.
  destruct (sweep_dir_spec (b ++ [WORKERS_DIR_NAME]) (doomed_worker (listed_paths m) (pid q)) (0, q)) as [Hp1 Ho1].
  set (acc := sweep_dir (b ++ _) _ _) in *.
  destruct (sweep_dir_spec b (fun name => is_stale_staging_name name (pid q)) acc) as [Hp2 Ho2].
  split; [by rewrite Hp2|]. intros x Hx. rewrite Ho2; [apply Ho1|]; intros name Hn ->; apply Hx; [left|right]; by exists name.
Qed.

(** The sweep keeps the manifest, the listed members and the folders. *)
Lemma listed_not_sweepable b listed this r :
  bundle_rel r -> r ∈ MANIFEST_FILE :: MANAGER_FILE :: UI_FILE :: listed -> ~ sweepable b listed this (member_path b r).
Proof.
  intros Hr Hin Hs. destruct (bundle_rel_cases b r Hr) as (dir & s & E & Hd). rewrite E in Hs.
  destruct Hs as [(name & Hn & Ep)|(name & Hn & Ep)]; apply app_inj_tail in Ep as [Edir <-];
    [|by rewrite json_never_stale in Hn].
  destruct Hd as [[-> ->]|[-> Hr']].
  { apply (f_equal length) in Edir. rewrite length_app in Edir. simpl in Edir. lia. }
  unfold doomed_worker in Hn. rewrite json_never_stale in Hn. destruct (starts_with _ _); [done|].
  apply andb_true_iff in Hn as [_ Hn]. apply negb_true_iff in Hn. rewrite <-Hr' in Hn.
  apply not_true_iff_false in Hn. apply Hn. apply str_mem_true.
  assert (Hw : ch "/" ∈ r).
  { subst r. rewrite !elem_of_app. right. left. by left. }
  rewrite !elem_of_cons in Hin. destruct Hin as [->|[->|[->|Hin]]]; try done; by apply not_in_text in Hw.
Qed.
Lemma folder_not_sweepable b listed this r x :
  bundle_rel r -> x ∈ folders_of (parent (member_path b r)) -> ~ sweepable b listed this x.
Proof.
  intros Hr Hx Hs. destruct (bundle_rel_cases b r Hr) as (dir & s & E & Hd). rewrite E, parent_app in Hx.
  assert (Hb : forall y, y <> [] -> b ++ y ∉ folders_of b).
  { intros y Hy [_ Hl]%folders_of_take. rewrite length_app in Hl. destruct y; [done|simpl in Hl; lia]. }
  assert (Hx' : x ∈ folders_of b \/ x = b ++ [WORKERS_DIR_NAME]).
  { destruct Hd as [[-> _]|[-> _]]; [by left|]. by apply folders_of_app. }
  destruct Hs as [(name & Hn & ->)|(name & Hn & ->)].
  - rewrite <-app_assoc in Hx'. destruct Hx' as [Hx'|Hx']; [by apply Hb in Hx'|].
    apply app_inv_head in Hx'. done.
  - destruct Hx' as [Hx'|Hx']; [by apply Hb in Hx'|]. apply app_inj_tail in Hx' as [_ ->].
    by vm_compute in Hn.
Qed.
Lemma sweep_present b m q r bytes :
  bundle_rel r -> r ∈ MANIFEST_FILE :: MANAGER_FILE :: UI_FILE :: listed_paths m ->
  present b (ptree q) r bytes -> present b (ptree (snd (sweep_orphans b m q))) r bytes.
Proof.
  intros Hr Hin [Ht Hre]. destruct (sweep_orphans_spec b m q) as [_ Ho]. split.
  - rewrite Ho; [done|by apply listed_not_sweepable].
  - intros x Hx. specialize (Hre x Hx). unfold is_folder in *. rewrite Ho; [done|by eapply folder_not_sweepable].
Qed.

End members.
