(* ===== verification/Load.v ===== *)
(** * Loading a session bundle ([src/session/restore.rs])

    [load_bundle]: the ladder L0 to L9.  Every member is checked against the
    length and the fingerprint the manifest records before it is parsed, its
    header against the manifest; the pins, the sections and the transcripts are
    checked before anything is answered.  Loading writes nothing.  The log lines
    of the loader are left out; [Outside] is what reading a path that leaves the
    plan's directory gives. *)

From S2P Require Import Prelude Str Decimal Utf8 Agents Notice Wire Session Registry Journal WorkerRestore.
From S2P Require Import Context Normalize Disk Documents MemberName Commit.
Local Open Scope nat_scope.

(** ** Reading a listed path *)

Inductive ReadOutcome := BytesRead (bytes : list N) | NotFound | Unreadable (why : str).
Class Outside := { outside_read : path -> str -> ReadOutcome }.

(** Following the names of a path from the folder [cur]: [Beyond] is a path
    that leaves the plan's directory. *)
Inductive Lookup := At (p : path) | Beyond | Missing | NotAFolder.
Fixpoint walk (t : Tree) (cur : path) (names : list str) : Lookup :=
  match names with
  | [] => At cur
  | n :: names' =>
      if is_folder t cur then
        if is_empty n || str_eqb n (lit ".") then walk t cur names'
        else if str_eqb n (lit "..") then
          match cur with [] => Beyond | _ => walk t (parent cur) names' end
        else walk t (cur ++ [n]) names'
      else if path_exists t cur then NotAFolder else Missing
  end.

(** ** Updating the report *)

Definition set_pins (v : bool) (r : RepairReport) : RepairReport :=
  {| pins_verified := v; pinned_prefix_end_expected := pinned_prefix_end_expected r;
     pinned_prefix_end_actual := pinned_prefix_end_actual r;
     orphan_tool_results_pruned := orphan_tool_results_pruned r;
     aborted_results_synthesized := aborted_results_synthesized r;
     tool_results_regrouped := tool_results_regrouped r; normalization_passes := normalization_passes r;
     normalization_stable := normalization_stable r; manager_messages_before := manager_messages_before r;
     manager_messages_after := manager_messages_after r; ui_lines_restored := ui_lines_restored r;
     workers_restored := workers_restored r; workers_unrecoverable := workers_unrecoverable r;
     completed_dropped_by_ring_cap := completed_dropped_by_ring_cap r; notices := notices r;
     warnings := warnings r; worker_counts := worker_counts r |}.
Definition set_window (expected actual : option N) (r : RepairReport) : RepairReport :=
  {| pins_verified := pins_verified r; pinned_prefix_end_expected := expected;
     pinned_prefix_end_actual := actual; orphan_tool_results_pruned := orphan_tool_results_pruned r;
     aborted_results_synthesized := aborted_results_synthesized r;
     tool_results_regrouped := tool_results_regrouped r; normalization_passes := normalization_passes r;
     normalization_stable := normalization_stable r; manager_messages_before := manager_messages_before r;
     manager_messages_after := manager_messages_after r; ui_lines_restored := ui_lines_restored r;
     workers_restored := workers_restored r; workers_unrecoverable := workers_unrecoverable r;
     completed_dropped_by_ring_cap := completed_dropped_by_ring_cap r; notices := notices r;
     warnings := warnings r; worker_counts := worker_counts r |}.
Definition warn_all (ws : list str) (r : RepairReport) : RepairReport :=
  {| pins_verified := pins_verified r; pinned_prefix_end_expected := pinned_prefix_end_expected r;
     pinned_prefix_end_actual := pinned_prefix_end_actual r;
     orphan_tool_results_pruned := orphan_tool_results_pruned r;
     aborted_results_synthesized := aborted_results_synthesized r;
     tool_results_regrouped := tool_results_regrouped r; normalization_passes := normalization_passes r;
     normalization_stable := normalization_stable r; manager_messages_before := manager_messages_before r;
     manager_messages_after := manager_messages_after r; ui_lines_restored := ui_lines_restored r;
     workers_restored := workers_restored r; workers_unrecoverable := workers_unrecoverable r;
     completed_dropped_by_ring_cap := completed_dropped_by_ring_cap r; notices := notices r;
     warnings := warnings r ++ ws; worker_counts := worker_counts r |}.
Definition note_all (ns : list NonRestorableNotice) (r : RepairReport) : RepairReport :=
  {| pins_verified := pins_verified r; pinned_prefix_end_expected := pinned_prefix_end_expected r;
     pinned_prefix_end_actual := pinned_prefix_end_actual r;
     orphan_tool_results_pruned := orphan_tool_results_pruned r;
     aborted_results_synthesized := aborted_results_synthesized r;
     tool_results_regrouped := tool_results_regrouped r; normalization_passes := normalization_passes r;
     normalization_stable := normalization_stable r; manager_messages_before := manager_messages_before r;
     manager_messages_after := manager_messages_after r; ui_lines_restored := ui_lines_restored r;
     workers_restored := workers_restored r; workers_unrecoverable := workers_unrecoverable r;
     completed_dropped_by_ring_cap := completed_dropped_by_ring_cap r; notices := notices r ++ ns;
     warnings := warnings r; worker_counts := worker_counts r |}.
Definition set_manager_counts (n m : nat) (r : RepairReport) : RepairReport :=
  {| pins_verified := pins_verified r; pinned_prefix_end_expected := pinned_prefix_end_expected r;
     pinned_prefix_end_actual := pinned_prefix_end_actual r;
     orphan_tool_results_pruned := orphan_tool_results_pruned r;
     aborted_results_synthesized := aborted_results_synthesized r;
     tool_results_regrouped := tool_results_regrouped r; normalization_passes := normalization_passes r;
     normalization_stable := normalization_stable r; manager_messages_before := n; manager_messages_after := m;
     ui_lines_restored := ui_lines_restored r; workers_restored := workers_restored r;
     workers_unrecoverable := workers_unrecoverable r;
     completed_dropped_by_ring_cap := completed_dropped_by_ring_cap r; notices := notices r;
     warnings := warnings r; worker_counts := worker_counts r |}.
Definition set_stability (passes : N) (stable : bool) (r : RepairReport) : RepairReport :=
  {| pins_verified := pins_verified r; pinned_prefix_end_expected := pinned_prefix_end_expected r;
     pinned_prefix_end_actual := pinned_prefix_end_actual r;
     orphan_tool_results_pruned := orphan_tool_results_pruned r;
     aborted_results_synthesized := aborted_results_synthesized r;
     tool_results_regrouped := tool_results_regrouped r; normalization_passes := passes;
     normalization_stable := stable; manager_messages_before := manager_messages_before r;
     manager_messages_after := manager_messages_after r; ui_lines_restored := ui_lines_restored r;
     workers_restored := workers_restored r; workers_unrecoverable := workers_unrecoverable r;
     completed_dropped_by_ring_cap := completed_dropped_by_ring_cap r; notices := notices r;
     warnings := warnings r; worker_counts := worker_counts r |}.
Definition count_repairs (n : NormalizeReport) (r : RepairReport) : RepairReport :=
  {| pins_verified := pins_verified r; pinned_prefix_end_expected := pinned_prefix_end_expected r;
     pinned_prefix_end_actual := pinned_prefix_end_actual r;
     orphan_tool_results_pruned := orphan_tool_results_pruned r + length (pruned_orphan_ids n);
     aborted_results_synthesized := aborted_results_synthesized r + length (synthesized_aborted_ids n);
     tool_results_regrouped := tool_results_regrouped r + length (regrouped_ids n);
     normalization_passes := normalization_passes r; normalization_stable := normalization_stable r;
     manager_messages_before := manager_messages_before r; manager_messages_after := manager_messages_after r;
     ui_lines_restored := ui_lines_restored r; workers_restored := workers_restored r;
     workers_unrecoverable := workers_unrecoverable r;
     completed_dropped_by_ring_cap := completed_dropped_by_ring_cap r; notices := notices r;
     warnings := warnings r; worker_counts := worker_counts r |}.
Definition count_worker (c : WorkerRepairCounts) (r : RepairReport) : RepairReport :=
  {| pins_verified := pins_verified r; pinned_prefix_end_expected := pinned_prefix_end_expected r;
     pinned_prefix_end_actual := pinned_prefix_end_actual r;
     orphan_tool_results_pruned := orphan_tool_results_pruned r;
     aborted_results_synthesized := aborted_results_synthesized r;
     tool_results_regrouped := tool_results_regrouped r; normalization_passes := normalization_passes r;
     normalization_stable := normalization_stable r; manager_messages_before := manager_messages_before r;
     manager_messages_after := manager_messages_after r; ui_lines_restored := ui_lines_restored r;
     workers_restored := workers_restored r; workers_unrecoverable := workers_unrecoverable r;
     completed_dropped_by_ring_cap := completed_dropped_by_ring_cap r; notices := notices r;
     warnings := warnings r; worker_counts := worker_counts r ++ [c] |}.
Definition set_totals (lines n : nat) (lost : list str) (r : RepairReport) : RepairReport :=
  {| pins_verified := pins_verified r; pinned_prefix_end_expected := pinned_prefix_end_expected r;
     pinned_prefix_end_actual := pinned_prefix_end_actual r;
     orphan_tool_results_pruned := orphan_tool_results_pruned r;
     aborted_results_synthesized := aborted_results_synthesized r;
     tool_results_regrouped := tool_results_regrouped r; normalization_passes := normalization_passes r;
     normalization_stable := normalization_stable r; manager_messages_before := manager_messages_before r;
     manager_messages_after := manager_messages_after r; ui_lines_restored := lines; workers_restored := n;
     workers_unrecoverable := lost; completed_dropped_by_ring_cap := completed_dropped_by_ring_cap r;
     notices := notices r; warnings := warnings r; worker_counts := worker_counts r |}.

(** ** Sentences *)

Section load.
Context `{Texts} `{Faults} `{DashOrder} `{Outside}.
Context `{Json Manifest} `{Json ManagerFile} `{Json UiFile} `{Json WorkerFile}.

(** Sixteen hexadecimal digits. *)
Definition hex_char (d : N) : char := (if d <? 10 then 48 + d else 87 + d)%N.
Fixpoint hex (digits : nat) (n : N) : str :=
  match digits with 0 => [] | S k => hex k (n / 16) ++ [hex_char (n mod 16)] end.
Definition hex16 (n : N) : str := lit "0x" ++ hex 16 n.

(** [bundle.join(rel).display()] *)
Definition show_joined (bundle : path) (rel : str) : str :=
  if starts_with (lit "/") rel then rel else show_path bundle ++ lit "/" ++ rel.

Definition describe_dangling (s : DanglingToolCallState) : str :=
  match s with
  | Balanced => lit "balanced"
  | Dangling calls => lit "dangling " ++ dec (length calls) ++ lit " call(s): " ++
      join_with (lit ",") (map dc_tool_call_id calls)
  | OrphanedResults ids => lit "orphaned results " ++ join_with (lit ",") ids
  | Healed ids => lit "healed " ++ join_with (lit ",") ids
  end.

Definition applied_rules_of (r : NormalizeReport) : list str :=
  let rule before ids after :=
    if is_empty ids then []
    else [before ++ dec (length ids) ++ after ++ join_with (lit ",") ids] in
  rule (lit "N1 pruned ") (pruned_orphan_ids r) (lit " orphan tool result(s): ") ++
  rule (lit "N2 synthesized ") (synthesized_aborted_ids r) (lit " " ++ Session.ABORTED_TOOL_RESULT ++ lit " tool result(s): ") ++
  rule (lit "N2 regrouped ") (regrouped_ids r) (lit " tool result(s): ") ++
  rule (lit "N2 dropped ") (dropped_duplicate_ids r) (lit " duplicate tool result(s): ").

Definition call_of (records : list MessageRecord) (id : str) : str * str :=
  match find_first (fun tc => str_eqb (rtc_id tc) id) (observe_parents records) with
  | Some tc => (rfn_name (rtc_function tc), rfn_arguments (rtc_function tc))
  | None => (lit "<unknown>", lit "<unknown>")
  end.
Definition rule_sentence (a : AppliedRule) (subject : str) (healed : list MessageRecord) : str :=
  let index i := match i with Some n => dec n | None => lit "-" end in
  let site := lit " (" ++ subject ++ lit ")" in
  if str_eqb (rule a) N1_PRUNE then
    lit "pruned orphan tool result " ++ rule_tool_call_id a ++ lit " at message index " ++ index (index_before a) ++ site
  else if str_eqb (rule a) N2_DEDUPLICATE then
    lit "dropped duplicate tool result " ++ rule_tool_call_id a ++ lit " at message index " ++ index (index_before a) ++
    lit " (kept the first)" ++ site
  else if str_eqb (rule a) N2_REGROUP then
    lit "regrouped tool result " ++ rule_tool_call_id a ++ lit " from message index " ++ index (index_before a) ++
    lit " to " ++ index (index_after a) ++ site
  else
    let '(f, args) := call_of healed (rule_tool_call_id a) in
    lit "synthesized " ++ Session.ABORTED_TOOL_RESULT ++ lit " for tool_call_id " ++ rule_tool_call_id a ++
    lit " (function " ++ f ++ lit ", " ++ subject ++ lit "): arguments " ++ args.

Definition dispatched_notice (subject : str) (calls : list DanglingCall) : NonRestorableNotice :=
  {| nr_kind := PtyProcess; nr_subject := subject;
     nr_detail := join_with (lit "; ") (map (fun c => lit "tool_call_id " ++ dc_tool_call_id c ++ lit " (function " ++
         dc_function_name c ++ lit ", arguments " ++ dc_arguments c ++ lit ")") calls) ++
       lit " had already been dispatched when the process died and its result never landed, so the tool may have run and changed the workspace while its output is gone. The loader will not re-run it and will not assume the effect did not happen: check the workspace if these calls mutated it." |}.
Definition dispatched_dangling (subject : str) (recorded : DanglingToolCallState) (r : RepairReport) : RepairReport :=
  match recorded with
  | Dangling calls =>
      let dispatched := List.filter dc_dispatched calls in
      if is_empty dispatched then r
      else
        let r1 := warn_all (map (fun c => lit "tool_call_id " ++ dc_tool_call_id c ++ lit " (function " ++ dc_function_name c ++
          lit ") was dispatched but never answered: its result is gone and the loader will not re-run it (" ++ subject ++
          lit ")") dispatched) r in
        let notice := dispatched_notice subject dispatched in
        if existsb (fun n => bool_decide (dedup_key n = dedup_key notice)) (notices r1) then r1
        else note_all [notice] r1
  | _ => r
  end.

Definition fold_pass_set (subject : str) (n : NormalizeReport) (healed : list MessageRecord)
    (worker : option str) (r : RepairReport) : RepairReport :=
  let r1 := count_repairs n r in
  let r2 := if (normalization_passes r1 =? 0)%N then set_stability (passes n) (stable n) r1
            else set_stability (N.max (normalization_passes r1) (passes n))
                   (normalization_stable r1 && stable n) r1 in
  let r3 := warn_all (n6_disagreements n ++ map (fun a => rule_sentence a subject healed) (applied n)) r2 in
  match worker with
  | Some key =>
      warn_all [lit "worker " ++ key ++ lit ": history " ++ dec (messages_before n) ++ lit " -> " ++ dec (messages_after n)]
        (count_worker {| count_key := key; before := messages_before n; after := messages_after n;
                         applied_rules := applied_rules_of n |} r3)
  | None => r3
  end.

(** ** Members *)

Definition read_listed (bundle : path) (rel : str) (d : Disk) : ReadOutcome * Disk :=
  let d' := tick d (tree d) in
  if read_fault (calls d) then (Unreadable (io_error (calls d)), d')
  else if starts_with (lit "/") rel then (outside_read bundle rel, d')
  else match walk (tree d) bundle (split_char (ch "/") rel) with
       | At p => match tree d !! p with
                 | Some n => match node_bytes n with
                             | Some b => (BytesRead b, d')
                             | None => (Unreadable (io_error (calls d)), d')
                             end
                 | None => (NotFound, d')
                 end
       | Missing => (NotFound, d')
       | NotAFolder => (Unreadable (io_error (calls d)), d')
       | Beyond => (outside_read bundle rel, d')
       end.

Definition classify_parse_error (e : JsonError) (member : str) (bytes : list N) : Refusal :=
  with_member member (refuse (if contains (lit "unknown field") (err_text e) then UnknownField else JsonCode)
    (member ++ lit ": " ++ err_text e ++ lit " (line " ++ decN (err_line e) ++ lit ", column " ++ decN (err_column e) ++
     lit "; " ++ dec (length bytes) ++ lit " bytes read)")).
Definition parse_member {A} `{Json A} (bytes : list N) (rel : str) : A + Refusal :=
  match from_slice bytes with inl v => inl v | inr e => inr (classify_parse_error e rel bytes) end.

Definition header_disagreements (h : SectionHeader) (m : ManifestMember) (mf : Manifest) : list str :=
  let unless (ok : bool) text := if ok then [] else [text] in
  let vs a b := a ++ lit " vs manifest " ++ b in
  unless (h_format_version h =? format_version mf)%N
    (lit "format_version " ++ vs (decN (h_format_version h)) (decN (format_version mf))) ++
  unless (h_schema_version h =? schema_version mf)%N
    (lit "schema_version " ++ vs (decN (h_schema_version h)) (decN (schema_version mf))) ++
  unless (str_eqb (h_session_id h) (session_id mf))
    (lit "session_id " ++ vs (debug_str (h_session_id h)) (debug_str (session_id mf))) ++
  unless (bool_decide (h_kind h = mm_kind m))
    (lit "kind " ++ vs (section_kind_debug (h_kind h)) (section_kind_debug (mm_kind m))) ++
  unless (h_saved_wall h =? mm_saved_wall m)%N
    (lit "saved_wall " ++ vs (rfc3339 (h_saved_wall h)) (rfc3339 (mm_saved_wall m))) ++
  unless (bool_decide (h_saved_elapsed_secs h = mm_saved_elapsed_secs m))
    (lit "saved_elapsed_secs " ++ vs (show_f64 (h_saved_elapsed_secs h)) (show_f64 (mm_saved_elapsed_secs m))) ++
  unless ((member_count h =? 1) && (member_index h =? 0))%N
    (lit "member_count/member_index " ++ decN (member_count h) ++ lit "/" ++ decN (member_index h) ++
     lit " vs the one-member-per-file rule 1/0").
Definition check_header (h : SectionHeader) (m : ManifestMember) (mf : Manifest) (rel : str) : option Refusal :=
  let ds := header_disagreements h m mf in
  if is_empty ds then None
  else Some (with_member rel (refuse HeaderManifestDisagreement
    (rel ++ lit " disagrees with " ++ MANIFEST_FILE ++ lit ": " ++ join_with (lit "; ") ds))).

(** [Loaded]: the section a member carries. *)
Inductive Loaded := LoadedManager (s : ManagerSection) | LoadedUi (s : UiSection) | LoadedWorker (s : WorkerSection).

(** L4: the bytes the manifest commits. *)
Definition verify_bytes (m : ManifestMember) (bytes : list N) : option Refusal :=
  let len := N.of_nat (length bytes) in
  let refused c text := Some (with_member (rel_path m) (refuse c text)) in
  if negb (len =? byte_len m)%N then
    refused ByteLen (rel_path m ++ lit ": manifest says " ++ decN (byte_len m) ++ lit " bytes, the file on disk is " ++
                     decN len ++ lit " bytes")
  else if negb (fingerprint bytes =? mm_fingerprint m)%N then
    refused FingerprintCode (rel_path m ++ lit ": fingerprint " ++ hex16 (mm_fingerprint m) ++ lit " != " ++
                             hex16 (fingerprint bytes) ++ lit " (" ++ decN len ++ lit " bytes on both sides)")
  else None.
(** L5: the section the bytes hold. *)
Definition parse_section (m : ManifestMember) (mf : Manifest) (bytes : list N) : Loaded + Refusal :=
  let rel := rel_path m in
  match mm_kind m with
  | KManager =>
      match parse_member bytes rel with
      | inr r => inr r
      | inl f => match check_header (manager_header f) m mf rel with
                 | Some r => inr r | None => inl (LoadedManager (manager_section f)) end
      end
  | KUi =>
      match parse_member bytes rel with
      | inr r => inr r
      | inl f => match check_header (ui_header f) m mf rel with
                 | Some r => inr r | None => inl (LoadedUi (ui_section f)) end
      end
  | KWorker =>
      match parse_member bytes rel with
      | inr r => inr r
      | inl f =>
          match check_header (worker_header f) m mf rel with
          | Some r => inr r
          | None =>
              match percent_unescape (file_stem rel) with
              | inr r => inr r
              | inl decoded =>
                  if str_eqb decoded (worker_key (worker_section f)) then inl (LoadedWorker (worker_section f))
                  else inr (with_member rel (refuse MissingMember
                    (rel ++ lit " decodes to worker key " ++ debug_str decoded ++ lit " but the section inside it says " ++
                     debug_str (worker_key (worker_section f)) ++
                     lit ": the path is the authority, the file is not a member of this worker")))
              end
          end
      end
  end.
Definition load_member (bundle : path) (m : ManifestMember) (mf : Manifest) (d : Disk) : (Loaded + Refusal) * Disk :=
  let refused c text := inr (with_member (rel_path m) (refuse c text)) in
  match read_listed bundle (rel_path m) d with
  | (NotFound, d') =>
      (refused MissingMember (rel_path m ++ lit " is listed by " ++ MANIFEST_FILE ++
        lit " but is absent on disk (manifest says " ++ decN (byte_len m) ++ lit " bytes, fingerprint " ++
        hex16 (mm_fingerprint m) ++ lit ")"), d')
  | (Unreadable why, d') => (refused IoCode (lit "cannot read " ++ show_joined bundle (rel_path m) ++ lit ": " ++ why), d')
  | (BytesRead bytes, d') =>
      match verify_bytes m bytes with
      | Some r => (inr r, d')
      | None => (parse_section m mf bytes, d')
      end
  end.
(** The members that load and the failures, in the order of the manifest. *)
Fixpoint load_members (bundle : path) (mf : Manifest) (ms : list ManifestMember) (d : Disk)
    : list Loaded * list (ManifestMember * Refusal) * Disk :=
  match ms with
  | [] => ([], [], d)
  | m :: ms' =>
      let '(r, d1) := load_member bundle m mf d in
      let '(ls, fs, d2) := load_members bundle mf ms' d1 in
      match r with inl l => (l :: ls, fs, d2) | inr f => (ls, (m, f) :: fs, d2) end
  end.

(** The files no manifest lists; an unreadable folder has none. *)
Definition scan_orphans (dir : path) (prefix : str) (listed : list str) (d : Disk) : list str * Disk :=
  let '(entries, d') := read_dir dir d in
  (List.filter (fun rel => negb (str_eqb rel MANIFEST_FILE) && negb (str_mem rel listed))
     (map (fun name => prefix ++ name)
        (List.filter (fun name => negb (starts_with (lit ".") name) && ends_with (lit ".json") name) (default [] entries))), d').
Definition orphan_members (bundle : path) (listed : list str) (d : Disk) : list str * Disk :=
  let '(a, d1) := scan_orphans bundle [] listed d in
  let '(b, d2) := scan_orphans (bundle ++ [WORKERS_DIR_NAME]) (WORKERS_DIR_NAME ++ lit "/") listed d1 in
  (sort_with id_leb (a ++ b), d2).

Definition LEGACY_MANAGER_JOURNAL : str := lit ".session_transcript.json".
Definition LEGACY_UI_JOURNAL : str := lit ".ui_transcript.json".
Definition no_bundle (bundle : path) (d : Disk) : RestoreOutcome * Disk :=
  let legacy := match bundle with
                | [] => []
                | _ => List.filter (is_file (tree d))
                         [parent bundle ++ [LEGACY_MANAGER_JOURNAL]; parent bundle ++ [LEGACY_UI_JOURNAL]]
                end in
  let '(orphans, d') := orphan_members bundle [] d in
  (NoBundle bundle legacy orphans, d').

(** ** Verdicts on the sections *)

Definition verify_pins (s : ManagerSection) (on : PinStage) : option Refusal :=
  let stage := stage_label on in
  let refused text := Some (pin_refusal text) in
  match sec_messages s with
  | first :: second :: _ =>
      match first with
      | RSystem a =>
          match second with
          | RUser b =>
              let witness := {| system_prompt_len := as_u32 (blen a); goal_len := as_u32 (blen b) |} in
              let w := sec_pin_witness s in
              if negb (bool_decide (witness = w)) then
                refused (lit "step 5: pin witness mismatch on a " ++ stage ++ lit " transcript " ++ EM_DASH ++
                  lit " stored system prompt " ++ decN (system_prompt_len witness) ++ lit " bytes vs recorded " ++
                  decN (system_prompt_len w) ++ lit ", stored goal " ++ decN (goal_len witness) ++
                  lit " bytes vs recorded " ++ decN (goal_len w))
              else
                let recomputed := pinned_prefix_end_records (sec_messages s) in
                if negb (as_u32 recomputed =? sec_pinned_prefix_end s)%N then
                  refused (lit "step 4: pinned_prefix_end recomputed as " ++ dec recomputed ++ lit " on a " ++ stage ++
                    lit " transcript but the section records " ++ decN (sec_pinned_prefix_end s))
                else None
          | other => refused (lit "step 3: messages[1] of a " ++ stage ++
              lit " transcript must be the pinned goal (REQ-CORE-002), it is a `" ++ record_role other ++ lit "` turn")
          end
      | other => refused (lit "step 2: messages[0] of a " ++ stage ++
          lit " transcript must be the system prompt (REQ-CORE-001), it is a `" ++ record_role other ++ lit "` turn")
      end
  | l => refused (lit "step 1: a " ++ stage ++ lit " transcript must hold at least the two pinned messages, it holds " ++
                  dec (length l))
  end.

(** The first reading of a worker that is not sane. *)
Definition worker_clock_violation (w : WorkerSection) : option Refusal :=
  match find_first (fun e => match snd e with Some t => negb (is_sane t) | None => false end) (worker_times w) with
  | Some (field, Some t) =>
      Some (with_member (worker_rel_path (worker_key w)) (refuse HeaderManifestDisagreement
        (lit "L7 (" ++ [167%N] ++ lit "5.6): worker " ++ worker_key w ++ lit " " ++ field ++ lit " is " ++
         show_f64 (elapsed_secs t) ++ lit " s " ++ EM_DASH ++
         lit " negative, NaN or infinite monotonic offsets are refused, never defaulted to now")))
  | _ => None
  end.
Fixpoint first_some {A B} (f : A -> option B) (l : list A) : option B :=
  match l with [] => None | x :: l' => match f x with Some y => Some y | None => first_some f l' end end.
Definition violation_text (vs : list str) : str := join_with (lit "; ") vs.
Definition structural_violation (mgr : ManagerSection) (ui : UiSection) (ws : list WorkerSection) (mf : Manifest)
    : option Refusal :=
  if length (sec_messages mgr) <? 2 then
    Some (pin_refusal (lit "L7: manager.json holds " ++ dec (length (sec_messages mgr)) ++
                       lit " messages, fewer than the two pinned messages"))
  else match first_some worker_clock_violation ws with
  | Some r => Some r
  | None =>
      let vs := structural_violations ui in
      if negb (is_empty vs) then
        Some (with_member UI_FILE (refuse HeaderManifestDisagreement (lit "L7 (" ++ [167%N] ++ lit "6.5): ui.json: " ++ violation_text vs)))
      else
        let fs := sanity_violations (identity_floors mf) ws in
        if negb (is_empty fs) then
          Some (with_member MANIFEST_FILE (refuse HeaderManifestDisagreement (lit "L7 (" ++ [167%N] ++ lit "5.7): " ++ violation_text fs)))
        else None
  end.

Definition unrecoverable_worker (key : str) (r : Refusal) (now : Now) : WorkerSection :=
  {| worker_key := key; section_id := 0; role := role_hint_from_key key; section_task := task_hint_from_key key;
     status := Unrecoverable; status_label := lit "unrecoverable";
     started := {| elapsed_secs := Decimal.Zero; tp_wall := wall now |}; completed := None; last_activity := None;
     worked_secs := Decimal.Zero; section_seq := None; context_tokens := 0; section_last_tokens := 0;
     counters := {| implementation_turns := 0; validation_rounds := 0; latest_validator_feedback := None |};
     brief := []; snippets := []; image_urls := []; audio_urls := []; recursion_granted := false;
     history := []; section_source := NotCaptured; dangling := Balanced;
     unrecoverable_reason := Some (refusal_message r);
     non_restorable := [{| nr_kind := WorkerHistory; nr_subject := key; nr_detail := refusal_message r |}] |}.

Definition derive_ending (e : ProcessEnding) : ProcessEnding :=
  match e with EndInProgress => HardKillInferred | _ => e end.

Definition with_records (rs : list MessageRecord) (s : ManagerSection) : ManagerSection :=
  {| sec_messages := rs; sec_pinned_prefix_end := sec_pinned_prefix_end s; sec_pin_witness := sec_pin_witness s;
     sec_max_context_tokens := sec_max_context_tokens s; sec_rebirth_advisory_emitted := sec_rebirth_advisory_emitted s;
     sec_consecutive_rebirths := sec_consecutive_rebirths s; sec_dangling := sec_dangling s |}.
Definition with_history (rs : list MessageRecord) (w : WorkerSection) : WorkerSection :=
  {| worker_key := worker_key w; section_id := section_id w; role := role w; section_task := section_task w;
     status := status w; status_label := status_label w; started := started w; completed := completed w;
     last_activity := last_activity w; worked_secs := worked_secs w; section_seq := section_seq w;
     context_tokens := context_tokens w; section_last_tokens := section_last_tokens w; counters := counters w;
     brief := brief w; snippets := snippets w; image_urls := image_urls w; audio_urls := audio_urls w;
     recursion_granted := recursion_granted w; history := rs; section_source := section_source w;
     dangling := dangling w; unrecoverable_reason := unrecoverable_reason w; non_restorable := non_restorable w |}.

(** A normalization refusal ends the load with the passes it reached. *)
Definition refused_passes (r : Refusal) (rep : RepairReport) : RepairReport :=
  set_stability (if bool_decide (code r = NormalizationUnstable) then PASS_SET_RUNS else normalization_passes rep) false rep.
Definition is_unrecoverable (w : WorkerSection) : bool := bool_decide (status w = Unrecoverable).

(** L8 over the workers, in order. *)
Definition normalize_worker (w : WorkerSection) (rep : RepairReport) : (WorkerSection + Refusal) * RepairReport :=
  if is_unrecoverable w then (inl w, rep)
  else
    let stored := history w in
    match fst (normalize stored (dangling w) (default no_witness (witness_of stored))
                 (pinned_prefix_end_records stored) (new (Nat.max (context_tokens w) 1))) with
    | inl (records, norm) =>
        let subject := lit "worker " ++ worker_key w in
        (inl (with_history records w),
         dispatched_dangling subject (dangling w) (fold_pass_set subject norm records (Some (worker_key w)) rep))
    | inr r => (inr (with_member (worker_rel_path (worker_key w)) r), refused_passes r rep)
    end.
Fixpoint normalize_workers (ws : list WorkerSection) (rep : RepairReport)
    : (list WorkerSection + Refusal) * RepairReport :=
  match ws with
  | [] => (inl [], rep)
  | w :: ws' =>
      match normalize_worker w rep with
      | (inr r, rep1) => (inr r, rep1)
      | (inl w', rep1) =>
          match normalize_workers ws' rep1 with
          | (inr r, rep2) => (inr r, rep2)
          | (inl ws'', rep2) => (inl (w' :: ws''), rep2)
          end
      end
  end.

#[export] Instance DanglingCall_eq_dec : EqDecision DanglingCall.
Proof. solve_decision. Defined.
#[export] Instance DanglingToolCallState_eq_dec : EqDecision DanglingToolCallState.
Proof. solve_decision. Defined.

Definition n6_witness_warnings (normalized stored : ManagerSection) (ws : list WorkerSection) (rep : RepairReport)
    : list str :=
  let observed := observe (sec_messages normalized) in
  (if bool_decide (observed = sec_dangling stored) then []
   else [lit "manager.json recorded dangling state " ++ describe_dangling (sec_dangling stored) ++ lit " but N1/N2 left " ++
         describe_dangling observed ++ lit ": " ++
         dec (orphan_tool_results_pruned rep + aborted_results_synthesized rep + tool_results_regrouped rep) ++
         lit " rule(s) applied, reported not reconciled"]) ++
  (if (sec_pinned_prefix_end normalized =? sec_pinned_prefix_end stored)%N then []
   else [lit "manager.json pinned_prefix_end " ++ decN (sec_pinned_prefix_end stored) ++ lit " -> " ++
         decN (sec_pinned_prefix_end normalized) ++ lit " after normalization"]) ++
  concat (map (fun w =>
    if is_unrecoverable w then []
    else
      let observed := observe (history w) in
      if bool_decide (observed = dangling w) then []
      else [lit "worker " ++ worker_key w ++ lit " recorded dangling state " ++ describe_dangling (dangling w) ++
            lit " but N1/N2 left " ++ describe_dangling observed]) ws).

(** L6 to L9 on the sections of a verified bundle. *)
Definition settle (bundle : path) (mf : Manifest) (mgr : ManagerSection) (ui : UiSection) (ws : list WorkerSection)
    (rep0 : RepairReport) : RestoreOutcome :=
  let window := pinned_prefix_end_records (sec_messages mgr) in
  let rep1 := set_window (Some (sec_pinned_prefix_end mgr)) (Some (as_u32 window)) rep0 in
  match verify_pins mgr Stored with
  | Some r => Refused r rep1
  | None =>
      let rep2 := set_pins true rep1 in
      match structural_violation mgr ui ws mf with
      | Some r => Refused r rep2
      | None =>
          match fst (normalize (sec_messages mgr) (sec_dangling mgr) (sec_pin_witness mgr) window
                       (new (Nat.max (sec_max_context_tokens mgr) 1))) with
          | inr r => Refused r (refused_passes r rep2)
          | inl (records, norm) =>
              let rep3 := set_window (pinned_prefix_end_expected rep2) (Some (as_u32 (pinned_prefix_end_after norm)))
                            (set_manager_counts (messages_before norm) (messages_after norm) rep2) in
              let rep4 := dispatched_dangling (lit "manager") (sec_dangling mgr)
                            (fold_pass_set (lit "manager") norm records None rep3) in
              let normalized := with_records records mgr in
              match verify_pins normalized Installed with
              | Some r => Refused r (set_pins false rep4)
              | None =>
                  match normalize_workers ws (set_pins true rep4) with
                  | (inr r, rep5) => Refused r rep5
                  | (inl ws', rep5) =>
                      let rep6 := warn_all (n6_witness_warnings normalized mgr ws' rep5) rep5 in
                      let lost := map worker_key (List.filter is_unrecoverable ws') in
                      let rep7 := set_totals (length (ui_journal ui))
                                    (length (List.filter (fun w => negb (is_unrecoverable w)) ws')) lost rep6 in
                      let session :=
                        {| restored_id := session_id mf; restored_manager := normalized; restored_ui := ui;
                           restored_workers := ws'; restored_floors := identity_floors mf;
                           restored_manifest := mf; restored_bundle := bundle |} in
                      let end_ := derive_ending (ending mf) in
                      match lost with
                      | [] => Restored session end_ rep7
                      | _ => PartiallyRestored session end_ lost rep7
                      end
                  end
              end
          end
      end
  end.

(** The section of each family: the last manager and UI section, every worker. *)
Definition manager_of (ls : list Loaded) : option ManagerSection :=
  last (omap (fun l => match l with LoadedManager s => Some s | _ => None end) ls).
Definition ui_of (ls : list Loaded) : option UiSection :=
  last (omap (fun l => match l with LoadedUi s => Some s | _ => None end) ls).
Definition workers_of (ls : list Loaded) : list WorkerSection :=
  omap (fun l => match l with LoadedWorker s => Some s | _ => None end) ls.
Definition by_key (a b : WorkerSection) : bool := id_leb (worker_key a) (worker_key b).

(** What follows L5: at most one failure is tolerated, of a worker. *)
Definition assemble (bundle : path) (mf : Manifest) (ls : list Loaded) (fs : list (ManifestMember * Refusal)) (now : Now)
    (rep : RepairReport) : RestoreOutcome :=
  match find_first (fun f => negb (bool_decide (mm_kind (fst f) = KWorker))) fs with
  | Some (_, r) => Refused r rep
  | None =>
      let continue lost rep :=
        match manager_of ls with
        | None => Refused (with_member MANAGER_FILE (refuse MissingMember
            (MANAGER_FILE ++ lit " is listed by " ++ MANIFEST_FILE ++ lit " but was never loaded"))) rep
        | Some mgr => settle bundle mf mgr (default default_ui (ui_of ls)) (sort_with by_key (workers_of ls ++ lost)) rep
        end in
      match fs with
      | [] => continue [] rep
      | [(m, r)] =>
          let rel := rel_path m in
          let key := worker_key_from_rel_path rel in
          continue [unrecoverable_worker key r now]
            (note_all [{| nr_kind := WorkerHistory; nr_subject := key;
                          nr_detail := lit "worker member " ++ rel ++ lit " failed verification: " ++ refusal_message r |}]
               (warn_all [lit "worker member " ++ rel ++ lit ": " ++ refusal_message r] rep))
      | (m, r) :: others =>
          Refused (with_member (rel_path m) (refuse (code r)
            (refusal_message r ++ lit "; and " ++ dec (length others) ++ lit " more worker member(s) failed verification (" ++
             join_with (lit ", ") (map (fun f => rel_path (fst f)) others) ++
             lit "), so the single corrupt-worker tolerance of A " ++ [167%N] ++ lit "7.5 does not apply"))) rep
      end
  end.

Definition version_refusal (mf : Manifest) : option Refusal :=
  let refused c text := Some (with_member MANIFEST_FILE (refuse c text)) in
  let unknown (v w : N) := decN v ++ lit " is not understood by this binary (" ++ decN w ++ lit ")" in
  if negb (format_version mf =? FORMAT_VERSION)%N then
    refused FormatVersion (lit "manifest format_version " ++ unknown (format_version mf) FORMAT_VERSION)
  else if negb (schema_version mf =? SCHEMA_VERSION)%N then
    refused SchemaVersion (lit "manifest schema_version " ++ unknown (schema_version mf) SCHEMA_VERSION)
  else None.

Definition load_bundle (bundle : path) (now : Now) (d : Disk) : RestoreOutcome * Disk :=
  let manifest_file := member_path bundle MANIFEST_FILE in
  if negb (is_folder (tree d) bundle) || negb (is_file (tree d) manifest_file) then no_bundle bundle d
  else
    match read_bytes manifest_file d with
    | (None, d1) =>
        (Refused (with_member MANIFEST_FILE (refuse IoCode (lit "cannot read " ++ show_joined bundle MANIFEST_FILE ++ lit ": " ++
           io_error (calls d)))) empty_report, d1)
    | (Some bytes, d1) =>
        match from_slice bytes with
        | inr e => (Refused (classify_parse_error e MANIFEST_FILE bytes) empty_report, d1)
        | inl mf =>
            match version_refusal mf with
            | Some r => (Refused r empty_report, d1)
            | None =>
                let '(orphans, d2) := orphan_members bundle (listed_paths mf) d1 in
                let rep := warn_all (map (fun o => lit "orphan member " ++ o ++ lit " is on disk but not listed in " ++
                  MANIFEST_FILE ++ lit ": ignored, not merged (evidence of an interrupted overwrite)") orphans) empty_report in
                let '(ls, fs, d3) := load_members bundle mf (members mf) d2 in
                (assemble bundle mf ls fs now rep, d3)
            end
        end
    end.

End load.
