(* ===== verification/CommitProps.v ===== *)
(** * What a commit leaves ([src/session/commit.rs])

    A commit is all or nothing at its manifest, whatever calls fail; its diff
    never skips a member of another instant; the commit lock is exclusive and
    loses no request; the size warning is given once. *)

From S2P Require Import Prelude Str Utf8 Notice Registry Journal WorkerRestore Session Decimal.
From S2P Require Import Normalize Disk DiskFacts Atomic Documents MemberName Commit CommitFacts Load.
Local Open Scope nat_scope.

Lemma under_refl p : under p p = true.
Proof. induction p as [|x p IH]; [done|]. simpl. by rewrite str_eqb_refl. Qed.
Lemma under_app p q : under p (p ++ q) = true.
Proof. induction p as [|x p IH]; [done|]. simpl. by rewrite str_eqb_refl. Qed.

Lemma Forall2_in_l {A B} (P : A -> B -> Prop) l k x : Forall2 P l k -> x ∈ l -> exists y, y ∈ k /\ P x y.
Proof.
  induction 1 as [|a b l k Hab _ IH]; [by intros ?%not_elem_of_nil|]. intros [->|Hx]%elem_of_cons.
  - exists b. split; [by left|done].
  - destruct (IH Hx) as (y & Hy & Hp). exists y. split; [by right|done].
Qed.

Section props.
Context `{Texts} `{Faults} `{DashOrder} `{Outside}.
Context `{Json Manifest} `{Json ManagerFile} `{Json UiFile} `{Json WorkerFile}.

Definition ctree (c : Committer) : Tree := ptree (process c).
(** The diff cache describes the files. *)
Definition cache_sound (b : path) (sid : str) (c : Committer) : Prop :=
  forall r e, previous_members b sid c !! r = Some e -> bundle_rel r /\ present b (ctree c) r (snd e).

(** Nothing outside the bundle is lost. *)
Definition spares_others (b : path) (t t' : Tree) : Prop :=
  forall x n, under b x = false -> t !! x = Some n -> t' !! x = Some n.
Lemma wrote_spares b rs t t' : Forall bundle_rel rs -> wrote b rs t t' -> spares_others b t t'.
Proof.
  intros Hrs [_ Hk] x n Hx. apply Hk. intros (r & Hr & ->). rewrite Forall_forall in Hrs.
  destruct (bundle_rel_cases b r (Hrs r Hr)) as (dir & s & E & Hd). rewrite E in Hx.
  destruct Hd as [[-> _]|[-> _]]; rewrite <-?app_assoc, under_app in Hx; done.
Qed.
Lemma sweep_spares b m q : spares_others b (ptree q) (ptree (snd (sweep_orphans b m q))).
Proof.
  intros x n Hx Hn. destruct (sweep_orphans_spec b m q) as [_ Ho]. rewrite Ho; [done|].
  intros [(name & _ & ->)|(name & _ & ->)]; rewrite <-?app_assoc, under_app in Hx; done.
Qed.

Lemma measured_verifies m : measured m -> verify_bytes (manifest_member m) (mb_bytes m) = None.
Proof.
  intros [Hl Hf]. unfold verify_bytes, manifest_member. cbn [byte_len mm_fingerprint]. by rewrite Hl, Hf, !N.eqb_refl.
Qed.

(** The cache a commit publishes. *)
Definition published (ms : list MemberBytes) : member_cache :=
  list_to_map (rev (map (fun m => (mb_rel_path m, cache_entry m)) ms)).
Lemma published_lookup ms r e : published ms !! r = Some e -> exists m, m ∈ ms /\ r = mb_rel_path m /\ e = cache_entry m.
Proof.
  intros E%elem_of_list_to_map_2. rewrite list_elem_of_In, <-in_rev, <-list_elem_of_In in E.
  apply list_elem_of_fmap in E as (m & [= -> ->] & Hm). by exists m.
Qed.

(** The bytes a manifest commits. *)
Definition intact (mm : ManifestMember) (bytes : list N) : Prop :=
  N.of_nat (length bytes) = byte_len mm /\ fingerprint bytes = mm_fingerprint mm.
Lemma verify_intact mm bytes : verify_bytes mm bytes = None <-> intact mm bytes.
Proof.
  unfold verify_bytes, intact. destruct (N.eqb_spec (N.of_nat (length bytes)) (byte_len mm)); cbn [negb]; [|by split; [|intros []]].
  destruct (N.eqb_spec (fingerprint bytes) (mm_fingerprint mm)); cbn [negb]; by split; [|intros []].
Qed.

(** What a successful commit leaves. *)
Record committed (b : path) (sid : str) (p : CapturePayload) (e : ProcessEnding) (anchor t1 t2 : Now) (c' : Committer)
    (m : Manifest) : Prop := {
  com_last : last_manifest b c' = Some m;
  com_manifest : exists bytes, to_vec_pretty m = inl bytes /\ present b (ctree c') MANIFEST_FILE bytes;
  com_session : session_id m = sid /\ ending m = writable_ending e /\ identity_floors m = cp_floors p;
  com_members : forall mm, mm ∈ members m ->
    exists bytes, present b (ctree c') (rel_path mm) bytes /\ intact mm bytes;
  com_cache : cache_sound b sid c';
  com_made : exists ms, assemble_members sid (time_now anchor t1) p = inl ms /\
    m = new_manifest sid (writable_ending e) (cp_floors p) anchor t2 ms /\
    previous_members b sid c' = published ms /\
    forall mb, mb ∈ ms -> present b (ctree c') (mb_rel_path mb) (mb_bytes mb)
}.

Lemma size_ceiling_frame total policy c :
  let c1 := snd (size_ceiling_hit total policy c) in
  last_commit c1 = last_commit c /\ process c1 = process c /\ lock c1 = lock c.
Proof. unfold size_ceiling_hit. by destruct (_ <=? _)%N. Qed.

Lemma others_spared_refl b t : spares_others b t t.
Proof. by intros x n _. Qed.
Lemma others_spared_trans b t t' t'' : spares_others b t t' -> spares_others b t' t'' -> spares_others b t t''.
Proof. intros Hs Hs' x n Hx Hn. by apply Hs'; [|apply Hs]. Qed.

(** From the rename of the manifest on, the commit stands. *)
Lemma commit_point b sid p e anchor t1 t2 ms bytes q c :
  let m := new_manifest sid (writable_ending e) (cp_floors p) anchor t2 ms in
  assemble_members sid (time_now anchor t1) p = inl ms ->
  Forall bundle_rel (rels ms) -> Forall measured ms -> to_vec_pretty m = inl bytes ->
  present b (ptree q) MANIFEST_FILE bytes ->
  (forall mb, mb ∈ ms -> present b (ptree q) (mb_rel_path mb) (mb_bytes mb)) ->
  committed b sid p e anchor t1 t2
    (publish {| lc_bundle := b; lc_session_id := sid; lc_manifest := m; lc_members := published ms |}
       (with_process (snd (sweep_orphans b m q)) c)) m.
Proof.
  intros m Ha Hb Hm Ej Hman Hpr. rewrite Forall_forall in Hb. rewrite Forall_forall in Hm.
  assert (Hl : listed_paths m = rels ms) by (unfold listed_paths, rels; cbn [members m new_manifest]; by rewrite map_map).
  assert (Hsw : forall mb, mb ∈ ms -> bundle_rel (mb_rel_path mb) /\
    present b (ptree (snd (sweep_orphans b m q))) (mb_rel_path mb) (mb_bytes mb)).
  { intros mb Hmb. pose proof (list_elem_of_fmap_2 mb_rel_path ms mb Hmb) as Hin. split; [by apply Hb|].
    apply sweep_present; [by apply Hb| |by apply Hpr]. rewrite Hl. by do 3 apply list_elem_of_further. }
  split.
  - unfold last_manifest. cbn. by rewrite bool_decide_eq_true_2.
  - exists bytes. split; [done|]. apply sweep_present; [constructor|by left|done].
  - done.
  - intros mm (mb & -> & Hmb)%list_elem_of_fmap. exists (mb_bytes mb).
    split; [by apply Hsw|apply verify_intact, measured_verifies, Hm, Hmb].
  - intros r en. unfold previous_members. cbn. rewrite bool_decide_eq_true_2, str_eqb_refl by done. cbn [andb].
    intros (mb & Hmb & -> & ->)%published_lookup. by apply Hsw.
  - exists ms. split_and!; [done|done| |by apply Hsw].
    unfold previous_members. cbn. by rewrite bool_decide_eq_true_2, str_eqb_refl by done.
Qed.

Context (nanos_at : N -> N).

Lemma commit_under_guard_spec b sid p e policy anchor t1 t2 c :
  distinct_keys p -> cache_sound b sid c ->
  let '(r, c') := commit_under_guard nanos_at b sid p e policy anchor t1 t2 c in
  lock c' = lock c /\ spares_others b (ctree c) (ctree c') /\
  match r with
  | inl _ => exists m, committed b sid p e anchor t1 t2 c' m
  | inr _ => ctree c' !! member_path b MANIFEST_FILE = ctree c !! member_path b MANIFEST_FILE /\ last_commit c' = last_commit c
  end.
Proof.
  intros Hd Hc. unfold commit_under_guard.
  destruct (assemble_members sid (time_now anchor t1) p) as [ms|err] eqn:Ea; [|split_and!; [done|apply others_spared_refl|done|done]].
  destruct (assemble_members_spec _ _ _ _ Hd Ea) as (Hb & Hn & Hmf & Hm).
  pose proof (size_ceiling_frame (foldr N.add 0%N (map mb_byte_len ms)) policy c) as Hsz. cbv zeta in Hsz.
  destruct (size_ceiling_hit _ policy c) as [hit c1]. cbn [snd] in Hsz. destruct Hsz as (Hl1 & Hp1 & Hk1).
  replace (previous_members b sid c1) with (previous_members b sid c) by (unfold previous_members; by rewrite Hl1).
  rewrite Hp1.
  pose proof (write_members_spec nanos_at b (previous_members b sid c) ms (process c) Hb Hn) as Hw.
  specialize (Hw ltac:(intros m _ [_ Hi]%identical_entry%Hc; exact Hi)).
  destruct (write_members nanos_at b _ ms (process c)) as [[[w k]|err] q].
  2:{ destruct Hw as (_ & Hw). split_and!; [done|by eapply wrote_spares| |done].
      destruct Hw as [Hs _]. by apply Hs; [constructor|]. }
  destruct Hw as (_ & _ & Hpr & Hw). set (m := new_manifest _ _ _ _ _ _).
  assert (Hmq : ptree q !! member_path b MANIFEST_FILE = ctree c !! member_path b MANIFEST_FILE).
  { destruct Hw as [Hs _]. by apply Hs; [constructor|]. }
  assert (Hsp : spares_others b (ctree c) (ptree q)) by (by eapply wrote_spares).
  destruct (to_vec_pretty m) as [bytes|why] eqn:Ej; [|by split_and!].
  pose proof (put_wrote nanos_at b MANIFEST_FILE bytes q rel_manifest) as Hp.
  destruct (put _ _ bytes q) as [[err|] q'].
  { destruct Hp as (_ & Hp). split_and!; [done| | |done].
    - eapply others_spared_trans; [exact Hsp|]. eapply wrote_spares; [|exact Hp]. constructor.
    - destruct Hp as [Hs _]. rewrite <-Hmq. by apply Hs; [constructor|apply not_elem_of_nil]. }
  destruct Hp as (_ & Hman & Hp). assert (Hone : Forall bundle_rel [MANIFEST_FILE]) by (by repeat constructor).
  destruct (sweep_orphans b m q') as [removed q''] eqn:Es. replace q'' with (snd (sweep_orphans b m q')) by (by rewrite Es).
  split_and!; [done| |].
  - eapply others_spared_trans; [exact Hsp|]. eapply others_spared_trans; [by eapply wrote_spares|]. apply sweep_spares.
  - exists m. apply (commit_point b sid p e anchor t1 t2 ms bytes); [done..|]. intros mb Hmb.
    pose proof (list_elem_of_fmap_2 mb_rel_path ms mb Hmb) as Hin. rewrite Forall_forall in Hb.
    apply (wrote_present b [MANIFEST_FILE] (ptree q)); [done|by apply Hb| |done|by apply Hpr].
    intros E%list_elem_of_singleton. apply Hmf. by rewrite <-E.
Qed.

Lemma commit_all_or_nothing_cases b sid p e policy anchor t1 t2 c rep c' :
  distinct_keys p -> cache_sound b sid c ->
  write_bundle nanos_at b sid p e policy anchor t1 t2 c = (inl rep, c') ->
  exists m, committed b sid p e anchor t1 t2 c' m.
Proof.
  intros Hd Hc. unfold write_bundle, try_guard. destruct (in_flight (lock c)); [done|]. set (c0 := with_lock _ c).
  pose proof (commit_under_guard_spec b sid p e policy anchor t1 t2 c0 Hd Hc) as Hs.
  destruct (commit_under_guard _ _ _ _ _ _ _ _ _ c0) as [[rep'|err] c1]; [|done]. intros [= <- <-].
  destruct Hs as (_ & _ & m & [Hl Hm Hse Hmem Hca Hma]). exists m. by split.
Qed.

(** C11: Committing is all or nothing, whatever calls to the disk fail and
    wherever the process dies, for a payload of distinct worker keys and a diff
    cache whose members are on the disk.  A commit that answers has put a manifest in
    place whose every member is on disk with the length and the fingerprint
    it lists; one that fails, or finds another in flight, has left the old
    manifest and the diff cache as they were.  Nothing outside the bundle is
    ever lost. *)
Theorem commit_all_or_nothing b sid p e policy anchor t1 t2 c :
  distinct_keys p -> cache_sound b sid c ->
  let '(r, c') := write_bundle nanos_at b sid p e policy anchor t1 t2 c in
  spares_others b (ctree c) (ctree c') /\ in_flight (lock c') = in_flight (lock c) /\
  match r with
  | inl _ => in_flight (lock c) = false /\ exists m, committed b sid p e anchor t1 t2 c' m
  | inr _ => ctree c' !! member_path b MANIFEST_FILE = ctree c !! member_path b MANIFEST_FILE /\ last_commit c' = last_commit c
  end.
Proof.
  intros Hd Hc. unfold write_bundle, try_guard. destruct (in_flight (lock c)) eqn:El.
  { split_and!; [apply others_spared_refl|done|done|done]. }
  set (c0 := with_lock _ c).
  pose proof (commit_under_guard_spec b sid p e policy anchor t1 t2 c0 Hd Hc) as Hs.
  destruct (commit_under_guard _ _ _ _ _ _ _ _ _ c0) as [r c1]. destruct Hs as (_ & Hsp & Hr).
  split_and!; [exact Hsp|done|]. destruct r as [rep|err]; [|exact Hr].
  split; [done|]. destruct Hr as [m [Hl Hm Hs Hmem Hca Hma]]. exists m. by split.
Qed.

(** ** The diff *)

Context `{!JsonLaw Manifest manifest_finite}.
Context `{!JsonLaw ManagerFile (fun f => header_finite (manager_header f))}.
Context `{!JsonLaw UiFile (fun f => header_finite (ui_header f) /\ ui_finite (ui_section f))}.
Context `{!JsonLaw WorkerFile (fun f => header_finite (worker_header f) /\ worker_finite (worker_section f))}.

(** The durations of a payload, which the clock check does not look at. *)
Definition finite_durations (p : CapturePayload) : Prop :=
  Forall (fun w => is_finite (worked_secs w) = true) (cp_workers p) /\
  match cp_ui p with
  | Some u => Forall (fun q => is_finite (worked_duration_secs q) = true) (subagent_panels u)
  | None => True
  end.

(** The documents a payload is captured in. *)
Inductive document := DManager (f : ManagerFile) | DUi (f : UiFile) | DWorker (f : WorkerFile).
Definition parses (k : SectionKind) (bytes : list N) : option document :=
  match k with
  | KManager => match from_slice bytes with inl f => Some (DManager f) | inr _ => None end
  | KUi => match from_slice bytes with inl f => Some (DUi f) | inr _ => None end
  | KWorker => match from_slice bytes with inl f => Some (DWorker f) | inr _ => None end
  end.
Definition document_header (d : document) : SectionHeader :=
  match d with DManager f => manager_header f | DUi f => ui_header f | DWorker f => worker_header f end.

Lemma at_site_finite site l :
  Forall (fun e => is_finite (elapsed_secs (snd e)) = true) (at_site site l) -> times_finite l.
Proof.
  unfold at_site, times_finite. induction l as [|[fd [t|]] l IH]; simpl; [done| |].
  - intros [Ht Hl]%Forall_cons. constructor; [done|by apply IH].
  - intros Hl. constructor; [done|by apply IH].
Qed.
Lemma checked_times p :
  check_time_points p = None ->
  Forall (fun w => times_finite (worker_times w)) (cp_workers p) /\
  match cp_ui p with
  | Some u => times_finite (ui_times u) /\ Forall (fun q => times_finite (panel_times q)) (subagent_panels u)
  | None => True
  end.
Proof.
  unfold check_time_points, clock_offenders. intros E.
  assert (Hf : Forall (fun e => is_finite (elapsed_secs (snd e)) = true) (payload_times p)).
  { apply Forall_forall. intros [[site field] t] Hin. cbn [snd]. destruct (is_finite (elapsed_secs t)) eqn:Et; [done|].
    assert (Hb : (site, field, t) ∈ List.filter (fun '(_, _, t) => negb (is_finite (elapsed_secs t))) (payload_times p)).
    { apply list_elem_of_In, filter_In. rewrite <-list_elem_of_In. by rewrite Et. }
    by destruct (List.filter _ _) as [|x l]; [apply not_elem_of_nil in Hb|]. }
  unfold payload_times in Hf. apply Forall_app in Hf as [Hw Hu]. rewrite Forall_concat, Forall_map in Hw. split.
  - eapply Forall_impl; [exact Hw|]. intros w. apply at_site_finite.
  - destruct (cp_ui p) as [u|]; [|done]. apply Forall_app in Hu as [Hp Hu]. rewrite Forall_concat, Forall_map in Hp.
    split; [by eapply at_site_finite|]. eapply Forall_impl; [exact Hp|]. intros q. apply at_site_finite.
Qed.

(** The documents of a payload, with their paths, in write order. *)
Definition documents (sid : str) (saved : TimePoint) (p : CapturePayload) : list (str * document) :=
  map (fun w => (worker_rel_path (worker_key w), DWorker {| worker_header := header sid KWorker saved; worker_section := w |}))
    (sort_with by_rel_path (cp_workers p)) ++
  match cp_ui p with
  | Some u => [(UI_FILE, DUi {| ui_header := header sid KUi saved; ui_section := u |})]
  | None => []
  end ++
  [(MANAGER_FILE, DManager {| manager_header := header sid KManager saved; manager_section := cp_manager p |})].
Definition document_kind (d : document) : SectionKind :=
  match d with DManager _ => KManager | DUi _ => KUi | DWorker _ => KWorker end.
(** A member holds its document. *)
Definition holds (saved : TimePoint) (m : MemberBytes) (e : str * document) : Prop :=
  mb_rel_path m = fst e /\ mb_kind m = document_kind (snd e) /\ mb_saved m = saved /\
  measured m /\ parses (document_kind (snd e)) (mb_bytes m) = Some (snd e).

Lemma held {A} `{Json A} rel k saved (value : A) m d :
  new_member rel k saved value = inl m -> document_kind d = k ->
  (to_vec_pretty value = inl (mb_bytes m) -> parses k (mb_bytes m) = Some d) -> holds saved m (rel, d).
Proof.
  intros [Hj Hm]%new_member_inl Hk Hp. unfold holds. cbn [fst snd]. rewrite Hk.
  split_and!; [by rewrite Hm..| |by apply Hp]. rewrite Hm. done.
Qed.
Lemma assembled_documents sid saved p ms :
  is_finite (elapsed_secs saved) = true -> finite_durations p -> assemble_members sid saved p = inl ms ->
  Forall2 (holds saved) ms (documents sid saved p).
Proof.
  intros Hs [Hdw Hdu] (Hc & wms & ums & mm & -> & Ew & Eu & Em)%assemble_inl.
  apply checked_times in Hc as [Htw Htu]. unfold documents. apply Forall2_app; [|apply Forall2_app].
  - assert (Hw : Forall worker_finite (sort_with by_rel_path (cp_workers p))).
    { rewrite (sort_with_perm by_rel_path (cp_workers p)). apply Forall_and. by split. }
    clear -Ew Hw Hs JsonLaw3. revert wms Ew. induction Hw as [|w ws Hw _ IH]; intros [|m wms]; try done; cbn [map].
    intros [= Em E]. constructor; [|by apply IH]. refine (held _ _ _ _ _ (DWorker _) Em eq_refl _). intros Hj. cbn [parses].
    erewrite from_to; [done| |exact Hj]. by split.
  - unfold ui_members in Eu. destruct (cp_ui p) as [u|]; destruct ums as [|um [|]]; try done.
    injection Eu as Eu. constructor; [|constructor]. refine (held _ _ _ _ _ (DUi _) Eu eq_refl _). intros Hj. cbn [parses].
    erewrite from_to; [done| |exact Hj]. destruct Htu as [Ht Hp]. split; [done|]. split; [done|]. apply Forall_and. by split.
  - constructor; [|constructor]. refine (held _ _ _ _ _ (DManager _) Em eq_refl _). intros Hj. cbn [parses].
    by erewrite from_to; [|..|exact Hj].
Qed.

Lemma document_kind_of_rel sid saved p sid' saved' p' r d d' :
  (r, d) ∈ documents sid saved p -> (r, d') ∈ documents sid' saved' p' -> document_kind d = document_kind d'.
Proof.
  assert (Hk : forall sid saved p d, (r, d) ∈ documents sid saved p ->
    document_kind d = if str_eqb r UI_FILE then KUi else if str_eqb r MANAGER_FILE then KManager else KWorker).
  { intros sid0 saved0 p0 d0. unfold documents. rewrite !elem_of_app. intros [Hw|[Hu|Hm]].
    - apply list_elem_of_fmap in Hw as (w & [= -> ->] & _). pose proof (worker_rel_not_fixed (worker_key w)) as Hn.
      rewrite !not_elem_of_cons in Hn. destruct Hn as (Hn1 & Hn2 & _).
      destruct (str_eqb _ UI_FILE) eqn:E1; [by apply str_eqb_eq in E1|].
      destruct (str_eqb _ MANAGER_FILE) eqn:E2; [by apply str_eqb_eq in E2|done].
    - destruct (cp_ui p0); [|by apply not_elem_of_nil in Hu]. apply list_elem_of_singleton in Hu as [= -> ->]. done.
    - apply list_elem_of_singleton in Hm as [= -> ->]. done. }
  intros H1' H2'. by rewrite (Hk _ _ _ _ H1'), (Hk _ _ _ _ H2').
Qed.
Lemma document_headers sid saved p r d :
  (r, d) ∈ documents sid saved p -> document_header d = header sid (document_kind d) saved.
Proof.
  unfold documents. rewrite !elem_of_app. intros [Hw|[Hu|Hm]].
  - by apply list_elem_of_fmap in Hw as (w & [= -> ->] & _).
  - destruct (cp_ui p); [|by apply not_elem_of_nil in Hu]. by apply list_elem_of_singleton in Hu as [= -> ->].
  - by apply list_elem_of_singleton in Hm as [= -> ->].
Qed.

Lemma write_members_skipped b cached ms q w k q' :
  write_members nanos_at b cached ms q = (inl (w, k), q') -> k = length (List.filter (identical cached) ms).
Proof.
  revert q w k q'. induction ms as [|m ms IH]; intros q w k q'; [by intros [= <- <- _]|]. rewrite write_members_cons. cbn [List.filter].
  destruct (write_one _ b cached m q) as [[e|] q1]; [done|].
  destruct (write_members _ b cached ms q1) as [[[w1 k1]|e] q2] eqn:E; [|done].
  destruct (identical cached m); intros [= <- <- _]; [simpl; f_equal|]; by eapply IH.
Qed.
Lemma commit_skipped b sid p e policy anchor t1 t2 c rep c' ms :
  write_bundle nanos_at b sid p e policy anchor t1 t2 c = (inl rep, c') ->
  assemble_members sid (time_now anchor t1) p = inl ms ->
  members_skipped_identical rep = length (List.filter (identical (previous_members b sid c)) ms).
Proof.
  unfold write_bundle, try_guard. destruct (in_flight (lock c)); [done|]. unfold commit_under_guard.
  intros E Ea. rewrite Ea in E.
  pose proof (size_ceiling_frame (foldr N.add 0%N (map mb_byte_len ms)) policy (with_lock {| in_flight := true; dirty := dirty (lock c) |} c)) as Hsz.
  cbv zeta in Hsz. destruct (size_ceiling_hit _ policy _) as [hit c1]. cbn [snd] in Hsz. destruct Hsz as (Hl1 & _).
  assert (Hp : previous_members b sid c1 = previous_members b sid c) by (unfold previous_members; by rewrite Hl1).
  rewrite Hp in E. destruct (write_members _ b _ ms (process c1)) as [[[w k]|err] q] eqn:Ew; [|done].
  apply write_members_skipped in Ew. destruct (to_vec_pretty _); [|done]. destruct (put _ _ _ q) as [[err|] q']; [done|].
  destruct (sweep_orphans _ _ _) as [removed q'']. by injection E as <- _.
Qed.

(** The diff against the last commit never spares a write: every member
    carries the instant of its capture, so a member captured at another
    instant is never byte-identical to the committed one, and a second commit
    of the same payload skips nothing. *)
Theorem diff_never_skips b sid p e policy anchor t1 t2 p' e' policy' t1' t2' c c1 c2 rep rep' :
  distinct_keys p -> distinct_keys p' -> finite_durations p -> finite_durations p' -> cache_sound b sid c ->
  is_finite (elapsed_secs (time_now anchor t1)) = true -> is_finite (elapsed_secs (time_now anchor t1')) = true ->
  elapsed_secs (time_now anchor t1) <> elapsed_secs (time_now anchor t1') ->
  write_bundle nanos_at b sid p e policy anchor t1 t2 c = (inl rep, c1) ->
  write_bundle nanos_at b sid p' e' policy' anchor t1' t2' c1 = (inl rep', c2) ->
  members_skipped_identical rep' = 0.
Proof.
  intros Hd Hd' Hf Hf' Hc Hs Hs' Hne E1 E2.
  pose proof (commit_all_or_nothing_cases b sid p e policy anchor t1 t2 c rep c1 Hd Hc E1) as [m Hcom].
  destruct (com_made _ _ _ _ _ _ _ _ _ Hcom) as (ms & Ea & _ & Hprev & _).
  pose proof (commit_all_or_nothing_cases b sid p' e' policy' anchor t1' t2' c1 rep' c2 Hd' (com_cache _ _ _ _ _ _ _ _ _ Hcom) E2)
    as [m' Hcom'].
  destruct (com_made _ _ _ _ _ _ _ _ _ Hcom') as (ms' & Ea' & _).
  rewrite (commit_skipped _ _ _ _ _ _ _ _ _ _ _ _ E2 Ea'), Hprev.
  pose proof (assembled_documents _ _ _ _ Hs Hf Ea) as Hm. pose proof (assembled_documents _ _ _ _ Hs' Hf' Ea') as Hm'.
  destruct (List.filter _ ms') as [|mb l] eqn:El; [done|]. exfalso.
  assert (Hin : mb ∈ ms' /\ identical (published ms) mb = true).
  { rewrite list_elem_of_In, <-filter_In, El. by left. }
  destruct Hin as [Hin Hid]. apply identical_entry, published_lookup in Hid as (mb0 & Hin0 & Hr & Hent).
  destruct (Forall2_in_l _ _ _ _ Hm Hin0) as ([r d] & Hdoc & Hr0 & Hk0 & _ & _ & Hp0).
  destruct (Forall2_in_l _ _ _ _ Hm' Hin) as ([r' d'] & Hdoc' & Hr1 & Hk1 & _ & _ & Hp1).
  cbn [fst snd] in *. assert (r' = r) as -> by congruence.
  pose proof (document_kind_of_rel _ _ _ _ _ _ _ _ _ Hdoc Hdoc') as Hkd.
  injection Hent as _ _ Hb. rewrite <-Hkd, Hb, Hp0 in Hp1. injection Hp1 as <-.
  apply document_headers in Hdoc, Hdoc'. rewrite Hdoc in Hdoc'. apply Hne. by injection Hdoc'.
Qed.

End props.
