(* ===== verification/LoadProps.v ===== *)
(** * What a load answers ([src/session/restore.rs])

    Reading a member that is present, the checks a committed member passes,
    settling the sections against its specification; a committed bundle comes
    back; a session that is restored is sound. *)

From S2P Require Import Prelude Str Utf8 Notice Registry Journal WorkerRestore Session Context ContextFacts Agents Decimal.
From S2P Require Import Normalize NormalizeFacts Disk DiskFacts Atomic Documents MemberName.
From S2P Require Import Commit CommitFacts Load CommitProps.
Local Open Scope nat_scope.

(** ** Reading *)

Definition plain_name (s : str) : bool := negb (is_empty s || str_eqb s (lit ".") || str_eqb s (lit "..")).
Lemma json_plain s : plain_name (s ++ lit ".json") = true.
Proof.
  unfold plain_name. apply negb_true_iff, orb_false_iff. split; [apply orb_false_iff; split|].
  - by destruct s.
  - apply not_true_iff_false. intros E%str_eqb_eq%(f_equal length). rewrite length_app in E. simpl in E. lia.
  - apply not_true_iff_false. intros E%str_eqb_eq%(f_equal length). rewrite length_app in E. simpl in E. lia.
Qed.
Lemma walk_name t cur n ns : is_folder t cur = true -> plain_name n = true -> walk t cur (n :: ns) = walk t (cur ++ [n]) ns.
Proof.
  intros Hf Hn. cbn [walk]. rewrite Hf. apply negb_true_iff, orb_false_iff in Hn as [Hn Hd]. by rewrite Hn, Hd.
Qed.
Lemma walk_member b t r :
  bundle_rel r -> reachable t (member_path b r) -> walk t b (split_char (ch "/") r) = At (member_path b r).
Proof.
  intros Hr Hre. assert (Hb : is_folder t b = true).
  { apply Hre. destruct (bundle_rel_cases b r Hr) as (dir & s & E & [[-> _]|[-> _]]); rewrite E, parent_app.
    - apply folders_of_self.
    - apply folders_of_app. left. apply folders_of_self. }
  destruct Hr as [ | | |key].
  1-3: (change (split_char _ _) with [UI_FILE] || change (split_char _ _) with [MANAGER_FILE] ||
        change (split_char _ _) with [MANIFEST_FILE]); by rewrite walk_name.
  rewrite split_worker_rel_path, walk_name by done. rewrite walk_name; [by rewrite member_path_worker| |apply json_plain].
  apply Hre. rewrite member_path_worker, parent_app. apply folders_of_self.
Qed.

Section load_facts.
Context `{Texts} `{Faults} `{DashOrder} `{Outside}.
Context `{Json Manifest} `{Json ManagerFile} `{Json UiFile} `{Json WorkerFile}.
Implicit Types (d : Disk) (b : path).

Lemma read_present b r bytes d :
  bundle_rel r -> starts_with (lit "/") r = false -> present b (tree d) r bytes -> read_fault (calls d) = false ->
  read_listed b r d = (BytesRead bytes, tick d (tree d)).
Proof.
  intros Hr Hs [Ht Hre] Hf. unfold read_listed. rewrite Hf, Hs, walk_member by done. by rewrite Ht.
Qed.
Lemma not_absolute r : bundle_rel r -> starts_with (lit "/") r = false.
Proof. by intros [ | | |key]. Qed.

(** ** A committed member loads *)

Definition loaded_of (dd : document) : Loaded :=
  match dd with
  | DManager f => LoadedManager (manager_section f)
  | DUi f => LoadedUi (ui_section f)
  | DWorker f => LoadedWorker (worker_section f)
  end.
Lemma header_agrees sid saved mb mf k :
  session_id mf = sid -> format_version mf = FORMAT_VERSION -> schema_version mf = SCHEMA_VERSION ->
  mb_kind mb = k -> mb_saved mb = saved ->
  check_header (header sid k saved) (manifest_member mb) mf (mb_rel_path mb) = None.
Proof.
  intros Hs Hf Hsc Hk Hsa. unfold check_header, header_disagreements, header, manifest_member.
  cbn [h_format_version h_schema_version h_session_id h_kind h_saved_wall h_saved_elapsed_secs member_count member_index
    mm_kind mm_saved_wall mm_saved_elapsed_secs].
  rewrite Hs, Hf, Hsc, Hk, Hsa, !N.eqb_refl, str_eqb_refl, !bool_decide_eq_true_2 by done. done.
Qed.

Lemma member_loads b sid saved p mf mb e d :
  Forall scalars (map worker_key (cp_workers p)) ->
  session_id mf = sid -> format_version mf = FORMAT_VERSION -> schema_version mf = SCHEMA_VERSION ->
  e ∈ documents sid saved p -> holds saved mb e -> bundle_rel (mb_rel_path mb) ->
  present b (tree d) (mb_rel_path mb) (mb_bytes mb) -> read_fault (calls d) = false ->
  load_member b (manifest_member mb) mf d = (inl (loaded_of (snd e)), tick d (tree d)).
Proof.
  intros Hsc Hs Hfv Hsv He (Hr & Hk & Hsa & Hm & Hp) Hb Hpr Hf. unfold load_member. cbn [rel_path manifest_member].
  rewrite (read_present b _ _ d Hb (not_absolute _ Hb) Hpr Hf).
  change (rel_path _) with (mb_rel_path mb). rewrite (measured_verifies mb Hm). f_equal.
  destruct e as [r dd]. cbn [fst snd] in *. pose proof (document_headers _ _ _ _ _ He) as Hh.
  unfold parse_section, parse_member. cbn [mm_kind rel_path manifest_member]. rewrite Hk.
  destruct dd as [f|f|f]; cbn [document_kind parses document_header loaded_of] in *.
  all: destruct (from_slice (mb_bytes mb)) as [f'|err]; [|done]; injection Hp as ->; rewrite Hh, header_agrees by done; try done.
  unfold documents in He. rewrite !elem_of_app in He. destruct He as [Hw|[Hu|Hman]].
  - apply list_elem_of_fmap in Hw as (w & [= -> Ef] & Hw). rewrite Hr, file_stem_rel_path, percent_unescape_escape.
    + subst f. cbn [worker_section]. by rewrite str_eqb_refl.
    + rewrite Forall_forall in Hsc. apply Hsc. apply list_elem_of_fmap. exists w. split; [done|].
      by rewrite (sort_with_perm by_rel_path (cp_workers p)) in Hw.
  - destruct (cp_ui p); [|by apply not_elem_of_nil in Hu]. by apply list_elem_of_singleton in Hu as [= _ Ef].
  - by apply list_elem_of_singleton in Hman as [= _ Ef].
Qed.

Lemma members_load b sid saved p mf es ms d :
  Forall scalars (map worker_key (cp_workers p)) ->
  session_id mf = sid -> format_version mf = FORMAT_VERSION -> schema_version mf = SCHEMA_VERSION ->
  Forall2 (holds saved) ms es -> (forall e, e ∈ es -> e ∈ documents sid saved p) -> Forall bundle_rel (rels ms) ->
  (forall mb, mb ∈ ms -> present b (tree d) (mb_rel_path mb) (mb_bytes mb)) -> (forall n, read_fault n = false) ->
  exists d', tree d' = tree d /\
    load_members b mf (map manifest_member ms) d = (map (fun e => loaded_of (snd e)) es, [], d').
Proof.
  intros Hsc Hs Hfv Hsv Hall. revert d. induction Hall as [|mb e ms es Hh _ IH]; intros d He Hb Hpr Hf; [by exists d|].
  cbn [map load_members]. cbn [rels map] in Hb. apply Forall_cons in Hb as [Hb1 Hb].
  rewrite (member_loads b sid saved p mf mb e d) by (try done; first [apply He; by left|apply Hpr; by left]).
  destruct (IH (tick d (tree d))) as (d' & Ht & El); [intros e' ?; apply He; by right|done|intros mb' ?; apply Hpr; by right|done|].
  rewrite El. by exists d'.
Qed.

Lemma workers_of_documents sid saved p :
  workers_of (map (fun e => loaded_of (snd e)) (documents sid saved p)) = sort_with by_rel_path (cp_workers p) /\
  ui_of (map (fun e => loaded_of (snd e)) (documents sid saved p)) = cp_ui p /\
  manager_of (map (fun e => loaded_of (snd e)) (documents sid saved p)) = Some (cp_manager p).
Proof.
  unfold documents, workers_of, ui_of, manager_of. rewrite !map_app, !omap_app, !map_map. cbn [snd loaded_of worker_section].
  set (ws := sort_with _ _).
  assert (Hw : omap (fun l => match l with LoadedWorker s => Some s | _ => None end) (map (fun x => LoadedWorker x) ws) = ws).
  { induction ws as [|w ws IH]; [done|]. simpl. by f_equal. }
  assert (Hn : forall (B : Type) (g : Loaded -> option B), (forall w, g (LoadedWorker w) = None) ->
    omap g (map (fun x => LoadedWorker x) ws) = []).
  { intros B g Hg. clear Hw. clearbody ws. induction ws as [|w ws IH]; [done|]. cbn. by rewrite Hg. }
  split_and!.
  - rewrite Hw. destruct (cp_ui p); simpl; by rewrite app_nil_r.
  - rewrite Hn by done. by destruct (cp_ui p).
  - rewrite Hn by done. by destruct (cp_ui p).
Qed.

End load_facts.

Section settle.
Context `{Texts} `{Faults} `{DashOrder} `{Outside}.
Context `{Json Manifest} `{Json ManagerFile} `{Json UiFile} `{Json WorkerFile}.

(** ** The report *)

Lemma pins_fold subject n healed worker r : pins_verified (fold_pass_set subject n healed worker r) = pins_verified r.
Proof.
  unfold fold_pass_set. cbv zeta. assert (E : pins_verified (count_repairs n r) = pins_verified r) by done. revert E.
  generalize (count_repairs n r). intros r1 E. by destruct worker, (_ =? 0)%N.
Qed.
Lemma pins_dispatched subject recorded r : pins_verified (dispatched_dangling subject recorded r) = pins_verified r.
Proof.
  unfold dispatched_dangling. destruct recorded as [|calls| |]; try done. cbv zeta. destruct (is_empty _); [done|]. by destruct (existsb _ _).
Qed.

(** ** The workers *)

(** What settling makes of a worker, and when it accepts it. *)
Definition heal_worker (w : WorkerSection) : WorkerSection :=
  if is_unrecoverable w then w else with_history (healed (history w)) w.
Definition own_pins_kept (rs : list MessageRecord) : Prop :=
  pins_kept rs (default no_witness (witness_of rs)) (pinned_prefix_end_records rs).
Definition worker_kept (w : WorkerSection) : Prop := is_unrecoverable w = false -> own_pins_kept (history w).

Lemma heal_unrecoverable w : is_unrecoverable (heal_worker w) = is_unrecoverable w.
Proof. unfold heal_worker. by destruct (is_unrecoverable w) eqn:E. Qed.
Lemma heal_key w : worker_key (heal_worker w) = worker_key w.
Proof. unfold heal_worker. by destruct (is_unrecoverable w). Qed.

Lemma normalize_workers_cases ws rep :
  match normalize_workers ws rep with
  | (inl ws', rep') => Forall worker_kept ws /\ ws' = map heal_worker ws /\ pins_verified rep' = pins_verified rep
  | (inr _, _) => ~ Forall worker_kept ws
  end.
Proof.
  revert rep. induction ws as [|w ws IH]; intros rep; [done|]. cbn [normalize_workers map].
  unfold normalize_worker, heal_worker at 1. destruct (is_unrecoverable w) eqn:Eu.
  - specialize (IH rep). destruct (normalize_workers ws rep) as [[ws'|r] rep'].
    + destruct IH as (Hk & -> & Hp). split_and!; [|done|done]. constructor; [|done]. intros Hu. by rewrite Eu in Hu.
    + by intros [_ ?]%Forall_cons.
  - pose proof (normalize_cases (history w) (dangling w) (default no_witness (witness_of (history w)))
      (pinned_prefix_end_records (history w)) (new (Nat.max (context_tokens w) 1))) as Hn.
    destruct (fst (normalize _ _ _ _ _)) as [[rs norm]|r].
    + destruct Hn as (Hk & -> & _). cbv zeta. set (rep1 := dispatched_dangling _ _ _).
      assert (Hp1 : pins_verified rep1 = pins_verified rep) by (unfold rep1; by rewrite pins_dispatched, pins_fold).
      specialize (IH rep1). destruct (normalize_workers ws rep1) as [[ws'|r] rep'].
      * destruct IH as (Hk' & -> & Hp). rewrite <-Hp1. split_and!; [|done|done]. constructor; [by intros _|done].
      * by intros [_ ?]%Forall_cons.
    + destruct Hn as [Hk _]. intros [Hw _]%Forall_cons. by apply Hk, Hw.
Qed.

(** ** Settling *)

(** The specification of L6 to L9: when the sections are accepted, and the
    session they make. *)
Definition settleable (mf : Manifest) (mgr : ManagerSection) (ui : UiSection) (ws : list WorkerSection) : Prop :=
  verify_pins mgr Stored = None /\ structural_violation mgr ui ws mf = None /\
  pins_kept (sec_messages mgr) (sec_pin_witness mgr) (pinned_prefix_end_records (sec_messages mgr)) /\
  Forall worker_kept ws.
Definition settled_session (b : path) (mf : Manifest) (mgr : ManagerSection) (ui : UiSection) (ws : list WorkerSection)
    : RestoredSession :=
  {| restored_id := session_id mf; restored_manager := with_records (healed (sec_messages mgr)) mgr; restored_ui := ui;
     restored_workers := map heal_worker ws; restored_floors := identity_floors mf;
     restored_manifest := mf; restored_bundle := b |}.
Definition lost_workers (ws : list WorkerSection) : list str := map worker_key (List.filter is_unrecoverable ws).
Definition restored_as (s : RestoredSession) (e : ProcessEnding) (lost : list str) (rep : RepairReport) : RestoreOutcome :=
  match lost with [] => Restored s e rep | _ => PartiallyRestored s e lost rep end.

Lemma lost_heal ws : map worker_key (List.filter is_unrecoverable (map heal_worker ws)) = lost_workers ws.
Proof.
  unfold lost_workers. induction ws as [|w ws IH]; [done|]. cbn [map List.filter]. rewrite heal_unrecoverable.
  destruct (is_unrecoverable w); cbn [map]; [by rewrite heal_key, IH|done].
Qed.

(** The stored pins, once kept, are those of the installed transcript. *)
Lemma drift_none_pair x y rs l window :
  pinned_identity_drift (x :: y :: rs) l window = None -> exists l', l = x :: y :: l'.
Proof.
  unfold pinned_identity_drift. cbn [length Nat.ltb Nat.leb]. destruct l as [|x' [|y' l']]; [done..|].
  cbn [length Nat.ltb Nat.leb]. unfold pinned_pair_drift. cbn [lookup list_lookup].
  case_bool_decide as E1; [|done]. case_bool_decide as E2; [|done]. intros _. injection E1 as <-. injection E2 as <-. by exists l'.
Qed.
Lemma installed_pins mgr :
  verify_pins mgr Stored = None ->
  pins_kept (sec_messages mgr) (sec_pin_witness mgr) (pinned_prefix_end_records (sec_messages mgr)) ->
  verify_pins (with_records (healed (sec_messages mgr)) mgr) Installed = None.
Proof.
  intros Hs (_ & Hp & Hd). unfold verify_pins in *. cbn [sec_messages sec_pin_witness sec_pinned_prefix_end with_records].
  destruct (sec_messages mgr) as [|[a| | |] [|[|g| |] rs]] eqn:Em; try done.
  apply drift_none_pair in Hd as [l El]. rewrite Hp. rewrite El in *.
  case_bool_decide as Ew; [|done]. cbn [negb] in *. by destruct (_ =? _)%N.
Qed.

Lemma settle_cases b mf mgr ui ws rep :
  match settle b mf mgr ui ws rep with
  | NoBundle _ _ _ => False
  | Refused _ _ => ~ settleable mf mgr ui ws
  | o => settleable mf mgr ui ws /\ exists rep', pins_verified rep' = true /\
      o = restored_as (settled_session b mf mgr ui ws) (derive_ending (ending mf)) (lost_workers ws) rep'
  end.
Proof.
  unfold settle. cbv zeta. unfold settleable. destruct (verify_pins mgr Stored) eqn:Ev; [by intros [? _]|].
  destruct (structural_violation mgr ui ws mf) eqn:Es; [by intros (_ & ? & _)|].
  pose proof (normalize_cases (sec_messages mgr) (sec_dangling mgr) (sec_pin_witness mgr)
    (pinned_prefix_end_records (sec_messages mgr)) (new (Nat.max (sec_max_context_tokens mgr) 1))) as Hn.
  destruct (fst (normalize _ _ _ _ _)) as [[rs norm]|r]; [|by intros (_ & _ & ? & _); destruct Hn].
  destruct Hn as (Hk & -> & _). rewrite installed_pins by done. set (rep4 := dispatched_dangling _ _ _).
  pose proof (normalize_workers_cases ws (set_pins true rep4)) as Hw.
  destruct (normalize_workers ws (set_pins true rep4)) as [[ws'|r] rep5]; [|by intros (_ & _ & _ & ?)].
  destruct Hw as (Hw & -> & Hp). rewrite lost_heal. fold (settled_session b mf mgr ui ws).
  destruct (lost_workers ws) as [|k lost]; (split; [by split_and!|]); eexists; split; [|done| |done]; exact Hp.
Qed.

End settle.

(** ** A committed bundle *)

Section committed.
Context `{Texts} `{Faults} `{DashOrder} `{Outside}.
Context `{Json Manifest} `{Json ManagerFile} `{Json UiFile} `{Json WorkerFile}.
Context `{!JsonLaw Manifest manifest_finite}.
Context `{!JsonLaw ManagerFile (fun f => header_finite (manager_header f))}.
Context `{!JsonLaw UiFile (fun f => header_finite (ui_header f) /\ ui_finite (ui_section f))}.
Context `{!JsonLaw WorkerFile (fun f => header_finite (worker_header f) /\ worker_finite (worker_section f))}.

Lemma reached_folder b r t : bundle_rel r -> reachable t (member_path b r) -> is_folder t b = true.
Proof.
  intros Hr Hre. apply Hre. destruct (bundle_rel_cases b r Hr) as (dir & s & E & [[-> _]|[-> _]]); rewrite E, parent_app.
  - apply folders_of_self.
  - apply folders_of_app. left. apply folders_of_self.
Qed.
Lemma scan_orphans_tree dir prefix listed d : tree (snd (scan_orphans dir prefix listed d)) = tree d.
Proof. unfold scan_orphans, read_dir, read_call. by destruct (read_fault _). Qed.
Lemma orphan_members_tree b listed d : tree (snd (orphan_members b listed d)) = tree d.
Proof.
  unfold orphan_members. pose proof (scan_orphans_tree b [] listed d) as Ha. destruct (scan_orphans b [] listed d) as [x d1].
  pose proof (scan_orphans_tree (b ++ [WORKERS_DIR_NAME]) (WORKERS_DIR_NAME ++ lit "/") listed d1) as Hb.
  destruct (scan_orphans _ _ _ d1) as [y d2]. cbn [snd] in *. by rewrite Hb.
Qed.

Lemma new_manifest_finite sid e f anchor t2 saved ms es :
  is_finite (elapsed_secs saved) = true -> Forall2 (holds saved) ms es -> manifest_finite (new_manifest sid e f anchor t2 ms).
Proof.
  intros Hs Hall. unfold manifest_finite. cbn [members new_manifest]. apply Forall_map, Forall_forall. intros mb Hmb.
  destruct (Forall2_in_l _ _ _ _ Hall Hmb) as (d & _ & _ & _ & E & _). cbn [mm_saved_elapsed_secs manifest_member]. by rewrite E.
Qed.

(** The bundle a commit leaves is read as the sections it was given. *)
Lemma committed_loads b sid p e anchor t1 t2 c' m now d :
  distinct_keys p -> finite_durations p -> is_finite (elapsed_secs (time_now anchor t1)) = true ->
  (forall n, read_fault n = false) -> committed b sid p e anchor t1 t2 c' m -> tree d = ctree c' ->
  exists ws, tree (snd (load_bundle b now d)) = tree d /\
    fst (load_bundle b now d) =
      settle b m (cp_manager p) (default default_ui (cp_ui p))
        (sort_with by_key (sort_with by_rel_path (cp_workers p))) (warn_all ws empty_report).
Proof.
  intros Hd Hf Ht Hr Hcom Hd0. destruct (com_manifest _ _ _ _ _ _ _ _ _ Hcom) as (bytes & Ej & Hman).
  destruct (com_made _ _ _ _ _ _ _ _ _ Hcom) as (ms & Ea & Em & _ & Hpr). rewrite <-Hd0 in *.
  pose proof (assembled_documents _ _ _ _ Ht Hf Ea) as Hall. destruct (assemble_members_spec _ _ _ _ Hd Ea) as (Hb & _).
  assert (Hparse : from_slice bytes = inl m).
  { apply from_to; [|done]. rewrite Em. by eapply new_manifest_finite. }
  destruct Hman as [Hfile Hre]. unfold load_bundle. change (member_path b MANIFEST_FILE) with (b ++ [MANIFEST_FILE]) in *.
  rewrite (reached_folder b MANIFEST_FILE) by (done || constructor).
  assert (His : is_file (tree d) (b ++ [MANIFEST_FILE]) = true) by (unfold is_file; by rewrite Hfile). rewrite His. cbn [negb orb].
  unfold read_bytes, read_call. rewrite Hr. rewrite Hfile. cbn [mbind option_bind node_bytes].
  rewrite Hparse. unfold version_refusal. rewrite Em. cbn [format_version schema_version new_manifest]. rewrite <-Em.
  change (negb (FORMAT_VERSION =? FORMAT_VERSION)%N) with false. change (negb (SCHEMA_VERSION =? SCHEMA_VERSION)%N) with false.
  pose proof (orphan_members_tree b (listed_paths m) (tick d (tree d))) as Ho.
  destruct (orphan_members b (listed_paths m) (tick d (tree d))) as [orphans d2]. cbn [snd tree tick] in Ho.
  destruct (members_load b sid (time_now anchor t1) p m (documents sid (time_now anchor t1) p) ms d2)
    as (d3 & Ht3 & El); [by destruct Hd|by rewrite Em..|done|done|done|by rewrite Ho|done|].
  replace (members m) with (map manifest_member ms) by (by rewrite Em). rewrite El. eexists. split; [by rewrite <-Ho|].
  unfold assemble. cbn [find_first]. destruct (workers_of_documents sid (time_now anchor t1) p) as (-> & -> & ->).
  by rewrite app_nil_r.
Qed.

(** ** The sections *)

Definition sane_times (l : list (str * option TimePoint)) : Prop :=
  Forall (fun e => match snd e with Some t => is_sane t = true | None => True end) l.
Lemma clock_sane w : worker_clock_violation w = None <-> sane_times (worker_times w).
Proof.
  unfold worker_clock_violation, sane_times, worker_times. rewrite !Forall_cons. cbn [find_first snd].
  destruct (is_sane (started w)), (completed w) as [tc|], (last_activity w) as [tl|]; cbn [negb];
    try destruct (is_sane tc); try destruct (is_sane tl); cbn [negb]; split; try done; naive_solver.
Qed.
Lemma first_some_none {A B} (f : A -> option B) l : first_some f l = None <-> Forall (fun x => f x = None) l.
Proof.
  induction l as [|x l IH]; [by split; [constructor|]|]. cbn [first_some]. rewrite Forall_cons. destruct (f x); [by split; [|intros []]|tauto].
Qed.
Lemma concat_map_nil {A B} (f : A -> list B) l : concat (map f l) = [] <-> Forall (fun x => f x = []) l.
Proof. induction l as [|x l IH]; [by split; [constructor|]|]. cbn [map concat]. rewrite Forall_cons, app_nil, IH. done. Qed.
Lemma sanity_perm f ws ws' : ws ≡ₚ ws' -> sanity_violations f ws = [] -> sanity_violations f ws' = [].
Proof. unfold sanity_violations. rewrite !concat_map_nil. by intros ->. Qed.
Lemma sanity_heal f ws : sanity_violations f (map heal_worker ws) = sanity_violations f ws.
Proof.
  unfold sanity_violations. rewrite map_map. f_equal. apply map_ext. intros w. unfold heal_worker. by destruct (is_unrecoverable w).
Qed.
Lemma times_heal w : worker_times (heal_worker w) = worker_times w.
Proof. unfold heal_worker. by destruct (is_unrecoverable w). Qed.

Lemma structural_none mgr ui ws mf :
  structural_violation mgr ui ws mf = None <->
  2 <= length (sec_messages mgr) /\ Forall (fun w => sane_times (worker_times w)) ws /\
  structural_violations ui = [] /\ sanity_violations (identity_floors mf) ws = [].
Proof.
  unfold structural_violation. destruct (Nat.ltb_spec (length (sec_messages mgr)) 2) as [Hl|Hl]; [split; [done|lia]|].
  assert (Hc : Forall (fun w => sane_times (worker_times w)) ws <-> first_some worker_clock_violation ws = None).
  { rewrite first_some_none, !Forall_forall. by setoid_rewrite clock_sane. }
  rewrite Hc. destruct (first_some _ ws); [by split; [|intros (_ & ? & _)]|].
  destruct (structural_violations ui); cbn [is_empty negb]; [|by split; [|intros (_ & _ & ? & _)]].
  by destruct (sanity_violations _ ws); cbn [is_empty negb]; split; [|..|intros (_ & _ & _ & ?)].
Qed.

(** A payload the loader accepts. *)
Record healthy (p : CapturePayload) : Prop := {
  h_pins : verify_pins (cp_manager p) Stored = None;
  h_window : plain_window (sec_messages (cp_manager p));
  h_workers : Forall (fun w => is_unrecoverable w = false -> plain_window (history w)) (cp_workers p);
  h_clocks : Forall (fun w => sane_times (worker_times w)) (cp_workers p);
  h_ui : structural_violations (default default_ui (cp_ui p)) = [];
  h_floors : sanity_violations (cp_floors p) (cp_workers p) = []
}.
Lemma verified_witness mgr :
  verify_pins mgr Stored = None ->
  sec_pin_witness mgr = default no_witness (witness_of (sec_messages mgr)) /\ 2 <= length (sec_messages mgr).
Proof.
  unfold verify_pins. destruct (sec_messages mgr) as [|[a| | |] [|[|g| |] rs]]; try done.
  case_bool_decide as Ew; [|done]. intros _. split; [by rewrite <-Ew|simpl; lia].
Qed.
Lemma healthy_settleable p m ws :
  healthy p -> identity_floors m = cp_floors p -> ws ≡ₚ cp_workers p ->
  settleable m (cp_manager p) (default default_ui (cp_ui p)) ws.
Proof.
  intros [Hp Hw Hws Hc Hu Hf] Em Hperm. destruct (verified_witness _ Hp) as [Hwit Hl]. split_and!; [done| | |].
  - apply structural_none. rewrite Em. split_and!; [done|by rewrite Hperm|done|]. by eapply sanity_perm.
  - rewrite Hwit. exact (proj1 (plain_window_kept _ Hw)).
  - rewrite Hperm. eapply Forall_impl; [exact Hws|]. intros w Hpl Hun. exact (proj1 (plain_window_kept _ (Hpl Hun))).
Qed.

Lemma healed_paired_same rs : paired (map into_wire rs) -> NoDup (call_ids (map into_wire rs)) -> healed rs = rs.
Proof. intros Hp Hn. unfold healed. by rewrite repair_valid, map_from_into. Qed.

(** C15: What is committed comes back.  When a commit of a healthy payload, with
    distinct keys and finite durations, has answered over a sound cache, loading
    its bundle without read faults restores the session: the floors, the UI and every worker as captured, the
    transcripts healed, the manager exactly as it was when no call was pending;
    it writes nothing.  An ending still in progress reads as a hard kill. *)
Theorem committed_session_restores (nanos_at : N -> N) b sid p e policy anchor t1 t2 c rep c' now d :
  distinct_keys p -> finite_durations p -> is_finite (elapsed_secs (time_now anchor t1)) = true -> healthy p ->
  cache_sound b sid c -> (forall n, read_fault n = false) ->
  write_bundle nanos_at b sid p e policy anchor t1 t2 c = (inl rep, c') -> tree d = ctree c' ->
  exists s rep', fst (load_bundle b now d) =
      restored_as s (derive_ending (writable_ending e)) (lost_workers (restored_workers s)) rep' /\
    tree (snd (load_bundle b now d)) = tree d /\ pins_verified rep' = true /\
    restored_id s = sid /\ restored_floors s = cp_floors p /\ restored_ui s = default default_ui (cp_ui p) /\
    restored_workers s ≡ₚ map heal_worker (cp_workers p) /\
    restored_manager s = with_records (healed (sec_messages (cp_manager p))) (cp_manager p) /\
    let wire := map into_wire (sec_messages (cp_manager p)) in
    (paired wire -> NoDup (call_ids wire) -> restored_manager s = cp_manager p).
Proof.
  intros Hd Hf Ht Hh Hc Hr Ew Hd0.
  destruct (commit_all_or_nothing_cases nanos_at b sid p e policy anchor t1 t2 c rep c' Hd Hc Ew) as [m Hcom].
  destruct (com_session _ _ _ _ _ _ _ _ _ Hcom) as (Hs & He & Hfl).
  destruct (committed_loads b sid p e anchor t1 t2 c' m now d Hd Hf Ht Hr Hcom Hd0) as (ws & Htree & ->).
  set (sorted := sort_with by_key _).
  assert (Hperm : sorted ≡ₚ cp_workers p) by (unfold sorted; by rewrite !sort_with_perm).
  pose proof (settle_cases b m (cp_manager p) (default default_ui (cp_ui p)) sorted (warn_all ws empty_report)) as Hset.
  pose proof (healthy_settleable p m sorted Hh Hfl Hperm) as Hok.
  assert (Hex : exists rep', pins_verified rep' = true /\ settle b m (cp_manager p) (default default_ui (cp_ui p)) sorted
    (warn_all ws empty_report) = restored_as (settled_session b m (cp_manager p) (default default_ui (cp_ui p)) sorted)
      (derive_ending (ending m)) (lost_workers sorted) rep') by (destruct (settle _ _ _ _ _ _); tauto).
  destruct Hex as (rep' & Hp & ->). exists (settled_session b m (cp_manager p) (default default_ui (cp_ui p)) sorted), rep'. rewrite <-He.
  split_and!; [|exact Htree|exact Hp|exact Hs|exact Hfl|done| |done|].
  - unfold lost_workers at 2. cbn [restored_workers settled_session]. by rewrite lost_heal.
  - cbn [restored_workers settled_session]. by rewrite Hperm.
  - intros wire Hpw Hnd. cbn [restored_manager settled_session]. rewrite healed_paired_same by done. by destruct (cp_manager p).
Qed.

(** ** What a restored session is worth *)

Lemma read_listed_tree b r d : tree (snd (read_listed b r d)) = tree d.
Proof.
  unfold read_listed. destruct (read_fault _); [done|]. destruct (starts_with _ _); [done|].
  destruct (walk _ _ _) as [x| | |]; try done. destruct (tree d !! x) as [n|]; [|done]. by destruct (node_bytes n).
Qed.
(** The file a member names holds the bytes the manifest commits. *)
Definition member_intact b (d : Disk) (mm : ManifestMember) : Prop :=
  exists bytes d', tree d' = tree d /\ fst (read_listed b (rel_path mm) d') = BytesRead bytes /\ intact mm bytes.
Lemma load_member_spec b mm mf d :
  tree (snd (load_member b mm mf d)) = tree d /\
  forall l, fst (load_member b mm mf d) = inl l -> member_intact b d mm.
Proof.
  unfold load_member. pose proof (read_listed_tree b (rel_path mm) d) as Ht.
  destruct (read_listed b (rel_path mm) d) as [[bytes| |why] d'] eqn:E; cbn [snd] in Ht; try done.
  destruct (verify_bytes mm bytes) eqn:Ev; [done|]. split; [done|]. intros l _. exists bytes, d.
  rewrite E. by split_and!; [| |apply verify_intact].
Qed.
Lemma load_members_spec b mf ms d :
  let '(ls, fs, d') := load_members b mf ms d in
  tree d' = tree d /\ forall mm, mm ∈ ms -> mm ∈ map fst fs \/ member_intact b d mm.
Proof.
  revert d. induction ms as [|mm ms IH]; intros d; [by split; [|intros ? ?%not_elem_of_nil]|]. cbn [load_members].
  pose proof (load_member_spec b mm mf d) as [Ht Hi]. destruct (load_member b mm mf d) as [r d1]. cbn [fst snd] in *.
  specialize (IH d1). destruct (load_members b mf ms d1) as [[ls fs] d2]. destruct IH as [Ht2 Hall].
  assert (Hrest : forall x, x ∈ ms -> x ∈ map fst fs \/ member_intact b d x).
  { intros x [?|(bytes & d' & E & ?)]%Hall; [by left|right]. exists bytes, d'. by rewrite E. }
  destruct r as [l|f]; (split; [by rewrite Ht2|]); intros x [->|Hx]%elem_of_cons.
  - right. by eapply Hi.
  - by apply Hrest.
  - left. by left.
  - destruct (Hrest x Hx); [left; by right|by right].
Qed.

(** What is checked of a session before it is given out. *)
Record session_sound (s : RestoredSession) : Prop := {
  so_pins : verify_pins (restored_manager s) Installed = None;
  so_paired : paired (map into_wire (sec_messages (restored_manager s)));
  so_workers : Forall (fun w => is_unrecoverable w = false -> paired (map into_wire (history w))) (restored_workers s);
  so_clocks : Forall (fun w => sane_times (worker_times w)) (restored_workers s);
  so_ui : structural_violations (restored_ui s) = [];
  so_floors : sanity_violations (restored_floors s) (restored_workers s) = []
}.
Lemma healed_paired rs : paired (map into_wire (healed rs)).
Proof. unfold healed. rewrite map_into_from. apply repair_paired. Qed.
Lemma settled_sound b mf mgr ui ws : settleable mf mgr ui ws -> session_sound (settled_session b mf mgr ui ws).
Proof.
  intros (Hp & (_ & Hc & Hu & Hf)%structural_none & Hk & Hw). split; cbn [settled_session restored_manager restored_workers restored_ui restored_floors].
  - by apply installed_pins.
  - apply healed_paired.
  - apply Forall_map, Forall_forall. intros w _. unfold heal_worker. destruct (is_unrecoverable w) eqn:E; [by rewrite E|].
    intros _. apply healed_paired.
  - apply Forall_map. eapply Forall_impl; [exact Hc|]. intros w. by rewrite times_heal.
  - done.
  - by rewrite sanity_heal.
Qed.

Definition restored_of (o : RestoreOutcome) : option RestoredSession :=
  match o with Restored s _ _ => Some s | PartiallyRestored s _ _ _ => Some s | _ => None end.
Lemma settle_restored b mf mgr ui ws rep s :
  restored_of (settle b mf mgr ui ws rep) = Some s -> session_sound s /\ restored_manifest s = mf.
Proof.
  pose proof (settle_cases b mf mgr ui ws rep) as Hs. destruct (settle b mf mgr ui ws rep) as [| |s' e r|s' e l r]; try done.
  all: intros [= ->]; destruct Hs as (Hok & rep' & _ & E); unfold restored_as in E; destruct (lost_workers ws); try done.
  all: injection E as -> _ _; by split; [apply settled_sound|].
Qed.
(** Assembling tolerates the failure of one worker. *)
Lemma assemble_restored b mf ls fs now rep s :
  restored_of (assemble b mf ls fs now rep) = Some s ->
  session_sound s /\ restored_manifest s = mf /\ length fs <= 1 /\ Forall (fun f => mm_kind (fst f) = KWorker) fs.
Proof.
  unfold assemble. destruct (find_first _ fs) as [[mm r]|] eqn:Ef; [done|]. apply find_first_None in Ef.
  assert (Hk : Forall (fun f => mm_kind (fst f) = KWorker) fs).
  { eapply Forall_impl; [exact Ef|]. intros f Hf. cbv beta in Hf. by case_bool_decide. }
  destruct fs as [|[mm r] [|g fs]]; [| |done]; (destruct (manager_of ls); [|done]).
  all: intros [Hs Hm]%settle_restored; split_and!; [done|done|simpl; lia|done].
Qed.

Lemma no_bundle_tree b d : tree (snd (no_bundle b d)) = tree d /\ restored_of (fst (no_bundle b d)) = None.
Proof.
  unfold no_bundle. pose proof (orphan_members_tree b [] d) as Ho. by destruct (orphan_members b [] d) as [l d'].
Qed.
Lemma version_known mf : version_refusal mf = None -> format_version mf = FORMAT_VERSION /\ schema_version mf = SCHEMA_VERSION.
Proof.
  unfold version_refusal. destruct (N.eqb_spec (format_version mf) FORMAT_VERSION); [|done].
  by destruct (N.eqb_spec (schema_version mf) SCHEMA_VERSION).
Qed.

(** C16: Loading writes nothing, and gives out only sound sessions: whatever is
    on the disk and whatever calls fail, a restored session has the manifest on
    the disk, of a known version, whose members have the bytes it commits, all
    but one worker at most; its pins are verified, every transcript answers its
    calls in place, its clocks and its UI are sane, and the identities its
    workers drew are below the floors. *)
Theorem restored_session_sound b now d :
  tree (snd (load_bundle b now d)) = tree d /\
  forall s, restored_of (fst (load_bundle b now d)) = Some s ->
    session_sound s /\
    (exists bytes, tree d !! member_path b MANIFEST_FILE ≫= node_bytes = Some bytes /\
       from_slice bytes = inl (restored_manifest s)) /\
    format_version (restored_manifest s) = FORMAT_VERSION /\ schema_version (restored_manifest s) = SCHEMA_VERSION /\
    exists failed, length failed <= 1 /\ Forall (fun mm => mm_kind mm = KWorker) failed /\
      forall mm, mm ∈ members (restored_manifest s) -> mm ∈ failed \/ member_intact b d mm.
Proof.
  unfold load_bundle. cbv zeta. destruct (negb _ || negb _).
  { destruct (no_bundle_tree b d) as [Ht Hn]. split; [done|]. intros s. by rewrite Hn. }
  unfold read_bytes, read_call. destruct (read_fault (calls d)); [done|].
  destruct (tree d !! member_path b MANIFEST_FILE ≫= node_bytes) as [bytes|] eqn:Eb; [|done].
  destruct (from_slice bytes) as [mf|err] eqn:Ep; [|done]. destruct (version_refusal mf) eqn:Ev; [done|].
  apply version_known in Ev as [Hfv Hsv].
  pose proof (orphan_members_tree b (listed_paths mf) (tick d (tree d))) as Ho.
  destruct (orphan_members b _ _) as [orphans d2]. cbn [snd tree tick] in Ho.
  pose proof (load_members_spec b mf (members mf) d2) as Hl.
  destruct (load_members b mf (members mf) d2) as [[ls fs] d3]. destruct Hl as [Ht Hall]. cbn [fst snd].
  split; [by rewrite Ht|]. intros s (Hs & -> & Hlen & Hk)%assemble_restored. split_and!; [done|by exists bytes|done|done|].
  exists (map fst fs). split_and!; [by rewrite length_map|by apply Forall_map|].
  intros mm [?|(by' & d' & E & ?)]%Hall; [by left|right]. exists by', d'. by rewrite E, Ho.
Qed.
End committed.

(** ** A bundle, written and read back *)

(** ** Codecs *)

Definition table_json {A} `{EqDecision A} (table : list A) : Json A := {|
  to_vec_pretty x := match list_find (x =.) table with Some (i, _) => inl [N.of_nat i] | None => inr (lit "not in the table") end;
  from_slice bytes :=
    match bytes with
    | [i] => match table !! N.to_nat i with
             | Some x => inl x
             | None => inr {| err_text := lit "unknown variant"; err_line := 1; err_column := 0 |}
             end
    | _ => inr {| err_text := lit "trailing characters"; err_line := 1; err_column := 1 |}
    end
|}.
Lemma table_law {A} `{EqDecision A} (table : list A) (finite : A -> Prop) : @JsonLaw A (table_json table) finite.
Proof.
  intros x bytes _. unfold to_vec_pretty, from_slice, table_json. destruct (list_find _ _) as [[i y]|] eqn:E; [|done].
  intros [= <-]. apply list_find_Some in E as (Hi & -> & _). by rewrite Nat2N.id, Hi.
Qed.

#[local] Instance WorkerCounters_eq_dec : EqDecision WorkerCounters.
Proof. solve_decision. Defined.
#[local] Instance NonRestorableNotice_eq_dec : EqDecision NonRestorableNotice.
Proof. solve_decision. Defined.
#[local] Instance ManagerSection_eq_dec : EqDecision ManagerSection.
Proof. solve_decision. Defined.
#[local] Instance WorkerSection_eq_dec : EqDecision WorkerSection.
Proof. solve_decision. Defined.
#[local] Instance SectionHeader_eq_dec : EqDecision SectionHeader.
Proof. solve_decision. Defined.
#[local] Instance ManagerFile_eq_dec : EqDecision ManagerFile.
Proof. solve_decision. Defined.
#[local] Instance WorkerFile_eq_dec : EqDecision WorkerFile.
Proof. solve_decision. Defined.
#[local] Instance IdentityFloors_eq_dec : EqDecision IdentityFloors.
Proof. solve_decision. Defined.
#[local] Instance ProcessEnding_eq_dec : EqDecision ProcessEnding.
Proof. solve_decision. Defined.
#[local] Instance ManifestMember_eq_dec : EqDecision ManifestMember.
Proof. solve_decision. Defined.
#[local] Instance Manifest_eq_dec : EqDecision Manifest.
Proof. solve_decision. Defined.
#[local] Instance UiFile_eq_dec : EqDecision UiFile.
Proof.
  assert (EqDecision QueuePanel) by solve_decision. assert (EqDecision SubagentPanel) by solve_decision.
  assert (EqDecision UiJournalRecord) by solve_decision. assert (EqDecision ComposerState) by solve_decision.
  assert (EqDecision ViewState) by solve_decision. assert (EqDecision BudgetWitness) by solve_decision.
  assert (EqDecision UiSection) by solve_decision. solve_decision.
Defined.

(** ** A session *)

Definition demo_worker : WorkerSection :=
  {| worker_key := lit "Coder-t-01"; section_id := 3; role := Coder; section_task := Some (lit "t-01");
     status := InProgress; status_label := lit "running"; started := {| elapsed_secs := f64_of 1; tp_wall := 1001 |};
     completed := None; last_activity := Some {| elapsed_secs := f64_of 2; tp_wall := 1002 |};
     worked_secs := f64_of 1; section_seq := None; context_tokens := 64; section_last_tokens := 8;
     counters := {| implementation_turns := 1; validation_rounds := 0; latest_validator_feedback := None |};
     brief := lit "do it"; snippets := []; image_urls := []; audio_urls := []; recursion_granted := false;
     history := [RSystem (lit "s"); RUser (lit "do it");
       RAssistant None None [{| rtc_id := lit "x"; rtc_kind := lit "function";
                                rtc_function := {| rfn_name := lit "ls"; rfn_arguments := lit "{}" |} |}]];
     section_source := LiveMirror;
     dangling := Dangling [{| dc_tool_call_id := lit "x"; dc_function_name := lit "ls"; dc_arguments := lit "{}"; dc_dispatched := true |}];
     unrecoverable_reason := None; non_restorable := [] |}.
Definition demo_manager : ManagerSection :=
  {| sec_messages := [RSystem (lit "s"); RUser (lit "goal"); RAssistant (Some (lit "working")) None []];
     sec_pinned_prefix_end := 2; sec_pin_witness := {| system_prompt_len := 1; goal_len := 4 |};
     sec_max_context_tokens := 1000; sec_rebirth_advisory_emitted := false; sec_consecutive_rebirths := 0;
     sec_dangling := Balanced |}.
Definition demo_payload : CapturePayload :=
  {| cp_manager := demo_manager; cp_ui := None; cp_workers := [demo_worker];
     cp_floors := {| worker_id_seq_floor' := 4; completed_seq_floor' := 0; notice_id_floor' := 1 |} |}.

Definition at_second (n : N) : Now := {| instant := (n * 1000000000)%N; wall := (1000 + n)%N |}.
Definition demo_bundle : path := [lit "plans"; lit "p"; lit "session"].
Definition demo_id : str := lit "3f2a".
Definition demo_process (t : Tree) : Process := {| pid := 7; staging_seq := 0; proc_disk := {| tree := t; calls := 0 |} |}.
Definition demo_committer : Committer :=
  {| last_commit := None; size_ceiling_warned := false; lock := new_lock; process := demo_process {[ [] := Folder ]} |}.
(** The two captures, at five and at six seconds. *)
Definition captures : list TimePoint := [time_now (at_second 0) (at_second 5); time_now (at_second 0) (at_second 6)].

#[local] Instance demo_managers : Json ManagerFile :=
  table_json (map (fun t => {| manager_header := header demo_id KManager t; manager_section := demo_manager |}) captures).
#[local] Instance demo_workers : Json WorkerFile :=
  table_json (map (fun t => {| worker_header := header demo_id KWorker t; worker_section := demo_worker |}) captures).
#[local] Instance demo_uis : Json UiFile := table_json [].
#[local] Existing Instances gmap_order no_faults plain_texts.
Definition demo_members (t : TimePoint) : list MemberBytes :=
  match assemble_members demo_id t demo_payload with inl ms => ms | inr _ => [] end.
#[local] Instance demo_manifests : Json Manifest :=
  table_json (map (fun t => new_manifest demo_id EndInProgress (cp_floors demo_payload) (at_second 0) (at_second 7) (demo_members t))
    captures).
#[local] Instance manager_law : JsonLaw ManagerFile (fun f => header_finite (manager_header f)) := table_law _ _.
#[local] Instance worker_law : JsonLaw WorkerFile (fun f => header_finite (worker_header f) /\ worker_finite (worker_section f)) :=
  table_law _ _.
#[local] Instance ui_law : JsonLaw UiFile (fun f => header_finite (ui_header f) /\ ui_finite (ui_section f)) := table_law _ _.
#[local] Instance manifest_law : JsonLaw Manifest manifest_finite := table_law _ _.
#[local] Instance demo_outside : Outside := {| outside_read _ _ := NotFound |}.

Definition demo_commit (n : N) (c : Committer) : (CommitReport + CommitError) * Committer :=
  write_bundle (fun _ => 0%N) demo_bundle demo_id demo_payload EndInProgress default_policy
    (at_second 0) (at_second n) (at_second 7) c.

Lemma demo_keys : distinct_keys demo_payload.
Proof. split; [apply NoDup_singleton|by repeat constructor]. Qed.
Lemma demo_cache : cache_sound demo_bundle demo_id demo_committer.
Proof. intros r e E. change (previous_members demo_bundle demo_id demo_committer) with (∅ : gmap str (N * N * list N)) in E. by rewrite lookup_empty in E. Qed.
Lemma demo_durations : finite_durations demo_payload.
Proof. split; [by repeat constructor|done]. Qed.
Lemma demo_healthy : healthy demo_payload.
Proof.
  split; [by vm_compute| | | |by vm_compute|by vm_compute].
  - split; [done|]. by repeat constructor.
  - constructor; [|constructor]. split; [done|]. by repeat constructor.
  - by repeat constructor.
Qed.

Definition succeeds {A E} (r : A + E) : bool := match r with inl _ => true | inr _ => false end.
Lemma demo_first : succeeds (fst (demo_commit 5 demo_committer)) = true.
Proof. by vm_compute. Qed.
Lemma demo_second : succeeds (fst (demo_commit 6 (snd (demo_commit 5 demo_committer)))) = true.
Proof. by vm_compute. Qed.

(** ** The properties, applied *)

Lemma commit_all_or_nothing_witness :
  exists c' m, ctree c' !! (demo_bundle ++ [MANIFEST_FILE]) = Some (BinaryFile [0%N]) /\
    committed demo_bundle demo_id demo_payload EndInProgress (at_second 0) (at_second 5) (at_second 7) c' m.
Proof.
  pose proof (commit_all_or_nothing (fun _ => 0%N) demo_bundle demo_id demo_payload EndInProgress default_policy
    (at_second 0) (at_second 5) (at_second 7) demo_committer demo_keys demo_cache) as Hc.
  fold (demo_commit 5 demo_committer) in Hc.
  destruct (demo_commit 5 demo_committer) as [[rep|err] c'] eqn:E; [|by pose proof demo_first as O; rewrite E in O].
  destruct Hc as (_ & _ & _ & m & Hm). exists c', m. split; [|exact Hm].
  assert (E' : snd (demo_commit 5 demo_committer) = c') by (by rewrite E). rewrite <-E'. by vm_compute.
Defined.

Lemma diff_never_skips_witness :
  exists rep', fst (demo_commit 6 (snd (demo_commit 5 demo_committer))) = inl rep' /\ members_skipped_identical rep' = 0.
Proof.
  destruct (demo_commit 5 demo_committer) as [[rep|err] c1] eqn:E1; [|by pose proof demo_first as O; rewrite E1 in O].
  destruct (demo_commit 6 c1) as [[rep'|err] c2] eqn:E2.
  - exists rep'. split; [by cbn [snd]; rewrite E2|].
    apply (diff_never_skips (fun _ => 0%N)
      demo_bundle demo_id demo_payload EndInProgress default_policy (at_second 0) (at_second 5) (at_second 7)
      demo_payload EndInProgress default_policy (at_second 6) (at_second 7) demo_committer c1 c2 rep rep' demo_keys demo_keys
      demo_durations demo_durations demo_cache); try exact E1; try exact E2; by vm_compute.
  - pose proof demo_second as O. rewrite E1 in O. cbn [snd] in O. by rewrite E2 in O.
Defined.

Lemma committed_session_restores_witness :
  exists s rep', fst (load_bundle demo_bundle (at_second 9) (proc_disk (process (snd (demo_commit 5 demo_committer))))) =
      Restored s HardKillInferred rep' /\
    restored_manager s = demo_manager /\ length (restored_workers s) = 1.
Proof.
  destruct (demo_commit 5 demo_committer) as [[rep|err] c1] eqn:E1; [|by pose proof demo_first as O; rewrite E1 in O].
  destruct (committed_session_restores (fun _ => 0%N) demo_bundle demo_id demo_payload EndInProgress default_policy
      (at_second 0) (at_second 5) (at_second 7) demo_committer rep c1 (at_second 9) (proc_disk (process c1)))
    as (s & rep' & E & _ & _ & _ & _ & _ & Hws & _ & Hm); [exact demo_keys|exact demo_durations|by vm_compute|
      exact demo_healthy|exact demo_cache|done|exact E1|done|].
  exists s, rep'. cbn [snd]. rewrite E. split_and!; [|apply Hm|by rewrite Hws].
  - apply Permutation_singleton_r in Hws. by rewrite Hws.
  - exact (repair_paired (map into_wire (sec_messages demo_manager))).
  - apply NoDup_nil_2.
Defined.

Lemma restored_session_sound_witness :
  exists s, session_sound s /\ restored_floors s = cp_floors demo_payload.
Proof.
  set (d := proc_disk (process (snd (demo_commit 5 demo_committer)))).
  destruct (restored_session_sound demo_bundle (at_second 9) d) as [_ Hs].
  assert (Hf : restored_floors <$> restored_of (fst (load_bundle demo_bundle (at_second 9) d)) = Some (cp_floors demo_payload))
    by by vm_compute.
  destruct (restored_of (fst (load_bundle demo_bundle (at_second 9) d))) as [s|] eqn:E; [|done].
  exists s. split; [by apply Hs|]. by injection Hf.
Defined.
