(* ===== verification/Plan.v ===== *)
(** * The plan on disk ([src/manager/phase.rs])

    The execution plan's lifecycle: writing, reading, checking off, archiving,
    clearing and cleaning up, with the completed-plan snapshots and the session
    state that goes with a plan.  Every operation runs under the plan mutex,
    so an operation is a function of the state; the errors of the file system
    are part of it. *)

From S2P Require Import Prelude Str Regex TaskId Agents PlanParse Markers Notice Session Registry Disk DiskFacts.

Definition PLAN_FILE : str := lit "execution_plan.md".
Definition ARCHIVE_SUBDIR : str := lit "archive".
Definition SNAPSHOT_PREFIX : str := lit "execution_plan_".
Definition LATEST_ARCHIVE_FILE : str := lit "execution_plan_archive.md".
Definition FORCED_PHASE_FILE : str := lit "forced_phase.txt".
Definition TRANSCRIPT_FILE : str := lit ".session_transcript.json".
Definition UI_JOURNAL_FILE : str := lit ".ui_transcript.json".
Definition BUNDLE_DIR_NAME : str := lit "session".

(** ** The state *)

(** The files, the statics of the module and the manager's last capture. *)
Record PlanState := {
  disk : Disk;
  plan_started_at : option (N * N);
  plan_completed_at : option N;
  plan_was_completed : bool;
  keep_session : bool;
  last_capture : option ManagerSection
}.
Definition on_disk (d : Disk) (s : PlanState) : PlanState :=
  {| disk := d; plan_started_at := plan_started_at s; plan_completed_at := plan_completed_at s;
     plan_was_completed := plan_was_completed s; keep_session := keep_session s;
     last_capture := last_capture s |}.
Definition files (s : PlanState) : Tree := tree (disk s).

(** The failed step of an operation; the text of an error is left out. *)
Inductive Step := Creating | Writing | Reading | Updating | Removing | NoFreeName.
Record PlanError := { failed_step : Step; failed_path : path }.

(** An operation: its answer or its error, and the state after it. *)
Definition Op (A : Type) : Type := PlanState -> (A + PlanError) * PlanState.
#[export] Instance op_ret : MRet Op := fun A a s => (inl a, s).
#[export] Instance op_bind : MBind Op := fun A B f m s =>
  match m s with
  | (inl a, s') => f a s'
  | (inr e, s') => (inr e, s')
  end.

(** A call whose failure is an error, and one whose failure is ignored. *)
Definition must (step : Step) (p : path) (f : Disk -> bool * Disk) : Op () := fun s =>
  let '(ok, d) := f (disk s) in
  (if ok : bool then inl () else inr {| failed_step := step; failed_path := p |}, on_disk d s).
Definition try_ (f : Disk -> bool * Disk) : Op () := fun s => (inl (), on_disk (snd (f (disk s))) s).
Definition ask {A} (f : Disk -> A * Disk) : Op A := fun s => let '(a, d) := f (disk s) in (inl a, on_disk d s).
Definition exists_ (p : path) : Op bool := fun s => (inl (path_exists (files s) p), s).
Definition modify (f : PlanState -> PlanState) : Op () := fun s => (inl (), f s).
Definition get_state : Op PlanState := fun s => (inl s, s).
(** An operation whose error is only logged. *)
Definition logged {A} (m : Op A) : Op () := fun s => (inl (), snd (m s)).
Definition fail {A} (step : Step) (p : path) : Op A := fun s =>
  (inr {| failed_step := step; failed_path := p |}, s).

(** ** The clocks of a plan *)

Definition record_plan_start (now : Now) (s : PlanState) : PlanState :=
  {| disk := disk s; plan_started_at := Some (instant now, wall now); plan_completed_at := None;
     plan_was_completed := false; keep_session := keep_session s; last_capture := last_capture s |}.
Definition record_plan_completed (now : Now) (s : PlanState) : PlanState :=
  {| disk := disk s; plan_started_at := plan_started_at s;
     plan_completed_at := or_else (plan_completed_at s) (Some (instant now));
     plan_was_completed := true; keep_session := keep_session s; last_capture := last_capture s |}.
Definition clear_plan_start (s : PlanState) : PlanState :=
  {| disk := disk s; plan_started_at := None; plan_completed_at := None; plan_was_completed := false;
     keep_session := keep_session s; last_capture := last_capture s |}.
Definition set_keep_session (keep : bool) (s : PlanState) : PlanState :=
  {| disk := disk s; plan_started_at := plan_started_at s; plan_completed_at := plan_completed_at s;
     plan_was_completed := plan_was_completed s; keep_session := keep; last_capture := last_capture s |}.
Definition clear_capture (s : PlanState) : PlanState :=
  {| disk := disk s; plan_started_at := plan_started_at s; plan_completed_at := plan_completed_at s;
     plan_was_completed := plan_was_completed s; keep_session := keep_session s; last_capture := None |}.

(** ** The work state of a content *)

(** Why a plan's state is unknown. *)
Inductive Warning := Unreadable (e : PlanError) | NoTaskLine (bytes : nat).
Inductive PlanWorkState :=
  | NoPlan
  | Unfinished (pending : nat)
  | CompleteWork
  | UnknownWork (w : Warning).

Section plan.
Context `{Faults} `{DashOrder} `{Unicode}.

Definition classify_plan_work (content : str) : PlanWorkState :=
  let tasks := parse_tasks content in
  if is_empty tasks then
    if is_empty (trim content) then NoPlan else UnknownWork (NoTaskLine (blen content))
  else
    let pending := length (List.filter is_pending tasks) in
    if pending =? 0 then CompleteWork else Unfinished pending.

Definition completion_of (content : str) : bool :=
  negb (has_unchecked_box content) && has_checked_box content.

Definition plan_path : path := [PLAN_FILE].
Definition forced_phase_path : path := [FORCED_PHASE_FILE].
Definition legacy_transcript_path : path := [TRANSCRIPT_FILE].
Definition legacy_ui_journal_path : path := [UI_JOURNAL_FILE].
Definition session_bundle_path : path := [BUNDLE_DIR_NAME].
Definition prompts_dir : path := [lit "prompts"].
Definition archive_dir : path := [ARCHIVE_SUBDIR].
Definition latest_archive_path : path := [LATEST_ARCHIVE_FILE].

(** ** Reading *)

Definition read_unlocked : Op (option str) :=
  there ← exists_ plan_path;
  if there : bool then
    r ← ask (read_to_string plan_path);
    match r with
    | Some content => mret (Some content)
    | None => fail Reading plan_path
    end
  else mret None.
Definition read : Op (option str) := read_unlocked.
Definition plan_exists : Op bool := exists_ plan_path.

Definition parse_unchecked_tasks (markdown : str) : list str := unchecked_task_ids markdown.
Definition try_pending_tasks : Op (list str) :=
  r ← read_unlocked;
  mret (match r with Some content => parse_unchecked_tasks content | None => [] end).
Definition try_all_tasks : Op (list str) :=
  r ← read_unlocked;
  mret (match r with Some content => all_task_ids content | None => [] end).

(** An error is logged and answered by a default. *)
Definition or_default {A} (a : A) (m : Op A) : Op A := fun s =>
  match m s with
  | (inl x, s') => (inl x, s')
  | (inr _, s') => (inl a, s')
  end.
Definition pending_tasks : Op (list str) := or_default [] try_pending_tasks.
Definition all_tasks : Op (list str) := or_default [] try_all_tasks.

Definition is_complete_unlocked : Op bool :=
  or_default false
    (r ← read_unlocked;
     mret (match r with Some content => completion_of content | None => false end)).
Definition plan_is_complete : Op bool := is_complete_unlocked.

Definition work_state : Op PlanWorkState := fun s =>
  match read_unlocked s with
  | (inl (Some content), s') => (inl (classify_plan_work content), s')
  | (inl None, s') => (inl NoPlan, s')
  | (inr e, s') => (inl (UnknownWork (Unreadable e)), s')
  end.

(** ** Snapshots *)

Definition is_snapshot_name (name : str) : bool :=
  starts_with SNAPSHOT_PREFIX name && ends_with (lit ".md") name.

(** The scan of the archive: the names taken, and a snapshot that already
    holds the content. *)
Fixpoint scan_snapshots (content : str) (names taken : list str) (identical : option path)
    : Op (list str * option path) :=
  match names with
  | [] => mret (taken, identical)
  | name :: names' =>
      if negb (is_snapshot_name name) then scan_snapshots content names' taken identical
      else
        let p := archive_dir ++ [name] in
        match identical with
        | Some _ => scan_snapshots content names' (name :: taken) identical
        | None =>
            s ← get_state;
            if is_file (files s) p then
              same ← ask (reads_as p content);
              scan_snapshots content names' (name :: taken) (if same : bool then Some p else None)
            else scan_snapshots content names' (name :: taken) None
        end
  end.

Definition snapshot_name (stamp : str) (suffix : nat) : str :=
  if suffix <=? 1 then SNAPSHOT_PREFIX ++ stamp ++ lit ".md"
  else SNAPSHOT_PREFIX ++ stamp ++ lit "_" ++ lit (pretty.pretty suffix) ++ lit ".md".
Definition MAX_SUFFIX : N := 100000.

(** The first free name from [suffix] on.  The names are distinct, so the
    names taken bound the search; the code gives up past [MAX_SUFFIX]. *)
Fixpoint free_name (fuel : nat) (stamp : str) (taken : list str) (suffix : nat) : option (option str) :=
  match fuel with
  | 0 => None
  | S fuel' =>
      if str_mem (snapshot_name stamp suffix) taken then
        if (MAX_SUFFIX <? N.of_nat (S suffix))%N then Some None
        else free_name fuel' stamp taken (S suffix)
      else Some (Some (snapshot_name stamp suffix))
  end.

(** [None] for the name is the code's refusal; running out of fuel cannot
    happen and is the same refusal. *)
Definition snapshot_dest (stamp content : str) : Op (path * bool) :=
  listing ← ask (read_dir archive_dir);
  '(taken, identical) ← scan_snapshots content (default [] listing) [] None;
  match identical with
  | Some existing => mret (existing, true)
  | None =>
      match free_name (S (length taken)) stamp taken 1 with
      | Some (Some name) => mret (archive_dir ++ [name], false)
      | _ => fail NoFreeName archive_dir
      end
  end.

Definition write_snapshot_unlocked (stamp content : str) : Op path :=
  _ ← must Creating archive_dir (create_dir_all archive_dir);
  '(dest, reused) ← snapshot_dest stamp content;
  if reused : bool then mret dest
  else _ ← must Writing dest (write_file dest content); mret dest.

(** The latest-archive copy is refreshed at best effort. *)
Definition write_completed_snapshot (stamp content : str) : Op path :=
  dest ← write_snapshot_unlocked stamp content;
  _ ← try_ (write_file latest_archive_path content);
  mret dest.

(** An undecodable plan is logged and skipped; a failed snapshot is an error. *)
Definition preserve_completed_plan_unlocked (stamp : str) : Op () := fun s =>
  match read_unlocked s with
  | (inl (Some content), s') =>
      if negb (completion_of content) then (inl (), s')
      else (_ ← write_completed_snapshot stamp content; mret ()) s'
  | (inl None, s') => (inl (), s')
  | (inr _, s') => (inl (), s')
  end.

(** ** The lifecycle *)

(** What [create] writes. *)
Definition plan_content (markdown : str) : str :=
  let content := normalize_newlines markdown in
  if negb (is_empty content) && negb (ends_with [NL] content) then content ++ [NL] else content.

Definition create (markdown stamp : str) (now : Now) : Op () :=
  _ ← must Creating [] (create_dir_all []);
  _ ← preserve_completed_plan_unlocked stamp;
  _ ← must Writing plan_path (write_file plan_path (plan_content markdown));
  modify (record_plan_start now).

(** Deleting a file that is there, the failure ignored. *)
Definition remove_if_exists (p : path) : Op () :=
  there ← exists_ p;
  if there : bool then try_ (remove_file p) else mret ().
Definition remove_dir_if_exists (p : path) : Op () :=
  there ← exists_ p;
  if there : bool then try_ (remove_dir_all p) else mret ().

Definition sweep_session_state : Op () :=
  _ ← modify clear_capture;
  _ ← remove_if_exists legacy_transcript_path;
  _ ← remove_if_exists legacy_ui_journal_path;
  remove_dir_if_exists session_bundle_path.

Definition clear : Op () :=
  _ ← remove_if_exists plan_path;
  _ ← remove_if_exists latest_archive_path;
  _ ← remove_if_exists forced_phase_path;
  sweep_session_state.

Definition archive (stamp : str) : Op (option path) :=
  complete ← is_complete_unlocked;
  if negb complete then mret None
  else
    r ← read_unlocked;
    match r with
    | None => mret None
    | Some content =>
        dest ← write_snapshot_unlocked stamp content;
        _ ← must Writing latest_archive_path (write_file latest_archive_path content);
        _ ← must Removing plan_path (remove_file plan_path);
        _ ← sweep_session_state;
        _ ← modify clear_plan_start;
        mret (Some dest)
    end.

Definition check_off (task_id stamp : str) (now : Now) : Op bool :=
  r ← read_unlocked;
  match r with
  | None => mret false
  | Some content =>
      let '(updated, flipped) := check_off_content content (normalize_task_id_ref task_id) in
      if negb flipped then mret false
      else
        _ ← must Updating plan_path (write_file plan_path updated);
        complete ← is_complete_unlocked;
        if complete : bool then
          _ ← modify (record_plan_completed now);
          _ ← logged (write_completed_snapshot stamp updated);
          mret true
        else mret true
  end.

(** ** Cleaning up *)

(** The runtime files of the directory itself: logs and temporaries. *)
Definition is_runtime_name (name : str) : bool :=
  (str_eqb name (lit "marmel.log") || starts_with (lit "marmel.log.") name || str_eqb name (lit "debug.log"))
  || (starts_with (lit ".") name && contains (lit ".tmp") name).
Fixpoint remove_runtime_files (names : list str) : Op () :=
  match names with
  | [] => mret ()
  | name :: names' =>
      s ← get_state;
      _ ← (if is_runtime_name name && is_file (files s) [name] then try_ (remove_file [name]) else mret ());
      remove_runtime_files names'
  end.

(** The removals of [cleanup_completed], each at best effort. *)
Definition remove_plan_files : Op () :=
  _ ← remove_if_exists plan_path;
  _ ← remove_if_exists latest_archive_path;
  _ ← remove_if_exists forced_phase_path;
  _ ← remove_if_exists legacy_transcript_path;
  _ ← remove_if_exists legacy_ui_journal_path;
  _ ← remove_dir_if_exists session_bundle_path;
  _ ← remove_dir_if_exists prompts_dir;
  _ ← remove_dir_if_exists archive_dir;
  listing ← ask (read_dir []);
  remove_runtime_files (default [] listing).
Definition remove_dir_if_empty : Op () :=
  left ← ask (read_dir []);
  match left with Some [] => try_ (remove_dir []) | _ => mret () end.

Definition cleanup_completed : Op bool :=
  s ← get_state;
  if keep_session s then mret false
  else
    there ← exists_ plan_path;
    complete ← (if there : bool then is_complete_unlocked else mret (plan_was_completed s));
    if negb complete then mret false
    else
      dir ← exists_ [];
      if negb dir then mret false
      else
        _ ← remove_plan_files;
        _ ← modify clear_capture;
        _ ← modify clear_plan_start;
        _ ← remove_dir_if_empty;
        mret true.

(** ** Checking off on a deliverable *)

Definition deliverable_mentions_task_id (deliverable task_id : str) : bool :=
  existsb (fun line => line_matches_task_id line task_id) (lines deliverable).

(** The id the caller bound, unless it is blank. *)
Definition bound_id (task_id : option str) : option str :=
  t ← task_id;
  let n := normalize_task_id_ref t in
  if is_empty n then None else Some n.

(** The task a deliverable completes, if it completes one: the explicit ids,
    the agreement of a bound id with the marker's own, and the token proof of
    an id read off the text. *)
Definition completed_task (marker : option MissionMarker) (resolved : MissionMarker)
    (task_id : option str) (deliverable : str) : option str :=
  if negb (Markers.is_complete resolved) then None
  else
    let bound := bound_id task_id in
    let marker_id := match resolved with Complete id => id | _ => None end in
    let derived_from_body := match marker, bound with None, None => true | _, _ => false end in
    match or_else bound marker_id with
    | None => None
    | Some tid =>
        if match bound, marker_id with Some b, Some m => negb (task_id_eq b m) | _, _ => false end then None
        else if derived_from_body && negb (deliverable_mentions_task_id deliverable tid) then None
        else Some tid
    end.

(** [check_plan_on_deliverable]; the outcome is that of the marker parser. *)
Definition check_plan_on_deliverable (marker : option MissionMarker) (task_id : option str)
    (deliverable stamp : str) (now : Now) : outcome (Op bool) :=
  resolved ← resolve marker deliverable;
  Ret (match resolved with
       | None => mret false
       | Some m =>
           match completed_task marker m task_id deliverable with
           | None => mret false
           | Some tid => check_off tid stamp now
           end
       end).
Definition check_plan_on_marker (task_id : option str) (deliverable stamp : str) (now : Now)
    : outcome (Op bool) := check_plan_on_deliverable None task_id deliverable stamp now.

(** ** Readers elsewhere *)

(** [plan_archived_during_round] of the session loop. *)
Definition plan_archived_during_round (present_at_start : bool) (s : PlanState) : bool :=
  present_at_start && negb (path_exists (files s) plan_path) && is_file (files s) latest_archive_path.

(** [get_plan_start_time]: the recorded start, else the file's timestamp
    against the clocks; [stamped] is that timestamp, if the file has one. *)
Definition get_plan_start_time (stamped : option N) (now : Now) (s : PlanState) : option (N * N) :=
  match plan_started_at s with
  | Some t => Some t
  | None =>
      (fun mod_time =>
         let elapsed := (wall now - mod_time)%N in
         (if (elapsed <=? instant now)%N then (instant now - elapsed)%N else instant now, mod_time)) <$> stamped
  end.

End plan.

(** ** Reasoning about plan operations *)

(** ** Weakest preconditions *)

Definition wp {A} (m : Op A) (Q : A -> PlanState -> Prop) (E : PlanError -> PlanState -> Prop)
    (s : PlanState) : Prop :=
  match m s with
  | (inl a, s') => Q a s'
  | (inr e, s') => E e s'
  end.

Section logic.
Context `{Faults} `{DashOrder}.
Implicit Types (s : PlanState) (p q : path) (d : Disk) (t : Tree).

Lemma wp_bind {A B} (m : Op A) (f : A -> Op B) Q E s :
  wp m (fun a => wp (f a) Q E) E s -> wp (m ≫= f) Q E s.
Proof. unfold wp, mbind, op_bind. by destruct (m s) as [[a|e] s']. Qed.

Lemma wp_conseq {A} (m : Op A) (Q Q' : A -> PlanState -> Prop) (E E' : PlanError -> PlanState -> Prop) s :
  wp m Q E s -> (forall a s', Q a s' -> Q' a s') -> (forall e s', E e s' -> E' e s') -> wp m Q' E' s.
Proof. unfold wp. destruct (m s) as [[a|e] s']; auto. Qed.

Lemma wp_ret {A} (a : A) Q E s : Q a s -> wp (mret a) Q E s.
Proof. done. Qed.

Lemma wp_must step p f Q E s :
  (forall d, f (disk s) = (true, d) -> Q () (on_disk d s)) ->
  (forall d, f (disk s) = (false, d) -> E {| failed_step := step; failed_path := p |} (on_disk d s)) ->
  wp (must step p f) Q E s.
Proof. unfold wp, must. intros HQ HE. destruct (f (disk s)) as [[|] d]; simpl; auto. Qed.

Lemma wp_try f Q E s :
  (forall ok d, f (disk s) = (ok, d) -> Q () (on_disk d s)) -> wp (try_ f) Q E s.
Proof. unfold wp, try_. intros HQ. destruct (f (disk s)) as [ok d]. exact (HQ ok d eq_refl). Qed.

Lemma wp_ask {A} (f : Disk -> A * Disk) Q E s :
  (forall a d, f (disk s) = (a, d) -> Q a (on_disk d s)) -> wp (ask f) Q E s.
Proof. unfold wp, ask. intros HQ. destruct (f (disk s)) as [a d]. by apply HQ. Qed.

Lemma wp_exists p Q E s : Q (path_exists (files s) p) s -> wp (exists_ p) Q E s.
Proof. done. Qed.

Lemma wp_modify f Q E s : Q () (f s) -> wp (modify f) Q E s.
Proof. done. Qed.

Lemma wp_get Q E s : Q s s -> wp get_state Q E s.
Proof. done. Qed.

Lemma wp_or_default {A} (a : A) (m : Op A) Q E s :
  wp m Q (fun _ => Q a) s -> wp (or_default a m) Q E s.
Proof. unfold wp, or_default. by destruct (m s) as [[x|e] s']. Qed.

Lemma wp_logged {A} (m : Op A) Q E s :
  wp m (fun _ => Q ()) (fun _ => Q ()) s -> wp (logged m) Q E s.
Proof. unfold wp, logged. by destruct (m s) as [[x|e] s']. Qed.

End logic.
