(* ===== verification/PlanFacts.v ===== *)
(** * Facts of the plan on disk

    The frames of the operations, the snapshots and the search for their
    names; the properties of the lifecycle are in [PlanProps]. *)

From stdpp Require Import pretty.
From S2P Require Import Prelude Str TaskId PlanParse Markers Notice Session Registry Disk DiskFacts Plan.

(** ** Frames *)

(** Everything but the disk. *)
Definition same_memory (s s' : PlanState) : Prop :=
  plan_started_at s' = plan_started_at s /\ plan_completed_at s' = plan_completed_at s /\
  plan_was_completed s' = plan_was_completed s /\ keep_session s' = keep_session s /\
  last_capture s' = last_capture s.

(** No path outside [X] has changed. *)
Definition frame (X : path -> bool) (s s' : PlanState) : Prop :=
  forall q, X q = false -> files s' !! q = files s !! q.

(** Nothing that was there is gone or changed. *)
Definition keeps_nodes (s s' : PlanState) : Prop :=
  forall q n, files s !! q = Some n -> files s' !! q = Some n.

Definition touches {A} (X : path -> bool) (m : Op A) : Prop := forall s, frame X s (snd (m s)).

Definition path_eqb (p q : path) : bool := bool_decide (p = q).
Definition in_archive (q : path) : bool := path_eqb q [] || under archive_dir q.
Definition session_files (q : path) : bool :=
  path_eqb q legacy_transcript_path || path_eqb q legacy_ui_journal_path || under session_bundle_path q.

Lemma path_eqb_refl p : path_eqb p p = true.
Proof. by apply bool_decide_eq_true_2. Qed.
Lemma path_eqb_ne p q : path_eqb p q = false -> p <> q.
Proof. by intros H%bool_decide_eq_false. Qed.

Section facts.
Context `{Faults} `{DashOrder}.
Implicit Types (s : PlanState) (p q : path) (X : path -> bool).

Lemma frame_refl X s : frame X s s.
Proof. done. Qed.
Lemma frame_trans X s1 s2 s3 : frame X s1 s2 -> frame X s2 s3 -> frame X s1 s3.
Proof. intros H1 H2 q Hq. by rewrite H2, H1. Qed.
Lemma same_memory_refl s : same_memory s s.
Proof. done. Qed.
Lemma same_memory_trans s1 s2 s3 : same_memory s1 s2 -> same_memory s2 s3 -> same_memory s1 s3.
Proof. unfold same_memory. intuition congruence. Qed.
Lemma same_memory_disk d s : same_memory s (on_disk d s).
Proof. done. Qed.
Lemma keeps_nodes_trans s1 s2 s3 : keeps_nodes s1 s2 -> keeps_nodes s2 s3 -> keeps_nodes s1 s3.
Proof. intros H1 H2 q n Hq. by apply H2, H1. Qed.

Lemma touches_weaken {A} X Y (m : Op A) :
  touches X m -> (forall q, Y q = false -> X q = false) -> touches Y m.
Proof. intros Hm HXY s q Hq. by apply Hm, HXY. Qed.
Lemma touches_bind {A B} X (m : Op A) (f : A -> Op B) :
  touches X m -> (forall a, touches X (f a)) -> touches X (m ≫= f).
Proof.
  intros Hm Hf s q Hq. unfold mbind, op_bind. specialize (Hm s q Hq).
  destruct (m s) as [[a|e] s']; simpl in *; [|done]. by rewrite Hf.
Qed.
Lemma touches_ret {A} X (a : A) : touches X (mret a).
Proof. done. Qed.
Lemma touches_exists X p : touches X (exists_ p).
Proof. done. Qed.
Lemma touches_get X : touches X get_state.
Proof. done. Qed.
Lemma touches_modify X f : (forall s, disk (f s) = disk s) -> touches X (modify f).
Proof. intros Hf s q _. unfold files. simpl. by rewrite Hf. Qed.
Lemma touches_must X step p f :
  (forall d q, X q = false -> tree (snd (f d)) !! q = tree d !! q) -> touches X (must step p f).
Proof.
  intros Hf s q Hq. unfold must. specialize (Hf (disk s) q Hq). by destruct (f (disk s)) as [[|] d].
Qed.
Lemma touches_try X f :
  (forall d q, X q = false -> tree (snd (f d)) !! q = tree d !! q) -> touches X (try_ f).
Proof. intros Hf s q Hq. by apply Hf. Qed.
Lemma touches_ask {A} X (f : Disk -> A * Disk) :
  (forall d, tree (snd (f d)) = tree d) -> touches X (ask f).
Proof. intros Hf s q _. unfold ask, files. specialize (Hf (disk s)). destruct (f (disk s)). simpl in *. by rewrite Hf. Qed.
Lemma touches_or_default {A} X (a : A) m : touches X m -> touches X (or_default a m).
Proof. intros Hm s. specialize (Hm s). unfold or_default. by destruct (m s) as [[x|e] s']. Qed.
Lemma touches_logged {A} X (m : Op A) : touches X m -> touches X (logged m).
Proof. intros Hm s. apply Hm. Qed.
Lemma touches_if {A} X (b : bool) (m m' : Op A) :
  touches X m -> touches X m' -> touches X (if b then m else m').
Proof. by destruct b. Qed.

Lemma touches_write_file X p c step p' : X p = true -> touches X (must step p' (write_file p c)).
Proof. intros Hp. apply touches_must. intros d q Hq. apply write_file_other. congruence. Qed.
Lemma touches_try_write X p c : X p = true -> touches X (try_ (write_file p c)).
Proof. intros Hp. apply touches_try. intros d q Hq. apply write_file_other. congruence. Qed.
Lemma remove_file_other p d q : q <> p -> tree (snd (remove_file p d)) !! q = tree d !! q.
Proof.
  intros Hq. destruct (remove_file p d) as [ok d'] eqn:E. apply remove_file_cases in E. simpl.
  rewrite E. destruct ok; [|done]. by rewrite lookup_delete_ne.
Qed.
Lemma touches_remove_file X p : X p = true -> touches X (try_ (remove_file p)).
Proof. intros Hp. apply touches_try. intros d q Hq. apply remove_file_other. congruence. Qed.
Lemma touches_remove_if X p : X p = true -> touches X (remove_if_exists p).
Proof.
  intros Hp. apply touches_bind; [apply touches_exists|]. intros [|]; [|apply touches_ret].
  by apply touches_remove_file.
Qed.
Lemma touches_remove_dir_if X p :
  (forall q, X q = false -> under p q = false) -> touches X (remove_dir_if_exists p).
Proof.
  intros Hp. apply touches_bind; [apply touches_exists|]. intros [|]; [|apply touches_ret].
  apply touches_try. intros d q Hq. by apply remove_dir_all_other, Hp.
Qed.
Lemma touches_read X : touches X read_unlocked.
Proof.
  apply touches_bind; [apply touches_exists|]. intros [|]; [|apply touches_ret].
  apply touches_bind; [by apply touches_ask|]. by intros [c|].
Qed.
Lemma touches_is_complete X `{Unicode} : touches X is_complete_unlocked.
Proof. apply touches_or_default, touches_bind; [apply touches_read|]. by intros [c|]. Qed.
Lemma touches_sweep : touches session_files sweep_session_state.
Proof.
  apply touches_bind; [by apply touches_modify|intros _].
  apply touches_bind; [by apply touches_remove_if|intros _].
  apply touches_bind; [by apply touches_remove_if|intros _].
  apply touches_remove_dir_if. intros q. unfold session_files. by intros [_ Hq]%orb_false_iff.
Qed.

(** ** Reading the plan *)

Lemma read_unlocked_cases s :
  match read_unlocked s with
  | (inl None, s') => s' = s /\ files s !! plan_path = None
  | (inl (Some c), s') => files s !! plan_path = Some (TextFile c) /\ files s' = files s /\ same_memory s s'
  | (inr _, s') => files s' = files s /\ same_memory s s' /\
      (read_fault (calls (disk s)) = false -> forall c, files s !! plan_path <> Some (TextFile c))
  end.
Proof.
  unfold read_unlocked, mbind, mret, op_bind, op_ret, exists_, path_exists.
  destruct (files s !! plan_path) as [n|] eqn:E; cbv beta iota; [|done].
  unfold ask. destruct (read_to_string plan_path (disk s)) as [r d] eqn:Er.
  apply read_to_string_cases in Er as (Ht & _ & Hr). unfold files in E. rewrite E in Hr.
  assert (Hf : files (on_disk d s) = files s) by done.
  assert (Hm : same_memory s (on_disk d s)) by done.
  destruct (read_fault (calls (disk s))); [by subst r|].
  destruct n as [c'|bs|]; subst r; (split; [done|split; [done|]]); [exact Hm| |]; by intros _ c.
Qed.

Lemma wp_read Q E s :
  (files s !! plan_path = None -> Q None s) ->
  (forall c s', files s !! plan_path = Some (TextFile c) -> files s' = files s -> same_memory s s' -> Q (Some c) s') ->
  (forall e s', files s' = files s -> same_memory s s' ->
     (read_fault (calls (disk s)) = false -> forall c, files s !! plan_path <> Some (TextFile c)) -> E e s') ->
  wp read_unlocked Q E s.
Proof.
  intros HN HS HE. pose proof (read_unlocked_cases s) as Hc. unfold wp.
  destruct (read_unlocked s) as [[[c|]|e] s']; destruct Hc as (? & ?); naive_solver.
Qed.

End facts.

(** ** The search for a name *)

Section folders.
Context `{Faults} `{DashOrder}.
Implicit Types (s : PlanState) (p q : path).

Lemma pretty_ascii_inj (i j : nat) : lit (pretty i) = lit (pretty j) -> i = j.
Proof. intros E%lit_inj. by apply (inj pretty). Qed.

Lemma snapshot_name_inj stamp i j : 1 <= i -> 1 <= j -> snapshot_name stamp i = snapshot_name stamp j -> i = j.
Proof.
  unfold snapshot_name. intros Hi Hj.
  destruct (Nat.leb_spec i 1), (Nat.leb_spec j 1); intros E; [lia| | |].
  - exfalso. do 2 apply app_inv_head in E. apply (f_equal length) in E.
    rewrite !length_app in E. simpl in E. lia.
  - exfalso. do 2 apply app_inv_head in E. apply (f_equal length) in E.
    rewrite !length_app in E. simpl in E. lia.
  - do 3 apply app_inv_head in E. apply app_inv_tail in E. by apply pretty_ascii_inj.
Qed.

Lemma snapshot_name_is_snapshot stamp i : is_snapshot_name (snapshot_name stamp i) = true.
Proof.
  unfold is_snapshot_name, snapshot_name. destruct (i <=? 1).
  all: rewrite starts_with_app; apply ends_with_true; rewrite !app_assoc; by eexists.
Qed.

End folders.

(** ** Choosing a snapshot *)

(** The search stops: it visits distinct names, so one of the first
    [S (length taken)] is free. *)
Lemma free_name_run stamp taken fuel i :
  1 <= i ->
  match free_name fuel stamp taken i with
  | None => forall j, i <= j < i + fuel -> snapshot_name stamp j ∈ taken
  | Some None => forall j, i <= j -> (N.of_nat j <= MAX_SUFFIX)%N -> snapshot_name stamp j ∈ taken
  | Some (Some n) => n ∉ taken /\ exists j, i <= j /\ n = snapshot_name stamp j /\ forall k, i <= k < j -> snapshot_name stamp k ∈ taken
  end.
Proof.
  revert i. induction fuel as [|fuel IH]; intros i Hi; simpl; [intros j Hj; lia|].
  destruct (str_mem (snapshot_name stamp i) taken) eqn:Em.
  - apply str_mem_true in Em. destruct (N.ltb_spec MAX_SUFFIX (N.of_nat (S i))) as [Hc|Hc].
    + intros j Hj Hb. assert (j = i) as -> by lia. done.
    + specialize (IH (S i) ltac:(lia)). destruct (free_name fuel stamp taken (S i)) as [[n|]|].
      * destruct IH as (Hn & j & Hj & -> & Hk). split; [done|]. exists j. split; [lia|]. split; [done|].
        intros k Hk'. destruct (decide (k = i)) as [->|]; [done|]. apply Hk. lia.
      * intros j Hj Hb. destruct (decide (j = i)) as [->|]; [done|]. apply IH; lia.
      * intros j Hj. destruct (decide (j = i)) as [->|]; [done|]. apply IH; lia.
  - split; [intros Hin%str_mem_true; congruence|]. exists i. split; [lia|]. split; [done|lia].
Qed.

Lemma snapshot_names_bound stamp taken n :
  (forall j, 1 <= j <= n -> snapshot_name stamp j ∈ taken) -> n <= length taken.
Proof.
  intros Hall. replace n with (length (snapshot_name stamp <$> seq 1 n))
    by by rewrite length_fmap, length_seq.
  apply submseteq_length, NoDup_submseteq.
  - apply NoDup_fmap_2_strong; [|apply NoDup_seq].
    intros i j Hi%elem_of_seq Hj%elem_of_seq. apply snapshot_name_inj; lia.
  - intros x (j & -> & Hj%elem_of_seq)%list_elem_of_fmap. apply Hall. lia.
Qed.

Lemma free_name_fuel stamp taken : free_name (S (length taken)) stamp taken 1 <> None.
Proof.
  intros E. pose proof (free_name_run stamp taken (S (length taken)) 1 ltac:(lia)) as Hr.
  rewrite E in Hr. enough (S (length taken) <= length taken) by lia.
  apply (snapshot_names_bound stamp). intros j Hj. apply Hr. lia.
Qed.

Section snapshots.
Context `{Faults} `{DashOrder}.
Implicit Types (s : PlanState).

(** Every snapshot name listed is taken; what is reported identical is. *)
Lemma scan_snapshots_wp content names taken identical s :
  wp (scan_snapshots content names taken identical)
    (fun r s' => files s' = files s /\ same_memory s s' /\
       (forall n, n ∈ taken \/ (n ∈ names /\ is_snapshot_name n = true) -> n ∈ fst r) /\
       match snd r with
       | Some p => identical = Some p \/
           (exists n, p = archive_dir ++ [n] /\ files s !! p = Some (TextFile content))
       | None => identical = None
       end)
    (fun _ _ => False) s.
Proof.
  revert taken identical s. induction names as [|n names IH]; intros taken identical s.
  { apply wp_ret. cbn [fst snd]. split_and!; [done|done| |by destruct identical; auto].
    intros n [Hn|[Hn _]]; [done|]. by apply not_elem_of_nil in Hn. }
  simpl. destruct (is_snapshot_name n) eqn:En; simpl.
  2:{ eapply wp_conseq; [apply IH| |done]. intros [tk id] s' (Hf & Hm & Ht & Hi).
      split_and!; [done|done| |done]. intros m Hin. apply Ht. destruct Hin as [?|[Hin Hs]]; [by left|].
      apply elem_of_cons in Hin as [->|Hin]; [congruence|by right]. }
  assert (Hweak : forall id s1 (Q : list str * option path -> PlanState -> Prop),
    files s1 = files s -> same_memory s s1 ->
    (forall r s', files s' = files s -> same_memory s s' ->
       (forall m, m ∈ taken \/ (m ∈ n :: names /\ is_snapshot_name m = true) -> m ∈ fst r) ->
       match snd r with
       | Some p => id = Some p \/ (exists n, p = archive_dir ++ [n] /\ files s !! p = Some (TextFile content))
       | None => id = None
       end -> Q r s') ->
    wp (scan_snapshots content names (n :: taken) id) Q (fun _ _ => False) s1).
  { intros id s1 Q Hf1 Hm1 HQ. eapply wp_conseq; [apply IH| |done].
    intros r s' (Hf & Hm & Ht & Hi). apply HQ; [congruence|by eapply same_memory_trans| |by rewrite <-Hf1].
    intros m Hin. apply Ht. rewrite !elem_of_cons in *. tauto. }
  destruct identical as [p|].
  { apply Hweak; [done|done|]. intros r s' ? ? ? Hr. by split_and!. }
  apply wp_bind, wp_get. destruct (is_file _ _).
  2:{ apply Hweak; [done|done|]. intros r s' ? ? ? Hr. by split_and!. }
  apply wp_bind, wp_ask. intros same d Hd. apply reads_as_cases in Hd as (Htree & Hsame & _).
  apply Hweak; [done|done|]. intros r s' ? ? ? Hr. split_and!; [done|done|done|].
  destruct r as [tk [p|]]; simpl in *; destruct same; try done; destruct Hr as [Hr|Hr]; try done; [|by right].
  right. exists n. split; [congruence|]. injection Hr as <-. by apply Hsame.
Qed.

(** A snapshot to reuse holds the content; a new one is a free name, when the
    archive could be listed. *)
Lemma snapshot_dest_wp stamp content s :
  wp (snapshot_dest stamp content)
    (fun r s' => files s' = files s /\ same_memory s s' /\ (exists n, fst r = archive_dir ++ [n]) /\
       if snd r then files s !! fst r = Some (TextFile content)
       else (read_fault (calls (disk s)) = false -> is_folder (files s) archive_dir = true ->
             files s !! fst r = None))
    (fun _ s' => files s' = files s /\ same_memory s s') s.
Proof.
  apply wp_bind, wp_ask. intros listing d Hd. apply read_dir_cases in Hd as (Htree & _ & Hlist).
  apply wp_bind. eapply wp_conseq; [apply scan_snapshots_wp| |done].
  intros [taken identical] s' (Hf & Hm & Htaken & Hid). cbn [fst snd] in *.
  assert (Hf0 : files s' = files s) by (rewrite Hf; exact Htree).
  destruct identical as [p|].
  { destruct Hid as [?|(n & -> & Hp)]; [done|]. apply wp_ret. cbn [fst snd].
    split_and!; [done|done|by exists n|]. unfold files in Hp. simpl in Hp. by rewrite Htree in Hp. }
  pose proof (free_name_run stamp taken (S (length taken)) 1 ltac:(lia)) as Hfree.
  destruct (free_name _ _ _ _) as [[n|]|]; [|by split|by split].
  destruct Hfree as (Hn & j & _ & -> & _). apply wp_ret. cbn [fst snd].
  split_and!; [done|done|by eexists|]. intros Hread Hfolder.
  destruct (files s !! (archive_dir ++ [snapshot_name stamp j])) as [nd|] eqn:E; [|done].
  destruct listing as [names|]; [|by destruct Hlist; unfold files in *; congruence].
  exfalso. apply Hn, Htaken. right. split; [|apply snapshot_name_is_snapshot].
  by apply (Hlist _ nd).
Qed.

Lemma archive_dir_folders q : q ∈ folders_of archive_dir -> q = [] \/ q = archive_dir.
Proof. cbn. rewrite !elem_of_cons, elem_of_nil. tauto. Qed.

Lemma in_archive_snapshot n : in_archive (archive_dir ++ [n]) = true.
Proof. unfold in_archive. cbn. by destruct (path_eqb _ _). Qed.

(** Writing a snapshot: the answer holds the content, nothing outside the
    archive changes, and no node is lost when the archive could be listed. *)
Lemma write_snapshot_wp stamp content s :
  wp (write_snapshot_unlocked stamp content)
    (fun dest s' => files s' !! dest = Some (TextFile content) /\ (exists n, dest = archive_dir ++ [n]) /\
       same_memory s s' /\ frame in_archive s s' /\
       (read_fault (calls (disk s) + 1) = false -> keeps_nodes s s'))
    (fun _ s' => same_memory s s' /\ frame in_archive s s' /\
       (read_fault (calls (disk s) + 1) = false -> keeps_nodes s s')) s.
Proof.
  assert (Hmk : forall ok d, create_dir_all archive_dir (disk s) = (ok, d) ->
    frame in_archive s (on_disk d s) /\ keeps_nodes s (on_disk d s) /\ calls d = (calls (disk s) + 1)%N).
  { intros ok d Hd. split_and!; [| |by eapply create_dir_all_calls].
    - intros q Hq. unfold files. simpl. replace d with (snd (create_dir_all archive_dir (disk s))) by by rewrite Hd.
      apply create_dir_all_other. intros [->| ->]%archive_dir_folders; by vm_compute in Hq.
    - intros q n Hq. unfold files. simpl. replace d with (snd (create_dir_all archive_dir (disk s))) by by rewrite Hd.
      by apply create_dir_all_grows. }
  apply wp_bind, wp_must; intros d Hd; destruct (Hmk _ _ Hd) as (Hfr & Hk & Hc); [|done].
  assert (Hfolder : is_folder (tree d) archive_dir = true)
    by (eapply create_dir_all_ok; [exact Hd|apply folders_of_self]).
  apply wp_bind. eapply wp_conseq; [apply snapshot_dest_wp| |].
  2:{ intros e s' [Hf Hm]. split_and!; [done|intros q Hq; rewrite Hf; by apply Hfr|intros _ q n Hq; rewrite Hf; by apply Hk]. }
  intros [dest reused] s1 (Hf1 & Hm1 & (n & Hn) & Hdest). cbn [fst snd] in *. subst dest.
  destruct reused.
  { apply wp_ret. split_and!; [by rewrite Hf1|by eexists|done| |].
    - intros q Hq. rewrite Hf1. by apply Hfr.
    - intros _ q nd Hq. rewrite Hf1. by apply Hk. }
  assert (Hwr : forall ok d1, write_file (archive_dir ++ [n]) content (disk s1) = (ok, d1) ->
    frame in_archive s (on_disk d1 s1) /\ (read_fault (calls (disk s) + 1) = false -> keeps_nodes s (on_disk d1 s1))).
  { intros ok d1 Hd1. assert (Ho : forall q, q <> archive_dir ++ [n] -> tree d1 !! q = files s1 !! q).
    { intros q Hq. replace d1 with (snd (write_file (archive_dir ++ [n]) content (disk s1))) by by rewrite Hd1.
      by apply write_file_other. }
    split.
    - intros q Hq. unfold files at 1. simpl. rewrite Ho, Hf1; [by apply Hfr|].
      intros ->. by rewrite in_archive_snapshot in Hq.
    - intros Hr q nd Hq. unfold files at 1. simpl. apply Hk in Hq. rewrite Ho, Hf1; [done|].
      intros ->. rewrite Hdest in Hq; [done| |done]. simpl. by rewrite Hc. }
  apply wp_bind, wp_must; intros d1 Hd1; destruct (Hwr _ _ Hd1) as (Hfr1 & Hk1); [apply wp_ret|]; [|by split_and!].
  split_and!; [|by eexists|done|done|done].
  unfold files. simpl. by rewrite (write_file_ok _ _ _ _ Hd1), lookup_insert_eq.
Qed.

End snapshots.
