(* ===== verification/PlanProps.v ===== *)
(** * The plan's lifecycle: properties

    What archiving, creating, checking off, cleaning up and clearing promise
    about the plan and about the other files, whatever call fails. *)

From S2P Require Import Prelude Str Regex TaskId PlanParse PlanParseFacts Markers MarkersFacts Notice Session Registry Disk DiskFacts Plan PlanFacts.

Section lifecycle.
Context `{Faults} `{DashOrder} `{Unicode}.
Implicit Types (s : PlanState).

Lemma is_complete_wp s :
  wp is_complete_unlocked
    (fun b s' => files s' = files s /\ same_memory s s' /\
       (read_fault (calls (disk s)) = false -> b = match files s !! plan_path with Some (TextFile c) => completion_of c | _ => false end) /\
       (b = true -> exists c, files s !! plan_path = Some (TextFile c) /\ completion_of c = true))
    (fun _ _ => False) s.
Proof.
  apply wp_or_default, wp_bind, wp_read.
  - intros E. apply wp_ret. by rewrite E.
  - intros c s' E Hf Hm. apply wp_ret. split_and!; [done|done|by rewrite E|by exists c].
  - intros e s' Hf Hm Hr. split_and!; [done|done| |done]. intros Hrd.
    specialize (Hr Hrd). destruct (files s !! plan_path) as [[c|bs|]|]; try done. by destruct (Hr c).
Qed.

Lemma wp_sweep Q E s :
  (forall s', frame session_files s s' -> last_capture s' = None ->
     plan_started_at s' = plan_started_at s -> keep_session s' = keep_session s -> Q () s') ->
  wp sweep_session_state Q E s.
Proof.
  intros HQ. pose proof (touches_sweep s) as Hfr.
  assert (Hr : forall p s, exists s', remove_if_exists p s = (inl (), s') /\ same_memory s s').
  { intros p s1. unfold remove_if_exists, mbind, op_bind, exists_. destruct (path_exists _ _); by eexists. }
  assert (Hd : forall p s, exists s', remove_dir_if_exists p s = (inl (), s') /\ same_memory s s').
  { intros p s1. unfold remove_dir_if_exists, mbind, op_bind, exists_. destruct (path_exists _ _); by eexists. }
  unfold wp. destruct (sweep_session_state s) as [r s'] eqn:E'.
  unfold sweep_session_state, mbind, op_bind, modify in E'.
  destruct (Hr legacy_transcript_path (clear_capture s)) as (s1 & E1 & M1). rewrite E1 in E'.
  destruct (Hr legacy_ui_journal_path s1) as (s2 & E2 & M2). rewrite E2 in E'.
  destruct (Hd session_bundle_path s2) as (s3 & E3 & M3). rewrite E3 in E'.
  injection E' as <- <-. destruct M1 as (A1 & _ & _ & B1 & C1), M2 as (A2 & _ & _ & B2 & C2), M3 as (A3 & _ & _ & B3 & C3).
  apply HQ; [done|..]; simpl in *; congruence.
Qed.

(** What an archive that answers [r] leaves. *)
Definition archived (content : str) (s : PlanState) (r : option path) (s' : PlanState) : Prop :=
  match r with
  | Some dest =>
      completion_of content = true /\ files s' !! plan_path = None /\
      files s' !! dest = Some (TextFile content) /\
      files s' !! latest_archive_path = Some (TextFile content) /\
      plan_started_at s' = None /\ plan_was_completed s' = false /\ last_capture s' = None
  | None => files s' = files s /\ same_memory s s'
  end.

Lemma archive_wp stamp s content :
  files s !! plan_path = Some (TextFile content) ->
  wp (archive stamp) (archived content s)
    (fun _ s' => files s' !! plan_path = Some (TextFile content) /\ same_memory s s') s.
Proof.
  intros Hplan.
  apply wp_bind. eapply wp_conseq; [apply is_complete_wp| |done].
  intros complete s1 (Hf1 & Hm1 & _ & Hc). destruct complete; [simpl|by apply wp_ret].
  destruct Hc as (c & Hc & Hdone); [done|]. assert (c = content) as -> by congruence.
  apply wp_bind, wp_read; rewrite Hf1; [congruence| |intros e s2 Hf2 Hm2 _; split; [congruence|by eapply same_memory_trans]].
  intros c s2 Hc2 Hf2 Hm2. assert (c = content) as -> by congruence.
  assert (Hm02 : same_memory s s2) by by eapply same_memory_trans.
  apply wp_bind. eapply wp_conseq; [apply write_snapshot_wp| |].
  2:{ intros e s3 (Hm3 & Hfr & _). split; [|by eapply same_memory_trans]. by rewrite Hfr, Hf2. }
  intros dest s3 (Hdest & (n & ->) & Hm3 & Hfr3 & _).
  assert (Hm03 : same_memory s s3) by by eapply same_memory_trans.
  assert (Hp3 : files s3 !! plan_path = Some (TextFile content)) by by rewrite Hfr3, Hf2.
  apply wp_bind, wp_must; intros d4 Hw4.
  2:{ split; [|done]. unfold files. simpl.
      replace d4 with (snd (write_file latest_archive_path content (disk s3))) by by rewrite Hw4.
      by rewrite write_file_other. }
  apply write_file_ok in Hw4.
  apply wp_bind, wp_must; intros d5 Hw5; apply remove_file_cases in Hw5; simpl in Hw5; rewrite Hw4 in Hw5.
  2:{ split; [|done]. unfold files. simpl. rewrite Hw5. by rewrite lookup_insert_ne. }
  apply wp_bind, wp_sweep. intros s6 Hfr6 Hcap _ _. apply wp_bind, wp_modify, wp_ret.
  simpl. unfold clear_plan_start, files at 1 2 3. simpl. fold (files s6).
  rewrite !Hfr6 by done. unfold files. simpl. rewrite !Hw5.
  split_and!; [done|by rewrite lookup_delete_eq| | |done|done|done].
  - rewrite lookup_delete_ne, lookup_insert_ne by done. exact Hdest.
  - rewrite lookup_delete_ne, lookup_insert_eq by done. done.
Qed.

(** C10: Archiving never loses the plan, whichever call fails.  When it answers
    a snapshot, the plan was complete and is gone, the snapshot and the latest
    copy hold its text, the clocks and the capture are cleared; when it skips,
    no file has changed; when it fails, the plan file still holds its text. *)
Theorem archive_keeps_plan stamp s content :
  files s !! plan_path = Some (TextFile content) ->
  match archive stamp s with
  | (inl (Some dest), s') =>
      completion_of content = true /\ files s' !! plan_path = None /\
      files s' !! dest = Some (TextFile content) /\
      files s' !! latest_archive_path = Some (TextFile content) /\
      plan_started_at s' = None /\ plan_was_completed s' = false /\ last_capture s' = None
  | (inl None, s') => files s' = files s /\ same_memory s s'
  | (inr _, s') => files s' !! plan_path = Some (TextFile content) /\ same_memory s s'
  end.
Proof.
  intros Hplan. pose proof (archive_wp stamp s content Hplan) as Hw. unfold wp in Hw.
  by destruct (archive stamp s) as [[[dest|]|e] s'].
Qed.

(** ** Creating *)

Lemma completed_snapshot_wp stamp c s :
  wp (write_completed_snapshot stamp c)
    (fun _ s' => same_memory s s' /\ files s' !! plan_path = files s !! plan_path /\
       exists n, files s' !! (archive_dir ++ [n]) = Some (TextFile c))
    (fun _ s' => same_memory s s' /\ files s' !! plan_path = files s !! plan_path) s.
Proof.
  apply wp_bind. eapply wp_conseq; [apply write_snapshot_wp| |].
  2:{ intros e s' (Hm' & Hfr & _). by rewrite Hfr. }
  intros dest s2 (Hd & (n & ->) & Hm2 & Hfr & _). apply wp_bind, wp_try. intros ok d Hd2. apply wp_ret.
  assert (Ho : forall q, q <> latest_archive_path -> tree d !! q = files s2 !! q).
  { intros q Hq. replace d with (snd (write_file latest_archive_path c (disk s2))) by by rewrite Hd2.
    by apply write_file_other. }
  split_and!; [done| |exists n]; unfold files at 1; simpl; rewrite Ho by done; [by rewrite Hfr|done].
Qed.

Lemma preserve_wp stamp s :
  wp (preserve_completed_plan_unlocked stamp)
    (fun _ s' => same_memory s s' /\ files s' !! plan_path = files s !! plan_path /\
       (read_fault (calls (disk s)) = false -> forall old, files s !! plan_path = Some (TextFile old) ->
        completion_of old = true -> exists n, files s' !! (archive_dir ++ [n]) = Some (TextFile old)))
    (fun _ s' => same_memory s s' /\ files s' !! plan_path = files s !! plan_path) s.
Proof.
  pose proof (read_unlocked_cases s) as Hr. unfold wp, preserve_completed_plan_unlocked.
  destruct (read_unlocked s) as [[[c|]|e] s1].
  2:{ destruct Hr as [-> E]. rewrite E. split_and!; done. }
  2:{ destruct Hr as (Hf & Hm & Hr). split_and!; [done|by rewrite Hf|]. intros Hrd old E. by destruct (Hr Hrd old). }
  destruct Hr as (E & Hf & Hm). destruct (completion_of c) eqn:Ec; simpl.
  2:{ split_and!; [done|by rewrite Hf|]. intros _ old E' Hc. congruence. }
  pose proof (completed_snapshot_wp stamp c s1) as Hw. unfold wp in Hw. unfold mbind, op_bind.
  destruct (write_completed_snapshot stamp c s1) as [[u|e] s']; cbn; rewrite <-Hf.
  - destruct Hw as (Hm' & Hp & Hn). split_and!; [by eapply same_memory_trans|done|].
    intros _ old E' _. rewrite Hf in E'. by assert (old = c) as -> by congruence.
  - destruct Hw as (Hm' & Hp). split; [by eapply same_memory_trans|done].
Qed.

(** Creating a plan over a completed one that can be read keeps the old
    text: on success it is in a snapshot, the plan file holds the new text and
    the clocks restart; on failure the old text is in the plan file or in a
    snapshot, and the clocks have not moved. *)
Theorem create_preserves_completed markdown stamp now s old :
  files s !! plan_path = Some (TextFile old) -> completion_of old = true ->
  read_fault (calls (disk s) + 1) = false ->
  match create markdown stamp now s with
  | (inl _, s') =>
      files s' !! plan_path = Some (TextFile (plan_content markdown)) /\
      (exists n, files s' !! (archive_dir ++ [n]) = Some (TextFile old)) /\
      plan_started_at s' = Some (instant now, wall now) /\ plan_was_completed s' = false
  | (inr _, s') =>
      (files s' !! plan_path = Some (TextFile old) \/
       exists n, files s' !! (archive_dir ++ [n]) = Some (TextFile old)) /\ same_memory s s'
  end.
Proof.
  intros Hold Hdone Hread.
  enough (Hw : wp (create markdown stamp now)
    (fun _ s' => files s' !! plan_path = Some (TextFile (plan_content markdown)) /\
      (exists n, files s' !! (archive_dir ++ [n]) = Some (TextFile old)) /\
      plan_started_at s' = Some (instant now, wall now) /\ plan_was_completed s' = false)
    (fun _ s' => (files s' !! plan_path = Some (TextFile old) \/
       exists n, files s' !! (archive_dir ++ [n]) = Some (TextFile old)) /\ same_memory s s') s)
    by exact Hw.
  assert (Hmk : forall ok d, create_dir_all [] (disk s) = (ok, d) ->
    files (on_disk d s) !! plan_path = Some (TextFile old) /\ calls d = (calls (disk s) + 1)%N).
  { intros ok d Hd. split; [|by eapply create_dir_all_calls]. unfold files. simpl.
    replace d with (snd (create_dir_all [] (disk s))) by by rewrite Hd. by apply create_dir_all_grows. }
  apply wp_bind, wp_must; intros d Hd; destruct (Hmk _ _ Hd) as [Hp Hc]; [|by split; [left|]].
  apply wp_bind. eapply wp_conseq; [apply preserve_wp| |].
  2:{ intros e s1 (Hm & E). split; [left; congruence|done]. }
  intros _ s1 (Hm & E & Hsnap). destruct (Hsnap ltac:(simpl; by rewrite Hc) old Hp Hdone) as [n Hn].
  assert (Ho : forall ok d1, write_file plan_path (plan_content markdown) (disk s1) = (ok, d1) ->
    tree d1 !! (archive_dir ++ [n]) = Some (TextFile old)).
  { intros ok d1 Hd1. replace d1 with (snd (write_file plan_path (plan_content markdown) (disk s1))) by by rewrite Hd1.
    by rewrite write_file_other. }
  apply wp_bind, wp_must; intros d1 Hd1; specialize (Ho _ _ Hd1).
  - apply wp_modify. apply write_file_ok in Hd1. split_and!; [|by exists n|done|done].
    unfold files. simpl. by rewrite Hd1, lookup_insert_eq.
  - split; [right; by exists n|done].
Qed.

(** ** Checking off *)

Definition pending_count (content : str) : nat :=
  length (List.filter is_pending (parse_tasks content)).

Lemma check_off_pending content tid u :
  check_off_content content tid = (u, true) -> pending_count content = S (pending_count u).
Proof.
  intros E. pose proof (check_off_content_cases content tid) as Hc. rewrite E in Hc.
  destruct Hc as (a & b & l1 & t & t' & l2 & _ & _ & _ & Hc1 & Hu1 & Ho & Hd & _).
  unfold pending_count. rewrite Hc1, Hu1, !List.filter_app, !length_app. simpl.
  unfold owns in Ho. apply andb_true_iff in Ho as [-> _].
  replace (is_pending t') with false by (unfold is_completed, is_pending in *; by destruct (checkbox t')).
  simpl. lia.
Qed.

(** The paths a check-off may change. *)
Definition check_off_files (q : path) : bool :=
  path_eqb q plan_path || path_eqb q latest_archive_path || in_archive q.

(** What a check-off does, whichever call fails. *)
Definition checked_off (tid : str) (now : Now) (s : PlanState) (r : bool) (s' : PlanState) : Prop :=
  if r then
    exists c u, files s !! plan_path = Some (TextFile c) /\
      check_off_content c (normalize_task_id_ref tid) = (u, true) /\
      files s' !! plan_path = Some (TextFile u) /\ pending_count c = S (pending_count u) /\
      (plan_was_completed s' = true ->
         plan_was_completed s = true \/ completion_of u = true /\ plan_completed_at s' = or_else (plan_completed_at s) (Some (instant now)))
  else files s' = files s /\ same_memory s s'.

(** What a check-off that fails leaves: every file as it was, or the plan as the
    write of a tick left it. *)
Definition failed_check_off (tid : str) (s s' : PlanState) : Prop :=
  frame (path_eqb plan_path) s s' /\ same_memory s s' /\
  (files s' = files s \/ exists c u, files s !! plan_path = Some (TextFile c) /\ check_off_content c (normalize_task_id_ref tid) = (u, true)).
Lemma check_off_wp tid stamp now s :
  wp (check_off tid stamp now) (checked_off tid now s) (fun _ => failed_check_off tid s) s.
Proof.
  apply wp_bind, wp_read; [done| |intros e s1 Hf Hm _; split; [intros q _; by rewrite Hf|split; [done|by left]]].
  intros c s1 Hc Hf Hm. destruct (check_off_content c (normalize_task_id_ref tid)) as [u flipped] eqn:Eu.
  destruct flipped; [simpl|by apply wp_ret].
  apply wp_bind, wp_must; intros d Hd.
  2:{ split; [|split; [done|right; by exists c, u]]. intros q Hq%path_eqb_ne. unfold files. simpl.
      replace d with (snd (write_file plan_path u (disk s1))) by by rewrite Hd.
      rewrite write_file_other by done. by unfold files in Hf; rewrite Hf. }
  apply write_file_ok in Hd.
  assert (Hp : files (on_disk d s1) !! plan_path = Some (TextFile u))
    by (unfold files; simpl; by rewrite Hd, lookup_insert_eq).
  assert (Hout : forall s', files s' !! plan_path = Some (TextFile u) ->
    (plan_was_completed s' = true -> plan_was_completed s = true \/
      completion_of u = true /\ plan_completed_at s' = or_else (plan_completed_at s) (Some (instant now))) ->
    checked_off tid now s true s').
  { intros s' Hp' Hdone. exists c, u. split_and!; auto. by eapply check_off_pending. }
  apply wp_bind. eapply wp_conseq; [apply is_complete_wp| |done].
  intros complete s2 (Hf2 & Hm2 & _ & Hcu). destruct Hm as (_ & A1 & A2 & _), Hm2 as (_ & B1 & B2 & _).
  simpl in B1, B2. destruct complete.
  - destruct Hcu as (c' & Hc' & Hcu); [done|]. assert (c' = u) as -> by congruence.
    apply wp_bind, wp_modify, wp_bind, wp_logged.
    eapply wp_conseq; [apply completed_snapshot_wp| |].
    + intros _ s3 ((_ & C1 & _) & Hp3 & _). apply wp_ret, Hout; [by rewrite Hp3; unfold files; simpl; rewrite <-Hp, <-Hf2|].
      intros _. right. split; [done|]. rewrite C1. simpl. by rewrite B1, A1.
    + intros _ s3 ((_ & C1 & _) & Hp3). apply wp_ret, Hout; [by rewrite Hp3; unfold files; simpl; rewrite <-Hp, <-Hf2|].
      intros _. right. split; [done|]. rewrite C1. simpl. by rewrite B1, A1.
  - apply wp_ret, Hout; [by rewrite Hf2|]. intros E. left. congruence.
Qed.

(** A check-off that answers true has rewritten the plan with the box of
    exactly the first pending task of that id ticked, so that one task fewer is
    pending; it answers false only when nothing has changed; its failures leave
    every other file alone and the clocks where they were. *)
Theorem check_off_ticks_one tid stamp now s :
  match check_off tid stamp now s with
  | (inl true, s') => exists c u,
      files s !! plan_path = Some (TextFile c) /\
      check_off_content c (normalize_task_id_ref tid) = (u, true) /\
      files s' !! plan_path = Some (TextFile u) /\ pending_count c = S (pending_count u) /\
      (plan_was_completed s' = true -> plan_was_completed s = true \/
         completion_of u = true /\ plan_completed_at s' = or_else (plan_completed_at s) (Some (instant now)))
  | (inl false, s') => files s' = files s /\ same_memory s s'
  | (inr _, s') => frame (path_eqb plan_path) s s' /\ same_memory s s'
  end.
Proof.
  pose proof (check_off_wp tid stamp now s) as Hw. unfold wp in Hw.
  destruct (check_off tid stamp now s) as [[[|]|e] s']; [done..|]. by destruct Hw as (? & ? & _).
Qed.

Lemma completed_task_Some marker mid task_id deliverable tid :
  completed_task marker (Complete mid) task_id deliverable = Some tid ->
  match bound_id task_id with
  | Some b => tid = b /\ forall m, mid = Some m -> task_id_eq b m = true
  | None => mid = Some tid /\
      (marker = None -> exists line, In line (lines deliverable) /\ line_matches_task_id line tid = true)
  end.
Proof.
  unfold completed_task, deliverable_mentions_task_id. cbn [Markers.is_complete negb].
  destruct (bound_id task_id) as [b|]; cbv zeta; cbn [or_else].
  - destruct mid as [m|], marker as [mm|]; cbn [andb];
      try (destruct (task_id_eq b m) eqn:Em; cbn [negb]; [|done]); intros [= <-]; (split; [done|]); by intros ? [= <-].
  - destruct mid as [m|]; [|done]. destruct marker as [mm|]; cbn [andb].
    + by intros [= <-].
    + destruct (existsb _ _) eqn:Ex; cbn [negb]; [|done]. intros [= <-]. split; [done|]. intros _. by apply existsb_exists.
Qed.

(** The verdict of a deliverable completes the task [tid]. *)
Definition proves_done (marker : option MissionMarker) (task_id : option str) (deliverable tid : str) : Prop :=
  exists mid, resolve marker deliverable = Ret (Some (Complete mid)) /\
    match bound_id task_id with
    | Some b => tid = b /\ forall m, mid = Some m -> task_id_eq b m = true
    | None => mid = Some tid /\
        (marker = None -> exists line, In line (lines deliverable) /\ line_matches_task_id line tid = true)
    end.

(** C23: Judging a deliverable never panics.  A box is ticked only for a
    completion verdict, and only for the id the caller bound, which any id of
    the verdict has to agree with, or else for the verdict's own id, which has
    to stand as a token on some line when it was read off the deliverable.
    Without a tick no file changes.  A judgement that fails changes no file
    either, but for the plan itself, whose write may be broken off, and that only
    when such a verdict had a box to tick. *)
Theorem deliverable_ticks_its_own_task marker task_id deliverable stamp now :
  exists op, check_plan_on_deliverable marker task_id deliverable stamp now = Ret op /\ forall s,
  match op s with
  | (inl true, s') => exists tid c u,
      proves_done marker task_id deliverable tid /\
      files s !! plan_path = Some (TextFile c) /\
      check_off_content c (normalize_task_id_ref tid) = (u, true) /\
      files s' !! plan_path = Some (TextFile u) /\ pending_count c = S (pending_count u)
  | (inl false, s') => files s' = files s /\ same_memory s s'
  | (inr _, s') => frame (path_eqb plan_path) s s' /\ same_memory s s' /\
      (files s' = files s \/ exists tid c u, proves_done marker task_id deliverable tid /\
         files s !! plan_path = Some (TextFile c) /\ check_off_content c (normalize_task_id_ref tid) = (u, true))
  end.
Proof.
  assert (Hres : exists r, resolve marker deliverable = Ret r).
  { destruct marker as [m|]; [by eexists|]. destruct (parse_cases deliverable) as (m & Hm & _). by exists m. }
  destruct Hres as [r Hr]. unfold check_plan_on_deliverable. rewrite Hr. eexists. split; [reflexivity|].
  intros s. destruct r as [m|]; [|done].
  destruct (completed_task marker m task_id deliverable) as [tid|] eqn:Et; [|done].
  assert (Hd : proves_done marker task_id deliverable tid).
  { destruct m as [mid| |]; try done. exists mid. split; [done|]. by apply completed_task_Some. }
  pose proof (check_off_wp tid stamp now s) as Hw. unfold wp in Hw.
  destruct (check_off tid stamp now s) as [[[|]|e] s']; [|done|].
  - destruct Hw as (c & u & Hc & Hu & Hp & Hn & _). by exists tid, c, u.
  - destruct Hw as (Hf & Hm & [Hs|(c & u & Hc & Hu)]); (split; [done|]; split; [done|]); [by left|right]. by exists tid, c, u.
Qed.

(** ** Cleaning up *)

(** The paths a clean-up may remove. *)
Definition runtime_path (q : path) : bool :=
  path_eqb q plan_path || path_eqb q latest_archive_path || path_eqb q forced_phase_path ||
  path_eqb q legacy_transcript_path || path_eqb q legacy_ui_journal_path ||
  under session_bundle_path q || under prompts_dir q || under archive_dir q ||
  match q with [n] => is_runtime_name n | _ => false end.

(** An operation that never fails, keeps the memory and stays in [X]. *)
Definition quiet {A} (X : path -> bool) (m : Op A) : Prop :=
  forall s, wp m (fun _ s' => frame X s s' /\ same_memory s s') (fun _ _ => False) s.

Lemma quiet_bind {A B} X (m : Op A) (f : A -> Op B) :
  quiet X m -> (forall a, quiet X (f a)) -> quiet X (m ≫= f).
Proof.
  intros Hm Hf s. apply wp_bind. eapply wp_conseq; [apply Hm| |done]. intros a s1 [Hf1 Hm1].
  eapply wp_conseq; [apply Hf| |done]. intros b s2 [Hf2 Hm2].
  split; [by eapply frame_trans|by eapply same_memory_trans].
Qed.
Lemma quiet_remove_if X p : X p = true -> quiet X (remove_if_exists p).
Proof.
  intros Hp s. apply wp_bind, wp_exists. destruct (path_exists _ _); [|by apply wp_ret].
  apply wp_try. intros ok d Hd. split; [|done]. intros q Hq.
  unfold files. simpl. replace d with (snd (remove_file p (disk s))) by by rewrite Hd.
  apply remove_file_other. congruence.
Qed.
Lemma quiet_remove_dir_if X p : (forall q, X q = false -> under p q = false) -> quiet X (remove_dir_if_exists p).
Proof.
  intros Hp s. apply wp_bind, wp_exists. destruct (path_exists _ _); [|by apply wp_ret].
  apply wp_try. intros ok d Hd. split; [|done]. intros q Hq.
  unfold files. simpl. replace d with (snd (remove_dir_all p (disk s))) by by rewrite Hd.
  by apply remove_dir_all_other, Hp.
Qed.
Lemma quiet_remove_runtime names : quiet runtime_path (remove_runtime_files names).
Proof.
  induction names as [|n names IH]; [done|]. intros s. apply wp_bind, wp_get.
  apply (quiet_bind runtime_path (if is_runtime_name n && is_file (files s) [n] then try_ (remove_file [n]) else mret ())
    (fun _ => remove_runtime_files names)); [|done].
  destruct (is_runtime_name n) eqn:En; [|done]. destruct (is_file _ _); [|done].
  intros s1. apply wp_try. intros ok d Hd. split; [|done]. intros q Hq.
  unfold files. simpl. replace d with (snd (remove_file [n] (disk s1))) by by rewrite Hd.
  apply remove_file_other. intros ->. unfold runtime_path in Hq. rewrite En, orb_true_r in Hq. done.
Qed.

Lemma runtime_under p q :
  p = session_bundle_path \/ p = prompts_dir \/ p = archive_dir -> runtime_path q = false -> under p q = false.
Proof. unfold runtime_path. intros [->|[-> | ->]] Hq; by bool_simpl. Qed.

Lemma quiet_remove_plan_files : quiet runtime_path remove_plan_files.
Proof.
  do 5 (apply quiet_bind; [by apply quiet_remove_if|intros _]).
  do 3 (apply quiet_bind; [apply quiet_remove_dir_if; intros q; apply runtime_under; tauto|intros _]).
  apply quiet_bind; [|intros l; apply quiet_remove_runtime].
  intros s. apply wp_ask. intros a d (Ht & _)%read_dir_cases. split; [|done].
  intros q _. unfold files. simpl. by rewrite Ht.
Qed.

Lemma remove_dir_if_empty_wp s :
  wp remove_dir_if_empty
    (fun _ s' => same_memory s s' /\
       (files s' = files s \/
        files s' = delete [] (files s) /\ forall n, files s !! [n] = None))
    (fun _ _ => False) s.
Proof.
  apply wp_bind, wp_ask. intros r d Hd. apply read_dir_cases in Hd as (Ht & _ & Hl).
  assert (H0' : files (on_disk d s) = files s) by done.
  destruct r as [[|n l]|]; [|by apply wp_ret; split; [|left]|by apply wp_ret; split; [|left]].
  apply wp_try. intros ok d1 Hd1. apply remove_dir_cases in Hd1. simpl in Hd1. rewrite Ht in Hd1.
  split; [done|]. unfold files at 1 3. simpl. rewrite Hd1. destruct ok; [right|by left].
  split; [done|]. intros n. destruct (files s !! [n]) as [nd|] eqn:E; [|done].
  by apply Hl, elem_of_nil in E.
Qed.

(** What a clean-up that answers true has done. *)
Definition cleaned (s s' : PlanState) : Prop :=
  keep_session s = false /\
  match files s !! plan_path with
  | Some (TextFile c) => completion_of c = true
  | Some _ => False
  | None => plan_was_completed s = true
  end /\
  (forall q, q <> [] -> runtime_path q = false -> files s' !! q = files s !! q) /\
  (files s' !! [] = files s !! [] \/
   forall n, is_Some (files s !! [n]) -> runtime_path [n] = true) /\
  plan_started_at s' = None /\ plan_was_completed s' = false /\ last_capture s' = None.

(** Cleaning up answers true only for a completed plan and without
    [--keep-session]; then it removes nothing but the runtime files, and the
    directory itself only when nothing of the user's is in it.  Otherwise no
    file changes, and it never fails. *)
Theorem cleanup_spares_user_files s :
  match cleanup_completed s with
  | (inl true, s') => cleaned s s'
  | (inl false, s') => files s' = files s /\ same_memory s s'
  | (inr _, _) => False
  end.
Proof.
  enough (Hw : wp cleanup_completed
    (fun (r : bool) s' => if r then cleaned s s' else files s' = files s /\ same_memory s s') (fun _ _ => False) s)
    by (unfold wp in Hw; by destruct (cleanup_completed s) as [[[|]|] ?]).
  apply wp_bind, wp_get. destruct (keep_session s) eqn:Ek; [by apply wp_ret|].
  apply wp_bind, wp_exists. apply wp_bind.
  assert (Hc : wp (if path_exists (files s) plan_path then is_complete_unlocked else mret (plan_was_completed s))
    (fun b s1 => files s1 = files s /\ same_memory s s1 /\
       (b = true -> match files s !! plan_path with
                    | Some (TextFile c) => completion_of c = true | Some _ => False
                    | None => plan_was_completed s = true end)) (fun _ _ => False) s).
  { unfold path_exists. destruct (files s !! plan_path) as [nd|] eqn:E; [|by apply wp_ret].
    eapply wp_conseq; [apply is_complete_wp| |done]. intros b s1 (Hf & Hm & _ & Hb). split_and!; [done|done|].
    intros ->. destruct Hb as (c & E' & Hcc); [done|]. by simplify_eq. }
  eapply wp_conseq; [exact Hc| |done]. clear Hc. intros b s1 (Hf1 & Hm1 & Hb).
  destruct b; [simpl|by apply wp_ret]. specialize (Hb eq_refl).
  apply wp_bind, wp_exists. destruct (path_exists _ []); [simpl|by apply wp_ret].
  apply wp_bind. eapply wp_conseq; [apply quiet_remove_plan_files| |done]. intros _ s2 [Hfr2 Hm2].
  apply wp_bind, wp_modify, wp_bind, wp_modify, wp_bind.
  eapply wp_conseq; [apply remove_dir_if_empty_wp| |done].
  intros _ s3 ((A & _ & B & _ & C) & Hf3). apply wp_ret. simpl in A, B, C.
  assert (H2 : files (clear_plan_start (clear_capture s2)) = files s2) by done. rewrite H2 in Hf3.
  unfold cleaned. split_and!; [done|exact Hb| | |done|done|done].
  - intros q Hq Hr. rewrite <-Hf1, <-Hfr2 by done. destruct Hf3 as [-> |[-> _]]; [done|].
    by rewrite lookup_delete_ne.
  - destruct Hf3 as [-> |[-> Hn]]; [left; by rewrite Hfr2, Hf1|right].
    intros n [nd Hnd]. destruct (runtime_path [n]) eqn:Er; [done|]. exfalso.
    rewrite <-Hf1, <-Hfr2, Hn in Hnd by done. done.
Qed.

(** ** The answers of the readers *)

Lemma completion_of_classify c :
  match classify_plan_work c with
  | NoPlan => trim c = [] /\ completion_of c = false /\ parse_unchecked_tasks c = []
  | Unfinished n => 0 < n /\ n = pending_count c /\ completion_of c = false
  | CompleteWork => completion_of c = true /\ parse_unchecked_tasks c = []
  | UnknownWork w => w = NoTaskLine (blen c) /\ completion_of c = false /\ parse_tasks c = []
  end.
Proof.
  unfold classify_plan_work, completion_of, parse_unchecked_tasks, unchecked_task_ids, pending_count,
    has_unchecked_box, has_checked_box.
  destruct (parse_tasks c) as [|t ts]; cbv zeta; [cbn [is_empty]; by destruct (trim c)|]. cbn [is_empty].
  set (l := t :: ts). assert (Hl : existsb is_pending l = negb (length (List.filter is_pending l) =? 0)).
  { clear. induction l as [|x l IH]; [done|]. simpl. rewrite IH. by destruct (is_pending x). }
  destruct (length (List.filter is_pending l) =? 0) eqn:E; apply Nat.eqb_eq in E || apply Nat.eqb_neq in E.
  - rewrite Hl. apply length_zero_iff_nil in E as E'. rewrite E'. split; [|done]. simpl.
    unfold l in *. simpl in *. unfold is_pending, is_completed in *. by destruct (checkbox t).
  - rewrite Hl. split_and!; [lia|done|done].
Qed.

(** The readers of one state agree, and an unreadable plan is never
    complete: the work state is complete exactly when the completion test says
    so, an unfinished plan reports the number of its pending tasks, and an
    unknown one is never taken for a finished plan. *)
Theorem work_state_agrees s :
  match fst (work_state s) with
  | inl NoPlan => fst (plan_is_complete s) = inl false /\ fst (try_pending_tasks s) = inl []
  | inl (Unfinished n) => fst (plan_is_complete s) = inl false /\ 0 < n /\
      exists c, files s !! plan_path = Some (TextFile c) /\ n = pending_count c
  | inl CompleteWork => fst (plan_is_complete s) = inl true /\ fst (try_pending_tasks s) = inl []
  | inl (UnknownWork w) => fst (plan_is_complete s) = inl false /\
      match w with
      | Unreadable e => fst (read s) = inr e /\ fst (try_pending_tasks s) = inr e /\ fst (pending_tasks s) = inl []
      | NoTaskLine n => exists c, files s !! plan_path = Some (TextFile c) /\ n = blen c /\ parse_tasks c = []
      end
  | inr _ => False
  end.
Proof.
  unfold work_state, plan_is_complete, is_complete_unlocked, pending_tasks, try_pending_tasks, read,
    or_default, mbind, op_bind, mret, op_ret.
  pose proof (read_unlocked_cases s) as Hr. destruct (read_unlocked s) as [[[c|]|e] s1]; [|done|done].
  destruct Hr as (Hp & _ & _). pose proof (completion_of_classify c) as Hc. cbn [fst].
  destruct (classify_plan_work c) as [|n| |w].
  - destruct Hc as (_ & -> & ->). done.
  - destruct Hc as (Hn & -> & ->). split_and!; [done|done|by exists c].
  - destruct Hc as (-> & ->). done.
  - destruct Hc as (-> & -> & Ht). split; [done|]. by exists c.
Qed.

(** Archiving and clearing are told apart by what they leave: after an
    archive the session loop sees the plan archived during the round, after a
    clear that met no failing removal it never does. *)
Theorem archived_not_cleared s :
  (forall stamp dest s' content, files s !! plan_path = Some (TextFile content) ->
     archive stamp s = (inl (Some dest), s') -> plan_archived_during_round true s' = true) /\
  ((forall n, write_fault n = false) -> forall r s', clear s = (r, s') ->
     r = inl () /\ forall present, plan_archived_during_round present s' = false).
Proof.
  split.
  - intros stamp dest s' content Hp E.
    pose proof (archive_wp stamp s content Hp) as Ha. unfold wp in Ha. rewrite E in Ha.
    destruct Ha as (_ & Hg & _ & Hl & _).
    unfold plan_archived_during_round, path_exists, is_file. by rewrite Hg, Hl.
  - intros Hnf r s' E.
    enough (Hw : wp clear (fun _ s1 => is_file (files s1) latest_archive_path = false) (fun _ _ => False) s).
    { unfold wp in Hw. rewrite E in Hw. destruct r as [[]|]; [|done]. split; [done|].
      intros p. unfold plan_archived_during_round. by rewrite Hw, andb_false_r. }
    assert (Hrm : forall s, wp (remove_if_exists latest_archive_path)
      (fun _ s1 => is_file (files s1) latest_archive_path = false) (fun _ _ => False) s).
    { intros s1. apply wp_bind, wp_exists. unfold path_exists.
      destruct (files s1 !! latest_archive_path) as [nd|] eqn:En; [|apply wp_ret; unfold is_file; by rewrite En].
      apply wp_try. intros ok d. unfold remove_file, write_call. rewrite Hnf.
      destruct (is_file (tree (disk s1)) latest_archive_path) eqn:Ef; intros [= <- <-]; [|done].
      unfold files, is_file. simpl. by rewrite lookup_delete_eq. }
    apply wp_bind. eapply wp_conseq; [apply (quiet_remove_if (path_eqb plan_path)), path_eqb_refl| |done].
    intros _ s1 _. apply wp_bind. eapply wp_conseq; [apply Hrm| |done]. intros ? s2 Hs2.
    apply wp_bind. eapply wp_conseq; [apply (quiet_remove_if (path_eqb forced_phase_path)), path_eqb_refl| |done].
    intros _ s3 [Hf3 _]. apply wp_sweep. intros s4 Hf4 _ _ _.
    unfold is_file in *. by rewrite Hf4, Hf3.
Qed.

(** ** Snapshots *)

(** A snapshot answered holds the text asked for, in the archive; nothing
    outside the archive changes; and when the archive could be listed, no node
    is lost or rewritten, so that no earlier snapshot is. *)
Theorem snapshot_loses_nothing stamp content s :
  match write_snapshot_unlocked stamp content s with
  | (inl dest, s') => files s' !! dest = Some (TextFile content) /\ (exists n, dest = archive_dir ++ [n])
  | (inr _, _) => True
  end /\
  let s' := snd (write_snapshot_unlocked stamp content s) in
  same_memory s s' /\ frame in_archive s s' /\
  (read_fault (calls (disk s) + 1) = false -> keeps_nodes s s').
Proof.
  pose proof (write_snapshot_wp stamp content s) as Hw. unfold wp in Hw.
  destruct (write_snapshot_unlocked stamp content s) as [[dest|e] s'].
  - destruct Hw as (Hd & Hn & Hm & Hf & Hk). by split_and!.
  - destruct Hw as (Hm & Hf & Hk). by split_and!.
Qed.

End lifecycle.

(** The search for a snapshot name always ends: it answers the first name
    of the sequence that is not taken, which is a snapshot name, or refuses
    only when at least a hundred thousand names are taken. *)
Theorem snapshot_search_ends stamp taken :
  match free_name (S (length taken)) stamp taken 1 with
  | Some (Some n) => n ∉ taken /\ is_snapshot_name n = true /\
      exists j, n = snapshot_name stamp j /\ forall k, 1 <= k < j -> snapshot_name stamp k ∈ taken
  | Some None => (MAX_SUFFIX <= N.of_nat (length taken))%N
  | None => False
  end.
Proof.
  pose proof (free_name_run stamp taken (S (length taken)) 1 ltac:(lia)) as Hr.
  pose proof (free_name_fuel stamp taken) as Hf.
  destruct (free_name _ _ _ _) as [[n|]|]; [| |done].
  - destruct Hr as (Hn & j & _ & -> & Hk). split_and!; [done|apply snapshot_name_is_snapshot|by exists j].
  - enough (N.to_nat MAX_SUFFIX <= length taken) by lia.
    apply (snapshot_names_bound stamp). intros j Hj. apply Hr; lia.
Qed.

(** ** Concrete runs *)

Definition done_plan : str := lit "- [x] [T-1] done" ++ [NL].
Definition open_plan : str := lit "- [ ] [T-1] open" ++ [NL].
Definition plan_dir (plan : str) : Tree := {[ [] := Folder; [PLAN_FILE] := TextFile plan ]}.
Definition fresh (t : Tree) : PlanState :=
  {| disk := {| tree := t; calls := 0 |}; plan_started_at := Some (1%N, 1%N); plan_completed_at := None;
     plan_was_completed := false; keep_session := false; last_capture := None |}.
Definition noon : Now := {| instant := 12; wall := 12 |}.
Definition STAMP : str := lit "20250101_120000".

Lemma archive_keeps_plan_witness :
  let f := no_faults in let o := gmap_order in let u := ascii_tables in
  exists dest s', archive STAMP (fresh (plan_dir done_plan)) = (inl (Some dest), s') /\
    files s' !! dest = Some (TextFile done_plan).
Proof.
  intros f o u. pose proof (archive_keeps_plan STAMP (fresh (plan_dir done_plan)) done_plan eq_refl) as Ha.
  destruct (archive STAMP (fresh (plan_dir done_plan))) as [[[dest|]|e] s'] eqn:E.
  - exists dest, s'. tauto.
  - exfalso. vm_compute in E. discriminate E.
  - exfalso. vm_compute in E. discriminate E.
Defined.

(** The write of the new plan fails: the old one is in a snapshot. *)
Lemma create_preserves_completed_witness :
  let f := failing_at 6 in let o := gmap_order in let u := ascii_tables in
  let r := create open_plan STAMP noon (fresh (plan_dir done_plan)) in
  (exists e, fst r = inr e) /\ files (snd r) !! plan_path = Some (TextFile (lit "half")) /\
  exists n, files (snd r) !! (archive_dir ++ [n]) = Some (TextFile done_plan).
Proof.
  intros f o u.
  pose proof (create_preserves_completed open_plan STAMP noon (fresh (plan_dir done_plan)) done_plan
    eq_refl ltac:(vm_compute; reflexivity) eq_refl) as Hc.
  cbv zeta. destruct (create open_plan STAMP noon (fresh (plan_dir done_plan))) as [[[]|e] s'] eqn:E.
  - exfalso. vm_compute in E. discriminate E.
  - assert (Hp : files s' !! plan_path = Some (TextFile (lit "half"))).
    { change s' with (snd (inr (A := ()) e, s')). rewrite <-E. vm_compute. reflexivity. }
    split; [by exists e|]. split; [exact Hp|]. cbn [snd]. destruct Hc as [[Hc|Hn] _]; [|exact Hn].
    rewrite Hp in Hc. discriminate Hc.
Defined.

Lemma archived_not_cleared_witness :
  let f := no_faults in let o := gmap_order in let u := ascii_tables in
  let s := fresh (plan_dir done_plan) in
  plan_archived_during_round true (snd (archive STAMP s)) = true /\
  plan_archived_during_round true (snd (clear s)) = false.
Proof.
  intros f o u s. destruct (archived_not_cleared s) as [Ha Hc]. split.
  - destruct (archive STAMP s) as [[[dest|]|e] s'] eqn:E.
    + exact (Ha STAMP dest s' done_plan eq_refl E).
    + exfalso. vm_compute in E. discriminate E.
    + exfalso. vm_compute in E. discriminate E.
  - exact (proj2 (Hc (fun n => eq_refl) _ _ (surjective_pairing _)) true).
Defined.

(** When the archive cannot be listed, a snapshot of the same second is
    overwritten by a different one. *)
Lemma failed_listing_overwrites :
  let f := failing_at 1 in let o := gmap_order in
  let dest := archive_dir ++ [snapshot_name STAMP 1] in
  let t := <[archive_dir := Folder]> (<[dest := TextFile (lit "older")]> (plan_dir done_plan)) in
  files (snd (write_snapshot_unlocked STAMP done_plan (fresh t))) !! dest = Some (TextFile done_plan).
Proof. vm_compute. reflexivity. Qed.

(** A check-off that completes the plan, and the snapshot it leaves. *)
Example check_off_completes :
  let f := no_faults in let o := gmap_order in let u := ascii_tables in
  let r := check_off (lit "t-1") STAMP noon (fresh (plan_dir open_plan)) in
  fst r = inl true /\ plan_completed_at (snd r) = Some 12%N /\
  files (snd r) !! (archive_dir ++ [snapshot_name STAMP 1]) = Some (TextFile (lit "- [x] [T-1] open" ++ [NL])).
Proof. vm_compute. split_and!; reflexivity. Qed.
