(* ===== verification/PathGate.v ===== *)
(** * The gate in front of the file tools ([src/harness/fs.rs], [src/harness/mod.rs])

    A tool's path argument is resolved against the workspace root, its deepest
    existing ancestor is canonicalized, the rest is folded onto it, and the
    result is compared, component by component, with the two places the tools
    may touch: the workspace root and the temporary directory.

    Paths are texts, read the way [std::path] reads them on Unix; the spelling
    rules of both path families are here, since the sources keep the Windows
    ones testable on Unix.  What the system answers ([canonicalize], [exists],
    the current and the temporary directory) is a parameter. *)

From S2P Require Import Prelude Str Utf8 ToolNames MemberName Disk Atomic.
Local Open Scope nat_scope.

(** ** [std::path] on Unix *)

Inductive Component := RootDir | CurDir | ParentDir | Normal (name : str).
#[export] Instance component_eq_dec : EqDecision Component.
Proof. solve_decision. Defined.

Definition SLASH : str := lit "/".
Definition BACKSLASH : char := 92%N.
Definition is_absolute (p : str) : bool := starts_with SLASH p.

Definition piece (s : str) : option Component :=
  if is_empty s || str_eqb s (lit ".") then None
  else if str_eqb s (lit "..") then Some ParentDir else Some (Normal s).
(** [Path::components]: repeated separators and inner [.] are skipped, a
    leading [.] of a relative path is kept. *)
Definition components (p : str) : list Component :=
  let pieces := split_char (ch "/") p in
  (if is_absolute p then [RootDir]
   else match pieces with s :: _ => if str_eqb s (lit ".") then [CurDir] else [] | [] => [] end)
  ++ omap piece pieces.
Definition component_str (c : Component) : str :=
  match c with RootDir => SLASH | CurDir => lit "." | ParentDir => lit ".." | Normal s => s end.

(** [PathBuf::push] and [Path::join] *)
Definition push (p q : str) : str :=
  if is_absolute q then q
  else if is_empty p || ends_with SLASH p then p ++ q else p ++ SLASH ++ q.

(** ** Spellings *)

Definition WORKSPACE_PREFIX : str := lit "/home/coder/workspace".

Definition WINDOWS_PATH_PREFIXES : list str :=
  [lit "\\?\UNC\"; lit "\\?\GLOBALROOT\"; lit "\\?\"; lit "\\.\"; lit "\\localhost\";
   lit "//?/UNC/"; lit "//?/GLOBALROOT/"; lit "//?/"; lit "//./"; lit "//localhost/"].
Definition strip_windows_path_prefix (raw : str) : str :=
  match find_first (fun p => (length p <=? length raw) && eq_ignore_ascii_case (take (length p) raw) p) WINDOWS_PATH_PREFIXES with
  | Some p => drop (length p) raw
  | None => raw
  end.

Inductive PathFamily := Unix | Windows.
#[export] Instance family_eq_dec : EqDecision PathFamily.
Proof. solve_decision. Defined.
(** The build for Unix. *)
Definition current : PathFamily := Unix.
Definition folds_case (f : PathFamily) : bool := match f with Windows => true | Unix => false end.

Definition normalize_for_compare_in_family (raw : str) (family : PathFamily) : str :=
  match family with
  | Unix => raw
  | Windows => map (fun c => if (c =? BACKSLASH)%N then ch "/" else c) (strip_windows_path_prefix raw)
  end.

(** The byte at 1 is a colon exactly when a one-byte character comes before it. *)
Definition containment_key_in_family (p : str) (family : PathFamily) : str :=
  match family with
  | Unix => p
  | Windows =>
      let key := normalize_for_compare_in_family p family in
      match key with
      | c :: d :: rest =>
          if (len_utf8 c =? 1) && (d =? ch ":")%N then to_ascii_upper c :: d :: to_ascii_lowercase rest
          else to_ascii_lowercase key
      | _ => to_ascii_lowercase key
      end
  end.
Definition containment_key (p : str) : str := containment_key_in_family p current.

Definition key_components (key : str) : list str :=
  List.filter (fun part => negb (is_empty part) && negb (str_eqb part (lit "."))) (split_char (ch "/") key).

Definition same_part (family : PathFamily) (anchor candidate : str) : bool :=
  if folds_case family then eq_ignore_ascii_case anchor candidate else str_eqb anchor candidate.
(** [zip] stops at the shorter list. *)
Fixpoint all_zip {A B} (f : A -> B -> bool) (l : list A) (k : list B) : bool :=
  match l, k with x :: l', y :: k' => f x y && all_zip f l' k' | _, _ => true end.
Definition path_within_in_family (root target : str) (family : PathFamily) : bool :=
  let root_parts := key_components (containment_key_in_family root family) in
  let target_parts := key_components (containment_key_in_family target family) in
  if is_empty root_parts then false
  else if str_mem (lit "..") root_parts || str_mem (lit "..") target_parts then false
  else (length root_parts <=? length target_parts) && all_zip (same_part family) root_parts target_parts.
Definition path_within (root target : str) : bool := path_within_in_family root target current.

(** ** Folding a missing tail *)

Definition is_anchor_component (part : str) : bool :=
  str_eqb part SLASH || str_eqb part [BACKSLASH] || str_eqb part (lit ".") || ends_with (lit ":") part.
Definition fold_component (parts : list str) (c : Component) : list str :=
  match c with
  | CurDir => parts
  | ParentDir => match last parts with
                 | Some l => if is_anchor_component l then parts else removelast parts
                 | None => parts
                 end
  | other => parts ++ [component_str other]
  end.
Definition push_all (parts : list str) : str := fold_left push parts [].
Definition components_to_path (cs : list Component) : str := push_all (map component_str cs).
Definition join_normalized (anchor : str) (tail : list Component) : str :=
  push_all (fold_left fold_component tail (map component_str (components anchor))).

(** ** The system *)

Class Os := {
  canonicalize : N -> Tree -> str -> option str;   (* at the n-th call *)
  exists_at : N -> Tree -> str -> bool;
  current_dir : N -> option str;
  temp_dir : str
}.

(** The process, the root its task is scoped to ([SCOPED_WORKSPACE_ROOT]) and
    the global one ([WORKSPACE_ROOT]). *)
Record Host := { process : Process; scoped_root : option str; global_root : option str }.
Definition with_process (h : Host) (p : Process) : Host :=
  {| process := p; scoped_root := scoped_root h; global_root := global_root h |}.
Definition with_scoped (h : Host) (r : option str) : Host :=
  {| process := process h; scoped_root := r; global_root := global_root h |}.
Definition with_global (h : Host) (r : str) : Host :=
  {| process := process h; scoped_root := scoped_root h; global_root := Some r |}.
Definition on_disk {A} (f : Disk -> A * Disk) (h : Host) : A * Host :=
  let '(a, p) := on_calls f (process h) in (a, with_process h p).

(** ** Errors of a tool ([src/harness/common.rs]); the text of a failed call is
    left out *)

Inductive Failed := CannotRead | CannotMakeFolder | CannotWrite (e : AtomicError) | CancelledWhilePaused.
Inductive ToolError :=
  | UnknownTool (name : str)
  | BadArguments (tool detail : str)
  | Forbidden (tool caller : str)
  | Execution (e : Failed).
Record ToolResult := { result_content : str; is_error : bool }.
Definition result_ok (content : str) : ToolResult := {| result_content := content; is_error := false |}.
Definition result_err (content : str) : ToolResult := {| result_content := content; is_error := true |}.

Section gate.
Context `{Os}.

Definition canonicalize_call (p : str) : Host -> option str * Host :=
  on_disk (fun d => (canonicalize (calls d) (tree d) p, {| tree := tree d; calls := calls d + 1 |})).
Definition exists_call (p : str) : Host -> bool * Host :=
  on_disk (fun d => (exists_at (calls d) (tree d) p, {| tree := tree d; calls := calls d + 1 |})).
Definition current_dir_call : Host -> option str * Host :=
  on_disk (fun d => (current_dir (calls d), {| tree := tree d; calls := calls d + 1 |})).

(** ** The workspace root *)

Definition set_workspace_root (root : str) (h : Host) : Host :=
  let '(c, h1) := canonicalize_call root h in with_global h1 (default root c).
Definition with_workspace_root {R} (root : str) (f : Host -> R * Host) (h : Host) : R * Host :=
  let '(c, h1) := canonicalize_call root h in
  let '(r, h2) := f (with_scoped h1 (Some (default root c))) in
  (r, with_scoped h2 (scoped_root h)).
Definition root_from_current_dir (h : Host) : str * Host :=
  let '(cwd, h1) := current_dir_call h in
  let cwd := default (lit ".") cwd in
  let '(c, h2) := canonicalize_call cwd h1 in
  let canonical := default cwd c in
  let '(e, h3) := exists_call canonical h2 in
  (canonical, if e then set_workspace_root canonical h3 else h3).
Definition get_workspace_root (h : Host) : str * Host :=
  match scoped_root h with
  | Some p => (p, h)
  | None =>
      match global_root h with
      | Some p => let '(e, h1) := exists_call p h in
                  if e then (p, h1) else root_from_current_dir h1
      | None => root_from_current_dir h
      end
  end.

(** [map_path] *)
Definition clean_relative (p : str) : str :=
  let relative := default p (strip_prefix WORKSPACE_PREFIX p) in default relative (strip_prefix SLASH relative).
Definition map_path (p : str) (h : Host) : str * Host :=
  let '(cur_dir, h1) := get_workspace_root h in
  (if starts_with WORKSPACE_PREFIX p then push cur_dir (clean_relative p) else p, h1).

(** ** Canonical spellings *)

(** [split] components of the path make the anchor, from all of them down to
    one; a component that is a root cannot begin the tail. *)
Fixpoint walk_up (split : nat) (cs : list Component) (h : Host) : option str * Host :=
  match split with
  | 0 => (None, h)
  | S fewer =>
      match cs !! split with
      | Some RootDir => walk_up fewer cs h
      | _ => match canonicalize_call (components_to_path (take split cs)) h with
             | (Some canonical, h1) => (Some (join_normalized canonical (drop split cs)), h1)
             | (None, h1) => walk_up fewer cs h1
             end
      end
  end.
Definition canonical_existing_prefix (tool p : str) (h : Host) : (str + ToolError) * Host :=
  match walk_up (length (components p)) (components p) h with
  | (Some c, h1) => (inl c, h1)
  | (None, h1) => (inr (BadArguments tool (lit "cannot resolve an existing ancestor of '" ++ p ++ lit "'")), h1)
  end.

Definition escape_denied (p tool : str) : ToolError :=
  Forbidden tool (lit "access denied: path '" ++ p ++ lit "' escapes workspace root").

Definition target_of (raw_root p : str) : str :=
  if starts_with WORKSPACE_PREFIX p then push raw_root (clean_relative p)
  else if is_absolute p then p else push raw_root p.

Definition resolve_safe_path (p tool : str) (h : Host) : (str + ToolError) * Host :=
  let '(raw_root, h1) := get_workspace_root h in
  match canonical_existing_prefix tool raw_root h1 with
  | (inr e, h2) => (inr e, h2)
  | (inl canonical_root, h2) =>
      let '(temp, h3) := canonical_existing_prefix tool temp_dir h2 in
      match canonical_existing_prefix tool (target_of raw_root p) h3 with
      | (inr _, h4) => (inr (escape_denied p tool), h4)
      | (inl canonical_target, h4) =>
          let within_temp := match temp with inl t => path_within t canonical_target | inr _ => false end in
          if negb (path_within canonical_root canonical_target) && negb within_temp
          then (inr (escape_denied p tool), h4)
          else (inl canonical_target, h4)
      end
  end.

End gate.

(** ** Lock shards *)

Definition REPLACE_LOCK_SHARDS : N := 64.
Definition fnv_step (hash byte : N) : N := (N.lxor hash byte * 0x100000001b3) mod 2 ^ 64.
Definition hash_path (p : str) : N := fold_left fnv_step (utf8 p) 0xcbf29ce484222325%N.
Definition lock_shard_for (p : str) : N := (hash_path (containment_key p) mod REPLACE_LOCK_SHARDS)%N.
