(* ===== verification/PathGateFacts.v ===== *)
(** * What the path gate promises ([src/harness/fs.rs])

    A path the gate answers lies below the workspace root or below the
    temporary directory, component by component, whatever the system answered;
    on a file system that stays as it is, a path without [..] is answered in its
    canonical spelling or does not exist yet. *)

From S2P Require Import Prelude Str Utf8 ToolNames MemberName Disk Atomic PathGate.
Local Open Scope nat_scope.
Implicit Types p q s t : str.

(** ** Components of a text *)

Definition names (p : str) : list Component := omap piece (split_char (ch "/") p).
Definition front (p : str) : list Component :=
  if is_absolute p then [RootDir]
  else match split_char (ch "/") p with s :: _ => if str_eqb s (lit ".") then [CurDir] else [] | [] => [] end.
Lemma components_parts p : components p = front p ++ names p.
Proof. done. Qed.

Lemma split_char_cons c s : exists x l, split_char c s = x :: l.
Proof. destruct s as [|y s]; simpl; [by eexists _, _|]. destruct (y =? c)%N; [by eexists _, _|]. destruct (split_char c s); by eexists _, _. Qed.
Lemma split_char_sep c a s : split_char c (a ++ c :: s) = split_char c a ++ split_char c s.
Proof.
  induction a as [|x a IH]; cbn [app split_char]; [by rewrite N.eqb_refl|].
  rewrite IH. destruct (x =? c)%N; [done|]. by destruct (split_char_cons c a) as (y & l & ->).
Qed.
Lemma split_no_sep c s : Forall (fun x => c ∉ x) (split_char c s).
Proof.
  induction s as [|x s IH]; cbn [split_char]; [repeat constructor; set_solver|].
  destruct (x =? c)%N eqn:E; [constructor; [set_solver|done]|]. apply N.eqb_neq in E.
  destruct (split_char c s) as [|y l]; [repeat constructor; set_solver|].
  inversion_clear IH. constructor; [set_solver|done].
Qed.

(** What a name can be. *)
Definition plain (s : str) : Prop := piece s = Some (Normal s) /\ ch "/" ∉ s.
Definition inner (c : Component) : Prop := match c with ParentDir => True | Normal s => plain s | _ => False end.
Lemma names_inner p : Forall inner (names p).
Proof.
  unfold names. pose proof (split_no_sep (ch "/") p) as Hs.
  induction Hs as [|x l Hx Hl IH]; simpl; [done|]. destruct (piece x) as [c|] eqn:E; [|done].
  constructor; [|done]. unfold piece in E. repeat case_match; simplify_eq; [done|].
  split; [|done]. unfold piece. by repeat (case_match; try done).
Qed.
Lemma names_inner_text c : inner c -> is_absolute (component_str c) = false /\ names (component_str c) = [c] /\ component_str c <> [].
Proof.
  destruct c as [| | |s]; [done|done|done|]. intros [Hp Hs]. assert (Hne : s <> []) by by intros ->.
  split; [|split; [|done]]; cbn [component_str].
  - unfold is_absolute. apply not_true_iff_false. rewrite starts_with_true. intros (r & ->). apply Hs. left.
  - unfold names. rewrite split_char_none by done. cbn [omap list_omap]. by rewrite Hp.
Qed.

(** ** Pushing *)

Lemma is_absolute_app p q : p <> [] -> is_absolute (p ++ q) = is_absolute p.
Proof. destruct p as [|x p]; [done|]. intros _. unfold is_absolute, starts_with. change SLASH with [ch "/"]. cbn [strip_prefix app]. by destruct (ch "/" =? x)%N. Qed.
Lemma lead_app a s : front (a ++ ch "/" :: s) = if is_absolute (a ++ ch "/" :: s) then [RootDir] else
  match split_char (ch "/") a with x :: _ => if str_eqb x (lit ".") then [CurDir] else [] | [] => [] end.
Proof. unfold front. rewrite split_char_sep. by destruct (split_char_cons (ch "/") a) as (y & l & ->). Qed.
Lemma slash_text : SLASH = [ch "/"].
Proof. done. Qed.
Lemma slash_absolute s : is_absolute (ch "/" :: s) = true.
Proof. unfold is_absolute. exact (starts_with_app SLASH s). Qed.

Lemma components_push p q : p <> [] -> is_absolute q = false -> components (push p q) = components p ++ names q.
Proof.
  intros Hp Hq. unfold push. rewrite Hq. replace (is_empty p) with false by by destruct p. cbn [orb].
  rewrite !components_parts, <-app_assoc. destruct (ends_with SLASH p) eqn:E.
  - apply ends_with_true in E as (r & ->). rewrite slash_text. rewrite <-app_assoc. cbn [app].
    f_equal.
    + rewrite !lead_app. destruct r; [cbn [app]; by rewrite !slash_absolute|]. by rewrite !is_absolute_app.
    + unfold names. rewrite !split_char_sep, !omap_app. cbn [split_char omap list_omap piece is_empty orb]. by rewrite app_nil_r.
  - rewrite slash_text. cbn [app]. f_equal.
    + rewrite lead_app, is_absolute_app by done. by unfold front.
    + unfold names. by rewrite split_char_sep, omap_app.
Qed.
Lemma push_nonempty p q : p <> [] -> push p q <> [].
Proof. intros Hp. unfold push. destruct q; [destruct p; [done|]; by repeat case_match|]. repeat case_match; try done; by destruct p. Qed.
Lemma push_absolute p q : is_absolute p = true -> is_absolute (push p q) = true.
Proof.
  intros Hp. unfold push. destruct (is_absolute q) eqn:E; [done|].
  assert (p <> []) by by intros ->. destruct (is_empty p || _); by rewrite is_absolute_app.
Qed.

Lemma components_push_all base cs :
  base <> [] -> Forall inner cs -> components (fold_left push (map component_str cs) base) = components base ++ cs.
Proof.
  intros Hb Hcs. revert base Hb. induction Hcs as [|c cs Hc Hcs IH]; intros base Hb; simpl; [by rewrite app_nil_r|].
  destruct (names_inner_text c Hc) as (Ha & Hn & _). rewrite IH by by apply push_nonempty.
  rewrite components_push, Hn by done. by rewrite <-app_assoc.
Qed.

(** ** Components and paths, back and forth *)

Definition well_formed (cs : list Component) : Prop :=
  exists f r, cs = f ++ r /\ (f = [] \/ f = [RootDir] \/ f = [CurDir]) /\ Forall inner r.
Lemma components_well_formed p : well_formed (components p).
Proof.
  exists (front p), (names p). split; [done|]. split; [|apply names_inner].
  unfold front. destruct (is_absolute p); [tauto|]. repeat case_match; tauto.
Qed.
Lemma well_formed_take n cs : well_formed cs -> well_formed (take n cs).
Proof.
  intros (f & r & -> & Hf & Hr). rewrite take_app. exists (take n f), (take (n - length f) r).
  split; [done|]. split; [|by apply Forall_take]. destruct n; [by left|].
  destruct Hf as [->|[->| ->]]; simpl; rewrite ?take_nil; tauto.
Qed.

Lemma push_empty q : push [] q = q.
Proof. unfold push. by destruct (is_absolute q). Qed.
Lemma components_to_path_components cs : well_formed cs -> components (components_to_path cs) = cs.
Proof.
  intros (f & r & -> & Hf & Hr). unfold components_to_path, push_all.
  destruct Hf as [->|[->| ->]]; cbn [app map component_str fold_left]; rewrite ?push_empty.
  2,3: by rewrite components_push_all.
  destruct Hr as [|c r Hc Hr]; [done|]. cbn [map fold_left]. rewrite push_empty.
  destruct (names_inner_text c Hc) as (Ha & Hn & He). rewrite components_push_all by done.
  rewrite components_parts, Hn. unfold front. rewrite Ha.
  destruct c as [| | |s]; [done|done|done|]. destruct Hc as [Hp Hs]. cbn [component_str].
  rewrite split_char_none by done. destruct (str_eqb s (lit ".")) eqn:E; [|done].
  apply str_eqb_eq in E. subst s. done.
Qed.

(** ** Folding *)

Lemma fold_component_root parts c : exists r, fold_component (SLASH :: parts) c = SLASH :: r.
Proof.
  destruct c as [| | |n]; cbn [fold_component]; [eexists (parts ++ _)|by eexists| |eexists (parts ++ _)]; try reflexivity.
  destruct parts as [|x parts]; [exists []; reflexivity|].
  change (last (SLASH :: x :: parts)) with (last (x :: parts)).
  destruct (last (x :: parts)) as [l|]; [|by eexists].
  destruct (is_anchor_component l); [by eexists|]. by exists (removelast (x :: parts)).
Qed.
Lemma fold_components_root tail parts : exists r, fold_left fold_component tail (SLASH :: parts) = SLASH :: r.
Proof.
  revert parts. induction tail as [|c tail IH]; intros parts; simpl; [by eexists|].
  destruct (fold_component_root parts c) as (r & ->). apply IH.
Qed.
Lemma push_all_absolute l base : is_absolute base = true -> is_absolute (fold_left push l base) = true.
Proof. revert base. induction l as [|q l IH]; intros base Hb; [done|]. cbn [fold_left]. apply IH. by apply push_absolute. Qed.
Lemma components_absolute p : is_absolute p = true -> components p = RootDir :: names p.
Proof. intros Hp. rewrite components_parts. unfold front. by rewrite Hp. Qed.
Lemma join_normalized_absolute anchor tail : is_absolute anchor = true -> is_absolute (join_normalized anchor tail) = true.
Proof.
  intros Ha. unfold join_normalized. rewrite components_absolute by done. cbn [map component_str].
  destruct (fold_components_root tail (map component_str (names anchor))) as (r & ->).
  unfold push_all. cbn [fold_left]. by apply push_all_absolute.
Qed.
Lemma fold_normals ns parts : fold_left fold_component (map Normal ns) parts = parts ++ ns.
Proof. revert parts. induction ns as [|n ns IH]; intros parts; simpl; [by rewrite app_nil_r|]. rewrite IH. by rewrite <-app_assoc. Qed.
Lemma join_normals anchor ns :
  join_normalized anchor (map Normal ns) = components_to_path (components anchor ++ map Normal ns).
Proof.
  unfold join_normalized, components_to_path. rewrite fold_normals, map_app. f_equal. f_equal.
  rewrite map_map. by rewrite map_id.
Qed.

(** ** Containment *)

Lemma all_zip_spec {A B} (f : A -> B -> bool) l k :
  (length l <=? length k) && all_zip f l k = true <->
  exists mid rest, k = mid ++ rest /\ Forall2 (fun x y => f x y = true) l mid.
Proof.
  revert k. induction l as [|x l IH]; intros k; simpl.
  - split; [|done]. intros _. exists [], k. by split.
  - destruct k as [|y k]; simpl.
    + split; [done|]. intros (mid & rest & E & Hf). by inversion Hf; subst.
    + rewrite andb_assoc, (andb_comm _ (f x y)), <-andb_assoc, andb_true_iff, IH. split.
      * intros [Hf (mid & rest & -> & Hm)]. exists (y :: mid), rest. split; [done|]. by constructor.
      * intros (mid & rest & E & Hf). inversion Hf as [|? z ? m Hz Hm]; subst. simplify_eq/=. split; [done|]. by exists m, rest.
Qed.
Lemma str_mem_false x l : str_mem x l = false <-> x ∉ l.
Proof. rewrite <-str_mem_true. by destruct (str_mem x l). Qed.

Lemma path_within_iff root target family :
  let anchor := key_components (containment_key_in_family root family) in
  let candidate := key_components (containment_key_in_family target family) in
  path_within_in_family root target family = true <->
  anchor <> [] /\ lit ".." ∉ anchor /\ lit ".." ∉ candidate /\
  exists below rest, candidate = below ++ rest /\
    Forall2 (fun a c => same_part family a c = true) anchor below.
Proof.
  intros anchor candidate. unfold path_within_in_family. fold anchor candidate. rewrite <-all_zip_spec.
  destruct anchor as [|x anchor']; [by split; [|intros [? _]]|]. cbn [is_empty]. set (a := x :: anchor').
  destruct (str_mem (lit "..") a) eqn:E1; cbn [orb].
  { apply str_mem_true in E1. split; [done|]. by intros (_ & ? & _). }
  destruct (str_mem (lit "..") candidate) eqn:E2.
  { apply str_mem_true in E2. split; [done|]. by intros (_ & _ & ? & _). }
  apply str_mem_false in E1, E2. cbn [orb]. assert (Ha : a <> []) by done.
  split; [by intros Hz|by intros (_ & _ & _ & Hz)].
Qed.
Lemma Forall2_str_eqb l k : Forall2 (fun a c => str_eqb a c = true) l k -> l = k.
Proof. induction 1 as [|x y l k E _ ->]; [done|]. apply str_eqb_eq in E. by subst. Qed.
Lemma path_within_unix root target :
  path_within root target = true ->
  key_components root <> [] /\ lit ".." ∉ key_components target /\
  exists rest, key_components target = key_components root ++ rest.
Proof.
  intros E. apply (path_within_iff root target Unix) in E as (Hne & Hr & Ht & below & rest & E & Hb).
  cbn [containment_key_in_family] in *. apply Forall2_str_eqb in Hb. subst below. split; [done|]. split; [done|]. by exists rest.
Qed.

Lemma names_key p : lit ".." ∉ key_components p -> names p = map Normal (key_components p).
Proof.
  unfold names, key_components. induction (split_char (ch "/") p) as [|x l IH]; [done|].
  cbn [omap list_omap List.filter]. unfold piece at 1. destruct (is_empty x); cbn [negb andb orb]; [done|].
  destruct (str_eqb x (lit ".")); cbn [negb]; [done|]. rewrite not_elem_of_cons. intros [Hx Hl].
  destruct (str_eqb x (lit "..")) eqn:E; [apply str_eqb_eq in E; congruence|]. cbn [map]. by rewrite <-IH.
Qed.
Lemma key_components_absolute p : lit ".." ∉ key_components p -> is_absolute p = true ->
  components p = RootDir :: map Normal (key_components p).
Proof. intros Hp Ha. by rewrite components_absolute, names_key. Qed.

(** ** Calls of the gate *)

Section gate_facts.
Context `{Os}.
Implicit Types (h : Host) (tool : str).
Definition htree (h : Host) : Tree := ptree (process h).

Lemma canonicalize_call_spec p h :
  exists n, fst (canonicalize_call p h) = canonicalize n (htree h) p /\ htree (snd (canonicalize_call p h)) = htree h.
Proof. by exists (calls (proc_disk (process h))). Qed.
Lemma set_workspace_root_tree root h : htree (set_workspace_root root h) = htree h.
Proof. done. Qed.
Lemma root_from_current_dir_tree h : htree (snd (root_from_current_dir h)) = htree h.
Proof.
  unfold root_from_current_dir, current_dir_call, canonicalize_call, exists_call, on_disk, on_calls. cbn.
  by case_match.
Qed.
Lemma get_workspace_root_tree h : htree (snd (get_workspace_root h)) = htree h.
Proof.
  unfold get_workspace_root. destruct (scoped_root h); [done|]. destruct (global_root h) as [s|]; [|apply root_from_current_dir_tree].
  destruct (exists_call s h) as [e h1] eqn:E. assert (Ht : htree h1 = htree h) by by injection E as <- <-.
  destruct e; [done|]. by rewrite root_from_current_dir_tree.
Qed.

(** The anchor is what the system answered for the longest prefix it knows. *)
Definition unknown_prefix (cs : list Component) (t : Tree) (j : nat) : Prop :=
  cs !! j = Some RootDir \/ exists m, canonicalize m t (components_to_path (take j cs)) = None.
Definition walked (split : nat) (cs : list Component) (h : Host) (r : option str * Host) : Prop :=
  htree (snd r) = htree h /\
  match fst r with
  | Some p => exists k n c, 0 < k <= split /\ canonicalize n (htree h) (components_to_path (take k cs)) = Some c /\
      p = join_normalized c (drop k cs) /\ forall j, k < j <= split -> unknown_prefix cs (htree h) j
  | None => True
  end.
Lemma walked_down fewer cs h h1 r :
  htree h1 = htree h -> unknown_prefix cs (htree h) (S fewer) -> walked fewer cs h1 r -> walked (S fewer) cs h r.
Proof.
  intros Ht Hu [Hr Hw]. split; [congruence|]. destruct (fst r) as [p|]; [|done].
  destruct Hw as (k & n & c & Hk & Hc & Hp & Hall). rewrite Ht in *. exists k, n, c. repeat split; [lia|lia|done|done|].
  intros j Hj. destruct (decide (j = S fewer)) as [->|]; [done|]. apply Hall. lia.
Qed.
Lemma walk_up_spec split cs h : walked split cs h (walk_up split cs h).
Proof.
  revert h. induction split as [|fewer IH]; intros h; [done|]. cbn [walk_up].
  destruct (canonicalize_call_spec (components_to_path (take (S fewer) cs)) h) as (n & Hr & Ht).
  destruct (canonicalize_call _ h) as [r h1]. cbn [fst snd] in Hr, Ht.
  assert (Hgo : cs !! S fewer <> Some RootDir -> walked (S fewer) cs h
    match r with Some c => (Some (join_normalized c (drop (S fewer) cs)), h1) | None => walk_up fewer cs h1 end).
  { intros _. destruct r as [c|]; [|by apply walked_down with h1; [|right; exists n|apply IH]].
    split; [done|]. exists (S fewer), n, c. repeat split; [lia|done|done|lia]. }
  destruct (cs !! S fewer) as [[| | |s]|] eqn:El; [|by apply Hgo..].
  by apply walked_down with h; [|left|apply IH].
Qed.

Lemma canonical_existing_prefix_spec tool p h r h1 :
  canonical_existing_prefix tool p h = (inl r, h1) ->
  walked (length (components p)) (components p) h (Some r, h1).
Proof.
  unfold canonical_existing_prefix. pose proof (walk_up_spec (length (components p)) (components p) h) as Hw.
  destruct (walk_up _ _ h) as [[c|] h2]; [|done]. by intros [= <- <-].
Qed.
Lemma canonical_existing_prefix_tree tool p h : htree (snd (canonical_existing_prefix tool p h)) = htree h.
Proof.
  unfold canonical_existing_prefix. pose proof (walk_up_spec (length (components p)) (components p) h) as [Ht _].
  by destruct (walk_up _ _ h) as [[c|] h2].
Qed.

(** ** Confinement *)

(** [canonicalize] answers absolute paths. *)
Definition answers_absolute : Prop := forall n (tr : Tree) p c, canonicalize n tr p = Some c -> is_absolute c = true.

(** What the gate lets tools touch in a state: the canonical spelling of the
    workspace root, or that of the temporary directory. *)
Definition allowed_entry (tool : str) (h : Host) (entry : str) : Prop :=
  let '(raw_root, h1) := get_workspace_root h in
  let '(root, h2) := canonical_existing_prefix tool raw_root h1 in
  root = inl entry \/ fst (canonical_existing_prefix tool temp_dir h2) = inl entry.

Lemma resolved_cases p tool h t h' :
  resolve_safe_path p tool h = (inl t, h') ->
  exists entry h3, allowed_entry tool h entry /\ path_within entry t = true /\ htree h3 = htree h /\
    canonical_existing_prefix tool (target_of (fst (get_workspace_root h)) p) h3 = (inl t, h').
Proof.
  unfold resolve_safe_path, allowed_entry. pose proof (get_workspace_root_tree h) as Ht.
  destruct (get_workspace_root h) as [raw_root h1]. cbn [fst snd] in *.
  pose proof (canonical_existing_prefix_tree tool raw_root h1) as Ht1.
  destruct (canonical_existing_prefix tool raw_root h1) as [[root|e] h2]; [|done].
  pose proof (canonical_existing_prefix_tree tool temp_dir h2) as Ht2.
  destruct (canonical_existing_prefix tool temp_dir h2) as [temp h3]. cbn [fst snd] in *.
  destruct (canonical_existing_prefix tool (target_of raw_root p) h3) as [[c|e] h4] eqn:Ec; [|done].
  assert (Htr : htree h3 = htree h) by congruence.
  destruct (path_within root c) eqn:Er; cbn [negb andb].
  - intros [= <- <-]. exists root, h3. eauto.
  - destruct temp as [tmp|]; [|done]. destruct (path_within tmp c) eqn:Em; [|done].
    intros [= <- <-]. exists tmp, h3. eauto.
Qed.

Lemma walked_absolute split cs h p h1 : answers_absolute -> walked split cs h (Some p, h1) -> is_absolute p = true.
Proof.
  intros Habs [_ (k & n & c & _ & Hc & -> & _)]. apply join_normalized_absolute. by apply (Habs _ _ _ _ Hc).
Qed.
Lemma allowed_absolute tool h entry : answers_absolute -> allowed_entry tool h entry -> is_absolute entry = true.
Proof.
  intros Habs. unfold allowed_entry. destruct (get_workspace_root h) as [raw_root h1].
  destruct (canonical_existing_prefix tool raw_root h1) as [root h2] eqn:Er. intros [->|Ht].
  - apply canonical_existing_prefix_spec in Er. by apply walked_absolute in Er.
  - destruct (canonical_existing_prefix tool temp_dir h2) as [temp h3] eqn:Et. cbn in Ht. subst temp.
    apply canonical_existing_prefix_spec in Et. by apply walked_absolute in Et.
Qed.

(** C5: a path the gate answers is confined: its components are those of the
    canonical workspace root, or of the canonical temporary directory, followed
    by plain names, among which no [..] is left, whatever the argument is and
    whatever the system answers to each call. *)
Theorem resolved_path_is_confined p tool h t h' :
  answers_absolute -> resolve_safe_path p tool h = (inl t, h') ->
  exists entry rest, allowed_entry tool h entry /\ lit ".." ∉ key_components t /\
    components t = components entry ++ map Normal rest.
Proof.
  intros Habs E. destruct (resolved_cases p tool h t h' E) as (entry & h3 & Hallow & Hin & _ & Hc).
  apply canonical_existing_prefix_spec in Hc. apply walked_absolute in Hc as Ht; [|done].
  apply path_within_unix in Hin as (_ & Hdots & rest & Hrest). exists entry, rest. split; [done|]. split; [done|].
  pose proof (allowed_absolute tool h entry Habs Hallow) as He. rewrite key_components_absolute by done.
  rewrite key_components_absolute; [by rewrite Hrest, map_app| |done].
  intros Hdd. apply Hdots. rewrite Hrest. apply elem_of_app. by left.
Qed.

(** ** Canonical answers *)

(** A file system that stays as it is while a path is resolved, whose
    [canonicalize] answers normal absolute paths, answers them for themselves,
    and resolves a path from left to right. *)
Record SteadyOs (tr : Tree) (real : str -> option str) : Prop := {
  steady : forall n p, canonicalize n tr p = real p;
  real_absolute : forall p c, real p = Some c -> is_absolute c = true;
  real_normal : forall p c, real p = Some c -> components_to_path (components c) = c;
  real_again : forall p c, real p = Some c -> real c = Some c;
  real_below : forall p c ns, real p = Some c -> Forall plain ns ->
    real (components_to_path (components p ++ map Normal ns)) = real (components_to_path (components c ++ map Normal ns))
}.

(** A path without [..] has plain names behind its front. *)
Lemma drop_plain cs k : well_formed cs -> ParentDir ∉ cs -> 0 < k -> exists ns, drop k cs = map Normal ns /\ Forall plain ns.
Proof.
  intros (f & r & -> & Hf & Hr) Hp Hk.
  assert (Hd : exists j, drop k (f ++ r) = drop j r).
  { rewrite drop_app. exists (k - length f). destruct k; [lia|]. by destruct Hf as [->|[->| ->]]; simpl; rewrite ?drop_nil. }
  destruct Hd as [j ->]. clear Hk Hf. apply (Forall_drop _ j) in Hr.
  assert (Hp' : ParentDir ∉ drop j r).
  { intros Hin. apply Hp, elem_of_app. right. rewrite <-(take_drop j r). apply elem_of_app. by right. }
  revert Hr Hp'. generalize (drop j r). intros l Hl. induction Hl as [|c l Hc Hl IH]; intros Hp'; [by exists []|].
  apply not_elem_of_cons in Hp' as [Hne Hp']. destruct (IH Hp') as (ns & -> & Hns).
  destruct c as [| | |s]; [done|done|done|]. exists (s :: ns). split; [done|]. by constructor.
Qed.
Lemma no_root_inside cs k : well_formed cs -> cs !! S k <> Some RootDir.
Proof.
  intros (f & r & -> & Hf & Hr) E. rewrite lookup_app in E.
  assert (Hin : RootDir ∈ r).
  { destruct Hf as [->|[->| ->]]; simpl in E; apply list_elem_of_lookup; eauto. }
  by apply (proj1 (Forall_forall _ _) Hr) in Hin.
Qed.

(** C32: on a file system that stays as it is, a path without [..] that the gate
    answers is answered in its canonical spelling, links resolved, or it does
    not exist: the tool opens the very path that was found inside. *)
Theorem resolved_path_is_canonical p tool h t h' real :
  SteadyOs (htree h) real -> ParentDir ∉ components (target_of (fst (get_workspace_root h)) p) ->
  resolve_safe_path p tool h = (inl t, h') -> real t = Some t \/ real t = None.
Proof.
  intros Hos Hdots E. destruct (resolved_cases p tool h t h' E) as (entry & h3 & _ & _ & Ht & Hc).
  set (target := target_of _ p) in *. apply canonical_existing_prefix_spec in Hc as [_ Hw]. cbn [fst] in Hw.
  destruct Hw as (k & n & c & Hk & Hc & -> & Hall). rewrite Ht in *. rewrite (steady _ _ Hos) in Hc.
  pose proof (components_well_formed target) as Hwf.
  destruct (drop_plain (components target) k Hwf Hdots ltac:(lia)) as (ns & Hd & Hns). rewrite Hd, join_normals.
  destruct ns as [|x ns].
  - left. rewrite app_nil_r, (real_normal _ _ Hos _ _ Hc). by apply (real_again _ _ Hos _ _ Hc).
  - right. rewrite <-(real_below _ _ Hos _ _ (x :: ns) Hc Hns).
    rewrite components_to_path_components by by apply well_formed_take. rewrite <-Hd, take_drop.
    assert (Hlt : k < length (components target)).
    { apply (f_equal length) in Hd. rewrite length_drop in Hd. simpl in Hd. lia. }
    destruct (Hall (length (components target)) ltac:(lia)) as [El|[m Hm]].
    + apply lookup_lt_Some in El. lia.
    + by rewrite take_ge, (steady _ _ Hos) in Hm.
Qed.

End gate_facts.

(** ** A file system with links, at which the gate is run *)

Definition text_of (p : path) : str := components_to_path (RootDir :: map Normal p).

Section linked.
Context (links : gmap path path).

Definition link_at (q : path) : option path := links !! q.
Definition follow (tr : Tree) (cur : option path) (c : Component) : option path :=
  cur ≫= fun cur =>
  match c with
  | RootDir => Some []
  | CurDir => if is_folder tr cur then Some cur else None
  | ParentDir => if is_folder tr cur then Some (removelast cur) else None
  | Normal s =>
      match link_at (cur ++ [s]) with
      | Some to => Some to
      | None => if is_folder tr cur && path_exists tr (cur ++ [s]) then Some (cur ++ [s]) else None
      end
  end.
Definition follow_all (tr : Tree) (cs : list Component) : option path := fold_left (follow tr) cs (Some []).
Definition real_path (tr : Tree) (p : str) : option str :=
  if is_empty (components p) then None else text_of <$> follow_all tr (components p).

#[local] Instance linked_os (temp : str) : Os := {|
  canonicalize _ tr p := real_path tr p;
  exists_at _ tr p := match real_path tr p with Some _ => true | None => false end;
  current_dir _ := Some SLASH;
  temp_dir := temp
|}.

(** A real path: its names are plain, no part of it is a link, and each part
    lies in a folder.  Links stand for real paths. *)
Definition real (tr : Tree) (cur : path) : Prop :=
  forall l x r, cur = l ++ x :: r ->
    plain x /\ link_at (l ++ [x]) = None /\ is_folder tr l = true /\ path_exists tr (l ++ [x]) = true.
Definition real_links (tr : Tree) : Prop := forall q to : path, link_at q = Some to -> real tr to.

Lemma real_nil tr : real tr [].
Proof. intros l x r E. by destruct l. Qed.
Lemma real_prefix tr l r : real tr (l ++ r) -> real tr l.
Proof. intros Hr l0 x r0 ->. apply (Hr l0 x (r0 ++ r)). by rewrite <-app_assoc. Qed.
Lemma real_plain tr cur : real tr cur -> Forall plain cur.
Proof.
  intros Hr. apply Forall_forall. intros x (l & r & ->)%list_elem_of_split. by destruct (Hr l x r eq_refl).
Qed.
Lemma real_followed tr cur : real tr cur -> follow_all tr (map Normal cur) = Some cur.
Proof.
  induction cur as [|x l IH] using rev_ind; [done|]. intros Hr.
  unfold follow_all. rewrite map_app, fold_left_app. fold (follow_all tr (map Normal l)).
  rewrite (IH (real_prefix _ _ _ Hr)). destruct (Hr l x [] eq_refl) as (_ & Hl & Hf & He).
  cbn [map fold_left]. unfold follow. simpl. by rewrite Hl, Hf, He.
Qed.
Lemma follow_real tr cur c next :
  real_links tr -> real tr cur -> (forall s, c = Normal s -> plain s) -> follow tr (Some cur) c = Some next -> real tr next.
Proof.
  intros Hlinks Hr Hc. destruct c as [| | |s]; cbn [follow mbind option_bind].
  - intros [= <-]. apply real_nil.
  - case_match; [|done]. by intros [= <-].
  - case_match; [|done]. intros [= <-]. destruct cur as [|x l _] using rev_ind; [done|].
    rewrite removelast_last. by apply real_prefix in Hr.
  - destruct (link_at (cur ++ [s])) as [to|] eqn:El; [intros [= <-]; by apply Hlinks in El|].
    destruct (is_folder tr cur) eqn:Ef; [|done]. destruct (path_exists tr (cur ++ [s])) eqn:Ee; [|done].
    intros [= <-] l x r E. destruct r as [|y r _] using rev_ind.
    + apply app_inj_tail in E as [<- <-]. split; [by apply Hc|done].
    + rewrite app_comm_cons, app_assoc in E. apply app_inj_tail in E as [-> _]. by apply (Hr l x r).
Qed.
Definition names_plain (cs : list Component) : Prop := Forall (fun c => forall s, c = Normal s -> plain s) cs.
Lemma follow_none tr cs : fold_left (follow tr) cs None = None.
Proof. by induction cs. Qed.
Lemma follow_all_real tr cs cur next :
  real_links tr -> names_plain cs -> real tr cur -> fold_left (follow tr) cs (Some cur) = Some next -> real tr next.
Proof.
  intros Hlinks Hcs. revert cur. induction Hcs as [|c cs Hc Hcs IH]; intros cur Hr; [by intros [= <-]|].
  cbn [fold_left]. destruct (follow tr (Some cur) c) as [mid|] eqn:E; [|by rewrite follow_none].
  apply IH. by apply follow_real in E.
Qed.
Lemma well_formed_plain cs : well_formed cs -> names_plain cs.
Proof.
  intros (f & r & -> & Hf & Hr). apply Forall_app. split; [destruct Hf as [->|[->| ->]]; by repeat constructor|].
  eapply Forall_impl; [exact Hr|]. intros [| | |s] Hin s' E; simplify_eq. exact Hin.
Qed.

(** ** The laws *)

Lemma plain_inner ns : Forall plain ns -> Forall inner (map Normal ns).
Proof. induction 1; by constructor. Qed.
Lemma well_formed_rooted ns : Forall plain ns -> well_formed (RootDir :: map Normal ns).
Proof. intros Hns. exists [RootDir], (map Normal ns). split; [done|]. split; [tauto|]. by apply plain_inner. Qed.
Lemma components_text_of tr cur : real tr cur -> components (text_of cur) = RootDir :: map Normal cur.
Proof. intros Hr. apply components_to_path_components, well_formed_rooted. by apply real_plain in Hr. Qed.
Lemma real_path_Some tr p c : real_links tr -> real_path tr p = Some c ->
  exists cur, real tr cur /\ c = text_of cur /\ follow_all tr (components p) = Some cur /\ components p <> [].
Proof.
  intros Hlinks. unfold real_path. destruct (components p) as [|c0 cs] eqn:Ec; [done|]. cbn [is_empty].
  destruct (follow_all tr (c0 :: cs)) as [cur|] eqn:E; [|done]. intros [= <-]. exists cur.
  split; [|by split; [|split; [|discriminate]]].
  eapply follow_all_real; [done| |by apply real_nil|exact E]. rewrite <-Ec. apply well_formed_plain, components_well_formed.
Qed.
Lemma real_path_text tr cs cur : well_formed cs -> cs <> [] -> follow_all tr cs = Some cur ->
  real_path tr (components_to_path cs) = Some (text_of cur).
Proof. intros Hwf Hne E. unfold real_path. rewrite components_to_path_components by done. destruct cs; [done|]. by rewrite E. Qed.

Lemma linked_steady temp tr : real_links tr -> SteadyOs (H := linked_os temp) tr (real_path tr).
Proof.
  intros Hlinks. split.
  - done.
  - intros p c (cur & Hr & -> & _)%real_path_Some; [|done]. unfold text_of, components_to_path, push_all.
    cbn [map component_str fold_left]. by apply push_all_absolute.
  - intros p c (cur & Hr & -> & _)%real_path_Some; [|done]. by rewrite (components_text_of tr).
  - intros p c (cur & Hr & -> & _)%real_path_Some; [|done].
    apply real_path_text; [by apply well_formed_rooted; apply real_plain in Hr|done|]. by apply real_followed in Hr.
  - intros p c ns (cur & Hr & -> & E & Hne)%real_path_Some Hns; [|done]. rewrite (components_text_of tr) by done.
    unfold real_path. rewrite !components_to_path_components.
    + assert (Hcat : follow_all tr (components p ++ map Normal ns) = follow_all tr ((RootDir :: map Normal cur) ++ map Normal ns)).
      { unfold follow_all. rewrite !fold_left_app. f_equal. cbn [fold_left]. etransitivity; [exact E|]. symmetry. by apply real_followed in Hr. }
      rewrite Hcat. by destruct (components p).
    + rewrite <-app_comm_cons, <-map_app. apply well_formed_rooted, Forall_app. split; [by apply real_plain in Hr|done].
    + destruct (components_well_formed p) as (f & r & -> & Hf & Hin). exists f, (r ++ map Normal ns).
      rewrite <-app_assoc. split; [done|]. split; [done|]. apply Forall_app. split; [done|]. by apply plain_inner.
Qed.
End linked.

(** ** A workspace with a link out of it *)

Definition demo_tree : Tree := list_to_map
  [([], Folder); ([lit "tmp"], Folder); ([lit "etc"], Folder); ([lit "etc"; lit "passwd"], TextFile (lit "root"));
   ([lit "ws"], Folder); ([lit "ws"; lit "a.txt"], TextFile (lit "alpha")); ([lit "ws"; lit "src"], Folder)].
Definition demo_links : gmap path path := list_to_map [([lit "ws"; lit "link"], [lit "etc"]); ([lit "ws"; lit "alias"], [lit "ws"; lit "src"])].
#[local] Instance demo_os : Os := linked_os demo_links (lit "/tmp").
Definition demo_host : Host :=
  {| process := {| pid := 7; staging_seq := 0; proc_disk := {| tree := demo_tree; calls := 0 |} |};
     scoped_root := Some (lit "/ws"); global_root := None |}.

Lemma demo_absolute : answers_absolute.
Proof.
  intros n tr p c. cbn [canonicalize demo_os linked_os]. unfold real_path. destruct (is_empty _); [done|].
  destruct (follow_all _ _ _) as [cur|]; [|done]. intros [= <-]. unfold text_of, components_to_path, push_all.
  cbn [map component_str fold_left]. by apply push_all_absolute.
Qed.
(** Each part of a path, checked. *)
Fixpoint real_from (links : gmap path path) (tr : Tree) (l r : path) : bool :=
  match r with
  | [] => true
  | x :: r' =>
      match piece x with Some (Normal s) => str_eqb s x | _ => false end && negb (existsb (N.eqb (ch "/")) x)
      && bool_decide (link_at links (l ++ [x]) = None) && is_folder tr l && path_exists tr (l ++ [x])
      && real_from links tr (l ++ [x]) r'
  end.
Lemma real_from_sound links tr l r : real_from links tr l r = true ->
  forall k x r', r = k ++ x :: r' ->
    plain x /\ link_at links ((l ++ k) ++ [x]) = None /\ is_folder tr (l ++ k) = true /\ path_exists tr ((l ++ k) ++ [x]) = true.
Proof.
  revert l. induction r as [|y r IH]; intros l; [intros _ k x r' E; by destruct k|]. cbn [real_from].
  rewrite !andb_true_iff, negb_true_iff, bool_decide_eq_true. intros [[[[[Hp Hs] Hl] Hf] He] Hr] k x r' E.
  destruct k as [|z k]; simplify_eq/=; 
    [|replace (l ++ z :: k) with ((l ++ [z]) ++ k) by (by rewrite <-app_assoc); by apply (IH _ Hr _ _ r')].
  rewrite app_nil_r. repeat split; [|by apply not_in_text|done..].
  destruct (piece x) as [[| | |s]|]; try done. apply str_eqb_eq in Hp. by subst.
Qed.
Lemma real_check links tr (p : path) : real_from links tr [] p = true -> real links tr p.
Proof. intros Hp l x r E. exact (real_from_sound links tr [] p Hp l x r E). Qed.
Lemma demo_real_links : real_links demo_links demo_tree.
Proof.
  intros q to. unfold link_at, demo_links. intros Hq%elem_of_list_to_map_2.
  apply elem_of_cons in Hq as [Hq|Hq]; [|apply list_elem_of_singleton in Hq]; injection Hq as _ ->;
    apply real_check; by vm_compute.
Qed.

Example a_file_inside : fst (resolve_safe_path (lit "./src/../a.txt") TOOL_READ_FILE demo_host) = inl (lit "/ws/a.txt").
Proof. by vm_compute. Qed.
Example a_new_file_below_a_link : fst (resolve_safe_path (lit "alias/new/b.rs") TOOL_WRITE_FILE demo_host) = inl (lit "/ws/src/new/b.rs").
Proof. by vm_compute. Qed.
Example an_escape_upwards : fst (resolve_safe_path (lit "new/../../etc/passwd") TOOL_READ_FILE demo_host)
  = inr (escape_denied (lit "new/../../etc/passwd") TOOL_READ_FILE).
Proof. by vm_compute. Qed.
(** Any path whose text begins with the prefix is mapped, a sibling's too. *)
Example a_sibling_of_the_prefix : fst (map_path (lit "/home/coder/workspace2/a.txt") demo_host) = lit "/ws/2/a.txt".
Proof. by vm_compute. Qed.
(** A name that ends in a colon is not folded away by [..]. *)
Example a_colon_stops_the_fold : join_normalized (lit "/ws") [Normal (lit "c:"); ParentDir; Normal (lit "x")] = lit "/ws/c:/x".
Proof. by vm_compute. Qed.

(** A link out of the workspace is refused when the path names it, and is
    followed when the path comes back to it from a folder that does not exist:
    the tail is folded by its text, and what the fold uncovers is never
    canonicalized. *)
Theorem a_folded_tail_goes_through_a_link :
  fst (resolve_safe_path (lit "link/passwd") TOOL_READ_FILE demo_host)
    = inr (escape_denied (lit "link/passwd") TOOL_READ_FILE) /\
  fst (resolve_safe_path (lit "missing/../link/passwd") TOOL_READ_FILE demo_host) = inl (lit "/ws/link/passwd") /\
  real_path demo_links demo_tree (lit "/ws/link/passwd") = Some (lit "/etc/passwd").
Proof. split; [|split]; by vm_compute. Qed.

(** ** The theorems at this workspace *)

Definition demo_resolved : str := lit "/ws/src/new/b.rs".
Lemma resolved_path_is_confined_witness :
  exists entry rest, allowed_entry TOOL_WRITE_FILE demo_host entry /\ lit ".." ∉ key_components demo_resolved /\
    components demo_resolved = components entry ++ map Normal rest.
Proof.
  apply (resolved_path_is_confined (lit "alias/new/b.rs") TOOL_WRITE_FILE demo_host demo_resolved
    (snd (resolve_safe_path (lit "alias/new/b.rs") TOOL_WRITE_FILE demo_host)) demo_absolute).
  vm_compute. reflexivity.
Defined.
Lemma resolved_path_is_canonical_witness :
  real_path demo_links demo_tree demo_resolved = Some demo_resolved \/ real_path demo_links demo_tree demo_resolved = None.
Proof.
  apply (resolved_path_is_canonical (lit "alias/new/b.rs") TOOL_WRITE_FILE demo_host demo_resolved
    (snd (resolve_safe_path (lit "alias/new/b.rs") TOOL_WRITE_FILE demo_host)) _ (linked_steady demo_links (lit "/tmp") demo_tree demo_real_links)).
  - vm_compute. intros Hin. by repeat (apply elem_of_cons in Hin as [Hin|Hin]; [discriminate Hin|]); inversion Hin.
  - vm_compute. reflexivity.
Defined.
