(* ===== verification/FileTools.v ===== *)
(** * The file tools ([src/harness/fs.rs], [src/agents/catalog.rs])

    [read_file] answers a window of a file's text, [replace] edits one exact
    match or an announced number of regex matches, [write_file] writes a whole
    file.  Each goes through the path gate; the writers go through the atomic
    write.  The disk's paths are the components of the gate's answers. *)

From S2P Require Import Prelude Str Utf8 Decimal ToolNames MemberName Notice Disk Atomic Json PathGate.
Local Open Scope nat_scope.

(** ** Arguments of the file tools *)

(** serde_json's numbers: the value of those that are a [u64]. *)
Class NumberBits `{Numbers} := { number_u64 : Number -> option N }.

Section args.
Context `{NumberBits}.
Implicit Types args v : Value.

Definition as_u64 (v : Value) : option N := match v with VNumber n => number_u64 n | _ => None end.

Definition PATH_NAMES : list str :=
  [lit "file_path"; lit "filepath"; lit "file"; lit "filename"; lit "file_name"; lit "target"; lit "target_file";
   lit "dest"; lit "destination"; lit "output_file"; lit "output_path"; lit "name"; lit "doc"; lit "path_to_file"].
Definition CONTENT_NAMES : list str :=
  [lit "contents"; lit "text"; lit "code"; lit "body"; lit "file_content"; lit "filecontent"; lit "data"; lit "source"; lit "raw"].
Definition PATTERN_NAMES : list str := [lit "query"; lit "search"; TOOL_GLOB; lit "regex"].
Definition OLD_STR_NAMES : list str := [lit "target"; lit "search"; lit "find"; lit "old"; lit "target_content"].
Definition NEW_STR_NAMES : list str := [lit "replacement"; TOOL_REPLACE; lit "new"; lit "replacement_content"].
Definition COMMAND_NAMES : list str := [lit "cmd"; lit "script"; lit "exec"; lit "command_line"].
Definition other_names (key : str) : list str :=
  if str_eqb key (lit "path") then PATH_NAMES
  else if str_eqb key (lit "content") then CONTENT_NAMES
  else if str_eqb key (lit "pattern") then PATTERN_NAMES
  else if str_eqb key (lit "old_str") then OLD_STR_NAMES
  else if str_eqb key (lit "new_str") then NEW_STR_NAMES
  else if str_eqb key (lit "command") then COMMAND_NAMES
  else [].

Definition BACKTICK : str := lit "`".
(** A [write_file] whose content says where it was saved. *)
Definition path_in_content (args : Value) : option str :=
  content ← value_get args (lit "content") ≫= as_str;
  '(_, sub) ← find_split (lit "saved to `") content;
  '(quoted, _) ← find_split BACKTICK sub;
  let candidate := trim quoted in
  if negb (is_empty candidate) && (contains SLASH candidate || contains (lit ".") candidate) then Some candidate else None.

(** [{"path": "docs/report.md", "content": "..."}] *)
Definition DQ : str := [34%N].
Definition PATH_EXAMPLE : str :=
  lit "{" ++ DQ ++ lit "path" ++ DQ ++ lit ": " ++ DQ ++ lit "docs/report.md" ++ DQ ++ lit ", " ++ DQ ++ lit "content" ++ DQ
  ++ lit ": " ++ DQ ++ lit "..." ++ DQ ++ lit "}".
Definition missing_field (key tool : str) : str :=
  if str_eqb key (lit "path") && str_eqb tool TOOL_WRITE_FILE
  then lit "missing string field `path`. Specify the target file path in the tool arguments, e.g. " ++ PATH_EXAMPLE
  else lit "missing string field `" ++ key ++ BACKTICK.

Definition str_arg (args : Value) (key tool : str) : str + ToolError :=
  match value_get args key ≫= as_str with
  | Some v => inl v
  | None =>
      match first_present args (other_names key) with
      | Some v => inl v
      | None =>
          match (if str_eqb key (lit "path") && str_eqb tool TOOL_WRITE_FILE then path_in_content args else None) with
          | Some candidate => inl candidate
          | None => inr (BadArguments tool (missing_field key tool))
          end
      end
  end.

(** A [u64] fits a [usize] of 64 bits. *)
Definition u64_text (s : str) : option N := head (lines s) ≫= fun l => parse_u64 (trim l).
Definition usize_arg (args : Value) (key : str) (dflt : N) (tool : str) : N + ToolError :=
  match value_get args key with
  | None | Some VNull => inl dflt
  | Some v =>
      match or_else (as_u64 v) (as_str v ≫= u64_text) with
      | Some u => inl u
      | None => inr (BadArguments tool (lit "field `" ++ key ++ lit "` must be an integer"))
      end
  end.

(** ** What the arguments answer *)

Lemma str_arg_named args key tool s : value_get args key = Some (VString s) -> str_arg args key tool = inl s.
Proof. intros E. unfold str_arg. by rewrite E. Qed.
(** The error names the tool it was called for. *)
Lemma str_arg_error args key tool e : str_arg args key tool = inr e -> e = BadArguments tool (missing_field key tool).
Proof. unfold str_arg. repeat case_match; congruence. Qed.
Lemma usize_arg_error args key dflt tool e :
  usize_arg args key dflt tool = inr e -> e = BadArguments tool (lit "field `" ++ key ++ lit "` must be an integer").
Proof. unfold usize_arg. repeat case_match; congruence. Qed.

End args.


(** The folders of a disk are named by the components of their absolute path. *)
Definition disk_path (p : str) : path := key_components p.

(** ** Tails of UTF-8 *)

Definition utf8_sequence_len (lead : N) : nat :=
  if (lead <? 0x80)%N then 1
  else if (N.land lead 0xE0 =? 0xC0)%N then 2
  else if (N.land lead 0xF0 =? 0xE0)%N then 3
  else if (N.land lead 0xF8 =? 0xF0)%N then 4
  else 1.
(** [back] bytes from the end, [left] more looks to take; reading outside the
    buffer is a panic. *)
Fixpoint trim_tail (left back : nat) (bytes : list N) : outcome (list N) :=
  match left with
  | 0 => Ret (take (length bytes - 4) bytes)
  | S left' =>
      lead ← unwrap (bytes !! (length bytes - back));
      if (N.land lead 0xC0 =? 0x80)%N then trim_tail left' (S back) bytes
      else Ret (if back <? utf8_sequence_len lead then take (length bytes - back) bytes else bytes)
  end.
Definition drop_partial_utf8_tail (bytes : list N) : outcome (list N) :=
  trim_tail (Nat.min (length bytes) 4) 1 bytes.

(** ** Pages *)

Definition READ_FILE_MIN_LIMIT : N := 2000.
Definition READ_FILE_MAX_LIMIT : N := 8000.
Definition READ_FILE_DEFAULT_LIMIT : N := 4000.
Definition READ_FILE_MAX_BYTES : N := 262144.
Definition READ_FILE_TRUNCATION_MARKER : str := lit "[read_file truncated]".

Definition clamp_limit (n : N) : N :=
  if (n <? READ_FILE_MIN_LIMIT)%N then READ_FILE_MIN_LIMIT
  else if (READ_FILE_MAX_LIMIT <? n)%N then READ_FILE_MAX_LIMIT else n.
Definition saturating_add (a b : N) : N := N.min (a + b) (2 ^ 64 - 1).
Definition count (s : str) : N := N.of_nat (length s).

(** The window of a text: its start, its end and the characters between. *)
Definition window_start (content : str) (offset : N) : N := N.min offset (count content).
Definition window_end (content : str) (offset limit : N) : N :=
  N.min (saturating_add (window_start content offset) limit) (count content).
Definition window (content : str) (offset limit : N) : str :=
  let start := window_start content offset in
  take (N.to_nat (window_end content offset limit - start)) (drop (N.to_nat start) content).

Definition NL_text : str := [NL].
Definition read_truncation_footer (file_bytes bytes_read window_chars start stop offset limit : N) : str :=
  NL_text ++ NL_text ++ READ_FILE_TRUNCATION_MARKER ++ lit " truncated: true" ++ NL_text
  ++ lit "reason: file_bytes=" ++ decN file_bytes ++ lit " exceeds read_cap_bytes=" ++ decN READ_FILE_MAX_BYTES ++ NL_text
  ++ lit "file_bytes: " ++ decN file_bytes ++ NL_text
  ++ lit "read_cap_bytes: " ++ decN READ_FILE_MAX_BYTES ++ NL_text
  ++ lit "bytes_read: " ++ decN bytes_read ++ NL_text
  ++ lit "loaded_characters: " ++ decN window_chars ++ NL_text
  ++ lit "showing_characters: " ++ decN start ++ lit "-" ++ decN stop ++ NL_text
  ++ (if (window_chars <=? offset)%N then
        lit "requested_offset_beyond_loaded_head: true" ++ NL_text
        ++ lit "hint: offset " ++ decN offset ++ lit " is past the " ++ decN window_chars
        ++ lit " characters that fit inside the read cap; re-run with a smaller offset (max " ++ decN window_chars
        ++ lit ") and limit=" ++ decN limit ++ lit ", or use grep_search/glob to locate the section."
      else
        lit "next_offset: " ++ decN stop ++ NL_text
        ++ lit "hint: re-run with offset=" ++ decN stop ++ lit " limit=" ++ decN limit
        ++ lit " to continue inside the loaded head; bytes past " ++ decN bytes_read
        ++ lit " were never read, so use grep_search/glob to reach sections further in.").
Definition page_footer (start stop window_chars : N) : str :=
  NL_text ++ NL_text ++ lit "[Showing characters " ++ decN start ++ lit "-" ++ decN stop ++ lit " of " ++ decN window_chars
  ++ lit ". Use offset=" ++ decN stop ++ lit " to read next chunk]".

(** The page of a loaded text, before any instructions. *)
Definition page (content : str) (file_bytes bytes_read offset limit : N) (over_cap : bool) : str :=
  let window_chars := count content in
  let start := window_start content offset in
  let stop := window_end content offset limit in
  window content offset limit
  ++ (if over_cap then read_truncation_footer file_bytes bytes_read window_chars start stop offset limit
      else if (stop <? window_chars)%N then page_footer start stop window_chars else []).

(** ** Edits *)

(** [str::split]: the pieces between the matches, which do not overlap; an
    empty pattern matches at every boundary. *)
Fixpoint pieces_between (fuel : nat) (needle s : str) : list str :=
  match fuel with
  | 0 => [s]
  | S k => match find_split needle s with
           | Some (a, b) => a :: pieces_between k needle b
           | None => [s]
           end
  end.
Definition split_str (needle s : str) : list str :=
  if is_empty needle then [] :: map (fun c => [c]) s ++ [[]] else pieces_between (S (length s)) needle s.
(** [str::matches(..).count()] and [str::replace] *)
Definition count_matches (needle s : str) : nat := length (split_str needle s) - 1.
Definition replace_str (needle new s : str) : str := join_with new (split_str needle s).

(** The regex crate: compiling a pattern, counting its matches, replacing them
    all with the references of the replacement expanded. *)
Class RegexCrate := {
  Pattern : Type;
  compile : str -> Pattern + str;
  find_count : Pattern -> str -> N;
  replace_all : Pattern -> str -> str -> str
}.

(** ** Directory-specific instructions *)

Definition INSTRUCTION_FILES : list str := [lit "AGENTS.md"; lit "CLAUDE.md"; lit "GEMINI.md"].
Definition MAX_NESTED_INSTRUCTIONS_BYTES : nat := 8192.

Definition instruction_file_in (t : Tree) (dir : path) : option path :=
  find_first (is_file t) (map (fun name => dir ++ [name]) INSTRUCTION_FILES).
(** [end] down to a character boundary. *)
Fixpoint boundary_down (s : str) (n : nat) : nat :=
  match n with 0 => 0 | S k => if is_char_boundary s n then n else boundary_down s k end.
Definition clip_instructions (body : str) : outcome str :=
  if MAX_NESTED_INSTRUCTIONS_BYTES <? blen body then
    kept ← unwrap (get_to body (boundary_down body MAX_NESTED_INSTRUCTIONS_BYTES));
    Ret (kept ++ NL_text ++ lit "[... nested instructions truncated ...]")
  else Ret body.
Definition NESTED_HEADER : str :=
  NL_text ++ NL_text
  ++ lit "[Directory-specific instructions that apply to this file; they take precedence over the project-level rules]" ++ NL_text.

(** [Path::strip_prefix], on components. *)
Fixpoint strip_components (base cs : list Component) : option (list Component) :=
  match base, cs with
  | [], _ => Some cs
  | b :: base', c :: cs' => if decide (b = c) then strip_components base' cs' else None
  | _ :: _, [] => None
  end.

(** [fs::read_to_string]: the bytes must decode. *)
Definition read_text `{Faults} (q : path) : Disk -> option str * Disk :=
  read_call (fun t => b ← t !! q; bytes ← node_bytes b; from_utf8 bytes).

Section tools.
Context `{Os} `{Faults} `{DashOrder} `{NumberBits} `{RegexCrate}.
(** The clock of the staged names, and what [metadata] says of a folder. *)
Context (nanos_at : N -> N) (folder_len : N).

(** The parts of the folders of [dirs], outermost first. *)
Fixpoint instruction_parts (root_path dir : path) (dirs : list str) (h : Host) : list str * Host :=
  match dirs with
  | [] => ([], h)
  | name :: dirs' =>
      let dir' := dir ++ [name] in
      match instruction_file_in (tree (proc_disk (process h))) dir' with
      | None => instruction_parts root_path dir' dirs' h
      | Some file =>
          match on_disk (read_text file) h with
          | (None, h1) => instruction_parts root_path dir' dirs' h1
          | (Some text, h1) =>
              let '(parts, h2) := instruction_parts root_path dir' dirs' h1 in
              (if is_empty (trim text) then parts
               else (lit "## " ++ join_with SLASH (drop (length root_path) file) ++ NL_text ++ trim text) :: parts, h2)
          end
      end
  end.
(** The folders of a normal absolute path are plain names. *)
Definition nested_instructions_for (workspace_root file : str) (h : Host) : outcome (option str * Host) :=
  match strip_components (components workspace_root) (components file) with
  | None | Some [] => Ret (None, h)
  | Some rel =>
      let root_path := disk_path workspace_root in
      let '(parts, h1) := instruction_parts root_path root_path (map component_str (removelast rel)) h in
      if is_empty parts then Ret (None, h1)
      else body ← clip_instructions (join_with (NL_text ++ NL_text) parts); Ret (Some (NESTED_HEADER ++ body), h1)
  end.

(** ** read_file *)

Definition metadata_len (q : path) : Disk -> option N * Disk :=
  read_call (fun t => match t !! q with
                      | Some Folder => Some folder_len
                      | Some n => (fun b => N.of_nat (length b)) <$> node_bytes n
                      | None => None
                      end).
Definition read_head (q : path) (cap : N) (d : Disk) : option (list N) * Disk :=
  let '(r, d1) := read_bytes q d in (take (N.to_nat cap) <$> r, d1).

(** What a call answers: a result or an error; [Panic] for a panic. *)
Definition Answer : Type := (ToolResult + ToolError) * Host.

Definition load_file (safe_path : str) (h : Host) : outcome (option (N * N * bool * str) * Host) :=
  let q := disk_path safe_path in
  match on_disk (metadata_len q) h with
  | (None, h1) => Ret (None, h1)
  | (Some file_bytes, h1) =>
      let over_cap := (READ_FILE_MAX_BYTES <? file_bytes)%N in
      match on_disk (if over_cap then read_head q READ_FILE_MAX_BYTES else read_bytes q) h1 with
      | (None, h2) => Ret (None, h2)
      | (Some raw, h2) =>
          kept ← (if over_cap then drop_partial_utf8_tail raw else Ret raw);
          Ret (Some (file_bytes, N.of_nat (length raw), over_cap, from_utf8_lossy kept), h2)
      end
  end.

Definition read_file (args : Value) (h : Host) : outcome Answer :=
  match str_arg args (lit "path") TOOL_READ_FILE with
  | inr e => Ret (inr e, h)
  | inl p =>
  match usize_arg args (lit "offset") 0 TOOL_READ_FILE with
  | inr e => Ret (inr e, h)
  | inl offset =>
  match usize_arg args (lit "limit") READ_FILE_DEFAULT_LIMIT TOOL_READ_FILE with
  | inr e => Ret (inr e, h)
  | inl asked =>
      let limit := clamp_limit asked in
      match resolve_safe_path p TOOL_READ_FILE h with
      | (inr e, h1) => Ret (inr e, h1)
      | (inl safe_path, h1) =>
          '(loaded, h2) ← load_file safe_path h1;
          match loaded with
          | None => Ret (inr (Execution CannotRead), h2)
          | Some (file_bytes, bytes_read, over_cap, content) =>
              let out := page content file_bytes bytes_read offset limit over_cap in
              if (window_start content offset =? 0)%N then
                let '(root, h3) := get_workspace_root h2 in
                '(extra, h4) ← nested_instructions_for root safe_path h3;
                Ret (inl (result_ok (out ++ default [] extra)), h4)
              else Ret (inl (result_ok out), h2)
          end
      end
  end end end.

(** ** write_file *)

Definition write_atomic_call (q : path) (bytes : list N) (h : Host) : (() + AtomicError) * Host :=
  let '(r, p) := write_file_atomic nanos_at q bytes (process h) in (r, with_process h p).

(** The permissions of the folder are set when they can be. *)
Definition make_parent (q : path) (h : Host) : bool * Host :=
  match q with
  | [] => (true, h)
  | _ => let '(made, h1) := on_disk (create_dir_all (removelast q)) h in
         if made then (true, snd (on_disk copy_permissions h1)) else (false, h1)
  end.
Definition write_file (args : Value) (h : Host) : Answer :=
  match str_arg args (lit "path") TOOL_WRITE_FILE with
  | inr e => (inr e, h)
  | inl p =>
  match str_arg args (lit "content") TOOL_WRITE_FILE with
  | inr e => (inr e, h)
  | inl content =>
      match resolve_safe_path p TOOL_WRITE_FILE h with
      | (inr e, h1) => (inr e, h1)
      | (inl safe_path, h1) =>
          let q := disk_path safe_path in
          match make_parent q h1 with
          | (false, h2) => (inr (Execution CannotMakeFolder), h2)
          | (true, h2) =>
              match write_atomic_call q (utf8 content) h2 with
              | (inr e, h3) => (inr (Execution (CannotWrite e)), h3)
              | (inl _, h3) =>
                  (inl (result_ok (lit "wrote " ++ dec (blen content) ++ lit " bytes to " ++ p)), h3)
              end
          end
      end
  end end.

(** ** replace *)

(** What is to be replaced: one exact match, or so many of a pattern. *)
Inductive Edit := Exact | ByRegex (pattern : Pattern) (expected : N).
Definition edit_of (args : Value) (old_str : str) : Edit + str :=
  match (match value_get args (lit "mode") with
         | None => Some false
         | Some (VString mode) => if str_eqb mode (lit "exact") then Some false else if str_eqb mode (lit "regex") then Some true else None
         | Some _ => None
         end) with
  | None => inr (lit "mode must be 'exact' or 'regex'")
  | Some false =>
      match value_get args (lit "expected_matches") with
      | Some _ => inr (lit "expected_matches is only supported in regex mode")
      | None => inl Exact
      end
  | Some true =>
      match value_get args (lit "expected_matches") ≫= as_u64 with
      | Some expected =>
          if (0 <? expected)%N then
            match compile old_str with
            | inl pattern => inl (ByRegex pattern expected)
            | inr error => inr (lit "Invalid regex: " ++ error)
            end
          else inr (lit "regex mode requires expected_matches as a positive integer")
      | None => inr (lit "regex mode requires expected_matches as a positive integer")
      end
  end.

(** The new text and what is said of it, or why the file stays as it is. *)
Definition edited (e : Edit) (p old_str new_str content : str) : (str * str) + str :=
  match e with
  | ByRegex pattern expected =>
      let n := find_count pattern content in
      if negb (n =? expected)%N then
        inr (lit "Regex matched " ++ decN n ++ lit " times in " ++ p ++ lit "; expected " ++ decN expected ++ lit ". File unchanged.")
      else inl (replace_all pattern content new_str, lit "replace applied (" ++ decN n ++ lit " matches)")
  | Exact =>
      let n := count_matches old_str content in
      if n =? 0 then inr (lit "old_str not found in file: " ++ p)
      else if 1 <? n then
        inr (lit "old_str is ambiguous (matches " ++ dec n ++ lit " times in " ++ p ++ lit "). Provide more unique surrounding context.")
      else inl (replace_str old_str new_str content, lit "replace applied")
  end.

Definition replace_at (e : Edit) (p old_str new_str safe_path : str) (h : Host) : Answer :=
  let q := disk_path safe_path in
  match on_disk (read_text q) h with
  | (None, h1) => (inr (Execution CannotRead), h1)
  | (Some content, h1) =>
      match edited e p old_str new_str content with
      | inr why => (inl (result_err why), h1)
      | inl (new_content, said) =>
          match write_atomic_call q (utf8 new_content) h1 with
          | (inr e, h2) => (inr (Execution (CannotWrite e)), h2)
          | (inl _, h2) => (inl (result_ok said), h2)
          end
      end
  end.
Definition replace (args : Value) (h : Host) : Answer :=
  match str_arg args (lit "path") TOOL_REPLACE with
  | inr e => (inr e, h)
  | inl p =>
  match str_arg args (lit "old_str") TOOL_REPLACE with
  | inr e => (inr e, h)
  | inl old_str =>
  match str_arg args (lit "new_str") TOOL_REPLACE with
  | inr e => (inr e, h)
  | inl new_str =>
      match edit_of args old_str with
      | inr why => (inl (result_err why), h)
      | inl e =>
          match resolve_safe_path p TOOL_REPLACE h with
          | (inr err, h1) => (inr err, h1)
          | (inl safe_path, h1) => replace_at e p old_str new_str safe_path h1
          end
      end
  end end end.

End tools.
