(* ===== verification/FileFacts.v ===== *)
(** * What the file tools promise ([src/harness/fs.rs])

    Reading answers the page of the text that was loaded, and never panics; an
    edit replaces the one match and touches no other file, or leaves every file
    as it was; what was written reads back.  The bytes a capped read keeps are the
    longest prefix of whole characters that fits, and the pages of a text, each
    starting where the one before ended, put the text together again. *)

From S2P Require Import Prelude Str Utf8 Decimal ToolNames MemberName Notice Disk DiskFacts Atomic Json PathGate PathGateFacts FileTools.
Local Open Scope nat_scope.

Abbreviation scalars s := (Forall (fun c : char => is_scalar c = true) s).

(** ** Lead bytes and continuation bytes *)

Definition byte_class (b : N) : nat :=
  if (b <? 0x80)%N then 1 else if (b <? 0xC0)%N then 0 else if (b <? 0xE0)%N then 2 else if (b <? 0xF0)%N then 3
  else if (b <? 0xF8)%N then 4 else 1.
Definition class_agrees (b : N) : bool :=
  Bool.eqb (N.land b 0xC0 =? 0x80)%N (byte_class b =? 0) && ((byte_class b =? 0) || (utf8_sequence_len b =? byte_class b)).
Lemma all_classes_agree : forallb (fun k => class_agrees (N.of_nat k)) (seq 0 256) = true.
Proof. by vm_compute. Qed.
Lemma byte_class_spec b : (b < 256)%N ->
  (N.land b 0xC0 =? 0x80)%N = (byte_class b =? 0) /\ (byte_class b <> 0 -> utf8_sequence_len b = byte_class b).
Proof.
  intros Hb. pose proof (proj1 (forallb_forall _ _) all_classes_agree (N.to_nat b) ltac:(apply in_seq; lia)) as Hc.
  cbn beta in Hc. rewrite N2Nat.id in Hc. unfold class_agrees in Hc. apply andb_true_iff in Hc as [H1 H2].
  apply eqb_prop in H1. split; [done|]. intros Hne. apply orb_true_iff in H2 as [H2|H2]; lia.
Qed.

(** A character's bytes: a lead byte that tells their number, and continuation
    bytes. *)
Definition chunk (lead : N) (conts : list N) : Prop :=
  (N.land lead 0xC0 =? 0x80)%N = false /\ Forall (fun b => (N.land b 0xC0 =? 0x80)%N = true) conts.
Lemma cont_byte n : (N.land (cont n) 0xC0 =? 0x80)%N = true.
Proof.
  pose proof (N.mod_lt n 64 ltac:(done)). unfold cont. destruct (byte_class_spec (0x80 + n mod 64)%N) as [-> _]; [lia|].
  unfold byte_class. by repeat (case_match; try lia).
Qed.
Lemma utf8_char_chunk c : is_scalar c = true ->
  exists lead conts, utf8_char c = lead :: conts /\ chunk lead conts /\ utf8_sequence_len lead = len_utf8 c.
Proof.
  intros Hs. assert (Hlt : (c < 0x110000)%N) by (unfold is_scalar in Hs; lia).
  assert (Hlead : forall b n, (b < 256)%N -> byte_class b = n -> n <> 0 ->
    (N.land b 0xC0 =? 0x80)%N = false /\ utf8_sequence_len b = n).
  { intros b n Hb <- Hn. destruct (byte_class_spec b Hb) as [-> Hl]. split; [by apply Nat.eqb_neq|by apply Hl]. }
  pose proof (N.div_mod' c 64). pose proof (N.div_mod' c 4096). pose proof (N.div_mod' c 262144).
  pose proof (N.mod_lt c 64 ltac:(done)). pose proof (N.mod_lt c 4096 ltac:(done)). pose proof (N.mod_lt c 262144 ltac:(done)).
  unfold utf8_char, len_utf8.
  destruct (N.ltb_spec c 0x80); [|destruct (N.ltb_spec c 0x800); [|destruct (N.ltb_spec c 0x10000)]];
    eexists _, _; (split; [reflexivity|]).
  - destruct (Hlead c 1); [lia|unfold byte_class; by repeat (case_match; try lia)|done|]. split; [by split|done].
  - destruct (Hlead (0xC0 + c / 64)%N 2); [lia|unfold byte_class; by repeat (case_match; try lia)|done|].
    split; [split; [done|repeat constructor; apply cont_byte]|done].
  - destruct (Hlead (0xE0 + c / 4096)%N 3); [lia|unfold byte_class; by repeat (case_match; try lia)|done|].
    split; [split; [done|repeat constructor; apply cont_byte]|done].
  - destruct (Hlead (0xF0 + c / 262144)%N 4); [lia|unfold byte_class; by repeat (case_match; try lia)|done|].
    split; [split; [done|repeat constructor; apply cont_byte]|done].
Qed.

(** ** The tail *)

(** Looking back [back] bytes into a chunk whose later bytes have been seen. *)
Lemma trim_tail_chunk pre lead conts left back :
  chunk lead conts -> 0 < back <= S (length conts) -> S (length conts) < left + back ->
  trim_tail left back (pre ++ lead :: conts) =
    Ret (if S (length conts) <? utf8_sequence_len lead then pre else pre ++ lead :: conts).
Proof.
  intros [Hl Hc]. revert back. induction left as [|left IH]; intros back Hb Hlt; [lia|]. cbn [trim_tail].
  rewrite length_app. cbn [length]. destruct (decide (back = S (length conts))) as [->|Hne].
  - replace (length pre + S (length conts) - S (length conts)) with (length pre) by lia.
    rewrite lookup_app_r, Nat.sub_diag by done. cbn [lookup list_lookup unwrap mbind outcome_bind]. rewrite Hl.
    f_equal. case_match; [by rewrite take_app_length|done].
  - rewrite lookup_app_r by lia.
    replace (length pre + S (length conts) - back - length pre) with (S (length conts - back)) by lia.
    cbn [lookup list_lookup]. destruct (conts !! (length conts - back)) as [b|] eqn:E; [|apply lookup_ge_None in E; lia].
    cbn [unwrap mbind outcome_bind]. rewrite (proj1 (Forall_forall _ _) Hc b) by (apply list_elem_of_lookup; eauto).
    apply IH; lia.
Qed.
Lemma drop_partial_chunk pre lead conts :
  chunk lead conts -> length conts < 4 ->
  drop_partial_utf8_tail (pre ++ lead :: conts) =
    Ret (if S (length conts) <? utf8_sequence_len lead then pre else pre ++ lead :: conts).
Proof. intros Hc Hl. unfold drop_partial_utf8_tail. apply trim_tail_chunk; [done|lia|rewrite length_app; simpl; lia]. Qed.

Lemma chunk_take lead conts n : chunk lead conts -> chunk lead (take n conts).
Proof. intros [Hl Hc]. split; [done|]. by apply Forall_take. Qed.

(** The first bytes of a text: whole characters, and less than one more. *)
Lemma utf8_take s n : n <= length (utf8 s) -> exists k part, k <= length s /\ take n (utf8 s) = utf8 (take k s) ++ part /\
  match s !! k with
  | Some c => exists j, j < len_utf8 c /\ part = take j (utf8_char c)
  | None => part = []
  end.
Proof.
  revert n. induction s as [|c s IH]; intros n Hn; [exists 0, []; split; [lia|]; split; [by destruct n|done]|].
  change (utf8 (c :: s)) with (utf8_char c ++ utf8 s) in *. destruct (decide (n < len_utf8 c)) as [Hlt|Hge].
  - exists 0, (take n (utf8_char c)). split; [lia|]. rewrite take_app_le by (rewrite utf8_char_length; lia). split; [done|]. by exists n.
  - rewrite length_app, utf8_char_length in Hn. destruct (IH (n - len_utf8 c)) as (k & part & Hk & E & Hp); [lia|].
    exists (S k), part. split; [simpl; lia|]. rewrite take_app_ge by (rewrite utf8_char_length; lia). rewrite utf8_char_length, E.
    cbn [take]. change (utf8 (c :: take k s)) with (utf8_char c ++ utf8 (take k s)). by rewrite <-app_assoc.
Qed.
Lemma len_utf8_range c : 1 <= len_utf8 c <= 4.
Proof. unfold len_utf8. repeat case_match; lia. Qed.

Lemma drop_partial_whole s : scalars s -> drop_partial_utf8_tail (utf8 s) = Ret (utf8 s).
Proof.
  intros Hs. destruct s as [|c s _] using rev_ind; [done|]. apply Forall_app in Hs as [_ Hc]. apply Forall_inv in Hc.
  destruct (utf8_char_chunk c Hc) as (lead & conts & E & Hchunk & Hlen).
  rewrite utf8_app. unfold utf8 at 2 4. cbn [map concat]. rewrite app_nil_r, E.
  pose proof (utf8_char_length c) as Hl. rewrite E in Hl. cbn [length] in Hl. pose proof (len_utf8_range c).
  rewrite drop_partial_chunk by (done || lia). rewrite (proj2 (Nat.ltb_ge _ _)) by lia. done.
Qed.

Lemma drop_partial_take s n : scalars s -> n <= length (utf8 s) ->
  exists k, k <= length s /\ drop_partial_utf8_tail (take n (utf8 s)) = Ret (utf8 (take k s)) /\
    blen (take k s) <= n /\ (k < length s -> n < blen (take (S k) s)).
Proof.
  intros Hs Hn. destruct (utf8_take s n Hn) as (k & part & Hk & E & Hp). exists k. split; [done|].
  assert (Hlen : blen (take k s) + length part = n).
  { rewrite <-utf8_length, <-length_app, <-E. apply length_take_le. lia. }
  destruct (s !! k) as [c|] eqn:Ec.
  2:{ subst part. rewrite E, app_nil_r. apply lookup_ge_None in Ec. split; [by apply drop_partial_whole, Forall_take|].
      split; [lia|intros; lia]. }
  destruct Hp as (j & Hj & ->). assert (Hsc : is_scalar c = true) by (by apply (proj1 (Forall_lookup _ _) Hs k c)).
  assert (Hpl : length (take j (utf8_char c)) = j) by (apply length_take_le; rewrite utf8_char_length; lia).
  split; [|split; [lia|]].
  - rewrite E. destruct j as [|j]; [rewrite app_nil_r; by apply drop_partial_whole, Forall_take|].
    destruct (utf8_char_chunk c Hsc) as (lead & conts & Eu & Hchunk & Hl). rewrite Eu in *. cbn [take] in *.
    pose proof (len_utf8_range c). cbn [length] in Hpl. rewrite drop_partial_chunk by (try apply chunk_take; done || lia).
    by rewrite (proj2 (Nat.ltb_lt _ _)) by lia.
  - intros _. rewrite (take_S_r _ _ c Ec). unfold blen in *. rewrite sum_with_app. cbn [sum_with]. lia.
Qed.

(** The decoder reads a text's bytes back. *)
Lemma lossy_loop_utf8 s fuel : scalars s -> length (utf8 s) <= fuel -> lossy_loop fuel (utf8 s) = s.
Proof.
  intros Hs. revert fuel. induction Hs as [|c s Hc _ IH]; intros fuel Hf; [by destruct fuel|].
  unfold utf8 in *. cbn [map concat] in *. destruct (decode_utf8_char c (concat (map utf8_char s)) Hc) as (b0 & bs & E & Hd).
  rewrite E in *. cbn [app length] in *. destruct fuel as [|fuel]; [lia|]. cbn [lossy_loop]. rewrite Hd.
  f_equal. apply IH. rewrite length_app in Hf. lia.
Qed.
Lemma from_utf8_lossy_utf8 s : scalars s -> from_utf8_lossy (utf8 s) = s.
Proof. intros Hs. by apply lossy_loop_utf8. Qed.

(** No buffer makes the trim panic: at most four bytes go. *)
Lemma trim_tail_total left back bytes : 0 < back -> left + back <= S (length bytes) -> left + back <= 5 ->
  exists k, k <= 4 /\ trim_tail left back bytes = Ret (take (length bytes - k) bytes).
Proof.
  revert back. induction left as [|left IH]; intros back Hb Hl H5; [by exists 4|]. cbn [trim_tail].
  destruct (bytes !! (length bytes - back)) as [b|] eqn:E; [|apply lookup_ge_None in E; lia].
  cbn [unwrap mbind outcome_bind]. destruct (N.land b 0xC0 =? 0x80)%N; [apply IH; lia|].
  destruct (back <? utf8_sequence_len b); [exists back; split; [lia|done]|].
  exists 0. split; [lia|]. by rewrite Nat.sub_0_r, firstn_all.
Qed.
Lemma drop_partial_total bytes : exists k, k <= 4 /\ drop_partial_utf8_tail bytes = Ret (take (length bytes - k) bytes).
Proof. apply trim_tail_total; lia. Qed.

(** Whatever the bytes are, trimming the tail of a capped read does not
    panic and takes at most four bytes off its end; on the first bytes of a
    text it keeps exactly the whole characters that fit, the longest such
    prefix, and decoding what it keeps gives these characters. *)
Theorem capped_read_keeps_whole_characters :
  (forall bytes, exists k, k <= 4 /\ drop_partial_utf8_tail bytes = Ret (take (length bytes - k) bytes)) /\
  (forall s n, scalars s -> n <= length (utf8 s) -> exists k kept,
     drop_partial_utf8_tail (take n (utf8 s)) = Ret kept /\ from_utf8_lossy kept = take k s /\
     blen (take k s) <= n /\ (k < length s -> n < blen (take (S k) s))).
Proof.
  split; [apply drop_partial_total|]. intros s n Hs Hn. destruct (drop_partial_take s n Hs Hn) as (k & _ & E & Hk & Hmax).
  exists k, (utf8 (take k s)). split; [done|]. split; [by apply from_utf8_lossy_utf8, Forall_take|done].
Qed.
Lemma capped_read_keeps_whole_characters_witness :
  let s := [97; 8364; 98]%N in
  exists k kept, drop_partial_utf8_tail (take 3 (utf8 s)) = Ret kept /\ from_utf8_lossy kept = take k s /\
    blen (take k s) <= 3 /\ (k < length s -> 3 < blen (take (S k) s)).
Proof. apply (proj2 capped_read_keeps_whole_characters [97; 8364; 98]%N 3); [by repeat constructor|vm_compute; lia]. Defined.

(** ** The pages of a text *)

(** Following the pages from [offset], each starting where the one before
    ended, [pages] of them at most. *)
Fixpoint follow_pages (pages : nat) (content : str) (offset limit : N) : str :=
  match pages with
  | 0 => []
  | S pages' =>
      window content offset limit ++
      (if (window_end content offset limit <? count content)%N
       then follow_pages pages' content (window_end content offset limit) limit else [])
  end.

Lemma clamp_limit_range n : (READ_FILE_MIN_LIMIT <= clamp_limit n <= READ_FILE_MAX_LIMIT)%N.
Proof. unfold clamp_limit, READ_FILE_MIN_LIMIT, READ_FILE_MAX_LIMIT. repeat case_match; lia. Qed.

(** A text in memory is shorter than [2^63] characters, so no end saturates. *)
Lemma window_end_next content offset limit :
  (count content < 2 ^ 63)%N -> (limit <= READ_FILE_MAX_LIMIT)%N ->
  window_end content offset limit = N.min (N.min offset (count content) + limit) (count content).
Proof. unfold window_end, window_start, saturating_add, READ_FILE_MAX_LIMIT. lia. Qed.
Lemma window_step content offset limit :
  (count content < 2 ^ 63)%N -> (limit <= READ_FILE_MAX_LIMIT)%N ->
  window content offset limit ++ drop (N.to_nat (window_end content offset limit)) content = drop (N.to_nat offset) content.
Proof.
  intros Hc Hl. pose proof (window_end_next content offset limit Hc Hl) as He.
  unfold window, window_start. set (e := window_end content offset limit) in *. unfold count in *.
  set (d := drop (N.to_nat (N.min offset (N.of_nat (length content)))) content).
  replace (drop (N.to_nat offset) content) with d.
  - rewrite <-(take_drop (N.to_nat (e - N.min offset (N.of_nat (length content)))) d) at 2. f_equal.
    unfold d. rewrite drop_drop. f_equal. lia.
  - unfold d. destruct (N.leb_spec offset (N.of_nat (length content))); [by rewrite N.min_l|].
    rewrite N.min_r by lia. rewrite !drop_ge by lia. done.
Qed.
Lemma window_length content offset limit : (limit <= READ_FILE_MAX_LIMIT)%N -> length (window content offset limit) <= N.to_nat limit.
Proof. intros Hl. unfold window. rewrite length_take. unfold window_end, saturating_add, window_start. lia. Qed.

Lemma follow_pages_from pages content offset limit :
  (count content < 2 ^ 63)%N -> (0 < limit <= READ_FILE_MAX_LIMIT)%N ->
  (count content <= offset + N.of_nat pages * limit)%N -> 0 < pages ->
  follow_pages pages content offset limit = drop (N.to_nat offset) content.
Proof.
  intros Hc Hl. revert offset. induction pages as [|pages IH]; intros offset Hp Hpos; [lia|]. cbn [follow_pages].
  pose proof (window_end_next content offset limit Hc ltac:(lia)) as He.
  rewrite <-(window_step content offset limit Hc) by lia. f_equal.
  destruct (N.ltb_spec (window_end content offset limit) (count content)) as [Hlt|Hge].
  - apply IH; [|destruct pages; lia]. destruct (N.leb_spec offset (count content)); lia.
  - rewrite drop_ge; [done|]. unfold count in Hge. lia.
Qed.

(** C34: reading a text page by page from the start, with any limit the tool
    accepts and the offset each page names, gives the text back, in one page
    more than its length divided by the limit; no page is longer than 8000
    characters. *)
Theorem pages_put_the_text_together content asked :
  (count content < 2 ^ 63)%N ->
  let limit := clamp_limit asked in
  follow_pages (S (N.to_nat (count content / limit))) content 0 limit = content /\
  forall offset, (count (window content offset limit) <= 8000)%N.
Proof.
  intros Hc limit. pose proof (clamp_limit_range asked) as Hr. fold limit in Hr.
  unfold READ_FILE_MIN_LIMIT in Hr. split.
  - rewrite follow_pages_from; [done|done|lia| |lia].
    pose proof (N.div_mod' (count content) limit). pose proof (N.mod_lt (count content) limit ltac:(lia)). lia.
  - intros offset. pose proof (window_length content offset limit ltac:(lia)). unfold READ_FILE_MAX_LIMIT in Hr. unfold count. lia.
Qed.
Lemma pages_put_the_text_together_witness :
  follow_pages (S (N.to_nat (count (lit "a short file") / 2000))) (lit "a short file") 0 2000 = lit "a short file" /\
  forall offset, (count (window (lit "a short file") offset 2000) <= 8000)%N.
Proof. apply (pages_put_the_text_together (lit "a short file") 10). by vm_compute. Defined.

(** ** Matches *)

Lemma find_split_length needle s a b : needle <> [] -> find_split needle s = Some (a, b) -> length b < length s.
Proof. intros Hn ->%find_split_Some. rewrite !length_app. destruct needle; [done|simpl; lia]. Qed.
Lemma pieces_join fuel needle s : join_with needle (pieces_between fuel needle s) = s.
Proof.
  revert s. induction fuel as [|fuel IH]; intros s; [done|]. cbn [pieces_between].
  destruct (find_split needle s) as [[a b]|] eqn:E; [|done]. apply find_split_Some in E as ->.
  specialize (IH b). destruct (pieces_between fuel needle b) as [|x l] eqn:Ep.
  - destruct fuel; simpl in Ep; [done|]. by repeat case_match.
  - by rewrite <-IH.
Qed.
Lemma find_split_before needle s a b : needle <> [] -> find_split needle s = Some (a, b) -> find_split needle a = None.
Proof.
  intros Hn E. destruct (find_split needle a) as [[x y]|] eqn:Ea; [|done]. exfalso.
  pose proof (find_split_Some _ _ _ _ E) as Es. pose proof (find_split_Some _ _ _ _ Ea) as Hx.
  pose proof (find_split_app _ _ (needle ++ b) _ _ Ea) as Eb. rewrite <-Es, E in Eb. injection Eb as -> _.
  apply (f_equal length) in Hx. rewrite !length_app in Hx. destruct needle; [done|simpl in Hx; lia].
Qed.
Lemma pieces_free fuel needle s : needle <> [] -> length s < fuel ->
  Forall (fun x => find_split needle x = None) (pieces_between fuel needle s).
Proof.
  intros Hn. revert s. induction fuel as [|fuel IH]; intros s Hl; [lia|]. cbn [pieces_between].
  destruct (find_split needle s) as [[a b]|] eqn:E; [|by repeat constructor].
  constructor; [by apply find_split_before in E|]. apply IH. pose proof (find_split_length _ _ _ _ Hn E). lia.
Qed.
Lemma join_chars (s : str) : join_with [] ([] :: map (fun c => [c]) s ++ [[]]) = s.
Proof.
  assert (Hj : forall l, join_with [] (map (fun c => [c]) l ++ [[]]) = l :> str).
  { induction l as [|c l IH]; [done|]. cbn [map app]. destruct (map _ l ++ [[]]) eqn:E; [by destruct l|].
    change (join_with [] ([c] :: l0 :: l1) = c :: l). cbn [join_with app] in *. by rewrite <-IH. }
  specialize (Hj s). destruct (map (fun c => [c]) s ++ [[]]) eqn:E; [by destruct s|]. exact Hj.
Qed.

(** The text is cut at the matches of the pattern: put together with the
    pattern, the pieces are the text, and no piece holds a match, so replacing
    a pattern by itself changes nothing and the matches counted are all those
    that do not overlap. *)
Theorem split_str_spec needle s :
  replace_str needle needle s = s /\ length (split_str needle s) = S (count_matches needle s) /\
  (needle <> [] -> Forall (fun x => contains needle x = false) (split_str needle s)).
Proof.
  unfold replace_str, count_matches, split_str. destruct (is_empty needle) eqn:E.
  - destruct needle; [|done]. split; [apply join_chars|]. split; [simpl; lia|done].
  - assert (Hn : needle <> []) by by destruct needle. split; [apply pieces_join|].
    split; [cbn [pieces_between]; case_match; [destruct p; simpl; lia|done]|].
    intros _. eapply Forall_impl; [apply pieces_free; [done|lia]|]. intros x Hx.
    unfold contains. by rewrite find_split_str, Hx.
Qed.
Lemma split_str_spec_witness :
  replace_str (lit "ab") (lit "ab") (lit "xabyab") = lit "xabyab" /\
  length (split_str (lit "ab") (lit "xabyab")) = S (count_matches (lit "ab") (lit "xabyab")) /\
  Forall (fun x => contains (lit "ab") x = false) (split_str (lit "ab") (lit "xabyab")).
Proof. destruct (split_str_spec (lit "ab") (lit "xabyab")) as (H1 & H2 & H3). split; [exact H1|]. split; [exact H2|]. by apply H3. Defined.
(** Two occurrences that overlap count as one match. *)
Example overlapping_occurrences : count_matches (lit "aa") (lit "aaa") = 1.
Proof. by vm_compute. Qed.

Lemma single_match needle new s : count_matches needle s = 1 ->
  exists a b, s = a ++ needle ++ b /\ replace_str needle new s = a ++ new ++ b.
Proof.
  unfold count_matches, replace_str, split_str. destruct (is_empty needle) eqn:E.
  - destruct needle; [|done]. destruct s as [|c s]; [|simpl; rewrite length_app; simpl; lia].
    intros _. exists [], []. split; [done|]. cbn [map app join_with]. by rewrite !app_nil_r.
  - cbn [pieces_between]. destruct (find_split needle s) as [[a b]|] eqn:Ef; [|done]. intros Hone.
    exists a, b. split; [by apply find_split_Some in Ef|]. pose proof (pieces_join (length s) needle b) as Hj.
    destruct (pieces_between (length s) needle b) as [|x [|y l]]; [done| |done]. cbn [join_with] in *. by rewrite Hj.
Qed.

(** ** Calls that only read *)

Section files.
Context `{Os} `{Faults} `{DashOrder} `{NumberBits} `{RegexCrate}.
Context (nanos_at : N -> N).
Implicit Types (h : Host) (q : path).

Lemma on_disk_read_spec {A} (f : Tree -> option A) h :
  let '(r, h1) := on_disk (read_call f) h in
  htree h1 = htree h /\ pid (process h1) = pid (process h) /\ forall x, r = Some x -> f (htree h) = Some x.
Proof. unfold on_disk, on_calls, read_call. cbn. split; [done|]. split; [done|]. intros x. by case_match. Qed.

(** ** Edits *)

(** What a successful edit did to the text. *)
Definition edit_did (e : Edit) (old_str new_str content new_content : str) : Prop :=
  match e with
  | Exact => count_matches old_str content = 1 /\
      exists a b, content = a ++ old_str ++ b /\ new_content = a ++ new_str ++ b
  | ByRegex pattern expected =>
      find_count pattern content = expected /\ new_content = replace_all pattern content new_str
  end.
Lemma edited_spec e p old_str new_str content new_content said :
  edited e p old_str new_str content = inl (new_content, said) -> edit_did e old_str new_str content new_content.
Proof.
  destruct e as [|pattern expected]; cbn [edited edit_did].
  - destruct (count_matches old_str content =? 0) eqn:E0; [done|]. destruct (1 <? _) eqn:E1; [done|].
    intros [= <- _]. apply Nat.eqb_neq in E0. apply Nat.ltb_ge in E1. split; [lia|]. apply single_match. lia.
  - destruct (N.eqb_spec (find_count pattern content) expected); cbn [negb]; [|done]. by intros [= <- _].
Qed.

(** The names an atomic write stages its file under. *)
Definition staging_of (h : Host) (target q : path) : Prop :=
  exists nanos seq, q = parent target ++ [staging_name (staging_stem target) (pid (process h)) nanos seq].
(** Nothing that was there has changed: at most a staged file is left. *)
Definition untouched (h h' : Host) (target : path) : Prop :=
  forall q, htree h' !! q <> htree h !! q -> staging_of h target q /\ htree h !! q = None /\ q <> target.

Lemma write_atomic_call_cases q bytes h : ~ staging_of h q q ->
  match write_atomic_call nanos_at q bytes h with
  | (inl _, h') => htree h' !! q = Some (BinaryFile bytes) /\ forall q', q' <> q -> htree h' !! q' = htree h !! q'
  | (inr _, h') => untouched h h' q
  end.
Proof.
  intros Hn. unfold write_atomic_call. pose proof (write_file_atomic_cases nanos_at q bytes (process h) Hn) as Hw.
  destruct (write_file_atomic nanos_at q bytes (process h)) as [[[]|e] p'].
  - destruct Hw as (Hq & _ & Ho). by split.
  - destruct Hw as [_ Ho]. exact Ho.
Qed.

(** C18: an edit that answers success has put, in the file it was resolved to,
    the file's text with the one match replaced (or, for a pattern, with the
    announced number of matches replaced), and has changed no other file; any
    other answer, an error included, has changed no file at all. *)
Theorem edit_replaces_the_match_or_nothing e p old_str new_str safe_path h :
  let q := disk_path safe_path in
  ~ staging_of h q q ->
  match replace_at nanos_at e p old_str new_str safe_path h with
  | (inl r, h') =>
      if is_error r then htree h' = htree h
      else exists n bytes content new_content,
        htree h !! q = Some n /\ node_bytes n = Some bytes /\ from_utf8 bytes = Some content /\
        edit_did e old_str new_str content new_content /\
        htree h' !! q = Some (BinaryFile (utf8 new_content)) /\ forall q', q' <> q -> htree h' !! q' = htree h !! q'
  | (inr _, h') => untouched h h' q
  end.
Proof.
  intros q Hn. unfold replace_at. fold q.
  pose proof (on_disk_read_spec (fun t => b ← t !! q; bytes ← node_bytes b; from_utf8 bytes) h) as Hr.
  unfold read_text. destruct (on_disk _ h) as [[content|] h1]; destruct Hr as (Ht & Hp & Hc).
  2:{ intros q' Hq'. destruct Hq'. by rewrite Ht. }
  specialize (Hc content eq_refl). destruct (edited e p old_str new_str content) as [[new_content said]|why] eqn:Ee; [|done].
  assert (Hs : forall q', staging_of h1 q q' -> staging_of h q q') by (intros q' (nanos & seq & ->); exists nanos, seq; by rewrite Hp).
  pose proof (write_atomic_call_cases q (utf8 new_content) h1 ltac:(auto)) as Hw.
  destruct (write_atomic_call nanos_at q (utf8 new_content) h1) as [[[]|err] h2].
  - destruct Hw as [Hq Ho]. cbn [is_error result_ok].
    destruct (htree h !! q) as [n|] eqn:En; [|done]. cbn [mbind option_bind] in Hc.
    destruct (node_bytes n) as [bytes|] eqn:Eb; [|done]. cbn [mbind option_bind] in Hc.
    exists n, bytes, content, new_content. repeat (split; [done|]). split; [by apply edited_spec in Ee|]. split; [done|].
    intros q' Hq'. by rewrite Ho, Ht.
  - intros q' Hq'. rewrite <-Ht in Hq' |- *. destruct (Hw q' Hq') as (Ha & Hb & Hd). auto.
Qed.

(** ** Whole files *)

Lemma folders_of_length p q : q ∈ folders_of p -> length q <= length p.
Proof.
  unfold folders_of. intros Hq. apply list_elem_of_In, in_map_iff in Hq as (n & <- & _). rewrite length_take. lia.
Qed.
Lemma make_parent_spec q h :
  htree (snd (make_parent q h)) !! q = htree h !! q /\ pid (process (snd (make_parent q h))) = pid (process h).
Proof.
  destruct q as [|x q0] eqn:Eq; [done|]. rewrite <-Eq in *. assert (Hne : q <> []) by by subst.
  assert (Hl : length (removelast q) < length q).
  { rewrite (app_removelast_last [] Hne) at 2. rewrite length_app. simpl. lia. }
  assert (E : make_parent q h = let '(made, h1) := on_disk (create_dir_all (removelast q)) h in
      if made then (true, snd (on_disk copy_permissions h1)) else (false, h1)) by by rewrite Eq.
  rewrite E. unfold on_disk, on_calls.
  assert (Hn : q ∉ folders_of (removelast q)) by (intros Hq%folders_of_length; lia).
  pose proof (create_dir_all_other (removelast q) (proc_disk (process h)) q Hn) as Hc.
  destruct (create_dir_all (removelast q) (proc_disk (process h))) as [made d]. cbn [snd] in Hc.
  destruct made; cbn [snd fst with_process process with_disk proc_disk]; [|by split; [exact Hc|]].
  unfold copy_permissions, write_call, htree, ptree. cbn. destruct (write_fault _); cbn; by split; [exact Hc|].
Qed.

Lemma write_file_spec args p content safe_path h h1 :
  str_arg args (lit "path") TOOL_WRITE_FILE = inl p -> str_arg args (lit "content") TOOL_WRITE_FILE = inl content ->
  resolve_safe_path p TOOL_WRITE_FILE h = (inl safe_path, h1) -> ~ staging_of h1 (disk_path safe_path) (disk_path safe_path) ->
  let '(r, h') := write_file nanos_at args h in
  match r with
  | inl r => r = result_ok (lit "wrote " ++ dec (blen content) ++ lit " bytes to " ++ p) /\
      htree h' !! disk_path safe_path = Some (BinaryFile (utf8 content))
  | inr e => htree h' !! disk_path safe_path = htree h1 !! disk_path safe_path
  end.
Proof.
  intros Ep Ec Er Hn. unfold write_file. rewrite Ep, Ec, Er. set (q := disk_path safe_path) in *.
  destruct (make_parent_spec q h1) as [Ht Hp]. destruct (make_parent q h1) as [made h2]. cbn [snd] in Ht, Hp.
  destruct made; [|done]. assert (Hs : ~ staging_of h2 q q).
  { intros (nanos & seq & E). apply Hn. exists nanos, seq. by rewrite <-Hp. }
  pose proof (write_atomic_call_cases q (utf8 content) h2 Hs) as Hw.
  destruct (write_atomic_call nanos_at q (utf8 content) h2) as [[[]|e] h3].
  - by destruct Hw as [Hq _].
  - destruct (decide (htree h3 !! q = htree h2 !! q)) as [E|Hne]; [congruence|]. by destruct (Hw q Hne) as (_ & _ & ?).
Qed.

End files.

(** ** Reading *)

Lemma is_char_boundary_get s i : is_char_boundary s i = true -> exists a, get_to s i = Some a.
Proof. unfold is_char_boundary, get_to. destruct (split_at s i) as [[a b]|]; [by exists a|done]. Qed.
Lemma boundary_down_some s n : exists a, get_to s (boundary_down s n) = Some a.
Proof.
  induction n as [|n IH]; cbn [boundary_down]; [by exists []; unfold get_to; destruct s|].
  destruct (is_char_boundary s (S n)) eqn:E; [by apply is_char_boundary_get|done].
Qed.
Lemma clip_instructions_total body : exists s, clip_instructions body = Ret s.
Proof.
  unfold clip_instructions. destruct (_ <? _); [|by eexists].
  destruct (boundary_down_some body MAX_NESTED_INSTRUCTIONS_BYTES) as [a ->]. by eexists.
Qed.
Lemma nested_instructions_total `{Faults} root file h : exists r, nested_instructions_for root file h = Ret r.
Proof.
  unfold nested_instructions_for. destruct (strip_components _ _) as [[|c rel]|]; [by eexists| |by eexists].
  destruct (instruction_parts _ _ _ h) as [parts h1]. destruct (is_empty parts); [by eexists|].
  destruct (clip_instructions_total (join_with (NL_text ++ NL_text) parts)) as [s ->]. by eexists.
Qed.

(** The text a read loads: the whole file, or the whole characters among its
    first 256 KiB. *)
Definition loaded_head (s kept : str) : Prop :=
  exists k, kept = take k s /\ (N.of_nat (blen kept) <= READ_FILE_MAX_BYTES)%N /\
    (k < length s -> (READ_FILE_MAX_BYTES < N.of_nat (blen (take (S k) s)))%N).
Section reading.
Context `{Os} `{Faults} `{NumberBits} (folder_len : N).
Implicit Types (h : Host).

Lemma load_file_total safe_path h : exists r, load_file folder_len safe_path h = Ret r.
Proof.
  unfold load_file. destruct (on_disk _ h) as [[file_bytes|] h1]; [|by eexists].
  destruct (on_disk _ h1) as [[raw|] h2]; [|by eexists].
  destruct (_ <? _)%N; [|by eexists]. destruct (drop_partial_total raw) as (k & _ & ->). by eexists.
Qed.

Lemma loaded_whole s : (N.of_nat (blen s) <= READ_FILE_MAX_BYTES)%N -> loaded_head s s.
Proof. intros Hl. exists (length s). rewrite firstn_all. split; [done|]. split; [done|lia]. Qed.
Lemma on_disk_reads {A} (f : Tree -> option A) h x : (forall n, read_fault n = false) -> f (htree h) = Some x ->
  exists h1, on_disk (read_call f) h = (Some x, h1) /\ htree h1 = htree h /\
    scoped_root h1 = scoped_root h /\ global_root h1 = global_root h.
Proof. intros Hr Hf. unfold on_disk, on_calls, read_call. rewrite Hr. unfold htree, ptree in Hf. rewrite Hf. by eexists. Qed.

Lemma load_file_spec safe_path h n s :
  (forall k, read_fault k = false) -> htree h !! disk_path safe_path = Some n -> node_bytes n = Some (utf8 s) -> scalars s ->
  exists kept h', load_file folder_len safe_path h =
      Ret (Some (N.of_nat (blen s), N.min (N.of_nat (blen s)) READ_FILE_MAX_BYTES, (READ_FILE_MAX_BYTES <? N.of_nat (blen s))%N, kept), h') /\
    loaded_head s kept /\ htree h' = htree h.
Proof.
  intros Hr Hn Hb Hs. unfold load_file. set (q := disk_path safe_path) in *.
  set (meta := fun t : Tree => match t !! q with Some Folder => Some folder_len
    | Some n => (fun b => N.of_nat (length b)) <$> node_bytes n | None => None end).
  assert (Hm : meta (htree h) = Some (N.of_nat (blen s))).
  { unfold meta. rewrite Hn. destruct n; try done; rewrite Hb; cbn; by rewrite utf8_length. }
  destruct (on_disk_reads meta h _ Hr Hm) as (h1 & E1 & Ht1 & _). unfold metadata_len. fold meta. rewrite E1.
  set (bytes_at := fun t : Tree => t !! q ≫= node_bytes).
  assert (Hraw : bytes_at (htree h1) = Some (utf8 s)) by (unfold bytes_at; by rewrite Ht1, Hn).
  destruct (on_disk_reads bytes_at h1 _ Hr Hraw) as (h2 & E2 & Ht2 & _).
  destruct (N.ltb_spec READ_FILE_MAX_BYTES (N.of_nat (blen s))) as [Hover|Hfit].
  - unfold read_head, on_disk, on_calls in *. fold bytes_at. unfold read_bytes in *. fold bytes_at.
    destruct (read_call bytes_at (proc_disk (process h1))) as [r d]. injection E2 as -> <-.
    cbn [fmap option_fmap option_map]. set (cap := N.to_nat READ_FILE_MAX_BYTES) in *.
    assert (Hcap : cap <= length (utf8 s)) by (rewrite utf8_length; lia).
    destruct (drop_partial_take s cap Hs Hcap) as (k & _ & -> & Hk & Hmax). cbn [mbind outcome_bind].
    rewrite from_utf8_lossy_utf8 by by apply Forall_take.
    exists (take k s), (with_process h1 (with_disk (process h1) d)). split; [|split; [|by rewrite Ht2]].
    + rewrite length_take, utf8_length. replace (N.of_nat (Nat.min _ _)) with (N.min (N.of_nat (blen s)) READ_FILE_MAX_BYTES) by (subst cap; lia). reflexivity.
    + exists k. split; [done|]. split; [lia|]. intros Hlt%Hmax. lia.
  - unfold read_bytes. fold bytes_at. rewrite E2. cbn [mbind outcome_bind]. rewrite from_utf8_lossy_utf8 by done.
    exists s, h2. rewrite utf8_length, N.min_l by lia. split; [done|]. split; [by apply loaded_whole|congruence].
Qed.

(** C33: reading never panics; and where the gate answers a file that holds a
    text and the disk reads, the answer begins with the page that was asked for
    of the text loaded, which is the whole file, or the whole characters of its
    first 256 KiB, with the footer that tells where it ends; instructions follow
    a first page only. *)
Theorem read_file_answers_the_page args h :
  (exists r, read_file folder_len args h = Ret r) /\
  forall p offset asked safe_path h1 n s,
    str_arg args (lit "path") TOOL_READ_FILE = inl p -> usize_arg args (lit "offset") 0 TOOL_READ_FILE = inl offset ->
    usize_arg args (lit "limit") READ_FILE_DEFAULT_LIMIT TOOL_READ_FILE = inl asked ->
    resolve_safe_path p TOOL_READ_FILE h = (inl safe_path, h1) ->
    (forall k, read_fault k = false) -> htree h1 !! disk_path safe_path = Some n -> node_bytes n = Some (utf8 s) -> scalars s ->
    exists kept extra h', loaded_head s kept /\
      read_file folder_len args h = Ret (inl (result_ok (page kept (N.of_nat (blen s)) (N.min (N.of_nat (blen s)) READ_FILE_MAX_BYTES)
        offset (clamp_limit asked) (READ_FILE_MAX_BYTES <? N.of_nat (blen s))%N ++ extra)), h') /\
      (window_start kept offset <> 0%N -> extra = []).
Proof.
  split.
  - unfold read_file. destruct (str_arg _ _ _) as [p|]; [|by eexists]. destruct (usize_arg _ (lit "offset") _ _) as [offset|]; [|by eexists].
    destruct (usize_arg _ _ _ _) as [asked|]; [|by eexists]. destruct (resolve_safe_path _ _ h) as [[safe|] h1]; [|by eexists].
    destruct (load_file_total safe h1) as [[loaded h2] ->]. cbn [mbind outcome_bind].
    destruct loaded as [[[[fb br] over] content]|]; [|by eexists]. destruct (_ =? _)%N; [|by eexists].
    destruct (get_workspace_root h2) as [root h3]. destruct (nested_instructions_total root safe h3) as [[extra h4] ->]. by eexists.
  - intros p offset asked safe h1 n s Ep Eo El Er Hr Hn Hb Hs. unfold read_file. rewrite Ep, Eo, El, Er.
    destruct (load_file_spec safe h1 n s Hr Hn Hb Hs) as (kept & h2 & -> & Hk & _). cbn [mbind outcome_bind].
    destruct (N.eqb_spec (window_start kept offset) 0).
    + destruct (get_workspace_root h2) as [root h3]. destruct (nested_instructions_total root safe h3) as [[extra h4] ->].
      exists kept, (default [] extra), h4. by repeat split.
    + exists kept, [], h2. rewrite app_nil_r. by repeat split.
Qed.

End reading.

(** A write that answers success put the content in the file the gate
    answered, and reading that file loads the content again (its first 256 KiB,
    in whole characters); a write that fails left the file as it was. *)
Theorem written_file_reads_back `{Os} `{Faults} `{DashOrder} `{NumberBits} nanos_at folder_len args p content safe_path h h1 :
  str_arg args (lit "path") TOOL_WRITE_FILE = inl p -> str_arg args (lit "content") TOOL_WRITE_FILE = inl content ->
  resolve_safe_path p TOOL_WRITE_FILE h = (inl safe_path, h1) -> ~ staging_of h1 (disk_path safe_path) (disk_path safe_path) ->
  (forall k, read_fault k = false) -> scalars content ->
  let '(r, h') := write_file nanos_at args h in
  match r with
  | inl r => r = result_ok (lit "wrote " ++ dec (blen content) ++ lit " bytes to " ++ p) /\
      exists read bytes over kept h'', load_file folder_len safe_path h' = Ret (Some (read, bytes, over, kept), h'') /\
        loaded_head content kept /\ read = N.of_nat (blen content)
  | inr e => htree h' !! disk_path safe_path = htree h1 !! disk_path safe_path
  end.
Proof.
  intros Ep Ec Er Hn Hr Hs. pose proof (write_file_spec nanos_at args p content safe_path h h1 Ep Ec Er Hn) as Hw.
  destruct (write_file nanos_at args h) as [[r|e] h']; [|done]. destruct Hw as [-> Hq]. split; [done|].
  destruct (load_file_spec folder_len safe_path h' _ content Hr Hq eq_refl Hs) as (kept & h2 & E & Hk & _). rewrite E. by eexists _, _, _, kept, h2.
Qed.

(** ** The file tools at a concrete workspace *)

#[local] Existing Instances demo_os no_faults gmap_order demo_numbers.
#[local] Instance demo_bits : NumberBits := {| number_u64 n := Some n |}.
(** Patterns that are searched as they are written. *)
#[local] Instance literal_patterns : RegexCrate := {|
  Pattern := str; compile s := inl s; find_count p s := N.of_nat (count_matches p s); replace_all p s new := replace_str p new s |}.
Definition clock (n : N) : N := (100 + n)%N.

Definition args_of (l : list (str * str)) : Value := VObject (map (fun kv => (fst kv, VString (snd kv))) l).
Definition text_at (h : Host) (p : str) : option str :=
  n ← htree h !! disk_path p; bytes ← node_bytes n; from_utf8 bytes.

Example read_a_file :
  (fst <$> read_file 4096 (args_of [(lit "file", lit "a.txt")]) demo_host) = Ret (inl (result_ok (lit "alpha"))).
Proof. by vm_compute. Qed.
Example replace_in_a_file :
  let '(r, h) := replace clock (args_of [(lit "path", lit "a.txt"); (lit "old_str", lit "lph"); (lit "new_str", lit "-")]) demo_host in
  r = inl (result_ok (lit "replace applied")) /\ text_at h (lit "/ws/a.txt") = Some (lit "a-a").
Proof. by vm_compute. Qed.
Example replace_is_ambiguous :
  let '(r, h) := replace clock (args_of [(lit "path", lit "a.txt"); (lit "old_str", lit "a"); (lit "new_str", lit "-")]) demo_host in
  text_at h (lit "/ws/a.txt") = Some (lit "alpha") /\ match r with inl r => is_error r | inr _ => false end = true.
Proof. by vm_compute. Qed.
Example write_below_a_link :
  let '(r, h) := write_file clock (args_of [(lit "path", lit "alias/new/b.rs"); (lit "content", lit "fn")]) demo_host in
  r = inl (result_ok (lit "wrote 2 bytes to alias/new/b.rs")) /\ text_at h (lit "/ws/src/new/b.rs") = Some (lit "fn").
Proof. by vm_compute. Qed.
Example path_read_from_the_content :
  str_arg (args_of [(lit "content", lit "saved to `docs/r.md` now")]) (lit "path") TOOL_WRITE_FILE = inl (lit "docs/r.md").
Proof. by vm_compute. Qed.

(** A name that does not begin with a dot is no staging name. *)
Lemma not_staging h target q : head (default [] (last q)) <> Some (ch ".") -> ~ staging_of h target q.
Proof. intros Hl (nanos & seq & ->). by rewrite last_snoc in Hl. Qed.

Lemma edit_replaces_the_match_or_nothing_witness :
  match replace_at clock Exact (lit "a.txt") (lit "lph") (lit "-") (lit "/ws/a.txt") demo_host with
  | (inl r, h') =>
      if is_error r then htree h' = htree demo_host
      else exists n bytes content new_content,
        htree demo_host !! disk_path (lit "/ws/a.txt") = Some n /\ node_bytes n = Some bytes /\ from_utf8 bytes = Some content /\
        edit_did Exact (lit "lph") (lit "-") content new_content /\
        htree h' !! disk_path (lit "/ws/a.txt") = Some (BinaryFile (utf8 new_content)) /\
        forall q', q' <> disk_path (lit "/ws/a.txt") -> htree h' !! q' = htree demo_host !! q'
  | (inr _, h') => untouched demo_host h' (disk_path (lit "/ws/a.txt"))
  end.
Proof.
  apply (edit_replaces_the_match_or_nothing clock Exact (lit "a.txt") (lit "lph") (lit "-") (lit "/ws/a.txt") demo_host).
  apply not_staging. by vm_compute.
Defined.

Definition demo_read : Value := args_of [(lit "path", lit "a.txt")].
Lemma read_file_answers_the_page_witness :
  exists kept extra h', loaded_head (lit "alpha") kept /\
    read_file 4096 demo_read demo_host = Ret (inl (result_ok (page kept 5 (N.min 5 READ_FILE_MAX_BYTES) 0
      (clamp_limit READ_FILE_DEFAULT_LIMIT) (READ_FILE_MAX_BYTES <? 5)%N ++ extra)), h') /\
    (window_start kept 0 <> 0%N -> extra = []).
Proof.
  apply (proj2 (read_file_answers_the_page 4096 demo_read demo_host) (lit "a.txt") 0%N READ_FILE_DEFAULT_LIMIT (lit "/ws/a.txt")
    (snd (resolve_safe_path (lit "a.txt") TOOL_READ_FILE demo_host)) (TextFile (lit "alpha")) (lit "alpha"));
    [vm_compute; reflexivity..|done|vm_compute; reflexivity|vm_compute; reflexivity|by repeat constructor].
Defined.

Definition demo_write : Value := args_of [(lit "path", lit "src/b.rs"); (lit "content", lit "fn")].
Lemma written_file_reads_back_witness :
  let '(r, h') := write_file clock demo_write demo_host in
  match r with
  | inl r => r = result_ok (lit "wrote " ++ dec (blen (lit "fn")) ++ lit " bytes to " ++ lit "src/b.rs") /\
      exists read bytes over kept h'', load_file 4096 (lit "/ws/src/b.rs") h' = Ret (Some (read, bytes, over, kept), h'') /\
        loaded_head (lit "fn") kept /\ read = N.of_nat (blen (lit "fn"))
  | inr e => htree h' !! disk_path (lit "/ws/src/b.rs")
      = htree (snd (resolve_safe_path (lit "src/b.rs") TOOL_WRITE_FILE demo_host)) !! disk_path (lit "/ws/src/b.rs")
  end.
Proof.
  apply (written_file_reads_back clock 4096 demo_write (lit "src/b.rs") (lit "fn") (lit "/ws/src/b.rs") demo_host
    (snd (resolve_safe_path (lit "src/b.rs") TOOL_WRITE_FILE demo_host)));
    [vm_compute; reflexivity..| |done|by repeat constructor].
  apply not_staging. by vm_compute.
Defined.
