(* ===== verification/ReplaceLock.v ===== *)
(** * Concurrent edits ([replace_path_lock] of [src/harness/fs.rs])

    Calls of [replace] run at the same time, each holding the lock of its
    path's shard from before it reads the file until after it has written it.
    A call is here its resolved path and what its arguments make of a text;
    reading, writing and releasing are separate steps, interleaved in any way. *)

From S2P Require Import Prelude Str PathGate.
Local Open Scope nat_scope.

(** A call's path, and the text it makes of the one it reads, if its count of
    matches is right. *)
Record Call := { call_path : str; call_edit : str -> option str }.
Inductive Pc := Waiting | Locked | Read (base : option str) | Written | Finished.

Record World := { files : gmap str str; held : N -> option nat; pcs : list Pc }.
Notation shard c := (lock_shard_for (call_path c)).
Definition set_held (w : World) (s : N) (o : option nat) : N -> option nat := fun s' => if decide (s' = s) then o else held w s'.
Definition at_pc (w : World) (i : nat) (pc : Pc) : list Pc := <[i := pc]> (pcs w).

Section calls.
Context (calls : list Call).

(** The steps of call [i]; a step that writes is labelled with it. *)
Inductive step (w : World) : option Call -> World -> Prop :=
  | step_lock i c : calls !! i = Some c -> pcs w !! i = Some Waiting -> held w (shard c) = None ->
      step w None {| files := files w; held := set_held w (shard c) (Some i); pcs := at_pc w i Locked |}
  | step_read i c : calls !! i = Some c -> pcs w !! i = Some Locked ->
      step w None {| files := files w; held := held w; pcs := at_pc w i (Read (files w !! call_path c)) |}
  | step_write i c base new : calls !! i = Some c -> pcs w !! i = Some (Read (Some base)) -> call_edit c base = Some new ->
      step w (Some c) {| files := <[call_path c := new]> (files w); held := held w; pcs := at_pc w i Written |}
  | step_refuse i c base : calls !! i = Some c -> pcs w !! i = Some (Read base) -> base ≫= call_edit c = None ->
      step w None {| files := files w; held := held w; pcs := at_pc w i Written |}
  | step_release i c : calls !! i = Some c -> pcs w !! i = Some Written ->
      step w None {| files := files w; held := set_held w (shard c) None; pcs := at_pc w i Finished |}.

(** Runs, with the calls that wrote in the order they wrote. *)
Inductive run (w : World) : list Call -> World -> Prop :=
  | run_nil : run w [] w
  | run_snoc log w1 l w2 : run w log w1 -> step w1 l w2 ->
      run w (log ++ match l with Some c => [c] | None => [] end) w2.

Definition start (fs : gmap str str) : World := {| files := fs; held := fun _ => None; pcs := replicate (length calls) Waiting |}.

(** ** The reference: calls one at a time *)

Definition apply_call (fs : gmap str str) (c : Call) : gmap str str :=
  match fs !! call_path c ≫= call_edit c with Some new => <[call_path c := new]> fs | None => fs end.
Definition one_at_a_time (fs : gmap str str) (log : list Call) : gmap str str := fold_left apply_call log fs.

(** ** The invariant *)

Definition holds (pc : Pc) : Prop := match pc with Locked | Read _ | Written => True | _ => False end.
(** A call that is between its lock and its release holds its shard, and what
    it has read is what the file holds. *)
Definition serial (w : World) : Prop :=
  forall i c pc, calls !! i = Some c -> pcs w !! i = Some pc ->
    (holds pc -> held w (shard c) = Some i) /\
    (forall base, pc = Read base -> files w !! call_path c = base).
(** A shard that is held is held by a call that will release it. *)
Definition owned (w : World) : Prop :=
  forall s i, held w s = Some i -> exists c pc, calls !! i = Some c /\ shard c = s /\ pcs w !! i = Some pc /\ holds pc.

Lemma at_pc_lookup w i pc j pc' : at_pc w i pc !! j = Some pc' ->
  (j = i /\ pc' = pc) \/ (j <> i /\ pcs w !! j = Some pc').
Proof.
  unfold at_pc. destruct (decide (j = i)) as [->|Hne].
  - intros Hj%list_lookup_insert_Some. left. naive_solver.
  - rewrite list_lookup_insert_ne by done. by right.
Qed.
Lemma set_held_same w s o : set_held w s o s = o.
Proof. unfold set_held. by rewrite decide_True. Qed.
Lemma set_held_other w s o s' : s' <> s -> set_held w s o s' = held w s'.
Proof. unfold set_held. intros Hs. by rewrite decide_False. Qed.

Lemma serial_step w l w2 : serial w -> step w l w2 -> serial w2.
Proof.
  intros Hw Hs j d pc Hd. destruct Hs as [i c Hc Hi Hfree|i c Hc Hi|i c base new Hc Hi He|i c base Hc Hi He|i c Hc Hi];
    cbn [files held pcs]; intros Hj; apply at_pc_lookup in Hj as [[-> ->]|[Hne Hj]];
    try (assert (d = c) as -> by congruence); try destruct (Hw j d pc Hd Hj) as [Hh Hb].
  - split; [by rewrite set_held_same|done].
  - split; [|exact Hb]. intros Hp. rewrite set_held_other; [by apply Hh|]. intros E. rewrite <-E in Hfree. by rewrite Hh in Hfree.
  - destruct (Hw i c Locked Hc Hi) as [Hh _]. split; [by intros _; apply Hh|]. by intros base [= <-].
  - by split.
  - destruct (Hw i c _ Hc Hi) as [Hh _]. split; [by intros _; apply Hh|done].
  - split; [exact Hh|]. intros b ->. rewrite lookup_insert_ne; [by apply Hb|]. intros E.
    destruct (Hw i c _ Hc Hi) as [Hh' _]. rewrite E in Hh'. rewrite Hh in Hh' by done. specialize (Hh' I). congruence.
  - destruct (Hw i c _ Hc Hi) as [Hh _]. split; [by intros _; apply Hh|done].
  - by split.
  - by split.
  - split; [|exact Hb]. intros Hp. rewrite set_held_other; [by apply Hh|]. intros E.
    destruct (Hw i c _ Hc Hi) as [Hh' _]. rewrite <-E, Hh in Hh' by done. specialize (Hh' I). congruence.
Qed.

Lemma owned_keeps w i c pc w2 : owned w -> calls !! i = Some c ->
  holds pc -> held w2 = held w -> pcs w2 = at_pc w i pc -> is_Some (pcs w !! i) -> owned w2.
Proof.
  intros Ho Hc Hp Hh Hpc [old Hi] s j Hs. rewrite Hh in Hs. destruct (Ho s j Hs) as (d & pc' & Hd & Hsd & Hj & Hpd).
  rewrite Hpc. destruct (decide (j = i)) as [->|Hne].
  - exists d, pc. split_and!; [done|done| |done]. unfold at_pc. apply list_lookup_insert_eq. by apply lookup_lt_Some in Hi.
  - exists d, pc'. split_and!; [done|done| |done]. unfold at_pc. by rewrite list_lookup_insert_ne.
Qed.
Lemma owned_step w l w2 : serial w -> owned w -> step w l w2 -> owned w2.
Proof.
  intros Hw Ho Hs. destruct Hs as [i c Hc Hi Hfree|i c Hc Hi|i c base new Hc Hi He|i c base Hc Hi He|i c Hc Hi];
    [|by eapply owned_keeps; eauto..|]; intros s j; cbn [held pcs]; unfold set_held; case_decide as Hs; try done.
  - intros [= <-]. exists c, Locked. split_and!; [done|done| |done]. unfold at_pc. apply list_lookup_insert_eq. by apply lookup_lt_Some in Hi.
  - intros (d & pc & Hd & Hsd & Hj & Hp)%Ho. exists d, pc. split_and!; [done|done| |done].
    unfold at_pc. rewrite list_lookup_insert_ne; [done|]. intros <-. rewrite Hi in Hj. by simplify_eq.
  - intros (d & pc & Hd & Hsd & Hj & Hp)%Ho. exists d, pc. split_and!; [done|done| |done].
    unfold at_pc. rewrite list_lookup_insert_ne; [done|]. intros <-. congruence.
Qed.
Lemma pcs_step w l w2 : step w l w2 -> length (pcs w2) = length (pcs w).
Proof. destruct 1; apply length_insert. Qed.

Lemma start_serial fs : serial (start fs).
Proof. intros i c pc _ Hi. apply lookup_replicate in Hi as [-> _]. by split. Qed.
Lemma start_owned fs : owned (start fs).
Proof. by intros s i Hs. Qed.
Lemma run_invariant fs log w : run (start fs) log w -> serial w /\ owned w /\ length (pcs w) = length calls.
Proof.
  induction 1 as [|log w1 l w2 _ (Hs & Ho & Hl) Hstep].
  - split; [apply start_serial|]. split; [apply start_owned|]. apply length_replicate.
  - split; [by eapply serial_step|]. split; [by eapply owned_step|]. by rewrite (pcs_step _ _ _ Hstep).
Qed.

(** C17: however the calls interleave, the files hold what the calls that wrote
    make of them one after the other, each applied to what the one before left:
    no edit is made to a text that another call has replaced since. *)
Theorem concurrent_edits_lose_none fs log w : run (start fs) log w -> files w = one_at_a_time fs log.
Proof.
  induction 1 as [|log w1 l w2 Hrun IH Hstep]; [done|].
  destruct (run_invariant fs log w1 Hrun) as (Hs & _ & _). unfold one_at_a_time in *. rewrite fold_left_app, <-IH.
  destruct Hstep as [| |i c base new Hc Hi He| |]; try done. cbn [fold_left files]. unfold apply_call.
  destruct (Hs i c _ Hc Hi) as [_ Hb]. rewrite (Hb _ eq_refl). cbn [mbind option_bind]. by rewrite He.
Qed.

(** ** Progress *)

Definition steps_left (pc : Pc) : nat :=
  match pc with Waiting => 4 | Locked => 3 | Read _ => 2 | Written => 1 | Finished => 0 end.
Definition work_left (w : World) : nat := sum_with steps_left (pcs w).

Lemma step_work w l w2 : step w l w2 -> work_left w = S (work_left w2).
Proof.
  unfold work_left. destruct 1 as [i c Hc Hi|i c Hc Hi|i c base new Hc Hi|i c base Hc Hi|i c Hc Hi];
    cbn [pcs]; unfold at_pc;
    match goal with |- context [<[i := ?pc]> _] => pose proof (sum_with_insert steps_left (pcs w) i _ pc Hi) as Hsum end;
    cbn [steps_left] in Hsum; lia.
Qed.

(** A call that holds its shard can go on. *)
Lemma holder_steps w i c pc : calls !! i = Some c -> pcs w !! i = Some pc -> holds pc -> exists l w2, step w l w2.
Proof.
  intros Hc Hi. destruct pc as [| |base| |]; try done; intros _.
  - eexists _, _. by eapply step_read.
  - destruct base as [b|]; [destruct (call_edit c b) as [new|] eqn:E|].
    + eexists _, _. by eapply step_write.
    + eexists _, _. eapply step_refuse; [done|done|]. exact E.
    + eexists _, _. by eapply step_refuse.
  - eexists _, _. by eapply step_release.
Qed.
Lemma unfinished_steps w : owned w -> length (pcs w) = length calls -> work_left w <> 0 -> exists l w2, step w l w2.
Proof.
  intros Ho Hl Hw. assert (Hex : exists i pc, pcs w !! i = Some pc /\ steps_left pc <> 0).
  { unfold work_left in Hw. clear -Hw. induction (pcs w) as [|pc l IH]; [done|]. cbn [sum_with] in Hw.
    destruct (decide (steps_left pc = 0)); [|by exists 0, pc]. destruct IH as (i & pc' & Hi & Hn); [lia|]. by exists (S i), pc'. }
  destruct Hex as (i & pc & Hi & Hn). destruct (lookup_lt_is_Some_2 calls i) as [c Hc].
  { rewrite <-Hl. by apply lookup_lt_Some in Hi. }
  destruct pc; try done; [|by eapply holder_steps..].
  destruct (held w (shard c)) as [j|] eqn:Eh; [|eexists _, _; by eapply step_lock].
  destruct (Ho _ j Eh) as (d & pc & Hd & _ & Hj & Hp). by eapply holder_steps.
Qed.

Lemma run_trans w log w1 log1 w2 : run w log w1 -> run w1 log1 w2 -> run w (log ++ log1) w2.
Proof.
  intros Hrun. induction 1 as [|log1 w2 l w3 _ IH Hstep]; [by rewrite app_nil_r|]. rewrite app_assoc. by eapply run_snoc.
Qed.

(** The locks cannot block for ever: from every state the calls can reach,
    some order of the steps that remain, four for each call at most, finishes
    all of them. *)
Theorem every_edit_can_finish fs log w : run (start fs) log w ->
  work_left w <= 4 * length calls /\
  exists log' w', run w log' w' /\ Forall (fun pc => pc = Finished) (pcs w').
Proof.
  intros Hrun. split.
  { destruct (run_invariant fs log w Hrun) as (_ & _ & <-). unfold work_left. clear.
    induction (pcs w) as [|pc l IH]; [done|]. cbn [sum_with length]. assert (steps_left pc <= 4) by (destruct pc; simpl; lia). lia. }
  assert (Hgo : forall n log1 w1, run w log1 w1 -> work_left w1 = n ->
    exists log' w', run w log' w' /\ Forall (fun pc => pc = Finished) (pcs w')); [|by eapply Hgo; [apply run_nil|]].
  intros n. induction n as [|n IH]; intros log1 w1 Hrun1 En.
  - exists log1, w1. split; [done|]. unfold work_left in En. clear -En.
    induction (pcs w1) as [|pc l IH]; [done|]. cbn [sum_with] in En. constructor; [destruct pc; simpl in En; (done || lia)|apply IH; lia].
  - destruct (run_invariant fs _ w1 (run_trans _ _ _ _ _ Hrun Hrun1)) as (_ & Ho & Hl).
    destruct (unfinished_steps w1 Ho Hl) as (l & w2 & Hstep); [lia|].
    eapply IH; [by eapply run_snoc|]. apply step_work in Hstep. lia.
Qed.
End calls.

(** ** Two edits of one file *)

Definition append_text (t : str) (base : str) : option str := Some (base ++ t).
Definition call1 : Call := {| call_path := lit "/ws/a.txt"; call_edit := append_text (lit "1") |}.
Definition call2 : Call := {| call_path := lit "/ws/a.txt"; call_edit := append_text (lit "2") |}.
Definition two_calls : list Call := [call1; call2].
Definition before : gmap str str := {[ lit "/ws/a.txt" := lit "x" ]}.
Definition w_locked : World :=
  let w := start two_calls before in {| files := files w; held := set_held w (shard call1) (Some 0); pcs := at_pc w 0 Locked |}.
Definition w_read : World :=
  {| files := files w_locked; held := held w_locked; pcs := at_pc w_locked 0 (Read (files w_locked !! call_path call1)) |}.
Definition w_wrote : World :=
  {| files := <[call_path call1 := lit "x1"]> (files w_read); held := held w_read; pcs := at_pc w_read 0 Written |}.
Lemma first_writes : run two_calls (start two_calls before) [call1] w_wrote.
Proof.
  apply (run_snoc _ _ [] w_read (Some call1) w_wrote); [apply (run_snoc _ _ [] w_locked None w_read); [apply (run_snoc _ _ [] (start two_calls before) None w_locked)|]|].
  - apply run_nil.
  - by apply (step_lock two_calls (start two_calls before) 0 call1).
  - by apply (step_read two_calls w_locked 0 call1).
  - by apply (step_write two_calls w_read 0 call1 (lit "x") (lit "x1")).
Defined.
Lemma concurrent_edits_lose_none_witness : files w_wrote = one_at_a_time before [call1].
Proof. apply (concurrent_edits_lose_none two_calls before [call1] w_wrote first_writes). Defined.
Lemma every_edit_can_finish_witness :
  work_left w_wrote <= 4 * length two_calls /\
  exists log' w', run two_calls w_wrote log' w' /\ Forall (fun pc => pc = Finished) (pcs w').
Proof. apply (every_edit_can_finish two_calls before [call1] w_wrote first_writes). Defined.
