(* ===== verification/Verdict.v ===== *)
(** * Verdicts of the validator ([src/agents/validation.rs], [src/agents/prompt_builder.rs])

    How the arguments of a verdict call are read, and what the files of a task
    say before a validator is asked: its brief and the record that it needs no
    validation.  What reading a file of the prompts directory ends with is an
    argument. *)

From S2P Require Import Prelude Str TaskId Markers Json.

(** ** The arguments of a verdict *)

Section verdict.
Context `{Numbers}.
Implicit Types args : Value.

Definition NO_EXPLICIT_APPROVAL_REASON : str := lit "No explicit verdict recorded: the verdict file does not record an explicit approval, so the deliverable is treated as not approved.".

Definition VERDICT_NAMES : list str := [lit "verdict"; lit "status"; lit "decision"; lit "result"; lit "assessment"].
Definition APPROVED_NAMES : list str := [lit "verdict"; lit "approved"; lit "is_approved"].
Definition COMMENT_NAMES : list str :=
  [lit "comments"; lit "comment"; lit "feedback"; lit "reason"; lit "critique"; lit "details"; lit "explanation"; lit "message"; lit "summary"].
Definition APPROVAL_WORDS : list str :=
  [lit "APPROVED"; lit "APPROVE"; lit "PASS"; lit "PASSED"; lit "ACCEPTED"; lit "ACCEPT"; lit "SUCCESS"; lit "OK"].
Definition APPROVAL_CUES : list str := [lit "APPROV"; lit "PASS"; lit "LGTM"].

Definition quoting (c : char) : bool := (c =? 39)%N || (c =? 34)%N || (c =? ch "`")%N || (c =? ch ".")%N.
Definition verdict_of_word (s : str) : option bool :=
  if existsb (eq_ignore_ascii_case s) APPROVAL_WORDS then Some true
  else if is_failure_verdict_word s then Some false else None.
Definition as_bool (v : Value) : option bool := match v with VBool b => Some b | _ => None end.
(** The verdict the fields record, if they do. *)
Definition approved_opt args : option bool :=
  match first_present args VERDICT_NAMES with
  | Some v => verdict_of_word (trim_matches quoting (trim v))
  | None => find_map (value_get args) APPROVED_NAMES ≫= as_bool
  end.
Definition comments args : str := trim (default [] (first_present args COMMENT_NAMES)).
Definition has_approval_cue (upper : str) : bool := existsb (fun cue => contains cue upper) APPROVAL_CUES.

Definition critique_of (recorded : option bool) (approved : bool) (said upper : str) : str :=
  if bool_decide (recorded = None) && negb (has_failure_verdict_cue upper || has_approval_cue upper) then
    if is_empty said then NO_EXPLICIT_APPROVAL_REASON else said ++ [NL; NL] ++ NO_EXPLICIT_APPROVAL_REASON
  else if negb (is_empty said) then said
  else if approved then lit "Deliverable verified and approved."
  else lit "Deliverable rejected by validator without detailed comments.".
Definition parse_verdict_args args : option (bool * str) :=
  let recorded := approved_opt args in
  let said := comments args in
  let upper := to_ascii_uppercase said in
  let approved := match recorded with
                  | Some b => b
                  | None => negb (has_failure_verdict_cue upper) && has_approval_cue upper
                  end in
  Some (approved, critique_of recorded approved said upper).
End verdict.

(** ** The files of a task *)

(** What [read_to_string] ends with. *)
Inductive ReadEnd := ReadNotFound | ReadFailed | ReadText (text : str).

Inductive ValidationBrief :=
  | InvalidTaskId (error : TaskIdError)
  | Absent (file : str)
  | Blank (file : str)
  | Unreadable (file : str)
  | Present (file text : str).
Definition brief_file (b : ValidationBrief) : option str :=
  match b with InvalidTaskId _ => None | Absent f | Blank f | Unreadable f | Present f _ => Some f end.
Definition is_absent (b : ValidationBrief) : bool := match b with Absent _ => true | _ => false end.

Definition VALIDATION_SKIP_FILE_SUFFIX : str := lit "-validation-skip.md".
Section files.
(** The files of the prompts directory, by their names. *)
Variable read : str -> ReadEnd.

Definition probe_validation_brief (raw_task_id : str) : ValidationBrief :=
  match validate_task_id (normalize_task_id_ref raw_task_id) with
  | inr error => InvalidTaskId error
  | inl id =>
      let file := id ++ lit "-validation.md" in
      match read file with
      | ReadNotFound => Absent file
      | ReadFailed => Unreadable file
      | ReadText text => if is_empty (trim text) then Blank file else Present file text
      end
  end.
Definition validation_brief_absent (raw_task_id : str) : bool := is_absent (probe_validation_brief raw_task_id).

Definition validation_skip_file_name (raw_task_id : str) : str + TaskIdError :=
  match validate_task_id raw_task_id with inl id => inl (id ++ VALIDATION_SKIP_FILE_SUFFIX) | inr e => inr e end.
Definition validation_skip_record (raw_task_id : str) : option str :=
  match validation_skip_file_name raw_task_id with
  | inl name =>
      match read name with
      | ReadText text => if is_empty (trim text) then None else Some (trim text)
      | _ => None
      end
  | inr _ => None
  end.
Definition validation_skip_record_for_task (task_id : option str) : option str :=
  raw ← task_id; validation_skip_record (normalize_task_id_ref raw).

(** ** What is known before a validator is asked *)

(** What a pass says: a text, or the reasons it gives for a task it refuses. *)
Inductive Critique := Said (text : str) | RejectedTaskId (raw : str) (error : TaskIdError) | NoVerdictFile (file : str).
(** A pass is over before it began, or a validator is asked with the prompt of
    the task, or of its role. *)
Inductive Opening := Answered (approved : bool) (critique : Critique) | AsksWith (custom_prompt : option str).

Definition SKIPPED_BY_DESIGN : str := lit "Validation skipped by design: ".
Definition opening (prompts_dir_is_dir : bool) (task_id : option str) : Opening :=
  let brief := probe_validation_brief <$> task_id in
  match task_id, brief with
  | Some raw, Some (InvalidTaskId error) => Answered false (RejectedTaskId raw error)
  | _, Some (Present _ text) => AsksWith (Some text)
  | _, _ =>
      if prompts_dir_is_dir then
        let skip := if match brief with Some b => is_absent b | None => false end
                    then validation_skip_record_for_task task_id else None in
        match skip with
        | Some reason => Answered true (Said (SKIPPED_BY_DESIGN ++ reason))
        | None => Answered false (NoVerdictFile (default (lit "<task-id>-validation.md") (brief ≫= brief_file)))
        end
      else AsksWith None
  end.
End files.
