(* ===== verification/FixLoop.v ===== *)
(** * The fix loop of a validator ([src/agents/runner/fix_loop.rs])

    One run asks an auditor turn after turn until it records a verdict, is
    cancelled or runs out of its bounds.  A run is a function of what the
    system answers to each of its rounds: the clock, the cancellations, the
    notices that arrived, the model's stream and the ends of the tool calls. *)

From Stdlib Require Import Floats.SpecFloat.
From S2P Require Import Prelude Str Decimal ToolNames Agents Wire Json CallArguments Repetition Monitor Context Notice Registry Journal Retry Thinking XmlRescue Client Stream Verdict.
Local Open Scope nat_scope.

(** ** Wall-clock bounds ([src/manager/loop.rs]), in nanoseconds *)

Inductive DeadlineKind := Stalled | HardCap.
#[export] Instance DeadlineKind_eq_dec : EqDecision DeadlineKind.
Proof. solve_decision. Defined.
Definition TURN_WATCHDOG_SECS : N := 600.
Definition NANOS : N := 1000000000.
Definition from_secs (n : N) : N := n * NANOS.
Definition as_secs (d : N) : N := d / NANOS.
Definition describe (kind : DeadlineKind) (idle_limit hard_limit : N) : str :=
  match kind with
  | Stalled =>
      lit "turn watchdog: no progress for " ++ decN (as_secs idle_limit) ++ lit "s (limit " ++ decN (as_secs idle_limit)
      ++ lit "s) " ++ EM_DASH ++ lit " turn aborted and in-flight work cancelled"
  | HardCap =>
      lit "turn deadline: this turn exceeded its " ++ decN (as_secs hard_limit) ++ lit "s wall-clock bound "
      ++ EM_DASH ++ lit " turn aborted and in-flight work cancelled"
  end.

Record TurnWatchdog := { started : N; last_progress : N; idle_limit : N; hard_limit : N }.
Definition watchdog_at (start idle_limit hard_limit : N) : TurnWatchdog :=
  {| started := start; last_progress := start; idle_limit := idle_limit; hard_limit := hard_limit |}.
Definition rearm_at (now : N) (w : TurnWatchdog) : TurnWatchdog :=
  {| started := now; last_progress := now; idle_limit := idle_limit w; hard_limit := hard_limit w |}.
Definition note_progress_at (now : N) (w : TurnWatchdog) : TurnWatchdog :=
  if (last_progress w <? now)%N
  then {| started := started w; last_progress := now; idle_limit := idle_limit w; hard_limit := hard_limit w |} else w.
(** [saturating_duration_since] *)
Definition elapsed_at (now : N) (w : TurnWatchdog) : N := now - started w.
Definition idle_at (now : N) (w : TurnWatchdog) : N := now - last_progress w.
Definition expired_at (now : N) (w : TurnWatchdog) : option DeadlineKind :=
  if (hard_limit w <=? elapsed_at now w)%N then Some HardCap
  else if (idle_limit w <=? idle_at now w)%N then Some Stalled else None.
Definition time_to_hard_limit_at (now : N) (w : TurnWatchdog) : N := hard_limit w - elapsed_at now w.
Definition time_to_idle_limit_at (now : N) (w : TurnWatchdog) : N := idle_limit w - idle_at now w.

(** ** The bounds of a run *)

Definition MAX_FIX_LOOP_ROUNDS : nat := 200.
Definition VERDICT_REMINDERS : nat := 3.
Definition TOOL_ERROR_PREFIX : str := lit "ERROR: ".
Definition FIX_LOOP_IDLE_LIMIT_SECS : N := TURN_WATCHDOG_SECS.
Definition FIX_LOOP_HARD_CAP_SECS : N := 30 * 60.

Record FixLoopBounds := { watchdog : TurnWatchdog; max_rounds : nat; run_idle_limit : N; run_hard_limit : N }.
Definition bounds_at (now : N) (max_rounds : nat) (idle_limit hard_limit : N) : FixLoopBounds :=
  {| watchdog := watchdog_at now idle_limit hard_limit; max_rounds := max_rounds; run_idle_limit := idle_limit; run_hard_limit := hard_limit |}.
Definition new_bounds (now : N) (max_rounds : nat) : FixLoopBounds :=
  bounds_at now max_rounds (from_secs FIX_LOOP_IDLE_LIMIT_SECS) (from_secs FIX_LOOP_HARD_CAP_SECS).
Definition default_bounds (now : N) : FixLoopBounds := new_bounds now MAX_FIX_LOOP_ROUNDS.
Definition round_cap_reached (round : nat) (b : FixLoopBounds) : bool := max_rounds b <? round.
Definition deadline_expired_at (now : N) (b : FixLoopBounds) : option DeadlineKind := expired_at now (watchdog b).
Definition note_round_progress_at (now : N) (b : FixLoopBounds) : FixLoopBounds :=
  {| watchdog := note_progress_at now (watchdog b); max_rounds := max_rounds b; run_idle_limit := run_idle_limit b; run_hard_limit := run_hard_limit b |}.
Definition round_cap_reason (b : FixLoopBounds) : str :=
  lit "fix-loop iteration cap: this validation run exceeded its " ++ dec (max_rounds b)
  ++ lit " rounds without recording a verdict " ++ EM_DASH ++ lit " run aborted and reported as not approved".
Definition deadline_reason (kind : DeadlineKind) (b : FixLoopBounds) : str :=
  describe kind (run_idle_limit b) (run_hard_limit b) ++ lit " " ++ EM_DASH
  ++ lit " no verdict was recorded and the deliverable is reported as not approved".

(** The rounds a validation may take: of the audited role, of the validator,
    or of the program. *)
Definition configured_rounds (agent_rounds validator_rounds cfg_rounds : option nat) : nat :=
  default MAX_FIX_LOOP_ROUNDS (or_else agent_rounds (or_else validator_rounds cfg_rounds)).

(** ** The tools of a run *)

Definition VERDICT_RECORDING_TOOLS : list str := [TOOL_LEAVE_VERDICT; TERMINAL_LEAVE_VERDICT].
Definition verdict_recording_tool_spellings : list str := tool_spellings_for TOOL_LEAVE_VERDICT.
Definition ALWAYS_ADVERTISED_TOOLS : list str := [TOOL_REPLY_TO_ARBITRATOR].
Definition INSPECTION_TOOLS : list str :=
  [TOOL_READ_FILE; TOOL_GREP_SEARCH; TOOL_GLOB; TERMINAL_READ_FILE; TERMINAL_GREP_SEARCH; TERMINAL_GLOB; TOOL_PTY_SPAWN;
   TOOL_PTY_WRITE; TOOL_PTY_READ; TOOL_PTY_CLOSE; TOOL_PTY_LIST; TOOL_REBIRTH; TOOL_SLEEP].
Definition MUTATING_TOOLS : list str :=
  [TOOL_WRITE_FILE; TOOL_REPLACE; TOOL_RUN_COMMAND; TERMINAL_WRITE_FILE; TERMINAL_REPLACE; TERMINAL_RUN_COMMAND].
Inductive BlueprintToolClass := AlwaysAdvertised | Inspection | Mutating | VerdictClass | Other.
#[export] Instance BlueprintToolClass_eq_dec : EqDecision BlueprintToolClass.
Proof. solve_decision. Defined.

Definition normalize_tool_name (name : str) : str := default name (normalize_tool_alias name).
Definition is_verdict_recording_tool (name : str) : bool := is_leave_verdict_tool_name name.
Definition blueprint_tool_class (name : str) : BlueprintToolClass :=
  if is_verdict_recording_tool name then VerdictClass
  else if str_mem name ALWAYS_ADVERTISED_TOOLS then AlwaysAdvertised
  else if str_mem (normalize_tool_name name) INSPECTION_TOOLS || str_mem name INSPECTION_TOOLS then Inspection
  else if str_mem (normalize_tool_name name) MUTATING_TOOLS || str_mem name MUTATING_TOOLS then Mutating
  else Other.

Definition is_manager (c : ToolCaller) : bool := match c with Manager => true | _ => false end.
(** What a caller may be told of: a pause tool only as the manager, a verdict
    tool only with the authority to record one. *)
Definition may_see (caller : ToolCaller) (name : str) : bool :=
  (is_manager caller || negb (str_mem name [TOOL_PAUSE_SUBAGENT; TOOL_RESUME_SUBAGENT]))
  && (caller_may_record_verdict caller || negb (is_verdict_recording_tool name)).
Definition role_filtered_blueprint (caller : ToolCaller) (allowed_tools : list str) : list str :=
  List.filter (may_see caller) allowed_tools.
Definition tool_name {V} (t : ToolDef V) : str := def_name (def_function t).
Definition advertised_tools_for_caller {V} (tools : list (ToolDef V)) (caller : ToolCaller) : list (ToolDef V) :=
  List.filter (fun t => may_see caller (tool_name t)) tools.
(** [default_tools] are the schemas of the program, [mcp] those of the servers. *)
Definition assemble_tools {V} (default_tools : list (ToolDef V)) (allowed_tools : option (list str)) (entry_allows : str -> bool)
    (mcp : list (ToolDef V)) : list (ToolDef V) :=
  List.filter (fun tool =>
    let name := tool_name tool in
    match blueprint_tool_class name with
    | AlwaysAdvertised => true
    | VerdictClass => entry_allows name
    | _ => match allowed_tools with
           | Some allowed => existsb (fun t => str_eqb (normalize_tool_name t) name || str_eqb t name) allowed
           | None => entry_allows name
           end
    end) default_tools ++ mcp.
Definition assemble_tools_for_caller {V} (default_tools : list (ToolDef V)) (caller : ToolCaller) (entry_allows : str -> bool)
    (mcp : list (ToolDef V)) : list (ToolDef V) :=
  assemble_tools default_tools (role_filtered_blueprint caller <$> allowed_tools caller) entry_allows mcp.

Definition verdict_role_rejection (caller : ToolCaller) (tool : str) : str :=
  lit "VERDICT REJECTED " ++ EM_DASH ++ lit " tool `" ++ tool ++ lit "` is forbidden for caller `" ++ role_name caller
  ++ lit "` by orchestration policy. Only the " ++ Agents.as_str Validator ++ lit " role may record a validation verdict: "
  ++ role_name caller ++ lit " cannot approve or reject its own deliverable. No verdict was recorded and no verdict file was touched "
  ++ EM_DASH ++ lit " the deliverable must still pass the automated validator.".
(** ** The state of a run *)

Section run.
Context `{Unicode} `{ChunkJson} `{JsonText} `{Tokens} `{Uuids} `{Tokenizer} `{JsonPrinter} {K : Type} `{StreamSink K}.

(** The engine with its mirror, and what else a run holds: the monitor, the
    detector its streams share, the bounds, the counts of reminders and of
    rounds with malformed calls, the registry of workers and the world of the
    model's calls. *)
Record LoopState := {
  engine : ContextEngine;
  journal : option WorkerJournal;
  monitor : HarnessMonitor;
  detector : RepetitionDetector;
  bounds : FixLoopBounds;
  nudges : nat;
  malformed : nat;
  registry : Registry;
  world : Stream.World (K := K)
}.
Definition on_history (e : ContextEngine * option WorkerJournal) (s : LoopState) : LoopState :=
  {| engine := fst e; journal := snd e; monitor := monitor s; detector := detector s; bounds := bounds s; nudges := nudges s;
     malformed := malformed s; registry := registry s; world := world s |}.
Definition with_monitor (m : HarnessMonitor) (s : LoopState) : LoopState :=
  {| engine := engine s; journal := journal s; monitor := m; detector := detector s; bounds := bounds s; nudges := nudges s;
     malformed := malformed s; registry := registry s; world := world s |}.
Definition with_stream (d : RepetitionDetector) (w : Stream.World (K := K)) (s : LoopState) : LoopState :=
  {| engine := engine s; journal := journal s; monitor := monitor s; detector := d; bounds := bounds s; nudges := nudges s;
     malformed := malformed s; registry := registry s; world := w |}.
Definition with_bounds (b : FixLoopBounds) (s : LoopState) : LoopState :=
  {| engine := engine s; journal := journal s; monitor := monitor s; detector := detector s; bounds := b; nudges := nudges s;
     malformed := malformed s; registry := registry s; world := world s |}.
Definition with_counts (n m : nat) (s : LoopState) : LoopState :=
  {| engine := engine s; journal := journal s; monitor := monitor s; detector := detector s; bounds := bounds s; nudges := n;
     malformed := m; registry := registry s; world := world s |}.
Definition with_registry (r : Registry) (s : LoopState) : LoopState :=
  {| engine := engine s; journal := journal s; monitor := monitor s; detector := detector s; bounds := bounds s; nudges := nudges s;
     malformed := malformed s; registry := r; world := world s |}.

(** What the system answers to a call of a tool, and to a round. *)
Record CallScript := {
  cancelled_before : bool;
  cancelled_at_dispatch : bool;
  dispatched : ToolCaller -> str -> Json.Value -> ContextEngine -> (str + str) * ContextEngine;
  call_stamp : Now
}.
Record Round := {
  clock : N;
  cancelled_at_start : bool;
  notices_at_start : list SteerNotice;
  round_stamp : Now;
  round_sink : K;
  cancelled_on_error : bool;
  cancelled_after : bool;
  read_prompts : str -> ReadEnd;
  calls : nat -> CallScript;
  notices_mid_turn : list SteerNotice;
  clock_after : N
}.

Record LoopParams := {
  p_model : str;
  p_tag : str;
  p_task_id : option str;
  p_worker_key : str;
  p_tools : list (ToolDef Context.Value);
  p_temperature : spec_float;
  p_top_p : spec_float;
  p_presence_penalty : spec_float;
  p_frequency_penalty : spec_float;
  p_enable_xml_rescue : bool;
  p_max_stream_tokens : N;
  p_max_thinking_tokens : N;
  p_repetition_threshold : nat;
  p_min_pattern_len : nat;
  p_rebirth_notice : str;
  p_reasoning_effort : option str
}.

Definition build_turn_request (p : LoopParams) (tools : list (ToolDef Context.Value)) (e : ContextEngine)
    : ChatRequest (list (ToolDef Context.Value)) :=
  {| Thinking.model := p_model p; req_messages := Context.messages e; temperature := Some (p_temperature p); top_p := Some (p_top_p p);
     frequency_penalty := Some (p_frequency_penalty p); presence_penalty := Some (p_presence_penalty p); stream := Some true;
     enable_thinking := None; reasoning_effort := normalized_reasoning_effort (p_reasoning_effort p); Thinking.tools := tools |}.
Definition charge_engine_tool_schema (e : ContextEngine) (advertised : list (ToolDef Context.Value)) : ContextEngine := set_tools e advertised.

(** ** Appending to the history *)

Definition mirror_append_here (m : Message) (s : LoopState) : LoopState := on_history (mirror_append (engine s) (journal s) m) s.
Definition mirror_collapse_here (s : LoopState) : LoopState := on_history (mirror_collapse (engine s) (journal s)) s.
Definition report_context (key : str) (now : Now) (s : LoopState) : LoopState :=
  with_registry (update_active_worker_context key (token_count (engine s)) now (registry s)) s.

Definition append_tool_result (tc : ToolCall) (content : str) (execution_succeeded : bool) (rebirth_notice : str) (s : LoopState) : LoopState :=
  if str_eqb (fn_name (tc_function tc)) TOOL_REBIRTH && execution_succeeded
  then mirror_append_here (User rebirth_notice) s
  else mirror_append_here (Tool (tc_id tc) content) s.
Definition inject_drained_notices (notices : list SteerNotice) (s : LoopState) : LoopState :=
  fold_left (fun s n => mirror_append_here (User (render_notice_for_worker n)) s) notices s.

(** ** One call of a tool *)

Definition malformed_error (error_prefix tool : str) : str :=
  error_prefix ++ lit "Invalid or truncated arguments for tool '" ++ tool
  ++ lit "': output was cut off or contained unterminated JSON. Please reissue the tool call with complete, valid JSON arguments.".
Definition repetition_intervention_fallback (tool : str) : str :=
  lit "Tool repetition detected for '" ++ tool ++ lit "'. Conclude by calling " ++ TOOL_LEAVE_VERDICT ++ lit " or proceed with the task.".
Definition args_of (tc : ToolCall) : Json.Value := default (VString (fn_arguments (tc_function tc))) (from_json (fn_arguments (tc_function tc))).
Definition succeeded (error_prefix content : str) : bool := negb (starts_with error_prefix content).

(** The text of the result and whether the call is taken to have succeeded;
    [None] when the run is aborted. *)
Definition dispatch_tool_call (error_prefix : str) (fallback : str -> str) (caller : ToolCaller) (tc : ToolCall) (c : CallScript) (s : LoopState)
    : option (str * bool) * LoopState :=
  let tool := fn_name (tc_function tc) in
  if is_verdict_recording_tool tool && negb (caller_may_record_verdict caller) then
    (Some (error_prefix ++ verdict_role_rejection caller tool, false), s)
  else if is_malformed tc then (Some (malformed_error error_prefix tool, false), s)
  else
    let '(intervention, m) := observe_tool tool (args_of tc) (monitor s) in
    let s := with_monitor m s in
    match intervention with
    | Block | Cut =>
        let content := default (error_prefix ++ fallback tool) (intervention_error intervention m) in
        (Some (content, succeeded error_prefix content), s)
    | NoIntervention =>
        if cancelled_at_dispatch c then (None, s)
        else
          let '(answer, e) := dispatched c caller tool (args_of tc) (engine s) in
          let content := match answer with inl text => text | inr error => error_prefix ++ error end in
          (Some (content, succeeded error_prefix content), on_history (e, journal s) s)
    end.

(** The calls of a reply in turn; a successful rebirth ends them.  Whether one
    was malformed, whether one succeeded; [None] when the run is aborted. *)
Fixpoint run_calls (p : LoopParams) (caller : ToolCaller) (scripts : nat -> CallScript) (i : nat) (tcs : list ToolCall) (had_malformed had_success : bool)
    (s : LoopState) : option (bool * bool) * LoopState :=
  match tcs with
  | [] => (Some (had_malformed, had_success), s)
  | tc :: rest =>
      let c := scripts i in
      if cancelled_before c then (None, s)
      else
        match dispatch_tool_call TOOL_ERROR_PREFIX repetition_intervention_fallback caller tc c s with
        | (None, s) => (None, s)
        | (Some (content, ok), s) =>
            let s := append_tool_result tc content ok (p_rebirth_notice p) s in
            let s := report_context (p_worker_key p) (call_stamp c) s in
            let had_malformed := had_malformed || is_malformed tc in
            if str_eqb (fn_name (tc_function tc)) TOOL_REBIRTH && ok then (Some (had_malformed, true), s)
            else run_calls p caller scripts (S i) rest had_malformed (had_success || ok) s
        end
  end.

(** ** A round *)

Inductive FixLoopResult := Verdict (approved : bool) (critique : str) | AbortedRun | Exhausted (reason : str).
Definition Ended : Type := result FixLoopResult Refusal.
(** A round ends the run, or the run goes on. *)
Inductive Step := Goes (s : LoopState) | Stops (r : Ended) (s : LoopState).

(** The bounds and the cancellation, before the model is asked. *)
Definition refused_round (turn : nat) (r : Round) (s : LoopState) : option FixLoopResult :=
  if round_cap_reached turn (bounds s) then Some (Exhausted (round_cap_reason (bounds s)))
  else match deadline_expired_at (clock r) (bounds s) with
       | Some kind => Some (Exhausted (deadline_reason kind (bounds s)))
       | None => if cancelled_at_start r then Some AbortedRun else None
       end.
Definition begin_round (p : LoopParams) (r : Round) (s : LoopState) : LoopState :=
  inject_drained_notices (notices_at_start r) (report_context (p_worker_key p) (round_stamp r) s).

(** The turn of the model, to a sink registered for it. *)
Definition stream_turn (p : LoopParams) (advertised : list (ToolDef Context.Value)) (pauses : nat) (env : nat -> CallEnv) (r : Round) (s : LoopState)
    : Run (result ResumableStreamOutput Refusal * LoopState) :=
  let req := build_turn_request p advertised (engine s) in
  let w := {| sink := round_sink r; counters := counters (world s); calls_made := calls_made (world s) |} in
  '(x, d, w) ← chat_stream_resumable pauses env (req_messages req) (N.max (p_max_stream_tokens p) 256) (N.max (p_max_thinking_tokens p) 256)
                 (detector s) false w;
  Ran (x, with_stream d w s).

(** The calls of a reply, those written as text when there are no others. *)
Definition draw_ids (n : nat) (w : Stream.World (K := K)) : Stream.World (K := K) :=
  let c := counters w in
  {| sink := sink w; calls_made := calls_made w;
     counters := {| caller := tt; deltas := deltas c; tokens_in := tokens_in c; tokens_out := tokens_out c; drawn := (drawn c + N.of_nat n)%N; made := made c |} |}.
Definition calls_of_reply (p : LoopParams) (reply : StreamedReply) (s : LoopState) : Run (list ToolCall * LoopState) :=
  if is_empty (reply_tool_calls reply) && p_enable_xml_rescue p then
    '(rescued, m) ← of_outcome (rescue_xml (drawn (counters (world s))) (reply_content reply) (monitor s));
    Ran (rescued, with_stream (detector s) (draw_ids (length rescued) (world s)) (with_monitor m s))
  else Ran (reply_tool_calls reply, s).

(** A verdict call is consumed here: by the authority to record one, or as a
    rejection that ends the run. *)
Definition consume_verdict (p : LoopParams) (caller : ToolCaller) (now : Now) (tc : ToolCall) (s : LoopState) : FixLoopResult * LoopState :=
  if negb (caller_may_record_verdict caller) then
    let rejection := verdict_role_rejection caller (fn_name (tc_function tc)) in
    let s := append_tool_result tc (TOOL_ERROR_PREFIX ++ rejection) false (p_rebirth_notice p) s in
    (Verdict false rejection, report_context (p_worker_key p) now s)
  else
    let '(approved, critique) := default (false, NO_EXPLICIT_APPROVAL_REASON) (parse_verdict_args (args_of tc)) in
    (Verdict approved critique, s).

(** *** A reply without calls *)

Definition reminder (n : nat) : str := lit "(reminder " ++ dec n ++ lit "/" ++ dec VERDICT_REMINDERS ++ lit ")".
Definition nudge_notice (p : LoopParams) (out : ResumableStreamOutput) (n : nat) : str :=
  if out_thinking_budget_exceeded out then
    lit "SYSTEM NOTICE: Maximum reasoning budget of " ++ decN (N.max (p_max_thinking_tokens p) 256)
    ++ lit " tokens reached for this turn. Stop internal reasoning immediately. You have not submitted a verdict using the '" ++ TOOL_LEAVE_VERDICT
    ++ lit "' tool " ++ reminder n ++ lit ". Proceed directly to call the '" ++ TOOL_LEAVE_VERDICT
    ++ lit "' tool with verdict ('APPROVED' or 'REJECTED') and comments, or invoke required inspection tools."
  else
    lit "System: You have not submitted a verdict using the '" ++ TOOL_LEAVE_VERDICT ++ lit "' tool " ++ reminder n
    ++ lit ". Do not output text. If your analysis and verification are complete, you MUST call the '" ++ TOOL_LEAVE_VERDICT
    ++ lit "' tool with verdict ('APPROVED' or 'REJECTED') and comments. If you need to perform further verification, invoke the appropriate tools.".
Definition validation_skip_verdict (read : str -> ReadEnd) (task_id : option str) : option FixLoopResult :=
  raw ← task_id;
  if validation_brief_absent read raw then
    reason ← validation_skip_record_for_task read (Some raw);
    Some (Verdict true (SKIPPED_BY_DESIGN ++ reason))
  else None.
Definition no_verdict_reason (p : LoopParams) (caller : ToolCaller) : str :=
  if caller_may_record_verdict caller then
    p_tag p ++ lit " did not call " ++ TOOL_LEAVE_VERDICT ++ lit " after " ++ dec VERDICT_REMINDERS
    ++ lit " reminders: no validation verdict was recorded. " ++ NO_EXPLICIT_APPROVAL_REASON
  else verdict_role_rejection caller TOOL_LEAVE_VERDICT ++ lit " " ++ EM_DASH ++ lit " " ++ NO_EXPLICIT_APPROVAL_REASON.
Definition silent_reply (p : LoopParams) (caller : ToolCaller) (r : Round) (out : ResumableStreamOutput) (s : LoopState) : Step :=
  if caller_may_record_verdict caller && (nudges s <? VERDICT_REMINDERS) then
    let s := with_counts (nudges s + 1) (malformed s) s in
    Goes (mirror_append_here (User (nudge_notice p out (nudges s))) s)
  else
    match validation_skip_verdict (read_prompts r) (p_task_id p) with
    | Some verdict => Stops (Ok verdict) s
    | None => Stops (Ok (Verdict false (no_verdict_reason p caller))) s
    end.

(** *** After the calls *)

Definition reminder_turn (turn : nat) : bool :=
  (turn =? 6) || (turn =? 10) || (turn =? 15) || ((20 <=? turn) && (turn mod 10 =? 0)).
Definition inspection_reminder (turn : nat) : str :=
  lit "SYSTEM NOTICE: You have completed " ++ dec turn
  ++ lit " inspection turns. Please wrap up your analysis. Unless critical unverified points remain, call the '" ++ TOOL_LEAVE_VERDICT
  ++ lit "' tool immediately with verdict ('APPROVED' or 'REJECTED') and comments.".
Definition MALFORMED_LIMIT : nat := 5.
Definition MALFORMED_REASON : str := lit "Specialist/Validator repeatedly produced malformed or truncated tool calls 5 times consecutively.".

Definition keep_within_context (s : LoopState) : Run LoopState :=
  if should_compact (engine s) then
    '(_, e) ← or_fuel (compact (engine s));
    Ran (mirror_collapse_here (on_history (e, journal s) s))
  else if should_advise_rebirth (engine s) then
    Ran (mirror_collapse_here (on_history (inject_rebirth_advisory (engine s), journal s) s))
  else Ran s.
Definition after_calls (turn : nat) (caller : ToolCaller) (r : Round) (had_malformed had_success : bool) (s : LoopState) : Run Step :=
  let s := inject_drained_notices (notices_mid_turn r) s in
  let s := if caller_may_record_verdict caller && had_success && reminder_turn turn
           then mirror_append_here (User (inspection_reminder turn)) s else s in
  let s := if had_success || negb (is_empty (notices_mid_turn r))
           then with_bounds (note_round_progress_at (clock_after r) (bounds s)) s else s in
  let s := if had_malformed then with_counts (nudges s) (malformed s + 1) s
           else if had_success then with_counts (nudges s) 0 s else s in
  if had_malformed && (MALFORMED_LIMIT <=? malformed s) then Ran (Stops (Ok (Verdict false MALFORMED_REASON)) s)
  else s ← keep_within_context s; Ran (Goes s).

(** *** The reply of a round *)

Definition assistant_of_reply (reply : StreamedReply) (tcs : list ToolCall) : Message :=
  Assistant (Some (reply_content reply)) (none_if_empty (reply_reasoning reply)) tcs.
Definition is_verdict_call (tc : ToolCall) : bool := is_leave_verdict_tool_name (fn_name (tc_function tc)).
Definition take_reply (p : LoopParams) (caller : ToolCaller) (turn : nat) (r : Round) (out : ResumableStreamOutput) (s : LoopState) : Run Step :=
  '(tcs, s) ← calls_of_reply p (out_reply out) s;
  let s := mirror_append_here (assistant_of_reply (out_reply out) tcs) s in
  match find_first is_verdict_call tcs with
  | Some tc => let '(x, s) := consume_verdict p caller (round_stamp r) tc s in Ran (Stops (Ok x) s)
  | None =>
      if is_empty tcs then Ran (silent_reply p caller r out s)
      else
        match run_calls p caller (calls r) 0 tcs false false s with
        | (None, s) => Ran (Stops (Ok AbortedRun) s)
        | (Some (had_malformed, had_success), s) => after_calls turn caller r had_malformed had_success s
        end
  end.
Definition run_round (p : LoopParams) (advertised : list (ToolDef Context.Value)) (pauses : nat) (env : nat -> CallEnv) (caller : ToolCaller)
    (turn : nat) (r : Round) (s : LoopState) : Run Step :=
  match refused_round turn r s with
  | Some x => Ran (Stops (Ok x) s)
  | None =>
      '(x, s) ← stream_turn p advertised pauses env r (begin_round p r s);
      match x with
      | Err e => Ran (Stops (if cancelled_on_error r then Ok AbortedRun else Err e) s)
      | Ok out =>
          if was_aborted_by_steer out || cancelled_after r then Ran (Stops (Ok AbortedRun) s)
          else take_reply p caller turn r out s
      end
  end.

(** ** The loop *)

Fixpoint run_rounds (fuel : nat) (p : LoopParams) (advertised : list (ToolDef Context.Value)) (pauses : nat) (env : nat -> CallEnv) (caller : ToolCaller)
    (rounds : nat -> Round) (turn : nat) (s : LoopState) : Run (Ended * LoopState) :=
  match fuel with
  | 0 => NoFuel
  | S fuel' =>
      step ← run_round p advertised pauses env caller (S turn) (rounds (S turn)) s;
      match step with
      | Goes s => run_rounds fuel' p advertised pauses env caller rounds (S turn) s
      | Stops x s => Ran (x, s)
      end
  end.
Definition first_state (p : LoopParams) (caller : ToolCaller) (e : ContextEngine) (j : option WorkerJournal) (m : HarnessMonitor) (b : FixLoopBounds)
    (reg : Registry) (w : Stream.World (K := K)) : LoopState :=
  {| engine := charge_engine_tool_schema e (advertised_tools_for_caller (p_tools p) caller); journal := j; monitor := m;
     detector := new_detector (p_repetition_threshold p) (p_min_pattern_len p); bounds := b; nudges := 0; malformed := 0;
     registry := reg; world := w |}.
(** One more round than the cap is begun, and refused. *)
Definition run_fix_loop (p : LoopParams) (pauses : nat) (env : nat -> CallEnv) (caller : ToolCaller) (rounds : nat -> Round) (e : ContextEngine)
    (j : option WorkerJournal) (m : HarnessMonitor) (b : FixLoopBounds) (reg : Registry) (w : Stream.World (K := K)) : Run (Ended * LoopState) :=
  run_rounds (S (max_rounds b)) p (advertised_tools_for_caller (p_tools p) caller) pauses env caller rounds 0 (first_state p caller e j m b reg w).

(** ** The passes of a validator ([src/agents/validation.rs]) *)

(** What a pass answers its caller: a verdict with its reasons, or a failure. *)
Inductive PassFailure := AbortedBySignal | BackendFailed (e : Refusal).
Definition pass_of (x : Ended) : result (bool * Critique) PassFailure :=
  match x with
  | Ok (Verdict approved critique) => Ok (approved, Said critique)
  | Ok (Exhausted reason) => Ok (false, Said reason)
  | Ok AbortedRun => Err AbortedBySignal
  | Err e => Err (BackendFailed e)
  end.
(** [audit] is the run with the prompt of the task, or with the role's. *)
Definition run_automated_validation (read : str -> ReadEnd) (prompts_dir_is_dir : bool) (task_id : option str)
    (audit : option str -> Run (Ended * LoopState)) : Run (result (bool * Critique) PassFailure) :=
  match opening read prompts_dir_is_dir task_id with
  | Answered approved critique => Ran (Ok (approved, critique))
  | AsksWith custom_prompt => '(x, _) ← audit custom_prompt; Ran (pass_of x)
  end.
Definition PLAN_AUDIT_TOOLS : list str := [TOOL_READ_FILE; TOOL_GREP_SEARCH; TOOL_GLOB; TOOL_LEAVE_VERDICT; TOOL_REBIRTH].
Definition plan_auditor : ToolCaller := SpecialistWithTools Validator PLAN_AUDIT_TOOLS.
Definition run_plan_validation (planner_enabled validator_enabled : option bool) (audit : ToolCaller -> Run (Ended * LoopState))
    : Run (result (bool * Critique) PassFailure) :=
  if default true (or_else planner_enabled validator_enabled) then '(x, _) ← audit plan_auditor; Ran (pass_of x)
  else Ran (Ok (true, Said (lit "Plan validation skipped (disabled)."))).

(** ** The turn of a specialist's own loop *)

Definition stream_single_turn (pauses : nat) (env : nat -> CallEnv) (messages : list Message) (max_tokens max_thinking_tokens : N)
    (d : RepetitionDetector) (cancelled : bool) (w : Stream.World (K := K))
    : Run (result (option ResumableStreamOutput) Refusal * RepetitionDetector * Stream.World (K := K)) :=
  '(x, d, w) ← chat_stream_resumable pauses env messages max_tokens max_thinking_tokens d false w;
  Ran (match x with
       | Ok out => if was_aborted_by_steer out || cancelled then Ok None else Ok (Some out)
       | Err e => if cancelled then Ok None else Err e
       end, d, w).
End run.
