(* ===== verification/FixLoopFacts.v ===== *)
(** * What the fix loop promises ([src/agents/runner/fix_loop.rs], [src/agents/validation.rs])

    A run ends within its rounds, an approval comes from a verdict call of a
    validator or from the record that a task needs none, and the dispatcher is
    never asked to run a verdict. *)

From Stdlib Require Import Floats.SpecFloat.
From S2P Require Import Prelude Str TaskId ToolNames Agents Wire Json CallArguments Repetition Monitor Context ContextFacts Notice Registry Journal JournalFacts Retry Thinking XmlRescue XmlFacts Client Stream StreamFacts RegistryProps Verdict FixLoop.
Local Open Scope nat_scope.

Section ends.
Context `{Unicode} `{ChunkJson} `{JsonText} `{Tokens} `{Uuids} `{Tokenizer} `{JsonPrinter} {K : Type} `{SinkPatience K}.
Implicit Types (s : LoopState (K := K)) (r : Round (K := K)) (p : LoopParams).

(** ** What the steps of a round leave alone *)

(** The cap, and the deadline that no progress moves. *)
Definition caps (b : FixLoopBounds) : nat * N * N := (max_rounds b, started (watchdog b), hard_limit (watchdog b)).
Definition kept s s' : Prop :=
  detector s' = detector s /\ calls_made (world s') = calls_made (world s) /\ caps (bounds s') = caps (bounds s).
Lemma kept_refl s : kept s s.
Proof. done. Qed.
Lemma kept_trans s1 s2 s3 : kept s1 s2 -> kept s2 s3 -> kept s1 s3.
Proof. intros (Ha & Hb & Hc) (Hd & He & Hf). split_and!; congruence. Qed.
Lemma append_kept m s : kept s (mirror_append_here m s).
Proof. done. Qed.
Lemma inject_kept ns s : kept s (inject_drained_notices ns s).
Proof. revert s. induction ns as [|n ns IH]; intros s; [done|]. eapply kept_trans; [|apply IH]. apply append_kept. Qed.
Lemma result_kept tc c ok notice s : kept s (append_tool_result tc c ok notice s).
Proof. unfold append_tool_result. by destruct (_ && _). Qed.
Lemma begin_kept p r s : kept s (begin_round p r s).
Proof. eapply kept_trans; [|apply inject_kept]. done. Qed.
Lemma dispatch_kept prefix fallback caller tc c s : kept s (snd (dispatch_tool_call prefix fallback caller tc c s)).
Proof.
  unfold dispatch_tool_call. destruct (_ && _); [done|]. destruct (is_malformed tc); [done|].
  destruct (observe_tool _ _ _) as [i m]. destruct i; [|done|done]. destruct (cancelled_at_dispatch c); [done|].
  by destruct (dispatched c _ _ _ _) as [a e].
Qed.
Lemma run_calls_kept p caller scripts i tcs hm hs s : kept s (snd (run_calls p caller scripts i tcs hm hs s)).
Proof.
  revert i hm hs s. induction tcs as [|tc tcs IH]; intros i hm hs s; [done|]. cbn [run_calls].
  destruct (cancelled_before _); [done|].
  pose proof (dispatch_kept TOOL_ERROR_PREFIX repetition_intervention_fallback caller tc (scripts i) s) as Hd.
  destruct (dispatch_tool_call _ _ _ _ _ _) as [[[content ok]|] s1]; cbn [snd] in *; [|done].
  pose proof (result_kept tc content ok (p_rebirth_notice p) s1) as Hr.
  destruct (_ && ok); cbn [snd]; [by eapply kept_trans|].
  eapply kept_trans; [exact Hd|]. eapply kept_trans; [exact Hr|]. eapply kept_trans; [|apply IH]. done.
Qed.
Lemma context_kept s : exists s', keep_within_context s = Ran s' /\ kept s s'.
Proof.
  unfold keep_within_context. destruct (should_compact (engine s)).
  - destruct (compact_cases (engine s)) as (o & e' & -> & _). cbn [or_fuel mbind run_bind]. by eexists.
  - destruct (should_advise_rebirth (engine s)); by eexists.
Qed.
Lemma progress_kept (b : bool) now s :
  kept s (if b then with_bounds (note_round_progress_at now (bounds s)) s else s).
Proof.
  destruct b; [|done]. split_and!; [done..|]. unfold caps, note_round_progress_at, note_progress_at. cbn [bounds with_bounds watchdog max_rounds].
  by destruct (_ <? _)%N.
Qed.
Lemma counts_kept (b c : bool) s :
  kept s (if b then with_counts (nudges s) (malformed s + 1) s else if c then with_counts (nudges s) 0 s else s).
Proof. by destruct b, c. Qed.
Definition state_of (x : Step (K := K)) : LoopState := match x with Goes s | Stops _ s => s end.
Lemma after_calls_kept turn caller r hm hs s : exists x, after_calls turn caller r hm hs s = Ran x /\ kept s (state_of x).
Proof.
  unfold after_calls. set (s1 := inject_drained_notices _ s). set (s2 := if (_ : bool) then mirror_append_here _ s1 else s1).
  set (s3 := if (_ : bool) then with_bounds _ s2 else s2). set (s4 := if hm then with_counts _ _ s3 else _).
  assert (Hk : kept s s4).
  { eapply kept_trans; [apply (inject_kept (notices_mid_turn r))|]. fold s1. assert (H12 : kept s1 s2) by (unfold s2; by destruct (_ && _)).
    eapply kept_trans; [exact H12|]. eapply kept_trans; [apply progress_kept|]. apply counts_kept. }
  destruct (hm && _); [eexists; split; [reflexivity|exact Hk]|]. destruct (context_kept s4) as (s5 & -> & Hk5). cbn [mbind run_bind].
  eexists. split; [reflexivity|]. by eapply kept_trans.
Qed.
Lemma silent_kept p caller r out s : kept s (state_of (silent_reply p caller r out s)).
Proof. unfold silent_reply. destruct (_ && _); [done|]. by destruct (validation_skip_verdict _ _). Qed.
Lemma consume_kept p caller now tc s : kept s (snd (consume_verdict p caller now tc s)).
Proof.
  unfold consume_verdict. destruct (negb _); cbn [snd]; [apply result_kept|]. by destruct (default _ _).
Qed.

(** ** A run ends *)

Definition budget_of (r : Round (K := K)) : nat := 2 + 2 * pending_pauses (round_sink r).
Lemma stream_turn_ends p adv pauses env r s : fed (detector s) -> pending_pauses (round_sink r) < pauses ->
  exists x s', stream_turn p adv pauses env r s = Ran (x, s') /\ fed (detector s') /\ caps (bounds s') = caps (bounds s) /\
    calls_made (world s') <= calls_made (world s) + budget_of r.
Proof.
  intros Hf Hp. unfold stream_turn, chat_stream_resumable.
  match goal with |- context [resume_loop pauses env ?b ?m no_sums ?h ?w] =>
    destruct (resume_ends pauses env b m no_sums h w) as (x & d & w' & -> & Hd & Hb & _);
      [by apply handler_patient|done|done|] end. cbn [mbind run_bind].
  eexists _, _. split_and!; [done|done|done|]. unfold budget, budget_of in *. cbn [world with_stream sink calls_made] in *. lia.
Qed.
Lemma calls_of_reply_spec p reply s :
  (exists tcs s', calls_of_reply p reply s = Ran (tcs, s') /\ kept s s' /\ engine s' = engine s /\ journal s' = journal s /\ nudges s' = nudges s) \/
  (calls_of_reply p reply s = Panics /\ p_enable_xml_rescue p = true /\ unreadable reply).
Proof.
  unfold calls_of_reply. destruct (is_empty (reply_tool_calls reply) && p_enable_xml_rescue p) eqn:Ee; [|left; by eexists _, _].
  apply andb_true_iff in Ee as [Ec Ee]. unfold rescue_xml, rescue_counted.
  destruct (rescue (drawn (counters (world s))) (reply_content reply)) as [l|] eqn:E; cbn [mbind of_outcome run_bind outcome_bind].
  - left. by eexists _, _.
  - right. split_and!; [done|done|split; [by destruct (reply_tool_calls reply)|by eapply rescue_crossed]].
Qed.
(** It panics only in case [Q]. *)
Definition ends_within (Q : Prop) (n : nat) s (x : Run (Step (K := K))) : Prop :=
  match x with
  | Ran st => fed (detector (state_of st)) /\ caps (bounds (state_of st)) = caps (bounds s) /\ calls_made (world (state_of st)) <= calls_made (world s) + n
  | Panics => Q
  | NoFuel => False
  end.
Lemma kept_ends Q n s s' st : fed (detector s') -> caps (bounds s') = caps (bounds s) ->
  calls_made (world s') <= calls_made (world s) + n -> kept s' (state_of st) -> ends_within Q n s (Ran st).
Proof. intros Hf Hm Hc (Hd & Hk & Hb). cbn [ends_within]. rewrite Hd, Hk, Hb. done. Qed.
Lemma take_reply_ends n p caller turn r out s0 s : fed (detector s) -> caps (bounds s) = caps (bounds s0) ->
  calls_made (world s) <= calls_made (world s0) + n ->
  ends_within (p_enable_xml_rescue p = true /\ unreadable (out_reply out)) n s0 (take_reply p caller turn r out s).
Proof.
  intros Hf Hm Hc. unfold take_reply.
  destruct (calls_of_reply_spec p (out_reply out) s) as [(tcs & s1 & -> & Hk1 & _)|[-> Hr]]; [|done]. cbn [mbind run_bind].
  set (s2 := mirror_append_here _ s1). assert (Hk2 : kept s s2) by (eapply kept_trans; [exact Hk1|apply append_kept]).
  destruct (find_first is_verdict_call tcs) as [tc|].
  - pose proof (consume_kept p caller (round_stamp r) tc s2) as Hk3. destruct (consume_verdict _ _ _ _ _) as [x s3].
    by apply (kept_ends _ n s0 s); [..|eapply kept_trans].
  - destruct (is_empty tcs).
    + apply (kept_ends _ n s0 s); [done..|]. eapply kept_trans; [exact Hk2|apply silent_kept].
    + pose proof (run_calls_kept p caller (calls r) 0 tcs false false s2) as Hk3.
      destruct (run_calls _ _ _ _ _ _ _ _) as [[[hm hs]|] s3]; cbn [snd] in Hk3; [|by apply (kept_ends _ n s0 s); [..|eapply kept_trans]].
      destruct (after_calls_kept turn caller r hm hs s3) as (x & -> & Hk4).
      apply (kept_ends _ n s0 s); [done..|]. eapply kept_trans; [exact Hk2|]. by eapply kept_trans.
Qed.
(** What the model is asked for in a round, from the state [s], is a reply
    without a structured call whose text the rescue cannot read. *)
Definition asked_unreadable p adv pauses env r s : Prop :=
  exists out s1, stream_turn p adv pauses env r (begin_round p r s) = Ran (Ok out, s1) /\ p_enable_xml_rescue p = true /\ unreadable (out_reply out).
Lemma run_round_ends p adv pauses env caller turn r s : fed (detector s) -> pending_pauses (round_sink r) < pauses ->
  ends_within (asked_unreadable p adv pauses env r s) (budget_of r) s (run_round p adv pauses env caller turn r s).
Proof.
  intros Hf Hp. unfold run_round. destruct (refused_round turn r s) as [x|]; [apply (kept_ends _ _ s s); [done..|lia|done]|].
  destruct (begin_kept p r s) as (Hd & Hc & Hb).
  destruct (stream_turn_ends p adv pauses env r (begin_round p r s)) as (x & s1 & E & Hf1 & Hm1 & Hc1); [by rewrite Hd|done|].
  rewrite E. cbn [mbind run_bind]. rewrite Hc in Hc1. rewrite Hb in Hm1. destruct x as [out|e]; [|by apply (kept_ends _ _ s s1)].
  destruct (_ || _); [by apply (kept_ends _ _ s s1)|]. pose proof (take_reply_ends (budget_of r) p caller turn r out s s1 Hf1 Hm1 Hc1) as He.
  destruct (take_reply _ _ _ _ _ _); [done| |done]. by exists out, s1.
Qed.
(** A round past the cap or past the deadline asks nothing. *)
Definition over_at (b : FixLoopBounds) (turn : nat) (r : Round (K := K)) : Prop :=
  max_rounds b < turn \/ (started (watchdog b) + hard_limit (watchdog b) <= clock r)%N.
Lemma over_refused p adv pauses env caller turn r s : over_at (bounds s) turn r ->
  exists reason, run_round p adv pauses env caller turn r s = Ran (Stops (Ok (Exhausted reason)) s).
Proof.
  intros Ho. unfold run_round, refused_round, round_cap_reached. destruct (max_rounds (bounds s) <? turn) eqn:E; [by eexists|].
  apply Nat.ltb_ge in E. destruct Ho as [?|Ho]; [lia|]. unfold deadline_expired_at, expired_at, elapsed_at.
  rewrite (proj2 (N.leb_le _ _)) by lia. by eexists.
Qed.
Lemma over_caps b b' turn r : caps b' = caps b -> over_at b turn r -> over_at b' turn r.
Proof. unfold caps, over_at. intros [= -> -> ->]. done. Qed.

(** The states a run goes on with after its rounds. *)
Inductive comes_to p adv pauses env caller (rounds : nat -> Round (K := K)) (turn0 : nat) s0 : nat -> LoopState (K := K) -> Prop :=
  | at_first : comes_to p adv pauses env caller rounds turn0 s0 turn0 s0
  | after_round turn s s' : comes_to p adv pauses env caller rounds turn0 s0 turn s ->
      run_round p adv pauses env caller (S turn) (rounds (S turn)) s = Ran (Goes s') -> comes_to p adv pauses env caller rounds turn0 s0 (S turn) s'.
Lemma comes_sooner p adv pauses env caller rounds turn0 s0 s1 turn s : run_round p adv pauses env caller (S turn0) (rounds (S turn0)) s0 = Ran (Goes s1) ->
  comes_to p adv pauses env caller rounds (S turn0) s1 turn s -> comes_to p adv pauses env caller rounds turn0 s0 turn s.
Proof. intros E. induction 1 as [|turn s s' _ IH E']; [eapply after_round; [apply at_first|done]|by eapply after_round]. Qed.

Fixpoint budgets (rounds : nat -> Round (K := K)) (from n : nat) : nat :=
  match n with 0 => 0 | S n' => budget_of (rounds (S from)) + budgets rounds (S from) n' end.
Lemma run_rounds_ends p adv pauses env caller rounds k fuel turn s : fed (detector s) ->
  (forall n, pending_pauses (round_sink (rounds n)) < pauses) -> turn < k -> k <= fuel + turn -> over_at (bounds s) k (rounds k) ->
  match run_rounds fuel p adv pauses env caller rounds turn s with
  | Ran (_, s') => calls_made (world s') <= calls_made (world s) + budgets rounds turn (k - 1 - turn)
  | Panics => exists turn' s', comes_to p adv pauses env caller rounds turn s turn' s' /\ asked_unreadable p adv pauses env (rounds (S turn')) s'
  | NoFuel => False
  end.
Proof.
  intros Hf Hp. revert turn s Hf. induction fuel as [|fuel IH]; intros turn s Hf Ht Hk Ho; cbn [run_rounds]; [lia|].
  destruct (decide (k = S turn)) as [->|Hne].
  { destruct (over_refused p adv pauses env caller (S turn) (rounds (S turn)) s Ho) as [reason ->]. cbn. lia. }
  replace (k - 1 - turn) with (S (k - 1 - S turn)) by lia. cbn [budgets].
  pose proof (run_round_ends p adv pauses env caller (S turn) (rounds (S turn)) s Hf (Hp _)) as He.
  destruct (run_round _ _ _ _ _ _ _ _) as [[s1|x s1]| |] eqn:Er; cbn [mbind run_bind ends_within state_of] in *; [|lia| |done].
  - destruct He as (Hf1 & Hm1 & Hc1). specialize (IH (S turn) s1 Hf1 ltac:(lia) ltac:(lia) (over_caps _ _ _ _ Hm1 Ho)).
    destruct (run_rounds _ _ _ _ _ _ _ _ _) as [[x s2]| |]; [lia| |done]. destruct IH as (turn' & s' & Hc & Ha). exists turn', s'. split; [by eapply comes_sooner|done].
  - exists turn, s. split; [apply at_first|done].
Qed.

(** C7: a run of the fix loop ends.  Whatever the model streams and the tools
    answer, it asks the model in fewer rounds than the first one past its cap
    or past its deadline, with two calls of the client for each and two more
    for each pause of the round's sink.  It panics only when the rescue is on
    and one of its rounds, from a state the run came to, is given a reply
    without a structured call whose text the rescue cannot read: an unfenced
    block of it has its closing tag before its opening tag has ended. *)
Theorem fix_loop_ends p pauses env caller rounds e j m b reg w k :
  (forall n, pending_pauses (round_sink (rounds n)) < pauses) -> 0 < k <= S (max_rounds b) -> over_at b k (rounds k) ->
  match run_fix_loop p pauses env caller rounds e j m b reg w with
  | Ran (_, s') => calls_made (world s') <= calls_made w + budgets rounds 0 (k - 1)
  | Panics => let adv := advertised_tools_for_caller (p_tools p) caller in
      exists turn s, comes_to p adv pauses env caller rounds 0 (first_state p caller e j m b reg w) turn s /\
        asked_unreadable p adv pauses env (rounds (S turn)) s
  | NoFuel => False
  end.
Proof.
  intros Hp Hk Ho. change (run_fix_loop p pauses env caller rounds e j m b reg w) with
    (run_rounds (S (max_rounds b)) p (advertised_tools_for_caller (p_tools p) caller) pauses env caller rounds 0 (first_state p caller e j m b reg w)).
  pose proof (run_rounds_ends p (advertised_tools_for_caller (p_tools p) caller) pauses env caller rounds k (S (max_rounds b)) 0
    (first_state p caller e j m b reg w)) as Hr.
  rewrite Nat.sub_0_r in Hr. apply Hr; [by eexists [], _, _|done|lia|lia|done].
Qed.
End ends.

(** ** Where an approval comes from *)

(** The record of a task that needs no validation, and the brief that was never
    written, under the task's own file names. *)
Definition excused (read : str -> ReadEnd) (raw reason : str) : Prop :=
  exists id text, validate_task_id (normalize_task_id_ref raw) = inl id /\ read (id ++ lit "-validation.md") = ReadNotFound /\
    read (id ++ VALIDATION_SKIP_FILE_SUFFIX) = ReadText text /\ trim text = reason /\ reason <> [].
Lemma skip_record_excused read raw reason : validation_brief_absent read raw = true ->
  validation_skip_record_for_task read (Some raw) = Some reason -> excused read raw reason.
Proof.
  unfold validation_brief_absent, probe_validation_brief, validation_skip_record_for_task, validation_skip_record, validation_skip_file_name.
  cbn [mbind option_bind]. intros Hb. destruct (validate_task_id (normalize_task_id_ref raw)) as [id|] eqn:E; [|done].
  destruct (read (id ++ lit "-validation.md")) as [| |t] eqn:Eb; [|done|by destruct (is_empty (trim t))].
  destruct (read (id ++ VALIDATION_SKIP_FILE_SUFFIX)) as [| |t] eqn:Es; [done|done|].
  destruct (is_empty (trim t)) eqn:Et; [done|]. intros [= <-]. exists id, t. split_and!; [done..|]. by destruct (trim t).
Qed.
Lemma opening_approves read dir task_id c : opening read dir task_id = Answered true c ->
  exists raw reason, dir = true /\ task_id = Some raw /\ excused read raw reason /\ c = Said (SKIPPED_BY_DESIGN ++ reason).
Proof.
  unfold opening. destruct task_id as [raw|]; cbn [fmap option_fmap option_map]; [|by destruct dir].
  destruct (probe_validation_brief read raw) as [e|f|f|f|f t] eqn:E; try done; destruct dir; cbn [is_absent]; try done.
  destruct (validation_skip_record_for_task read (Some raw)) as [reason|] eqn:Es; [|done]. intros [= <-].
  exists raw, reason. split_and!; [done..| |done]. apply skip_record_excused; [|done]. unfold validation_brief_absent. by rewrite E.
Qed.

Section approval.
Context `{Unicode} `{ChunkJson} `{JsonText} `{Tokens} `{Uuids} `{Tokenizer} `{JsonPrinter} {K : Type} `{StreamSink K}.
Implicit Types (s : LoopState (K := K)) (r : Round (K := K)) (p : LoopParams).

(** The last message of the history is the model's, with a verdict call that
    says so. *)
Definition verdict_in_history (caller : ToolCaller) (e : ContextEngine) (approved : bool) (critique : str) : Prop :=
  caller_agent caller = Some Validator /\
  exists content reasoning tcs tc, last (Context.messages e) = Some (Assistant content reasoning tcs) /\ tc ∈ tcs /\
    is_leave_verdict_tool_name (fn_name (tc_function tc)) = true /\ parse_verdict_args (args_of tc) = Some (approved, critique).
Definition approved_by p caller r s (critique : str) : Prop :=
  verdict_in_history caller (engine s) true critique \/
  (exists raw reason, p_task_id p = Some raw /\ excused (read_prompts r) raw reason /\ critique = SKIPPED_BY_DESIGN ++ reason).

Lemma consume_approves p caller now tc s critique s' content reasoning tcs :
  consume_verdict p caller now tc s = (Verdict true critique, s') -> last (Context.messages (engine s)) = Some (Assistant content reasoning tcs) ->
  tc ∈ tcs -> is_verdict_call tc = true -> verdict_in_history caller (engine s') true critique.
Proof.
  unfold consume_verdict. rewrite verdict_caller. destruct (bool_decide _) eqn:E; cbn [negb]; [|done]. apply bool_decide_eq_true in E.
  destruct (parse_verdict_args (args_of tc)) as [[b c]|] eqn:Ep; cbn [default id]; [|done]. intros [= -> -> ->] Hl Hin Hv.
  split; [done|]. by exists content, reasoning, tcs, tc.
Qed.
Lemma silent_approves p caller r out s critique s' : silent_reply p caller r out s = Stops (Ok (Verdict true critique)) s' ->
  exists raw reason, p_task_id p = Some raw /\ excused (read_prompts r) raw reason /\ critique = SKIPPED_BY_DESIGN ++ reason.
Proof.
  unfold silent_reply, validation_skip_verdict. destruct (_ && _); [done|]. destruct (p_task_id p) as [raw|]; cbn [mbind option_bind]; [|done].
  destruct (validation_brief_absent _ raw) eqn:Eb; [|done]. destruct (validation_skip_record_for_task _ _) as [reason|] eqn:Es; cbn [mbind option_bind]; [|done].
  intros [= <- <-]. exists raw, reason. split_and!; [done|by apply skip_record_excused|done].
Qed.
Lemma after_calls_rejects turn caller r hm hs s b critique s' :
  after_calls turn caller r hm hs s = Ran (Stops (Ok (Verdict b critique)) s') -> b = false.
Proof.
  unfold after_calls. destruct (_ && (MALFORMED_LIMIT <=? _)); [by intros [= <- _ _]|].
  match goal with |- context [keep_within_context ?x] => destruct (keep_within_context x) end; done.
Qed.
Lemma take_reply_approves p caller turn r out s critique s' :
  take_reply p caller turn r out s = Ran (Stops (Ok (Verdict true critique)) s') -> approved_by p caller r s' critique.
Proof.
  unfold take_reply. destruct (calls_of_reply p (out_reply out) s) as [[tcs s1]| |]; cbn [mbind run_bind]; [|done|done].
  set (s2 := mirror_append_here _ s1).
  assert (Hl : last (Context.messages (engine s2)) = Some (assistant_of_reply (out_reply out) tcs)) by apply last_snoc.
  destruct (find_first is_verdict_call tcs) as [tc|] eqn:Ef.
  - apply find_first_Some in Ef as (l1 & l2 & -> & Hv & _). destruct (consume_verdict _ _ _ _ _) as [x s3] eqn:Ec. intros [= -> ->]. left.
    eapply consume_approves; [exact Ec|exact Hl| |done]. apply elem_of_app. right. by left.
  - destruct (is_empty tcs); [intros [= E]; right; by eapply silent_approves|].
    destruct (run_calls _ _ _ _ _ _ _ _) as [[[hm hs]|] s3]; [|done]. intros E. by apply after_calls_rejects in E.
Qed.
Lemma run_round_approves p adv pauses env caller turn r s critique s' :
  run_round p adv pauses env caller turn r s = Ran (Stops (Ok (Verdict true critique)) s') -> approved_by p caller r s' critique.
Proof.
  unfold run_round, refused_round. destruct (round_cap_reached _ _); [done|]. destruct (deadline_expired_at _ _); [done|].
  destruct (cancelled_at_start r); [done|]. destruct (stream_turn _ _ _ _ _ _) as [[[out|e] s1]| |]; cbn [mbind run_bind]; [|by destruct (cancelled_on_error r)|done|done].
  destruct (_ || _); [done|apply take_reply_approves].
Qed.
Lemma run_rounds_approves p adv pauses env caller rounds fuel turn s critique s' :
  run_rounds fuel p adv pauses env caller rounds turn s = Ran (Ok (Verdict true critique), s') ->
  exists n, approved_by p caller (rounds n) s' critique.
Proof.
  revert turn s. induction fuel as [|fuel IH]; intros turn s; cbn [run_rounds]; [done|].
  destruct (run_round _ _ _ _ _ _ _ _) as [[s1|x s1]| |] eqn:E; cbn [mbind run_bind]; [apply IH| |done|done].
  intros [= -> ->]. exists (S turn). by eapply run_round_approves.
Qed.

(** C6: an approval is recorded.  A pass that approves a deliverable has either
    seen the model call the verdict tool for a validator with arguments that
    read as that approval, or found that the brief of the task was never written
    and that a record says it needs none; no other path approves. *)
Theorem approval_is_recorded read dir task_id (ps : option str -> LoopParams) pauses env caller rounds es j m b reg w c :
  run_automated_validation read dir task_id (fun prompt => run_fix_loop (ps prompt) pauses env caller rounds (es prompt) j m b reg w) = Ran (Ok (true, c)) ->
  (exists raw reason, task_id = Some raw /\ excused read raw reason /\ c = Said (SKIPPED_BY_DESIGN ++ reason)) \/
  (exists prompt critique s' n, run_fix_loop (ps prompt) pauses env caller rounds (es prompt) j m b reg w = Ran (Ok (Verdict true critique), s') /\
     c = Said critique /\ approved_by (ps prompt) caller (rounds n) s' critique).
Proof.
  unfold run_automated_validation. destruct (opening read dir task_id) as [approved c0|prompt] eqn:Eo.
  - intros [= -> ->]. left. apply opening_approves in Eo as (raw & reason & _ & ? & ? & ?). by exists raw, reason.
  - destruct (run_fix_loop _ _ _ _ _ _ _ _ _ _ _) as [[[[[] critique| |reason]|e] s']| |] eqn:E; cbn; try done. intros [= <-].
    right. exists prompt, critique, s'. unfold run_fix_loop in E. destruct (run_rounds_approves _ _ _ _ _ _ _ _ _ _ _ E) as [n Hn].
    by exists n.
Qed.
End approval.

(** ** What reaches the dispatcher *)

Section gate.
Context `{Unicode} `{ChunkJson} `{JsonText} `{Tokens} `{Uuids} `{Tokenizer} `{JsonPrinter} {K : Type} `{StreamSink K}.
Implicit Types (s : LoopState (K := K)) (r : Round (K := K)) (p : LoopParams) (c : CallScript).

(** Two answers of the system that differ at most in what the dispatcher makes
    of a verdict call, of a call whose arguments are malformed, and of any call
    of another caller. *)
Definition same_dispatch (caller : ToolCaller) c c' : Prop :=
  cancelled_before c' = cancelled_before c /\ cancelled_at_dispatch c' = cancelled_at_dispatch c /\ call_stamp c' = call_stamp c /\
  forall tc e, is_verdict_call tc = false -> is_malformed tc = false ->
    dispatched c' caller (fn_name (tc_function tc)) (args_of tc) e = dispatched c caller (fn_name (tc_function tc)) (args_of tc) e.
Definition same_round (caller : ToolCaller) r r' : Prop :=
  clock r' = clock r /\ cancelled_at_start r' = cancelled_at_start r /\ notices_at_start r' = notices_at_start r /\ round_stamp r' = round_stamp r /\
  round_sink r' = round_sink r /\ cancelled_on_error r' = cancelled_on_error r /\ cancelled_after r' = cancelled_after r /\
  read_prompts r' = read_prompts r /\ (forall i, same_dispatch caller (calls r i) (calls r' i)) /\
  notices_mid_turn r' = notices_mid_turn r /\ clock_after r' = clock_after r.

Lemma dispatch_same prefix fallback caller tc c c' s : is_verdict_call tc = false -> same_dispatch caller c c' ->
  dispatch_tool_call prefix fallback caller tc c' s = dispatch_tool_call prefix fallback caller tc c s.
Proof.
  intros Hv (_ & Hc & _ & Hd). unfold dispatch_tool_call, is_verdict_recording_tool. unfold is_verdict_call in Hv. rewrite Hv. cbn [andb].
  destruct (is_malformed tc) eqn:Em; [done|]. destruct (observe_tool _ _ _) as [i m]. rewrite Hc, Hd by done. by destruct i.
Qed.
Lemma run_calls_same p caller scripts scripts' i tcs hm hs s : Forall (fun tc => is_verdict_call tc = false) tcs ->
  (forall i, same_dispatch caller (scripts i) (scripts' i)) ->
  run_calls p caller scripts' i tcs hm hs s = run_calls p caller scripts i tcs hm hs s.
Proof.
  intros Hv Hs. revert i hm hs s. induction Hv as [|tc tcs Htc _ IH]; intros i hm hs s; [done|]. cbn [run_calls].
  rewrite (dispatch_same _ _ _ _ _ _ _ Htc (Hs i)). destruct (Hs i) as (-> & _ & -> & _). destruct (cancelled_before _); [done|].
  destruct (dispatch_tool_call _ _ _ _ _ _) as [[[content ok]|] s1]; [|done]. by rewrite IH.
Qed.
Lemma run_round_same p adv pauses env caller turn r r' s : same_round caller r r' ->
  run_round p adv pauses env caller turn r' s = run_round p adv pauses env caller turn r s.
Proof.
  intros (Ec & Es & En & Et & Ek & Ee & Ea & Er & Hs & Em & El). unfold run_round, refused_round, stream_turn, begin_round. rewrite Ec, Es, En, Et, Ek, Ee, Ea.
  destruct (if round_cap_reached turn (bounds s) then _ else _); [done|].
  destruct (chat_stream_resumable _ _ _ _ _ _ _ _) as [[[[out|e] d] w]| |]; cbn [mbind run_bind]; [|done..].
  destruct (was_aborted_by_steer out || cancelled_after r); [done|]. unfold take_reply. rewrite Et.
  destruct (calls_of_reply _ _ _) as [[tcs s1]| |]; cbn [mbind run_bind]; [|done..].
  destruct (find_first is_verdict_call tcs) eqn:Ef; [done|]. apply find_first_None in Ef.
  destruct (is_empty tcs); [unfold silent_reply; by rewrite Er|]. rewrite (run_calls_same _ _ (calls r)) by done.
  destruct (run_calls _ _ _ _ _ _ _ _) as [[[hm hs]|] s2]; [|done]. unfold after_calls. by rewrite Em, El.
Qed.
Lemma run_rounds_same p adv pauses env caller rounds rounds' fuel turn s : (forall n, same_round caller (rounds n) (rounds' n)) ->
  run_rounds fuel p adv pauses env caller rounds' turn s = run_rounds fuel p adv pauses env caller rounds turn s.
Proof.
  intros Hr. revert turn s. induction fuel as [|fuel IH]; intros turn s; cbn [run_rounds]; [done|].
  rewrite (run_round_same _ _ _ _ _ _ _ _ _ (Hr (S turn))). destruct (run_round _ _ _ _ _ _ _ _) as [[s1|x s1]| |]; cbn [mbind run_bind]; [apply IH|done..].
Qed.

(** C28: no verdict is dispatched.  Whatever the dispatcher would make of a verdict
    call, of a call with malformed arguments or of a call in another caller's
    name, a run of the fix loop ends the same: it never asks.  The schemas it
    advertises hold a verdict tool for a validator only, and tools to pause
    others for the manager only. *)
Theorem verdict_is_never_dispatched p pauses env caller rounds rounds' e j m b reg w :
  (forall n, same_round caller (rounds n) (rounds' n)) ->
  run_fix_loop p pauses env caller rounds' e j m b reg w = run_fix_loop p pauses env caller rounds e j m b reg w /\
  (forall t, t ∈ advertised_tools_for_caller (p_tools p) caller ->
     t ∈ p_tools p /\ (is_leave_verdict_tool_name (tool_name t) = true -> caller_agent caller = Some Validator) /\
     (tool_name t ∈ [TOOL_PAUSE_SUBAGENT; TOOL_RESUME_SUBAGENT] -> caller = Manager)).
Proof.
  intros Hr. split; [by apply run_rounds_same|]. intros t. unfold advertised_tools_for_caller.
  rewrite list_elem_of_In, filter_In, <-list_elem_of_In. unfold may_see, is_verdict_recording_tool. rewrite verdict_caller, andb_true_iff, !orb_true_iff, !negb_true_iff, bool_decide_eq_true.
  intros (Hin & Hp & Hv). split; [done|]. split.
  - intros Ht. destruct Hv as [?|Hv]; [done|]. by rewrite Hv in Ht.
  - intros Ht%str_mem_true. destruct Hp as [Hm|Hn]; [by destruct caller|]. by rewrite Hn in Ht.
Qed.
End gate.

(** ** The mirror of the history *)

Section mirror.
Context `{Unicode} `{ChunkJson} `{JsonText} `{Tokens} `{Uuids} `{Tokenizer} `{JsonPrinter} {K : Type} `{StreamSink K}.
Implicit Types (s : LoopState (K := K)) (r : Round (K := K)) (p : LoopParams) (c : CallScript).

Definition mirrored s : Prop := exists j, journal s = Some j /\ mirrors (Context.messages (engine s)) j.
(** A dispatcher that leaves the messages of the engine alone: no rebirth. *)
Definition keeps_messages c : Prop :=
  forall caller tool args e, Context.messages (snd (dispatched c caller tool args e)) = Context.messages e.

Lemma append_mirrored m s : mirrored s -> mirrored (mirror_append_here m s).
Proof. intros (j & Ej & Hj). exists (mirrored_append m j). cbn. rewrite Ej. split; [done|by apply append_mirrors]. Qed.
Lemma inject_mirrored ns s : mirrored s -> mirrored (inject_drained_notices ns s).
Proof. revert s. induction ns as [|n ns IH]; intros s Hm; [done|]. apply IH. by apply append_mirrored. Qed.
Lemma result_mirrored tc t ok notice s : mirrored s -> mirrored (append_tool_result tc t ok notice s).
Proof. intros Hm. unfold append_tool_result. destruct (_ && _); by apply append_mirrored. Qed.
Lemma dispatch_mirrored prefix fallback caller tc c s : keeps_messages c -> mirrored s ->
  mirrored (snd (dispatch_tool_call prefix fallback caller tc c s)).
Proof.
  intros Hk Hm. unfold dispatch_tool_call. destruct (_ && _); [done|]. destruct (is_malformed tc); [done|].
  destruct (observe_tool _ _ _) as [i m]. destruct i; [|done|done]. destruct (cancelled_at_dispatch c); [done|].
  specialize (Hk caller (fn_name (tc_function tc)) (args_of tc) (engine (with_monitor m s))).
  destruct (dispatched c _ _ _ _) as [a e]. unfold mirrored in *. cbn in *. by rewrite Hk.
Qed.
Lemma run_calls_mirrored p caller scripts i tcs hm hs s : (forall i, keeps_messages (scripts i)) -> mirrored s ->
  mirrored (snd (run_calls p caller scripts i tcs hm hs s)).
Proof.
  intros Hk. revert i hm hs s. induction tcs as [|tc tcs IH]; intros i hm hs s Hm; [done|]. cbn [run_calls].
  destruct (cancelled_before _); [done|].
  pose proof (dispatch_mirrored TOOL_ERROR_PREFIX repetition_intervention_fallback caller tc (scripts i) s (Hk i) Hm) as Hd.
  destruct (dispatch_tool_call _ _ _ _ _ _) as [[[t ok]|] s1]; cbn [snd] in *; [|done].
  destruct (_ && ok); cbn [snd]; [by apply result_mirrored|]. apply IH. by apply result_mirrored.
Qed.
Lemma collapse_mirrored e s : mirrored s -> mirrored (mirror_collapse_here (on_history (e, journal s) s)).
Proof. intros (j & Ej & Hj). exists (mirrored_collapse (Context.messages e) j). cbn. rewrite Ej. split; [done|by eapply collapse_mirrors]. Qed.
Lemma after_calls_mirrored turn caller r hm hs s x : after_calls turn caller r hm hs s = Ran x -> mirrored s -> mirrored (state_of x).
Proof.
  unfold after_calls. intros E Hm. apply (inject_mirrored (notices_mid_turn r)) in Hm.
  set (s1 := inject_drained_notices _ s) in *. set (s2 := if (_ : bool) then mirror_append_here _ s1 else s1) in *.
  assert (Hm2 : mirrored s2) by (unfold s2; destruct (_ && _); [by apply append_mirrored|done]).
  set (s3 := if (_ : bool) then with_bounds _ s2 else s2) in *. assert (Hm3 : mirrored s3) by (unfold s3; by destruct (_ || _)).
  set (s4 := if hm then with_counts _ _ s3 else _) in *. assert (Hm4 : mirrored s4) by (unfold s4; by destruct hm, hs).
  destruct (hm && _); [by injection E as <-|]. unfold keep_within_context in E. destruct (should_compact (engine s4)).
  - destruct (compact (engine s4)) as [[o e]|]; [|done]. injection E as <-. by apply collapse_mirrored.
  - destruct (should_advise_rebirth (engine s4)); injection E as <-; [by apply collapse_mirrored|done].
Qed.
Lemma take_reply_mirrored p caller turn r out s x : (forall i, keeps_messages (calls r i)) -> mirrored s ->
  take_reply p caller turn r out s = Ran x -> mirrored (state_of x).
Proof.
  intros Hk Hm. unfold take_reply. destruct (calls_of_reply p (out_reply out) s) as [[tcs s1]| |] eqn:Ec; cbn [mbind run_bind]; [|done..].
  assert (Hm1 : mirrored s1).
  { unfold calls_of_reply in Ec. destruct (_ && _); [|by injection Ec as _ <-]. destruct (of_outcome _) as [[l m]| |]; [|done..]. by injection Ec as _ <-. }
  apply (append_mirrored (assistant_of_reply (out_reply out) tcs)) in Hm1. set (s2 := mirror_append_here _ s1) in *.
  destruct (find_first is_verdict_call tcs) as [tc|].
  - unfold consume_verdict. destruct (negb _); [intros [= <-]; by apply result_mirrored|]. destruct (default _ _). by intros [= <-].
  - destruct (is_empty tcs).
    + unfold silent_reply. destruct (_ && _); [intros [= <-]; by apply append_mirrored|]. destruct (validation_skip_verdict _ _); by intros [= <-].
    + pose proof (run_calls_mirrored p caller (calls r) 0 tcs false false s2 Hk Hm1) as Hm3.
      destruct (run_calls _ _ _ _ _ _ _ _) as [[[hm hs]|] s3]; [|by intros [= <-]]. intros E. by eapply after_calls_mirrored.
Qed.
Lemma run_round_mirrored p adv pauses env caller turn r s x : (forall i, keeps_messages (calls r i)) -> mirrored s ->
  run_round p adv pauses env caller turn r s = Ran x -> mirrored (state_of x).
Proof.
  intros Hk Hm. unfold run_round. destruct (refused_round turn r s); [by intros [= <-]|]. unfold stream_turn.
  assert (Hb : mirrored (begin_round p r s)) by by apply inject_mirrored.
  destruct (chat_stream_resumable _ _ _ _ _ _ _ _) as [[[[out|e] d] w]| |]; cbn [mbind run_bind]; [|by intros [= <-]|done..].
  destruct (_ || _); [by intros [= <-]|]. by apply take_reply_mirrored.
Qed.

(** C29: the mirror of a worker's history follows a run.  While no tool rewrites
    the engine, the journal that mirrored the history before the run mirrors it
    at its end, through notices, results, reminders, compactions and advice. *)
Theorem mirror_follows_run p pauses env caller rounds e j m b reg w x s' :
  (forall n i, keeps_messages (calls (rounds n) i)) -> mirrors (Context.messages e) j ->
  run_fix_loop p pauses env caller rounds e (Some j) m b reg w = Ran (x, s') ->
  exists j', journal s' = Some j' /\ mirrors (Context.messages (engine s')) j'.
Proof.
  intros Hk Hj. unfold run_fix_loop. set (adv := advertised_tools_for_caller _ _). set (s0 := first_state _ _ _ _ _ _ _ _).
  assert (Hs : mirrored s0) by by exists j. clearbody s0. revert s0 Hs. generalize (S (max_rounds b)) as fuel, 0 as turn.
  induction fuel as [|fuel IH]; intros turn s0 Hs; cbn [run_rounds]; [done|].
  destruct (run_round _ _ _ _ _ _ _ _) as [[s1|y s1]| |] eqn:E; cbn [mbind run_bind]; [|intros [= _ <-]|done|done].
  - apply IH. by apply (run_round_mirrored _ _ _ _ _ _ _ _ _ (Hk (S turn)) Hs E).
  - by apply (run_round_mirrored _ _ _ _ _ _ _ _ _ (Hk (S turn)) Hs E).
Qed.
End mirror.

(** ** Runs at concrete inputs *)

#[local] Existing Instance ascii_tables.
#[local] Existing Instance demo_numbers.
#[local] Existing Instance demo_json.
#[local] Existing Instance counted_tokens.
#[local] Existing Instance digit_ids.
#[local] Existing Instance counted_chars.
#[local] Existing Instance scripted.
#[local] Existing Instance scripted_patience.
#[local] Instance no_schemas : JsonPrinter := {| Context.Value := unit; json_to_string _ := None |}.

Definition arguments_text (m : list (str * Json.Value)) : str := put (VObject m).
Definition verdict_text : str := arguments_text [(lit "comments", VString (lit "fine")); (lit "verdict", VString (lit "APPROVED"))].
Definition chunk_of (tool args : str) : ChatChunk :=
  said None None (Some [{| index := 0; chunk_call_id := Some (lit "c1"); chunk_function := Some {| chunk_name := Some tool; chunk_arguments := Some args |} |}]).
Definition LOOPING : str := concat (repeat (lit "we should look again ") 6).
#[local] Instance demo_chunks : ChunkJson := {|
  chunk_from_json s := if str_eqb s (lit "verdict") then Some (chunk_of TOOL_LEAVE_VERDICT verdict_text)
                       else if str_eqb s (lit "look") then Some (chunk_of TOOL_GLOB (lit "{}"))
                       else if str_eqb s (lit "loop") then Some (said None (Some LOOPING) None)
                       else if str_eqb s (lit "text") then Some (said None (Some (lit "The file is there. ")) None) else None
|}.
Definition one : spec_float := S754_finite false 1 0.
Definition demo_params : LoopParams :=
  {| p_model := lit "m"; p_tag := lit "validator-coder"; p_task_id := Some (lit "t-1"); p_worker_key := lit "validator-coder"; p_tools := [];
     p_temperature := one; p_top_p := one; p_presence_penalty := one; p_frequency_penalty := one; p_enable_xml_rescue := false;
     p_max_stream_tokens := 300; p_max_thinking_tokens := 300; p_repetition_threshold := 5; p_min_pattern_len := 5;
     p_rebirth_notice := lit "reborn"; p_reasoning_effort := None |}.
Definition demo_call : CallScript :=
  {| cancelled_before := false; cancelled_at_dispatch := false; dispatched _ _ _ e := (inl (lit "found"), e); call_stamp := noon |}.
Definition demo_round (n : nat) : Round (K := ScriptedSink) :=
  {| clock := N.of_nat n; cancelled_at_start := false; notices_at_start := []; round_stamp := noon; round_sink := {| seen := []; controls := [] |};
     cancelled_on_error := false; cancelled_after := false; read_prompts _ := ReadNotFound; calls _ := demo_call; notices_mid_turn := [];
     clock_after := N.of_nat n |}.
Definition demo_engine : ContextEngine := specialist_context {| factory_max_context_tokens := N.to_nat 5000 |} (lit "Audit.") (lit "The brief.").
Definition demo_monitor : HarnessMonitor := new_monitor {| repetition_breaks := 0; xml_tool_rescues := 0 |} 3 5.
Definition demo_world : Stream.World (K := ScriptedSink) := fresh [].
Definition auditor : ToolCaller := Specialist Validator.
Definition demo_bounds : FixLoopBounds := new_bounds 0 4.
(** The calls of the client in turn: each names the events it streams. *)
Definition replies (l : list (list str)) (n : nat) : CallEnv := backend (nth n l []).
Definition run_demo (l : list (list str)) (j : option WorkerJournal) : Run (Ended * LoopState) :=
  run_fix_loop demo_params 1 (replies l) auditor demo_round demo_engine j demo_monitor demo_bounds (initial_registry no_tokens) demo_world.
Definition ending (x : Run (Ended * LoopState (K := ScriptedSink))) : option Ended := match x with Ran (r, _) => Some r | _ => None end.

Example looks_then_approves : ending (run_demo [[lit "look"; lit "[DONE]"]; [lit "verdict"; lit "[DONE]"]] None) = Some (Ok (Verdict true (lit "fine"))).
Proof. vm_compute. reflexivity. Qed.

Lemma fix_loop_ends_witness :
  let env := replies [[lit "look"; lit "[DONE]"]; [lit "verdict"; lit "[DONE]"]] in
  match run_demo [[lit "look"; lit "[DONE]"]; [lit "verdict"; lit "[DONE]"]] None with
  | Ran (_, s') => calls_made (world s') <= 0 + budgets demo_round 0 (5 - 1)
  | Panics => let adv := advertised_tools_for_caller (p_tools demo_params) auditor in
      exists turn s, comes_to demo_params adv 1 env auditor demo_round 0
          (first_state demo_params auditor demo_engine None demo_monitor demo_bounds (initial_registry no_tokens) demo_world) turn s /\
        asked_unreadable demo_params adv 1 env (demo_round (S turn)) s
  | NoFuel => False
  end.
Proof. apply (fix_loop_ends demo_params 1 _ auditor demo_round demo_engine None demo_monitor demo_bounds (initial_registry no_tokens) demo_world 5);
  [intros n; cbn; lia|cbn; lia|left; cbn; lia].
Defined.

Definition demo_pass : Run (result (bool * Critique) PassFailure) :=
  run_automated_validation (fun _ => ReadNotFound) false (Some (lit "t-1"))
    (fun _ => run_demo [[lit "look"; lit "[DONE]"]; [lit "verdict"; lit "[DONE]"]] None).
Lemma approval_is_recorded_witness :
  demo_pass = Ran (Ok (true, Said (lit "fine"))) /\
  ((exists raw reason, Some (lit "t-1") = Some raw /\ excused (fun _ => ReadNotFound) raw reason /\ Said (lit "fine") = Said (SKIPPED_BY_DESIGN ++ reason)) \/
   (exists (prompt : option str) critique s' n, run_demo [[lit "look"; lit "[DONE]"]; [lit "verdict"; lit "[DONE]"]] None = Ran (Ok (Verdict true critique), s') /\
      Said (lit "fine") = Said critique /\ approved_by demo_params auditor (demo_round n) s' critique)).
Proof.
  assert (E : demo_pass = Ran (Ok (true, Said (lit "fine")))) by by vm_compute. split; [exact E|].
  exact (approval_is_recorded (fun _ => ReadNotFound) false (Some (lit "t-1")) (fun _ => demo_params) 1 _ auditor demo_round (fun _ => demo_engine) None
           demo_monitor demo_bounds (initial_registry no_tokens) demo_world (Said (lit "fine")) E).
Defined.

(** A dispatcher that would answer a verdict call with an approval. *)
Definition eager_call : CallScript :=
  {| cancelled_before := false; cancelled_at_dispatch := false;
     dispatched _ tool _ e := (if is_leave_verdict_tool_name tool then inl (lit "approved") else inl (lit "found"), e); call_stamp := noon |}.
Definition eager_round (n : nat) : Round (K := ScriptedSink) :=
  {| clock := N.of_nat n; cancelled_at_start := false; notices_at_start := []; round_stamp := noon; round_sink := {| seen := []; controls := [] |};
     cancelled_on_error := false; cancelled_after := false; read_prompts _ := ReadNotFound; calls _ := eager_call; notices_mid_turn := [];
     clock_after := N.of_nat n |}.
Lemma verdict_is_never_dispatched_witness :
  run_fix_loop demo_params 1 (replies [[lit "look"; lit "[DONE]"]]) auditor eager_round demo_engine None demo_monitor demo_bounds (initial_registry no_tokens) demo_world =
  run_fix_loop demo_params 1 (replies [[lit "look"; lit "[DONE]"]]) auditor demo_round demo_engine None demo_monitor demo_bounds (initial_registry no_tokens) demo_world.
Proof.
  apply (verdict_is_never_dispatched demo_params 1 (replies [[lit "look"; lit "[DONE]"]]) auditor demo_round eager_round demo_engine None demo_monitor demo_bounds).
  intros n. split_and!; try done. intros i. split_and!; try done. intros tc e Hv _. unfold is_verdict_call in Hv. cbn. by rewrite Hv.
Defined.

Definition demo_journal : WorkerJournal :=
  record_seed (Context.messages demo_engine) default_seed
    {| journal_key := lit "validator-coder"; journal_id := 1; mirror_cap := 40; Journal.closed := false; closed_seq := 0; mirror := empty_mirror |}.
Lemma demo_journal_mirrors : mirrors (Context.messages demo_engine) demo_journal.
Proof. by apply seed_mirrors; [cbn; lia|..]. Qed.
Definition two_replies : nat -> CallEnv := replies [[lit "look"; lit "[DONE]"]; [lit "verdict"; lit "[DONE]"]].
Lemma mirror_follows_run_witness :
  exists x s' j', run_fix_loop demo_params 1 two_replies auditor demo_round demo_engine (Some demo_journal) demo_monitor demo_bounds
      (initial_registry no_tokens) demo_world = Ran (x, s') /\ journal s' = Some j' /\ mirrors (Context.messages (engine s')) j'.
Proof.
  set (run := run_fix_loop _ _ _ _ _ _ _ _ _ _ _). assert (Hr : bool_decide (is_Some (ending run)) = true) by by vm_compute.
  destruct run as [[x s']| |] eqn:E; [|discriminate Hr..].
  destruct (mirror_follows_run demo_params 1 two_replies auditor demo_round demo_engine demo_journal demo_monitor demo_bounds
    (initial_registry no_tokens) demo_world x s' (fun n i caller tool args e => eq_refl) demo_journal_mirrors E) as (j' & Ej & Hj).
  exists x, s', j'. exact (conj eq_refl (conj Ej Hj)).
Defined.

(** *** Behaviours the sources do not announce *)

(** A verdict call without a verdict word whose comment denies approval is read
    as an approval. *)
Definition comment_only (text : str) : Json.Value := VObject [(lit "comments", VString text)].
Example denied_in_prose_is_approved :
  map (fun t => fst <$> parse_verdict_args (comment_only t))
    [lit "Not approved: the parser drops lines."; lit "I disapprove of this."; lit "The tests do not pass."; lit "Rejected."] =
  [Some true; Some true; Some true; Some false].
Proof. vm_compute. reflexivity. Qed.

(** A call the monitor blocked counts as one that succeeded: a blocked rebirth
    is answered by the notice of an accepted one, and its call by nothing. *)
Definition rebirth_call : ToolCall :=
  {| tc_id := lit "r1"; tc_kind := lit "function"; tc_function := {| fn_name := TOOL_REBIRTH; fn_arguments := lit "{}" |} |}.
Definition reborn_monitor : HarnessMonitor := snd (observe_tool TOOL_REBIRTH (VObject []) demo_monitor).
Definition demo_state (m : HarnessMonitor) (j : option WorkerJournal) : LoopState (K := ScriptedSink) :=
  {| engine := demo_engine; journal := j; FixLoop.monitor := m; detector := new_detector 5 5; bounds := demo_bounds; nudges := 0; malformed := 0;
     registry := initial_registry no_tokens; world := demo_world |}.
Example a_blocked_rebirth_counts_as_done :
  let x := run_calls demo_params auditor (fun _ => demo_call) 0 [rebirth_call] false false (demo_state reborn_monitor None) in
  fst x = Some (false, true) /\ last (Context.messages (engine (snd x))) = Some (User (lit "reborn")) /\
  fst (observe_tool TOOL_REBIRTH (VObject []) reborn_monitor) = Block.
Proof. vm_compute. done. Qed.

(** A rebirth rewrites the engine and leaves the mirror as it was: the two tell
    different histories from then on. *)
Definition rebirth_script : CallScript :=
  {| cancelled_before := false; cancelled_at_dispatch := false;
     dispatched _ _ _ e := (inl (lit "Rebirth: compacted history and summarized progress."), perform_rebirth e (lit "so far")); call_stamp := noon |}.
Definition long_state : LoopState (K := ScriptedSink) :=
  fold_left (fun s t => mirror_append_here (User t) s) (repeat (lit "old news") 8) (demo_state demo_monitor (Some demo_journal)).
Example a_rebirth_leaves_the_mirror_behind :
  let s := snd (run_calls demo_params auditor (fun _ => rebirth_script) 0 [rebirth_call] false false long_state) in
  length (Context.messages (engine s)) = 5 /\ (length ∘ snapshot_records <$> journal s) = Some 11.
Proof. vm_compute. done. Qed.

(** The detector outlives the stream it has cut: the next turn of the run is
    cut at its first words, which a fresh detector lets pass. *)
Definition cut (d : RepetitionDetector) (event : str) : option (bool * RepetitionDetector) :=
  match chat_stream_resumable 1 (replies [[event; lit "[DONE]"]]) [User (lit "Audit.")] 300 300 d false demo_world with
  | Ran (Ok out, d, _) => Some (out_rep_triggered out, d)
  | _ => None
  end.
Example a_cut_stream_cuts_the_next :
  (fst <$> cut (new_detector 5 5) (lit "text")) = Some false /\
  (fst <$> cut (new_detector 5 5) (lit "loop")) = Some true /\
  (fst <$> (cut (new_detector 5 5) (lit "loop") ≫= fun x => cut (snd x) (lit "text"))) = Some true.
Proof. vm_compute. done. Qed.
