(* ===== verification/Dispatch.v ===== *)
(** * The dispatch of tool calls ([src/harness/mod.rs], [src/harness/plan.rs], [src/harness/sleep.rs])

    A call is resolved by its caller's rules to a built-in handler, or to a
    server's tool through the gate, and its result is clipped.  The handlers are
    modelled in their own parts or run commands and terminals; here they are the
    operations of a class over the state of the process. *)

From S2P Require Import Prelude Str Decimal ToolNames ToolArgs Agents Mcp PlanParse Context Json FileTools PathGate Verdict FixLoop.
Local Open Scope nat_scope.

(** ** Clipping a result *)

Definition MAX_TOOL_OUTPUT_CHARS : nat := 100 * 100.
Definition HEAD_LEN : nat := 70 * 100.
Definition TAIL_LEN : nat := 20 * 100.
(** [at_] up to a character boundary, at most [fuel] bytes. *)
Fixpoint boundary_up (s : str) (fuel at_ : nat) : nat :=
  match fuel with 0 => at_ | S k => if is_char_boundary s at_ then at_ else boundary_up s k (S at_) end.
Definition is_plan_text (content : str) : bool :=
  let upper := to_ascii_uppercase content in contains (lit "# EXECUTION PLAN") upper || contains (lit "IMPLEMENTATION PLAN") upper.
Definition clip_tail_start (content : str) (head_end : nat) : nat :=
  let full_len := blen content in
  let tail_start := boundary_up content TAIL_LEN (full_len - TAIL_LEN) in
  match find_str READ_FILE_TRUNCATION_MARKER content with
  | Some marker_at => if (head_end <? marker_at) && (marker_at <? tail_start) then marker_at else tail_start
  | None => tail_start
  end.
Definition clip_notice (omitted full_len : nat) : str :=
  [NL; NL] ++ lit "[... TRUNCATED " ++ dec omitted ++ lit " CHARACTERS (total: " ++ dec full_len
  ++ lit " chars). Use specific commands, filters, or paginated tools to inspect specific sections ...]" ++ [NL; NL].
Definition clip_content (content : str) : outcome str :=
  if is_plan_text content || (blen content <=? MAX_TOOL_OUTPUT_CHARS) then Ret content
  else
    let head_end := boundary_down content HEAD_LEN in
    let tail_start := clip_tail_start content head_end in
    head ← unwrap (get_to content head_end);
    tail ← (if head_end <? tail_start then unwrap (get_from content tail_start) else Ret []);
    Ret (head ++ clip_notice (blen content - (blen head + blen tail)) (blen content) ++ tail).
Definition apply_tool_output_length_limit (r : ToolResult) : outcome ToolResult :=
  content ← clip_content (result_content r); Ret {| result_content := content; is_error := is_error r |}.
Definition Answer : Type := ToolResult + ToolError.
Definition limited (r : Answer) : outcome Answer :=
  match r with inl ok => ok ← apply_tool_output_length_limit ok; Ret (inl ok) | inr e => Ret (inr e) end.

(** ** Calls and what they run *)

Record ToolInvocation `{Numbers} := { inv_name : str; inv_arguments : Json.Value }.
(** The handlers that are not in these files. *)
Inductive Action :=
  | DelegateTask | ReadFile | ReplaceText | WriteFile | RunCommand | GrepSearch | GlobFiles
  | PtySpawn | PtyWrite | PtyRead | PtyClose | PtyList | ReplyToArbitrator (caller : str).
#[export] Instance Action_eq_dec : EqDecision Action.
Proof. solve_decision. Defined.

(** The accessors of serde_json's numbers, and its values as those of the
    argument readers. *)
Class NumberValues `{Numbers} := { number_as_u64 : Number -> option N; number_as_i64 : Number -> option Z; number_as_f64 : Number -> option f64 }.
#[export] Instance json_arguments `{JsonText} `{!NumberValues} : JsonValue := {|
  ToolArgs.Value := Json.Value; value_null := VNull; ToolArgs.value_get := Json.value_get; as_str_value := Json.as_str;
  ToolArgs.as_u64 v := match v with VNumber n => number_as_u64 n | _ => None end;
  as_i64 v := match v with VNumber n => number_as_i64 n | _ => None end;
  as_f64 v := match v with VNumber n => number_as_f64 n | _ => None end;
  value_to_string := to_json |}.

(** The state of the process as the dispatcher uses it. *)
Class Runtime `{JsonText} (W : Type) := {
  run_tool : Action -> Json.Value -> W -> Answer * W;
  (* the gate of the task and the registry behind it *)
  mcp_gate : W -> option McpDispatchGate;
  mcp_manager : W -> McpManager;
  await_verdict : W -> option McpBootStatus * W;
  call_server : str -> Json.Value -> W -> (str + str) * W;
  (* pauses and cancellation *)
  wait_for_current_worker : W -> bool * W;
  set_paused : str -> bool -> W -> option str * W;
  global_cancelled : W -> bool;
  worker_cancelled : W -> bool;
  wait_blocking : N -> W -> bool * W;
  wait_async : N -> W -> bool * W;
  (* the plan *)
  plan_validation_enabled : W -> bool;
  audit_plan : str -> W -> (bool * str + str) * W;
  store_plan : str -> W -> (str + PathGate.Failed) * W;
  has_active_workers : W -> bool;
  archive_plan_file : W -> (option str + PathGate.Failed) * W;
  plan_exists : W -> bool;
  pending_tasks : W -> list str
}.

Section handlers.
Context `{JsonText} `{!NumberValues} {W : Type} `{!Runtime W}.
Implicit Types (args : Json.Value) (w : W).

(** ** Plans ([src/harness/plan.rs]) *)

Definition auditor_rejection (critique : str) : str := lit "Execution plan rejected by Strategic Plan Auditor:" ++ [NL] ++ critique.
Definition revise (critique : str) : str :=
  auditor_rejection critique ++ [NL; NL] ++ lit "Please revise the execution plan addressing the auditor's critique and call create_plan again.".
Definition EXECUTION_PLAN_HEADER : str := lit "# Execution Plan".
Definition has_execution_plan_header (md : str) : bool :=
  existsb (fun line => eq_ignore_ascii_case (trim line) EXECUTION_PLAN_HEADER) (lines md).
(** The critique of a plan that is refused without asking an auditor. *)
Definition plan_precheck `{Unicode} (md : str) : option str :=
  if negb (has_execution_plan_header md) then
    Some (lit "Missing required `# Execution Plan` top-level heading. Start the plan with `# Execution Plan`.")
  else if is_empty (all_task_ids md) then
    Some (lit "Plan contains no recognizable task items (`- [ ] [t-xxx] Description (role)`).")
  else None.
(** [None] when the plan may be written. *)
Definition plan_verdict `{Unicode} (md : str) (w : W) : option ToolResult * W :=
  if plan_validation_enabled w then
    match plan_precheck md with
    | Some critique => (Some (result_err (revise critique)), w)
    | None =>
        let '(audit, w) := audit_plan md w in
        match audit with
        | inl (true, _) => (None, w)
        | inl (false, critique) => (Some (result_err (if global_cancelled w then auditor_rejection critique else revise critique)), w)
        | inr msg =>
            if global_cancelled w || contains (lit "aborted by cancellation") msg then (Some (result_err (auditor_rejection msg)), w)
            else (None, w)
        end
    end
  else (None, w).
Definition write_plan_internal `{Unicode} (md : str) (w : W) : Answer * W :=
  let '(verdict, w) := plan_verdict md w in
  match verdict with
  | Some refusal => (inl refusal, w)
  | None =>
      let '(stored, w) := store_plan md w in
      (match stored with inl text => inl (result_ok text) | inr e => inr (Execution e) end, w)
  end.
Definition archive_plan (w : W) : Answer * W :=
  if has_active_workers w then
    (inl (result_err (lit "Cannot archive plan while background specialist workers are still actively running.")), w)
  else
    let '(archived, w) := archive_plan_file w in
    (match archived with
     | inr e => inr (Execution e)
     | inl (Some dest) => inl (result_ok (lit "plan archived to " ++ dest))
     | inl None =>
         if plan_exists w then
           let pending := pending_tasks w in
           inl (result_err (if is_empty pending
             then lit "plan is not complete and cannot be archived yet: no task is checked off `[x]`, so nothing in this plan has been completed"
             else lit "plan is not complete and cannot be archived yet " ++ EM_DASH ++ lit " " ++ dec (length pending)
                  ++ lit " task(s) still pending: " ++ join_with (lit ", ") pending))
         else inl (result_ok (lit "no plan file to archive"))
     end, w).
Definition handle_pause_execution : Answer := inr (Forbidden TOOL_PAUSE_EXECUTION (lit "model (execution control belongs to the user)")).
Definition control_subagent args (paused : bool) (w : W) : Answer * W :=
  let tool := if paused then TOOL_PAUSE_SUBAGENT else TOOL_RESUME_SUBAGENT in
  match Json.value_get args (lit "worker_key") ≫= Json.as_str with
  | Some key =>
      if is_empty (trim key) then (inr (BadArguments tool (lit "worker_key must name exactly one live subagent registry key")), w)
      else
        let '(refused, w) := set_paused key paused w in
        (inl (match refused with
              | None => result_ok (if paused
                  then lit "Pause requested for " ++ key ++ lit "; current tools may finish first. Task and context are preserved. Call resume_subagent to continue it."
                  else lit "Resume requested for " ++ key ++ lit "; the same task continues.")
              | Some message => result_err message
              end), w)
  | None => (inr (BadArguments tool (lit "worker_key must name exactly one live subagent registry key")), w)
  end.

(** ** Sleep ([src/harness/sleep.rs]) *)

Definition sleep_reason_clause args : str :=
  let reason := default [] (Json.value_get args (lit "reason") ≫= Json.as_str) in
  if is_empty reason then [] else lit " (" ++ reason ++ lit ")".
Definition sleep_completed (secs : N) (clause : str) : ToolResult := result_ok (lit "Slept for " ++ decN secs ++ lit " seconds" ++ clause ++ lit ".").
Definition sleep_cancelled_before_start : ToolResult := result_err (lit "Sleep cancelled before starting.").
Definition sleep_interrupted : ToolResult := result_err (lit "Sleep interrupted by cancellation signal.").
Definition slept args (completed : bool) : ToolResult :=
  if completed then sleep_completed (sleep_duration_secs args) (sleep_reason_clause args) else sleep_interrupted.
Definition handle_sleep args (w : W) : Answer * W :=
  if global_cancelled w then (inl sleep_cancelled_before_start, w)
  else let '(completed, w) := wait_blocking (sleep_duration_secs args) w in (inl (slept args completed), w).
Definition handle_sleep_async args (w : W) : Answer * W :=
  if worker_cancelled w || global_cancelled w then (inl sleep_cancelled_before_start, w)
  else let '(completed, w) := wait_async (sleep_duration_secs args) w in (inl (slept args completed), w).

(** ** Rebirth *)

Definition handle_rebirth `{Tokenizer} args (e : ContextEngine) : Answer * ContextEngine :=
  if (0 <? consecutive_rebirths e)%N then
    (inl (result_err (lit "Rebirth checkpoint was already applied. You cannot invoke rebirth consecutively. You must make progress on your tasks before invoking rebirth again.")), e)
  else
    match Json.value_get args (lit "summary") ≫= Json.as_str with
    | Some summary => (inl (result_ok (lit "Rebirth: compacted history and summarized progress.")), perform_rebirth e summary)
    | None => (inr (BadArguments TOOL_REBIRTH (lit "rebirth requires a `summary` string argument")), e)
    end.
Definition no_engine : Answer := inr (BadArguments TOOL_REBIRTH (lit "rebirth requires a live ContextEngine; use dispatch_with_engine")).
Definition rebirth `{Tokenizer} args (engine : option ContextEngine) : Answer * option ContextEngine :=
  match engine with Some e => let '(r, e) := handle_rebirth args e in (r, Some e) | None => (no_engine, None) end.
(** Any other tool lets a rebirth be asked for again. *)
Definition touch (name : str) (engine : option ContextEngine) : option ContextEngine :=
  if str_eqb name TOOL_REBIRTH then engine else reset_consecutive_rebirths <$> engine.

(** ** Tools of the servers *)

Definition mcp_route (name : str) (w : W) : bool := match mcp_gate w with Some g => route g (mcp_manager w) name | None => false end.
(** The verdict a call waits for: not at all unless the boot is under way and
    the tool is not there yet. *)
Definition ready_wait (name : str) (w : W) : option str * W :=
  if bool_decide (status (mcp_manager w) = Booting) && negb (live_registry_serves (mcp_manager w) name)
  then let m := mcp_manager w in let '(awaited, w) := await_verdict w in (gate_is_ready m awaited name, w)
  else (gate_is_ready (mcp_manager w) None name, w).
Definition call_mcp (name : str) args (w : W) : Answer * W :=
  let '(refused, w) := ready_wait name w in
  match refused with
  | Some reason => (inl (result_err reason), w)
  | None =>
      let '(x, w) := call_server name args w in
      (inl match x with inl content => result_ok content | inr e => result_err (lit "MCP tool error: " ++ e) end, w)
  end.
Definition dispatch_mcp (name : str) args (w : W) : option (Answer * W) := if mcp_route name w then Some (call_mcp name args w) else None.

(** ** The dispatchers *)

(** The arms of the file, search, command and terminal tools. *)
Definition tool_arm (name : str) : option Action :=
  if str_eqb name TOOL_DELEGATE_TASK then Some DelegateTask
  else if str_mem name [TOOL_READ_FILE; TERMINAL_READ_FILE] then Some ReadFile
  else if str_mem name [TOOL_REPLACE; TERMINAL_REPLACE] then Some ReplaceText
  else if str_mem name [TOOL_WRITE_FILE; TERMINAL_WRITE_FILE] then Some WriteFile
  else if str_mem name [TOOL_RUN_COMMAND; TERMINAL_RUN_COMMAND] then Some RunCommand
  else if str_mem name [TOOL_GREP_SEARCH; TERMINAL_GREP_SEARCH] then Some GrepSearch
  else if str_mem name [TOOL_GLOB; TERMINAL_GLOB] then Some GlobFiles
  else if str_eqb name TOOL_PTY_SPAWN then Some PtySpawn
  else if str_eqb name TOOL_PTY_WRITE then Some PtyWrite
  else if str_eqb name TOOL_PTY_READ then Some PtyRead
  else if str_eqb name TOOL_PTY_CLOSE then Some PtyClose
  else if str_eqb name TOOL_PTY_LIST then Some PtyList
  else None.

Section dispatchers.
Context `{Unicode} `{Tokenizer}.

Definition create_plan_of (keys : list str) (missing : str) args (w : W) : Answer * W :=
  match first_present args keys with Some md => write_plan_internal md w | None => (inl (result_err missing), w) end.
Definition create_plan args (w : W) : Answer * W :=
  create_plan_of [lit "plan_markdown"; lit "plan"] (lit "create_plan requires a `plan_markdown` or `plan` string argument") args w.
Definition create_plan_manager args (w : W) : Answer * W :=
  create_plan_of [lit "plan"; lit "plan_markdown"] (lit "create_plan requires a `plan` or `plan_markdown` string argument") args w.

(** [dispatch]: no caller, no engine. *)
Definition dispatch (tool : ToolInvocation) (w : W) : outcome (Answer * W) :=
  let name := canonical_tool_spelling (inv_name tool) in
  let args := inv_arguments tool in
  let clipped (x : Answer * W) := r ← limited (fst x); Ret (r, snd x) in
  match tool_arm name with
  | Some a => clipped (run_tool a args w)
  | None =>
      if str_eqb name TOOL_CREATE_PLAN then clipped (create_plan args w)
      else if str_eqb name TOOL_ARCHIVE_PLAN then clipped (archive_plan w)
      else if str_eqb name TOOL_PAUSE_EXECUTION then clipped (handle_pause_execution, w)
      else if str_eqb name TOOL_PAUSE_SUBAGENT then clipped (control_subagent args true w)
      else if str_eqb name TOOL_RESUME_SUBAGENT then clipped (control_subagent args false w)
      else if str_mem name [TOOL_SLEEP; TERMINAL_SLEEP] then clipped (handle_sleep args w)
      else if str_eqb name TOOL_REBIRTH then clipped (no_engine, w)
      else match dispatch_mcp (inv_name tool) args w with
           | Some x => Ret x
           | None => clipped (inr (UnknownTool (inv_name tool)), w)
           end
  end.
Definition dispatch_with_engine (tool : ToolInvocation) (e : ContextEngine) (w : W) : outcome (Answer * ContextEngine * W) :=
  if str_eqb (inv_name tool) TOOL_REBIRTH then let '(r, e) := handle_rebirth (inv_arguments tool) e in Ret (r, e, w)
  else '(r, w) ← dispatch tool w; Ret (r, reset_consecutive_rebirths e, w).

(** The manager's arms, with the sleep of the blocking or of the async path. *)
Definition manager_arms (sleep : Json.Value -> W -> Answer * W) (tool : ToolInvocation) (engine : option ContextEngine) (w : W)
    : Answer * option ContextEngine * W :=
  let name := inv_name tool in
  let args := inv_arguments tool in
  let engine := touch name engine in
  let plain (x : Answer * W) := (fst x, engine, snd x) in
  if str_eqb name TOOL_DELEGATE_TASK then plain (run_tool DelegateTask args w)
  else if str_eqb name TOOL_CREATE_PLAN then plain (create_plan_manager args w)
  else if str_eqb name TOOL_ARCHIVE_PLAN then plain (archive_plan w)
  else if str_eqb name TOOL_PAUSE_EXECUTION then plain (handle_pause_execution, w)
  else if str_eqb name TOOL_PAUSE_SUBAGENT then plain (control_subagent args true w)
  else if str_eqb name TOOL_RESUME_SUBAGENT then plain (control_subagent args false w)
  else if str_eqb name TOOL_REBIRTH then let '(r, engine) := rebirth args engine in (r, engine, w)
  else if str_eqb name TOOL_READ_FILE then plain (run_tool ReadFile args w)
  else if str_eqb name TOOL_GREP_SEARCH then plain (run_tool GrepSearch args w)
  else if str_eqb name TOOL_GLOB then plain (run_tool GlobFiles args w)
  else if is_sleep_tool_name name then plain (sleep args w)
  else if str_eqb name TOOL_REPLY_TO_ARBITRATOR then plain (run_tool (ReplyToArbitrator (lit "Manager")) args w)
  else match dispatch_mcp name args w with
       | Some x => plain x
       | None => plain (inr (Forbidden name (lit "Manager")), w)
       end.
Definition dispatch_manager (tool : ToolInvocation) (engine : option ContextEngine) (w : W) : Answer * option ContextEngine * W :=
  manager_arms handle_sleep tool engine w.
Definition dispatch_manager_async (tool : ToolInvocation) (engine : option ContextEngine) (w : W) : Answer * option ContextEngine * W :=
  manager_arms handle_sleep_async tool engine w.

(** Who may run a built-in tool: what the prompt names, or the role's registry
    entry; an answer to the arbitrator always. *)
Definition specialist_allows (caller : ToolCaller) (name : str) : bool :=
  let gate_name := normalize_tool_name name in
  if str_eqb gate_name TOOL_REPLY_TO_ARBITRATOR then true
  else match caller with
       | SpecialistWithTools _ allowed =>
           existsb (fun t => let norm := normalize_tool_name t in
                             str_eqb norm gate_name || str_eqb t name || str_eqb t gate_name || str_eqb norm name) allowed
       | Specialist agent => caller_allows_tool agent gate_name canonical_entries
       | Manager => false
       end.
Definition verdict_role_gate (name : str) (caller : ToolCaller) : option ToolError :=
  if caller_may_record_verdict caller then None else Some (Forbidden name (role_name caller)).
Definition record_verdict (name : str) (caller : ToolCaller) args : Answer :=
  match verdict_role_gate name caller with
  | Some e => inr e
  | None =>
      match parse_verdict_args args with
      | Some (approved, comments) =>
          inl (result_ok (lit "Verdict recorded via leave_verdict: " ++ (if approved then lit "APPROVED" else lit "REJECTED")
                          ++ lit " with comments: " ++ comments))
      | None => inr (BadArguments TOOL_LEAVE_VERDICT (lit "missing mandatory string field `verdict` ('APPROVED' or 'REJECTED')"))
      end
  end.

Definition specialist_arms (sleep : Json.Value -> W -> Answer * W) (tool : ToolInvocation) (caller : ToolCaller) (engine : option ContextEngine) (w : W)
    : Answer * option ContextEngine * W :=
  let name := inv_name tool in
  let args := inv_arguments tool in
  if str_mem name [TOOL_CREATE_PLAN; TOOL_PAUSE_SUBAGENT; TOOL_RESUME_SUBAGENT] then (inr (Forbidden name (role_name caller)), engine, w)
  else
    let '(goes_on, w) := wait_for_current_worker w in
    if negb goes_on then (inr (Execution CancelledWhilePaused), engine, w)
    else if mcp_route name w then
      let '(r, w) := call_mcp name args w in (r, touch name engine, w)
    else if negb (specialist_allows caller name) then (inr (Forbidden name (role_name caller)), engine, w)
    else
      let engine := touch name engine in
      let canon := canonical_tool_spelling name in
      let plain (x : Answer * W) := (fst x, engine, snd x) in
      match tool_arm canon with
      | Some a => plain (run_tool a args w)
      | None =>
          if is_leave_verdict_tool_name name then plain (record_verdict name caller args, w)
          else if str_mem canon [TOOL_SLEEP; TERMINAL_SLEEP] then plain (sleep args w)
          else if str_eqb canon TOOL_REPLY_TO_ARBITRATOR then plain (run_tool (ReplyToArbitrator (role_name caller)) args w)
          else if str_eqb canon TOOL_REBIRTH then let '(r, engine) := rebirth args engine in (r, engine, w)
          else plain (inr (UnknownTool name), w)
      end.
Definition dispatch_specialist (tool : ToolInvocation) (caller : ToolCaller) (engine : option ContextEngine) (w : W) : Answer * option ContextEngine * W :=
  specialist_arms handle_sleep tool caller engine w.
Definition dispatch_specialist_async (tool : ToolInvocation) (caller : ToolCaller) (engine : option ContextEngine) (w : W) : Answer * option ContextEngine * W :=
  specialist_arms handle_sleep_async tool caller engine w.

Definition limited_run (x : Answer * option ContextEngine * W) : outcome (Answer * option ContextEngine * W) :=
  let '(r, engine, w) := x in r ← limited r; Ret (r, engine, w).
Definition dispatch_for_with_engine (tool : ToolInvocation) (caller : ToolCaller) (engine : option ContextEngine) (w : W) : outcome (Answer * option ContextEngine * W) :=
  limited_run match caller with Manager => dispatch_manager tool engine w | specialist => dispatch_specialist tool specialist engine w end.
Definition dispatch_for_async_with_engine (tool : ToolInvocation) (caller : ToolCaller) (engine : option ContextEngine) (w : W) : outcome (Answer * option ContextEngine * W) :=
  limited_run match caller with Manager => dispatch_manager_async tool engine w | specialist => dispatch_specialist_async tool specialist engine w end.
Definition dispatch_for (tool : ToolInvocation) (caller : ToolCaller) (w : W) : outcome (Answer * option ContextEngine * W) :=
  dispatch_for_with_engine tool caller None w.
End dispatchers.
End handlers.
