(* ===== verification/DispatchFacts.v ===== *)
(** * What the dispatch of tool calls promises ([src/harness/mod.rs])

    A result is clipped to a head and a tail of its text without splitting a
    character; a caller's calls run the tools its rules allow and nothing else. *)

From S2P Require Import Prelude Str Decimal ToolNames ToolArgs Agents Mcp PlanParse Context Json FileTools FileFacts PathGate Verdict MarkersFacts FixLoop Dispatch.
Local Open Scope nat_scope.

(** ** Cutting on characters *)

Lemma is_char_boundary_split s i : is_char_boundary s i = true <-> exists a b, s = a ++ b /\ blen a = i.
Proof.
  unfold is_char_boundary. split.
  - destruct (split_at s i) as [[a b]|] eqn:E; [|done]. apply split_at_Some in E as [-> <-]. by exists a, b.
  - intros (a & b & -> & <-). by rewrite split_at_app.
Qed.
Lemma get_to_boundary s i : is_char_boundary s i = true -> exists a b, s = a ++ b /\ blen a = i /\ get_to s i = Some a /\ get_from s i = Some b.
Proof. intros (a & b & -> & <-)%is_char_boundary_split. exists a, b. split_and!; [done..|apply get_to_app|apply get_from_app]. Qed.
Lemma boundary_down_is s n : is_char_boundary s (boundary_down s n) = true /\ boundary_down s n <= n.
Proof.
  induction n as [|n [IH Hn]]; cbn [boundary_down]; [split; [by destruct s|done]|].
  destruct (is_char_boundary s (S n)) eqn:E; [done|]. split; [done|lia].
Qed.
(** A character has at most four bytes. *)
Lemma len_utf8_le c : len_utf8 c <= 4.
Proof. unfold len_utf8. repeat case_match; lia. Qed.
Lemma boundary_near s i : i <= blen s -> exists j, i <= j <= i + 3 /\ is_char_boundary s j = true.
Proof.
  revert i. induction s as [|c s IH]; intros i Hi; [rewrite blen_nil in Hi; exists 0; split; [lia|done]|].
  rewrite blen_cons in Hi. pose proof (len_utf8_le c). pose proof (len_utf8_pos c). destruct (decide (i = 0)) as [->|Hz]; [exists 0; split; [lia|done]|].
  destruct (decide (i <= len_utf8 c)) as [Hle|Hgt].
  - exists (len_utf8 c). split; [lia|]. apply is_char_boundary_split. exists [c], s. split; [done|]. rewrite blen_cons, blen_nil. lia.
  - destruct (IH (i - len_utf8 c) ltac:(lia)) as (j & Hj & (a & b & -> & <-)%is_char_boundary_split).
    exists (len_utf8 c + blen a). split; [lia|]. apply is_char_boundary_split. exists (c :: a), b. by rewrite blen_cons.
Qed.
Lemma boundary_up_is s fuel i j : i <= j -> is_char_boundary s j = true -> j <= i + fuel ->
  is_char_boundary s (boundary_up s fuel i) = true /\ i <= boundary_up s fuel i <= j.
Proof.
  revert i. induction fuel as [|fuel IH]; intros i Hij Hj Hf; cbn [boundary_up].
  - replace i with j by lia. split; [done|lia].
  - destruct (is_char_boundary s i) eqn:E; [split; [done|lia]|].
    destruct (IH (S i)) as [Hb Hr]; [|done|lia|split; [done|lia]]. destruct (decide (i = j)) as [->|]; [by rewrite E in Hj|lia].
Qed.
Lemma find_str_boundary needle s n : find_str needle s = Some n -> exists a b, s = a ++ needle ++ b /\ blen a = n.
Proof. intros E. apply find_str_Some in E as (a & b & Hs & Hn & _). exists a, b. by rewrite Hs. Qed.

(** The tail: on a boundary, within three bytes of the last 2000, or at the
    marker of a truncated read. *)
Lemma clip_tail_spec content : MAX_TOOL_OUTPUT_CHARS < blen content ->
  let at_ := clip_tail_start content (boundary_down content HEAD_LEN) in
  is_char_boundary content at_ = true /\ boundary_down content HEAD_LEN < at_ /\ at_ <= blen content - TAIL_LEN + 3 /\
  (blen content - TAIL_LEN <= at_ \/
   find_str READ_FILE_TRUNCATION_MARKER content = Some at_ /\ exists a b, content = a ++ READ_FILE_TRUNCATION_MARKER ++ b /\ blen a = at_).
Proof.
  intros Hl. cbn zeta. unfold MAX_TOOL_OUTPUT_CHARS in Hl. pose proof (boundary_down_is content HEAD_LEN) as [_ Hh].
  unfold HEAD_LEN in *. set (h := boundary_down content _) in *. unfold clip_tail_start, TAIL_LEN in *.
  destruct (boundary_near content (blen content - 20 * 100)) as (j & Hj & Hb); [lia|].
  destruct (boundary_up_is content (20 * 100) (blen content - 20 * 100) j) as [Hu Hr]; [lia|done|lia|].
  set (t := boundary_up content _ _) in *.
  destruct (find_str READ_FILE_TRUNCATION_MARKER content) as [n|] eqn:E; [|split_and!; [done|lia|lia|left; lia]].
  destruct ((h <? n) && (n <? t)) eqn:Em; [|split_and!; [done|lia|lia|left; lia]].
  apply andb_true_iff in Em as [Hn1%Nat.ltb_lt Hn2%Nat.ltb_lt]. pose proof E as (a & b & Hs & Ha)%find_str_boundary.
  split_and!; [|lia|lia|right; split; [done|by exists a, b]]. apply is_char_boundary_split. by exists a, (READ_FILE_TRUNCATION_MARKER ++ b).
Qed.
Lemma app_suffix_short (a b c d : str) : a ++ b = c ++ d -> blen d <= blen b -> exists e, b = e ++ d.
Proof.
  intros E Hl. destruct (app_eq_app a b c d E) as [m [(-> & ->)|(-> & ->)]]; [|by exists m].
  rewrite blen_app in Hl. assert (Hm : blen m = 0) by lia. apply blen_0 in Hm as ->. by exists [].
Qed.

(** clipping keeps both ends.  No text makes it panic; a plan and a text of
    at most 10000 bytes stay as they are; of any other a head of at most 7000
    bytes and a tail stay, cut between characters, and the notice between them
    counts what is left out.  The tail has at most 2000 bytes, unless it starts
    at the text's first marker of a truncated read, past the head: then it runs
    from there to the end, however long.  An ending of at most 1997 bytes stays
    whole. *)
Theorem clip_keeps_both_ends content :
  exists out, clip_content content = Ret out /\
    (is_plan_text content = true \/ blen content <= MAX_TOOL_OUTPUT_CHARS -> out = content) /\
    (is_plan_text content = false -> MAX_TOOL_OUTPUT_CHARS < blen content ->
     exists head middle tail, content = head ++ middle ++ tail /\ out = head ++ clip_notice (blen middle) (blen content) ++ tail /\
       blen head <= HEAD_LEN /\
       (blen tail <= TAIL_LEN \/ starts_with READ_FILE_TRUNCATION_MARKER tail = true /\
          find_str READ_FILE_TRUNCATION_MARKER content = Some (blen head + blen middle)) /\
       forall before ending, content = before ++ ending -> blen ending <= TAIL_LEN - 3 -> exists l, tail = l ++ ending).
Proof.
  unfold clip_content. destruct (is_plan_text content || (blen content <=? MAX_TOOL_OUTPUT_CHARS)) eqn:Ek.
  { exists content. split; [done|]. split; [done|]. intros Hp Hl. rewrite Hp in Ek. apply Nat.leb_le in Ek. lia. }
  apply orb_false_iff in Ek as [Hp Hl%Nat.leb_gt]. destruct (clip_tail_spec content Hl) as (Hb & Hlt & Hle & Hend).
  pose proof (boundary_down_is content HEAD_LEN) as [Hbd Hh]. rewrite (proj2 (Nat.ltb_lt _ _) Hlt).
  destruct (get_to_boundary _ _ Hbd) as (head & r1 & E1 & L1 & -> & _). destruct (get_to_boundary _ _ Hb) as (l2 & tail & E2 & L2 & _ & ->).
  cbn [unwrap mbind outcome_bind]. eexists. split; [done|]. split; [rewrite Hp; intros [?|?]; [done|lia]|]. intros _ _.
  assert (Hm : exists middle, l2 = head ++ middle).
  { rewrite E1 in E2. destruct (app_eq_app head r1 l2 tail E2) as [m [(-> & _)|(-> & _)]]; [|by exists m]. rewrite blen_app in L1. lia. }
  destruct Hm as [middle ->]. exists head, middle, tail. rewrite <-app_assoc in E2.
  assert (Hblen : blen content = blen head + blen middle + blen tail) by (rewrite E2, !blen_app; lia). rewrite blen_app in L2.
  split; [done|]. split; [by replace (blen content - (blen head + blen tail)) with (blen middle) by lia|]. split; [lia|]. split.
  - destruct Hend as [Hge|(Hf & a & b & Ea & La)]; [left; lia|]. right. split; [|by rewrite Hf, <-L2].
    apply starts_with_true. exists b.
    assert (Ht : (head ++ middle) ++ tail = a ++ READ_FILE_TRUNCATION_MARKER ++ b) by by rewrite <-app_assoc, <-E2.
    assert (Ha : head ++ middle = a) by (apply (MarkersFacts.blen_prefix_inj _ tail _ _ Ht); rewrite blen_app; lia).
    rewrite Ha in Ht. by apply app_inv_head in Ht.
  - intros before ending Eb Hle'. apply (app_suffix_short (head ++ middle) tail before ending); [by rewrite <-app_assoc, <-E2|].
    unfold TAIL_LEN, MAX_TOOL_OUTPUT_CHARS in *. lia.
Qed.

Lemma limited_total r : exists r', limited r = Ret r' /\ (forall ok, r' = inl ok -> exists ok', r = inl ok').
Proof.
  destruct r as [ok|e]; cbn [limited]; [|by exists (inr e)]. unfold apply_tool_output_length_limit.
  assert (Hc : exists out, clip_content (result_content ok) = Ret out).
  { unfold clip_content. destruct (_ || (_ <=? _)) eqn:Ek; [by eexists|]. apply orb_false_iff in Ek as [_ Hl%Nat.leb_gt].
    destruct (clip_tail_spec _ Hl) as (Hb & Hlt & _). rewrite (proj2 (Nat.ltb_lt _ _) Hlt).
    destruct (get_to_boundary _ _ (proj1 (boundary_down_is (result_content ok) HEAD_LEN))) as (head & r1 & _ & _ & -> & _).
    destruct (get_to_boundary _ _ Hb) as (l2 & tail & _ & _ & _ & ->). by eexists. }
  destruct Hc as [out ->]. cbn [mbind outcome_bind]. eexists. split; [done|]. intros _ _. by exists ok.
Qed.

(** ** What a caller's calls can do *)

(** The handlers a caller's calls may reach: the manager's are its arms, a
    role's those of the names its rules allow. *)
Definition granted (caller : ToolCaller) : list Action :=
  match caller with
  | Manager => [DelegateTask; ReadFile; GrepSearch; GlobFiles; ReplyToArbitrator (lit "Manager")]
  | c => ReplyToArbitrator (role_name c) :: omap (fun name => if specialist_allows c name then tool_arm (canonical_tool_spelling name) else None) BUILTIN_TABLE
  end.

Lemma tool_arm_builtin name a : tool_arm (canonical_tool_spelling name) = Some a -> name ∈ BUILTIN_TABLE.
Proof.
  intros E. apply tool_claimed. unfold canonical_tool_spelling in E. destruct (normalize_tool_alias name) as [t|] eqn:En; [by eexists|].
  cbn [default] in E. exfalso. assert (Hn : name ∉ CANONICAL_TOOL_NAMES).
  { intros Hin. pose proof canonicals_known as Hk. rewrite forallb_forall in Hk. apply list_elem_of_In in Hin. specialize (Hk _ Hin).
    apply bool_decide_eq_true in Hk as [t Ht]. by rewrite En in Ht. }
  assert (Hi : forall k, k ∈ CANONICAL_TOOL_NAMES -> str_eqb name k = false) by (intros k Hk; destruct (str_eqb name k) eqn:Ee; [apply str_eqb_eq in Ee as ->; done|done]).
  unfold tool_arm, str_mem in E. cbn [existsb] in E. rewrite !Hi in E by (apply (bool_decide_unpack _); by vm_compute). done.
Qed.
Lemma granted_spec caller name a : caller <> Manager -> specialist_allows caller name = true -> tool_arm (canonical_tool_spelling name) = Some a ->
  a ∈ granted caller.
Proof.
  intros Hc Ha Ht. assert (Hin : a ∈ omap (fun name => if specialist_allows caller name then tool_arm (canonical_tool_spelling name) else None) BUILTIN_TABLE).
  { apply list_elem_of_omap. exists name. split; [by apply (tool_arm_builtin _ a)|by rewrite Ha]. }
  destruct caller; [done|by right..].
Qed.
Lemma arms_take_no_verdict : forallb (fun name => negb (is_leave_verdict_tool_name name) || bool_decide (tool_arm (canonical_tool_spelling name) = None)) BUILTIN_TABLE = true.
Proof. by vm_compute. Qed.
Lemma verdict_has_no_arm name : is_leave_verdict_tool_name name = true -> tool_arm (canonical_tool_spelling name) = None.
Proof.
  intros Hv. destruct (tool_arm _) as [a|] eqn:E; [|done]. pose proof arms_take_no_verdict as Hf. rewrite forallb_forall in Hf.
  pose proof (tool_arm_builtin _ _ E) as Hin%list_elem_of_In. specialize (Hf _ Hin). rewrite Hv in Hf. cbn [negb orb] in Hf. apply bool_decide_eq_true in Hf. by rewrite E in Hf.
Qed.

Section gate.
Context `{JsonText} `{!NumberValues} {W : Type} `{!Runtime W} `{Unicode} `{Tokenizer}.
Implicit Types (w : W).

(** What a call of [caller] may do to the state keeps [I]. *)
Record permitted (I : W -> Prop) (caller : ToolCaller) : Prop := {
  keeps_wait : forall w, I w -> I (snd (wait_for_current_worker w));
  keeps_sleep : forall secs w, I w -> I (snd (wait_async secs w));
  keeps_boot : forall w, I w -> I (snd (await_verdict w));
  keeps_servers : forall name args w, name ∉ BUILTIN_TABLE -> I w -> I (snd (call_server name args w));
  keeps_tools : forall a args w, a ∈ granted caller -> I w -> I (snd (run_tool a args w));
  keeps_plans : forall md w, caller = Manager -> I w -> I (snd (audit_plan md w)) /\ I (snd (store_plan md w)) /\ I (snd (archive_plan_file w));
  keeps_pauses : forall key paused w, caller = Manager -> I w -> I (snd (set_paused key paused w))
}.

Lemma mcp_route_outside name w : mcp_route name w = true -> name ∉ BUILTIN_TABLE.
Proof.
  unfold mcp_route. destruct (mcp_gate w) as [g|]; [|done]. unfold route, resolves_to_builtin_handler, is_builtin_tool_name.
  destruct (str_mem name BUILTIN_TABLE) eqn:E; [done|]. intros _ Hin%str_mem_true. by rewrite E in Hin.
Qed.
Lemma call_mcp_keeps I caller name args w : permitted I caller -> name ∉ BUILTIN_TABLE -> I w -> I (snd (call_mcp name args w)).
Proof.
  intros HI Hn Hw. unfold call_mcp. assert (Hr : I (snd (ready_wait name w))).
  { unfold ready_wait. destruct (_ && _); [|done]. pose proof (keeps_boot _ _ HI w Hw) as Hb. by destruct (await_verdict w). }
  destruct (ready_wait name w) as [refused w1]. destruct refused as [reason|]; [done|].
  pose proof (keeps_servers _ _ HI name args w1 Hn Hr) as Hs. by destruct (call_server name args w1).
Qed.
Lemma sleep_keeps I caller args w : permitted I caller -> I w -> I (snd (handle_sleep_async args w)).
Proof.
  intros HI Hw. unfold handle_sleep_async. destruct (_ || _); [done|]. pose proof (keeps_sleep _ _ HI (sleep_duration_secs args) w Hw) as Hs.
  by destruct (wait_async _ w).
Qed.
Lemma control_keeps I args paused w : permitted I Manager -> I w -> I (snd (control_subagent args paused w)).
Proof.
  intros HI Hw. unfold control_subagent. destruct (_ ≫= _) as [key|]; [|done]. destruct (is_empty _); [done|].
  pose proof (keeps_pauses _ _ HI key paused w eq_refl Hw) as Hs. by destruct (set_paused key paused w).
Qed.
Lemma archive_keeps I w : permitted I Manager -> I w -> I (snd (archive_plan w)).
Proof.
  intros HI Hw. unfold archive_plan. destruct (has_active_workers w); [done|]. pose proof (keeps_plans _ _ HI [] w eq_refl Hw) as (_ & _ & Hs).
  by destruct (archive_plan_file w).
Qed.
Lemma create_keeps I args w : permitted I Manager -> I w -> I (snd (create_plan_manager args w)).
Proof.
  intros HI Hw. unfold create_plan_manager, create_plan_of. destruct (first_present _ _) as [md|]; [|done]. unfold write_plan_internal.
  assert (Hv : I (snd (plan_verdict md w))).
  { unfold plan_verdict. destruct (plan_validation_enabled w); [|done]. destruct (plan_precheck md); [done|].
    pose proof (keeps_plans _ _ HI md w eq_refl Hw) as (Ha & _). destruct (audit_plan md w) as [[[[]]|] w1]; [done..|]. by destruct (_ || _). }
  destruct (plan_verdict md w) as [[refusal|] w1]; [done|]. pose proof (keeps_plans _ _ HI md w1 eq_refl Hv) as (_ & Hs & _). by destruct (store_plan md w1).
Qed.
Lemma manager_keeps I tool engine w : permitted I Manager -> I w -> I (snd (dispatch_manager_async tool engine w)).
Proof.
  intros HI Hw. unfold dispatch_manager_async, manager_arms. set (args := inv_arguments tool). set (name := inv_name tool). set (e := touch name engine).
  assert (Ht : forall a, a ∈ granted Manager -> I (snd (run_tool a args w))) by (intros a Ha; by apply (keeps_tools _ _ HI)).
  repeat match goal with |- I (snd (if ?b then _ else _)) => destruct b end; cbn [snd].
  all: try (apply Ht; cbn [granted]; set_solver).
  all: try first [done|by apply create_keeps|by apply archive_keeps|by apply control_keeps|by apply (sleep_keeps _ Manager)].
  - by destruct (rebirth args e).
  - unfold dispatch_mcp. destruct (mcp_route name w) eqn:Er; [|done]. by apply (call_mcp_keeps _ Manager); [|apply (mcp_route_outside _ w)|].
Qed.
Lemma specialist_keeps I tool caller engine w : caller <> Manager -> permitted I caller -> I w -> I (snd (dispatch_specialist_async tool caller engine w)).
Proof.
  intros Hc HI Hw. unfold dispatch_specialist_async, specialist_arms. set (args := inv_arguments tool). set (name := inv_name tool).
  destruct (str_mem name _); [done|]. pose proof (keeps_wait _ _ HI w Hw) as Hw1. destruct (wait_for_current_worker w) as [goes_on w1]. cbn [snd] in Hw1.
  destruct goes_on; [|done]. cbn [negb]. destruct (mcp_route name w1) eqn:Er.
  { pose proof (call_mcp_keeps I caller name args w1 HI (mcp_route_outside _ _ Er) Hw1) as Hs. by destruct (call_mcp name args w1). }
  destruct (specialist_allows caller name) eqn:Ea; [|done]. cbn [negb]. destruct (tool_arm _) as [a|] eqn:Et.
  { cbn [snd]. apply (keeps_tools _ _ HI); [by apply (granted_spec _ name)|done]. }
  destruct (is_leave_verdict_tool_name name); [done|]. destruct (str_mem _ _); [by apply (sleep_keeps _ caller)|].
  destruct (str_eqb _ TOOL_REPLY_TO_ARBITRATOR); [apply (keeps_tools _ _ HI); [destruct caller; [done|by left..]|done]|].
  destruct (str_eqb _ TOOL_REBIRTH); [by destruct (rebirth args _)|done].
Qed.

(** C8: a call does what its caller may.  Whatever the granted handlers, the
    servers' own tools, the pauses and, for the manager, the plan's and the
    subagents' control keep of the state, a dispatched call keeps, and clipping
    its result cannot fail.  A role never plans or pauses another.  A name that
    a server of the gate serves is none of the program's own, and is answered by
    that server whatever the role's rules say; any other name the rules do not
    allow is refused, the history untouched; and of the names no server serves a
    verdict's is answered to a validator only. *)
Theorem calls_stay_within (I : W -> Prop) tool caller engine w : permitted I caller -> I w ->
  exists r engine' w', dispatch_for_async_with_engine tool caller engine w = Ret (r, engine', w') /\ I w' /\
    (caller <> Manager ->
      (inv_name tool ∈ [TOOL_CREATE_PLAN; TOOL_PAUSE_SUBAGENT; TOOL_RESUME_SUBAGENT] ->
        r = inr (Forbidden (inv_name tool) (role_name caller)) /\ engine' = engine /\ w' = w) /\
      (mcp_route (inv_name tool) (snd (wait_for_current_worker w)) = true ->
        inv_name tool ∉ BUILTIN_TABLE /\ normalize_tool_alias (inv_name tool) = None /\
        (fst (wait_for_current_worker w) = true ->
          let '(answer, w1) := call_mcp (inv_name tool) (inv_arguments tool) (snd (wait_for_current_worker w)) in
          limited answer = Ret r /\ w' = w1)) /\
      (mcp_route (inv_name tool) (snd (wait_for_current_worker w)) = false ->
        (specialist_allows caller (inv_name tool) = false -> exists e, r = inr e /\ engine' = engine) /\
        (is_leave_verdict_tool_name (inv_name tool) = true -> forall ok, r = inl ok -> caller_agent caller = Some Validator))).
Proof.
  intros HI Hw. unfold dispatch_for_async_with_engine. assert (Hm : caller = Manager \/ caller <> Manager) by (destruct caller; [by left|by right..]). destruct Hm as [->|Hc].
  { pose proof (manager_keeps I tool engine w HI Hw) as Hk. destruct (dispatch_manager_async tool engine w) as [[r e] w1].
    destruct (limited_total r) as (r' & Er & _). exists r', e, w1. unfold limited_run. by rewrite Er. }
  pose proof (specialist_keeps I tool caller engine w Hc HI Hw) as Hk.
  replace (match caller with Manager => dispatch_manager_async tool engine w | specialist => dispatch_specialist_async tool specialist engine w end)
    with (dispatch_specialist_async tool caller engine w) by by destruct caller.
  destruct (dispatch_specialist_async tool caller engine w) as [[r e] w1] eqn:E. destruct (limited_total r) as (r' & Er & Hok).
  exists r', e, w1. unfold limited_run. rewrite Er. split; [done|]. split; [done|]. intros _. unfold dispatch_specialist_async, specialist_arms in E. split_and!.
  - intros Hn%str_mem_true. rewrite Hn in E. injection E as <- <- <-. by injection Er as <-.
  - intros Hr. pose proof (mcp_route_outside _ _ Hr) as Hout. split; [done|]. split.
    { destruct (normalize_tool_alias _) eqn:En; [|done]. destruct Hout. apply tool_claimed. by eexists. }
    destruct (str_mem _ _) eqn:Em.
    { apply str_mem_true in Em. destruct Hout. revert Em. clear. intros Em.
      assert (Hb : Forall (fun n => n ∈ BUILTIN_TABLE) [TOOL_CREATE_PLAN; TOOL_PAUSE_SUBAGENT; TOOL_RESUME_SUBAGENT])
        by by apply (bool_decide_unpack _); vm_compute.
      rewrite Forall_forall in Hb. by apply Hb. }
    destruct (wait_for_current_worker w) as [goes_on w0]. cbn [fst snd] in *. intros ->. cbn [negb] in E. rewrite Hr in E.
    destruct (call_mcp _ _ _) as [a w2]. by injection E as <- <- <-.
  - destruct (str_mem _ _); [injection E as <- <- <-; injection Er as <-; intros _; split; [intros _; by eexists|done]|].
    destruct (wait_for_current_worker w) as [goes_on w0]. cbn [snd]. intros Hr.
    destruct goes_on; cbn [negb] in E; [|injection E as <- <- <-; injection Er as <-; split; [intros _; by eexists|done]].
    rewrite Hr in E. destruct (specialist_allows caller (inv_name tool)) eqn:Ea; cbn [negb] in E.
    + split; [done|]. intros Hv ok ->. rewrite (verdict_has_no_arm _ Hv), Hv in E. injection E as <- <- <-.
      destruct (Hok ok eq_refl) as [ok' Eo]. unfold record_verdict, verdict_role_gate in Eo. rewrite verdict_caller in Eo.
      destruct (bool_decide _) eqn:Eb; [by apply bool_decide_eq_true in Eb|done].
    + injection E as <- <- <-. injection Er as <-. split; [intros _; by eexists|done].
Qed.
End gate.

(** ** At concrete inputs *)

#[local] Existing Instance ascii_tables.
#[local] Existing Instance demo_numbers.
#[local] Existing Instance demo_json.
#[local] Instance letters : Tokenizer := {| encode_ordinary_len s := length s |}.
#[local] Instance no_numbers : NumberValues := {| number_as_u64 _ := None; number_as_i64 _ := None; number_as_f64 _ := None |}.
(** A process that records the handlers that ran, beside two servers. *)
#[local] Instance recorded : Runtime (list Action) := {|
  run_tool a _ w := (inl (result_ok (lit "ran")), w ++ [a]);
  mcp_gate _ := Some (build_gate booted); mcp_manager _ := booted; await_verdict w := (None, w); call_server _ _ w := (inl (lit "page"), w);
  wait_for_current_worker w := (true, w); set_paused _ _ w := (None, w); global_cancelled _ := false; worker_cancelled _ := false;
  wait_blocking _ w := (true, w); wait_async _ w := (true, w);
  plan_validation_enabled _ := false; audit_plan _ w := (inl (true, []), w); store_plan _ w := (inl (lit "stored"), w);
  has_active_workers _ := false; archive_plan_file w := (inl None, w); plan_exists _ := true; pending_tasks _ := []
|}.
Definition called (name : str) (args : Json.Value) : ToolInvocation := {| inv_name := name; inv_arguments := args |}.

(** The handlers each role reaches through its registry entry. *)
Example what_roles_reach :
  map (fun a => let l := granted (Specialist a) in map (fun x => bool_decide (x ∈ l)) [WriteFile; ReplaceText; RunCommand; PtySpawn; DelegateTask; ReadFile])
    [Coder; Researcher; Debugger; Validator; Generalist; Planner] =
  [[true; true; true; false; true; true]; [true; true; true; false; true; true]; [true; true; true; true; true; true];
   [false; false; true; true; true; true]; [true; true; true; true; true; true]; [false; false; false; false; false; true]].
Proof. vm_compute. reflexivity. Qed.

(** A validator changes no file through the file tools. *)
Definition no_file_written (w : list Action) : Prop := WriteFile ∉ w /\ ReplaceText ∉ w.
Lemma validator_permitted : permitted no_file_written (Specialist Validator).
Proof.
  assert (Hn : bool_decide (WriteFile ∈ granted (Specialist Validator)) = false /\ bool_decide (ReplaceText ∈ granted (Specialist Validator)) = false)
    by by vm_compute. destruct Hn as [Hw%bool_decide_eq_false Hr%bool_decide_eq_false].
  split; [done..| |done|done]. intros a args w Ha [Hi Hj]. unfold no_file_written. cbn [run_tool recorded snd].
  rewrite !not_elem_of_app, !list_elem_of_singleton. split_and!; [done|by intros <-|done|by intros <-].
Qed.
Definition audit_call : ToolInvocation := called TOOL_LEAVE_VERDICT (VObject [(lit "verdict", VString (lit "REJECTED")); (lit "comments", VString (lit "no tests"))]).
Lemma calls_stay_within_witness :
  no_file_written [] /\
  exists r engine' w', dispatch_for_async_with_engine audit_call (Specialist Validator) None [] = Ret (r, engine', w') /\ no_file_written w'.
Proof.
  assert (Hi : no_file_written []) by (split; apply not_elem_of_nil). split; [exact Hi|].
  destruct (calls_stay_within no_file_written audit_call (Specialist Validator) None [] validator_permitted Hi) as (r & e & w' & E & Hw & _).
  exists r, e, w'. exact (conj E Hw).
Defined.
Definition answered (tool : ToolInvocation) (caller : ToolCaller) : option Answer :=
  match dispatch_for_async_with_engine tool caller None [] with Ret (r, _, _) => Some r | _ => None end.
Example calls_at_work :
  answered audit_call (Specialist Validator) = Some (inl (result_ok (lit "Verdict recorded via leave_verdict: REJECTED with comments: no tests"))) /\
  answered audit_call (Specialist Coder) = Some (inr (Forbidden TOOL_LEAVE_VERDICT (lit "coder"))) /\
  answered (called (lit "kiwix__search") VNull) (Specialist Planner) = Some (inl (result_ok (lit "page"))) /\
  answered (called (lit "terminal__run_command") VNull) (Specialist Planner) = Some (inr (Forbidden (lit "terminal__run_command") (lit "planner"))) /\
  answered (called TOOL_RUN_COMMAND VNull) Manager = Some (inr (Forbidden TOOL_RUN_COMMAND (lit "Manager"))).
Proof. vm_compute. done. Qed.
