(* ===== verification/Reply.v ===== *)
(** * Replies to the arbitrator ([src/harness/mod.rs], [src/orchestrator/notice.rs])

    A worker answers a steering notice: the reply resolves the notice, the
    arbitrator's model judges it, and the user is told an answer or the worker is
    asked on, under the same notice.  The steps are those of the notice store and
    of the history of exchanges; what the model says is a parameter. *)

From S2P Require Import Prelude Str Decimal ToolNames ToolArgs Agents Thinking Json Notice NoticeFacts NoticeProps Steer Registry RegistryView PathGate.
Local Open Scope nat_scope.

(** ** What the arbitrator says of a reply *)

Record WorkerReplyEvaluation := { eval_decision : str; eval_response : option str; follow_up_prompt : option str; user_status : option str }.
(** The derived reader of an evaluation. *)
Class EvaluationJson := { evaluation_from_json : str -> option WorkerReplyEvaluation }.

Section evaluation.
Context `{JsonText} `{EvaluationJson}.

(** A text field that says something. *)
Definition spoken (v : Json.Value) (key : str) : option str :=
  match (s ← Json.value_get v key ≫= Json.as_str; Some (trim s)) with
  | Some s => if is_empty s then None else Some s
  | None => None
  end.
(** An object without the shape of an evaluation that says enough of one. *)
Definition salvaged (slice : str) : option WorkerReplyEvaluation :=
  match from_json slice with
  | Some (VObject m) =>
      let v := VObject m in
      let response := spoken v (lit "response") in
      let follow_up := spoken v (lit "follow_up_prompt") in
      let said b := match b with Some _ => true | None => false end in
      let decision := default (if said follow_up && negb (said response) then lit "AskFollowUp" else lit "SynthesizeResponse") (spoken v (lit "decision")) in
      if said response || said follow_up then
        Some {| eval_decision := decision; eval_response := response; follow_up_prompt := follow_up; user_status := spoken v (lit "user_status") |}
      else None
  | _ => None
  end.
Definition fenced (raw : str) : option str :=
  let inside stripped := trim (strip_fences (length stripped) stripped) in
  match strip_prefix (FENCE ++ lit "json") raw with
  | Some stripped => Some (inside stripped)
  | None => inside <$> strip_prefix FENCE raw
  end.
Definition parse_worker_reply_evaluation (raw : str) : option WorkerReplyEvaluation :=
  match fenced raw ≫= evaluation_from_json with
  | Some e => Some e
  | None =>
      let in_braces := match upto_last_brace raw with
                       | Some upto => or_else (find_map evaluation_from_json (from_braces upto)) (find_map salvaged (from_braces upto))
                       | None => None
                       end in
      match in_braces with Some e => Some e | None => evaluation_from_json raw end
  end.

Definition explains (worker_tag reply : str) : str := lit "Specialist [" ++ worker_tag ++ lit "] explains: " ++ reply.
Definition looks_like_json (raw : str) : bool :=
  starts_with (lit "{") raw || starts_with FENCE raw || contains (QUOTE ++ lit "decision" ++ QUOTE) raw.
(** [said] is what the model's turn ended with in time: its content, and what it
    streamed.  The demuxer is total. *)
Definition evaluate_worker_reply (worker_tag reply : str) (said : option (str * str)) : option WorkerReplyEvaluation :=
  let raw := match said with Some (content, streamed) => if is_empty (trim content) then streamed else content | None => [] end in
  d ← demux_stream raw;
  let text := if is_empty (trim (d_content d)) then trim (d_thinking d) else trim (d_content d) in
  Some match parse_worker_reply_evaluation text with
       | Some e => e
       | None =>
           {| eval_decision := lit "SynthesizeResponse";
              eval_response := Some (if negb (is_empty text) && negb (looks_like_json text) then text else explains worker_tag reply);
              follow_up_prompt := None; user_status := None |}
       end.
End evaluation.

(** ** The handler *)

(** The text of a refusal. *)
Definition describe_rejection (r : NoticeReplyRejection) : str :=
  match r with
  | MissingNoticeId => lit "a reply must carry an explicit `notice_id` naming the steering notice it answers (the id shown in the delivered notice); no notice is guessed"
  | UnknownNoticeId id tag =>
      lit "notice '" ++ id ++ lit "' is not pending for worker '" ++ tag ++ lit "' (unknown, expired, or dropped before this reply) "
      ++ EM_DASH ++ lit " no notice was guessed instead"
  | AlreadyReplied id tag =>
      lit "notice '" ++ id ++ lit "' was already resolved by an earlier reply (second reply from worker '" ++ tag ++ lit "' ignored)"
  | WorkerMismatch id tag addressed_to =>
      lit "notice '" ++ id ++ lit "' is pending but addressed to '" ++ addressed_to ++ lit "', not to the replying worker '" ++ tag ++ lit "'"
  end.

(** What the interface is sent. *)
Inductive Event := SteerResponse (text : str) | Status (text : str).
Record Desk := { notices_of : Store; history : option (list (str * str)); events : list Event }.
Definition file (nid inquiry record : str) (e : Event) (s : Desk) : Desk :=
  {| notices_of := notices_of s; history := record_steering_exchange (Some nid) inquiry record (history s); events := events s ++ [e] |}.

Section handler.
Context `{DashOrder} `{Unicode} `{JsonText}.

Definition reply_worker_identity `{Tokens} (current : option Token) (caller : str) (r : Registry) : str :=
  default (trim caller) (active_worker_key_for_reply current caller r).

Definition arbitrator_says (text : str) : Event := SteerResponse ([NL] ++ lit "[Arbitrator]: " ++ text ++ [NL; NL]).
Definition asks_on (e : WorkerReplyEvaluation) : option str :=
  if eq_ignore_ascii_case (eval_decision e) (lit "AskFollowUp") then follow_up_prompt e else None.
Definition follow_up_record (id target question caller message : str) : str :=
  lit "Forwarded follow-up " ++ id ++ lit " to " ++ target ++ lit ": " ++ QUOTE ++ question ++ QUOTE ++ lit " (awaiting specialist reply)" ++ [NL]
  ++ lit "[Specialist " ++ caller ++ lit " prior reply]: " ++ message.
Definition follow_up_target (caller : str) (n : SteerNotice) : str := if is_empty (trim (target_worker n)) then caller else target_worker n.
Definition synthesized_record (caller message resp : str) : str :=
  if contains message resp then resp else resp ++ [NL] ++ lit "[Specialist " ++ caller ++ lit "]: " ++ message.

(** The judgement on the reply to [n] is acted on. *)
Definition act_on (now_prune now : N) (caller message : str) (n : SteerNotice) (judged : WorkerReplyEvaluation + str) (s : Desk) : ToolResult * Desk :=
  let id := notice_id n in
  match judged with
  | inl e =>
      match asks_on e with
      | Some question =>
          let target := follow_up_target caller n in
          let '(posted, store) := post_notice_to_worker now_prune now target question (Some id) (notices_of s) in
          let shown := match user_status e with
                       | Some status => arbitrator_says status
                       | None => Status (lit "[Arbitrator]: Follow-up question sent to " ++ target ++ lit " (" ++ notice_id posted ++ lit ")")
                       end in
          (result_ok (lit "Reply to notice '" ++ id ++ lit "' received by Arbitrator. Arbitrator has posted follow-up question: " ++ QUOTE ++ question ++ QUOTE
                      ++ lit ". Check notices and reply when ready."),
           file id (user_inquiry n) (follow_up_record (notice_id posted) target question caller message) shown
             {| notices_of := store; history := history s; events := events s |})
      | None =>
          let resp := default (explains caller message) (eval_response e) in
          (result_ok (lit "Reply to Arbitrator for notice '" ++ id ++ lit "' recorded successfully (original inquiry: " ++ QUOTE ++ user_inquiry n ++ QUOTE ++ lit ")."),
           file id (user_inquiry n) (synthesized_record caller message resp) (arbitrator_says resp) s)
      end
  | inr error =>
      (result_ok (lit "Reply to Arbitrator for notice '" ++ id ++ lit "' recorded successfully (original inquiry: " ++ QUOTE ++ user_inquiry n ++ QUOTE
                  ++ lit ", note: " ++ error ++ lit ")."),
       file id (user_inquiry n) (explains caller message) (arbitrator_says (explains caller message)) s)
  end.

(** [clock], [now], [now_prune] and [posted_at] are the clock readings of the
    store; [judge] is the evaluation, awaited after the reply was recorded. *)
Definition handle_reply_to_arbitrator (clock : str -> N) (now now_prune posted_at : N) (caller worker_key : str) (args : Json.Value)
    (judge : SteerNotice -> str -> WorkerReplyEvaluation + str) (s : Desk) : (ToolResult + ToolError) * Desk :=
  let requested := default [] (Json.value_get args (lit "notice_id") ≫= Json.as_str) in
  match Json.value_get args (lit "message") ≫= Json.as_str with
  | None => (inr (BadArguments TOOL_REPLY_TO_ARBITRATOR (lit "missing mandatory string field `message`")), s)
  | Some message =>
      let '(x, store) := record_worker_reply_for_notice clock now worker_key requested message (notices_of s) in
      match x with
      | inr rejection =>
          (inr (BadArguments TOOL_REPLY_TO_ARBITRATOR
                  (lit "reply rejected (" ++ kind rejection ++ lit "): " ++ describe_rejection rejection ++ lit " " ++ EM_DASH
                   ++ lit " nothing was recorded and no notice was resolved; send the exact `notice_id` shown as `ID: <notice_id>` in the delivered notice")),
           {| notices_of := store; history := history s; events := events s |})
      | inl n =>
          let s := {| notices_of := store; history := history s;
                      events := events s ++ [Status (lit "[" ++ caller ++ lit "] Replied to notice " ++ notice_id n ++ lit " " ++ EM_DASH ++ lit " Steer Arbitrator evaluating...")] |} in
          let '(r, s) := act_on now_prune posted_at caller message n (judge n message) s in (inl r, s)
      end
  end.
End handler.

(** ** What a reply settles *)

Section facts.
Context `{DashOrder} `{Unicode} `{JsonText}.
Implicit Types (s : Desk) (n : SteerNotice).

Lemma contains_app_l needle (a b : str) : contains needle a = true -> contains needle (a ++ b) = true.
Proof. rewrite !contains_true. intros (x & y & ->). exists x, (y ++ b). by rewrite <-!app_assoc. Qed.
Lemma contains_end needle (a : str) : contains needle (a ++ needle) = true.
Proof. apply contains_true. exists a, []. by rewrite app_nil_r. Qed.
Lemma synthesized_says caller message resp : contains message (synthesized_record caller message resp) = true.
Proof. unfold synthesized_record. destruct (contains message resp) eqn:E; [done|]. rewrite !app_assoc. apply contains_end. Qed.

Lemma explains_says caller message : contains message (explains caller message) = true.
Proof. unfold explains. rewrite !app_assoc. apply contains_end. Qed.

(** The question the judgement asks, if it asks one. *)
Definition question_of (judged : WorkerReplyEvaluation + str) : option str := match judged with inl e => asks_on e | inr _ => None end.
(** What is filed. *)
Definition record_of (caller message : str) (n : SteerNotice) (judged : WorkerReplyEvaluation + str) : str :=
  match question_of judged with
  | Some q => follow_up_record (notice_id n) (follow_up_target caller n) q caller message
  | None => match judged with
            | inl e => synthesized_record caller message (default (explains caller message) (eval_response e))
            | inr _ => explains caller message
            end
  end.
Lemma record_says caller message n judged : contains message (record_of caller message n judged) = true.
Proof.
  unfold record_of. destruct (question_of judged); [|destruct judged; [apply synthesized_says|apply explains_says]].
  unfold follow_up_record. rewrite !app_assoc. apply contains_end.
Qed.
(** The store after the judgement. *)
Definition settled (now_prune now : N) (caller : str) (n : SteerNotice) (question : option str) (st : Store) : Store :=
  match question with
  | Some q => snd (post_notice_to_worker_tracked now_prune now (follow_up_target caller n) q (Some (notice_id n)) st)
  | None => st
  end.
Lemma act_on_spec np now caller message n judged s :
  let '(r, s') := act_on np now caller message n judged s in
  is_error r = false /\ notices_of s' = settled np now caller n (question_of judged) (notices_of s) /\
  (exists e, events s' = events s ++ [e]) /\
  history s' = record_steering_exchange (Some (notice_id n)) (user_inquiry n) (record_of caller message n judged) (history s).
Proof.
  unfold act_on, record_of, question_of, settled. destruct judged as [e|error]; [|split_and!; [done|done|by eexists|done]].
  destruct (asks_on e) as [q|]; [|split_and!; [done|done|by eexists|done]]. unfold post_notice_to_worker.
  destruct (post_notice_to_worker_tracked _ _ _ _ _ _) as [o st] eqn:Ep. cbn [file notices_of history events snd is_error result_ok].
  split_and!; [done|done|by eexists|]. by destruct (post_inv _ _ _ _ _ _ _ _ Ep) as (_ & _ & _ & _ & id & _ & [= <- _] & -> & _).
Qed.

(** A notice that is posted again under its id is pending, as the newest of its
    inbox. *)
Lemma repost_pending np now target q id st : store_ok st -> issued st id -> pending st !! id = None ->
  let st' := snd (post_notice_to_worker_tracked np now target q (Some id) st) in
  let n := {| notice_id := id; user_inquiry := q; target_worker := inbox_key target; created_at_ms := now |} in
  store_ok st' /\ pending st' !! id = Some n /\ last (peek_worker_inbox st' target) = Some n.
Proof.
  intros Hok Hi Hp. cbn zeta. pose proof (post_ok st np now target q (Some id) Hok (conj Hi Hp)) as Hok'.
  destruct (post_notice_to_worker_tracked _ _ _ _ _ _) as [o st'] eqn:E. cbn [snd] in *. split; [done|].
  destruct (post_inv _ _ _ _ _ _ _ _ E) as (_ & _ & _ & _ & id' & _ & [= <- _] & Ho & _).
  destruct (post_conserves _ _ _ _ _ _ _ _ E) as (_ & _ & _ & kept & ib & _ & _ & _ & _ & _ & _ & Hib & Hn & _).
  rewrite Ho in Hn. split.
  - pose proof (coherent_live _ _ (ok_coherent _ Hok') _ _ (post_notice o) Hib) as Hl. rewrite Ho in Hl. apply Hl. rewrite Hn. apply elem_of_app. right. by left.
  - unfold peek_worker_inbox. by rewrite Hib, Hn, last_snoc.
Qed.

(** What the store makes of the reply. *)
Lemma reply_recorded clock now key id message st : store_ok st -> (replied_seq st + 1 < 2 ^ 64)%N ->
  match record_worker_reply_for_notice clock now key id message st with
  | (inl n, st') =>
      is_empty (trim id) = false /\ pending st !! trim id = Some n /\ notice_id n = trim id /\ notice_addresses_worker n (trim key) = true /\
      store_ok st' /\ pending st' !! trim id = None /\ issued st' (trim id)
  | (inr _, st') => st' = st /\ forall n, pending st !! trim id = Some n -> notice_addresses_worker n (trim key) && negb (is_empty (trim id)) = false
  end.
Proof.
  intros Hok Hseq. pose proof (record_reply_spec clock now key id message st Hok) as Hr. cbv zeta in Hr.
  pose proof (step_ok _ _ Hok (step_reply st clock now key id message Hseq)) as Hok1. unfold record_worker_reply_for_notice, check_reply in *.
  pose proof (commit_reply_spec clock now (trim key) (trim id) message st (ok_coherent _ Hok)) as Hc.
  destruct (is_empty (trim id)) eqn:Hi; [split; [done|]; intros n _; apply andb_false_r|].
  destruct (pending st !! trim id) as [n|] eqn:Hp; [|by destruct (replied st !! trim id)].
  destruct (notice_addresses_worker n (trim key)) eqn:Ha; [|split; [done|]; intros n' [= <-]; by rewrite Ha].
  destruct (commit_reply _ _ _ _ _ _) as [[n'|rejection] st']; cbn [snd] in *; [|by destruct Hc as [Hc _]].
  destruct Hc as [[= <-] He]. split_and!; try done; [by apply (coherent_id _ _ (ok_coherent _ Hok))|rewrite (re_pending _ _ _ _ _ _ _ He); apply lookup_delete_eq|].
  destruct (ok_issued _ Hok (trim id)) as (k & Hk & Ek); [by eexists|]. exists k. by rewrite (re_next_id _ _ _ _ _ _ _ He).
Qed.

(** C26: a reply settles its notice.  A call without a message, and a refused
    one, change nothing and are answered by an error.  Otherwise the notice was
    pending for this worker, and whatever the arbitrator's model says the call
    succeeds, two events are emitted, one exchange that holds the worker's words is
    handed to the history, which files it when one is registered, the store stays well formed, and the notice is either
    resolved or pending again as the newest of its inbox, with the question the
    worker is asked on. *)
Theorem reply_settles_its_notice clock now np later caller key args judge s :
  store_ok (notices_of s) -> (replied_seq (notices_of s) + 1 < 2 ^ 64)%N ->
  let id := default [] (Json.value_get args (lit "notice_id") ≫= Json.as_str) in
  let '(r, s') := handle_reply_to_arbitrator clock now np later caller key args judge s in
  store_ok (notices_of s') /\
  match Json.value_get args (lit "message") ≫= Json.as_str with
  | None => (exists detail, r = inr (BadArguments TOOL_REPLY_TO_ARBITRATOR detail)) /\ s' = s
  | Some message =>
      match pending (notices_of s) !! trim id with
      | Some n =>
          if notice_addresses_worker n (trim key) && negb (is_empty (trim id)) then
            let question := question_of (judge n message) in
            (exists ok, r = inl ok /\ is_error ok = false) /\
            (exists asked shown, events s' = events s ++ [asked; shown]) /\
            history s' = record_steering_exchange (Some (trim id)) (user_inquiry n) (record_of caller message n (judge n message)) (history s) /\
            contains message (record_of caller message n (judge n message)) = true /\
            match question with
            | None => pending (notices_of s') !! trim id = None
            | Some q =>
                let n' := {| notice_id := trim id; user_inquiry := q; target_worker := inbox_key (follow_up_target caller n); created_at_ms := later |} in
                pending (notices_of s') !! trim id = Some n' /\ last (peek_worker_inbox (notices_of s') (follow_up_target caller n)) = Some n'
            end
          else (exists detail, r = inr (BadArguments TOOL_REPLY_TO_ARBITRATOR detail)) /\ s' = s
      | None => (exists detail, r = inr (BadArguments TOOL_REPLY_TO_ARBITRATOR detail)) /\ s' = s
      end
  end.
Proof.
  intros Hok Hseq. cbn zeta. unfold handle_reply_to_arbitrator. set (id := default [] _).
  destruct (Json.value_get args (lit "message") ≫= Json.as_str) as [message|]; [|split; [done|split; [by eexists|done]]].
  pose proof (reply_recorded clock now key id message (notices_of s) Hok Hseq) as Hr.
  destruct (record_worker_reply_for_notice _ _ _ _ _ _) as [[n|rejection] st].
  2:{ destruct Hr as [-> Hr]. split; [done|]. replace {| notices_of := notices_of s; history := history s; events := events s |} with s by by destruct s.
      destruct (pending (notices_of s) !! trim id) as [n|]; [rewrite (Hr n eq_refl)|]; by split; [eexists|]. }
  destruct Hr as (Hi & -> & Hid & -> & Hok1 & Hgone & Hiss). rewrite Hi. cbn [andb negb].
  match goal with |- context [act_on np later caller message n _ ?x] => pose proof (act_on_spec np later caller message n (judge n message) x) as Hact end.
  destruct (act_on _ _ _ _ _ _ _) as [r s']. destruct Hact as (Hr & Hst & [e He] & Hh). cbn [notices_of history events] in *.
  rewrite Hid in Hh. unfold settled in Hst. rewrite Hid in Hst.
  assert (Hmid : (exists ok, @inl ToolResult ToolError r = inl ok /\ is_error ok = false) /\ exists asked shown, events s' = events s ++ [asked; shown])
    by (split; [by eexists|rewrite He, <-app_assoc; by eexists _, _]).
  pose proof (record_says caller message n (judge n message)) as Hsays.
  rewrite Hst. destruct (question_of (judge n message)) as [q|]; [|by destruct Hmid as (? & ?)].
  pose proof (repost_pending np later (follow_up_target caller n) q (trim id) st Hok1 Hiss Hgone) as (Hs' & Hl). by destruct Hmid as (? & ?).
Qed.

(** ** An exchange that goes on *)

Lemma find_split_fresh c needle (a b : str) : c ∉ a -> find_split (c :: needle) (a ++ c :: needle ++ b) = Some (a, b).
Proof.
  induction a as [|x a IH]; intros Hc; cbn [app find_split].
  - by rewrite (proj2 (strip_prefix_Some (c :: needle) (c :: needle ++ b) b) eq_refl).
  - apply not_elem_of_cons in Hc as [Hx Hc]. cbn [strip_prefix]. apply N.eqb_neq in Hx as Hx'. rewrite Hx'. by rewrite (IH Hc).
Qed.
Lemma notice_id_plain k : Forall (fun c => is_whitespace c = false) (spell_notice_id k).
Proof.
  apply Forall_app. split; [by repeat constructor|]. eapply Forall_impl; [apply pretty_digits|]. intros c. unfold is_ascii_digit. char_lia.
Qed.
(** The record of a follow-up names its notice, and stands open. *)
Lemma follow_up_open k target q caller message i :
  names_entry (spell_notice_id k) (i, follow_up_record (spell_notice_id k) target q caller message) = true.
Proof.
  unfold names_entry. cbn [snd]. apply andb_true_iff. split.
  - unfold entry_names_notice_id. rewrite NoticeRouting.trim_plain by apply notice_id_plain. change (is_empty (spell_notice_id k)) with false.
    unfold match_indices, follow_up_record. change (spell_notice_id k) with (ch "n" :: lit "otice-" ++ lit (pretty.pretty k)) at 1.
    cbn [matches_from]. change (spell_notice_id k) with (ch "n" :: lit "otice-" ++ lit (pretty.pretty k)).
    assert (Hn : ch "n" ∉ lit "Forwarded follow-up ") by (apply (bool_decide_unpack _); by vm_compute).
    match goal with |- context [find_split ?w (?a ++ ?w ++ ?b)] => rewrite (find_split_fresh _ _ a b Hn : find_split w (a ++ w ++ b) = Some (a, b)) end. cbn [existsb]. apply orb_true_iff. by left.
  - unfold steering_entry_is_pending. apply orb_true_iff. right. apply existsb_exists. exists (lit "follow-up"). split; [by right; right; left|].
    apply contains_true. exists (lit "Forwarded "), (lit " " ++ spell_notice_id k ++ lit " to " ++ target ++ lit ": " ++ QUOTE ++ q ++ QUOTE ++ lit " (awaiting specialist reply)" ++ [NL]
      ++ lit "[Specialist " ++ caller ++ lit " prior reply]: " ++ message). done.
Qed.
Lemma update_latest_at p resp (l1 l2 : list (str * str)) x : p x = true -> Forall (fun y => p y = false) l2 ->
  update_latest p resp (l1 ++ x :: l2) = Some (l1 ++ (fst x, resp) :: l2).
Proof.
  intros Hx Hl. unfold update_latest. rewrite rev_app_distr. cbn [rev]. rewrite <-app_assoc. cbn [app].
  assert (Hu : forall a b, Forall (fun y => p y = false) a -> update_first p resp (a ++ x :: b) = Some (a ++ (fst x, resp) :: b)).
  { intros a b. induction 1 as [|y a Hy _ IH]; cbn [app update_first]; [by rewrite Hx|by rewrite Hy, IH]. }
  rewrite Hu by by apply Forall_rev. cbn [fmap option_fmap option_map]. rewrite rev_app_distr. cbn [rev]. by rewrite !rev_involutive, <-app_assoc.
Qed.

(** C27: a follow-up keeps its exchange.  Wherever the record of a follow-up is
    filed, the next reply to its notice replaces it there, whatever the history
    holds and however the inquiry is spelled then; no other entry changes. *)
Theorem follow_up_keeps_its_exchange k target q caller message inquiry later resp hist :
  let id := spell_notice_id k in let asked := follow_up_record id target q caller message in
  exists l1 i l2,
    record_steering_exchange (Some id) inquiry asked (Some hist) = Some (l1 ++ (i, asked) :: l2) /\
    record_steering_exchange (Some id) later resp (Some (l1 ++ (i, asked) :: l2)) = Some (l1 ++ (i, resp) :: l2).
Proof.
  cbn zeta. pose proof (follow_up_open k target q caller message) as Hopen. set (id := spell_notice_id k) in *. set (asked := follow_up_record _ _ _ _ _) in *.
  assert (Hrec : forall i r h, record_steering_exchange (Some id) i r (Some h) =
    Some (match or_else (update_latest (names_entry id) r h) (update_latest (inquiry_entry i) r h) with Some h' => h' | None => h ++ [(i, r)] end)).
  { intros i r h. unfold record_steering_exchange. by rewrite (NoticeRouting.trim_plain id (notice_id_plain k)). }
  assert (Hnext : forall l1 i l2, Forall (fun y => names_entry id y = false) l2 ->
    record_steering_exchange (Some id) later resp (Some (l1 ++ (i, asked) :: l2)) = Some (l1 ++ (i, resp) :: l2)).
  { intros l1 i l2 Hl. rewrite Hrec, update_latest_at by done. done. }
  rewrite (Hrec inquiry asked hist). pose proof (update_latest_spec (names_entry id) asked hist) as Hu.
  destruct (update_latest (names_entry id) asked hist) as [h|]; cbn [or_else].
  - destruct Hu as (l1 & e & l2 & -> & _ & Hl & ->). exists l1, (fst e), l2. by rewrite Hnext.
  - pose proof (update_latest_spec (inquiry_entry inquiry) asked hist) as Hv. destruct (update_latest (inquiry_entry inquiry) asked hist) as [h|].
    + destruct Hv as (l1 & e & l2 & Eh & _ & _ & ->). exists l1, (fst e), l2. split; [done|]. apply Hnext. rewrite Eh in Hu.
      apply Forall_app in Hu as [_ Hu]. by inversion Hu.
    + exists hist, inquiry, []. split; [done|]. by apply Hnext.
Qed.
End facts.

(** The arbitrator's model is always understood: its answer, a salvaged object,
    its words, or the worker's own. *)
Lemma evaluation_total `{JsonText} `{EvaluationJson} worker_tag reply said : is_Some (evaluate_worker_reply worker_tag reply said).
Proof.
  unfold evaluate_worker_reply. match goal with |- context [demux_stream ?raw] => destruct (demux_total raw) as [d ->] end. by eexists.
Qed.

(** ** At concrete inputs *)

#[local] Existing Instance ascii_tables.
#[local] Existing Instance gmap_order.
#[local] Existing Instance demo_numbers.
#[local] Existing Instance demo_json.
#[local] Instance demo_evaluations : EvaluationJson := {|
  evaluation_from_json s :=
    match from_json s with
    | Some (VObject m) =>
        let text key := map_get m key ≫= Json.as_str in
        d ← text (lit "decision");
        Some {| eval_decision := d; eval_response := text (lit "response"); follow_up_prompt := text (lit "follow_up_prompt"); user_status := text (lit "user_status") |}
    | _ => None
    end
|}.
Definition demo_desk : Desk := {| notices_of := posted_store; history := Some [(lit "stop", lit "ForwardToWorker notice-1")]; events := [] |}.
Definition answer_args (id : str) : Json.Value := VObject [(lit "message", VString (lit "nearly done")); (lit "notice_id", VString id)].
Definition model_says (text : str) (n : SteerNotice) (message : str) : WorkerReplyEvaluation + str :=
  match evaluate_worker_reply (lit "coder") message (Some (text, [])) with Some e => inl e | None => inr [] end.
Definition answered (args : Json.Value) (text : str) (s : Desk) : (ToolResult + ToolError) * Desk :=
  handle_reply_to_arbitrator (fun _ => 3000%N) 3000 3001 3002 (lit "coder") (lit "coder-t-01") args (model_says text) s.
Definition asks : str := put (VObject [(lit "decision", VString (lit "AskFollowUp")); (lit "follow_up_prompt", VString (lit "When?"))]).

Lemma reply_settles_its_notice_witness :
  store_ok (notices_of demo_desk) /\
  exists n' s', answered (answer_args (lit "notice-1")) asks demo_desk = (inl (result_ok (lit "Reply to notice 'notice-1' received by Arbitrator. Arbitrator has posted follow-up question: "
     ++ QUOTE ++ lit "When?" ++ QUOTE ++ lit ". Check notices and reply when ready.")), s') /\
    store_ok (notices_of s') /\ pending (notices_of s') !! lit "notice-1" = Some n'.
Proof.
  assert (Hq : (replied_seq (notices_of demo_desk) + 1 < 2 ^ 64)%N) by by vm_compute. pose proof posted_store_ok as Hok. split; [exact Hok|].
  pose proof (reply_settles_its_notice (fun _ => 3000%N) 3000 3001 3002 (lit "coder") (lit "coder-t-01") (answer_args (lit "notice-1")) (model_says asks) demo_desk Hok Hq) as Hs.
  cbv zeta in Hs. change (handle_reply_to_arbitrator _ _ _ _ _ _ _ _ _) with (answered (answer_args (lit "notice-1")) asks demo_desk) in Hs.
  assert (E : bool_decide (is_Some (pending (notices_of (snd (answered (answer_args (lit "notice-1")) asks demo_desk))) !! lit "notice-1")) = true) by by vm_compute.
  assert (Er : fst (answered (answer_args (lit "notice-1")) asks demo_desk) = inl (result_ok (lit "Reply to notice 'notice-1' received by Arbitrator. Arbitrator has posted follow-up question: "
     ++ QUOTE ++ lit "When?" ++ QUOTE ++ lit ". Check notices and reply when ready."))) by by vm_compute.
  destruct (answered (answer_args (lit "notice-1")) asks demo_desk) as [r s']. cbn [fst snd] in *. subst r.
  apply bool_decide_eq_true in E as [n' En]. exists n', s'. split; [reflexivity|]. split; [exact (proj1 Hs)|exact En].
Defined.

(** The worker is asked on, then answers: the inquiry keeps its one exchange. *)
Example a_conversation :
  let s1 := snd (answered (answer_args (lit "notice-1")) asks demo_desk) in
  let s2 := snd (answered (answer_args (lit " notice-1 ")) (lit "By noon, it says.") s1) in
  (length <$> history s1) = Some 1 /\ history s2 = Some [(lit "stop", lit "By noon, it says." ++ [NL] ++ lit "[Specialist coder]: nearly done")] /\
  length (events s2) = 4 /\ pending (notices_of s2) !! lit "notice-1" = None.
Proof. vm_compute. done. Qed.
(** An answer that is there but blank is shown to the user as it is; the text
    that stands in for a missing one is not used. *)
Example a_blank_answer :
  last (events (snd (answered (answer_args (lit "notice-1")) (put (VObject [(lit "decision", VString (lit "SynthesizeResponse")); (lit "response", VString [])])) demo_desk)))
  = Some (arbitrator_says []).
Proof. vm_compute. done. Qed.
