(* ===== verification/Specialist.v ===== *)
(** * The loop of a specialist ([src/agents/runner/execution.rs], [src/agents/runner/assembly.rs])

    One run of a worker: what it is offered, what its task requires of it, its
    turns, and the deliverable it hands back.  The turns share their history,
    their tools and their stream with the fix loop; unlike it they have no
    bound of their own, so a run is followed for as many turns as are given.
    Its passes of validation are runs of the fix loop. *)

From Stdlib Require Import Floats.SpecFloat.
From S2P Require Import Prelude Str Decimal TaskId ToolNames Agents Wire Markers Json CallArguments Repetition Monitor Context Notice Registry Journal Retry Thinking XmlRescue Client Stream Verdict FixLoop.
Local Open Scope nat_scope.

(** ** Deliverables *)

Definition update_revision (final_content revised : str) : str :=
  if is_empty revised then final_content
  else if is_empty final_content then revised
  else if contains revised final_content then final_content
  else final_content ++ [NL; NL] ++ revised.

Definition completed_deliverable (final_content : str) (task_id : option str) : str :=
  if has_replan_marker final_content then final_content
  else if is_empty (trim final_content)
  then lit "Specialist terminated without deliverable." ++ [NL; NL] ++ failed_trailer (lit "incomplete")
  else
    match (tid ← task_id; if is_empty (trim tid) then None else Some tid) with
    | Some tid =>
        let token := decorated MARKER_COMPLETE tid in
        if contains token final_content then final_content else final_content ++ [NL; NL] ++ token
    | None => if has_complete_marker final_content then final_content else final_content ++ [NL; NL] ++ MARKER_COMPLETE
    end.
Definition rejection_head (validator_critique : option str) : str :=
  match validator_critique with
  | Some critique => lit "VALIDATOR REJECTION: " ++ critique ++ [NL] ++ lit "---------------" ++ [NL]
  | None => []
  end.
Definition rejection_trailer (validator_critique : option str) : str :=
  failed_trailer (match validator_critique with
                  | Some _ => lit "Validator rejected deliverable"
                  | None => lit "Task incomplete or terminated prematurely"
                  end).
Definition assemble_final_deliverable (validation_passed : bool) (validator_critique : option str) (final_content : str) (task_id : option str) : outcome str :=
  if validation_passed then Ret (completed_deliverable final_content task_id)
  else
    revoked ← revoke_completion final_content;
    let rejected := rejection_head validator_critique ++ revoked in
    Ret (if has_failure_marker rejected || has_replan_marker rejected then rejected
         else rejected ++ [NL; NL] ++ rejection_trailer validator_critique).

(** ** What a task requires *)

Definition validation_configured_for_role (agent : Agent) (enable_validator : bool) : bool :=
  enable_validator && negb (bool_decide (agent = Validator) || bool_decide (agent = Planner)).
Definition validation_probe_engaged (agent : Agent) (enable_validator : bool) (max_val_iterations : nat) (has_prompts_dir : bool) : bool :=
  has_prompts_dir && validation_configured_for_role agent enable_validator && (0 <? max_val_iterations).
Definition validation_verdict_required (agent : Agent) (enable_validator : bool) (max_val_iterations : nat) (validation_skip_reason : option str) : bool :=
  validation_configured_for_role agent enable_validator && (0 <? max_val_iterations) && bool_decide (validation_skip_reason = None).

(** Why the verdict of a task is not to be had. *)
Inductive Gap := NoTaskId | NoBrief (file : str) | UnreadableBrief (file : str) | BlankBrief (file : str) | RefusedId (tid : str) (error : TaskIdError).
Record Posture := { requires_validation : bool; validation_skip_reason : option str; verdict_gap : option Gap }.
Definition probed_gap `{Unicode} (read : str -> ReadEnd) (clean_task_id : option str) : option str * option Gap :=
  match clean_task_id with
  | None => (None, Some NoTaskId)
  | Some tid =>
      match probe_validation_brief read tid with
      | Absent file =>
          match validation_skip_record_for_task read (Some tid) with
          | Some reason => (Some reason, None)
          | None => (None, Some (NoBrief file))
          end
      | Unreadable file => (None, Some (UnreadableBrief file))
      | Blank file => (None, Some (BlankBrief file))
      | Present _ _ => (None, None)
      | InvalidTaskId error => (None, Some (RefusedId tid error))
      end
  end.
Definition posture_of `{Unicode} (read : str -> ReadEnd) (has_prompts_dir : bool) (agent : Agent) (enable_validator : bool) (max_val_iterations : nat)
    (clean_task_id : option str) : Posture :=
  let '(skip, gap) := if validation_probe_engaged agent enable_validator max_val_iterations has_prompts_dir
                      then probed_gap read clean_task_id else (None, None) in
  {| requires_validation := validation_verdict_required agent enable_validator max_val_iterations skip;
     validation_skip_reason := skip; verdict_gap := gap |}.

(** ** The state of a run *)

Definition MAX_CONSECUTIVE_THINKING_NUDGES : nat := 5.
Definition MAX_CONSECUTIVE_MALFORMED_TOOL_CALLS : nat := 5.
Definition MAX_CONSECUTIVE_VERDICT_ROLE_REJECTIONS : nat := 3.
(** The bound of the corrective nudges, a literal of the code. *)
Definition NUDGES : nat := 2.

Section run.
Context `{Unicode} `{ChunkJson} `{JsonText} `{Tokens} `{Uuids} `{Tokenizer} `{JsonPrinter} {K : Type} `{StreamSink K}.

(** The state it shares with a fix loop, whose counts are those of the nudges
    and of the turns with malformed calls and whose bounds are never read, and
    the local variables of the loop. *)
Record RunState := {
  core : LoopState (K := K);
  final_content : str;
  thinking_nudges : nat;
  rejections : nat;
  tools_executed : nat;
  validation_passed : bool;
  validator_critique : option str;
  val_iter : nat
}.
Definition on_core (f : LoopState -> LoopState) (s : RunState) : RunState :=
  {| core := f (core s); final_content := final_content s; thinking_nudges := thinking_nudges s; rejections := rejections s;
     tools_executed := tools_executed s; validation_passed := validation_passed s; validator_critique := validator_critique s; val_iter := val_iter s |}.
Definition with_content (text : str) (s : RunState) : RunState :=
  {| core := core s; final_content := text; thinking_nudges := thinking_nudges s; rejections := rejections s;
     tools_executed := tools_executed s; validation_passed := validation_passed s; validator_critique := validator_critique s; val_iter := val_iter s |}.
Definition with_thinking (n : nat) (s : RunState) : RunState :=
  {| core := core s; final_content := final_content s; thinking_nudges := n; rejections := rejections s;
     tools_executed := tools_executed s; validation_passed := validation_passed s; validator_critique := validator_critique s; val_iter := val_iter s |}.
Definition with_rejections (n : nat) (s : RunState) : RunState :=
  {| core := core s; final_content := final_content s; thinking_nudges := thinking_nudges s; rejections := n;
     tools_executed := tools_executed s; validation_passed := validation_passed s; validator_critique := validator_critique s; val_iter := val_iter s |}.
Definition with_executed (n : nat) (s : RunState) : RunState :=
  {| core := core s; final_content := final_content s; thinking_nudges := thinking_nudges s; rejections := rejections s;
     tools_executed := n; validation_passed := validation_passed s; validator_critique := validator_critique s; val_iter := val_iter s |}.
Definition with_verdict (passed : bool) (critique : option str) (s : RunState) : RunState :=
  {| core := core s; final_content := final_content s; thinking_nudges := thinking_nudges s; rejections := rejections s;
     tools_executed := tools_executed s; validation_passed := passed; validator_critique := critique; val_iter := val_iter s |}.
Definition with_val_iter (n : nat) (s : RunState) : RunState :=
  {| core := core s; final_content := final_content s; thinking_nudges := thinking_nudges s; rejections := rejections s;
     tools_executed := tools_executed s; validation_passed := validation_passed s; validator_critique := validator_critique s; val_iter := n |}.

(** What the system answers to a turn; [audit] is the run of a validator on a
    deliverable, with the prompt of the task or the role's. *)
Record Turn := {
  cancelled_at_turn : bool;
  turn_notices : list SteerNotice;
  turn_stamp : Now;
  turn_sink : K;
  cancelled_in_stream : bool;
  turn_calls : nat -> CallScript;
  late_notices : list SteerNotice;
  cancelled_before_pass : bool;
  turn_prompts : str -> ReadEnd;
  turn_prompts_dir : bool;
  audit : str -> option str -> Run (Ended * LoopState (K := K));
  cancelled_after_pass : bool
}.

(** The settings of a run.  The texts of what names a path, an error of the
    system or a quoted text are arguments. *)
Record RunParams := {
  base : LoopParams;
  run_agent : Agent;
  run_caller : ToolCaller;
  raw_task_id : option str;
  max_val_iterations : nat;
  posture : Posture;
  gap_text : Gap -> str;
  critique_wording : Critique -> str;
  refusal_text : Refusal -> str
}.
Definition failure_text (p : RunParams) (f : PassFailure) : str :=
  match f with AbortedBySignal => lit "Validation aborted by cancellation signal." | BackendFailed e => refusal_text p e end.
Definition critique_text (p : RunParams) (c : Critique) : str := match c with Said text => text | _ => critique_wording p c end.
Definition max_tokens_of (p : RunParams) : N := N.max (p_max_stream_tokens (base p)) 256.
Definition max_thinking_of (p : RunParams) : N := N.max (p_max_thinking_tokens (base p)) 256.
Definition task_ref (p : RunParams) : str := default (lit "task") (raw_task_id p).
Definition replan_about (p : RunParams) (why : str) : str := MARKER_REPLAN ++ lit " (" ++ task_ref p ++ lit "): " ++ why.
Definition rebirth_notice : str :=
  lit "(SYSTEM: Rebirth checkpoint accepted. Conversation history has been compacted. Do not call rebirth consecutively without making progress. Proceed immediately using your required tools to perform the task and conclude with '"
  ++ MARKER_COMPLETE ++ lit "').".

(** What a run hands back. *)
Inductive Returned :=
  | AbortedByUser
  | ReplansWith (text : str)
  | Delivers (passed : bool) (critique : option str) (content : str)
  | FailsWith (e : Refusal).
Definition aborted_by_user : str := Markers.aborted_deliverable (lit "aborted by user instruction").
Definition deliverable (task_id : option str) (x : Returned) : outcome (result str Refusal) :=
  match x with
  | AbortedByUser => Ret (Ok aborted_by_user)
  | ReplansWith text => Ret (Ok text)
  | Delivers passed critique content => text ← assemble_final_deliverable passed critique content task_id; Ret (Ok text)
  | FailsWith e => Ret (Err e)
  end.
(** A turn is followed by the next, leaves the loop, or returns. *)
Inductive TurnEnd := NextTurn (s : RunState) | LeavesLoop (s : RunState) | Returns (x : Returned) (s : RunState).

Definition status (p : RunParams) (text : str) (s : RunState) : RunState :=
  on_core (fun c => with_registry (set_active_worker_status (p_worker_key (base p)) text (registry c)) c) s.
Definition progress (p : RunParams) (turn : nat) (s : RunState) : RunState :=
  on_core (fun c => with_registry (update_active_worker_progress (p_worker_key (base p)) turn (val_iter s) (validator_critique s) (registry c)) c) s.
Definition aborts (p : RunParams) (s : RunState) : TurnEnd := Returns AbortedByUser (status p (lit "Aborted") s).
Definition tell (text : str) (s : RunState) : RunState := on_core (mirror_append_here (User text)) s.
Definition retold (m : Message) (s : RunState) : RunState :=
  on_core (fun c => on_history (mirror_replace_last (engine c) (journal c) m) c) s.
Definition note (text : str) : Message := Assistant (Some text) None [].
Definition count_nudges (n : nat) (s : RunState) : RunState := on_core (fun c => with_counts n (malformed c) c) s.
Definition nudge_count (s : RunState) : nat := nudges (core s).

(** ** A reply without calls *)

Definition SUCH_AS : str := lit "(such as `read_file`, `write_file`, `replace`, `run_command`, etc.)".
Definition or_conclude : str := lit "or conclude with '" ++ MARKER_COMPLETE ++ lit "'.".
Definition THINKING_ONLY : str := lit "[Thinking completed without content or tool calls]".
Definition assistant_reply (reply : StreamedReply) (tcs : list ToolCall) : Message :=
  Assistant (Some (if is_empty (reply_content reply) && is_empty tcs && negb (is_empty (reply_reasoning reply)) then THINKING_ONLY else reply_content reply))
    (none_if_empty (reply_reasoning reply)) tcs.

Definition over_thinking (p : RunParams) (reply : StreamedReply) (s : RunState) : TurnEnd :=
  let s := with_thinking (thinking_nudges s + 1) s in
  let limit := decN (max_thinking_of p) in
  if MAX_CONSECUTIVE_THINKING_NUDGES <=? thinking_nudges s then
    Returns (ReplansWith (replan_about p (lit "task too complex " ++ EM_DASH ++ lit " exceeded single-turn reasoning budget of " ++ limit ++ lit " tokens "
                                          ++ dec MAX_CONSECUTIVE_THINKING_NUDGES ++ lit " times consecutively without completing work.")))
      (status p (lit "Replan Required (task too complex)") s)
  else
    let content := if is_empty (trim (reply_content reply))
                   then lit "[Reasoning budget reached: exceeded " ++ limit ++ lit " token limit]" else reply_content reply in
    NextTurn (tell (lit "SYSTEM NOTICE: Maximum reasoning budget of " ++ limit
                    ++ lit " tokens reached for this turn. Stop internal thinking immediately. Proceed directly to output your deliverables or execute required tools "
                    ++ SUCH_AS ++ lit ".")
                (retold (Assistant (Some content) (none_if_empty (reply_reasoning reply)) []) s)).
Definition over_budget (p : RunParams) (s : RunState) : TurnEnd :=
  let limit := decN (max_tokens_of p) in
  if nudge_count s <? NUDGES then
    let s := count_nudges (nudge_count s + 1) s in
    NextTurn (tell (lit "SYSTEM NOTICE: Your response exceeded the single-turn output budget limit (" ++ limit
                    ++ lit " tokens) and was truncated. Please be concise, call your required tools " ++ SUCH_AS ++ lit " to perform the work, " ++ or_conclude)
                (retold (note (lit "[Generation truncated: exceeded " ++ limit ++ lit " token single-turn limit]")) s))
  else Returns (ReplansWith (replan_about p (lit "Specialist exceeded output token budget " ++ limit ++ lit " repeatedly without completing work or issuing tools."))) s.
Definition looping (p : RunParams) (s : RunState) : TurnEnd :=
  if nudge_count s <? NUDGES then
    let s := count_nudges (nudge_count s + 1) s in
    let s := retold (note (lit "[Generation interrupted due to repetitive loop]")) s in
    let s := on_core (fun c => with_stream (new_detector (p_repetition_threshold (base p)) (p_min_pattern_len (base p))) (world c) c) s in
    NextTurn (tell (lit "SYSTEM NOTICE: Repetitive generation loop detected in your responses. Terminate conversational debate immediately and invoke your required tools (such as `read_file`, `write_file`, `run_command`, etc.) to perform the required work, "
                    ++ or_conclude) s)
  else LeavesLoop s.
Definition inconclusive (reply : StreamedReply) (s : RunState) : TurnEnd :=
  if nudge_count s <? NUDGES then
    let s := count_nudges (nudge_count s + 1) s in
    NextTurn (tell (if is_empty (trim (reply_content reply)) && negb (is_empty (reply_reasoning reply)) then
        lit "SYSTEM NOTICE: Your thoughts completed but you produced 0 output text and 0 tool calls. Do not remain silent in thoughts. You MUST execute your required tools "
        ++ SUCH_AS ++ lit " to write files to disk and perform the task, " ++ or_conclude
      else
        lit "SYSTEM NOTICE: You did not call any tools or output " ++ MARKER_COMPLETE ++ lit ". Do not output conversational prose. Immediately use your tools "
        ++ SUCH_AS ++ lit " to perform the required work, create/update any requested files in the workspace, and conclude with '" ++ MARKER_COMPLETE ++ lit "'.") s)
  else LeavesLoop s.

(** *** A deliverable and its validation *)

Definition TALKED : str := lit "Specialist generated conversational text without executing any tools.".
Definition work_summary (n : nat) : str := lit "Specialist executed " ++ dec n ++ lit " tool operations to complete the task.".
Definition filled_in (reply : StreamedReply) (s : RunState) : RunState :=
  if is_empty (trim (final_content s)) then
    if negb (is_empty (trim (reply_reasoning reply))) then with_content (reply_reasoning reply) s
    else if 0 <? tools_executed s then with_content (work_summary (tools_executed s)) s else s
  else s.
Definition unvalidated (p : RunParams) (turn : nat) (gap : Gap) (s : RunState) : RunState :=
  let critique := lit "Validation was not performed " ++ EM_DASH ++ lit " " ++ gap_text p gap ++ lit ". The deliverable is reported as not validated." in
  status p (lit "Failed (no validation verdict file)") (progress p turn (with_verdict false (Some critique) s)).
Definition passes (p : RunParams) (s : RunState) : str := dec (val_iter s) ++ lit "/" ++ dec (max_val_iterations p).
Definition or_words (words critique : str) : str := if is_empty (trim critique) then words else critique.
Definition validation_pass (p : RunParams) (turn : nat) (t : Turn) (s : RunState) : Run TurnEnd :=
  let s := with_val_iter (val_iter s + 1) s in
  if cancelled_before_pass t then Ran (aborts p s)
  else
    r ← run_automated_validation (turn_prompts t) (turn_prompts_dir t) (p_task_id (base p)) (audit t (final_content s));
    Ran match r with
        | Ok (true, critique) =>
            let feedback := or_words (lit "All verification checks passed.") (critique_text p critique) in
            LeavesLoop (status p (lit "Approved") (progress p turn (with_verdict true (Some feedback) s)))
        | Ok (false, critique) =>
            let feedback := or_words (lit "Deliverable failed verification checks.") (critique_text p critique) in
            let s := progress p turn (with_verdict (validation_passed s) (Some feedback) s) in
            let s := status p (lit "Revising (rejected pass " ++ passes p s ++ lit ")") s in
            let s := tell (lit "Validation feedback: The validator tested your changes and found issues:" ++ [NL] ++ feedback ++ [NL; NL]
                           ++ lit "Please address all validator critique points, verify your work with available tools, and conclude with '" ++ MARKER_COMPLETE ++ lit "'.") s in
            NextTurn (count_nudges 0 s)
        | Err f =>
            if cancelled_after_pass t then aborts p s
            else LeavesLoop (status p (lit "Failed (validation error)")
                   (progress p turn (with_verdict false (Some (lit "Validation failed with error: " ++ failure_text p f)) s)))
        end.
Definition concluded (p : RunParams) (turn : nat) (t : Turn) (reply : StreamedReply) (s : RunState) : Run TurnEnd :=
  let has_verdict := has_terminal_marker (reply_content reply) in
  if (tools_executed s =? 0) && negb has_verdict then
    Ran (Returns (Delivers false (Some TALKED) (final_content s)) (status p (lit "Failed (no tools executed)") s))
  else
    let s := filled_in reply s in
    if requires_validation (posture p) && negb (is_empty (final_content s)) && ((0 <? tools_executed s) || has_verdict)
       && negb (has_replan_marker (reply_content reply)) then
      match verdict_gap (posture p) with
      | Some gap => Ran (LeavesLoop (unvalidated p turn gap s))
      | None =>
          if val_iter s <? max_val_iterations p then validation_pass p turn t s
          else Ran (LeavesLoop (status p (lit "Failed (max validator iterations exceeded)") (with_verdict false (validator_critique s) s)))
      end
    else Ran (LeavesLoop s).
Definition idle_reply (p : RunParams) (turn : nat) (t : Turn) (out : ResumableStreamOutput) (repeating : bool) (s : RunState) : Run TurnEnd :=
  let reply := out_reply out in
  if out_thinking_budget_exceeded out then Ran (over_thinking p reply s)
  else if out_budget_exceeded out then Ran (over_budget p s)
  else if repeating then Ran (looping p s)
  else if negb (has_terminal_marker (reply_content reply)) then Ran (inconclusive reply s)
  else concluded p turn t reply s.

(** ** The calls of a reply *)

Definition verdict_refusal (p : RunParams) : str :=
  lit "ERROR: VERDICT REJECTED " ++ EM_DASH ++ lit " tool `" ++ TOOL_LEAVE_VERDICT ++ lit "` is forbidden for caller `" ++ Agents.as_str (run_agent p)
  ++ lit "` by orchestration policy. Only the " ++ Agents.as_str Validator ++ lit " role may record a validation verdict: " ++ Agents.as_str (run_agent p)
  ++ lit " cannot approve or reject its own deliverable. No verdict was recorded and the verdict file was not modified " ++ EM_DASH
  ++ lit " the deliverable must still pass the automated validator. Conclude with '" ++ MARKER_COMPLETE ++ lit "' instead.".
Definition role_violation (p : RunParams) (n : nat) : str :=
  Agents.as_str (run_agent p) ++ lit " attempted to record its own validation verdict " ++ dec n ++ lit " times; only the "
  ++ Agents.as_str Validator ++ lit " role may record verdicts.".
Definition verdict_summary (approved : bool) (critique : str) : str :=
  (if approved then lit "Verdict: APPROVED" ++ [NL; NL] ++ lit "Comments:" else lit "Verdict: REJECTED" ++ [NL; NL] ++ lit "Critique:") ++ [NL] ++ critique.
Definition work_fallback (tool : str) : str :=
  lit "Tool repetition detected for '" ++ tool ++ lit "'. Do not repeat identical calls " ++ EM_DASH
  ++ lit " proceed with your task or save deliverables with write_file.".

(** Whether a turn had a malformed call, a successful one, and a verdict. *)
Record CallMarks := { had_malformed : bool; had_success : bool; verdict_called : bool }.
Definition no_marks : CallMarks := {| had_malformed := false; had_success := false; verdict_called := false |}.
Inductive CallsEnd := CallsDone (m : CallMarks) (s : RunState) | CallsReturn (x : Returned) (s : RunState).

Definition refuse_verdict (p : RunParams) (tc : ToolCall) (now : Now) (s : RunState) : Returned * RunState + RunState :=
  let s := with_rejections (rejections s + 1) s in
  if MAX_CONSECUTIVE_VERDICT_ROLE_REJECTIONS <=? rejections s then
    inl (Delivers false (Some (role_violation p (rejections s))) (final_content s), status p (lit "Failed (verdict role violation)") s)
  else
    let s := on_core (append_tool_result tc (verdict_refusal p) false rebirth_notice) s in
    inr (on_core (report_context (p_worker_key (base p)) now) s).
(** The verdict of a validator; what its dispatch answers is dropped. *)
Definition take_verdict (p : RunParams) (tc : ToolCall) (c : CallScript) (s : RunState) : RunState :=
  let '(approved, critique) := default (false, NO_EXPLICIT_APPROVAL_REASON) (parse_verdict_args (args_of tc)) in
  let s := status p (if approved then lit "Approved" else lit "Rejected") (with_verdict approved (Some critique) s) in
  let summary := verdict_summary approved critique in
  let s := if is_empty (trim (final_content s)) then with_content summary s
           else if contains critique (final_content s) then s else with_content (final_content s ++ [NL; NL] ++ summary) s in
  let s := on_core (fun k => on_history (snd (dispatched c (run_caller p) (fn_name (tc_function tc)) (args_of tc) (engine k)), journal k) k) s in
  with_executed (tools_executed s + 1) s.
Definition worked (ok : bool) (s : RunState) : RunState :=
  if ok then count_nudges 0 (with_executed (tools_executed s + 1) s) else s.

Fixpoint work_calls (p : RunParams) (scripts : nat -> CallScript) (i : nat) (tcs : list ToolCall) (m : CallMarks) (s : RunState) : CallsEnd :=
  match tcs with
  | [] => CallsDone m s
  | tc :: rest =>
      let c := scripts i in
      let m := {| had_malformed := had_malformed m || is_malformed tc; had_success := had_success m; verdict_called := verdict_called m |} in
      if cancelled_before c then CallsReturn AbortedByUser (status p (lit "Aborted") s)
      else if is_leave_verdict_tool_name (fn_name (tc_function tc)) then
        if negb (may_record_verdict (run_agent p) canonical_entries) then
          match refuse_verdict p tc (call_stamp c) s with
          | inl (x, s) => CallsReturn x s
          | inr s => work_calls p scripts (S i) rest m s
          end
        else CallsDone {| had_malformed := had_malformed m; had_success := had_success m; verdict_called := true |} (take_verdict p tc c s)
      else
        match dispatch_tool_call TOOL_ERROR_PREFIX work_fallback (run_caller p) tc c (core s) with
        | (None, k) => CallsReturn AbortedByUser (status p (lit "Aborted") (on_core (fun _ => k) s))
        | (Some (content, ok), k) =>
            let s := worked ok (on_core (fun _ => k) s) in
            let s := on_core (append_tool_result tc content ok rebirth_notice) s in
            let s := on_core (report_context (p_worker_key (base p)) (call_stamp c)) s in
            let m := {| had_malformed := had_malformed m; had_success := had_success m || ok; verdict_called := verdict_called m |} in
            if str_eqb (fn_name (tc_function tc)) TOOL_REBIRTH && ok then CallsDone m s
            else work_calls p scripts (S i) rest m s
        end
  end.

Definition malformed_count (m : CallMarks) (s : RunState) : RunState :=
  on_core (fun c => if had_malformed m then with_counts (nudges c) (malformed c + 1) c
                    else if had_success m || verdict_called m then with_counts (nudges c) 0 c else c) s.
Definition after_work (p : RunParams) (t : Turn) (m : CallMarks) (s : RunState) : Run TurnEnd :=
  let s := malformed_count m (on_core (inject_drained_notices (late_notices t)) s) in
  if had_malformed m && (MAX_CONSECUTIVE_MALFORMED_TOOL_CALLS <=? malformed (core s)) then
    Ran (Returns (ReplansWith (replan_about p (lit "model repeatedly produced truncated or invalid tool calls " ++ dec MAX_CONSECUTIVE_MALFORMED_TOOL_CALLS
                                               ++ lit " times consecutively without generating valid arguments.")))
           (status p (lit "Replan Required (repeated malformed tool calls)") s))
  else
    let charged := on_history (charge_engine_tool_schema (engine (core s)) (p_tools (base p)), journal (core s)) (core s) in
    k ← keep_within_context charged;
    let s := on_core (fun _ => k) s in
    Ran (if verdict_called m then LeavesLoop s else NextTurn s).

(** ** A turn *)

Definition begin_turn (p : RunParams) (turn : nat) (t : Turn) (s : RunState) : RunState :=
  let s := on_core (fun c => with_stream (new_detector (p_repetition_threshold (base p)) (p_min_pattern_len (base p))) (world c) c) s in
  let s := on_core (report_context (p_worker_key (base p)) (turn_stamp t)) (progress p turn s) in
  on_core (inject_drained_notices (turn_notices t)) s.
Definition ask_model (p : RunParams) (pauses : nat) (env : nat -> CallEnv) (t : Turn) (s : RunState)
    : Run (result (option ResumableStreamOutput) Refusal * RunState) :=
  let c := core s in
  let req := build_turn_request (base p) (p_tools (base p)) (engine c) in
  let w := {| sink := turn_sink t; counters := counters (world c); calls_made := calls_made (world c) |} in
  '(x, d, w) ← stream_single_turn pauses env (req_messages req) (max_tokens_of p) (max_thinking_of p) (detector c) (cancelled_in_stream t) w;
  Ran (x, on_core (with_stream d w) s).
(** The reply is kept: its text, its calls and its message. *)
Definition take_in (p : RunParams) (out : ResumableStreamOutput) (s : RunState) : Run (list ToolCall * bool * RunState) :=
  let reply := out_reply out in
  let s := with_content (update_revision (final_content s) (reply_content reply)) s in
  '(tcs, k) ← calls_of_reply (base p) reply (core s);
  let s := on_core (fun _ => mirror_append_here (assistant_reply reply tcs) k) s in
  '(repeating, s) ← (if out_rep_triggered out then Ran (true, s)
                     else '(b, m) ← or_panic (feed_text (reply_content reply) (monitor (core s))); Ran (b, on_core (with_monitor m) s));
  let s := if negb (out_thinking_budget_exceeded out) || negb (is_empty tcs) then with_thinking 0 s else s in
  Ran (tcs, repeating, s).
Definition take_turn (p : RunParams) (pauses : nat) (env : nat -> CallEnv) (turn : nat) (t : Turn) (s : RunState) : Run TurnEnd :=
  if cancelled_at_turn t then Ran (aborts p s)
  else
    '(x, s) ← ask_model p pauses env t (begin_turn p turn t s);
    match x with
    | Err e => Ran (Returns (FailsWith e) s)
    | Ok None => Ran (aborts p s)
    | Ok (Some out) =>
        '(tcs, repeating, s) ← take_in p out s;
        if is_empty tcs then idle_reply p turn t out repeating s
        else
          match work_calls p (turn_calls t) 0 tcs no_marks s with
          | CallsReturn x s => Ran (Returns x s)
          | CallsDone m s => after_work p t m s
          end
    end.

(** ** A run *)

(** What is delivered once the loop is left. *)
Definition wind_up (p : RunParams) (s : RunState) : Returned * RunState :=
  if (tools_executed s =? 0) && negb (has_terminal_marker (final_content s)) then
    (Delivers false (Some TALKED) (final_content s), status p (lit "Failed (no tools executed)") s)
  else
    let s := status p (if bool_decide (is_Some (validation_skip_reason (posture p))) then lit "Completed (validation skipped by design)"
                       else if validation_passed s then lit "Approved"
                       else if bool_decide (is_Some (validator_critique s)) then lit "Rejected" else lit "Completed") s in
    (if negb (is_empty (final_content s)) then Delivers (validation_passed s) (validator_critique s) (final_content s)
     else if 0 <? tools_executed s then Delivers (validation_passed s) (validator_critique s) (work_summary (tools_executed s))
     else Delivers false (Some (lit "Specialist produced no output deliverable or tool executions")) (final_content s), s).
(** The turns given, one after the other: the answer is [None] when the run goes
    on past them. *)
Fixpoint take_turns (p : RunParams) (pauses : nat) (env : nat -> CallEnv) (turn : nat) (turns : list Turn) (s : RunState)
    : Run (option Returned * RunState) :=
  match turns with
  | [] => Ran (None, s)
  | t :: rest =>
      e ← take_turn p pauses env (S turn) t s;
      match e with
      | NextTurn s => take_turns p pauses env (S turn) rest s
      | LeavesLoop s => let '(x, s) := wind_up p s in Ran (Some x, s)
      | Returns x s => Ran (Some x, s)
      end
  end.

(** ** Setting a run up *)

Record IsolatedContext := {
  role_system_prompt : str; brief : str; ctx_task_id : option str; snippets : list str; image_urls : list str; audio_urls : list str;
  blueprint_tools : option (list str)
}.
(** What the configuration says of a role, and of every role. *)
Record SpecialistConfig := {
  sc_model : option str; sc_prompt : option str; sc_enable_validator : option bool; sc_max_validator_iterations : option nat;
  sc_max_thinking_tokens : option N; sc_reasoning_effort : option str
}.
Record RunConfig := {
  cfg_model : str; cfg_temperature : spec_float; cfg_top_p : spec_float; cfg_presence_penalty : spec_float; cfg_frequency_penalty : spec_float;
  cfg_enable_xml_rescue : bool; cfg_max_stream_tokens : N; cfg_max_thinking_tokens : N; cfg_repetition_threshold : nat; cfg_min_pattern_len : nat;
  cfg_reasoning_effort : option str; cfg_max_context_tokens : nat; cfg_worker_mirror_max : nat
}.
(** The blocks of the system prompt the program renders from its surroundings. *)
Record PromptBlocks := { reasoning_guidance : str; env_block : str; mcp_block : str; git_block : str }.

Definition from_role {A} (sc : option SpecialistConfig) (f : SpecialistConfig -> option A) : option A := sc ≫= f.
Definition clean_task_id (ctx : IsolatedContext) : option str := ctx_task_id ctx ≫= normalize_task_id.
Definition agent_tag (agent : Agent) (clean : option str) : str :=
  match clean with Some t => Agents.as_str agent ++ lit "-" ++ t | None => Agents.as_str agent end.
Definition registry_allows (agent : Agent) (name : str) : bool :=
  match Agents.resolve agent canonical_entries with Some e => allows (entry_namespaces e) name | None => false end.
Definition specialist_advertised_tools {V} (default_tools : list (ToolDef V)) (caller : ToolCaller) (entry_allows : str -> bool) (mcp : list (ToolDef V)) : list (ToolDef V) :=
  advertised_tools_for_caller (assemble_tools_for_caller default_tools caller entry_allows mcp) caller.

Definition WORK_TOOLS : list str := [TOOL_WRITE_FILE; TOOL_REPLACE; TOOL_READ_FILE; TOOL_RUN_COMMAND; TOOL_GREP_SEARCH; TOOL_GLOB; TOOL_REBIRTH].
Definition advertised_names (caller : ToolCaller) (ctx : IsolatedContext) (mcp_names : list str) : list str :=
  fold_left (fun names q => if str_mem q names then names else names ++ [q]) mcp_names
    (match blueprint_tools ctx with Some bp => role_filtered_blueprint caller bp | None => WORK_TOOLS end).
Definition enhanced_system_prompt (ctx : IsolatedContext) (names : list str) (custom : option str) (b : PromptBlocks) : str :=
  let guidance := if contains (reasoning_guidance b) (role_system_prompt ctx) then [] else reasoning_guidance b in
  role_system_prompt ctx ++ [NL; NL] ++ guidance ++ [NL; NL] ++ env_block b ++ [NL] ++ lit "- Tools available: `" ++ join_with (lit "`, `") names
  ++ lit "`." ++ [NL] ++ lit "- You MUST save files and execute real work to complete the task." ++ [NL]
  ++ lit "- Context Preservation: If context usage is high (>= 80%) or advised, call `rebirth` with a detailed summary capturing all pertinent state (including active file paths, current read offsets or line numbers reached in `read_file`, intermediate findings, and next actions) so work resumes seamlessly without starting over."
  ++ match (t ← custom; if is_empty (trim t) then None else Some (trim t)) with Some t => [NL; NL] ++ t | None => [] end
  ++ mcp_block b ++ git_block b.
Definition build_specialist_context (max_context_tokens : nat) (prompt goal : str) (advertised : list (ToolDef Context.Value)) : ContextEngine :=
  charge_engine_tool_schema (specialist_context {| factory_max_context_tokens := max_context_tokens |} prompt goal) advertised.
Definition with_snippets (l : list str) (e : ContextEngine) : ContextEngine :=
  if is_empty l then e
  else Context.append e (User (lit "Snippets:" ++ [NL] ++ join_with ([NL] ++ lit "---" ++ [NL]) l)).

Definition loop_params (cfg : RunConfig) (sc : option SpecialistConfig) (agent : Agent) (clean : option str) (key : str) (tools : list (ToolDef Context.Value)) : LoopParams :=
  {| p_model := default (cfg_model cfg) (from_role sc sc_model); p_tag := agent_tag agent clean; p_task_id := clean; p_worker_key := key; p_tools := tools;
     p_temperature := cfg_temperature cfg; p_top_p := cfg_top_p cfg; p_presence_penalty := cfg_presence_penalty cfg;
     p_frequency_penalty := cfg_frequency_penalty cfg; p_enable_xml_rescue := cfg_enable_xml_rescue cfg; p_max_stream_tokens := cfg_max_stream_tokens cfg;
     p_max_thinking_tokens := default (cfg_max_thinking_tokens cfg) (from_role sc sc_max_thinking_tokens);
     p_repetition_threshold := cfg_repetition_threshold cfg; p_min_pattern_len := cfg_min_pattern_len cfg; p_rebirth_notice := rebirth_notice;
     p_reasoning_effort := or_else (from_role sc (fun c => normalized_reasoning_effort (sc_reasoning_effort c))) (normalized_reasoning_effort (cfg_reasoning_effort cfg)) |}.
Definition initial_state (p : RunParams) (cfg : RunConfig) (e : ContextEngine) (j : option WorkerJournal) (reg : Registry) (w : Stream.World (K := K)) : RunState :=
  {| core := {| engine := e; journal := j;
                monitor := new_monitor {| repetition_breaks := 0; xml_tool_rescues := 0 |} (cfg_repetition_threshold cfg) (cfg_min_pattern_len cfg);
                detector := new_detector (cfg_repetition_threshold cfg) (cfg_min_pattern_len cfg); bounds := bounds_at 0 0 0 0; nudges := 0; malformed := 0;
                registry := reg; world := w |};
     final_content := []; thinking_nudges := 0; rejections := 0; tools_executed := 0; validation_passed := negb (requires_validation (posture p));
     validator_critique := None; val_iter := 0 |}.

(** *** The worker's entry and its journal *)

Context `{DashOrder}.
Record Opened := { opened_key : str; journal_address : N; opened_registry : Registry; opened_journals : Journals }.
Definition seed_of (ctx : IsolatedContext) : WorkerSeed :=
  {| seed_brief := brief ctx; seed_snippets := snippets ctx; seed_image_urls := image_urls ctx; seed_audio_urls := audio_urls ctx; seed_recursion_granted := false |}.
Definition open_worker (agent : Agent) (ctx : IsolatedContext) (token : Token) (cap : nat) (e : ContextEngine) (now : Now) (reg : Registry) (js : Journals) : option Opened :=
  '(key, reg) ← register_active_worker_with_token (clean_task_id ctx) (Agents.as_str agent) (brief ctx) (Some token) now reg;
  let id := default 0%N (worker_id_seq_value <$> workers reg !! key) in
  let '(a, js) := open_journal key id cap js in
  Some {| opened_key := key; journal_address := a; opened_registry := reg;
          opened_journals := on_journals (alter (record_seed (Context.messages e) (seed_of ctx)) a) js |}.
(** The guards of a run, dropped whichever way it ends. *)
Definition close_worker (key : str) (a : N) (j : option WorkerJournal) (now : Now) (reg : Registry) (js : Journals) : option (Registry * Journals) :=
  let js := match j with Some j => on_journals <[a := j]> js | None => js end in
  let js := snd (close_journal a js) in
  reg ← drop_guard key now reg; Some (reg, js).

(** A run still goes on past the turns given, or has handed its answer back. *)
Inductive RunOfTurns := StillAtWork (s : RunState) | HandedBack (x : Returned) (s : RunState) (reg : Registry) (js : Journals).
Definition specialist_params (cfg : RunConfig) (sc : option SpecialistConfig) (agent : Agent) (ctx : IsolatedContext) (tools : list (ToolDef Context.Value))
    (read : str -> ReadEnd) (has_prompts_dir : bool) (texts : (Gap -> str) * (Critique -> str) * (Refusal -> str)) (key : str) : RunParams :=
  let clean := clean_task_id ctx in
  let limit := default 5 (from_role sc sc_max_validator_iterations) in
  {| base := loop_params cfg sc agent clean key tools; run_agent := agent; run_caller := specialist_caller agent (blueprint_tools ctx);
     raw_task_id := ctx_task_id ctx; max_val_iterations := limit;
     posture := posture_of read has_prompts_dir agent (default true (from_role sc sc_enable_validator)) limit clean;
     gap_text := fst (fst texts); critique_wording := snd (fst texts); refusal_text := snd texts |}.
Definition run_specialist_live_inner (cfg : RunConfig) (sc : option SpecialistConfig) (agent : Agent) (ctx : IsolatedContext) (default_tools mcp : list (ToolDef Context.Value))
    (blocks : PromptBlocks) (read : str -> ReadEnd) (has_prompts_dir : bool) (texts : (Gap -> str) * (Critique -> str) * (Refusal -> str))
    (token : Token) (begun ended : Now) (pauses : nat) (env : nat -> CallEnv) (turns : list Turn) (reg : Registry) (js : Journals) (w : Stream.World (K := K))
    : Run RunOfTurns :=
  let caller := specialist_caller agent (blueprint_tools ctx) in
  let tools := specialist_advertised_tools default_tools caller (registry_allows agent) mcp in
  let names := advertised_names caller ctx (map tool_name mcp) in
  let prompt := enhanced_system_prompt ctx names (from_role sc sc_prompt) blocks in
  let e := with_snippets (snippets ctx) (build_specialist_context (cfg_max_context_tokens cfg) prompt (brief ctx) tools) in
  o ← or_fuel (open_worker agent ctx token (cfg_worker_mirror_max cfg) e begun reg js);
  let p := specialist_params cfg sc agent ctx tools read has_prompts_dir texts (opened_key o) in
  let s := initial_state p cfg e (journals (opened_journals o) !! journal_address o) (opened_registry o) w in
  '(x, s) ← take_turns p pauses env 0 turns s;
  match x with
  | None => Ran (StillAtWork s)
  | Some x =>
      '(reg, js) ← or_fuel (close_worker (opened_key o) (journal_address o) (journal (core s)) ended (registry (core s)) (opened_journals o));
      Ran (HandedBack x s reg js)
  end.
End run.
