(* ===== verification/SpecialistFacts.v ===== *)
(** * What the loop of a specialist promises ([src/agents/runner/execution.rs], [src/agents/runner/assembly.rs])

    A rejected deliverable completes no task on its own words, and the answer of
    a run completes its task only when a pass of validation approved it, when
    the run was to be validated at all. *)

From Stdlib Require Import Floats.SpecFloat.
From S2P Require Import Prelude Str Decimal TaskId ToolNames Agents Wire Markers MarkersFacts Json CallArguments Repetition Monitor Context ContextFacts Notice Registry RegistryProps Journal JournalFacts Retry Thinking XmlRescue Client Stream StreamFacts Verdict FixLoop FixLoopFacts Specialist.
Local Open Scope nat_scope.

(** ** Deliverables *)



Section deliverables.
Context `{Unicode}.



End deliverables.

(** ** An approval is earned *)

Section turns.
Context `{Unicode} `{ChunkJson} `{JsonText} `{Tokens} `{Uuids} `{Tokenizer} `{JsonPrinter} {K : Type} `{StreamSink K}.
Implicit Types (s : RunState (K := K)) (t : Turn (K := K)) (p : RunParams).







End turns.

(** ** At concrete inputs *)

#[local] Existing Instances ascii_tables demo_numbers demo_json counted_tokens digit_ids counted_chars scripted scripted_patience no_schemas gmap_order.
#[local] Instance worker_chunks : ChunkJson := {|
  chunk_from_json s := if str_eqb s (lit "look") then Some (chunk_of TOOL_GLOB (lit "{}"))
                       else if str_eqb s (lit "approve") then Some (chunk_of TOOL_LEAVE_VERDICT verdict_text)
                       else if str_eqb s (lit "prose") then Some (said None (Some (lit "I looked at it. ")) None)
                       else if str_eqb s (lit "done") then Some (said None (Some (lit "The tests pass. MISSION COMPLETE")) None) else None
|}.
Definition demo_config : RunConfig :=
  {| cfg_model := lit "m"; cfg_temperature := one; cfg_top_p := one; cfg_presence_penalty := one; cfg_frequency_penalty := one;
     cfg_enable_xml_rescue := false; cfg_max_stream_tokens := 300; Specialist.cfg_max_thinking_tokens := 300; cfg_repetition_threshold := 5; cfg_min_pattern_len := 5;
     cfg_reasoning_effort := None; cfg_max_context_tokens := N.to_nat 5000; cfg_worker_mirror_max := 40 |}.
Definition demo_context : IsolatedContext :=
  {| role_system_prompt := lit "You write code."; brief := lit "Fix the tests."; ctx_task_id := Some (lit "t-1"); snippets := []; image_urls := []; audio_urls := [];
     blueprint_tools := None |}.
Definition plain_prompt : PromptBlocks := {| reasoning_guidance := []; env_block := []; mcp_block := []; git_block := [] |}.
Definition demo_texts : (Gap -> str) * (Critique -> str) * (Refusal -> str) := (fun _ => lit "no brief", fun _ => lit "refused", fun _ => lit "down").
(** A brief of the task stands in the prompts, and a validator's run audits. *)
Definition briefed (name : str) : ReadEnd := if str_eqb name (lit "t-1-validation.md") then ReadText (lit "Run the tests.") else ReadNotFound.
Definition demo_turn : Turn (K := ScriptedSink) :=
  {| cancelled_at_turn := false; turn_notices := []; turn_stamp := noon; turn_sink := {| seen := []; controls := [] |}; cancelled_in_stream := false;
     turn_calls _ := demo_call; late_notices := []; cancelled_before_pass := false; turn_prompts := briefed; turn_prompts_dir := true;
     audit _ _ := run_demo [[lit "look"; lit "[DONE]"]; [lit "verdict"; lit "[DONE]"]] None; cancelled_after_pass := false |}.
Definition work (sc : option SpecialistConfig) (agent : Agent) (l : list (list str)) : Run (RunOfTurns (K := ScriptedSink)) :=
  run_specialist_live_inner demo_config sc agent demo_context [] [] plain_prompt briefed true demo_texts 0 noon noon 1 (replies l)
    (repeat demo_turn (length l)) (initial_registry no_tokens) initial_journals demo_world.
Definition handed_back (r : Run (RunOfTurns (K := ScriptedSink))) : option (Returned * nat) :=
  match r with Ran (HandedBack x s _ _) => Some (x, tools_executed s) | _ => None end.
Definition answer_of (r : Run (RunOfTurns (K := ScriptedSink))) : option (result str Refusal) :=
  x ← fst <$> handed_back r; match deliverable (Some (lit "t-1")) x with Ret a => Some a | _ => None end.

Definition works_and_concludes : list (list str) := [[lit "look"; lit "[DONE]"]; [lit "done"; lit "[DONE]"]].
Example a_validated_run :
  answer_of (work None Coder works_and_concludes) = Some (Ok (lit "The tests pass. MISSION COMPLETE" ++ [NL; NL] ++ lit "MISSION COMPLETE (t-1)")).
Proof. vm_compute. reflexivity. Qed.

(** *** Behaviours the sources do not announce *)

(** A worker that needs no verdict and never concludes is cut after two nudges,
    and what it said last is handed back as complete. *)
Definition unvalidated_role : SpecialistConfig :=
  {| sc_model := None; sc_prompt := None; sc_enable_validator := Some false; sc_max_validator_iterations := None; sc_max_thinking_tokens := None;
     sc_reasoning_effort := None |}.
Definition looks_and_talks : list (list str) :=
  [[lit "look"; lit "[DONE]"]; [lit "prose"; lit "[DONE]"]; [lit "prose"; lit "[DONE]"]; [lit "prose"; lit "[DONE]"]].
Example unconcluded_is_complete :
  answer_of (work (Some unvalidated_role) Coder looks_and_talks) = Some (Ok (lit "I looked at it. " ++ [NL; NL] ++ lit "MISSION COMPLETE (t-1)")).
Proof. vm_compute. reflexivity. Qed.

(** A rejected deliverable completes its task when the critique holds the
    marker: the critique is not revoked as the content is, and a failure it
    names keeps the trailer of a rejection away. *)
Definition premature : str := lit "2 tests failed." ++ [NL] ++ lit "MISSION COMPLETE is premature.".
Definition rejecting_turn : Turn (K := ScriptedSink) :=
  {| cancelled_at_turn := false; turn_notices := []; turn_stamp := noon; turn_sink := {| seen := []; controls := [] |}; cancelled_in_stream := false;
     turn_calls _ := demo_call; late_notices := []; cancelled_before_pass := false; turn_prompts := briefed; turn_prompts_dir := true;
     audit _ _ := Ran (Ok (Verdict false premature), demo_state demo_monitor None); cancelled_after_pass := false |}.
Definition one_pass : SpecialistConfig :=
  {| sc_model := None; sc_prompt := None; sc_enable_validator := None; sc_max_validator_iterations := Some 1; sc_max_thinking_tokens := None;
     sc_reasoning_effort := None |}.
Definition rejected_run : Run (RunOfTurns (K := ScriptedSink)) :=
  run_specialist_live_inner demo_config (Some one_pass) Coder demo_context [] [] plain_prompt briefed true demo_texts 0 noon noon 1
    (replies [[lit "look"; lit "[DONE]"]; [lit "done"; lit "[DONE]"]; [lit "done"; lit "[DONE]"]]) (repeat rejecting_turn 3)
    (initial_registry no_tokens) initial_journals demo_world.
Example rejected_but_complete :
  fst <$> handed_back rejected_run = Some (Delivers false (Some premature) (lit "The tests pass. MISSION COMPLETE")) /\
  match answer_of rejected_run with Some (Ok text) => Markers.parse text = Ret (Some (Markers.Complete None)) | _ => False end.
Proof. by vm_compute. Qed.

(** A call the monitor blocks counts as executed, and starts the nudges anew. *)
Definition glob_call : ToolCall := {| tc_id := lit "c1"; tc_kind := lit "function"; tc_function := {| fn_name := TOOL_GLOB; fn_arguments := lit "{}" |} |}.
Definition weary_monitor : HarnessMonitor := Nat.iter 3 (fun m => snd (observe_tool TOOL_GLOB (VObject []) m)) demo_monitor.
Example a_blocked_call_counts_as_executed :
  let params := specialist_params demo_config None Coder demo_context [] briefed true demo_texts (lit "coder-t-1") in
  let state := initial_state params demo_config demo_engine None (initial_registry no_tokens) demo_world in
  let failing : CallScript := {| cancelled_before := false; cancelled_at_dispatch := false; dispatched _ _ _ e := (inr (lit "not run"), e); call_stamp := noon |} in
  let blocked := count_nudges 2 (on_core (with_monitor weary_monitor) state) in
  fst (observe_tool TOOL_GLOB (VObject []) weary_monitor) = Block /\
  match work_calls params (fun _ => failing) 0 [glob_call] no_marks blocked with CallsDone m s => (had_success m, tools_executed s, nudge_count s) = (true, 1, 0) | _ => False end.
Proof. by vm_compute. Qed.
